(* ===== verification/_CoqProject ===== *)
-Q . S2P
Prelude.v
PyStrings.v
PyLists.v
BinPack.v
BinPackProofs.v
DemandScheduler.v
DemandSchedulerProofs.v
LoadMetrics.v
LoadMetricsProofs.v
AutoscalerTrackers.v
Autoscaler.v
AutoscalerProofs.v
ServeAutoscaling.v
ServeAutoscalingProofs.v
ServeReplica.v
ServeReplicaProofs.v
ServeDeployment.v
ServeDeploymentProofs.v
ServeMetrics.v
ServeManager.v
ServeManagerProofs.v
ServeRouter.v
ServeRouterProofs.v
ServeLongPoll.v
ServeLongPollProofs.v
ServeRouting.v
ServeEndpoint.v
ServeEndpointProofs.v
ActorPool.v
ActorPoolProofs.v
DataSplit.v
DataSplitProofs.v
DataLocality.v
DataLocalityProofs.v
DataBatcher.v
DataBatcherProofs.v
DataShuffle.v
DataShuffleProofs.v
DataSort.v
DataSortProofs.v
DataAggregate.v
DataAggregateProofs.v
DataGroup.v
DataGroupProofs.v
TuneStopping.v
TuneStoppingProofs.v
TuneHyperBand.v
TuneHyperBandProofs.v
WorkflowIndex.v
WorkflowIndexProofs.v
WorkflowState.v
WorkflowExecutor.v
WorkflowPlan.v
WorkflowStateProofs.v
WorkflowExecutorProofs.v
WorkflowStatusProofs.v
WorkflowDag.v
WorkflowDagProofs.v
WorkflowRecovery.v
WorkflowRecoveryProofs.v
WorkflowRunProofs.v
WorkflowTermination.v
WorkflowAccess.v
WorkflowAccessProofs.v
