(* ===== verification/Prelude.v ===== *)
(** * A verification development for Ray's Python control plane

    ** The program

    Ray runs tasks and actors on a cluster; its runtime is C++, and the decisions
    that steer a cluster are Python.  This development models the parts of the
    Python code (under [src/python/ray/]) that decide:

    - the autoscaler's resource demand scheduler
      ([autoscaler/_private/resource_demand_scheduler.py]): given the nodes of the
      cluster and the demands of tasks, placement groups and [request_resources],
      which nodes of which types to launch; and the autoscaler's main loop around it
      ([autoscaler.py], [load_metrics.py], [node_launcher.py] and the trackers), which
      terminates and updates nodes and queues the launches;
    - Ray Serve's controller ([serve/_private/]): the manager of deployments
      creates, checkpoints and recovers deployments; the reconciler of each
      deployment starts, stops, updates and checks replicas until they agree with
      the target; an autoscaling policy moves the target, from averages of a
      metrics store;
    - Ray Serve's data path: the controller announces the running replicas by long
      polling, and the endpoints; the router of each handle keeps the replicas and sends
      each query to one that has room, the router of each HTTP proxy keeps the endpoints
      and matches the paths of requests with their routes;
    - the actor pool of [util/actor_pool.py];
    - Ray Data's splitting of datasets ([data/_internal/split.py], [equalize.py],
      [data/dataset.py]), its iteration over batches
      ([data/_internal/batcher.py], [block_batching.py]), its two shuffles
      ([shuffle.py], [push_based_shuffle.py]), its sort ([sort.py]) and its grouping
      and aggregation ([data/grouped_dataset.py], [data/aggregate.py],
      [null_aggregate.py]);
    - Ray Tune's trial schedulers that stop trials early ([tune/schedulers/]):
      asynchronous successive halving, HyperBand and the median rule;
    - Ray Workflows ([workflow/]): durable graphs of tasks, from the graph of
      function nodes ([workflow_state_from_dag.py]) over the execution state
      ([workflow_state.py]) and the executor's event loop ([workflow_executor.py]) to
      the checkpoints and the index of statuses in storage ([workflow_storage.py]), their
      recovery ([workflow_state_from_storage.py]), and the management actor with the calls
      of the API on it ([workflow_access.py], [api.py]).

    ** The files

    - [Prelude] (this file): the error monad [result] with Python's exceptions, the
      state monad [ST] whose state survives an exception, its weakest
      preconditions, loops, Python dicts in insertion order, sums and lists.
    - [PyStrings], [PyLists]: the string methods, and the slices and sorting of
      lists, that the modelled code calls.
    - [BinPack], [BinPackProofs]: the functions [_fits], [_inplace_subtract],
      [_inplace_add], [get_bin_pack_residual], [_utilization_score],
      [get_nodes_for], [placement_groups_to_resource_demands].
    - [DemandScheduler], [DemandSchedulerProofs]: the class
      [ResourceDemandScheduler] with [get_nodes_to_launch] and all it calls.  The
      cloud's node provider is the record [NodeProvider].
    - [LoadMetrics], [LoadMetricsProofs]: [LoadMetrics] of [load_metrics.py].
    - [AutoscalerTrackers]: [NodeTracker], [EventSummarizer] and
      [NodeProviderAvailabilityTracker].
    - [Autoscaler], [AutoscalerProofs]: [StandardAutoscaler] of [autoscaler.py] and the
      launchers of [node_launcher.py]: a whole [update], which calls the scheduler, the
      load metrics and the trackers.  The sweep that terminates nodes is proved
      to implement the relation [sweep]; what each operation leaves alone is found by the
      tactic [frame].
    - [ServeAutoscaling], [ServeAutoscalingProofs]: [autoscaling_policy.py].
    - [ServeReplica], [ServeReplicaProofs]: [ActorReplicaWrapper],
      [DeploymentReplica], [ReplicaStateContainer] of [deployment_state.py], and
      [version.py].
    - [ServeDeployment], [ServeDeploymentProofs]: [DeploymentState] of
      [deployment_state.py]: targets, rolling updates, scaling, checks, status.
    - [ServeMetrics]: [InMemoryMetricsStore] of [autoscaling_metrics.py].
    - [ServeManager], [ServeManagerProofs]: [DeploymentStateManager] of
      [deployment_state.py] and [ReplicaName] of [common.py].
    - [ServeRouter], [ServeRouterProofs]: [ReplicaSet] of [router.py].
    - [ServeLongPoll], [ServeLongPollProofs]: [LongPollHost] and [LongPollClient]
      of [long_poll.py], and the keys for other languages.
    - [ServeRouting]: the router as a subscriber of the controller ([Router] of
      [router.py]).  The class [Subscriber] is the interface: the composition with
      long polling is proved against it, the router's lemmas discharge it.
    - [ServeEndpoint], [ServeEndpointProofs]: [EndpointState] of [endpoint_state.py], and
      [LongestPrefixRouter] of [http_proxy.py], the second instance of [Subscriber].  The
      proofs compose the two: the host of long polling keeps the controller's table itself,
      which changes under it.
    - [ActorPool], [ActorPoolProofs]: [ActorPool].
    - [DataSplit], [DataSplitProofs]: [BlockList] of [block_list.py], the functions of
      [split.py] and [equalize.py], and [split], [split_at_indices],
      [split_proportionately], [train_test_split] and [limit] of [Dataset].
    - [DataLocality], [DataLocalityProofs]: [Dataset.split] with locality hints.
    - [DataBatcher], [DataBatcherProofs]: [Batcher] and [ShufflingBatcher] of
      [batcher.py], [batch_blocks] of [block_batching.py].  The class
      [BatcherInterface] is the source's interface; [batch_blocks] is proved once
      against its laws [BatcherLaws], and both batchers discharge them, one up to
      equality and one up to permutation of the rows.
    - [DataShuffle], [DataShuffleProofs]: [SimpleShufflePlan] of [shuffle.py] and all of
      [push_based_shuffle.py]: the schedule, the rounds of tasks, the three stages.
    - [DataSort], [DataSortProofs]: [sort.py] on the blocks of [simple_block.py], by either
      shuffle.
    - [DataAggregate], [DataAggregateProofs]: the aggregations of [aggregate.py] with the
      null handling of [null_aggregate.py].  The class [AggregateLaws] is what an aggregation
      promises to a grouping; each aggregation has an instance.
    - [DataGroup], [DataGroupProofs]: [aggregate] and [map_groups] of [GroupedDataset],
      proved against [AggregateLaws], the lemma that the two shuffles agree, and the lemma of
      what a sort returns.
    - [TuneStopping], [TuneStoppingProofs]: [AsyncHyperBandScheduler] and its
      [_Bracket], [MedianStoppingRule], the choice of the FIFO scheduler.
    - [TuneHyperBand], [TuneHyperBandProofs]: [HyperBandScheduler] and its
      [_Bracket].  The trials' statuses are shared with the trial runner, whose
      [stop_trial] calls the scheduler back.
    - [WorkflowIndex], [WorkflowIndexProofs]: [WorkflowIndexingStorage] of
      [workflow_storage.py] on a key-value store, with updates interrupted after any
      write.
    - [WorkflowState]: [WorkflowExecutionState] of [workflow_state.py], with the data
      classes of [common.py] and [workflow_context.py].
    - [WorkflowExecutor]: [WorkflowExecutor] of [workflow_executor.py], and the machine
      of its event loop, with the handlers that go on after another one has raised.
    - [WorkflowPlan], [WorkflowStateProofs], [WorkflowExecutorProofs]: the invariant of
      the state and of the executor, the scheduling plan, and what each operation does
      to the invariant.
    - [WorkflowStatusProofs]: which operations of the executor set the workflow's status.
    - [WorkflowDag], [WorkflowDagProofs]: [workflow_state_from_dag.py], with the
      traversal of [dag/dag_node.py] and the numbering of task names.
    - [WorkflowRecovery], [WorkflowRecoveryProofs]: the checkpoints of tasks in
      [workflow_storage.py] as single writes, and [workflow_state_from_storage.py].
    - [WorkflowAccess], [WorkflowAccessProofs]: [WorkflowManagementActor] of
      [workflow_access.py] and the functions of [api.py] that call it, over the machines of
      the executors it runs and the index of statuses.
    - [WorkflowRunProofs], [WorkflowTermination]: theorems about whole runs of the
      machine; workflows on which they fail.

    Definitions keep the names of the source; a class is a record, a method a
    function on it, a loop body a definition of its own when lemmas speak of it.

    ** How the code is translated

    A method that cannot leave a half-done state behind an exception returns a
    [result]; one that can is an [ST] computation, which gives the state at the
    raising point as well.  A dict is an association list in insertion order,
    because the code iterates over dicts and the order matters.  A dict or list
    that is mutated in place is returned; where the source shares an object and the
    sharing shows (the shallow copy in the deployment's [autoscale], the table of routes
    that the long-poll host refers to, the option dicts of workflow tasks) the model has
    the sharing.  Floats are exact rationals [Q]: the theorems hold up to rounding.
    A Ray call is an observation (what [ray.wait], [ray.get] or the clock answers),
    which the operation takes as an argument and the theorems quantify over, and,
    when it acts, an action in the result.  Pickling is the identity, but for actor handles:
    they are compared by identity, and the copy that a process gets is a new one.  Writes
    of a workflow's storage succeed and are atomic, and paths do not collide.  [bisect] is
    its specification, a set is a list without duplicates, and [random.shuffle] is
    any permutation, another one at each call.  Coroutines are cut at their awaits,
    threads at their shared writes; the pieces are the steps of a transition system
    ([ServeRouterProofs], [ServeLongPoll], [ServeRouting], [AutoscalerProofs],
    [WorkflowExecutor]) that interleaves them in every order.  Where the order of a dict
    does not show, it is a finite map of stdpp; the one loop of the workflow executor
    over a set takes its order as an argument.

    ** Fuel

    Loops that are not structural run on fuel; running out of it is the exception
    [OutOfFuel], which the theorems exclude.  [get_nodes_for] loops until no demand
    is left; each round places a demand, so the number of demands is enough
    ([get_nodes_for_within_limits]).  The batches of a launch take a node at least each,
    if the batch size is positive: the number of nodes is enough ([launch_batched]); if it
    is not, the loop of the source does not end ([empty_batch_never_ends]), and an update
    of the model runs out of fuel.  The loops of [map] and
    [map_unordered] in the actor pool take one outstanding task off per round; the model runs them with one
    more than the outstanding tasks ([map_in_order]).  The loops of the splits pass
    an index, a block or a piece per round and get the sum of their numbers
    ([split_at_indices_is_np_split]).  The loop over full batches takes a row at
    least per round: any fuel of the number of rows is enough
    ([batch_blocks_in_order]).  HyperBand's search for a bracket passes one bracket
    per round and ends within a band ([hyperband_add_total]), and its callbacks nest
    twice at a halving ([halving_resumes]).  The scheduling plan of a workflow visits a
    task once per dependency on it and goes down chains of continuations; the fuel is
    the number of tasks and dependencies, and the depth the number of tasks
    ([construct_scheduling_plan_spec]); the search for a task that catches an exception
    goes up the creators ([find_catcher_none]).  Recovery goes down the links of
    continuations and the inputs of tasks, with the fuel [recover_fuel] of the records in
    storage ([resume_after_crash]).  In a push-based shuffle each round of the reduce order
    visits every partition, each round of map tasks takes an input and each round of reduce
    tasks an output, and the last rounds drain; the fuels are the size of a partition, the
    inputs and the outputs, and a constant ([push_based_is_simple]).  The merge of sorted
    blocks takes an item off per turn, and has as many turns as items ([heapq_merge_eq]).

    ** What is shown

    - Autoscaler: packing is a plan that overdraws no node, loses no demand and
      leaves nothing that still fits; the nodes bought carry the demands they were
      bought for; a decision respects the limits of each type and of the cluster
      and the throttle on concurrent launches; placement groups become demands
      without loss.  Two groups of theorems show where it raises: placement groups
      with strict spread, and demands of amount zero.
    - Autoscaler, main loop: a whole update keeps existing nodes and pending launches of
      every type it launches within the type's limit; enforcing the configuration leaves
      a cluster within it, keeps [min_workers] and what is requested, and terminates a
      node only with a reason, idleness being that of every heartbeat since the timeout;
      health checks terminate only nodes that have lost contact; the pending
      launches are those in the queue, with launchers, and counted but not put yet by a
      call that is running, between any two writes of it; failing updates are
      tolerated up to a bound; the two readings of the usage agree; the availability
      tracker keeps the last report of each type while it is fresh.  A full node tracker
      mislabels nodes.
    - Serve controller: an update cycle never raises on a well-formed deployment and
      loses no replica as long as the lookups of an actor agree (and can lose the stopping
      ones if they do not), never exceeds its target, keeps enough replicas during a
      rolling update, reports HEALTHY only at the goal and deletion only when
      empty; deletion completes; a target is written ahead and survives a crash;
      a replica is unhealthy exactly after three failures in a row or a crash; the
      policy waits out its delays and stays within its bounds; averages are those
      of the window.  The error theorems show four behaviours of failing writes,
      names and notifications that the code does not mean.
    - Serve data path: no notification is lost to a polling client, a client with
      the host's version has the host's object and its callback has got it; a
      router never counts more queries on a replica than it takes (but counts from zero
      after each answer, so it can exceed that), refuses a query
      only when every replica is full, and once its client is up to date sends
      queries only to replicas that the controller announced; a proxy that is up to date
      routes by the longest prefix, unless a write of the table has failed; the endpoints announced last are those a restart
      recovers, but a failed write of them is not made up for.
    - Actor pool: results in order, every result once, and a pool invariant; and
      two calls that raise where they mean to ignore.
    - Data: splits are those of the list of all rows, however it is cut into blocks;
      equal splits are equal and lose less than a row per split; proportionate
      splits are never empty (but are refused too eagerly); splits by locality are
      fair; batches are the rows in order, or a permutation of them, in full batches
      but for the last.  The push-based shuffle returns the blocks of the simple one, when
      its schedule is good; its schedule keeps to the CPUs; it fails exactly when a lookup
      with a wrong bound matters.  A sort returns what Python's [sorted] makes of the whole
      dataset, with equal keys in one block.  A grouping returns one row for each key, with
      the aggregations of all its rows, or what a function returns on them if no row is
      [None]; the aggregations
      treat nulls by their policy, but for empty blocks when nulls are not ignored.
    - Tune: ASHA and the median rule stop a trial only when another one is better
      (or, for the median rule, when a mean is not a number, which stops the best
      trial too); rewards are written once; a HyperBand halving keeps the best and
      resumes them, milestones grow, a trial always finds a bracket; with reduction
      factor 2 HyperBand can hang.
    - Workflow: the index of statuses is exact after any history of updates, crashes and
      deletions.  Graphs become well-formed states.  For workflows of checkpointed tasks
      that do not catch exceptions, under every interleaving of completions, failures,
      retries, continuations, cancellations and requests: a task is submitted only with
      its inputs, the parts of the state agree, every planned task without its output waits
      for one that is active, the executor fails only as it means to, with the status of its
      failure (which handlers that go on can change to that of another one), and is
      SUCCESSFUL only with the output; with tasks that return it ends.  Without checkpoints it can be SUCCESSFUL without output.
    - Workflow, storage and management: after a crash between any two writes a workflow
      resumes to a state that lacks only what was not written; what is saved is what is
      recovered, for tasks with any options.  The actor's tables agree with the executors it runs under every
      interleaving; queued workflows are run in turn; a listing agrees with the statuses of
      the workflows; a restart of the actor leaves every unfinished workflow resumable.

    ** What is not modelled

    The C++ runtime and the other languages; cloud providers, the monitor process and
    the commands that updaters run; HTTP requests; actor bodies and user code; logging,
    metrics gauges and text of messages; protobuf encodings (generated); RLlib, Train, AIR, the
    dashboard and the command line; pandas, Arrow and numpy (parameters where they
    are called; numbers that are aggregated are rationals in lowest terms).  Of the Python
    control plane these parts are left out: Serve's batching and deployment graphs, Tune's
    trial runner, population based training and search algorithms, Data's lazy plans,
    repartitioning and formats other than lists, and the events of workflows.  They run
    user code on actors or wrap libraries, and what the modelled parts need of them is an
    argument or a hypothesis of the definitions here. *)
From stdpp Require Import base tactics list gmap strings sorting.
From Stdlib Require Import QArith Qround Lqa.

#[global] Open Scope Z_scope.
#[global] Open Scope list_scope.

(** ** Exceptions and the error monad *)

(** The Python exceptions the modelled code can raise.  [OutOfFuel] is the
    one constructor that is not an exception of the program: a model whose
    recursion is bounded by fuel returns it when the fuel runs out, and every
    such model comes with a theorem that this does not happen. *)
Inductive exn :=
  | AssertionError | KeyError | IndexError | ValueError | TypeError
  | RuntimeError | AttributeError | StopIteration | ZeroDivisionError
  | TimeoutError | UnboundLocalError | RayError | TuneError | PyException | MaxRetryError
  | RayTaskError | CancelledError | InvalidStateError | QueueFull
  | KeyNotFoundError | WorkflowNotFoundError | WorkflowExecutionError | WorkflowCancellationError
  | WorkflowStillActiveError | WorkflowNotResumableError | WorkflowTaskNotRecoverableError
  | OutOfFuel.

#[global] Instance exn_eq_dec : EqDecision exn.
Proof. solve_decision. Defined.

Inductive result (A : Type) :=
  | Ok (a : A)
  | Err (e : exn).
Arguments Ok {A} a.
Arguments Err {A} e.

#[global] Instance result_ret : MRet result := λ A a, Ok a.
#[global] Instance result_bind : MBind result := λ A B f c,
  match c with Ok a => f a | Err e => Err e end.
#[global] Instance result_fmap : FMap result := λ A B f c,
  match c with Ok a => Ok (f a) | Err e => Err e end.

Definition is_Ok {A} (r : result A) : Prop := ∃ a, r = Ok a.

(** Python's [assert]. *)
Definition py_assert (b : bool) : result unit :=
  if b then Ok tt else Err AssertionError.

Definition of_option {A} (e : exn) (o : option A) : result A :=
  match o with Some a => Ok a | None => Err e end.

Section result_lemmas.
Context {A B : Type}.

Lemma bind_Ok (c : result A) (f : A → result B) b :
  (c ≫= f) = Ok b ↔ ∃ a, c = Ok a ∧ f a = Ok b.
Proof. destruct c; cbn; naive_solver. Qed.

Lemma bind_Err (c : result A) (f : A → result B) e :
  (c ≫= f) = Err e ↔ c = Err e ∨ ∃ a, c = Ok a ∧ f a = Err e.
Proof. destruct c; cbn; naive_solver. Qed.

Lemma py_assert_Ok b u : py_assert b = Ok u ↔ b = true.
Proof. destruct b, u; cbn; naive_solver. Qed.

Lemma of_option_Ok e (o : option A) a : of_option e o = Ok a ↔ o = Some a.
Proof. destruct o; cbn; naive_solver. Qed.
End result_lemmas.

(** Break every bind, assertion and option access of a hypothesis that says a
    computation succeeded. *)
Ltac inv_ok :=
  cbv beta in *;
  repeat match goal with
  | H : Err _ = Ok _ |- _ => discriminate H
  | H : Ok _ = Err _ |- _ => discriminate H
  | H : Ok _ = Ok _ |- _ => injection H as H; try subst
  | H : mret _ = Ok _ |- _ => unfold mret, result_ret in H
  | H : mbind _ _ = Ok _ |- _ =>
      apply bind_Ok in H; destruct H as (? & ? & H)
  | H : py_assert _ = Ok _ |- _ => apply py_assert_Ok in H
  | H : of_option _ _ = Ok _ |- _ => apply of_option_Ok in H
  | H : (_, _) = (_, _) |- _ => injection H as H; try subst
  | H : match ?p with _ => _ end = Ok _ |- _ =>
      is_var p; lazymatch type of p with (_ * _)%type => destruct p end
  end; simplify_eq/=.

(** The function at the head of an application, for tactics that unfold one
    operation after the other. *)
Ltac head_of t := lazymatch t with ?f _ => head_of f | _ => t end.

(** A [for] loop whose body may raise. *)
Fixpoint foldM {A S} (f : S → A → result S) (s : S) (l : list A) : result S :=
  match l with
  | [] => Ok s
  | a :: l => s' ← f s a; foldM f s' l
  end.

Section foldM_lemmas.
Context {A S : Type} (f : S → A → result S).

Lemma foldM_app s l1 l2 :
  foldM f s (l1 ++ l2) = (s' ← foldM f s l1; foldM f s' l2).
Proof.
  revert s; induction l1 as [|a l1 IH]; intros s; cbn; [done|].
  destruct (f s a); cbn; auto.
Qed.

(** The loop rule: what one iteration preserves, the loop preserves. *)
Lemma foldM_inv (P : S → Prop) s l s' :
  foldM f s l = Ok s' →
  P s →
  (∀ s a s', a ∈ l → P s → f s a = Ok s' → P s') →
  P s'.
Proof.
  revert s; induction l as [|a l IH]; cbn; intros s Hf Hs Hstep; inv_ok.
  - done.
  - eapply IH; [done|..].
    + eapply Hstep; [left|done|done].
    + intros. eapply Hstep; [by right|done|done].
Qed.

(** The loop rule for progress: no iteration raises while [P] holds. *)
Lemma foldM_total (P : S → Prop) s l :
  P s →
  (∀ s a, a ∈ l → P s → ∃ s', f s a = Ok s' ∧ P s') →
  ∃ s', foldM f s l = Ok s' ∧ P s'.
Proof.
  revert s; induction l as [|a l IH]; cbn; intros s Hs Hstep; [by eauto|].
  destruct (Hstep s a) as (s1 & Hf & Hs1); [left|done|].
  rewrite Hf; cbn. apply IH; [done|]. intros; apply Hstep; [by right|done].
Qed.
End foldM_lemmas.

(** The same rule for a loop that cannot raise. *)
Lemma fold_left_inv {A S} (f : S → A → S) (P : S → Prop) l s :
  P s → (∀ s a, a ∈ l → P s → P (f s a)) → P (fold_left f l s).
Proof.
  revert s; induction l as [|a l IH]; cbn; intros s Hs Hstep; [done|].
  apply IH; [by apply Hstep; [left|]|]. intros; apply Hstep; [by right|done].
Qed.

(** ** Python dictionaries

    A Python [dict] iterates in insertion order and the modelled code depends
    on that order (bin packing, ties), so a dict is an association list:
    assignment updates a key in place or appends it, deletion keeps the order
    of the rest. *)
Definition dict (K V : Type) := list (K * V).

Section dict.
Context {K V : Type} `{EqDecision K}.
Implicit Types (d : dict K V) (k : K) (v : V).

Fixpoint dget (k : K) (d : dict K V) : option V :=
  match d with
  | [] => None
  | (k', v) :: d => if decide (k = k') then Some v else dget k d
  end.

(** [d.get(k, dflt)] *)
Definition dget_def (k : K) (dflt : V) (d : dict K V) : V :=
  default dflt (dget k d).

(** [d[k]] *)
Definition dget_exn (k : K) (d : dict K V) : result V :=
  of_option KeyError (dget k d).

(** [k in d] *)
Definition din (k : K) (d : dict K V) : bool :=
  match dget k d with Some _ => true | None => false end.

(** [d[k] = v] *)
Fixpoint dset (k : K) (v : V) (d : dict K V) : dict K V :=
  match d with
  | [] => [(k, v)]
  | (k', v') :: d => if decide (k = k') then (k', v) :: d else (k', v') :: dset k v d
  end.

(** [del d[k]], the case where the key is present *)
Fixpoint ddel (k : K) (d : dict K V) : dict K V :=
  match d with
  | [] => []
  | (k', v') :: d => if decide (k = k') then d else (k', v') :: ddel k d
  end.

Definition dkeys (d : dict K V) : list K := d.*1.
Definition dvalues (d : dict K V) : list V := d.*2.

(** [d.update(d')] *)
Definition dupdate (d d' : dict K V) : dict K V :=
  fold_left (λ acc '(k, v), dset k v acc) d' d.

(** A dict has one entry per key. *)
Definition dict_wf (d : dict K V) : Prop := NoDup (dkeys d).

Lemma dget_dset k k' v d :
  dget k (dset k' v d) = if decide (k = k') then Some v else dget k d.
Proof.
  induction d as [|[k1 v1] d IH]; cbn.
  - by repeat case_decide.
  - repeat case_decide; cbn; repeat case_decide; simplify_eq; naive_solver.
Qed.

Lemma dget_dset_eq k v d : dget k (dset k v d) = Some v.
Proof. rewrite dget_dset. by case_decide. Qed.

Lemma dget_dset_ne k k' v d : k ≠ k' → dget k (dset k' v d) = dget k d.
Proof. intros. rewrite dget_dset. by case_decide. Qed.

Lemma din_spec k d : din k d = true ↔ k ∈ dkeys d.
Proof.
  unfold din, dkeys. induction d as [|[k1 v1] d IH]; cbn.
  - split; [done|]. by intros ?%not_elem_of_nil.
  - case_decide; subst; rewrite elem_of_cons; naive_solver.
Qed.

Lemma din_keys k d d' : dkeys d = dkeys d' → din k d = din k d'.
Proof. intros Hk. apply eq_true_iff_eq. by rewrite !din_spec, Hk. Qed.

Lemma dget_None k d : dget k d = None ↔ k ∉ dkeys d.
Proof.
  rewrite <- din_spec. unfold din. destruct (dget k d); naive_solver.
Qed.

Lemma dget_Some_elem k v d : dget k d = Some v → (k, v) ∈ d.
Proof.
  induction d as [|[k1 v1] d IH]; cbn; [done|].
  case_decide; intros; simplify_eq; [left|right; auto].
Qed.

Lemma dget_elem k v d : dict_wf d → (k, v) ∈ d → dget k d = Some v.
Proof.
  unfold dict_wf, dkeys.
  induction d as [|[k1 v1] d IH]; cbn; intros Hwf Hin.
  - by apply not_elem_of_nil in Hin.
  - apply NoDup_cons in Hwf as [Hk1 Hwf].
    apply elem_of_cons in Hin as [?|Hin]; simplify_eq.
    + by case_decide.
    + case_decide; [|by apply IH]. subst. destruct Hk1.
      apply list_elem_of_fmap. by exists (k1, v).
Qed.

Lemma dget_elem_key k v d : dget k d = Some v → k ∈ dkeys d.
Proof. rewrite <- din_spec. unfold din. by intros ->. Qed.

Lemma dkeys_dset k v d :
  dkeys (dset k v d) = if din k d then dkeys d else dkeys d ++ [k].
Proof.
  unfold din, dkeys. induction d as [|[k1 v1] d IH]; cbn; [done|].
  case_decide; cbn; [done|]. rewrite IH. by destruct (dget k d).
Qed.

Lemma elem_of_dkeys_dset k k' v d :
  k ∈ dkeys (dset k' v d) ↔ k = k' ∨ k ∈ dkeys d.
Proof.
  rewrite dkeys_dset. destruct (din k' d) eqn:Hin.
  - apply din_spec in Hin. naive_solver.
  - rewrite elem_of_app, list_elem_of_singleton. naive_solver.
Qed.

Lemma dset_wf k v d : dict_wf d → dict_wf (dset k v d).
Proof.
  unfold dict_wf. rewrite dkeys_dset. destruct (din k d) eqn:Hin; [done|].
  intros Hwf. apply NoDup_app. split_and!; [done| |apply NoDup_singleton].
  intros k' Hk' ->%list_elem_of_singleton.
  apply din_spec in Hk'. congruence.
Qed.

Lemma dset_nonempty k v d : dset k v d ≠ [].
Proof. destruct d as [|[??] ?]; cbn; [done|]. by case_decide. Qed.

Lemma dget_def_cons k k' dflt v d :
  dget_def k dflt ((k', v) :: d) = if decide (k = k') then v else dget_def k dflt d.
Proof. unfold dget_def. cbn. by case_decide. Qed.

Lemma dget_def_not_in k dflt d : k ∉ dkeys d → dget_def k dflt d = dflt.
Proof. unfold dget_def. by intros ->%dget_None. Qed.

Lemma dget_def_dset k k' dflt v d :
  dget_def k dflt (dset k' v d) = if decide (k = k') then v else dget_def k dflt d.
Proof. unfold dget_def. rewrite dget_dset. by case_decide. Qed.
End dict.

(** Assigning a new key appends it. *)
Lemma dset_fresh {K V} `{EqDecision K} (k : K) (v : V) (d : dict K V) :
  k ∉ dkeys d → dset k v d = d ++ [(k, v)].
Proof.
  unfold dkeys. induction d as [|[k' v'] d IH]; cbn; [done|]. rewrite not_elem_of_cons.
  intros [Hne Hk]. rewrite decide_False by done. by rewrite IH.
Qed.

(** A loop that at each element may assign one key: where the entries of its
    result come from. *)
Section fold_dset.
Context {A K V : Type} `{EqDecision K} (g : dict K V → A → dict K V) (P : A → K → V → Prop).
Hypothesis g_step : ∀ acc a, g acc a = acc ∨ ∃ k v, P a k v ∧ g acc a = dset k v acc.

Lemma fold_dset_get l acc k v :
  dget k (fold_left g l acc) = Some v →
  dget k acc = Some v ∨ ∃ a, a ∈ l ∧ P a k v.
Proof.
  revert acc. induction l as [|a l IH]; cbn; intros acc H; [by left|].
  apply IH in H as [H|(a' & Hin & HP)]; [|right; exists a'; split; [by right|done]].
  destruct (g_step acc a) as [Hg|(k' & v' & HP & Hg)]; rewrite Hg in H; [by left|].
  rewrite dget_dset in H. case_decide; simplify_eq; [|by left].
  right. exists a. split; [left|done].
Qed.

Lemma fold_dset_wf l acc : dict_wf acc → dict_wf (fold_left g l acc).
Proof.
  revert acc. induction l as [|a l IH]; cbn; intros acc H; [done|]. apply IH.
  destruct (g_step acc a) as [->|(k & v & _ & ->)]; [done|by apply dset_wf].
Qed.
End fold_dset.

Arguments dict_wf {K V} d : simpl never.
Arguments dkeys {K V} d : simpl never.
Arguments dvalues {K V} d : simpl never.
Arguments dget_def {K V _} k dflt d : simpl never.

Create HintDb pydict.
Create Rewrite HintDb pydict.
#[export] Hint Rewrite @dget_dset_eq @dget_def_dset : pydict.
#[export] Hint Resolve dset_wf dset_nonempty : pydict.

(** ** Comparison and sorting

    Python's [sorted] is stable, also with [reverse=True]: elements whose keys
    compare equal keep their order.  Keys are compared with a three-way
    comparison; tuples and lists compare lexicographically. *)
Definition cmp_then (c1 c2 : comparison) : comparison :=
  match c1 with Eq => c2 | _ => c1 end.

Definition pair_cmp {A B} (cA : A → A → comparison) (cB : B → B → comparison)
    (x y : A * B) : comparison :=
  cmp_then (cA x.1 y.1) (cB x.2 y.2).

Fixpoint list_cmp {A} (c : A → A → comparison) (l1 l2 : list A) : comparison :=
  match l1, l2 with
  | [], [] => Eq
  | [], _ :: _ => Lt
  | _ :: _, [] => Gt
  | x :: l1, y :: l2 => cmp_then (c x y) (list_cmp c l1 l2)
  end.

Section sorting.
Context {A : Type} (before : A → A → bool).

(** Insert [x] in front of the first element it need not follow. *)
Fixpoint sort_insert (x : A) (l : list A) : list A :=
  match l with
  | [] => [x]
  | y :: l => if before x y then x :: y :: l else y :: sort_insert x l
  end.

Definition stable_sort (l : list A) : list A := foldr sort_insert [] l.

Lemma sort_insert_perm x l : sort_insert x l ≡ₚ x :: l.
Proof.
  induction l as [|y l IH]; cbn; [done|]. destruct (before x y); [done|].
  rewrite IH. apply Permutation_swap.
Qed.

Lemma stable_sort_perm l : stable_sort l ≡ₚ l.
Proof.
  induction l as [|x l IH]; cbn; [done|]. rewrite sort_insert_perm. by f_equiv.
Qed.

Lemma stable_sort_length l : length (stable_sort l) = length l.
Proof. by rewrite stable_sort_perm. Qed.

Lemma elem_of_stable_sort x l : x ∈ stable_sort l ↔ x ∈ l.
Proof. by rewrite stable_sort_perm. Qed.
End sorting.

(** [sorted(l, key=key)] *)
Definition py_sorted {A B} (cmp : B → B → comparison) (key : A → B) : list A → list A :=
  stable_sort (λ x y, match cmp (key x) (key y) with Gt => false | _ => true end).

(** [sorted(l, key=key, reverse=True)] *)
Definition py_sorted_rev {A B} (cmp : B → B → comparison) (key : A → B) : list A → list A :=
  stable_sort (λ x y, match cmp (key x) (key y) with Lt => false | _ => true end).

Lemma py_sorted_perm {A B} (cmp : B → B → comparison) (key : A → B) l :
  py_sorted cmp key l ≡ₚ l.
Proof. apply stable_sort_perm. Qed.

Lemma py_sorted_rev_perm {A B} (cmp : B → B → comparison) (key : A → B) l :
  py_sorted_rev cmp key l ≡ₚ l.
Proof. apply stable_sort_perm. Qed.

(** ** Numbers

    Python's integers are [Z].  Its floats are modelled by exact rationals:
    rounding is not modelled. *)
Definition Qltb (x y : Q) : bool := negb (Qle_bool y x).

Lemma Qltb_true x y : Qltb x y = true ↔ (x < y)%Q.
Proof.
  unfold Qltb. rewrite negb_true_iff, <- not_true_iff_false, Qle_bool_iff.
  split; [apply Qnot_le_lt|apply Qlt_not_le].
Qed.

Lemma Qltb_false x y : Qltb x y = false ↔ (y <= x)%Q.
Proof. unfold Qltb. by rewrite negb_false_iff, Qle_bool_iff. Qed.

(** [int(q)]: truncation towards zero. *)
Definition py_int (q : Q) : Z := Z.quot (Qnum q) (Zpos (Qden q)).

(** [sum(l)] for integers and for floats. *)
Definition sumZ (l : list Z) : Z := foldr Z.add 0 l.
Definition sumQ (l : list Q) : Q := foldr Qplus 0%Q l.

#[global] Arguments sumZ : simpl never.

Lemma sumZ_cons x l : sumZ (x :: l) = x + sumZ l.
Proof. done. Qed.

Lemma sumZ_app l1 l2 : sumZ (l1 ++ l2) = sumZ l1 + sumZ l2.
Proof. unfold sumZ. induction l1; cbn; lia. Qed.

(** What an in-place assignment does to the sum of a dict's values. *)
Lemma sumZ_dset {K} `{EqDecision K} (k : K) v (d : dict K Z) :
  sumZ (dvalues (dset k v d)) = sumZ (dvalues d) - dget_def k 0 d + v.
Proof.
  unfold dvalues, dget_def, sumZ.
  induction d as [|[k' v'] d IH]; [cbn; lia|]. cbn in *.
  case_decide; cbn in *; lia.
Qed.

Lemma sumZ_fmap_add {A} (f g : A → Z) l :
  sumZ ((λ x, f x + g x) <$> l) = sumZ (f <$> l) + sumZ (g <$> l).
Proof. unfold sumZ. induction l; cbn in *; lia. Qed.

Lemma sumZ_fmap_ext {A} (f g : A → Z) l :
  (∀ x, x ∈ l → f x = g x) → sumZ (f <$> l) = sumZ (g <$> l).
Proof.
  unfold sumZ. induction l as [|x l IH]; cbn in *; intros Hfg; [done|].
  rewrite (Hfg x) by left. rewrite IH; [done|]. intros; apply Hfg; by right.
Qed.

Lemma sumZ_fmap_le {A} (f g : A → Z) l :
  (∀ x, x ∈ l → f x <= g x) → sumZ (f <$> l) <= sumZ (g <$> l).
Proof.
  unfold sumZ. induction l as [|x l IH]; cbn in *; intros Hfg; [done|].
  specialize (IH (λ y Hy, Hfg y (list_elem_of_further _ _ _ Hy))).
  specialize (Hfg x (list_elem_of_here _ _)). lia.
Qed.

Lemma sumZ_perm l1 l2 : l1 ≡ₚ l2 → sumZ l1 = sumZ l2.
Proof. unfold sumZ. induction 1; cbn in *; lia. Qed.

(** A dict's values can be summed over any duplicate-free list of keys that
    covers it. *)
Lemma sumZ_over_keys {K} `{EqDecision K} (d : dict K Z) (ks : list K) :
  dict_wf d → NoDup ks → (∀ k, k ∈ dkeys d → k ∈ ks) →
  sumZ (dvalues d) = sumZ ((λ k, dget_def k 0 d) <$> ks).
Proof.
  unfold dict_wf, dkeys, dvalues. revert ks.
  induction d as [|[k v] d IH]; cbn; rewrite ?sumZ_cons; intros ks Hwf Hks Hsub.
  - rewrite (sumZ_fmap_ext _ (λ _, 0)) by done. clear. unfold sumZ. induction ks; cbn in *; lia.
  - apply NoDup_cons in Hwf as [Hk Hwf].
    destruct (proj1 (elem_of_Permutation ks k)) as [ks' Hp]; [apply Hsub; left|].
    rewrite (sumZ_perm _ _ (fmap_Permutation _ _ _ Hp)). cbn. rewrite sumZ_cons.
    rewrite Hp in Hks. apply NoDup_cons in Hks as [Hkk Hks'].
    assert (dget_def k 0 ((k, v) :: d) = v) as -> by (unfold dget_def; cbn; by case_decide).
    rewrite (IH ks'); [|done|done|].
    + f_equal. apply sumZ_fmap_ext. intros k' Hk'. unfold dget_def. cbn.
      case_decide; [by subst|done].
    + intros k' Hk'. assert (k' ∈ k :: ks') as Hin by (rewrite <- Hp; apply Hsub; by right).
      apply elem_of_cons in Hin as [->|]; done.
Qed.

(** ** Stateful code that may raise

    A method that mutates its object and may raise: an exception keeps the
    mutations made before it. *)
Definition ST (S A : Type) := S → S * result A.

#[global] Instance st_ret {S} : MRet (ST S) := λ A a s, (s, Ok a).
#[global] Instance st_bind {S} : MBind (ST S) := λ A B f m s,
  match m s with
  | (s', Ok a) => f a s'
  | (s', Err e) => (s', Err e)
  end.

Section st.
Context {S : Type}.

Definition st_get : ST S S := λ s, (s, Ok s).
Definition st_gets {A} (f : S → A) : ST S A := λ s, (s, Ok (f s)).
Definition st_modify (f : S → S) : ST S unit := λ s, (f s, Ok tt).
Definition st_raise {A} (e : exn) : ST S A := λ s, (s, Err e).
Definition st_lift {A} (r : result A) : ST S A := λ s, (s, r).

(** [for a in l: f(a)] *)
Fixpoint st_for {A} (l : list A) (f : A → ST S unit) : ST S unit :=
  match l with
  | [] => mret tt
  | a :: l => _ ← f a; st_for l f
  end.

Lemma st_bind_Ok {A B} (m : ST S A) (f : A → ST S B) s s' b :
  (m ≫= f) s = (s', Ok b) ↔ ∃ s1 a, m s = (s1, Ok a) ∧ f a s1 = (s', Ok b).
Proof.
  unfold mbind, st_bind. destruct (m s) as [s1 [a|e]]; naive_solver.
Qed.

Lemma st_for_inv {A} (P : S → Prop) (l : list A) f s s' r :
  st_for l f s = (s', r) → P s →
  (∀ a s s' r, a ∈ l → P s → f a s = (s', r) → P s') → P s'.
Proof.
  revert s. induction l as [|a l IH]; intros s Hf Hs Hstep.
  - cbn in Hf. unfold mret, st_ret in Hf. by simplify_eq.
  - cbn in Hf. unfold mbind, st_bind in Hf. destruct (f a s) as [s1 [[]|e]] eqn:Hfa.
    + eapply IH; [exact Hf| |].
      * eapply Hstep; [left|exact Hs|exact Hfa].
      * intros b ? ? ? Hb. apply Hstep. by right.
    + simplify_eq. eapply Hstep; [left|exact Hs|exact Hfa].
Qed.
End st.

(** Run the binds, reads and writes of a hypothesis [m s = (s', Ok a)]. *)
Ltac inv_st :=
  cbv beta in *;
  repeat match goal with
  | H : (_, Err _) = (_, Ok _) |- _ => discriminate H
  | H : (_, Ok _) = (_, Err _) |- _ => discriminate H
  | H : (_, _) = (_, _) |- _ => injection H as H; try subst
  | H : Ok _ = Ok _ |- _ => injection H as H; try subst
  | H : mbind _ _ _ = (_, Ok _) |- _ =>
      apply st_bind_Ok in H; destruct H as (? & ? & ? & H)
  | H : mret _ _ = _ |- _ => unfold mret, st_ret in H
  | H : st_get _ = _ |- _ => unfold st_get in H
  | H : st_gets _ _ = _ |- _ => unfold st_gets in H
  | H : st_modify _ _ = _ |- _ => unfold st_modify in H
  | H : st_raise _ _ = _ |- _ => unfold st_raise in H
  | H : st_lift _ _ = _ |- _ => unfold st_lift in H
  end; simplify_eq/=.

(** ** Total correctness of stateful code

    [wp m Q s]: from [s], [m] returns normally and [Q] holds of the value and
    the final state. *)
Definition wp {S A} (m : ST S A) (Q : A → S → Prop) (s : S) : Prop :=
  ∃ s' a, m s = (s', Ok a) ∧ Q a s'.

Section wp.
Context {S : Type}.

Lemma wp_ret {A} (a : A) (Q : A → S → Prop) s : Q a s → wp (mret a) Q s.
Proof. by exists s, a. Qed.

Lemma wp_bind {A B} (m : ST S A) (f : A → ST S B) Q s :
  wp m (λ a, wp (f a) Q) s → wp (m ≫= f) Q s.
Proof.
  intros (s1 & a & Hm & s2 & b & Hf & HQ). exists s2, b. split; [|done].
  unfold mbind, st_bind. by rewrite Hm.
Qed.

Lemma wp_get (Q : S → S → Prop) s : Q s s → wp st_get Q s.
Proof. by exists s, s. Qed.

Lemma wp_modify f (Q : unit → S → Prop) s : Q tt (f s) → wp (st_modify f) Q s.
Proof. by exists (f s), tt. Qed.

Lemma wp_lift {A} (r : result A) a (Q : A → S → Prop) s : r = Ok a → Q a s → wp (st_lift r) Q s.
Proof. intros -> HQ. by exists s, a. Qed.

Lemma wp_mono {A} (m : ST S A) (Q Q' : A → S → Prop) s :
  wp m Q s → (∀ a s, Q a s → Q' a s) → wp m Q' s.
Proof. intros (s1 & a & Hm & HQ) HQQ. exists s1, a. auto. Qed.

(** Add what is known of the returns. *)
Lemma wp_and {A} (m : ST S A) (Q Q' : A → S → Prop) s :
  wp m Q s → (∀ s' a, m s = (s', Ok a) → Q' a s') → wp m (λ a s', Q a s' ∧ Q' a s') s.
Proof. intros (s1 & a & Hm & HQ) HQ'. exists s1, a. auto. Qed.

(** The loop rule, with the elements still to visit. *)
Lemma wp_for {A} (I : list A → S → Prop) (l : list A) f (Q : unit → S → Prop) s :
  I l s →
  (∀ a rest s, a ∈ l → I (a :: rest) s → wp (f a) (λ _, I rest) s) →
  (∀ s, I [] s → Q tt s) →
  wp (st_for l f) Q s.
Proof.
  intros HI Hstep HQ. revert s HI Hstep. induction l as [|a l IH]; intros s HI Hstep; cbn.
  - by apply wp_ret, HQ.
  - apply wp_bind. eapply wp_mono; [apply Hstep; [left|exact HI]|]. cbn. intros _ s1 HI1.
    apply IH; [done|]. intros b rest s2 Hb. apply Hstep. by right.
Qed.
End wp.

(** One step of a [wp] goal whose head is a monadic operation. *)
Ltac wp_step :=
  lazymatch goal with
  | |- wp (mbind _ _) _ _ => apply wp_bind
  | |- wp (mret _) _ _ => apply wp_ret
  | |- wp st_get _ _ => apply wp_get
  | |- wp (st_modify _) _ _ => apply wp_modify
  end; cbv beta.

(** ** Filters that keep everything or nothing *)

Section filter_lemmas.
Context {A : Type} (P : A → Prop) `{∀ x, Decision (P x)}.

Lemma filter_all l : Forall P l → filter P l = l.
Proof. induction 1; [done|]. rewrite filter_cons_True by done. by f_equal. Qed.

Lemma filter_none l : Forall (λ x, ¬ P x) l → filter P l = [].
Proof. induction 1; [done|]. by rewrite filter_cons_False by done. Qed.
End filter_lemmas.

(** ** Deletion from a dictionary *)

Lemma dget_ddel {K V} `{EqDecision K} (d : dict K V) k k' :
  dict_wf d → dget k (ddel k' d) = if decide (k = k') then None else dget k d.
Proof.
  unfold dict_wf, dkeys. induction d as [|[k1 v] d IH]; cbn; intros Hwf; [by case_decide|].
  apply NoDup_cons in Hwf as [Hk1 Hwf]. destruct (decide (k' = k1)) as [<-|H1]; cbn.
  - destruct (decide (k = k')) as [->|H2]; [|done].
    destruct (dget k' d) eqn:Hd; [|done]. destruct Hk1. apply din_spec. unfold din. by rewrite Hd.
  - destruct (decide (k = k1)) as [->|H2]; [by rewrite decide_False by congruence|]. by apply IH.
Qed.

Lemma ddel_wf {K V} `{EqDecision K} (d : dict K V) k : dict_wf d → dict_wf (ddel k d).
Proof.
  unfold dict_wf, dkeys. induction d as [|[k1 v] d IH]; cbn; intros Hwf; [done|].
  apply NoDup_cons in Hwf as [Hk1 Hwf]. case_decide; cbn; [done|]. apply NoDup_cons. split; [|auto].
  intros Hin. apply Hk1. clear -Hin. induction d as [|[k2 v2] d IH]; cbn in *; [done|].
  case_decide; cbn in *; [by right|]. apply elem_of_cons in Hin as [->|Hin]; [left|right; auto].
Qed.
