(* ===== verification/PyStrings.v ===== *)
(** * Python strings

    The string operations the modelled code uses ([split], [strip],
    [startswith], [endswith], slicing), and their lemmas. *)
From stdpp Require Import base tactics list strings.
From Stdlib Require Import Ascii.

#[local] Arguments String.append !_ _ : simpl nomatch.

(** Whether a character occurs in a string. *)
Fixpoint str_in (c : ascii) (s : string) : bool :=
  match s with
  | EmptyString => false
  | String a s => Ascii.eqb a c || str_in c s
  end.

(** [s.split(d)] *)
Fixpoint py_split (d : ascii) (s : string) : list string :=
  match s with
  | EmptyString => [EmptyString]
  | String c s' =>
      let fields := py_split d s' in
      if Ascii.eqb c d then EmptyString :: fields
      else match fields with
           | f :: fields => String c f :: fields
           | [] => [String c EmptyString]
           end
  end.

(** Python's ASCII white space. *)
Definition is_space (c : ascii) : bool :=
  let n := nat_of_ascii c in
  ((9 <=? n) && (n <=? 13))%nat || ((28 <=? n) && (n <=? 32))%nat.

Fixpoint lstrip (s : string) : string :=
  match s with
  | EmptyString => EmptyString
  | String c s' => if is_space c then lstrip s' else s
  end.

Fixpoint rstrip (s : string) : string :=
  match s with
  | EmptyString => EmptyString
  | String c s' =>
      match rstrip s' with
      | EmptyString => if is_space c then EmptyString else String c EmptyString
      | r => String c r
      end
  end.

(** [s.strip()] *)
Definition py_strip (s : string) : string := rstrip (lstrip s).

(** The last character, and [s[:-1]] *)
Fixpoint str_last (s : string) : option ascii :=
  match s with
  | EmptyString => None
  | String c EmptyString => Some c
  | String _ s => str_last s
  end.

Fixpoint str_init (s : string) : string :=
  match s with
  | EmptyString => EmptyString
  | String c EmptyString => EmptyString
  | String c s => String c (str_init s)
  end.

(** [s.startswith(c)] and [s.endswith(c)] for one character *)
Definition startswith (c : ascii) (s : string) : bool :=
  match s with String a _ => Ascii.eqb a c | EmptyString => false end.
Definition endswith (c : ascii) (s : string) : bool :=
  match str_last s with Some a => Ascii.eqb a c | None => false end.

(** [s[1:]] *)
Definition str_tail (s : string) : string :=
  match s with String _ s => s | EmptyString => EmptyString end.

(** ** Lemmas *)

Lemma str_last_snoc s c : str_last (s +:+ String c EmptyString) = Some c.
Proof.
  induction s as [|a s IH]; [done|].
  change (String a s +:+ String c "") with (String a (s +:+ String c "")). cbn.
  rewrite IH. by destruct s.
Qed.

Lemma str_init_snoc s c : str_init (s +:+ String c EmptyString) = s.
Proof.
  induction s as [|a s IH]; [done|].
  change (String a s +:+ String c "") with (String a (s +:+ String c "")). cbn.
  rewrite IH. by destruct s.
Qed.

Lemma str_in_app c a b : str_in c (a +:+ b) = str_in c a || str_in c b.
Proof. induction a as [|x a IH]; cbn; [done|]. by rewrite IH, orb_assoc. Qed.

Lemma str_prefix_app p s : String.prefix p (p +:+ s) = true.
Proof. induction p as [|c p IH]; cbn; [by destruct s|]. by destruct (ascii_dec c c). Qed.

Lemma str_prefix_char c p s : String.prefix p s = true → str_in c p = true → str_in c s = true.
Proof.
  revert s. induction p as [|a p IH]; intros [|b s]; cbn; try done.
  destruct (ascii_dec a b) as [->|]; [|done]. intros Hp Hin.
  apply orb_true_iff in Hin as [->|Hin]; [done|]. rewrite (IH s Hp Hin). apply orb_true_r.
Qed.

Lemma py_split_nonempty d s : py_split d s ≠ [].
Proof. destruct s as [|c s]; cbn; [done|]. destruct (Ascii.eqb c d); [done|]. by destruct (py_split d s). Qed.

Lemma py_split_absent d s : str_in d s = false → py_split d s = [s].
Proof.
  induction s as [|c s IH]; cbn; [done|]. intros Hs. apply orb_false_iff in Hs as [-> Hs].
  by rewrite IH.
Qed.

Lemma py_split_app d a b : str_in d a = false → py_split d (a +:+ String d b) = a :: py_split d b.
Proof.
  induction a as [|c a IH]; cbn; intros Ha; [by rewrite Ascii.eqb_refl|].
  apply orb_false_iff in Ha as [-> Ha]. by rewrite IH.
Qed.

Lemma py_split_length d a b :
  length (py_split d (a +:+ String d b)) = (length (py_split d a) + length (py_split d b))%nat.
Proof.
  induction a as [|c a IH]; cbn; [by rewrite Ascii.eqb_refl|].
  destruct (Ascii.eqb c d); cbn; [by rewrite IH|].
  pose proof (py_split_nonempty d a). pose proof (py_split_nonempty d (a +:+ String d b)).
  destruct (py_split d a), (py_split d (a +:+ String d b)); done || (cbn in *; lia).
Qed.

Lemma py_split_present d s : str_in d s = true → (2 <= length (py_split d s))%nat.
Proof.
  induction s as [|c s IH]; cbn; [done|]. destruct (Ascii.eqb c d); cbn.
  - intros _. pose proof (py_split_nonempty d s). destruct (py_split d s); cbn; [done|lia].
  - intros Hs. specialize (IH Hs). destruct (py_split d s); cbn in *; lia.
Qed.

