(* ===== verification/PyLists.v ===== *)
(** * Python lists

    Slices and the other list operations of the modelled code, with their
    lemmas. *)
From S2P Require Import Prelude.
From stdpp Require Import base tactics list sorting.

#[local] Open Scope Z_scope.

(** [len(l)] *)
Definition len {A} (l : list A) : Z := Z.of_nat (length l).
#[global] Arguments len : simpl never.

(** Where an index of a slice falls in a list of length [n]: negative ones count
    from the end, and all are clamped. *)
Definition slice_index (n i : Z) : Z :=
  if i <? 0 then Z.max 0 (i + n) else Z.min i n.

(** [l[start:stop]]; no [stop] is the end. *)
Definition py_slice {A} (start : Z) (stop : option Z) (l : list A) : list A :=
  let a := slice_index (len l) start in
  let b := match stop with Some e => slice_index (len l) e | None => len l end in
  take (Z.to_nat (b - a)) (drop (Z.to_nat a) l).

(** [l[i]] *)
Definition py_nth {A} (l : list A) (i : Z) : result A :=
  let j := if i <? 0 then i + len l else i in
  if (j <? 0) || (len l <=? j) then Err IndexError
  else of_option IndexError (l !! Z.to_nat j).

(** [l.pop()] *)
Definition py_pop {A} (l : list A) : result (A * list A) :=
  match last l with Some a => Ok (a, take (length l - 1) l) | None => Err IndexError end.

Section lists.
Context {A : Type}.
Implicit Types l : list A.

Lemma len_app l1 l2 : len (l1 ++ l2) = len l1 + len l2.
Proof. unfold len. rewrite length_app. lia. Qed.

Lemma len_cons x l : len (x :: l) = len l + 1.
Proof. unfold len. cbn. lia. Qed.

Lemma len_nonneg l : 0 <= len l.
Proof. unfold len. lia. Qed.

Lemma py_slice_range a b l :
  0 <= a <= b → py_slice a (Some b) l = take (Z.to_nat (b - a)) (drop (Z.to_nat a) l).
Proof.
  intros Hab. unfold py_slice, slice_index, len.
  rewrite !(proj2 (Z.ltb_ge _ _)) by lia.
  destruct (decide (Z.to_nat a <= length l)%nat) as [Ha|Ha].
  - rewrite (Z.min_l a) by lia. destruct (Z.min_spec b (Z.of_nat (length l))) as [[Hb ->]|[Hb ->]];
      [done|]. rewrite !take_ge; [done|..]; rewrite length_drop; lia.
  - rewrite (drop_ge l (Z.to_nat a)) by lia. by rewrite take_nil, drop_ge, take_nil by lia.
Qed.

Lemma py_slice_len a b l : 0 <= a <= b → b <= len l → len (py_slice a (Some b) l) = b - a.
Proof.
  intros Hab Hb. unfold len in *. rewrite py_slice_range by lia.
  rewrite length_take, length_drop. lia.
Qed.

(** Consecutive slices. *)
Lemma py_slice_app a b c l :
  0 <= a <= b → b <= c →
  py_slice a (Some b) l ++ py_slice b (Some c) l = py_slice a (Some c) l.
Proof.
  intros Hab Hbc. rewrite !py_slice_range by lia.
  replace (Z.to_nat (c - a)) with (Z.to_nat (b - a) + Z.to_nat (c - b))%nat by lia.
  rewrite <- take_take_drop, drop_drop. do 3 f_equal. lia.
Qed.

Lemma py_slice_all l : py_slice 0 (Some (len l)) l = l.
Proof.
  rewrite py_slice_range by (unfold len; lia). cbn. rewrite drop_0. apply take_ge. unfold len. lia.
Qed.

Lemma py_slice_full l : py_slice 0 None l = l.
Proof.
  unfold py_slice, slice_index. cbn. rewrite Z.min_l by apply len_nonneg.
  rewrite drop_0, Z.sub_0_r. apply take_ge. unfold len. lia.
Qed.

Lemma py_slice_nil a b : 0 <= a <= b → py_slice a (Some b) (@nil A) = [].
Proof. intros. rewrite py_slice_range by done. by rewrite drop_nil, take_nil. Qed.

Lemma py_slice_empty a l : 0 <= a → py_slice a (Some a) l = [].
Proof. intros. rewrite py_slice_range by lia. by rewrite Z.sub_diag. Qed.

Lemma py_slice_take b l : 0 <= b → py_slice 0 (Some b) l = take (Z.to_nat b) l.
Proof. intros. rewrite py_slice_range by lia. by rewrite Z.sub_0_r, drop_0. Qed.

(** A slice that lies in the first or in the second of two lists. *)
Lemma py_slice_app_l a b l1 l2 :
  0 <= a <= b → b <= len l1 → py_slice a (Some b) (l1 ++ l2) = py_slice a (Some b) l1.
Proof.
  intros Hab Hb. unfold len in *. rewrite !py_slice_range by lia.
  rewrite drop_app_le by lia. apply take_app_le. rewrite length_drop. lia.
Qed.

Lemma py_slice_app_r a b l1 l2 :
  len l1 <= a <= b →
  py_slice a (Some b) (l1 ++ l2) = py_slice (a - len l1) (Some (b - len l1)) l2.
Proof.
  intros Hab. unfold len in *. rewrite !py_slice_range by lia.
  rewrite drop_app_ge by lia. f_equal; [lia|]. f_equal. lia.
Qed.
End lists.

Lemma len_fmap {A B} (f : A → B) (l : list A) : len (f <$> l) = len l.
Proof. unfold len. by rewrite length_fmap. Qed.

Lemma len_concat {A} (ls : list (list A)) : len (concat ls) = sumZ (len <$> ls).
Proof. induction ls as [|l ls IH]; [done|]. cbn. rewrite len_app, sumZ_cons, IH. done. Qed.

Lemma Forall_sublist {A} (P : A → Prop) (l1 l2 : list A) :
  sublist l1 l2 → Forall P l2 → Forall P l1.
Proof.
  induction 1 as [|x l1 l2 Hs IH|x l1 l2 Hs IH]; intros Hall; [done|..];
    inversion_clear Hall; [constructor|]; auto.
Qed.

Lemma sublist_StronglySorted {A} (R : relation A) (c d : list A) :
  sublist d c → StronglySorted R c → StronglySorted R d.
Proof.
  induction 1 as [|x c d Hsub IH|x c d Hsub IH]; intros Hs; [done|..];
    apply StronglySorted_cons in Hs as [Hle Hs]; [|by apply IH].
  apply StronglySorted_cons. split; [by eapply Forall_sublist|by apply IH].
Qed.

#[export] Instance len_Permutation A : Proper ((≡ₚ) ==> (=)) (@len A).
Proof. intros l1 l2 Hp. unfold len. by rewrite Hp. Qed.

#[export] Instance sumZ_Permutation : Proper ((≡ₚ) ==> (=)) sumZ.
Proof. intros l1 l2. apply sumZ_perm. Qed.

(** Sorting with a total, transitive order sorts. *)
Lemma stable_sort_sorted {A} (before : A → A → bool) (l : list A) :
  (∀ x y, before x y = false → before y x = true) →
  (∀ x y z, before x y = true → before y z = true → before x z = true) →
  StronglySorted (λ x y, before x y = true) (stable_sort before l).
Proof.
  intros Htot Htrans. induction l as [|x l IH]; [constructor|].
  change (stable_sort before (x :: l)) with (sort_insert before x (stable_sort before l)).
  revert IH. generalize (stable_sort before l). intros s.
  induction 1 as [|y l' Hs IHs Hy]; cbn; [repeat constructor|].
  destruct (before x y) eqn:Hxy.
  - constructor; [by constructor|]. constructor; [done|]. eapply Forall_impl; [exact Hy|]. cbn. eauto.
  - constructor; [done|]. apply Forall_forall. intros z Hz.
    rewrite sort_insert_perm in Hz. apply elem_of_cons in Hz as [->|Hz]; [by apply Htot|].
    by eapply Forall_forall in Hy.
Qed.

Lemma list_filter_nil {A} (f : A → bool) l : (∀ x, x ∈ l → f x = false) → List.filter f l = [].
Proof.
  induction l as [|x l IH]; cbn; intros Hf; [done|]. rewrite Hf by left.
  apply IH. intros. apply Hf. by right.
Qed.

Lemma filter_bool_perm {A} (f : A → bool) (l1 l2 : list A) :
  l1 ≡ₚ l2 → List.filter f l1 ≡ₚ List.filter f l2.
Proof.
  induction 1 as [|x l1 l2 _ IH|x y l|]; cbn; [done|..].
  - destruct (f x); [by rewrite IH|done].
  - destruct (f x), (f y); try done. constructor.
  - by etrans.
Qed.

(** The slices [l[-n:]] and [l[:-n]] cut [l] before its last [n] elements. *)
Lemma py_slice_last {A} (n : Z) (l : list A) :
  0 < n → py_slice (- n) None l = drop (length l - Z.to_nat n) l ∧
          py_slice 0 (Some (- n)) l = take (length l - Z.to_nat n) l.
Proof.
  intros Hn. unfold py_slice, slice_index, len. rewrite (proj2 (Z.ltb_lt (- n) 0)) by lia.
  change (0 <? 0) with false. cbn iota. rewrite Z.min_l by lia. rewrite drop_0. split.
  - rewrite take_ge; [f_equal; lia|]. rewrite length_drop. lia.
  - f_equal. lia.
Qed.

(** The part after [pre]. *)
Lemma py_slice_mid {A} (pre cur l : list A) : py_slice (len pre) (Some (len pre + len cur)) (pre ++ cur ++ l) = cur.
Proof.
  pose proof (len_nonneg pre). pose proof (len_nonneg cur). rewrite py_slice_range by lia. unfold len.
  rewrite Nat2Z.id, drop_app_length. replace (Z.to_nat _) with (length cur) by lia. apply take_app_length.
Qed.

(** A loop that does not fail. *)
Lemma mapM_total {A B} (f : A → result B) (g : A → B) l :
  (∀ x, x ∈ l → f x = Ok (g x)) → mapM f l = Ok (g <$> l).
Proof.
  induction l as [|x l IH]; intros Hf; [done|]. cbn. rewrite Hf by left. cbn.
  rewrite IH; [done|]. intros y Hy. apply Hf. by right.
Qed.
