(* ===== verification/BinPack.v ===== *)
(** * Reverse bin packing (autoscaler/_private/resource_demand_scheduler.py)

    The module-level functions of the resource demand scheduler: [_fits],
    [_inplace_subtract], [_inplace_add], [get_bin_pack_residual],
    [_utilization_score] and [get_nodes_for].  A [ResourceDict] is an ordered
    dict from resource names to rational amounts; a function that mutates a
    dict in place returns the new dict. *)
From S2P Require Import Prelude.
From stdpp Require Import base tactics list gmap strings.
From Stdlib Require Import QArith Lqa.

#[local] Open Scope Z_scope.

Abbreviation NodeType := string.
Abbreviation ResourceDict := (dict string Q).

(** A value of [available_node_types]: the keys the scheduler reads, each
    absent or present ([node_config] is compared for equality only), and the
    keys it carries along. *)
Record NodeTypeConfig := {
  nt_resources : option ResourceDict;
  nt_min_workers : option Z;
  nt_max_workers : option Z;
  nt_node_config : option string;
  nt_other : dict string string;
}.

Abbreviation NodeTypes := (dict NodeType NodeTypeConfig).

(** [config["resources"]] *)
Definition config_resources (c : NodeTypeConfig) : result ResourceDict :=
  of_option KeyError (nt_resources c).

(** [config.get("max_workers", 0)] and [config.get("min_workers", 0)] *)
Definition config_max_workers (c : NodeTypeConfig) : Z := default 0 (nt_max_workers c).
Definition config_min_workers (c : NodeTypeConfig) : Z := default 0 (nt_min_workers c).

Module BinPack.

(** ** The packing primitives *)

Definition _fits (node resources : ResourceDict) : bool :=
  forallb (λ '(k, v), negb (Qltb (dget_def k 0%Q node) v)) resources.

Fixpoint _inplace_subtract (node resources : ResourceDict) : result ResourceDict :=
  match resources with
  | [] => Ok node
  | (k, v) :: resources =>
      cur ← of_option AssertionError (dget k node);
      let node := dset k (cur - v)%Q node in
      _ ← py_assert (Qle_bool 0 (cur - v));
      _inplace_subtract node resources
  end.

(** [a] is a defaultdict of ints. *)
Definition _inplace_add (a b : dict NodeType Z) : dict NodeType Z :=
  fold_left (λ a '(k, v), dset k (dget_def k 0 a + v) a) b a.

(** The sort key of a demand: its number of entries, their sum, its sorted
    items. *)
Definition demand_key (demand : ResourceDict) : nat * (Q * list (string * Q)) :=
  (length demand,
   (sumQ (dvalues demand),
    py_sorted (pair_cmp String.compare Qcompare) id demand)).

Definition demand_cmp : nat * (Q * list (string * Q)) → nat * (Q * list (string * Q)) → comparison :=
  pair_cmp Nat.compare (pair_cmp Qcompare (list_cmp (pair_cmp String.compare Qcompare))).

Definition sort_demands : list ResourceDict → list ResourceDict :=
  py_sorted_rev demand_cmp demand_key.

(** The first node the demand fits, with the nodes before and after it. *)
Fixpoint find_node (nodes : list ResourceDict) (demand : ResourceDict) :
    option (list ResourceDict * ResourceDict * list ResourceDict) :=
  match nodes with
  | [] => None
  | node :: nodes =>
      if _fits node demand then Some ([], node, nodes)
      else '(pre, n, post) ← find_node nodes demand; Some (node :: pre, n, post)
  end.

Record pack_state := {
  ps_unfulfilled : list ResourceDict;
  ps_nodes : list ResourceDict;
  ps_used : list ResourceDict;
}.

(** One iteration of the packing loop.  [if found and node] is false for an
    empty node dict, which is falsy: the demand is then unfulfilled although
    it fits (with [strict_spread] the node is moved to [used] before that). *)
Definition pack_demand (strict_spread : bool) (s : pack_state) (demand : ResourceDict) :
    result pack_state :=
  match find_node (ps_nodes s) demand with
  | None => Ok {| ps_unfulfilled := ps_unfulfilled s ++ [demand];
                  ps_nodes := ps_nodes s; ps_used := ps_used s |}
  | Some (pre, node, post) =>
      node' ← (match node with [] => Ok [] | _ => _inplace_subtract node demand end);
      Ok {| ps_unfulfilled :=
              match node with [] => ps_unfulfilled s ++ [demand] | _ => ps_unfulfilled s end;
            ps_nodes := if strict_spread then pre ++ post else pre ++ node' :: post;
            ps_used := if strict_spread then ps_used s ++ [node'] else ps_used s |}
  end.

Definition get_bin_pack_residual (node_resources resource_demands : list ResourceDict)
    (strict_spread : bool) : result (list ResourceDict * list ResourceDict) :=
  s ← foldM (pack_demand strict_spread)
        {| ps_unfulfilled := []; ps_nodes := node_resources; ps_used := [] |}
        (sort_demands resource_demands);
  Ok (ps_unfulfilled s, ps_nodes s ++ ps_used s).

(** ** Scoring a node type *)

Abbreviation Score := (Z * (Q * Q))%type.

(** The fitting loop of [_utilization_score]: the resource types demanded with
    a positive amount, the demands that fit and what remains of the node. *)
Definition score_step (s : gset string * list ResourceDict * ResourceDict) (r : ResourceDict) :
    result (gset string * list ResourceDict * ResourceDict) :=
  let '(resource_types, fittable, remaining) := s in
  let resource_types :=
    fold_left (λ acc '(k, v), if Qltb 0 v then {[k]} ∪ acc else acc) r resource_types in
  if _fits remaining r then
    remaining ← _inplace_subtract remaining r;
    Ok (resource_types, fittable ++ [r], remaining)
  else Ok (resource_types, fittable, remaining).

Definition util_step (resource_types : gset string) (remaining : ResourceDict)
    (s : Z * list Q) (kv : string * Q) : result (Z * list Q) :=
  let '(num, utils) := s in
  let '(k, v) := kv in
  if Qltb v 1 then Ok (num, utils)
  else
    rem ← dget_exn k remaining;
    let util := ((v - rem) / v)%Q in
    Ok (if decide (k ∈ resource_types) then num + 1 else num,
        utils ++ [(v * (util * util * util))%Q]).

(** [min] of a list (of the head and the rest) and [np.mean]. *)
Definition minQ (x : Q) (l : list Q) : Q :=
  foldl (λ m y, if Qltb y m then y else m) x l.
Definition meanQ (l : list Q) : Q := (sumQ l / inject_Z (Z.of_nat (length l)))%Q.

Section score.
  (** The AUTOSCALER_CONSERVE_GPU_NODES environment variable (default 1). *)
  Context (AUTOSCALER_CONSERVE_GPU_NODES : bool).

Definition _utilization_score (node_resources : ResourceDict) (resources : list ResourceDict) :
    result (option Score) :=
  let is_gpu_node :=
    match dget "GPU"%string node_resources with Some g => Qltb 0 g | None => false end in
  let any_gpu_task := existsb (din "GPU"%string) resources in
  if AUTOSCALER_CONSERVE_GPU_NODES && (is_gpu_node && negb any_gpu_task) then Ok None
  else
    '(resource_types, fittable, remaining) ←
      foldM score_step (∅, [], node_resources) resources;
    match fittable with
    | [] => Ok None
    | _ =>
        '(num, utils) ← foldM (util_step resource_types remaining) (0, []) node_resources;
        match utils with
        | [] => Ok None
        | u :: us => Ok (Some (num, (minQ u us, meanQ utils)))
        end
    end.

(** ** Choosing node types *)

(** The per-type limit: one more for the head node's type. *)
Definition max_of_type (head_node_type node_type : NodeType) (c : NodeTypeConfig) : Z :=
  if decide (head_node_type = node_type) then config_max_workers c + 1
  else config_max_workers c.

(** The inner loop of [get_nodes_for]: a score for each node type that may
    still be added. *)
Definition score_types (existing_nodes nodes_to_add : dict NodeType Z)
    (head_node_type : NodeType) (resources : list ResourceDict) (strict_spread : bool)
    (scores : list (Score * NodeType)) (ntc : NodeType * NodeTypeConfig) :
    result (list (Score * NodeType)) :=
  let '(node_type, config) := ntc in
  if max_of_type head_node_type node_type config
     <=? dget_def node_type 0 existing_nodes + dget_def node_type 0 nodes_to_add
  then Ok scores
  else
    node_resources ← config_resources config;
    score ← (if strict_spread then
               first ← of_option IndexError (head resources);
               _utilization_score node_resources [first]
             else _utilization_score node_resources resources);
    Ok (match score with Some sc => scores ++ [(sc, node_type)] | None => scores end).

Definition score_cmp : Score * NodeType → Score * NodeType → comparison :=
  pair_cmp (pair_cmp Z.compare (pair_cmp Qcompare Qcompare)) String.compare.

(** The [while] loop of [get_nodes_for]: one iteration, which yields the next
    state or, when the condition fails or no type is feasible, [None]. *)
Definition get_nodes_for_body (node_types : NodeTypes) (existing_nodes : dict NodeType Z)
    (head_node_type : NodeType) (max_to_add : Z) (strict_spread : bool)
    (nodes_to_add : dict NodeType Z) (resources : list ResourceDict) :
    result (option (dict NodeType Z * list ResourceDict)) :=
  if bool_decide (resources = []) || negb (sumZ (dvalues nodes_to_add) <? max_to_add)
  then Ok None
  else
    scores ← foldM (score_types existing_nodes nodes_to_add head_node_type
                      resources strict_spread) [] node_types;
    match py_sorted_rev score_cmp id scores with
    | [] => Ok None
    | (_, best_node_type) :: _ =>
        let nodes_to_add :=
          dset best_node_type (dget_def best_node_type 0 nodes_to_add + 1) nodes_to_add in
        resources' ←
          (if strict_spread then Ok (tail resources)
           else
             config ← dget_exn best_node_type node_types;
             allocated_resource ← config_resources config;
             '(residual, _) ← get_bin_pack_residual [allocated_resource] resources false;
             _ ← py_assert (Nat.ltb (length residual) (length resources));
             Ok residual);
        Ok (Some (nodes_to_add, resources'))
    end.

Fixpoint get_nodes_for_loop (fuel : nat) (node_types : NodeTypes)
    (existing_nodes : dict NodeType Z) (head_node_type : NodeType) (max_to_add : Z)
    (strict_spread : bool) (nodes_to_add : dict NodeType Z) (resources : list ResourceDict) :
    result (dict NodeType Z * list ResourceDict) :=
  next ← get_nodes_for_body node_types existing_nodes head_node_type max_to_add
           strict_spread nodes_to_add resources;
  match next with
  | None => Ok (nodes_to_add, resources)
  | Some (nodes_to_add, resources) =>
      match fuel with
      | O => Err OutOfFuel
      | S fuel => get_nodes_for_loop fuel node_types existing_nodes head_node_type
                    max_to_add strict_spread nodes_to_add resources
      end
  end.

(** Each iteration fulfills a demand, so there are at most as many as demands. *)
Definition get_nodes_for (node_types : NodeTypes) (existing_nodes : dict NodeType Z)
    (head_node_type : NodeType) (max_to_add : Z) (resources : list ResourceDict)
    (strict_spread : bool) : result (dict NodeType Z * list ResourceDict) :=
  get_nodes_for_loop (length resources) node_types existing_nodes head_node_type
    max_to_add strict_spread [] resources.

End score.

(** ** Placement groups *)

Inductive PlacementStrategy := PACK | SPREAD | STRICT_PACK | STRICT_SPREAD | OTHER (n : Z).

(** [PlacementGroupTableData]: the strategy and each bundle's
    [unit_resources]. *)
Record PlacementGroupTableData := {
  pg_strategy : PlacementStrategy;
  pg_bundles : list ResourceDict;
}.

Definition combine_shapes (shapes : list ResourceDict) : ResourceDict :=
  fold_left (λ combined shape,
    fold_left (λ combined '(label, quantity),
      dset label (dget_def label 0%Q combined + quantity)%Q combined) shape combined)
    shapes [].

(** One placement group: flattened, combined or left for strict spreading. *)
Definition pg_step (s : list ResourceDict * list (list ResourceDict))
    (pg : PlacementGroupTableData) : list ResourceDict * list (list ResourceDict) :=
  let '(resource_demand_vector, unconverted) := s in
  let shapes := pg_bundles pg in
  match pg_strategy pg with
  | PACK | SPREAD => (resource_demand_vector ++ shapes, unconverted)
  | STRICT_PACK => (resource_demand_vector ++ [combine_shapes shapes], unconverted)
  | STRICT_SPREAD => (resource_demand_vector, unconverted ++ [shapes])
  | OTHER _ => (resource_demand_vector, unconverted)
  end.

Definition placement_groups_to_resource_demands (pgs : list PlacementGroupTableData) :
    list ResourceDict * list (list ResourceDict) :=
  fold_left pg_step pgs ([], []).

End BinPack.
