(* ===== verification/BinPackProofs.v ===== *)
(** * Correctness of the bin packing functions

    The specification of packing is a plan: each node with the demands placed
    on it and what is left of it.  [get_bin_pack_residual] produces such a
    plan, places what can be placed, and [get_nodes_for] buys nodes that carry
    the demands it removes, within the worker limits. *)
From S2P Require Import Prelude BinPack.
From stdpp Require Import base tactics list gmap strings.
From Stdlib Require Import QArith Lqa.

#[local] Open Scope Z_scope.
Import BinPack.

#[local] Arguments score_step : simpl never.
#[local] Arguments util_step : simpl never.
#[local] Arguments pack_demand : simpl never.
#[local] Arguments _utilization_score : simpl never.
#[local] Arguments get_bin_pack_residual : simpl never.
#[local] Arguments score_types : simpl never.
#[local] Arguments Nat.ltb : simpl never.

(** ** Specification vocabulary *)

(** The amount of a resource in a dict, zero when absent. *)
Definition amt (k : string) (d : ResourceDict) : Q := dget_def k 0%Q d.
#[global] Arguments amt : simpl never.

Definition total (k : string) (ds : list ResourceDict) : Q := sumQ (amt k <$> ds).
#[global] Arguments total : simpl never.

(** A well-formed demand asks for a positive amount of each resource it
    names. *)
Definition demand_ok (d : ResourceDict) : Prop :=
  dict_wf d ∧ Forall (λ kv, 0 < kv.2)%Q d.

(** One node of a packing plan. *)
Record placement := Placement {
  pl_before : ResourceDict;
  pl_demands : list ResourceDict;
  pl_after : ResourceDict;
}.

(** The node keeps its resource names, loses exactly what is placed on it and
    is never overdrawn. *)
Definition placement_ok (p : placement) : Prop :=
  dkeys (pl_after p) = dkeys (pl_before p) ∧
  (∀ k, amt k (pl_after p) == amt k (pl_before p) - total k (pl_demands p))%Q ∧
  (∀ k, 0 <= amt k (pl_before p) → 0 <= amt k (pl_after p))%Q.

(** ** The primitives *)

Lemma fits_spec node r :
  _fits node r = true ↔ Forall (λ kv, kv.2 <= amt kv.1 node)%Q r.
Proof.
  unfold _fits. rewrite forallb_forall, Forall_forall. split.
  - intros H [k v] Hin%list_elem_of_In. specialize (H _ Hin). cbn in *.
    apply Qltb_false. by apply negb_true_iff.
  - intros H [k v] Hin%list_elem_of_In. specialize (H _ Hin). cbn in *.
    apply negb_true_iff. by apply Qltb_false.
Qed.

Lemma fits_mono node node' r :
  (∀ k, amt k node' <= amt k node)%Q → _fits node' r = true → _fits node r = true.
Proof.
  rewrite !fits_spec. intros Hle H. eapply Forall_impl; [exact H|].
  intros [k v] ?; cbn in *. specialize (Hle k). lra.
Qed.

Lemma amt_cons k k' v r :
  amt k ((k', v) :: r) = if decide (k = k') then v else amt k r.
Proof. unfold amt, dget_def. cbn. by case_decide. Qed.

Lemma amt_dset k k' v r :
  amt k (dset k' v r) = if decide (k = k') then v else amt k r.
Proof. apply dget_def_dset. Qed.

Lemma amt_not_in k (r : ResourceDict) : k ∉ dkeys r → amt k r = 0%Q.
Proof. unfold amt, dget_def. by intros ->%dget_None. Qed.

Lemma amt_nonneg k d : demand_ok d → (0 <= amt k d)%Q.
Proof.
  intros [_ Hpos]. unfold amt, dget_def.
  destruct (dget k d) eqn:Hg; cbn; [|lra].
  apply dget_Some_elem in Hg. rewrite Forall_forall in Hpos.
  specialize (Hpos _ Hg). cbn in Hpos. lra.
Qed.

Lemma dkeys_dset_present k v (d : ResourceDict) w :
  dget k d = Some w → dkeys (dset k v d) = dkeys d.
Proof. intros H. rewrite dkeys_dset. unfold din. by rewrite H. Qed.

(** What a successful in-place subtraction computes. *)
Lemma subtract_spec node r node' :
  dict_wf r → _inplace_subtract node r = Ok node' →
  dkeys node' = dkeys node ∧
  (∀ k, amt k node' == amt k node - amt k r)%Q ∧
  (∀ k, 0 <= amt k node → 0 <= amt k node')%Q.
Proof.
  unfold dict_wf, dkeys. revert node.
  induction r as [|[k v] r IH]; cbn; intros node Hwf H; inv_ok.
  - split_and!; [done| |done]. intros k. unfold amt, dget_def. cbn. lra.
  - apply NoDup_cons in Hwf as [Hk Hwf].
    rename select (dget k node = Some _) into Hget.
    rename select (Qle_bool _ _ = true) into Hle. apply Qle_bool_iff in Hle.
    destruct (IH _ Hwf H) as (Hkeys & Hamt & Hnn).
    assert (amt k node = x) as Hx by (unfold amt, dget_def; by rewrite Hget).
    split_and!.
    + rewrite Hkeys. by eapply dkeys_dset_present.
    + intros k'. rewrite Hamt, amt_dset, amt_cons. case_decide; [|done].
      subst k'. rewrite (amt_not_in k r), Hx by done. lra.
    + intros k' Hk'. apply Hnn. rewrite amt_dset. case_decide; [lra|done].
Qed.

(** A well-formed demand that fits can be subtracted. *)
Lemma subtract_total node r :
  demand_ok r → _fits node r = true → ∃ node', _inplace_subtract node r = Ok node'.
Proof.
  unfold demand_ok, dict_wf, dkeys. rewrite fits_spec. revert node.
  induction r as [|[k v] r IH]; cbn; intros node [Hwf Hpos] Hfit; [by eauto|].
  apply NoDup_cons in Hwf as [Hk Hwf]. apply Forall_cons in Hpos as [Hv Hpos].
  apply Forall_cons in Hfit as [Hvk Hfit]. cbn in *.
  unfold amt at 1, dget_def in Hvk. destruct (dget k node) as [c|]; cbn in *; [|lra].
  rewrite (proj2 (Qle_bool_iff 0 (c - v))) by lra. cbn. apply IH; [done|].
  rewrite Forall_forall in Hfit |- *. intros [k' v'] Hin. cbn.
  rewrite amt_dset. case_decide; [|by apply (Hfit (k', v'))].
  subst. destruct Hk. apply list_elem_of_fmap. by exists (k, v').
Qed.

(** A zero amount of a resource the node does not have cannot be subtracted. *)
Lemma subtract_zero_raises node r k :
  dict_wf r → (k, 0%Q) ∈ r → k ∉ dkeys node → _fits node r = true →
  _inplace_subtract node r = Err AssertionError.
Proof.
  unfold dict_wf. rewrite fits_spec. revert node.
  induction r as [|[k' v] r IH]; intros node Hwf Hin Hk Hfit; [by apply not_elem_of_nil in Hin|].
  unfold dkeys in Hwf. cbn in *. apply NoDup_cons in Hwf as [Hk' Hwf].
  apply Forall_cons in Hfit as [Hv Hfit]. cbn in Hv.
  apply elem_of_cons in Hin as [?|Hin]; simplify_eq.
  { by rewrite (proj2 (dget_None k' node)). }
  unfold amt, dget_def in Hv. destruct (dget k' node) as [c|] eqn:Hg; cbn in *; [|done].
  rewrite (proj2 (Qle_bool_iff 0 (c - v))) by lra. cbn.
  assert (k ≠ k') as Hkk.
  { intros ->. apply Hk'. apply list_elem_of_fmap. by exists (k', 0%Q). }
  apply IH; [done|done| |].
  - by intros [->|]%elem_of_dkeys_dset.
  - rewrite Forall_forall in Hfit |- *. intros [k1 v1] Hin1. cbn. rewrite amt_dset.
    case_decide; [|by apply (Hfit (k1, v1))]. subst. destruct Hk'.
    apply list_elem_of_fmap. by exists (k', v1).
Qed.

Lemma find_node_Some nodes d pre n post :
  find_node nodes d = Some (pre, n, post) →
  nodes = pre ++ n :: post ∧ _fits n d = true ∧ Forall (λ m, _fits m d = false) pre.
Proof.
  revert pre. induction nodes as [|m nodes IH]; cbn; intros pre H; [done|].
  destruct (_fits m d) eqn:Hf; simplify_eq; [done|].
  apply bind_Some in H as ([[pre' n'] post'] & H & ?); simplify_eq.
  destruct (IH _ H) as (-> & ? & ?). split_and!; [done|done|]. by constructor.
Qed.

Lemma find_node_None nodes d :
  find_node nodes d = None → Forall (λ m, _fits m d = false) nodes.
Proof.
  induction nodes as [|m nodes IH]; cbn; intros H; [by constructor|].
  destruct (_fits m d) eqn:Hf; [done|]. constructor; [done|]. apply IH.
  by destruct (find_node nodes d) as [[[??]?]|].
Qed.

Lemma total_app k l1 l2 : (total k (l1 ++ l2) == total k l1 + total k l2)%Q.
Proof. unfold total, sumQ. induction l1; cbn in *; lra. Qed.

Lemma total_singleton k d : (total k [d] == amt k d)%Q.
Proof. unfold total, sumQ. cbn. lra. Qed.

Lemma total_nonneg k ds : Forall demand_ok ds → (0 <= total k ds)%Q.
Proof.
  unfold total, sumQ. induction 1 as [|d ds Hd _ IH]; cbn; [lra|].
  pose proof (amt_nonneg k d Hd). lra.
Qed.

(** ** The packing loop *)

(** The loop state is a plan for the demands processed so far: [pn] for the
    nodes that are still open, [pu] for the nodes strict spreading closed. *)
Definition plan_inv (strict : bool) (nodes0 processed : list ResourceDict)
    (s : pack_state) : Prop :=
  ∃ pn pu : list placement,
    pl_after <$> pn = ps_nodes s ∧ pl_after <$> pu = ps_used s ∧
    (pl_before <$> pn ++ pu) ≡ₚ nodes0 ∧
    concat (pl_demands <$> pn ++ pu) ++ ps_unfulfilled s ≡ₚ processed ∧
    Forall placement_ok (pn ++ pu) ∧
    (strict = true →
     Forall (λ p, pl_demands p = []) pn ∧ Forall (λ p, (length (pl_demands p) ≤ 1)%nat) pu).

Lemma placement_ok_refl n : placement_ok (Placement n [] n).
Proof. split_and!; cbn; [done| |done]. intros k. unfold total; cbn. lra. Qed.

Lemma placement_ok_snoc p d n' :
  placement_ok p → dict_wf d → _inplace_subtract (pl_after p) d = Ok n' →
  placement_ok (Placement (pl_before p) (pl_demands p ++ [d]) n').
Proof.
  intros (Hk & Ha & Hn) Hd Hs. destruct (subtract_spec _ _ _ Hd Hs) as (Hk' & Ha' & Hn').
  split_and!; cbn [pl_before pl_demands pl_after].
  - congruence.
  - intros k. rewrite Ha', Ha, total_app. unfold total at 3. cbn. lra.
  - intros k H0. apply Hn'. rewrite Ha. specialize (Hn k H0). rewrite Ha in Hn. lra.
Qed.

(** Splitting the open placements where the chosen node sits. *)
Lemma plan_split (pn : list placement) pre n post :
  pl_after <$> pn = pre ++ n :: post →
  ∃ p1 p p2, pn = p1 ++ p :: p2 ∧ pl_after <$> p1 = pre ∧ pl_after p = n ∧
             pl_after <$> p2 = post.
Proof.
  intros (p1 & p2' & Hpn & H1 & H2)%fmap_app_inv. destruct p2' as [|p p2]; simplify_eq/=.
  by exists p1, p, p2.
Qed.

Lemma pack_demand_plan strict nodes0 processed s d s' :
  dict_wf d → plan_inv strict nodes0 processed s →
  pack_demand strict s d = Ok s' → plan_inv strict nodes0 (d :: processed) s'.
Proof.
  intros Hd (pn & pu & Hpn & Hpu & Hb & Hc & Hok & Hst). unfold pack_demand.
  destruct (find_node _ d) as [[[pre n] post]|] eqn:Hfind; intros H; inv_ok; cycle 1.
  { exists pn, pu. split_and!; try done. cbn. rewrite <- Hc. solve_Permutation. }
  apply find_node_Some in Hfind as (Hn & _ & _). rewrite Hn in Hpn.
  apply plan_split in Hpn as (p1 & p & p2 & -> & <- & <- & <-).
  set (p' := match pl_after p with
             | [] => p
             | _ => Placement (pl_before p) (pl_demands p ++ [d]) x end).
  assert (placement_ok p) as Hp by (rewrite !Forall_app, Forall_cons in Hok; naive_solver).
  assert (placement_ok p' ∧ pl_after p' = x ∧ pl_before p' = pl_before p) as (Hp' & Ha & Hbf).
  { unfold p'. destruct (pl_after p) eqn:E; inv_ok; split_and!; try done.
    apply placement_ok_snoc; [done|done|by rewrite E]. }
  destruct strict; [exists (p1 ++ p2), (pu ++ [p'])|exists (p1 ++ p' :: p2), pu];
    (split_and!; cbn;
      [by rewrite !fmap_app, ?fmap_cons, ?Ha
      |by rewrite ?fmap_app, ?Hpu; cbn; rewrite ?Ha
      |rewrite <- Hb, !fmap_app; cbn; rewrite ?Hbf, ?fmap_app; solve_Permutation
      |..]).
  - rewrite <- Hc, !fmap_app, !concat_app. cbn. rewrite ?app_nil_r. unfold p'.
    destruct (pl_after p); cbn; solve_Permutation.
  - rewrite !Forall_app, !Forall_cons in *. naive_solver.
  - intros _. destruct (Hst eq_refl) as [H1 H2].
    rewrite !Forall_app, Forall_cons in *. destruct H1 as (H1 & Hpd & H1'). split_and!; try done.
    unfold p'.
    destruct (pl_after p); cbn; rewrite ?length_app, Hpd; cbn; lia.
  - rewrite <- Hc, !fmap_app, !concat_app. cbn. unfold p'.
    destruct (pl_after p); cbn; solve_Permutation.
  - rewrite !Forall_app, !Forall_cons in *. naive_solver.
  - done.
Qed.

Lemma pack_loop_plan strict nodes0 l processed s s' :
  Forall dict_wf l → plan_inv strict nodes0 processed s →
  foldM (pack_demand strict) s l = Ok s' → plan_inv strict nodes0 (l ++ processed) s'.
Proof.
  revert processed s. induction l as [|d l IH]; cbn; intros processed s Hwf Hs H; inv_ok; [done|].
  apply Forall_cons in Hwf as [Hd Hwf].
  destruct (IH (d :: processed) x) as (pn & pu & H1 & H2 & H3 & H4 & H5 & H6); [done| |done|].
  { by eapply pack_demand_plan. }
  exists pn, pu. split_and!; try done. rewrite H4. solve_Permutation.
Qed.

Lemma plan_inv_init strict nodes :
  plan_inv strict nodes [] {| ps_unfulfilled := []; ps_nodes := nodes; ps_used := [] |}.
Proof.
  exists ((λ n, Placement n [] n) <$> nodes), []. rewrite app_nil_r. split_and!; cbn.
  - rewrite <- list_fmap_compose. apply list_fmap_id.
  - done.
  - rewrite <- list_fmap_compose. cbn. by rewrite list_fmap_id.
  - induction nodes; cbn; auto.
  - apply Forall_fmap, Forall_true. intros n. apply placement_ok_refl.
  - intros _. split; [|done]. by apply Forall_fmap, Forall_true.
Qed.

Lemma sort_demands_perm l : sort_demands l ≡ₚ l.
Proof. apply stable_sort_perm. Qed.

Lemma Forall_sort_demands (P : ResourceDict → Prop) l : Forall P l → Forall P (sort_demands l).
Proof. by rewrite sort_demands_perm. Qed.

(** The plan behind a successful packing. *)
Lemma bin_pack_plan nodes demands strict unf out :
  Forall dict_wf demands →
  get_bin_pack_residual nodes demands strict = Ok (unf, out) →
  ∃ plan : list placement,
    pl_after <$> plan = out ∧ (pl_before <$> plan) ≡ₚ nodes ∧
    concat (pl_demands <$> plan) ++ unf ≡ₚ demands ∧
    Forall placement_ok plan ∧
    (strict = true → Forall (λ p, (length (pl_demands p) ≤ 1)%nat) plan).
Proof.
  unfold get_bin_pack_residual. intros Hwf H; inv_ok.
  rename select (foldM _ _ _ = Ok _) into Hl.
  destruct (pack_loop_plan strict nodes (sort_demands demands) [] _ _
              (Forall_sort_demands _ _ Hwf) (plan_inv_init strict nodes) Hl)
    as (pn & pu & Hpn & Hpu & Hb & Hc & Hok & Hst).
  exists (pn ++ pu). split_and!; try done.
  - by rewrite fmap_app, Hpn, Hpu.
  - by rewrite Hc, app_nil_r, sort_demands_perm.
  - intros Hs. destruct (Hst Hs) as [H1 H2]. apply Forall_app. split; [|done].
    eapply Forall_impl; [exact H1|]. intros p Hp. cbn in Hp. rewrite Hp. cbn. lia.
Qed.

(** ** Progress and maximality *)

Lemma pack_demand_total strict s d : demand_ok d → is_Ok (pack_demand strict s d).
Proof.
  intros Hd. unfold pack_demand. destruct (find_node _ d) as [[[pre n] post]|] eqn:Hf;
    [|by eexists].
  apply find_node_Some in Hf as (_ & Hfit & _).
  destruct (subtract_total n d Hd Hfit) as [n' Hn'].
  destruct n; [by eexists|]. rewrite Hn'. by eexists.
Qed.

Lemma bin_pack_total nodes demands strict :
  Forall demand_ok demands → is_Ok (get_bin_pack_residual nodes demands strict).
Proof.
  intros Hd. unfold get_bin_pack_residual.
  destruct (foldM_total (pack_demand strict) (λ _, True)
    {| ps_unfulfilled := []; ps_nodes := nodes; ps_used := [] |} (sort_demands demands))
    as (s & -> & _); [done| |by eexists].
  intros s d Hin _. destruct (pack_demand_total strict s d) as [s' Hs']; [|by eauto].
  apply Forall_sort_demands in Hd. rewrite Forall_forall in Hd. by apply Hd.
Qed.

(** No unfulfilled demand fits an open node. *)
Definition stuck (s : pack_state) : Prop :=
  Forall (λ n, n ≠ []) (ps_nodes s) ∧
  ∀ u n, u ∈ ps_unfulfilled s → n ∈ ps_nodes s → _fits n u = false.

Lemma subtract_le node d node' k :
  demand_ok d → _inplace_subtract node d = Ok node' → (amt k node' <= amt k node)%Q.
Proof.
  intros Hd Hs. destruct (subtract_spec _ _ _ (proj1 Hd) Hs) as (_ & Ha & _).
  rewrite Ha. pose proof (amt_nonneg k d Hd). lra.
Qed.

Lemma subtract_nonempty node d node' :
  dict_wf d → _inplace_subtract node d = Ok node' → node ≠ [] → node' ≠ [].
Proof.
  intros Hd Hs Hne ->. destruct (subtract_spec _ _ _ Hd Hs) as (Hk & _ & _).
  by destruct node.
Qed.

Lemma pack_demand_stuck strict s d s' :
  demand_ok d → stuck s → pack_demand strict s d = Ok s' → stuck s'.
Proof.
  intros Hd [Hne Hst]. unfold pack_demand.
  destruct (find_node _ d) as [[[pre n] post]|] eqn:Hf; intros H; inv_ok.
  - apply find_node_Some in Hf as (Hn & Hfit & _). rewrite Hn in *.
    rewrite Forall_app, Forall_cons in Hne. destruct Hne as (Hpre & Hnn & Hpost).
    destruct n as [|kv n]; [done|]. set (m := kv :: n) in *.
    rename select (_inplace_subtract m d = Ok x) into Hsub.
    split; cbn; destruct strict.
    + by apply Forall_app.
    + apply Forall_app; split; [done|]. constructor; [|done].
      eapply subtract_nonempty; [apply Hd|done|done].
    + intros u q Hu Hq. apply Hst; [done|]. set_solver.
    + intros u q Hu Hq. apply elem_of_app in Hq as [Hq|[->|Hq]%elem_of_cons];
        [apply Hst; set_solver| |apply Hst; set_solver].
      apply not_true_iff_false. intros Hfx.
      eapply eq_true_false_abs; [|apply (Hst u m); set_solver].
      eapply fits_mono; [|exact Hfx]. intros k. by eapply subtract_le.
  - apply find_node_None in Hf. split; [done|]. cbn. intros u q.
    rewrite elem_of_app, list_elem_of_singleton. intros [Hu| ->] Hq; [by apply Hst|].
    rewrite Forall_forall in Hf. by apply Hf.
Qed.

(** Strict spreading closes one node per placed demand. *)

Lemma pack_demand_strict_count s d s' :
  Forall (λ n, n ≠ []) (ps_nodes s) → pack_demand true s d = Ok s' →
  (length (ps_used s') + length (ps_unfulfilled s')
   = S (length (ps_used s) + length (ps_unfulfilled s)))%nat.
Proof.
  intros Hne. unfold pack_demand.
  destruct (find_node _ d) as [[[pre n] post]|] eqn:Hf; intros H; inv_ok; cbn.
  - apply find_node_Some in Hf as (Hn & _ & _). rewrite Hn, Forall_app, Forall_cons in Hne.
    destruct n as [|kv n]; [naive_solver|]. rewrite length_app. cbn. lia.
  - rewrite length_app. cbn. lia.
Qed.

Lemma pack_loop_strict_count l s s' :
  Forall demand_ok l → stuck s → foldM (pack_demand true) s l = Ok s' →
  (length (ps_used s') + length (ps_unfulfilled s')
   = length l + (length (ps_used s) + length (ps_unfulfilled s)))%nat.
Proof.
  revert s. induction l as [|d l IH]; cbn; intros s Hd Hs Hl; inv_ok; [done|].
  apply Forall_cons in Hd as [Hd0 Hd]. rename select (pack_demand _ _ _ = _) into Hp.
  rewrite (IH x Hd); [|by eapply pack_demand_stuck|done].
  rewrite (pack_demand_strict_count _ _ _ (proj1 Hs) Hp). lia.
Qed.

Lemma bin_pack_stuck nodes demands strict unf out :
  Forall demand_ok demands → Forall (λ n, n ≠ []) nodes →
  get_bin_pack_residual nodes demands strict = Ok (unf, out) →
  ∃ s, stuck s ∧ unf = ps_unfulfilled s ∧ out = ps_nodes s ++ ps_used s ∧
       (if strict then (length (ps_used s) + length (ps_unfulfilled s))%nat = length demands
        else ps_used s = []).
Proof.
  unfold get_bin_pack_residual. intros Hd Hne H; inv_ok.
  rename select (foldM _ _ _ = Ok _) into Hl. exists x.
  assert (stuck {| ps_unfulfilled := []; ps_nodes := nodes; ps_used := [] |}) as H0.
  { split; [done|]. cbn. by intros ?? ?%not_elem_of_nil. }
  split_and!; try done.
  - eapply (foldM_inv _ stuck); [exact Hl|done|].
    intros s d s' Hin Hs Hstep. eapply pack_demand_stuck; [|done|done].
    apply Forall_sort_demands in Hd. rewrite Forall_forall in Hd. by apply Hd.
  - destruct strict.
    { rewrite (pack_loop_strict_count _ _ _ (Forall_sort_demands _ _ Hd) H0 Hl), sort_demands_perm.
      cbn. lia. }
    eapply (foldM_inv _ (λ s, ps_used s = [])); [exact Hl|done|].
    intros s d s' _ Hs Hstep. unfold pack_demand in Hstep.
    destruct (find_node _ d) as [[[??]?]|]; by inv_ok.
Qed.

(** What is left over fits no node of the result (without strict spread). *)
Lemma bin_pack_maximal nodes demands unf out u n :
  Forall demand_ok demands → Forall (λ n, n ≠ []) nodes →
  get_bin_pack_residual nodes demands false = Ok (unf, out) →
  u ∈ unf → n ∈ out → _fits n u = false.
Proof.
  intros Hd Hne H Hu Hn.
  destruct (bin_pack_stuck _ _ _ _ _ Hd Hne H) as (s & [_ Hs] & -> & -> & Hused).
  rewrite Hused, app_nil_r in Hn. by apply Hs.
Qed.

Lemma demand_ok_wf ds : Forall demand_ok ds → Forall dict_wf ds.
Proof. intros H. eapply Forall_impl; [exact H|]. by intros d [? _]. Qed.
#[local] Hint Resolve demand_ok_wf : core.

(** If some demand fits the one node, packing makes progress on it. *)
Lemma bin_pack_progress node demands r unf out :
  Forall demand_ok demands → node ≠ [] → r ∈ demands → _fits node r = true →
  get_bin_pack_residual [node] demands false = Ok (unf, out) →
  (length unf < length demands)%nat.
Proof.
  intros Hd Hne Hr Hfit H.
  destruct (bin_pack_plan _ _ _ _ _ (demand_ok_wf _ Hd) H)
    as (plan & <- & Hb & Hc & Hok & _).
  destruct plan as [|p [|??]]; [by apply Permutation_nil in Hb| |
    by apply Permutation_length in Hb].
  apply Permutation_singleton_r in Hb. cbn in Hb. injection Hb as Hb.
  pose proof (Permutation_length Hc) as Hlen. cbn in Hlen, Hc.
  rewrite app_nil_r in Hlen, Hc. rewrite length_app in Hlen.
  destruct (pl_demands p) eqn:Hpd; cbn in Hlen; [|lia]. exfalso. cbn in Hc.
  apply Forall_singleton in Hok as (_ & Ha & _).
  enough (_fits (pl_after p) r = false) as Hf.
  { rewrite (fits_mono (pl_after p) node r) in Hf; [done| |done].
    intros k. rewrite Ha, Hpd, Hb. unfold total. cbn. lra. }
  eapply bin_pack_maximal; [exact Hd| |exact H| |].
  - by apply Forall_singleton.
  - by rewrite Hc.
  - cbn. by apply list_elem_of_singleton.
Qed.

(** ** Scores *)

Lemma score_step_spec rt ft rem r s' :
  score_step (rt, ft, rem) r = Ok s' →
  ∃ rt', s' = (rt', ft, rem) ∧ _fits rem r = false
       ∨ ∃ rem', s' = (rt', ft ++ [r], rem') ∧ _fits rem r = true ∧
                 _inplace_subtract rem r = Ok rem'.
Proof.
  unfold score_step. destruct (_fits rem r); intros H; inv_ok; [|by eauto].
  eexists. right. eauto.
Qed.

(** When no demand fits the fresh node, nothing is fittable. *)
Lemma score_loop_none node l rt s' :
  (∀ r, r ∈ l → _fits node r = false) →
  foldM score_step (rt, [], node) l = Ok s' → s'.1.2 = [].
Proof.
  revert rt. induction l as [|r l IH]; cbn; intros rt Hl H; inv_ok; [done|].
  rename select (score_step _ _ = Ok _) into Hs. unfold score_step in Hs.
  rewrite (Hl r) in Hs by left. inv_ok. eapply IH; [|exact H]. intros. apply Hl. by right.
Qed.

Lemma score_Some_fits conserve node l sc :
  _utilization_score conserve node l = Ok (Some sc) →
  node ≠ [] ∧ ∃ r, r ∈ l ∧ _fits node r = true.
Proof.
  unfold _utilization_score. case_match; intros Hsc; inv_ok.
  match goal with H : foldM score_step _ _ = Ok (_, ?l, _) |- _ => destruct l end; inv_ok.
  rename select (foldM score_step _ _ = _) into Hl.
  split.
  - intros ->. cbn in *. by inv_ok.
  - destruct (decide (Exists (λ r, _fits node r = true) l)) as [He|Hne].
    { apply Exists_exists in He. done. }
    exfalso. apply (score_loop_none node) in Hl; [done|].
    intros r Hr. apply not_true_iff_false. intros Hf. apply Hne, Exists_exists. eauto.
Qed.

Lemma score_loop_total node l rt ft :
  Forall demand_ok l →
  ∃ s', foldM score_step (rt, ft, node) l = Ok s' ∧ dkeys s'.2 = dkeys node.
Proof.
  intros Hl. apply (foldM_total score_step (λ s, dkeys s.2 = dkeys node)); [done|].
  intros [[rt' ft'] rem] r Hin Hk. rewrite Forall_forall in Hl. specialize (Hl r Hin).
  unfold score_step. destruct (_fits rem r) eqn:Hf; [|by eauto].
  destruct (subtract_total _ _ Hl Hf) as [rem' Hs]. rewrite Hs. cbn. eexists; split; [done|].
  cbn. destruct (subtract_spec _ _ _ (proj1 Hl) Hs) as [-> _]. done.
Qed.

Lemma util_loop_total node l rt s :
  (∀ k, k ∈ dkeys l → k ∈ dkeys node) → is_Ok (foldM (util_step rt node) s l).
Proof.
  intros Hk. destruct (foldM_total (util_step rt node) (λ _, True) s l) as (s' & ? & _);
    [done| |by exists s'].
  intros [num us] [k v] Hin _. unfold util_step. destruct (Qltb v 1); [by eauto|].
  assert (k ∈ dkeys node) as Hkn by (apply Hk, list_elem_of_fmap; by exists (k, v)).
  unfold dget_exn. destruct (dget k node) eqn:Hg; [cbn; by eauto|].
  by apply dget_None in Hg.
Qed.

Lemma score_total conserve node l :
  Forall demand_ok l → is_Ok (_utilization_score conserve node l).
Proof.
  intros Hl. unfold _utilization_score. case_match; [by eexists|].
  destruct (score_loop_total node l ∅ [] Hl) as ([[rt ft] rem] & -> & Hk). cbn in *.
  destruct ft; [by eexists|].
  destruct (util_loop_total rem node rt (0, [])) as [[num us] ->]; [by rewrite Hk|].
  cbn. destruct us; by eexists.
Qed.

(** ** Buying nodes *)

Section get_nodes_for.
Context (conserve : bool) (node_types : NodeTypes) (existing : dict NodeType Z)
        (head : NodeType) (max_to_add : Z) (strict : bool).

Abbreviation loop :=
  (λ fuel, get_nodes_for_loop conserve fuel node_types existing head max_to_add strict).

(** The demands a candidate node is scored on. *)
Definition scored_on (resources : list ResourceDict) : list ResourceDict :=
  if strict then take 1 resources else resources.

(** The type may still be added when [added] nodes are planned. *)
Definition has_room (added : dict NodeType Z) (nt : NodeType) (c : NodeTypeConfig) : Prop :=
  dget_def nt 0 existing + dget_def nt 0 added < max_of_type head nt c.

Lemma score_types_spec added rs nt c scores scores' :
  rs ≠ [] →
  score_types conserve existing added head rs strict scores (nt, c) = Ok scores' →
  (¬ has_room added nt c ∧ scores' = scores) ∨
  (∃ res sc, nt_resources c = Some res ∧
     _utilization_score conserve res (scored_on rs) = Ok sc ∧ has_room added nt c ∧
     scores' = match sc with Some s => scores ++ [(s, nt)] | None => scores end).
Proof.
  intros Hrs. unfold score_types, config_resources, has_room, scored_on.
  destruct (Z.leb_spec (max_of_type head nt c)
    (dget_def nt 0 existing + dget_def nt 0 added)); intros Hs; inv_ok; [left; split; [lia|done]|].
  right. eexists _, _. split_and!; [done| |lia|done].
  destruct strict; [|done]. by destruct rs; inv_ok.
Qed.

(** Every collected score belongs to a type with room and a fitting demand. *)
Lemma score_types_sound added rs l scores s nt :
  rs ≠ [] →
  foldM (score_types conserve existing added head rs strict) [] l = Ok scores →
  (s, nt) ∈ scores →
  ∃ c res, (nt, c) ∈ l ∧ has_room added nt c ∧ nt_resources c = Some res ∧ res ≠ [] ∧
           ∃ r, r ∈ scored_on rs ∧ _fits res r = true.
Proof.
  intros Hrs Hl. revert s nt.
  eapply (foldM_inv _ (λ scores, ∀ s nt, (s, nt) ∈ scores → _)); [exact Hl| |].
  - by intros ?? ?%not_elem_of_nil.
  - intros sc0 [nt c] sc1 Hin IH Hstep s nt'.
    apply score_types_spec in Hstep as [[_ ->]|(res & sc & Hres & Hu & Hroom & ->)];
      [apply IH| |done].
    destruct sc as [sc|]; [|apply IH].
    rewrite elem_of_app, list_elem_of_singleton. intros [?|?]; simplify_eq; [by eapply IH|].
    apply score_Some_fits in Hu as (? & r & ?). exists c, res. naive_solver.
Qed.

(** With no score at all, every type with room was rejected. *)
Lemma score_types_complete added rs l :
  rs ≠ [] →
  foldM (score_types conserve existing added head rs strict) [] l = Ok [] →
  ∀ nt c, (nt, c) ∈ l → has_room added nt c →
  ∃ res, nt_resources c = Some res ∧ _utilization_score conserve res (scored_on rs) = Ok None.
Proof.
  intros Hrs. revert l.
  assert (∀ l sc0, foldM (score_types conserve existing added head rs strict) sc0 l = Ok [] →
    sc0 = [] ∧ ∀ nt c, (nt, c) ∈ l → has_room added nt c →
    ∃ res, nt_resources c = Some res ∧
           _utilization_score conserve res (scored_on rs) = Ok None) as Hgen.
  { induction l as [|[nt c] l IH]; cbn; intros sc0 Hl; inv_ok.
    { split; [done|]. by intros ?? ?%not_elem_of_nil. }
    destruct (IH _ Hl) as [-> IHl].
    rename select (score_types _ _ _ _ _ _ _ _ = _) into Hs.
    apply score_types_spec in Hs as [[Hno <-]|(res & sc & Hres & Hu & Hroom & Heq)]; [| |done].
    - split; [done|]. intros nt' c' [?|?]%elem_of_cons ?; simplify_eq; eauto.
    - destruct sc as [sc|]; [by destruct sc0|]. subst. split; [done|].
      intros nt' c' [?|?]%elem_of_cons ?; simplify_eq; eauto. }
  intros l Hl. by apply (Hgen l []).
Qed.

(** The types that are bought, in the order in which they are. *)
Definition bought_of (bought : list (NodeType * list ResourceDict)) (nt : NodeType) : Z :=
  Z.of_nat (length (filter (λ b, b.1 = nt) bought)).

(** A purchase is carried by a node of its type, and was within the limit. *)
Definition purchase_ok (b : NodeType * list ResourceDict) : Prop :=
  ∃ c res, (b.1, c) ∈ node_types ∧ nt_resources c = Some res ∧ b.2 ≠ [] ∧
    (∀ k, (∀ k', 0 <= amt k' res)%Q → total k b.2 <= amt k res)%Q ∧
    (strict = true → length b.2 = 1%nat).

(** One iteration: which type is bought, and what it carries. *)
Lemma body_Some added rs added' rs' :
  Forall demand_ok rs → dict_wf node_types →
  get_nodes_for_body conserve node_types existing head max_to_add strict added rs
    = Ok (Some (added', rs')) →
  ∃ nt c ds, purchase_ok (nt, ds) ∧ (nt, c) ∈ node_types ∧ has_room added nt c ∧
    sumZ (dvalues added) < max_to_add ∧ ds ++ rs' ≡ₚ rs ∧
    added' = dset nt (dget_def nt 0 added + 1) added.
Proof.
  intros Hd Hnt. unfold get_nodes_for_body. case_bool_decide as Hne; [done|].
  destruct (Z.ltb_spec (sumZ (dvalues added)) max_to_add); cbn [orb negb]; [|done].
  intros Hb; inv_ok. rename x into scores.
  destruct (py_sorted_rev score_cmp id scores) as [|[s nt] rest] eqn:Hsort; inv_ok.
  assert ((s, nt) ∈ scores) as Hin.
  { rewrite <- (py_sorted_rev_perm score_cmp id scores), Hsort. left. }
  destruct (score_types_sound added rs node_types scores s nt) as
    (c & res & Hc & Hroom & Hres & Hrne & r & Hr & Hfit); [done..|].
  exists nt, c. unfold scored_on in Hr.
  destruct strict eqn:Hstrict; inv_ok.
  - destruct rs as [|r0 rs]; [done|]. apply list_elem_of_singleton in Hr as ->.
    exists [r0]. split_and!; try done. exists c, res. split_and!; try done.
    intros k Hk. unfold total. cbn. apply fits_spec in Hfit.
    apply Forall_cons in Hd as [Hd0 _].
    unfold amt at 1, dget_def. destruct (dget k r0) eqn:Hg; cbn; [|specialize (Hk k); lra].
    apply dget_Some_elem in Hg. rewrite Forall_forall in Hfit. specialize (Hfit _ Hg).
    cbn in Hfit. lra.
  - unfold dget_exn in *. inv_ok. rename select (dget nt node_types = Some _) into Hg.
    rewrite (dget_elem _ _ _ Hnt Hc) in Hg. unfold config_resources in *. inv_ok.
    rename select (get_bin_pack_residual _ _ _ = _) into Hbp.
    rename select (Nat.ltb _ _ = true) into Hlt. apply Nat.ltb_lt in Hlt.
    destruct (bin_pack_plan _ _ _ _ _ (demand_ok_wf _ Hd) Hbp)
      as (plan & <- & Hbef & Hcc & Hok & _).
    destruct plan as [|p [|??]]; [by apply Permutation_nil in Hbef| |
      by apply Permutation_length in Hbef].
    apply Permutation_singleton_r in Hbef. cbn in Hbef. injection Hbef as Hbef.
    cbn in Hcc. rewrite app_nil_r in Hcc. exists (pl_demands p). split_and!; try done.
    eexists _, _. split_and!; try done.
    + cbn. intros Hnil. rewrite Hnil in Hcc. apply Permutation_length in Hcc. cbn in Hcc. lia.
    + intros k Hk. apply Forall_singleton in Hok as (_ & Ha & Hn). cbn.
      specialize (Ha k). specialize (Hn k). rewrite Hbef in Hn, Ha.
      specialize (Hn (Hk k)). lra.
    + congruence.
Qed.

(** The loop stops for one of three reasons. *)
Definition finished (added : dict NodeType Z) (rs : list ResourceDict) : Prop :=
  rs = [] ∨ max_to_add <= sumZ (dvalues added) ∨
  ∀ nt c, (nt, c) ∈ node_types → has_room added nt c →
    ∃ res, nt_resources c = Some res ∧
           _utilization_score conserve res (scored_on rs) = Ok None.

Lemma body_None added rs :
  get_nodes_for_body conserve node_types existing head max_to_add strict added rs = Ok None →
  finished added rs.
Proof.
  unfold get_nodes_for_body, finished. case_bool_decide; [by left|].
  destruct (Z.ltb_spec (sumZ (dvalues added)) max_to_add); cbn [orb negb]; [|auto].
  intros Hb; inv_ok. rename x into scores.
  destruct (py_sorted_rev score_cmp id scores) as [|[s nt] rest] eqn:Hsort; inv_ok.
  right; right. assert (scores = []) as ->; [|by apply score_types_complete].
  apply Permutation_nil. by rewrite <- (py_sorted_rev_perm score_cmp id scores), Hsort.
Qed.

Lemma bought_of_cons nt nt' ds bought :
  bought_of ((nt', ds) :: bought) nt = bought_of bought nt + (if decide (nt' = nt) then 1 else 0).
Proof.
  unfold bought_of. rewrite filter_cons. cbn. case_decide; cbn; lia.
Qed.

Lemma demand_ok_perm_app ds rs' rs :
  Forall demand_ok rs → ds ++ rs' ≡ₚ rs → Forall demand_ok rs'.
Proof. intros Hd Hp. rewrite <- Hp in Hd. by apply Forall_app in Hd as [_ ?]. Qed.

(** The run of the loop: what is bought, what it carries, and the limits that
    hold at the end if they held at the start. *)
Lemma loop_spec fuel added rs added' rs' :
  Forall demand_ok rs → dict_wf node_types →
  get_nodes_for_loop conserve fuel node_types existing head max_to_add strict added rs
    = Ok (added', rs') →
  ∃ bought : list (NodeType * list ResourceDict),
    Forall purchase_ok bought ∧ concat bought.*2 ++ rs' ≡ₚ rs ∧
    (∀ nt, dget_def nt 0 added' = dget_def nt 0 added + bought_of bought nt) ∧
    sumZ (dvalues added') = sumZ (dvalues added) + Z.of_nat (length bought) ∧
    (bought ≠ [] → sumZ (dvalues added') <= max_to_add) ∧
    (∀ nt, 0 < bought_of bought nt → ∃ c, (nt, c) ∈ node_types ∧
       dget_def nt 0 existing + dget_def nt 0 added' <= max_of_type head nt c) ∧
    finished added' rs'.
Proof.
  intros Hd Hnt. revert added rs Hd. induction fuel as [|fuel IH]; intros added rs Hd; cbn;
    intros Hl; inv_ok; destruct x as [[added1 rs1]|]; inv_ok.
  1, 3: exists []; cbn; split_and!; try done; try lia;
    [intros; unfold bought_of; cbn; lia|by apply body_None].
  rename select (get_nodes_for_body _ _ _ _ _ _ _ _ = _) into Hb.
  apply body_Some in Hb as (nt & c & ds & Hp & Hc & Hroom & Hsum & Hperm & ->); [|done..].
  destruct (IH _ _ (demand_ok_perm_app _ _ _ Hd Hperm) Hl)
    as (bought & Hps & Hcc & Hcnt & Htot & Hmax & Hlim & Hfin).
  assert (sumZ (dvalues (dset nt (dget_def nt 0 added + 1) added)) =
          sumZ (dvalues added) + 1) as Hs1 by (rewrite sumZ_dset; lia).
  exists ((nt, ds) :: bought). split_and!.
  - by constructor.
  - cbn. rewrite <- app_assoc, Hcc. done.
  - intros nt'. rewrite Hcnt, bought_of_cons, dget_def_dset.
    repeat case_decide; subst; try done; lia.
  - cbn. lia.
  - intros _. destruct bought as [|b bought]; [cbn in *; lia|]. by apply Hmax.
  - intros nt'. rewrite bought_of_cons. intros Hpos.
    destruct (decide (0 < bought_of bought nt')) as [|Hz]; [by apply Hlim|].
    case_decide; [|lia]. subst nt'. exists c. split; [done|].
    rewrite Hcnt, dget_def_dset, decide_True by done. unfold has_room in Hroom. lia.
  - done.
Qed.

(** Every type describes its resources. *)
Definition node_types_ok : Prop := Forall (λ ntc, is_Some (nt_resources ntc.2)) node_types.

Lemma score_types_total added rs l scores :
  Forall demand_ok rs → rs ≠ [] → Forall (λ ntc, is_Some (nt_resources ntc.2)) l →
  is_Ok (foldM (score_types conserve existing added head rs strict) scores l).
Proof.
  intros Hd Hne Hl.
  destruct (foldM_total (score_types conserve existing added head rs strict) (λ _, True)
    scores l) as (s & ? & _); [done| |by exists s].
  intros s [nt c] Hin _. rewrite Forall_forall in Hl. destruct (Hl _ Hin) as [res Hres].
  cbn in Hres. unfold score_types, config_resources. rewrite Hres. cbn.
  case_match; [by eauto|].
  destruct rs as [|r rs]; [done|]. apply Forall_cons in Hd as [Hr Hd].
  destruct (score_total conserve res [r]) as [sc1 Hs1]; [by constructor|].
  destruct (score_total conserve res (r :: rs)) as [sc2 Hs2]; [by constructor|].
  destruct strict; cbn; rewrite ?Hs1, ?Hs2; cbn; eauto.
Qed.

Lemma body_total added rs :
  Forall demand_ok rs → dict_wf node_types → node_types_ok →
  is_Ok (get_nodes_for_body conserve node_types existing head max_to_add strict added rs).
Proof.
  intros Hd Hwf Hok. unfold get_nodes_for_body. case_bool_decide as Hne; [by eexists|].
  destruct (sumZ (dvalues added) <? max_to_add); cbn [negb orb]; [|by eexists].
  destruct (score_types_total added rs node_types [] Hd Hne Hok) as [scores Hs].
  rewrite Hs. cbn.
  destruct (py_sorted_rev score_cmp id scores) as [|[s nt] rest] eqn:Hsort; [by eexists|].
  assert ((s, nt) ∈ scores) as Hin.
  { rewrite <- (py_sorted_rev_perm score_cmp id scores), Hsort. left. }
  destruct (score_types_sound added rs node_types scores s nt) as
    (c & res & Hc & _ & Hres & Hrne & r & Hr & Hfit); [done..|].
  unfold scored_on in Hr. destruct strict; [by eexists|].
  unfold dget_exn, config_resources. rewrite (dget_elem nt c) by done. cbn. rewrite Hres. cbn.
  destruct (bin_pack_total [res] rs false Hd) as [[unf out] Hbp]. rewrite Hbp. cbn.
  rewrite (proj2 (Nat.ltb_lt _ _)); [by eexists|]. by eapply bin_pack_progress.
Qed.

(** Fuel for one iteration per demand is enough: every purchase carries one. *)
Lemma loop_total fuel added rs :
  Forall demand_ok rs → dict_wf node_types → node_types_ok → (length rs ≤ fuel)%nat →
  is_Ok (get_nodes_for_loop conserve fuel node_types existing head max_to_add strict added rs).
Proof.
  intros Hd Hwf Hok. revert added rs Hd. induction fuel as [|fuel IH]; intros added rs Hd Hlen;
    cbn; destruct (body_total added rs Hd Hwf Hok) as [[[added1 rs1]|] Hb]; rewrite Hb;
    cbn; try by eexists.
  - apply body_Some in Hb as (nt & c & ds & (?&?&?&?&Hds&_) & _ & _ & _ & Hperm & _); [|done..].
    apply Permutation_length in Hperm. rewrite length_app in Hperm. cbn in *.
    destruct ds; [done|]. cbn in *. lia.
  - apply body_Some in Hb as (nt & c & ds & (?&?&?&?&Hds&_) & _ & _ & _ & Hperm & _); [|done..].
    apply IH; [by eapply demand_ok_perm_app|].
    apply Permutation_length in Hperm. rewrite length_app in Hperm. cbn in *.
    destruct ds; [done|]. cbn in *. lia.
Qed.
End get_nodes_for.

(** ** Placement groups keep the resources they ask for *)

Lemma combine_one_amt k shape combined :
  dict_wf shape →
  (amt k (fold_left (λ c '(l, q), dset l (dget_def l 0%Q c + q)%Q c) shape combined)
   == amt k combined + amt k shape)%Q.
Proof.
  unfold dict_wf, dkeys. revert combined.
  induction shape as [|[l q] shape IH]; cbn; intros c Hwf.
  - unfold amt, dget_def. cbn. lra.
  - apply NoDup_cons in Hwf as [Hl Hwf]. rewrite IH, amt_dset, amt_cons by done.
    case_decide; [|done]. subst. rewrite (amt_not_in l shape) by done. unfold amt. lra.
Qed.

Lemma combine_shapes_amt k shapes :
  Forall dict_wf shapes → (amt k (combine_shapes shapes) == total k shapes)%Q.
Proof.
  intros Hwf. unfold combine_shapes.
  assert (∀ c, amt k (fold_left (λ combined shape,
    fold_left (λ combined '(label, quantity),
      dset label (dget_def label 0%Q combined + quantity)%Q combined) shape combined) shapes c)
    == amt k c + total k shapes)%Q as Hgen.
  { induction Hwf as [|sh shapes Hsh _ IH]; cbn; intros c; [unfold total; cbn; lra|].
    rewrite IH, combine_one_amt by done. unfold total, sumQ. cbn. lra. }
  rewrite Hgen. unfold amt, dget_def. cbn. lra.
Qed.

(** What a group asks for, over all its bundles; nothing for a strategy the
    scheduler does not know. *)
Definition pg_total (k : string) (pg : PlacementGroupTableData) : Q :=
  match pg_strategy pg with OTHER _ => 0%Q | _ => total k (pg_bundles pg) end.

Lemma pg_step_total k acc pg :
  Forall dict_wf (pg_bundles pg) →
  (total k (pg_step acc pg).1 + sumQ (total k <$> (pg_step acc pg).2)
   == total k acc.1 + sumQ (total k <$> acc.2) + pg_total k pg)%Q.
Proof.
  intros Hwf. destruct acc as [v u]. unfold pg_step, pg_total.
  pose proof (combine_shapes_amt k _ Hwf) as Hc.
  assert (∀ l1 l2 : list Q, sumQ (l1 ++ l2) == sumQ l1 + sumQ l2)%Q as Happ.
  { intros l1 l2. unfold sumQ. induction l1; cbn in *; lra. }
  destruct (pg_strategy pg); cbn [fst snd];
    rewrite ?total_app, ?total_singleton, ?fmap_app, ?Happ; unfold sumQ; cbn; lra.
Qed.

(** * The properties *)

(** C2: packing returns (it raises nothing on demands with positive amounts)
    and its result is a plan: the returned nodes are the given ones, each with
    exactly the demands placed on it subtracted and none overdrawn; placed and
    unfulfilled demands together are the given demands; with strict spread no
    node carries two demands. *)
Theorem get_bin_pack_residual_plan nodes demands strict :
  Forall demand_ok demands →
  ∃ unf out (plan : list placement),
    get_bin_pack_residual nodes demands strict = Ok (unf, out) ∧
    pl_after <$> plan = out ∧ (pl_before <$> plan) ≡ₚ nodes ∧
    concat (pl_demands <$> plan) ++ unf ≡ₚ demands ∧
    Forall placement_ok plan ∧
    (strict = true → Forall (λ p, (length (pl_demands p) ≤ 1)%nat) plan).
Proof.
  intros Hd. destruct (bin_pack_total nodes demands strict Hd) as [[unf out] Hb].
  destruct (bin_pack_plan _ _ _ _ _ (demand_ok_wf _ Hd) Hb) as (plan & ?).
  exists unf, out, plan. by split.
Qed.

(** First fit leaves nothing behind that could be placed: the returned
    nodes are open ones, on which no unfulfilled demand fits, and, with strict
    spread only, closed ones, as many as demands were placed. *)
Theorem get_bin_pack_residual_maximal nodes demands strict unf out :
  Forall demand_ok demands → Forall (λ n, n ≠ []) nodes →
  get_bin_pack_residual nodes demands strict = Ok (unf, out) →
  ∃ opened closed, out = opened ++ closed ∧
    (∀ u n, u ∈ unf → n ∈ opened → _fits n u = false) ∧
    (if strict then (length closed + length unf)%nat = length demands else closed = []).
Proof.
  intros Hd Hne H. destruct (bin_pack_stuck _ _ _ _ _ Hd Hne H) as (s & [_ Hs] & -> & -> & Hu).
  by exists (ps_nodes s), (ps_used s).
Qed.

(** C3: [get_nodes_for] returns on well-formed input (in particular its
    progress assertion holds and its loop ends) and stays within the limits:
    at most [max_to_add] nodes in all, and no type above its [max_workers]
    (one more for the head node's type). *)
Theorem get_nodes_for_within_limits conserve node_types existing head max_to_add rs strict :
  Forall demand_ok rs → dict_wf node_types → node_types_ok node_types →
  ∃ add rest,
    get_nodes_for conserve node_types existing head max_to_add rs strict = Ok (add, rest) ∧
    sumZ (dvalues add) <= Z.max 0 max_to_add ∧
    ∀ nt, 0 < dget_def nt 0 add → ∃ c, (nt, c) ∈ node_types ∧
      dget_def nt 0 existing + dget_def nt 0 add <= max_of_type head nt c.
Proof.
  intros Hd Hwf Hok. unfold get_nodes_for.
  destruct (loop_total conserve node_types existing head max_to_add strict (length rs) [] rs)
    as [[add rest] Hl]; [done..|].
  exists add, rest. split; [done|].
  destruct (loop_spec _ _ _ _ _ _ _ _ _ _ _ Hd Hwf Hl)
    as (bought & _ & _ & Hcnt & Hsum & Hmax & Hlim & _).
  split.
  - destruct bought as [|b bought]; [rewrite Hsum; unfold sumZ, dvalues; cbn; lia|].
    specialize (Hmax ltac:(done)). lia.
  - intros nt Hpos. apply Hlim. rewrite Hcnt in Hpos. unfold dget_def in Hpos. cbn in Hpos. lia.
Qed.

(** The nodes [get_nodes_for] buys carry the demands it removes: the
    removed demands are divided over the bought nodes so that each node's type
    has enough of every resource (with strict spread, one demand per node), and
    the rest is given up only for one of three reasons: nothing is left, the
    total limit is reached, or no type with room has a score. *)
Theorem get_nodes_for_carries_demands conserve node_types existing head max_to_add rs strict add rest :
  Forall demand_ok rs → dict_wf node_types →
  get_nodes_for conserve node_types existing head max_to_add rs strict = Ok (add, rest) →
  ∃ bought : list (NodeType * list ResourceDict),
    (∀ nt, dget_def nt 0 add = bought_of bought nt) ∧
    concat bought.*2 ++ rest ≡ₚ rs ∧
    Forall (purchase_ok node_types strict) bought ∧
    finished conserve node_types existing head max_to_add strict add rest.
Proof.
  unfold get_nodes_for. intros Hd Hwf Hl.
  destruct (loop_spec _ _ _ _ _ _ _ _ _ _ _ Hd Hwf Hl)
    as (bought & Hp & Hc & Hcnt & _ & _ & _ & Hfin).
  by exists bought.
Qed.

(** A demand that names a resource with amount zero makes packing raise
    [AssertionError] when the node it fits does not have that resource: [_fits]
    reads the absent resource as zero, [_inplace_subtract] asserts its
    presence. *)
Theorem zero_amount_demand_raises node demand k strict :
  node ≠ [] → dict_wf demand → (k, 0%Q) ∈ demand → k ∉ dkeys node →
  _fits node demand = true →
  get_bin_pack_residual [node] [demand] strict = Err AssertionError.
Proof.
  intros Hne Hwf Hin Hk Hfit. unfold get_bin_pack_residual. cbn. unfold pack_demand. cbn.
  rewrite Hfit. destruct node as [|kv node]; [done|].
  assert (_inplace_subtract (kv :: node) demand = Err AssertionError) as ->; [|done].
  apply subtract_zero_raises with k; done.
Qed.

(** Turning placement groups into demands neither creates nor loses
    resources: for every resource, what the demand vector and the strict
    spreads ask for together is what the groups' bundles ask for (a group of an
    unknown strategy is dropped). *)
Theorem placement_groups_conserve_resources pgs k :
  Forall (λ pg, Forall dict_wf (pg_bundles pg)) pgs →
  let '(vector, spreads) := placement_groups_to_resource_demands pgs in
  (total k vector + sumQ (total k <$> spreads) == sumQ (pg_total k <$> pgs))%Q.
Proof.
  intros Hwf. unfold placement_groups_to_resource_demands.
  assert (∀ acc, let '(v, u) := fold_left pg_step pgs acc in
    total k v + sumQ (total k <$> u)
    == total k acc.1 + sumQ (total k <$> acc.2) + sumQ (pg_total k <$> pgs))%Q as Hgen.
  { induction Hwf as [|pg pgs Hpg _ IH]; cbn; intros acc; [destruct acc; unfold sumQ; cbn; lra|].
    specialize (IH (pg_step acc pg)). destruct (fold_left pg_step pgs _) as [v u].
    rewrite IH, pg_step_total by done. unfold sumQ. cbn. lra. }
  specialize (Hgen ([], [])). destruct (fold_left pg_step pgs _) as [v u].
  rewrite Hgen. unfold total, sumQ. cbn. lra.
Qed.

(** ** The properties at concrete inputs *)

Module Examples.
Definition cpu4 : ResourceDict := [("CPU"%string, 4%Q)].
Definition gpu1 : ResourceDict := [("CPU"%string, 4%Q); ("GPU"%string, 1%Q)].
Definition cpu (n : Z) : ResourceDict := [("CPU"%string, inject_Z n)].
Definition gpu (n : Z) : ResourceDict := [("GPU"%string, inject_Z n)].
Definition config (r : ResourceDict) (mn mx : Z) : NodeTypeConfig :=
  {| nt_resources := Some r; nt_min_workers := Some mn; nt_max_workers := Some mx;
     nt_node_config := None; nt_other := [] |}.
Definition types : NodeTypes :=
  [("head"%string, config cpu4 0 0); ("small"%string, config cpu4 0 3);
   ("big"%string, config gpu1 1 2)].
End Examples.

(** Concrete demands and configurations are well-formed by computation. *)
Ltac solve_closed :=
  repeat match goal with
  | |- Forall _ [] => constructor
  | |- Forall _ (_ :: _) => constructor
  | |- demand_ok _ => split
  | |- dict_wf _ => apply (bool_decide_unpack _); vm_compute; exact I
  | |- is_Some _ => eexists; reflexivity
  | |- node_types_ok _ => unfold node_types_ok
  | |- _ ≠ [] => discriminate
  | |- (_ < _)%Q => vm_compute; reflexivity
  | |- Forall ?P ?l => let l' := eval hnf in l in progress change (Forall P l')
  | _ => progress cbn
  end.

Lemma get_bin_pack_residual_plan_witness :
  ∃ unf out, get_bin_pack_residual [Examples.cpu4; Examples.gpu1]
               [Examples.cpu 3; Examples.gpu 1; Examples.cpu 2] true = Ok (unf, out).
Proof.
  destruct (get_bin_pack_residual_plan [Examples.cpu4; Examples.gpu1]
    [Examples.cpu 3; Examples.gpu 1; Examples.cpu 2] true) as (unf & out & _ & H & _).
  - solve_closed.
  - exists unf, out. exact H.
Defined.

Lemma get_bin_pack_residual_maximal_witness :
  ∃ opened closed : list ResourceDict, (length closed + 1)%nat = 3%nat ∧
    ∀ n, n ∈ opened → _fits n (Examples.cpu 5) = false.
Proof.
  destruct (get_bin_pack_residual_maximal [Examples.cpu4; Examples.gpu1; Examples.cpu4]
    [Examples.cpu 3; Examples.gpu 1; Examples.cpu 5] true [Examples.cpu 5]
    [Examples.cpu4; [("CPU"%string, (4 - 3)%Q)];
     [("CPU"%string, 4%Q); ("GPU"%string, (1 - 1)%Q)]])
    as (opened & closed & _ & Hf & Hl).
  - solve_closed.
  - solve_closed.
  - reflexivity.
  - exists opened, closed. split; [exact Hl|]. intros n Hn. apply Hf; [left|exact Hn].
Defined.

Lemma get_nodes_for_within_limits_witness :
  ∃ add rest, get_nodes_for true Examples.types [] "head"%string 4
    [Examples.cpu 3; Examples.cpu 3; Examples.gpu 1] false = Ok (add, rest).
Proof.
  destruct (get_nodes_for_within_limits true Examples.types [] "head"%string 4
    [Examples.cpu 3; Examples.cpu 3; Examples.gpu 1] false) as (add & rest & H & _).
  - solve_closed.
  - solve_closed.
  - solve_closed.
  - exists add, rest. exact H.
Defined.

Lemma get_nodes_for_carries_demands_witness :
  ∃ bought : list (NodeType * list ResourceDict),
    concat bought.*2 ++ [] ≡ₚ [Examples.cpu 3; Examples.gpu 1] ∧
    bought_of bought "big"%string = 1.
Proof.
  destruct (get_nodes_for_carries_demands true Examples.types [] "head"%string 4
    [Examples.cpu 3; Examples.gpu 1] false [("big"%string, 1)] []) as (bought & Hn & Hp & _).
  - solve_closed.
  - solve_closed.
  - reflexivity.
  - exists bought. split; [exact Hp|]. rewrite <- Hn. reflexivity.
Defined.

Lemma zero_amount_demand_raises_witness :
  get_bin_pack_residual [Examples.cpu4]
    [[("CPU"%string, 1%Q); ("GPU"%string, 0%Q)]] false = Err AssertionError.
Proof.
  apply (zero_amount_demand_raises Examples.cpu4 _ "GPU"%string).
  - discriminate.
  - solve_closed.
  - right; left.
  - apply (bool_decide_unpack _). vm_compute. exact I.
  - reflexivity.
Defined.

Lemma placement_groups_conserve_resources_witness :
  (total "CPU" [[("CPU"%string, (0 + inject_Z 3 + inject_Z 2)%Q)]] + 0
   == sumQ (pg_total "CPU" <$>
        [{| pg_strategy := STRICT_PACK; pg_bundles := [Examples.cpu 3; Examples.cpu 2] |}]))%Q.
Proof.
  exact (placement_groups_conserve_resources
    [{| pg_strategy := STRICT_PACK; pg_bundles := [Examples.cpu 3; Examples.cpu 2] |}] "CPU"
    ltac:(solve_closed)).
Defined.
