(* ===== verification/DemandScheduler.v ===== *)
(** * The resource demand scheduler (autoscaler/_private/resource_demand_scheduler.py)

    [ResourceDemandScheduler]: its state, the operations that update the node
    types' resources, and [get_nodes_to_launch], which composes the bin packing
    functions of [BinPack].  The cloud's [NodeProvider] is an interface: the
    two queries the scheduler makes of it.  Logging is not modelled. *)
From S2P Require Import Prelude BinPack.
From stdpp Require Import base tactics list gmap strings.
From Stdlib Require Import QArith Qround.

#[local] Open Scope Z_scope.
Import BinPack.

Abbreviation NodeID := string.
Abbreviation NodeIP := string.

Module Tags.
Definition TAG_RAY_NODE_KIND : string := "ray-node-type".
Definition NODE_KIND_HEAD : string := "head".
Definition NODE_KIND_WORKER : string := "worker".
Definition NODE_KIND_UNMANAGED : string := "unmanaged".
Definition TAG_RAY_USER_NODE_TYPE : string := "ray-user-node-type".
Definition NODE_TYPE_LEGACY_HEAD : string := "ray-legacy-head-node-type".
Definition NODE_TYPE_LEGACY_WORKER : string := "ray-legacy-worker-node-type".
End Tags.
Import Tags.

(** What the scheduler asks of a node provider.  [internal_ip] is applied to
    [None] when the cluster has no head node. *)
Record NodeProvider := {
  node_tags : NodeID → result (dict string string);
  internal_ip : option NodeID → result NodeIP;
}.

Definition UPSCALING_INITIAL_NUM_NODES : Z := 5.

(** ** Memory units (_private/ray_constants.py) *)

Definition MEMORY_RESOURCE_UNIT_BYTES : Q := 1.

Definition to_memory_units (memory_bytes : Q) (round_up : bool) : result Z :=
  let value := (memory_bytes / MEMORY_RESOURCE_UNIT_BYTES)%Q in
  if Qltb value 1 then Err ValueError
  else
    let is_integer := Qeq_bool value (inject_Z (Qfloor value)) in
    let value :=
      if is_integer then value
      else inject_Z (if round_up then Qceiling value else Qfloor value) in
    Ok (py_int value).

Definition set_resources (r : ResourceDict) (c : NodeTypeConfig) : NodeTypeConfig :=
  {| nt_resources := Some r; nt_min_workers := nt_min_workers c;
     nt_max_workers := nt_max_workers c; nt_node_config := nt_node_config c;
     nt_other := nt_other c |}.

Definition convert_key (key : string) (res : ResourceDict) : result ResourceDict :=
  match dget key res with
  | Some size => u ← to_memory_units size false; Ok (dset key (inject_Z u) res)
  | None => Ok res
  end.

Definition _convert_memory_unit (node_types : NodeTypes) : result NodeTypes :=
  foldM (λ acc '(node_type, config),
    let res := default [] (nt_resources config) in
    res ← convert_key "memory" res;
    res ← convert_key "object_store_memory" res;
    Ok (acc ++ [(node_type, match res with [] => config | _ => set_resources res config end)]))
    [] node_types.

(** ** State *)

Record ResourceDemandScheduler := {
  provider : NodeProvider;
  node_types : NodeTypes;
  node_resource_updated : gset NodeType;
  max_workers : Z;
  head_node_type : NodeType;
  upscaling_speed : Q;
}.

Definition rds_init (provider : NodeProvider) (node_types : NodeTypes) (max_workers : Z)
    (head_node_type : NodeType) (upscaling_speed : Q) : result ResourceDemandScheduler :=
  nts ← _convert_memory_unit node_types;
  Ok {| provider := provider; node_types := nts; node_resource_updated := ∅;
        max_workers := max_workers; head_node_type := head_node_type;
        upscaling_speed := upscaling_speed |}.

Definition set_node_types (nts : NodeTypes) (self : ResourceDemandScheduler) :
    ResourceDemandScheduler :=
  {| provider := provider self; node_types := nts;
     node_resource_updated := node_resource_updated self; max_workers := max_workers self;
     head_node_type := head_node_type self; upscaling_speed := upscaling_speed self |}.

Definition set_updated (u : gset NodeType) (self : ResourceDemandScheduler) :
    ResourceDemandScheduler :=
  {| provider := provider self; node_types := node_types self;
     node_resource_updated := u; max_workers := max_workers self;
     head_node_type := head_node_type self; upscaling_speed := upscaling_speed self |}.

(** [tags[TAG_RAY_NODE_KIND]] is read twice, the second time only if the first
    comparison fails. *)
Definition _get_head_and_workers (self : ResourceDemandScheduler) (nodes : list NodeID) :
    result (option NodeID * list NodeID) :=
  foldM (λ '(head_id, worker_ids) node,
    tags ← node_tags (provider self) node;
    kind ← dget_exn TAG_RAY_NODE_KIND tags;
    if decide (kind = NODE_KIND_HEAD) then Ok (Some node, worker_ids)
    else if decide (kind = NODE_KIND_WORKER) then Ok (head_id, worker_ids ++ [node])
    else Ok (head_id, worker_ids)) (None, []) nodes.

(** [node_types or self.node_types]: an empty dict is falsy too. *)
Definition is_legacy_yaml (self : ResourceDemandScheduler) (nts : option NodeTypes) : bool :=
  let nts := match nts with Some (x :: l) => x :: l | _ => node_types self end in
  din NODE_TYPE_LEGACY_HEAD nts && din NODE_TYPE_LEGACY_WORKER nts.

(** [old.update(new)] on configurations: the keys present in [new] win. *)
Definition config_update (old new : NodeTypeConfig) : NodeTypeConfig :=
  let pick {A} (n o : option A) := match n with Some _ => n | None => o end in
  {| nt_resources := pick (nt_resources new) (nt_resources old);
     nt_min_workers := pick (nt_min_workers new) (nt_min_workers old);
     nt_max_workers := pick (nt_max_workers new) (nt_max_workers old);
     nt_node_config := pick (nt_node_config new) (nt_node_config old);
     nt_other := dupdate (nt_other old) (nt_other new) |}.

Definition del_resources (c : NodeTypeConfig) : NodeTypeConfig :=
  {| nt_resources := None; nt_min_workers := nt_min_workers c;
     nt_max_workers := nt_max_workers c; nt_node_config := nt_node_config c;
     nt_other := nt_other c |}.

Definition _update_based_on_node_config (new_node_types : NodeTypes) (cur : NodeTypes)
    (node_type : NodeType) : result NodeTypes :=
  old ← dget_exn node_type cur;
  old_cfg ← of_option KeyError (nt_node_config old);
  new ← dget_exn node_type new_node_types;
  new_cfg ← of_option KeyError (nt_node_config new);
  if decide (old_cfg = new_cfg) then
    old_res ← config_resources old;
    new ← (match old_res with
           | [] => Ok new
           | _ => _ ← config_resources new; Ok (del_resources new)
           end);
    Ok (dset node_type (config_update old new) cur)
  else Ok (dset node_type new cur).

Definition reset_config (self : ResourceDemandScheduler) (prov : NodeProvider)
    (nts : NodeTypes) (max_w : Z) (head : NodeType) (speed : Q) :
    result ResourceDemandScheduler :=
  final ← _convert_memory_unit nts;
  final ←
    (if is_legacy_yaml self (Some nts) && is_legacy_yaml self None then
       cur ← _update_based_on_node_config nts (node_types self) NODE_TYPE_LEGACY_HEAD;
       _update_based_on_node_config nts cur NODE_TYPE_LEGACY_WORKER
     else Ok final);
  Ok {| provider := prov; node_types := final; node_resource_updated := ∅;
        max_workers := max_w; head_node_type := head; upscaling_speed := speed |}.

Definition is_feasible (self : ResourceDemandScheduler) (bundle : ResourceDict) : result bool :=
  foldM (λ found '(node_type, config),
    if found : bool then Ok true
    else
      node_resources ← config_resources config;
      Ok ((bool_decide (node_type = head_node_type self) || (0 <? config_max_workers config))
          && _fits node_resources bundle)) false (node_types self).

(** ** Runtime resources *)

Definition runtime_keys : list string := ["CPU"; "GPU"; "memory"; "object_store_memory"]%string.

(** One node of the loop in [_update_node_resources_from_runtime]. *)
Definition update_from_runtime_step (max_resources_by_ip : dict NodeIP ResourceDict)
    (self : ResourceDemandScheduler) (node_id : NodeID) : result ResourceDemandScheduler :=
  tags ← node_tags (provider self) node_id;
  match dget TAG_RAY_USER_NODE_TYPE tags with
  | None => Ok self
  | Some node_type =>
      match dget node_type (node_types self) with
      | None => Ok self
      | Some config =>
          if decide (node_type ∈ node_resource_updated self) then Ok self
          else
            ip ← internal_ip (provider self) (Some node_id);
            match dget ip max_resources_by_ip with
            | None | Some [] => Ok self
            | Some runtime_resources =>
                let resources :=
                  fold_left (λ res key,
                    match dget key runtime_resources with
                    | Some v => dset key v res
                    | None => res
                    end) runtime_keys (default [] (nt_resources config)) in
                let self :=
                  set_node_types
                    (dset node_type (set_resources resources config) (node_types self)) self in
                kind ← dget_exn TAG_RAY_NODE_KIND tags;
                Ok (if decide (kind = NODE_KIND_WORKER)
                    then set_updated ({[node_type]} ∪ node_resource_updated self) self
                    else self)
            end
      end
  end.

Definition _update_node_resources_from_runtime (self : ResourceDemandScheduler)
    (nodes : list NodeID) (max_resources_by_ip : dict NodeIP ResourceDict) :
    result ResourceDemandScheduler :=
  if decide (length (node_types self) = size (node_resource_updated self)) then Ok self
  else foldM (update_from_runtime_step max_resources_by_ip) self nodes.

(** [IndexError] and [KeyError] are caught and logged when the head node's
    resources are read. *)
Definition infer_head_resources (self : ResourceDemandScheduler) (head_node : option NodeID)
    (max_resources_by_ip : dict NodeIP ResourceDict) : result ResourceDemandScheduler :=
  config ← dget_exn NODE_TYPE_LEGACY_HEAD (node_types self);
  res ← config_resources config;
  match res with
  | _ :: _ => Ok self
  | [] =>
      match (head_ip ← internal_ip (provider self) head_node;
             dget_exn head_ip max_resources_by_ip) with
      | Ok r => Ok (set_node_types
                      (dset NODE_TYPE_LEGACY_HEAD (set_resources r config) (node_types self)) self)
      | Err IndexError | Err KeyError => Ok self
      | Err e => Err e
      end
  end.

Fixpoint first_known (ips : list NodeIP) (max_resources_by_ip : dict NodeIP ResourceDict) :
    option ResourceDict :=
  match ips with
  | [] => None
  | ip :: ips =>
      match dget ip max_resources_by_ip with
      | Some r => Some r
      | None => first_known ips max_resources_by_ip
      end
  end.

Definition infer_worker_resources (self : ResourceDemandScheduler) (worker_nodes : list NodeID)
    (max_resources_by_ip : dict NodeIP ResourceDict) : result ResourceDemandScheduler :=
  config ← dget_exn NODE_TYPE_LEGACY_WORKER (node_types self);
  res ← config_resources config;
  match res with
  | _ :: _ => Ok self
  | [] =>
      worker_node_ips ← foldM (λ acc n, ip ← internal_ip (provider self) (Some n);
                                        Ok (acc ++ [ip])) [] worker_nodes;
      Ok (match first_known worker_node_ips max_resources_by_ip with
          | Some r => set_node_types
                        (dset NODE_TYPE_LEGACY_WORKER (set_resources r config)
                           (node_types self)) self
          | None => self
          end)
  end.

Definition _infer_legacy_node_resources_if_needed (self : ResourceDemandScheduler)
    (nodes : list NodeID) (max_resources_by_ip : dict NodeIP ResourceDict) :
    result ResourceDemandScheduler :=
  '(head_node, worker_nodes) ← _get_head_and_workers self nodes;
  self ← infer_head_resources self head_node max_resources_by_ip;
  infer_worker_resources self worker_nodes max_resources_by_ip.

(** ** Counting the cluster *)

(** [add_node], the closure of [calculate_node_resources]. *)
Definition add_node (self : ResourceDemandScheduler)
    (s : list ResourceDict * dict NodeType Z) (node_type : NodeType)
    (available_resources : option ResourceDict) :
    result (list ResourceDict * dict NodeType Z) :=
  let '(node_resources, node_type_counts) := s in
  match dget node_type (node_types self) with
  | None => Ok s
  | Some config =>
      res ← config_resources config;
      let available := default res available_resources in
      Ok (node_resources ++ [available],
          dset node_type (dget_def node_type 0 node_type_counts + 1) node_type_counts)
  end.

Definition calculate_node_resources (self : ResourceDemandScheduler) (nodes : list NodeID)
    (pending_nodes : dict NodeType Z) (unused_resources_by_ip : dict NodeIP ResourceDict) :
    result (list ResourceDict * dict NodeType Z) :=
  s ← foldM (λ s node_id,
        tags ← node_tags (provider self) node_id;
        match dget TAG_RAY_USER_NODE_TYPE tags with
        | None => Ok s
        | Some node_type =>
            ip ← internal_ip (provider self) (Some node_id);
            add_node self s node_type (dget ip unused_resources_by_ip)
        end) ([], []) nodes;
  foldM (λ s '(node_type, count),
    foldM (λ s _, add_node self s node_type None) s (seq 0 (Z.to_nat count))) s pending_nodes.

Definition _separate_running_and_pending_nodes (self : ResourceDemandScheduler)
    (non_terminated_nodes : list NodeID) (connected_nodes : list NodeIP) :
    result (dict NodeType Z * dict NodeType Z) :=
  foldM (λ '(running_nodes, pending_nodes) node_id,
    tags ← node_tags (provider self) node_id;
    match dget TAG_RAY_USER_NODE_TYPE tags with
    | None => Ok (running_nodes, pending_nodes)
    | Some node_type =>
        node_ip ← internal_ip (provider self) (Some node_id);
        Ok (if decide (node_ip ∈ connected_nodes)
            then (dset node_type (dget_def node_type 0 running_nodes + 1) running_nodes,
                  pending_nodes)
            else (running_nodes,
                  dset node_type (dget_def node_type 0 pending_nodes + 1) pending_nodes))
    end) ([], []) non_terminated_nodes.

(** The limit computed for one type, and the number of nodes launched of it
    ([None]: the type is left out of the result). *)
Definition launch_upper_bound (self : ResourceDemandScheduler)
    (running_nodes pending_nodes pending_launches_nodes adjusted_min_workers
     placement_group_nodes : dict NodeType Z) (node_type : NodeType) : Z :=
  let max_allowed_pending_nodes :=
    Z.max UPSCALING_INITIAL_NUM_NODES
      (py_int (upscaling_speed self *
               inject_Z (Z.max (dget_def node_type 0 running_nodes) 1)%Z)%Q) in
  let total_pending_nodes :=
    dget_def node_type 0 pending_launches_nodes + dget_def node_type 0 pending_nodes in
  Z.max (max_allowed_pending_nodes - total_pending_nodes)
    (dget_def node_type 0 adjusted_min_workers + dget_def node_type 0 placement_group_nodes).

Definition _get_concurrent_resource_demand_to_launch (self : ResourceDemandScheduler)
    (to_launch : dict NodeType Z) (connected_nodes : list NodeIP)
    (non_terminated_nodes : list NodeID) (pending_launches_nodes : dict NodeType Z)
    (adjusted_min_workers placement_group_nodes : dict NodeType Z) :
    result (dict NodeType Z) :=
  '(running_nodes, pending_nodes) ←
    _separate_running_and_pending_nodes self non_terminated_nodes connected_nodes;
  Ok (fold_left (λ updated_nodes_to_launch '(node_type, n),
    let upper_bound :=
      launch_upper_bound self running_nodes pending_nodes pending_launches_nodes
        adjusted_min_workers placement_group_nodes node_type in
    if 0 <? upper_bound
    then dset node_type (Z.min upper_bound n) updated_nodes_to_launch
    else updated_nodes_to_launch) to_launch []).

Definition _node_type_counts_to_node_resources (node_types : NodeTypes)
    (node_type_counts : dict NodeType Z) : result (list ResourceDict) :=
  foldM (λ resources '(node_type, count),
    match Z.to_nat count with
    | O => Ok resources
    | n => config ← dget_exn node_type node_types;
           res ← config_resources config;
           Ok (resources ++ replicate n res)
    end) [] node_type_counts.

Section with_env.
  Context (AUTOSCALER_CONSERVE_GPU_NODES : bool).
  Abbreviation get_nodes_for := (get_nodes_for AUTOSCALER_CONSERVE_GPU_NODES).

(** ** Minimum sizes *)

Abbreviation cluster := (list ResourceDict * dict NodeType Z * dict NodeType Z)%type.

(** The first loop of [_add_min_workers_nodes]: raise a type to its target. *)
Definition min_workers_step (head_node_type : NodeType) (s : cluster)
    (ntc : NodeType * NodeTypeConfig) : result cluster :=
  let '(node_resources, node_type_counts, total_nodes_to_add_dict) := s in
  let '(node_type, config) := ntc in
  let existing := dget_def node_type 0 node_type_counts in
  let target := Z.min (config_min_workers config) (config_max_workers config) in
  let target := if decide (node_type = head_node_type) then target + 1 else target in
  if existing <? target then
    res ← config_resources config;
    Ok (node_resources ++ replicate (Z.to_nat (target - existing)) res,
        dset node_type target node_type_counts,
        dset node_type (target - existing) total_nodes_to_add_dict)
  else Ok s.

(** The last loop: the nodes bought for [request_resources()]. *)
Definition request_step (node_types : NodeTypes) (s : cluster) (ntn : NodeType * Z) :
    result cluster :=
  let '(node_resources, node_type_counts, total_nodes_to_add_dict) := s in
  let '(node_type, nodes_to_add) := ntn in
  if 0 <? nodes_to_add then
    config ← dget_exn node_type node_types;
    res ← config_resources config;
    Ok (node_resources ++ replicate (Z.to_nat nodes_to_add) res,
        dset node_type (nodes_to_add + dget_def node_type 0 node_type_counts) node_type_counts,
        dset node_type (nodes_to_add + dget_def node_type 0 total_nodes_to_add_dict)
          total_nodes_to_add_dict)
  else Ok s.

Definition _add_min_workers_nodes (node_resources : list ResourceDict)
    (node_type_counts : dict NodeType Z) (node_types : NodeTypes) (max_workers : Z)
    (head_node_type : NodeType) (ensure_min_cluster_size : option (list ResourceDict)) :
    result cluster :=
  s ← foldM (min_workers_step head_node_type) (node_resources, node_type_counts, []) node_types;
  match ensure_min_cluster_size with
  | None | Some [] => Ok s
  | Some requests =>
      let node_type_counts := s.1.2 in
      let max_to_add := max_workers + 1 - sumZ (dvalues node_type_counts) in
      (* the same comprehension as in [_node_type_counts_to_node_resources] *)
      max_node_resources ← _node_type_counts_to_node_resources node_types node_type_counts;
      '(resource_requests_unfulfilled, _) ←
        get_bin_pack_residual max_node_resources requests false;
      '(nodes_to_add_request_resources, _) ←
        get_nodes_for node_types node_type_counts head_node_type max_to_add
          resource_requests_unfulfilled false;
      foldM (request_step node_types) s nodes_to_add_request_resources
  end.

(** ** Strict spreads *)

Definition spread_step (self : ResourceDemandScheduler)
    (s : dict NodeType Z * list ResourceDict * dict NodeType Z) (bundles : list ResourceDict) :
    result (dict NodeType Z * list ResourceDict * dict NodeType Z) :=
  let '(to_add, node_resources, node_type_counts) := s in
  '(unfulfilled, node_resources) ← get_bin_pack_residual node_resources bundles true;
  let max_to_add := max_workers self + 1 - sumZ (dvalues node_type_counts) in
  '(to_launch, _) ←
    get_nodes_for (node_types self) node_type_counts (head_node_type self) max_to_add
      unfulfilled true;
  let node_type_counts := _inplace_add node_type_counts to_launch in
  let to_add := _inplace_add to_add to_launch in
  new_node_resources ← _node_type_counts_to_node_resources (node_types self) to_launch;
  '(unfulfilled, including_reserved) ←
    get_bin_pack_residual new_node_resources unfulfilled true;
  _ ← py_assert (bool_decide (unfulfilled = []));
  Ok (to_add, node_resources ++ including_reserved, node_type_counts).

Definition reserve_and_allocate_spread (self : ResourceDemandScheduler)
    (strict_spreads : list (list ResourceDict)) (node_resources : list ResourceDict)
    (node_type_counts : dict NodeType Z) :
    result (dict NodeType Z * list ResourceDict * dict NodeType Z) :=
  foldM (spread_step self) ([], node_resources, node_type_counts) strict_spreads.

(** ** Legacy clusters *)

Definition _legacy_worker_node_to_launch (self : ResourceDemandScheduler) (nodes : list NodeID)
    (launching_nodes : dict NodeType Z) (node_resources resource_demands : list ResourceDict) :
    result (dict NodeType Z) :=
  '(_, worker_nodes) ← _get_head_and_workers self nodes;
  if max_workers self =? 0 then Ok []
  else if 0 <? sumZ (dvalues launching_nodes) + Z.of_nat (length worker_nodes) then Ok []
  else
    '(unfulfilled, _) ← get_bin_pack_residual node_resources resource_demands false;
    config ← dget_exn NODE_TYPE_LEGACY_WORKER (node_types self);
    let workers_to_add := Z.min (config_min_workers config) (config_max_workers config) in
    if (0 <? workers_to_add) || negb (bool_decide (unfulfilled = []))
    then Ok [(NODE_TYPE_LEGACY_WORKER, Z.max 1 workers_to_add)]
    else Ok [].

(** ** The scheduling decision *)

(** [{node_type: a.get(node_type, 0) + b.get(node_type, 0) for ...}] *)
Definition pg_nodes_limit (node_types : NodeTypes) (a b : dict NodeType Z) : dict NodeType Z :=
  (λ nt, (nt, dget_def nt 0 a + dget_def nt 0 b)) <$> dkeys node_types.

(** The merge of the three sources of nodes to add. *)
Definition merge_nodes_to_add (node_types : NodeTypes) (a b c : dict NodeType Z) :
    dict NodeType Z :=
  fold_left (λ total_nodes_to_add node_type,
    let nodes_to_add :=
      dget_def node_type 0 a + dget_def node_type 0 b + dget_def node_type 0 c in
    if 0 <? nodes_to_add then dset node_type nodes_to_add total_nodes_to_add
    else total_nodes_to_add) (dkeys node_types) [].

(** The part of [get_nodes_to_launch] that computes the nodes of each source:
    step 3 (spreads), the placement groups' limit, steps 4 and 5. *)
Definition plan_launches (self : ResourceDemandScheduler) (node_resources : list ResourceDict)
    (node_type_counts : dict NodeType Z) (placement_group_demand_vector : list ResourceDict)
    (strict_spreads : list (list ResourceDict)) (resource_demands : list ResourceDict) :
    result (dict NodeType Z * dict NodeType Z * dict NodeType Z * list ResourceDict) :=
  '(spread_pg_nodes_to_add, node_resources, node_type_counts) ←
    reserve_and_allocate_spread self strict_spreads node_resources node_type_counts;
  '(unfulfilled_placement_groups_demands, _) ←
    get_bin_pack_residual node_resources placement_group_demand_vector false;
  let max_to_add := max_workers self + 1 - sumZ (dvalues node_type_counts) in
  '(pg_demands_nodes_max_launch_limit, _) ←
    get_nodes_for (node_types self) node_type_counts (head_node_type self) max_to_add
      unfulfilled_placement_groups_demands false;
  let placement_groups_nodes_max_limit :=
    pg_nodes_limit (node_types self) spread_pg_nodes_to_add pg_demands_nodes_max_launch_limit in
  '(unfulfilled, _) ← get_bin_pack_residual node_resources resource_demands false;
  '(nodes_to_add_based_on_demand, final_unfulfilled) ←
    get_nodes_for (node_types self) node_type_counts (head_node_type self) max_to_add
      unfulfilled false;
  Ok (spread_pg_nodes_to_add, placement_groups_nodes_max_limit,
      nodes_to_add_based_on_demand, final_unfulfilled).

Definition get_nodes_to_launch (self : ResourceDemandScheduler) (nodes : list NodeID)
    (launching_nodes : dict NodeType Z) (resource_demands : list ResourceDict)
    (unused_resources_by_ip : dict NodeIP ResourceDict)
    (pending_placement_groups : list PlacementGroupTableData)
    (max_resources_by_ip : dict NodeIP ResourceDict)
    (ensure_min_cluster_size : option (list ResourceDict)) :
    result (ResourceDemandScheduler * (dict NodeType Z * list ResourceDict)) :=
  self ← (if is_legacy_yaml self None
          then _infer_legacy_node_resources_if_needed self nodes max_resources_by_ip
          else Ok self);
  self ← _update_node_resources_from_runtime self nodes max_resources_by_ip;
  '(node_resources, node_type_counts) ←
    calculate_node_resources self nodes launching_nodes unused_resources_by_ip;
  '(node_resources, node_type_counts, adjusted_min_workers) ←
    _add_min_workers_nodes node_resources node_type_counts (node_types self)
      (max_workers self) (head_node_type self) ensure_min_cluster_size;
  let '(placement_group_demand_vector, strict_spreads) :=
    placement_groups_to_resource_demands pending_placement_groups in
  let resource_demands := placement_group_demand_vector ++ resource_demands in
  legacy_unknown ←
    (if is_legacy_yaml self None then
       config ← dget_exn NODE_TYPE_LEGACY_WORKER (node_types self);
       res ← config_resources config;
       Ok (bool_decide (res = []))
     else Ok false);
  if legacy_unknown : bool then
    to_launch ← _legacy_worker_node_to_launch self nodes launching_nodes node_resources
                  (resource_demands ++ default [] ensure_min_cluster_size);
    Ok (self, (to_launch, []))
  else
    '(spread_pg_nodes_to_add, placement_groups_nodes_max_limit,
      nodes_to_add_based_on_demand, final_unfulfilled) ←
      plan_launches self node_resources node_type_counts placement_group_demand_vector
        strict_spreads resource_demands;
    let total_nodes_to_add :=
      merge_nodes_to_add (node_types self) adjusted_min_workers spread_pg_nodes_to_add
        nodes_to_add_based_on_demand in
    total_nodes_to_add ←
      _get_concurrent_resource_demand_to_launch self total_nodes_to_add
        (dkeys unused_resources_by_ip) nodes launching_nodes adjusted_min_workers
        placement_groups_nodes_max_limit;
    Ok (self, (total_nodes_to_add, final_unfulfilled)).

End with_env.
