(* ===== verification/DemandSchedulerProofs.v ===== *)
(** * Correctness of the resource demand scheduler

    The nodes a scheduling decision launches, together with the nodes that
    exist or are being launched, respect each type's [max_workers]; beyond what
    [min_workers] forces they respect the cluster's [max_workers]. *)
From S2P Require Import Prelude BinPack BinPackProofs DemandScheduler.
From stdpp Require Import base tactics list gmap strings.
From Stdlib Require Import QArith Lqa.

#[local] Open Scope Z_scope.
Import BinPack Tags.

(** ** Dicts of counts *)

Lemma inplace_add_get a b nt :
  dict_wf b → dget_def nt 0 (_inplace_add a b) = dget_def nt 0 a + dget_def nt 0 b.
Proof.
  unfold _inplace_add, dict_wf, dkeys. revert a.
  induction b as [|[k v] b IH]; cbn; intros a Hwf; [unfold dget_def; cbn; lia|].
  apply NoDup_cons in Hwf as [Hk Hwf]. rewrite IH, dget_def_dset, dget_def_cons by done.
  case_decide; subst; [|done]. rewrite (dget_def_not_in k 0 b) by done. lia.
Qed.

Lemma inplace_add_sum a b :
  sumZ (dvalues (_inplace_add a b)) = sumZ (dvalues a) + sumZ (dvalues b).
Proof.
  unfold _inplace_add. revert a. induction b as [|[k v] b IH]; cbn; intros a.
  - unfold sumZ, dvalues. cbn. lia.
  - rewrite IH, sumZ_dset. unfold dvalues. cbn. rewrite sumZ_cons. lia.
Qed.

Lemma inplace_add_wf a b : dict_wf a → dict_wf (_inplace_add a b).
Proof.
  unfold _inplace_add. revert a. induction b as [|[k v] b IH]; cbn; intros a Ha; [done|].
  by apply IH, dset_wf.
Qed.

Lemma inplace_add_keys a b k :
  k ∈ dkeys (_inplace_add a b) → k ∈ dkeys a ∨ k ∈ dkeys b.
Proof.
  unfold _inplace_add. revert a. induction b as [|[k' v] b IH]; cbn; intros a Ha; [by left|].
  apply IH in Ha as [Ha|Ha].
  - apply elem_of_dkeys_dset in Ha as [->|]; [right; left|by left].
  - right. by right.
Qed.

(** ** Limits *)

Section limits.
Context (nts : NodeTypes) (head : NodeType).

(** The additions are not negative, and keep the types they touch within
    their limit. *)
Definition limited (counts add : NodeType → Z) : Prop :=
  ∀ nt, 0 <= add nt ∧
    (0 < add nt → ∃ c, (nt, c) ∈ nts ∧ counts nt + add nt <= max_of_type head nt c).

Lemma limited_trans counts counts' a b :
  limited counts a → limited counts' b → (∀ nt, counts' nt = counts nt + a nt) →
  limited counts (λ nt, a nt + b nt).
Proof.
  intros Ha Hb Hc nt. destruct (Ha nt) as [Ha0 Ha1], (Hb nt) as [Hb0 Hb1]. split; [lia|].
  intros Hab. destruct (decide (0 < b nt)) as [Hp|Hz].
  - destruct (Hb1 Hp) as (c & Hin & Hle). exists c. split; [done|]. rewrite Hc in Hle. lia.
  - destruct Ha1 as (c & Hin & Hle); [lia|]. exists c. split; [done|]. lia.
Qed.
End limits.

(** What the callers of [get_nodes_for] rely on. *)
Record additions_ok (nts : NodeTypes) (head : NodeType) (counts add : dict NodeType Z)
    (max_to_add : Z) : Prop := {
  ao_limited : limited nts head (λ nt, dget_def nt 0 counts) (λ nt, dget_def nt 0 add);
  ao_wf : dict_wf add;
  ao_keys : ∀ nt, nt ∈ dkeys add → nt ∈ dkeys nts;
  ao_sum : 0 <= sumZ (dvalues add) <= Z.max 0 max_to_add;
}.

Section scheduler.
Context (conserve : bool).

Lemma loop_keys fuel nts existing head mx strict added rs added' rs' :
  Forall demand_ok rs → dict_wf nts →
  get_nodes_for_loop conserve fuel nts existing head mx strict added rs = Ok (added', rs') →
  dict_wf added → (∀ k, k ∈ dkeys added → k ∈ dkeys nts) →
  dict_wf added' ∧ (∀ k, k ∈ dkeys added' → k ∈ dkeys nts).
Proof.
  intros Hd Hnt. revert added rs Hd.
  induction fuel as [|fuel IH]; intros added rs Hd; cbn;
    intros Hl Hwf Hk; inv_ok; destruct x as [[added1 rs1]|]; inv_ok; try done.
  rename select (get_nodes_for_body _ _ _ _ _ _ _ _ = _) into Hb.
  apply body_Some in Hb as (nt & c & ds & Hp & Hc & Hroom & Hsum & Hperm & ->); [|done..].
  eapply IH; [by eapply demand_ok_perm_app|exact Hl|by apply dset_wf|].
  intros k [->|]%elem_of_dkeys_dset; [|by apply Hk].
  apply list_elem_of_fmap. by exists (nt, c).
Qed.

Lemma get_nodes_for_additions nts existing head mx strict rs add rs' :
  Forall demand_ok rs → dict_wf nts →
  get_nodes_for conserve nts existing head mx rs strict = Ok (add, rs') →
  additions_ok nts head existing add mx.
Proof.
  intros Hd Hnt Hg. unfold get_nodes_for in Hg.
  destruct (loop_spec _ _ _ _ _ _ _ _ _ _ _ Hd Hnt Hg)
    as (bought & _ & _ & Hcnt & Hsum & Hmax & Hlim & _).
  destruct (loop_keys _ _ _ _ _ _ _ _ _ _ Hd Hnt Hg) as [Hwf Hkeys];
    [by apply NoDup_nil|by intros ? ?%not_elem_of_nil|].
  assert (∀ nt, dget_def nt 0 add = bought_of bought nt) as Hb.
  { intros nt. rewrite Hcnt. unfold dget_def. cbn. lia. }
  split; [|done|done|].
  - intros nt. rewrite Hb. split; [unfold bought_of; lia|].
    intros Hpos. destruct (Hlim nt Hpos) as (c & Hc & Hle). exists c. rewrite <- Hb. done.
  - rewrite Hsum in *. unfold sumZ, dvalues in *. cbn in *.
    destruct bought; [cbn; lia|]. specialize (Hmax ltac:(done)). lia.
Qed.

Lemma bin_pack_unfulfilled_ok nodes demands strict unf out :
  Forall demand_ok demands →
  get_bin_pack_residual nodes demands strict = Ok (unf, out) → Forall demand_ok unf.
Proof.
  intros Hd Hb. destruct (bin_pack_plan _ _ _ _ _ (demand_ok_wf _ Hd) Hb)
    as (plan & _ & _ & Hp & _). by eapply demand_ok_perm_app.
Qed.

(** ** The stages of a scheduling decision *)

(** [counts] is [counts0] grown by [add], within the limits. *)
Record grown (nts : NodeTypes) (head : NodeType) (counts0 counts : dict NodeType Z)
    (add : NodeType → Z) : Prop := {
  gr_wf : dict_wf counts;
  gr_keys : ∀ nt, nt ∈ dkeys counts → nt ∈ dkeys nts;
  gr_get : ∀ nt, dget_def nt 0 counts = dget_def nt 0 counts0 + add nt;
  gr_limited : limited nts head (λ nt, dget_def nt 0 counts0) add;
}.

Lemma grown_add nts head counts0 counts a add mx :
  grown nts head counts0 counts a → additions_ok nts head counts add mx →
  grown nts head counts0 (_inplace_add counts add) (λ nt, a nt + dget_def nt 0 add).
Proof.
  intros [Hwf Hk Hg Hl] [Al Aw Ak As]. split.
  - by apply inplace_add_wf.
  - intros nt [|]%inplace_add_keys; auto.
  - intros nt. rewrite inplace_add_get, Hg by done. lia.
  - by eapply limited_trans.
Qed.

(** The growth summed over the types is the growth of the sum. *)
Lemma grown_sum nts head counts0 counts a :
  dict_wf nts → dict_wf counts0 → (∀ nt, nt ∈ dkeys counts0 → nt ∈ dkeys nts) →
  grown nts head counts0 counts a →
  sumZ (a <$> dkeys nts) = sumZ (dvalues counts) - sumZ (dvalues counts0).
Proof.
  intros Hnt Hwf0 Hk0 [Hwf Hk Hg _].
  rewrite (sumZ_over_keys counts (dkeys nts)), (sumZ_over_keys counts0 (dkeys nts)) by done.
  rewrite (sumZ_fmap_ext (λ nt, dget_def nt 0 counts) (λ nt, dget_def nt 0 counts0 + a nt))
    by (intros; apply Hg).
  rewrite sumZ_fmap_add. lia.
Qed.

Lemma min_workers_loop nts head counts0 l nr counts adj s' :
  dict_wf l → (∀ x, x ∈ l → x ∈ nts) → (∀ nt, nt ∈ dkeys l → dget_def nt 0 adj = 0) →
  grown nts head counts0 counts (λ nt, dget_def nt 0 adj) →
  foldM (min_workers_step head) (nr, counts, adj) l = Ok s' →
  grown nts head counts0 s'.1.2 (λ nt, dget_def nt 0 s'.2).
Proof.
  revert nr counts adj. induction l as [|[nt c] l IH]; cbn [foldM];
    intros nr counts adj Hwf Hin Hz Hg Hl; inv_ok; [done|].
  unfold dict_wf, dkeys in Hwf. cbn in Hwf. apply NoDup_cons in Hwf as [Hnt Hwf].
  assert (dget_def nt 0 adj = 0) as Hadj by (apply Hz; left).
  unfold min_workers_step in *.
  set (target := if decide (nt = head) then _ else _) in *.
  assert (target <= max_of_type head nt c) as Htgt.
  { unfold target, max_of_type. repeat case_decide; subst; try done; lia. }
  destruct (Z.ltb_spec (dget_def nt 0 counts) target) as [Hlt|Hge]; inv_ok; cycle 1.
  { eapply (IH nr counts adj); [done|set_solver| |done|done].
    intros nt' Hnt'. apply Hz. by right. }
  destruct Hg as [Gw Gk Gg Gl].
  eapply IH; [done|set_solver| | |exact Hl].
  { intros nt' Hnt'. rewrite dget_def_dset. case_decide; [by subst|]. apply Hz. by right. }
  split; [by apply dset_wf| | |].
  - intros nt' [->|]%elem_of_dkeys_dset; [|by apply Gk].
    apply list_elem_of_fmap. exists (nt, c). split; [done|]. apply Hin. left.
  - intros nt'. rewrite !dget_def_dset. case_decide; [|by apply Gg].
    subst. specialize (Gg nt). lia.
  - intros nt'. rewrite dget_def_dset. case_decide; [|by apply Gl]. subst nt'.
    specialize (Gg nt). split; [lia|]. intros _. exists c. split; [apply Hin; left|]. lia.
Qed.

Lemma request_loop nts l nr counts adj s' :
  dict_wf l → (∀ nt n, (nt, n) ∈ l → 0 <= n) →
  foldM (request_step nts) (nr, counts, adj) l = Ok s' →
  (∀ nt, dget_def nt 0 s'.1.2 = dget_def nt 0 counts + dget_def nt 0 l) ∧
  (∀ nt, dget_def nt 0 s'.2 = dget_def nt 0 adj + dget_def nt 0 l) ∧
  (dict_wf counts → dict_wf s'.1.2) ∧
  (∀ nt, nt ∈ dkeys s'.1.2 → nt ∈ dkeys counts ∨ nt ∈ dkeys l) ∧
  sumZ (dvalues s'.1.2) = sumZ (dvalues counts) + sumZ (dvalues l).
Proof.
  revert nr counts adj. induction l as [|[nt n] l IH]; cbn [foldM];
    intros nr counts adj Hwf Hn Hl; inv_ok.
  { unfold dget_def, dvalues, sumZ. cbn. split_and!; intros; try done; try lia. by left. }
  unfold dict_wf, dkeys in Hwf. cbn in Hwf. apply NoDup_cons in Hwf as [Hnt Hwf].
  assert (dget_def nt 0 l = 0) as Hl0 by by apply dget_def_not_in.
  assert (0 <= n) as Hn0 by (eapply Hn; left).
  unfold request_step in *. destruct (Z.ltb_spec 0 n) as [Hlt|Hge]; inv_ok.
  - destruct (IH _ _ _ Hwf ltac:(intros; eapply Hn; by right) Hl) as (R1 & R2 & R3 & R4 & R5).
    split_and!.
    + intros nt'. rewrite R1, dget_def_dset, dget_def_cons. case_decide; subst; lia.
    + intros nt'. rewrite R2, dget_def_dset, dget_def_cons. case_decide; subst; lia.
    + intros. by apply R3, dset_wf.
    + intros nt' [[->|]%elem_of_dkeys_dset|]%R4; [right; left|by left|right; by right].
    + rewrite R5, sumZ_dset. unfold dvalues. cbn. rewrite sumZ_cons. lia.
  - assert (n = 0) as -> by lia.
    destruct (IH _ _ _ Hwf ltac:(intros; eapply Hn; by right) Hl) as (R1 & R2 & R3 & R4 & R5).
    split_and!; [..|done| |].
    + intros nt'. rewrite R1, dget_def_cons. case_decide; subst; lia.
    + intros nt'. rewrite R2, dget_def_cons. case_decide; subst; lia.
    + intros nt' [|]%R4; [by left|right; by right].
    + rewrite R5. unfold dvalues. cbn. rewrite sumZ_cons. lia.
Qed.

Lemma additions_nonneg nts head counts add mx nt n :
  additions_ok nts head counts add mx → (nt, n) ∈ add → 0 <= n.
Proof.
  intros [Al Aw _ _] Hin. destruct (Al nt) as [Hnn _].
  unfold dget_def in Hnn. by rewrite (dget_elem nt n add Aw Hin) in Hnn.
Qed.

Lemma add_min_workers_spec nr0 counts0 nts mw head ensure s' :
  dict_wf nts → dict_wf counts0 → (∀ nt, nt ∈ dkeys counts0 → nt ∈ dkeys nts) →
  Forall demand_ok (default [] ensure) →
  _add_min_workers_nodes conserve nr0 counts0 nts mw head ensure = Ok s' →
  grown nts head counts0 s'.1.2 (λ nt, dget_def nt 0 s'.2) ∧
  ∃ s1, foldM (min_workers_step head) (nr0, counts0, []) nts = Ok s1 ∧
        sumZ (dvalues s'.1.2) <= Z.max (sumZ (dvalues s1.1.2)) (mw + 1).
Proof.
  intros Hnt Hwf0 Hk0 Hd. unfold _add_min_workers_nodes. intros Hr; inv_ok.
  rename select (foldM _ _ _ = Ok x) into Hm.
  assert (grown nts head counts0 x.1.2 (λ nt, dget_def nt 0 x.2)) as Hg.
  { eapply min_workers_loop; [..|exact Hm]; try done.
    split; [done|done|intros; unfold dget_def; cbn; lia|]. intros nt. unfold dget_def. cbn.
    split; [done|]. lia. }
  destruct ensure as [[|r rs]|]; inv_ok; [split; [done|]; eexists; split; [done|lia]| |
    split; [done|]; eexists; split; [done|lia]].
  rename select (get_bin_pack_residual _ _ _ = _) into Hb.
  match goal with H : get_nodes_for _ _ _ _ _ _ _ = _ |- _ => rename H into Hgn end.
  apply get_nodes_for_additions in Hgn; [|by eapply bin_pack_unfulfilled_ok|done].
  destruct x as [[nr1 counts1] adj1].
  apply request_loop in Hr as (R1 & R2 & R3 & R4 & R5);
    [|apply Hgn|by intros; eapply additions_nonneg].
  destruct Hg as [Gw Gk Gg Gl], Hgn as [Al Aw Ak As]. cbn in *. split.
  - split; [by apply R3| | |].
    + intros nt [|]%R4; auto.
    + intros nt. rewrite R1, R2, Gg. lia.
    + intros nt. rewrite R2. revert nt. eapply limited_trans; [exact Gl|exact Al|].
      intros nt. apply Gg.
  - eexists; split; [done|]. cbn. rewrite R5. lia.
Qed.

Lemma spread_step_spec self base s bundles s' :
  dict_wf (node_types self) → Forall demand_ok bundles →
  grown (node_types self) (head_node_type self) base s.2 (λ nt, dget_def nt 0 s.1.1) →
  spread_step conserve self s bundles = Ok s' →
  grown (node_types self) (head_node_type self) base s'.2 (λ nt, dget_def nt 0 s'.1.1) ∧
  sumZ (dvalues s'.2) <= Z.max (sumZ (dvalues s.2)) (max_workers self + 1).
Proof.
  intros Hnt Hd Hg Hs. unfold spread_step in Hs. destruct s as [[to_add nr] counts]. inv_ok.
  match goal with H : get_nodes_for _ _ _ _ _ _ _ = _ |- _ => rename H into Hgn end.
  apply get_nodes_for_additions in Hgn; [|by eapply bin_pack_unfulfilled_ok|done].
  split; [|rewrite inplace_add_sum; destruct Hgn as [_ _ _ ?]; lia].
  pose proof (grown_add _ _ _ _ _ _ _ Hg Hgn) as [Gw Gk Gg Gl].
  destruct Hgn as [_ Aw _ _]. split; [done|done| |].
  - intros nt. rewrite Gg. rewrite inplace_add_get by done. done.
  - intros nt. rewrite inplace_add_get by done. apply Gl.
Qed.

Lemma spread_loop_spec self base l s s' :
  dict_wf (node_types self) → Forall (Forall demand_ok) l →
  grown (node_types self) (head_node_type self) base s.2 (λ nt, dget_def nt 0 s.1.1) →
  foldM (spread_step conserve self) s l = Ok s' →
  grown (node_types self) (head_node_type self) base s'.2 (λ nt, dget_def nt 0 s'.1.1) ∧
  sumZ (dvalues s'.2) <= Z.max (sumZ (dvalues s.2)) (max_workers self + 1).
Proof.
  intros Hnt Hd Hg Hl.
  eapply (foldM_inv _ (λ s', grown (node_types self) (head_node_type self) base s'.2
            (λ nt, dget_def nt 0 s'.1.1) ∧
            sumZ (dvalues s'.2) <= Z.max (sumZ (dvalues s.2)) (max_workers self + 1)));
    [exact Hl|split; [done|lia]|].
  intros s1 b s2 Hb [Hg1 Hs1] Hstep. rewrite Forall_forall in Hd.
  destruct (spread_step_spec _ _ _ _ _ Hnt (Hd b Hb) Hg1 Hstep) as [? ?]. split; [done|lia].
Qed.

(** What [plan_launches] adds to [counts], spreads and demands together. *)
Lemma plan_launches_spec self nr counts pgs spreads demands spread limit dem unf :
  dict_wf (node_types self) → dict_wf counts →
  (∀ nt, nt ∈ dkeys counts → nt ∈ dkeys (node_types self)) →
  Forall demand_ok pgs → Forall (Forall demand_ok) spreads → Forall demand_ok demands →
  plan_launches conserve self nr counts pgs spreads demands = Ok (spread, limit, dem, unf) →
  limited (node_types self) (head_node_type self) (λ nt, dget_def nt 0 counts)
    (λ nt, dget_def nt 0 spread + dget_def nt 0 dem) ∧
  sumZ (dvalues counts) +
    sumZ ((λ nt, dget_def nt 0 spread + dget_def nt 0 dem) <$> dkeys (node_types self))
    <= Z.max (sumZ (dvalues counts)) (max_workers self + 1).
Proof.
  intros Hnt Hwf Hk Hpg Hsp Hd Hp. unfold plan_launches, reserve_and_allocate_spread in Hp.
  inv_ok.
  rename select (foldM (spread_step _ _) _ _ = _) into Hs.
  match goal with
  | H : get_nodes_for _ _ _ _ _ _ _ = Ok (dem, _) |- _ => rename H into Hgn
  end.
  assert (grown (node_types self) (head_node_type self) counts counts (λ _, 0)) as G0.
  { split; [done|done|intros; lia|]. intros nt. split; [done|]. lia. }
  apply (spread_loop_spec _ counts) in Hs as [Gs Ss]; [|done|done|]; cycle 1.
  { cbn. destruct G0 as [G1 G2 G3 G4]. split; [done|done| |].
    - intros nt. unfold dget_def at 3. cbn. lia.
    - intros nt. unfold dget_def at 1 2. cbn. apply G4. }
  cbn in Gs, Ss.
  apply get_nodes_for_additions in Hgn; [|by eapply bin_pack_unfulfilled_ok|done].
  pose proof (grown_add _ _ _ _ _ _ _ Gs Hgn) as Gf.
  split; [apply Gf|]. rewrite (grown_sum _ _ _ _ _ Hnt Hwf Hk Gf), inplace_add_sum.
  destruct Hgn as [_ _ _ ?]. lia.
Qed.

(** ** Placement groups become well-formed demands *)

Lemma combine_one_ok shape combined :
  demand_ok shape → demand_ok combined →
  demand_ok (fold_left (λ c '(l, q), dset l (dget_def l 0%Q c + q)%Q c) shape combined).
Proof.
  intros [_ Hs]. revert combined. induction shape as [|[l q] shape IH]; cbn; intros c Hc; [done|].
  apply Forall_cons in Hs as [Hq Hs]. apply IH; [done|].
  pose proof (amt_nonneg l c Hc) as Hl. unfold amt in Hl. cbn in Hq.
  destruct Hc as [Hwf Hpos]. split; [by apply dset_wf|].
  set (v := (dget_def l 0 c + q)%Q). assert (0 < v)%Q as Hv by (unfold v; lra).
  clearbody v. clear -Hpos Hv. induction c as [|[l' q'] c IH]; cbn; [by constructor|].
  apply Forall_cons in Hpos as [? ?]. case_decide; constructor; auto.
Qed.

Lemma combine_shapes_ok shapes : Forall demand_ok shapes → demand_ok (combine_shapes shapes).
Proof.
  unfold combine_shapes. assert (demand_ok []) as H0 by (split; [apply NoDup_nil|]; done).
  revert H0. generalize (@nil (string * Q)).
  induction shapes as [|sh shapes IH]; cbn; intros c Hc Hs; [done|].
  apply Forall_cons in Hs as [? ?]. apply IH; [by apply combine_one_ok|done].
Qed.

Lemma pg_step_ok acc pg :
  Forall demand_ok (pg_bundles pg) →
  Forall demand_ok acc.1 ∧ Forall (Forall demand_ok) acc.2 →
  Forall demand_ok (pg_step acc pg).1 ∧ Forall (Forall demand_ok) (pg_step acc pg).2.
Proof.
  destruct acc as [v u]. intros Hpg [Hv Hu]. unfold pg_step.
  pose proof (combine_shapes_ok _ Hpg).
  destruct (pg_strategy pg); cbn in *; rewrite ?Forall_app, ?Forall_singleton; auto.
Qed.

Lemma placement_groups_ok pgs :
  Forall (λ pg, Forall demand_ok (pg_bundles pg)) pgs →
  Forall demand_ok (placement_groups_to_resource_demands pgs).1 ∧
  Forall (Forall demand_ok) (placement_groups_to_resource_demands pgs).2.
Proof.
  unfold placement_groups_to_resource_demands.
  intros Hpgs.
  apply (fold_left_inv _ (λ acc, Forall demand_ok acc.1 ∧ Forall (Forall demand_ok) acc.2));
    [done|]. intros acc pg Hin Hacc. rewrite Forall_forall in Hpgs.
  apply pg_step_ok; [by apply Hpgs|done].
Qed.

(** ** The cluster's state *)

Lemma add_node_counts self s nt avail s' :
  add_node self s nt avail = Ok s' →
  (dict_wf s.2 → dict_wf s'.2) ∧
  (∀ k, k ∈ dkeys s'.2 → k ∈ dkeys s.2 ∨ k ∈ dkeys (node_types self)).
Proof.
  unfold add_node. destruct s as [nr counts].
  destruct (dget nt (node_types self)) eqn:Hg; intros Ha; inv_ok; [|by auto].
  split; [apply dset_wf|]. intros k [->|]%elem_of_dkeys_dset; [|by left].
  right. by eapply dget_elem_key.
Qed.

Lemma calculate_counts self nodes pending unused nr counts :
  calculate_node_resources self nodes pending unused = Ok (nr, counts) →
  dict_wf counts ∧ (∀ k, k ∈ dkeys counts → k ∈ dkeys (node_types self)).
Proof.
  set (P := λ s : list ResourceDict * dict NodeType Z,
    dict_wf s.2 ∧ ∀ k, k ∈ dkeys s.2 → k ∈ dkeys (node_types self)).
  assert (∀ s nt avail s', P s → add_node self s nt avail = Ok s' → P s') as Hadd.
  { intros s nt avail s' [Hw Hk] [Hw' Hk']%add_node_counts. split; [auto|]. naive_solver. }
  unfold calculate_node_resources. intros Hc; inv_ok.
  change (P (nr, counts)). eapply (foldM_inv _ P); [exact Hc| |].
  - match goal with H : foldM _ _ nodes = _ |- _ => rename H into Hn end. eapply (foldM_inv _ P); [exact Hn| |].
    + split; [apply NoDup_nil; done|]. cbn. by intros ? ?%not_elem_of_nil.
    + intros s nid s' _ HP Hs. inv_ok.
      case_match; inv_ok; [by eapply Hadd|done].
  - intros s [nt n] s' _ HP Hs. eapply (foldM_inv _ P); [exact Hs|done|].
    intros s1 i s2 _ HP1 Hs1. exact (Hadd _ _ _ _ HP1 Hs1).
Qed.

Lemma update_from_runtime_keys mx self nid self' :
  update_from_runtime_step mx self nid = Ok self' →
  dkeys (node_types self') = dkeys (node_types self).
Proof.
  unfold update_from_runtime_step. intros Hu; inv_ok.
  destruct (dget TAG_RAY_USER_NODE_TYPE x); inv_ok; [|done].
  destruct (dget s (node_types self)) eqn:Hg; inv_ok; [|done].
  case_decide; inv_ok; [done|]. destruct (dget x0 mx) as [[|??]|]; inv_ok; [done| |done].
  case_decide; cbn [node_types set_node_types set_updated]; rewrite dkeys_dset;
    unfold din; by rewrite Hg.
Qed.

Lemma update_keys self nodes mx self' :
  _update_node_resources_from_runtime self nodes mx = Ok self' →
  dkeys (node_types self') = dkeys (node_types self).
Proof.
  unfold _update_node_resources_from_runtime. case_decide; intros Hu; inv_ok; [done|].
  eapply (foldM_inv _ (λ s, dkeys (node_types s) = dkeys (node_types self)));
    [exact Hu|done|]. intros s n s' _ HP Hs%update_from_runtime_keys. congruence.
Qed.

(** ** Merging and limiting *)

Lemma merge_get nts a b c nt n :
  dget nt (merge_nodes_to_add nts a b c) = Some n →
  nt ∈ dkeys nts ∧ 0 < n ∧
  n = dget_def nt 0 a + dget_def nt 0 b + dget_def nt 0 c.
Proof.
  unfold merge_nodes_to_add. intros Hg.
  apply (fold_dset_get _ (λ nt k v, k = nt ∧ 0 < v ∧
    v = dget_def nt 0 a + dget_def nt 0 b + dget_def nt 0 c)) in Hg.
  - destruct Hg as [|(nt' & Hin & -> & Hpos & Heq)]; [done|]. by subst.
  - intros acc nt'. destruct (Z.ltb_spec 0
      (dget_def nt' 0 a + dget_def nt' 0 b + dget_def nt' 0 c)); [|by left].
    right. eauto 10.
Qed.

Lemma concurrent_get self tl conn nodes pending adj pg out :
  _get_concurrent_resource_demand_to_launch self tl conn nodes pending adj pg = Ok out →
  dict_wf out ∧
  ∃ running pend, _separate_running_and_pending_nodes self nodes conn = Ok (running, pend) ∧
  ∀ nt n, dget nt out = Some n → ∃ m,
    (nt, m) ∈ tl ∧
    0 < launch_upper_bound self running pend pending adj pg nt ∧
    n = Z.min (launch_upper_bound self running pend pending adj pg nt) m.
Proof.
  unfold _get_concurrent_resource_demand_to_launch. intros Hc; inv_ok.
  match goal with H : _separate_running_and_pending_nodes _ _ _ = Ok (?r, ?p) |- _ =>
    rename r into running, p into pend end.
  match goal with |- context [fold_left ?f _ _] => set (g := f) end.
  set (P := λ (ntn : NodeType * Z) k v,
    k = ntn.1 ∧ 0 < launch_upper_bound self running pend pending adj pg k ∧
    v = Z.min (launch_upper_bound self running pend pending adj pg k) ntn.2).
  assert (∀ acc a, g acc a = acc ∨ ∃ k v, P a k v ∧ g acc a = dset k v acc) as Hg.
  { intros acc [nt n]. unfold g.
    destruct (Z.ltb_spec 0 (launch_upper_bound self running pend pending adj pg nt)); [|by left].
    right. eexists _, _. split; [|done]. by split_and!. }
  split; [apply (fold_dset_wf g P Hg); by apply NoDup_nil|].
  exists running, pend. split; [done|]. intros nt n Hn.
  apply (fold_dset_get g P Hg) in Hn as [|([nt' m] & Hin & -> & Hub & ->)]; [done|]. eauto.
Qed.

(** The inputs of a decision are well-formed demands. *)
Definition demands_ok (demands : list ResourceDict) (pgs : list PlacementGroupTableData)
    (ensure : option (list ResourceDict)) : Prop :=
  Forall demand_ok demands ∧ Forall (λ pg, Forall demand_ok (pg_bundles pg)) pgs ∧
  Forall demand_ok (default [] ensure).

(** What a decision of a cluster that is not legacy launches, stage by
    stage: the counts it starts from, the counts after [min_workers], and a
    launch request that is within the growth of the stages. *)
Lemma decision_spec self nodes launching demands unused pgs mx ensure self' to_launch unf :
  dict_wf (node_types self) → is_legacy_yaml self None = false →
  demands_ok demands pgs ensure →
  get_nodes_to_launch conserve self nodes launching demands unused pgs mx ensure
    = Ok (self', (to_launch, unf)) →
  dict_wf (node_types self') ∧
  ∃ nr counts s1 total,
    calculate_node_resources self' nodes launching unused = Ok (nr, counts) ∧
    foldM (min_workers_step (head_node_type self')) (nr, counts, []) (node_types self') = Ok s1 ∧
    limited (node_types self') (head_node_type self') (λ nt, dget_def nt 0 counts) total ∧
    sumZ (dvalues counts) + sumZ (total <$> dkeys (node_types self'))
      <= Z.max (sumZ (dvalues s1.1.2)) (max_workers self' + 1) ∧
    dict_wf to_launch ∧
    ∀ nt n, dget nt to_launch = Some n → nt ∈ dkeys (node_types self') ∧ 0 < n <= total nt.
Proof.
  intros Hwf Hleg (Hd & Hpg & Hen). unfold get_nodes_to_launch. rewrite Hleg. intros Hg.
  cbn [mbind result_bind] in Hg. inv_ok.
  rename x into self1. rename select (_update_node_resources_from_runtime _ _ _ = _) into Hu.
  assert (dict_wf (node_types self1)) as Hwf1.
  { unfold dict_wf. by rewrite (update_keys _ _ _ _ Hu). }
  assert (is_legacy_yaml self1 None = false) as Hleg1.
  { rewrite <- Hleg. unfold is_legacy_yaml.
    by rewrite !(din_keys _ _ _ (update_keys _ _ _ _ Hu)). }
  rewrite Hleg1 in Hg.
  destruct (placement_groups_to_resource_demands pgs) as [pgd spreads] eqn:Hpgs.
  destruct (placement_groups_ok pgs Hpg) as [Hpgd Hspr]. rewrite Hpgs in Hpgd, Hspr.
  cbn [mbind result_bind fst snd] in Hg, Hpgd, Hspr. inv_ok.
  match goal with H : calculate_node_resources _ _ _ _ = _ |- _ => rename H into Hcalc end.
  match goal with H : _add_min_workers_nodes _ _ _ _ _ _ _ = _ |- _ => rename H into Hmin end.
  match goal with H : plan_launches _ _ _ _ _ _ _ = _ |- _ => rename H into Hplan end.
  match goal with H : _get_concurrent_resource_demand_to_launch _ _ _ _ _ _ _ = _ |- _ =>
    rename H into Hcon end.
  destruct (calculate_counts _ _ _ _ _ _ Hcalc) as [Hcw Hck].
  apply add_min_workers_spec in Hmin as [Gm (s1 & Hs1 & Hsum1)]; [|done..].
  cbn [fst snd] in Gm, Hsum1.
  apply plan_launches_spec in Hplan as [Lp Sp]; [|done|apply Gm|apply Gm|done|done|
    by apply Forall_app].
  apply concurrent_get in Hcon as (Hlw & running & pend & _ & Hlget).
  split; [done|]. eexists _, _, s1, _. split_and!; [exact Hcalc|exact Hs1| | |done|].
  - eapply limited_trans; [apply Gm|exact Lp|apply Gm].
  - rewrite sumZ_fmap_add, (grown_sum _ _ _ _ _ Hwf1 Hcw Hck Gm). lia.
  - intros nt n Hn. destruct (Hlget nt n Hn) as (m & Hm & Hub & ->).
    apply dget_elem in Hm.
    + apply merge_get in Hm as (Hk & Hpos & ->). split; [done|]. lia.
    + unfold merge_nodes_to_add.
      apply (fold_dset_wf _ (λ _ _ _, True)); [|by apply NoDup_nil].
      intros acc a. case_match; [right; eauto|by left].
Qed.
End scheduler.

(** ** Strict spreads that cannot be placed *)

Section infeasible.
Context (conserve : bool).

(** A demand that fits nowhere is left over by packing. *)
Lemma bin_pack_no_fit nodes d strict :
  Forall (λ n, _fits n d = false) nodes →
  get_bin_pack_residual nodes [d] strict = Ok ([d], nodes).
Proof.
  intros Hf. unfold get_bin_pack_residual. cbn. unfold pack_demand. cbn.
  assert (find_node nodes d = None) as ->; [|cbn; by rewrite app_nil_r].
  induction Hf as [|n nodes Hn _ IH]; cbn; [done|]. by rewrite Hn, IH.
Qed.

(** ... and makes every type's score [None]. *)
Lemma score_no_fit node d :
  _fits node d = false → _utilization_score conserve node [d] = Ok None.
Proof.
  intros Hf. unfold _utilization_score. case_match; [done|]. cbn.
  unfold score_step. rewrite Hf. done.
Qed.

Lemma score_types_no_fit added existing head d l scores :
  Forall (λ ntc, ∃ res, nt_resources ntc.2 = Some res ∧ _fits res d = false) l →
  foldM (score_types conserve existing added head [d] true) scores l = Ok scores.
Proof.
  intros Hl. induction Hl as [|[nt c] l (res & Hres & Hf) _ IH]; cbn [foldM]; [done|].
  unfold score_types at 2. cbn in Hres. unfold config_resources. rewrite Hres. cbn.
  rewrite (score_no_fit res d Hf). case_match; cbn; apply IH.
Qed.

Lemma get_nodes_for_no_fit nts existing head mx d :
  Forall (λ ntc, ∃ res, nt_resources ntc.2 = Some res ∧ _fits res d = false) nts →
  get_nodes_for conserve nts existing head mx [d] true = Ok ([], [d]).
Proof.
  intros Hl. unfold get_nodes_for. cbn [length get_nodes_for_loop].
  unfold get_nodes_for_body. case_bool_decide; [done|]. cbn [orb].
  destruct (negb _); [done|].
  rewrite (score_types_no_fit [] existing head d nts [] Hl). done.
Qed.
End infeasible.

(** A cluster whose node types are a head without free resources, a CPU node and
    a GPU node. *)
Module Spread.
Definition cpu_node : ResourceDict := [("CPU"%string, 2%Q)].
Definition gpu_node : ResourceDict := [("CPU"%string, 4%Q); ("GPU"%string, 3%Q)].
Definition cluster : ResourceDemandScheduler :=
  {| provider := {| node_tags := λ _, Ok []; internal_ip := λ _, Err KeyError |};
     node_types := [("head"%string, Examples.config [("CPU"%string, 0%Q)] 0 0);
                    ("cpu"%string, Examples.config cpu_node 0 10);
                    ("gpu"%string, Examples.config gpu_node 0 10)];
     node_resource_updated := ∅; max_workers := 10; head_node_type := "head";
     upscaling_speed := 1 |}.
End Spread.

(** * The properties *)

(** C1: a scheduling decision never takes a node type above its own limit. The cluster
    is not a legacy one (with the two node types of a configuration that names none),
    the table of node types has no type twice, all amounts of the demands are
    positive, and the decision is returned: then, for every type that it launches, the
    nodes that exist or are being launched together with the new ones are at most the
    type's [max_workers] (one more for the head node's type), however [min_workers],
    [request_resources], strict spreads and task demands combine. *)
Theorem get_nodes_to_launch_type_limit conserve self nodes launching demands unused pgs mx ensure
    self' to_launch unf :
  dict_wf (node_types self) → is_legacy_yaml self None = false →
  demands_ok demands pgs ensure →
  get_nodes_to_launch conserve self nodes launching demands unused pgs mx ensure
    = Ok (self', (to_launch, unf)) →
  ∃ nr counts, calculate_node_resources self' nodes launching unused = Ok (nr, counts) ∧
    ∀ nt n, dget nt to_launch = Some n → 0 < n ∧
      ∃ c, dget nt (node_types self') = Some c ∧
        dget_def nt 0 counts + n <= max_of_type (head_node_type self') nt c.
Proof.
  intros Hwf Hleg Hd Hg.
  destruct (decision_spec _ _ _ _ _ _ _ _ _ _ _ _ Hwf Hleg Hd Hg)
    as (Hwf' & nr & counts & s1 & total & Hcalc & _ & Hlim & _ & _ & Hget).
  exists nr, counts. split; [done|]. intros nt n Hn. destruct (Hget nt n Hn) as [Hk Hle].
  split; [lia|]. destruct (Hlim nt) as [_ Hl]. destruct Hl as (c & Hin & Hle'); [lia|].
  exists c. split; [by apply dget_elem|]. lia.
Qed.

(** The cluster's [max_workers] (plus the head node) bounds the whole
    cluster after a decision, except for nodes that [min_workers] alone
    requires: existing, launching and new nodes together are at most the larger
    of that bound and the size the [min_workers] loop asks for. *)
Theorem get_nodes_to_launch_cluster_limit conserve self nodes launching demands unused pgs mx
    ensure self' to_launch unf :
  dict_wf (node_types self) → is_legacy_yaml self None = false →
  demands_ok demands pgs ensure →
  get_nodes_to_launch conserve self nodes launching demands unused pgs mx ensure
    = Ok (self', (to_launch, unf)) →
  ∃ nr counts nr1 counts1 added1,
    calculate_node_resources self' nodes launching unused = Ok (nr, counts) ∧
    foldM (min_workers_step (head_node_type self')) (nr, counts, []) (node_types self')
      = Ok (nr1, counts1, added1) ∧
    sumZ (dvalues counts) + sumZ (dvalues to_launch)
      <= Z.max (sumZ (dvalues counts1)) (max_workers self' + 1).
Proof.
  intros Hwf Hleg Hd Hg.
  destruct (decision_spec _ _ _ _ _ _ _ _ _ _ _ _ Hwf Hleg Hd Hg)
    as (Hwf' & nr & counts & [[nr1 c1] a1] & total & Hcalc & Hmin & Hlim & Hsum & Hlw & Hget).
  exists nr, counts, nr1, c1, a1. split_and!; [done|done|]. cbn in Hsum.
  assert (sumZ (dvalues to_launch) <= sumZ (total <$> dkeys (node_types self'))) as Hle; [|lia].
  rewrite (sumZ_over_keys to_launch (dkeys (node_types self'))); [|done|done|].
  - apply sumZ_fmap_le. intros nt _. unfold dget_def. destruct (Hlim nt) as [H0 _].
    destruct (dget nt to_launch) as [n|] eqn:Hn; cbn; [|done]. apply Hget in Hn. lia.
  - intros nt Hnt. apply din_spec in Hnt. unfold din in Hnt.
    destruct (dget nt to_launch) as [n|] eqn:Hn; [|done]. by destruct (Hget nt n Hn).
Qed.

(** Upscaling is throttled: a launched type either keeps its pending,
    queued and new nodes within max(5, int(upscaling_speed * running)), or its
    new nodes are within what [min_workers], [request_resources] and placement
    groups ask for; and never more nodes are launched than were asked for. *)
Theorem concurrent_launches_throttled self tl conn nodes pending adj pg out nt n :
  dict_wf tl →
  _get_concurrent_resource_demand_to_launch self tl conn nodes pending adj pg = Ok out →
  dget nt out = Some n →
  ∃ running pend,
    _separate_running_and_pending_nodes self nodes conn = Ok (running, pend) ∧
    n <= dget_def nt 0 tl ∧
    (dget_def nt 0 pending + dget_def nt 0 pend + n
       <= Z.max UPSCALING_INITIAL_NUM_NODES
            (py_int (upscaling_speed self * inject_Z (Z.max (dget_def nt 0 running) 1))) ∨
     n <= dget_def nt 0 adj + dget_def nt 0 pg).
Proof.
  intros Hwf Hc Hn. apply concurrent_get in Hc as (_ & running & pend & Hs & Hget).
  destruct (Hget nt n Hn) as (m & Hm & Hub & ->). exists running, pend. split; [done|].
  unfold dget_def at 1. rewrite (dget_elem nt m tl Hwf Hm). cbn [default].
  unfold launch_upper_bound in *. cbv zeta in *.
  split; [apply Z.le_min_r|]. cbn. lia.
Qed.

(** A strict-spread group with a bundle that fits neither an existing
    node nor any node type makes the decision raise [AssertionError] instead of
    reporting the bundle as unfulfilled. *)
Theorem infeasible_strict_spread_raises conserve self bundle nr counts :
  Forall (λ n, _fits n bundle = false) nr →
  Forall (λ ntc, ∃ res, nt_resources ntc.2 = Some res ∧ _fits res bundle = false)
    (node_types self) →
  reserve_and_allocate_spread conserve self [[bundle]] nr counts = Err AssertionError.
Proof.
  intros Hnr Hnt. unfold reserve_and_allocate_spread. cbn [foldM].
  unfold spread_step. rewrite (bin_pack_no_fit nr bundle true Hnr). cbn [mbind result_bind].
  rewrite (get_nodes_for_no_fit conserve _ counts _ _ bundle Hnt). cbn [mbind result_bind].
  unfold _node_type_counts_to_node_resources. cbn [foldM mbind result_bind].
  rewrite (bin_pack_no_fit [] bundle true) by constructor. done.
Qed.

(** The assertion can also fail for a strict-spread group that could be
    placed: the nodes chosen bundle by bundle are packed again first fit, in
    another order, and a bundle that has its own node can be displaced.  Here
    three bundles get two GPU nodes and one CPU node, each bundle fits the node
    chosen for it, and the decision raises [AssertionError]. *)
Theorem feasible_strict_spread_raises :
  let self := Spread.cluster in
  let bundles := [Examples.gpu 3; Examples.cpu 2; Examples.gpu 1] in
  get_nodes_for true (node_types self) [] (head_node_type self) 10 bundles true
    = Ok ([("gpu"%string, 2); ("cpu"%string, 1)], []) ∧
  Forall2 (λ res b, _fits res b = true) [Spread.gpu_node; Spread.cpu_node; Spread.gpu_node]
    bundles ∧
  reserve_and_allocate_spread true self [bundles] [] [] = Err AssertionError.
Proof. split_and!; [reflexivity| |reflexivity]. repeat constructor. Qed.

(** ** The properties at concrete inputs *)

Lemma example_demands_ok :
  demands_ok [Examples.cpu 3; Examples.gpu 1]
    [{| pg_strategy := STRICT_SPREAD; pg_bundles := [Examples.gpu 2] |}]
    (Some [Examples.cpu 2]).
Proof. unfold demands_ok. split_and!; cbn; solve_closed. Qed.

Lemma get_nodes_to_launch_type_limit_witness :
  ∃ c, dget "gpu"%string (node_types Spread.cluster) = Some c ∧
    dget_def "gpu"%string 0 (@nil (NodeType * Z)) + 1 <= max_of_type "head"%string "gpu"%string c.
Proof.
  destruct (get_nodes_to_launch_type_limit true Spread.cluster [] [] [Examples.cpu 3; Examples.gpu 1]
    [] [{| pg_strategy := STRICT_SPREAD; pg_bundles := [Examples.gpu 2] |}] []
    (Some [Examples.cpu 2]) Spread.cluster
    [("head"%string, 1); ("cpu"%string, 1); ("gpu"%string, 1)] []) as (nr & counts & Hc & Hget).
  - solve_closed.
  - reflexivity.
  - exact example_demands_ok.
  - vm_compute. reflexivity.
  - vm_compute in Hc. injection Hc as <- <-. exact (proj2 (Hget "gpu"%string 1 eq_refl)).
Defined.

Lemma get_nodes_to_launch_cluster_limit_witness :
  ∃ counts1 : dict NodeType Z, 0 + 3 <= Z.max (sumZ (dvalues counts1)) (max_workers Spread.cluster + 1).
Proof.
  destruct (get_nodes_to_launch_cluster_limit true Spread.cluster [] []
    [Examples.cpu 3; Examples.gpu 1]
    [] [{| pg_strategy := STRICT_SPREAD; pg_bundles := [Examples.gpu 2] |}] []
    (Some [Examples.cpu 2]) Spread.cluster
    [("head"%string, 1); ("cpu"%string, 1); ("gpu"%string, 1)] [])
    as (nr & counts & nr1 & counts1 & added1 & Hc & _ & Hle).
  - solve_closed.
  - reflexivity.
  - exact example_demands_ok.
  - vm_compute. reflexivity.
  - exists counts1. vm_compute in Hc. injection Hc as <- <-. exact Hle.
Defined.

Lemma concurrent_launches_throttled_witness : 5 <= dget_def "gpu"%string 0 [("gpu"%string, 7)].
Proof.
  destruct (concurrent_launches_throttled Spread.cluster [("gpu"%string, 7)] [] [] [] [] []
    [("gpu"%string, 5)] "gpu"%string 5) as (running & pend & _ & Hle & _).
  - solve_closed.
  - vm_compute. reflexivity.
  - reflexivity.
  - exact Hle.
Defined.

Lemma infeasible_strict_spread_raises_witness :
  reserve_and_allocate_spread true Spread.cluster [[[("TPU"%string, 1%Q)]]] [] []
    = Err AssertionError.
Proof.
  apply (infeasible_strict_spread_raises true Spread.cluster [("TPU"%string, 1%Q)]).
  - constructor.
  - repeat constructor; eexists; split; reflexivity.
Defined.
