(* ===== verification/LoadMetrics.v ===== *)
(** * Load metrics (autoscaler/_private/load_metrics.py)

    [LoadMetrics]: what the autoscaler knows of the cluster's load, by node ip,
    updated from the raylets' heartbeats.  A reading of the clock is an argument.
    The texts of [info_string] and [resources_avail_summary] are not modelled. *)
From S2P Require Import Prelude PyLists BinPack DemandScheduler.
From stdpp Require Import base tactics list gmap strings.
From Stdlib Require Import QArith Lqa.

#[local] Open Scope Z_scope.
Import BinPack.

(** ** Dicts of numbers *)

(** [d1 == d2] on dicts of numbers: the same keys with equal values, in any order. *)
Definition res_eqb (d1 d2 : ResourceDict) : bool :=
  (length d1 =? length d2)%nat &&
  forallb (λ '(k, v), match dget k d2 with Some v' => Qeq_bool v v' | None => false end) d1.

Definition add_resources (dict1 dict2 : ResourceDict) : ResourceDict :=
  fold_left (λ new_dict '(k, v), dset k (v + dget_def k 0 new_dict)%Q new_dict) dict2 dict1.

(** [reduce(add_resources, l) if l else {}] *)
Definition reduce_resources (l : list ResourceDict) : ResourceDict :=
  match l with
  | [] => []
  | d :: l => fold_left add_resources l d
  end.

(** [Counter(map(serializer, dicts)).items()], deserialised: serialised values
    are compared by [same], each class is given by its first member ([dict] of a
    [frozenset] lists the entries in an order of its own). *)
Section freq.
Context {D : Type} (same : D → D → bool).

Fixpoint count_in (d : D) (freqs : list (D * Z)) : list (D * Z) :=
  match freqs with
  | [] => [(d, 1)]
  | (d', n) :: freqs => if same d' d then (d', n + 1) :: freqs else (d', n) :: count_in d freqs
  end.

Definition freq_of_dicts (dicts : list D) : list (D * Z) :=
  fold_left (λ freqs d, count_in d freqs) dicts [].
End freq.

(** ** State *)

Record LoadMetrics := {
  last_used_time_by_ip : dict NodeIP Q;
  last_heartbeat_time_by_ip : dict NodeIP Q;
  static_resources_by_ip : dict NodeIP ResourceDict;
  dynamic_resources_by_ip : dict NodeIP ResourceDict;
  raylet_id_by_ip : dict NodeIP string;
  resource_load_by_ip : dict NodeIP ResourceDict;
  waiting_bundles : list ResourceDict;
  infeasible_bundles : list ResourceDict;
  pending_placement_groups : list PlacementGroupTableData;
  resource_requests : list ResourceDict;
  cluster_full_of_actors_detected : bool;
}.

Definition lm_init : LoadMetrics :=
  {| last_used_time_by_ip := []; last_heartbeat_time_by_ip := []; static_resources_by_ip := [];
     dynamic_resources_by_ip := []; raylet_id_by_ip := []; resource_load_by_ip := [];
     waiting_bundles := []; infeasible_bundles := []; pending_placement_groups := [];
     resource_requests := []; cluster_full_of_actors_detected := false |}.

Definition lm_bool (self : LoadMetrics) : bool := negb (bool_decide (raylet_id_by_ip self = [])).

(** The copy of the available resources in which a static resource that the
    heartbeat leaves out is present with amount zero. *)
Definition dynamic_resources_update (static_resources dynamic_resources : ResourceDict) :
    ResourceDict :=
  fold_left (λ upd '(resource_name, _),
    if din resource_name upd then upd else dset resource_name 0%Q upd)
    static_resources dynamic_resources.

(** The arguments of [update] after [ip]. *)
Record Heartbeat := {
  hb_raylet_id : string;
  hb_static : ResourceDict;
  hb_dynamic : ResourceDict;
  hb_load : ResourceDict;
  hb_waiting : option (list ResourceDict);
  hb_infeasible : option (list ResourceDict);
  hb_pending_pgs : option (list PlacementGroupTableData);
  hb_full_of_actors : bool;
}.

Definition update (self : LoadMetrics) (ip : NodeIP) (hb : Heartbeat) (now : Q) : LoadMetrics :=
  let dynamic := dynamic_resources_update (hb_static hb) (hb_dynamic hb) in
  {| last_used_time_by_ip :=
       if negb (din ip (last_used_time_by_ip self)) || negb (res_eqb (hb_static hb) dynamic)
       then dset ip now (last_used_time_by_ip self)
       else last_used_time_by_ip self;
     last_heartbeat_time_by_ip := dset ip now (last_heartbeat_time_by_ip self);
     static_resources_by_ip := dset ip (hb_static hb) (static_resources_by_ip self);
     dynamic_resources_by_ip := dset ip dynamic (dynamic_resources_by_ip self);
     raylet_id_by_ip := dset ip (hb_raylet_id hb) (raylet_id_by_ip self);
     resource_load_by_ip := dset ip (hb_load hb) (resource_load_by_ip self);
     waiting_bundles := default [] (hb_waiting hb);
     infeasible_bundles := default [] (hb_infeasible hb);
     pending_placement_groups := default [] (hb_pending_pgs hb);
     resource_requests := resource_requests self;
     cluster_full_of_actors_detected := hb_full_of_actors hb |}.

Definition set_heartbeats (d : dict NodeIP Q) (self : LoadMetrics) : LoadMetrics :=
  {| last_used_time_by_ip := last_used_time_by_ip self;
     last_heartbeat_time_by_ip := d;
     static_resources_by_ip := static_resources_by_ip self;
     dynamic_resources_by_ip := dynamic_resources_by_ip self;
     raylet_id_by_ip := raylet_id_by_ip self;
     resource_load_by_ip := resource_load_by_ip self;
     waiting_bundles := waiting_bundles self;
     infeasible_bundles := infeasible_bundles self;
     pending_placement_groups := pending_placement_groups self;
     resource_requests := resource_requests self;
     cluster_full_of_actors_detected := cluster_full_of_actors_detected self |}.

(** The ip is a string here; [None], which the code asserts away, is not one. *)
Definition mark_active (self : LoadMetrics) (ip : NodeIP) (now : Q) : LoadMetrics :=
  set_heartbeats (dset ip now (last_heartbeat_time_by_ip self)) self.

Definition is_active (self : LoadMetrics) (ip : NodeIP) : bool :=
  din ip (last_heartbeat_time_by_ip self).

(** [prune], the closure of [prune_active_ips]. *)
Definition prune {V} (active_ips : list NodeIP) (mapping : dict NodeIP V) :
    result (dict NodeIP V) :=
  let unwanted_ips := filter (λ ip, ip ∉ active_ips) (dkeys mapping) in
  let mapping := fold_left (λ m ip, ddel ip m) unwanted_ips mapping in
  _ ← py_assert (forallb (λ ip, negb (din ip mapping)) unwanted_ips);
  Ok mapping.

Definition prune_active_ips (self : LoadMetrics) (active_ips : list NodeIP) : result LoadMetrics :=
  used ← prune active_ips (last_used_time_by_ip self);
  static ← prune active_ips (static_resources_by_ip self);
  raylets ← prune active_ips (raylet_id_by_ip self);
  dynamic ← prune active_ips (dynamic_resources_by_ip self);
  load ← prune active_ips (resource_load_by_ip self);
  heartbeats ← prune active_ips (last_heartbeat_time_by_ip self);
  Ok {| last_used_time_by_ip := used; last_heartbeat_time_by_ip := heartbeats;
        static_resources_by_ip := static; dynamic_resources_by_ip := dynamic;
        raylet_id_by_ip := raylets; resource_load_by_ip := load;
        waiting_bundles := waiting_bundles self;
        infeasible_bundles := infeasible_bundles self;
        pending_placement_groups := pending_placement_groups self;
        resource_requests := resource_requests self;
        cluster_full_of_actors_detected := cluster_full_of_actors_detected self |}.

(** ** Usage *)

Record usage_state := {
  num_nodes : Z;
  num_nonidle : Z;
  resources_used : ResourceDict;
  resources_total : ResourceDict;
}.

(** The inner loop over a node's resources, with the node's largest fraction. *)
Definition usage_resource (avail_resources : ResourceDict) (s : usage_state * Q)
    (r : string * Q) : result (usage_state * Q) :=
  let '(u, max_frac) := s in
  let '(resource_id, amount) := r in
  avail ← dget_exn resource_id avail_resources;
  let used := (amount - avail)%Q in
  let '(ru, rt) :=
    if din resource_id (resources_used u) then (resources_used u, resources_total u)
    else (dset resource_id 0%Q (resources_used u), dset resource_id 0%Q (resources_total u)) in
  let ru := dset resource_id (dget_def resource_id 0%Q ru + used)%Q ru in
  let rt := dset resource_id (dget_def resource_id 0%Q rt + amount)%Q rt in
  let used := if Qltb used 0 then 0%Q else used in
  let max_frac :=
    if Qltb 0 amount then (if Qltb max_frac (used / amount) then used / amount else max_frac)%Q
    else max_frac in
  Ok ({| num_nodes := num_nodes u; num_nonidle := num_nonidle u;
         resources_used := ru; resources_total := rt |}, max_frac).

Definition usage_node (self : LoadMetrics) (u : usage_state) (n : NodeIP * ResourceDict) :
    result usage_state :=
  let '(ip, max_resources) := n in
  let u :=
    if existsb (λ v, negb (Qeq_bool v 0)) (dvalues max_resources)
    then {| num_nodes := num_nodes u + 1; num_nonidle := num_nonidle u;
            resources_used := resources_used u; resources_total := resources_total u |}
    else u in
  avail_resources ← dget_exn ip (dynamic_resources_by_ip self);
  resource_load ← dget_exn ip (resource_load_by_ip self);
  let max_frac := if existsb (λ v, Qltb 0 v) (dvalues resource_load) then 1%Q else 0%Q in
  '(u, max_frac) ← foldM (usage_resource avail_resources) (u, max_frac) max_resources;
  Ok (if Qltb 0 max_frac
      then {| num_nodes := num_nodes u; num_nonidle := num_nonidle u + 1;
              resources_used := resources_used u; resources_total := resources_total u |}
      else u).

Definition _get_resource_usage (self : LoadMetrics) : result (ResourceDict * ResourceDict) :=
  u ← foldM (usage_node self)
        {| num_nodes := 0; num_nonidle := 0; resources_used := []; resources_total := [] |}
        (static_resources_by_ip self);
  Ok (resources_used u, resources_total u).

(** ** Demand *)

Definition AUTOSCALER_MAX_RESOURCE_DEMAND_VECTOR_SIZE : Z := 1000.

Definition get_resource_demand_vector (self : LoadMetrics) (clip : bool) : list ResourceDict :=
  if clip then
    py_slice 0 (Some AUTOSCALER_MAX_RESOURCE_DEMAND_VECTOR_SIZE) (waiting_bundles self)
    ++ py_slice 0 (Some AUTOSCALER_MAX_RESOURCE_DEMAND_VECTOR_SIZE) (infeasible_bundles self)
  else waiting_bundles self ++ infeasible_bundles self.

(** [set_resource_requests]: [None] passes the assertion and is then iterated over. *)
Definition set_resource_requests (self : LoadMetrics) (requested : option (list ResourceDict)) :
    result LoadMetrics :=
  match requested with
  | None => Err TypeError
  | Some requested =>
      Ok {| last_used_time_by_ip := last_used_time_by_ip self;
            last_heartbeat_time_by_ip := last_heartbeat_time_by_ip self;
            static_resources_by_ip := static_resources_by_ip self;
            dynamic_resources_by_ip := dynamic_resources_by_ip self;
            raylet_id_by_ip := raylet_id_by_ip self;
            resource_load_by_ip := resource_load_by_ip self;
            waiting_bundles := waiting_bundles self;
            infeasible_bundles := infeasible_bundles self;
            pending_placement_groups := pending_placement_groups self;
            resource_requests := List.filter (λ r, 0 <? len r) requested;
            cluster_full_of_actors_detected := cluster_full_of_actors_detected self |}
  end.

(** ** Summary *)

Record PgDemand := { pgd_bundles : list (ResourceDict * Z); pgd_strategy : string }.

Record LoadMetricsSummary := {
  usage : dict string (Q * Q);
  resource_demand : list (ResourceDict * Z);
  pg_demand : list (PgDemand * Z);
  request_demand : list (ResourceDict * Z);
  summary_node_types : list (ResourceDict * Z);
}.

(** [PlacementStrategy.Name] of the generated protobuf code. *)
Definition strategy_name (s : PlacementStrategy) : result string :=
  match s with
  | PACK => Ok "PACK"%string
  | SPREAD => Ok "SPREAD"%string
  | STRICT_PACK => Ok "STRICT_PACK"%string
  | STRICT_SPREAD => Ok "STRICT_SPREAD"%string
  | OTHER _ => Err ValueError
  end.

#[global] Instance placement_strategy_eq_dec : EqDecision PlacementStrategy.
Proof. solve_decision. Defined.

(** Two placement groups with the same [placement_group_serializer]. *)
Fixpoint bundles_eqb (bs1 bs2 : list ResourceDict) : bool :=
  match bs1, bs2 with
  | [], [] => true
  | b1 :: bs1, b2 :: bs2 => res_eqb b1 b2 && bundles_eqb bs1 bs2
  | _, _ => false
  end.

Definition pg_same (pg1 pg2 : PlacementGroupTableData) : bool :=
  bundles_eqb (pg_bundles pg1) (pg_bundles pg2)
  && bool_decide (pg_strategy pg1 = pg_strategy pg2).

Definition placement_group_deserializer (pg : PlacementGroupTableData) : result PgDemand :=
  name ← strategy_name (pg_strategy pg);
  Ok {| pgd_bundles := freq_of_dicts res_eqb (pg_bundles pg); pgd_strategy := name |}.

(** The two branches of the loop differ in the memory unit only. *)
Definition usage_entry (available_resources : ResourceDict) (usage_dict : dict string (Q * Q))
    (e : string * Q) : result (dict string (Q * Q)) :=
  let '(key, total) := e in
  available ← dget_exn key available_resources;
  if decide (key ∈ ["memory"; "object_store_memory"]%string) then
    let total := (total * MEMORY_RESOURCE_UNIT_BYTES)%Q in
    let available := (available * MEMORY_RESOURCE_UNIT_BYTES)%Q in
    Ok (dset key ((total - available)%Q, total) usage_dict)
  else Ok (dset key ((total - available)%Q, total) usage_dict).

Definition summary (self : LoadMetrics) : result LoadMetricsSummary :=
  let available_resources := reduce_resources (dvalues (dynamic_resources_by_ip self)) in
  let total_resources := reduce_resources (dvalues (static_resources_by_ip self)) in
  usage_dict ← foldM (usage_entry available_resources) [] total_resources;
  pgs ← foldM (λ acc '(pg, count), d ← placement_group_deserializer pg; Ok (acc ++ [(d, count)])) []
          (freq_of_dicts pg_same (pending_placement_groups self));
  Ok {| usage := usage_dict;
        resource_demand := freq_of_dicts res_eqb (get_resource_demand_vector self false);
        pg_demand := pgs;
        request_demand := freq_of_dicts res_eqb (resource_requests self);
        summary_node_types := freq_of_dicts res_eqb (dvalues (static_resources_by_ip self)) |}.
