(* ===== verification/LoadMetricsProofs.v ===== *)
(** * Properties of the load metrics

    The invariant that ties the dicts of [LoadMetrics] together, what a summary
    adds up, and what the time of last use means. *)
From S2P Require Import Prelude PyLists BinPack DemandScheduler LoadMetrics.
From stdpp Require Import base tactics list gmap strings sets sorting.
From Stdlib Require Import QArith Lqa.

#[local] Open Scope Z_scope.
Import BinPack.

(** ** Adding resources *)

Section adding.
Implicit Types (d : ResourceDict) (l : list ResourceDict).

Lemma add_resources_keys d1 d2 k :
  k ∈ dkeys (add_resources d1 d2) ↔ k ∈ dkeys d1 ∨ k ∈ dkeys d2.
Proof.
  unfold add_resources. revert d1. induction d2 as [|[k' v] d2 IH]; intros d1; cbn [fold_left].
  - unfold dkeys at 3. cbn. rewrite elem_of_nil. tauto.
  - rewrite IH, elem_of_dkeys_dset. unfold dkeys at 4. cbn. rewrite elem_of_cons.
    unfold dkeys. naive_solver.
Qed.

Lemma add_resources_wf d1 d2 : dict_wf d1 → dict_wf (add_resources d1 d2).
Proof.
  intros Hwf. unfold add_resources. apply fold_left_inv; [done|].
  intros d [k v] _ Hd. by apply dset_wf.
Qed.

Lemma add_resources_get d1 d2 k :
  dict_wf d2 → (dget_def k 0 (add_resources d1 d2) == dget_def k 0 d1 + dget_def k 0 d2)%Q.
Proof.
  unfold add_resources. revert d1. induction d2 as [|[k' v] d2 IH]; intros d1 Hwf; cbn [fold_left].
  - rewrite (dget_def_not_in k) with (d := []); [lra|]. by apply not_elem_of_nil.
  - unfold dict_wf, dkeys in Hwf. cbn in Hwf. apply NoDup_cons in Hwf as [Hk Hwf].
    rewrite IH by done. rewrite dget_def_dset, dget_def_cons. case_decide; [subst k'|lra].
    rewrite (dget_def_not_in k 0%Q d2 Hk). lra.
Qed.

Lemma reduce_keys l k :
  k ∈ dkeys (reduce_resources l) ↔ ∃ d, d ∈ l ∧ k ∈ dkeys d.
Proof.
  destruct l as [|d l]; cbn.
  - split; [by intros ?%not_elem_of_nil|]. by intros (? & ?%not_elem_of_nil & ?).
  - revert d. induction l as [|d' l IH]; intros d; cbn.
    + split; [intros; exists d; split; [left|done]|].
      by intros (d' & ->%list_elem_of_singleton & ?).
    + rewrite IH. split.
      * intros (d1 & [->|Hin]%elem_of_cons & Hk).
        -- apply add_resources_keys in Hk as [?|?]; [exists d|exists d']; (split; [|done]).
           ++ left.
           ++ right. left.
        -- exists d1. split; [|done]. by do 2 right.
      * intros (d1 & [->|[->|Hin]%elem_of_cons]%elem_of_cons & Hk);
          [exists (add_resources d d')..|exists d1]; rewrite ?add_resources_keys;
          (split; [|by auto]); [left|left|by right].
Qed.

Lemma reduce_wf l : Forall dict_wf l → dict_wf (reduce_resources l).
Proof.
  destruct l as [|d l]; cbn; intros Hl; [constructor|]. inversion_clear Hl.
  apply fold_left_inv; [done|]. intros. by apply add_resources_wf.
Qed.

Lemma reduce_get l k :
  Forall dict_wf l → (dget_def k 0 (reduce_resources l) == sumQ (dget_def k 0%Q <$> l))%Q.
Proof.
  destruct l as [|d l]; cbn [reduce_resources]; intros Hl; [done|].
  inversion_clear Hl as [|? ? Hd Hl']. clear Hd. revert d. induction l as [|d' l IH]; intros d; cbn.
  - lra.
  - inversion_clear Hl' as [|? ? Hd' Hl]. rewrite (IH Hl). cbn.
    rewrite add_resources_get by done. lra.
Qed.
End adding.

(** ** Pruning *)

(** The entries of a dict whose key satisfies a test. *)
Definition dfilter {V} (p : NodeIP → bool) (d : dict NodeIP V) : dict NodeIP V :=
  List.filter (λ e, p e.1) d.

Abbreviation restrict active := (dfilter (λ ip, bool_decide (ip ∈ active))).

Lemma dfilter_keys {V} p (d : dict NodeIP V) : dkeys (dfilter p d) = List.filter p (dkeys d).
Proof.
  unfold dkeys, dfilter. induction d as [|[k v] d IH]; cbn; [done|].
  destruct (p k); cbn; by rewrite IH.
Qed.

Lemma elem_of_dfilter {V} p (d : dict NodeIP V) k :
  k ∈ dkeys (dfilter p d) ↔ k ∈ dkeys d ∧ p k = true.
Proof. rewrite dfilter_keys, !list_elem_of_In. apply filter_In. Qed.

Lemma dfilter_wf {V} p (d : dict NodeIP V) : dict_wf d → dict_wf (dfilter p d).
Proof. unfold dict_wf. rewrite dfilter_keys, !NoDup_ListNoDup. apply List.NoDup_filter. Qed.

Lemma dget_dfilter {V} p (d : dict NodeIP V) k :
  dget k (dfilter p d) = if p k then dget k d else None.
Proof.
  unfold dfilter. induction d as [|[k' v] d IH]; cbn; [by destruct (p k)|].
  destruct (decide (k = k')) as [<-|Hne].
  - destruct (p k); cbn; [by rewrite decide_True|]. done.
  - destruct (p k'); cbn; [rewrite decide_False by done|]; done.
Qed.

Lemma dfilter_ext {V} p q (d : dict NodeIP V) :
  (∀ k, k ∈ dkeys d → p k = q k) → dfilter p d = dfilter q d.
Proof.
  intros Hpq. apply List.filter_ext_in. intros e He%list_elem_of_In. apply Hpq.
  apply list_elem_of_fmap. by exists e.
Qed.

Lemma ddel_dfilter {V} (k : NodeIP) (d : dict NodeIP V) :
  dict_wf d → ddel k d = dfilter (λ k', negb (bool_decide (k' = k))) d.
Proof.
  unfold dict_wf, dkeys, dfilter. induction d as [|[k' v] d IH]; cbn; intros Hwf; [done|].
  apply NoDup_cons in Hwf as [Hk Hwf]. destruct (decide (k = k')) as [<-|Hne].
  - rewrite bool_decide_true by done. cbn. rewrite <- IH by done. clear -Hk.
    induction d as [|[k1 v1] d IH]; cbn in *; [done|]. apply not_elem_of_cons in Hk as [? Hk].
    rewrite decide_False by done. by rewrite <- IH.
  - rewrite bool_decide_false by congruence. cbn. by rewrite IH.
Qed.

Lemma del_all {V} (ks : list NodeIP) (d : dict NodeIP V) :
  dict_wf d →
  fold_left (λ m ip, ddel ip m) ks d = dfilter (λ k, negb (bool_decide (k ∈ ks))) d.
Proof.
  revert d. induction ks as [|k ks IH]; cbn; intros d Hwf.
  - unfold dfilter. symmetry. apply List.forallb_filter_id. apply forallb_forall. intros e _.
    rewrite bool_decide_false; [done|apply not_elem_of_nil].
  - rewrite IH by (by apply ddel_wf). rewrite ddel_dfilter by done. unfold dfilter.
    induction d as [|[k1 v1] d IHd]; cbn; [done|]. unfold dict_wf, dkeys in Hwf. cbn in Hwf.
    apply NoDup_cons in Hwf as [_ Hwf].
    destruct (decide (k1 = k)) as [->|Hne].
    + rewrite (bool_decide_true (k = k)), (bool_decide_true (k ∈ k :: ks)) by (done || left). cbn.
      by apply IHd.
    + rewrite (bool_decide_false (k1 = k)) by done. cbn.
      assert (bool_decide (k1 ∈ k :: ks) = bool_decide (k1 ∈ ks)) as ->
        by (apply bool_decide_ext; rewrite elem_of_cons; tauto).
      by rewrite (IHd Hwf).
Qed.

Lemma prune_spec {V} (active : list NodeIP) (d : dict NodeIP V) :
  dict_wf d → prune active d = Ok (restrict active d).
Proof.
  intros Hwf. unfold prune. rewrite del_all by done. rewrite (dfilter_ext _ (λ ip, bool_decide (ip ∈ active))).
  - assert (forallb (λ ip, negb (din ip (restrict active d)))
      (filter (λ ip, ip ∉ active) (dkeys d)) = true) as ->; [|done].
    apply forallb_forall. intros ip [Hip _]%list_elem_of_In%list_elem_of_filter.
    apply negb_true_iff, not_true_iff_false. rewrite din_spec, elem_of_dfilter, bool_decide_eq_true.
    tauto.
  - intros k Hk. apply eq_true_iff_eq. rewrite negb_true_iff, bool_decide_eq_false, bool_decide_eq_true.
    rewrite list_elem_of_filter. destruct (decide (k ∈ active)); tauto.
Qed.

(** ** The invariant *)

(** All dicts fed by heartbeats have the same nodes in the same order; the
    heartbeat times have these and those marked active; the available resources of
    a node name the same resources as its static ones. *)
Record lm_ok (self : LoadMetrics) : Prop := {
  ok_static : dict_wf (static_resources_by_ip self);
  ok_dynamic : dkeys (dynamic_resources_by_ip self) = dkeys (static_resources_by_ip self);
  ok_raylets : dkeys (raylet_id_by_ip self) = dkeys (static_resources_by_ip self);
  ok_load : dkeys (resource_load_by_ip self) = dkeys (static_resources_by_ip self);
  ok_used : dkeys (last_used_time_by_ip self) = dkeys (static_resources_by_ip self);
  ok_heartbeats : dict_wf (last_heartbeat_time_by_ip self);
  ok_heard : ∀ ip, ip ∈ dkeys (static_resources_by_ip self) → is_active self ip = true;
  ok_resources : ∀ ip s d, dget ip (static_resources_by_ip self) = Some s →
    dget ip (dynamic_resources_by_ip self) = Some d →
    dict_wf s ∧ dict_wf d ∧ ∀ k, k ∈ dkeys s ↔ k ∈ dkeys d;
  ok_strategies : Forall (λ pg, is_Ok (strategy_name (pg_strategy pg)))
    (pending_placement_groups self);
}.

(** What a raylet reports: its available resources are among its total ones, the
    placement strategies have names. *)
Definition heartbeat_ok (hb : Heartbeat) : Prop :=
  dict_wf (hb_static hb) ∧ dict_wf (hb_dynamic hb) ∧
  (∀ k, k ∈ dkeys (hb_dynamic hb) → k ∈ dkeys (hb_static hb)) ∧
  Forall (λ pg, is_Ok (strategy_name (pg_strategy pg))) (default [] (hb_pending_pgs hb)).

Inductive op :=
  | Update (ip : NodeIP) (hb : Heartbeat) (now : Q)
  | MarkActive (ip : NodeIP) (now : Q)
  | Prune (active_ips : list NodeIP)
  | SetRequests (requests : list ResourceDict).

Definition run_op (self : LoadMetrics) (o : op) : result LoadMetrics :=
  match o with
  | Update ip hb now => Ok (update self ip hb now)
  | MarkActive ip now => Ok (mark_active self ip now)
  | Prune ips => prune_active_ips self ips
  | SetRequests rs => set_resource_requests self (Some rs)
  end.

Definition op_ok (o : op) : Prop :=
  match o with Update _ hb _ => heartbeat_ok hb | _ => True end.

Lemma din_dkeys {V} (k : NodeIP) (d : dict NodeIP V) : din k d = bool_decide (k ∈ dkeys d).
Proof. apply eq_true_iff_eq. by rewrite din_spec, bool_decide_eq_true. Qed.

Lemma dkeys_dset_same {V W} (k : NodeIP) (v : V) (w : W) (d : dict NodeIP V) (d' : dict NodeIP W) :
  dkeys d = dkeys d' → dkeys (dset k v d) = dkeys (dset k w d').
Proof. intros Hk. by rewrite !dkeys_dset, !din_dkeys, Hk. Qed.

Lemma dict_wf_keys {V W} (d : dict NodeIP V) (d' : dict NodeIP W) :
  dkeys d = dkeys d' → dict_wf d' → dict_wf d.
Proof. unfold dict_wf. by intros ->. Qed.

Lemma dynamic_update_spec s d :
  dict_wf d →
  dict_wf (dynamic_resources_update s d) ∧
  ∀ k, k ∈ dkeys (dynamic_resources_update s d) ↔ k ∈ dkeys d ∨ k ∈ dkeys s.
Proof.
  unfold dynamic_resources_update. revert d.
  induction s as [|[k' v] s IH]; intros d Hwf; cbn [fold_left].
  - split; [done|]. intros k. unfold dkeys at 3. cbn. rewrite elem_of_nil. tauto.
  - destruct (IH (if din k' d then d else dset k' 0%Q d)) as [Hwf' Hk].
    { destruct (din k' d); [done|by apply dset_wf]. }
    split; [done|]. intros k. rewrite Hk. unfold dkeys at 4. cbn. rewrite elem_of_cons.
    destruct (din k' d) eqn:Hd; [apply din_spec in Hd|rewrite elem_of_dkeys_dset];
      unfold dkeys in *; naive_solver.
Qed.

Lemma lm_ok_init : lm_ok lm_init.
Proof.
  split; cbn; try done; try apply NoDup_nil_2. by intros ? ?%not_elem_of_nil.
Qed.

Lemma update_ok self ip hb now : heartbeat_ok hb → lm_ok self → lm_ok (update self ip hb now).
Proof.
  intros (Hs & Hd & Hsub & Hpg) Hok. destruct (dynamic_update_spec (hb_static hb) (hb_dynamic hb) Hd) as [Hwf Hk].
  destruct Hok. split; cbn.
  - by apply dset_wf.
  - by apply dkeys_dset_same.
  - by apply dkeys_dset_same.
  - by apply dkeys_dset_same.
  - destruct (negb _ || _) eqn:Hu; [by apply dkeys_dset_same|].
    apply orb_false_iff in Hu as [Hu%negb_false_iff _]. rewrite ok_used0, dkeys_dset.
    rewrite din_dkeys, ok_used0, <- din_dkeys in Hu. by rewrite Hu.
  - by apply dset_wf.
  - intros ip'. unfold is_active in *. cbn. rewrite !din_spec, !elem_of_dkeys_dset.
    intros [->|Hin]; [by left|right]. apply din_spec. by apply ok_heard0.
  - intros ip' s d. rewrite !dget_dset. case_decide; [|by apply ok_resources0].
    intros [= <-] [= <-]. split_and!; [done|done|]. intros k. rewrite Hk. naive_solver.
  - done.
Qed.

Lemma mark_active_ok self ip now : lm_ok self → lm_ok (mark_active self ip now).
Proof.
  intros []. split; cbn; try done; [by apply dset_wf|].
  intros ip' Hin. unfold is_active in *. cbn. rewrite din_spec, elem_of_dkeys_dset. right.
  apply din_spec. by apply ok_heard0.
Qed.

(** Pruning succeeds and filters every dict alike. *)
Lemma prune_active_ips_spec self active :
  lm_ok self → ∃ self', prune_active_ips self active = Ok self' ∧ lm_ok self' ∧
    last_used_time_by_ip self' = restrict active (last_used_time_by_ip self) ∧
    last_heartbeat_time_by_ip self' = restrict active (last_heartbeat_time_by_ip self) ∧
    static_resources_by_ip self' = restrict active (static_resources_by_ip self) ∧
    dynamic_resources_by_ip self' = restrict active (dynamic_resources_by_ip self) ∧
    raylet_id_by_ip self' = restrict active (raylet_id_by_ip self) ∧
    resource_requests self' = resource_requests self.
Proof.
  intros Hok. pose proof Hok as []. unfold prune_active_ips.
  rewrite !prune_spec by (done || by eapply dict_wf_keys). cbn. eexists. split; [done|].
  split; [|cbn; done]. split; cbn; rewrite ?dfilter_keys; try congruence.
  - by apply dfilter_wf.
  - by apply dfilter_wf.
  - intros ip. unfold is_active in *. cbn.
    rewrite <- dfilter_keys, din_spec, !elem_of_dfilter.
    intros [Hin ?]. split; [|done]. apply din_spec. by apply ok_heard0.
  - intros ip s d. rewrite !dget_dfilter. case_bool_decide; [|done]. by apply ok_resources0.
Qed.

Lemma metrics_op_ok self o :
  op_ok o → lm_ok self → ∃ self', run_op self o = Ok self' ∧ lm_ok self'.
Proof.
  intros Ho Hok. destruct o; cbn.
  - eexists. split; [done|]. by apply update_ok.
  - eexists. split; [done|]. by apply mark_active_ok.
  - destruct (prune_active_ips_spec self active_ips Hok) as (self' & ? & ? & _). by eauto.
  - eexists. split; [done|]. destruct Hok. by split.
Qed.

Lemma reachable_ok ops :
  Forall op_ok ops → ∃ lm, foldM run_op lm_init ops = Ok lm ∧ lm_ok lm.
Proof.
  intros Hops. apply foldM_total; [apply lm_ok_init|]. intros lm o Ho Hok.
  apply metrics_op_ok; [|done]. by eapply Forall_forall in Hops.
Qed.

(** ** What the summary adds up *)

Lemma dvalues_dkeys {V} (dflt : V) (d : dict NodeIP V) :
  dict_wf d → dvalues d = (λ k, dget_def k dflt d) <$> dkeys d.
Proof.
  unfold dict_wf, dkeys, dvalues. induction d as [|[k v] d IH]; cbn; intros Hwf; [done|].
  apply NoDup_cons in Hwf as [Hk Hwf]. rewrite dget_def_cons, decide_True by done. f_equal.
  rewrite IH by done. apply list_fmap_ext. intros i k' Hk'. rewrite dget_def_cons, decide_False; [done|].
  intros ->. apply Hk. by eapply list_elem_of_lookup_2.
Qed.

(** The total and the available amount of a resource over all nodes. *)
Definition total_of (self : LoadMetrics) (k : string) : Q :=
  sumQ ((λ ip, dget_def k 0%Q (dget_def ip [] (static_resources_by_ip self)))
          <$> dkeys (static_resources_by_ip self)).
Definition available_of (self : LoadMetrics) (k : string) : Q :=
  sumQ ((λ ip, dget_def k 0%Q (dget_def ip [] (dynamic_resources_by_ip self)))
          <$> dkeys (static_resources_by_ip self)).

Lemma lm_dynamic self ip s :
  lm_ok self → dget ip (static_resources_by_ip self) = Some s →
  ∃ d, dget ip (dynamic_resources_by_ip self) = Some d ∧ dict_wf s ∧ dict_wf d ∧
    ∀ k, k ∈ dkeys s ↔ k ∈ dkeys d.
Proof.
  intros Hok Hs. destruct (dget ip (dynamic_resources_by_ip self)) as [d|] eqn:Hd.
  - exists d. split; [done|]. by eapply (ok_resources self Hok).
  - apply dget_None in Hd. rewrite (ok_dynamic self Hok) in Hd. destruct Hd.
    by eapply dget_elem_key.
Qed.

Lemma lm_values_wf self :
  lm_ok self → Forall dict_wf (dvalues (static_resources_by_ip self)) ∧
    Forall dict_wf (dvalues (dynamic_resources_by_ip self)).
Proof.
  intros Hok. assert (dict_wf (dynamic_resources_by_ip self)) as Hwf
    by (eapply dict_wf_keys; [apply ok_dynamic, Hok|apply ok_static, Hok]).
  split; apply Forall_forall; intros x ([ip d] & -> & Hin)%list_elem_of_fmap; cbn.
  - apply dget_elem in Hin; [|apply ok_static, Hok].
    by destruct (lm_dynamic self ip d Hok Hin) as (? & _ & ? & _).
  - assert (ip ∈ dkeys (static_resources_by_ip self)) as Hip.
    { rewrite <- (ok_dynamic self Hok). apply list_elem_of_fmap. by exists (ip, d). }
    apply din_spec in Hip. unfold din in Hip. destruct (dget ip (static_resources_by_ip self))
      as [s|] eqn:Hs; [|done]. apply dget_elem in Hin; [|done].
    destruct (lm_dynamic self ip s Hok Hs) as (d' & Hd' & _ & ? & _). by simplify_eq.
Qed.

Lemma total_reduce self k :
  lm_ok self →
  (dget_def k 0 (reduce_resources (dvalues (static_resources_by_ip self))) == total_of self k)%Q ∧
  (dget_def k 0 (reduce_resources (dvalues (dynamic_resources_by_ip self))) == available_of self k)%Q.
Proof.
  intros Hok. destruct (lm_values_wf self Hok). rewrite !reduce_get by done.
  rewrite !(dvalues_dkeys (V := ResourceDict) []), (ok_dynamic self Hok), <- !list_fmap_compose; [split; reflexivity|..].
  - eapply dict_wf_keys; [apply ok_dynamic, Hok|apply ok_static, Hok].
  - apply ok_static, Hok.
Qed.

(** Both sums name the same resources. *)
Lemma reduce_same_keys self k :
  lm_ok self → k ∈ dkeys (reduce_resources (dvalues (static_resources_by_ip self))) →
  k ∈ dkeys (reduce_resources (dvalues (dynamic_resources_by_ip self))).
Proof.
  intros Hok. rewrite !reduce_keys. intros (s & ([ip s'] & -> & Hin)%list_elem_of_fmap & Hk).
  apply dget_elem in Hin; [|apply ok_static, Hok].
  destruct (lm_dynamic self ip s' Hok Hin) as (d & Hd & _ & _ & Hsd). exists d. split; [|by apply Hsd].
  apply dget_Some_elem in Hd. apply list_elem_of_fmap. by exists (ip, d).
Qed.

Lemma usage_loop (avail : ResourceDict) (part : ResourceDict) (acc : dict string (Q * Q)) :
  dict_wf part → (∀ k, k ∈ dkeys part → k ∈ dkeys avail) →
  ∃ acc', foldM (usage_entry avail) acc part = Ok acc' ∧
    ∀ k, match dget k part with
         | Some t => ∃ u t', dget k acc' = Some (u, t') ∧ (t' == t)%Q ∧
                       (u == t - dget_def k 0 avail)%Q
         | None => dget k acc' = dget k acc
         end.
Proof.
  revert acc. induction part as [|[k0 t0] part IH]; cbn; intros acc Hwf Hsub; [by eauto|].
  unfold dict_wf, dkeys in Hwf. cbn in Hwf. apply NoDup_cons in Hwf as [Hk0 Hwf].
  assert (k0 ∈ dkeys avail) as Hav by (apply Hsub; left).
  apply din_spec in Hav. unfold din in Hav.
  destruct (dget k0 avail) as [a|] eqn:Ha; [|done].
  assert (∃ u t', usage_entry avail acc (k0, t0) = Ok (dset k0 (u, t') acc) ∧ (t' == t0)%Q ∧
    (u == t0 - a)%Q) as (u & t' & Hue & Ht' & Hu).
  { unfold usage_entry, dget_exn. rewrite Ha. cbn. unfold MEMORY_RESOURCE_UNIT_BYTES.
    case_decide; do 2 eexists; (split; [done|]); split; lra. }
  fold (usage_entry avail acc (k0, t0)). rewrite Hue. cbn.
  destruct (IH (dset k0 (u, t') acc) Hwf) as (acc' & Hf & Hget).
  { intros k Hk. apply Hsub. by right. }
  exists acc'. split; [done|]. intros k. specialize (Hget k). case_decide; [subst k|].
  - destruct (dget k0 part) as [t|] eqn:Hd; [by apply dget_elem_key in Hd|].
    rewrite Hget, dget_dset_eq. exists u, t'. unfold dget_def. rewrite Ha. done.
  - destruct (dget k part); [done|]. by rewrite Hget, dget_dset_ne.
Qed.

(** ** The usage loop *)

(** Both dicts of the usage name the same resources. *)
Definition usage_ok (u : usage_state) : Prop :=
  dkeys (resources_used u) = dkeys (resources_total u).

Lemma usage_resource_step (avail : ResourceDict) u mf k0 t0 a :
  usage_ok u → dget k0 avail = Some a →
  ∃ u1 mf1, usage_resource avail (u, mf) (k0, t0) = Ok (u1, mf1) ∧ usage_ok u1 ∧
    ∀ k, (k ∈ dkeys (resources_used u1) ↔ k = k0 ∨ k ∈ dkeys (resources_used u)) ∧
      (dget_def k 0 (resources_total u1) == dget_def k 0 (resources_total u)
         + if decide (k = k0) then t0 else 0)%Q ∧
      (dget_def k 0 (resources_used u1) == dget_def k 0 (resources_used u)
         + if decide (k = k0) then t0 - a else 0)%Q.
Proof.
  intros Hok Ha. unfold usage_resource, dget_exn, usage_ok in *. rewrite Ha. cbn.
  assert (din k0 (resources_used u) = din k0 (resources_total u)) as Hdin by (by apply din_keys).
  destruct (din k0 (resources_used u)) eqn:Hd; do 2 eexists; (split; [done|]); cbn.
  - split; [by rewrite !dkeys_dset, <- Hdin, Hd|]. intros k.
    rewrite elem_of_dkeys_dset, !dget_def_dset. split; [done|]. case_decide; subst; split; lra.
  - assert (dget_def k0 0%Q (resources_used u) = 0%Q ∧ dget_def k0 0%Q (resources_total u) = 0%Q)
      as [H1 H2].
    { split; apply dget_def_not_in; rewrite <- din_spec; congruence. }
    assert (∀ d : ResourceDict, din k0 (dset k0 0%Q d) = true) as Hin
      by (intros; unfold din; by rewrite dget_dset_eq).
    split; [by rewrite !dkeys_dset, !Hin, <- Hdin, Hd, Hok|]. intros k.
    rewrite !elem_of_dkeys_dset, !dget_def_dset. split; [tauto|].
    case_decide; subst; [|split; lra].
    rewrite !decide_True by done. rewrite H1, H2. split; lra.
Qed.

(** What the resources of one node add to the usage. *)
Lemma usage_resources_loop (avail part : ResourceDict) u mf :
  usage_ok u → dict_wf part → (∀ k, k ∈ dkeys part → k ∈ dkeys avail) →
  ∃ u' mf', foldM (usage_resource avail) (u, mf) part = Ok (u', mf') ∧ usage_ok u' ∧
    ∀ k, (k ∈ dkeys (resources_used u') ↔ k ∈ dkeys (resources_used u) ∨ k ∈ dkeys part) ∧
      (dget_def k 0 (resources_total u') == dget_def k 0 (resources_total u) + dget_def k 0 part)%Q ∧
      (dget_def k 0 (resources_used u') == dget_def k 0 (resources_used u)
         + if decide (k ∈ dkeys part) then dget_def k 0 part - dget_def k 0 avail else 0)%Q.
Proof.
  revert u mf. induction part as [|[k0 t0] part IH]; intros u mf Hok Hwf Hsub; cbn [foldM].
  - exists u, mf. split_and!; [done|done|]. intros k. change (dkeys (@nil (string * Q))) with (@nil string).
    change (dget_def k 0%Q []) with 0%Q.
    rewrite decide_False, elem_of_nil by apply not_elem_of_nil. split_and!; [tauto|lra|lra].
  - unfold dict_wf, dkeys in Hwf. cbn in Hwf. apply NoDup_cons in Hwf as [Hk0 Hwf].
    assert (k0 ∈ dkeys avail) as Hav by (apply Hsub; left).
    apply din_spec in Hav. unfold din in Hav. destruct (dget k0 avail) as [a|] eqn:Ha; [|done].
    destruct (usage_resource_step avail u mf k0 t0 a Hok Ha) as (u1 & mf1 & Hu1 & Hok1 & Hget1).
    rewrite Hu1. cbn. destruct (IH u1 mf1 Hok1 Hwf) as (u' & mf' & Hf & Hok' & Hget).
    { intros k Hk. apply Hsub. by right. }
    exists u', mf'. split_and!; [done|done|]. intros k.
    destruct (Hget k) as (Hk & Ht & Hu), (Hget1 k) as (Hk1 & Ht1 & Hus).
    assert (k ∈ dkeys ((k0, t0) :: part) ↔ k = k0 ∨ k ∈ dkeys part) as Hcons
      by (unfold dkeys; cbn; by rewrite elem_of_cons).
    split; [rewrite Hk, Hk1, Hcons; tauto|]. rewrite dget_def_cons.
    destruct (decide (k = k0)) as [->|Hne].
    + rewrite (dget_def_not_in k0 0%Q part Hk0) in Ht. rewrite decide_False in Hu by exact Hk0.
      rewrite decide_True by (by apply Hcons; left). unfold dget_def at 5. rewrite Ha. cbn. split; lra.
    + split; [lra|]. destruct (decide (k ∈ dkeys part)) as [Hin|Hin].
      * rewrite decide_True by tauto. lra.
      * rewrite decide_False by tauto. lra.
Qed.

Lemma dget_def_Some {V} (k : NodeIP) (dflt v : V) (d : dict NodeIP V) :
  dget k d = Some v → dget_def k dflt d = v.
Proof. unfold dget_def. by intros ->. Qed.

(** What one node adds. *)
Lemma usage_node_step self ip s d u :
  lm_ok self → usage_ok u → dget ip (static_resources_by_ip self) = Some s →
  dget ip (dynamic_resources_by_ip self) = Some d →
  ∃ u1, usage_node self u (ip, s) = Ok u1 ∧ usage_ok u1 ∧
    ∀ k, (k ∈ dkeys (resources_used u1) ↔ k ∈ dkeys (resources_used u) ∨ k ∈ dkeys s) ∧
      (dget_def k 0 (resources_total u1) == dget_def k 0 (resources_total u) + dget_def k 0 s)%Q ∧
      (dget_def k 0 (resources_used u1) == dget_def k 0 (resources_used u)
         + (dget_def k 0 s - dget_def k 0 d))%Q.
Proof.
  intros Hlm Hok Hs Hd. destruct (ok_resources self Hlm ip s d Hs Hd) as (Hwfs & _ & Hsd).
  assert (∃ ld, dget ip (resource_load_by_ip self) = Some ld) as [ld Hld].
  { destruct (dget ip (resource_load_by_ip self)) as [ld|] eqn:Hld; [by eauto|].
    apply dget_None in Hld. rewrite (ok_load self Hlm) in Hld. destruct Hld. by eapply dget_elem_key. }
  unfold usage_node, dget_exn. rewrite Hd, Hld. cbn.
  match goal with |- context [foldM _ (?v, ?f) s] =>
    destruct (usage_resources_loop d s v f) as (u' & mf' & Hf & Hok' & Hget);
      [by destruct (existsb _ (dvalues s))|done|by intros; apply Hsd|] end.
  rewrite Hf. cbn. eexists. split; [done|]. split; [by destruct (Qltb 0 mf')|].
  intros k. destruct (Hget k) as (Hk & Ht & Hu).
  assert (dget_def k 0 s - dget_def k 0 d == if decide (k ∈ dkeys s)
    then dget_def k 0 s - dget_def k 0 d else 0)%Q as Hdec.
  { case_decide as Hks; [reflexivity|]. rewrite (dget_def_not_in k 0%Q s Hks).
    rewrite (dget_def_not_in k 0%Q d) by (by rewrite <- Hsd). lra. }
  rewrite Hdec. by destruct (Qltb 0 mf'), (existsb _ (dvalues s)).
Qed.

(** The loop over the nodes. *)
Lemma usage_nodes_loop self (part : dict NodeIP ResourceDict) u :
  lm_ok self → usage_ok u → (∀ e, e ∈ part → e ∈ static_resources_by_ip self) →
  ∃ u', foldM (usage_node self) u part = Ok u' ∧ usage_ok u' ∧
    ∀ k, (k ∈ dkeys (resources_used u') ↔
          k ∈ dkeys (resources_used u) ∨ ∃ s, s ∈ dvalues part ∧ k ∈ dkeys s) ∧
      (dget_def k 0 (resources_total u') == dget_def k 0 (resources_total u)
         + sumQ (dget_def k 0%Q <$> dvalues part))%Q ∧
      (dget_def k 0 (resources_used u') == dget_def k 0 (resources_used u)
         + sumQ (dget_def k 0%Q <$> dvalues part)
         - sumQ ((λ ip, dget_def k 0%Q (dget_def ip [] (dynamic_resources_by_ip self)))
                   <$> dkeys part))%Q.
Proof.
  intros Hlm. revert u. induction part as [|[ip s] part IH]; intros u Hok Hin; cbn [foldM].
  - exists u. split_and!; [done|done|]. intros k. unfold dvalues, dkeys. cbn. split_and!; [|lra|lra].
    split; [by left|]. by intros [?|(e & ?%not_elem_of_nil & ?)].
  - assert (dget ip (static_resources_by_ip self) = Some s) as Hs
      by (apply dget_elem; [apply ok_static, Hlm|apply Hin; left]).
    destruct (lm_dynamic self ip s Hlm Hs) as (d & Hd & _).
    destruct (usage_node_step self ip s d u Hlm Hok Hs Hd) as (u1 & Hu1 & Hok1 & Hget1).
    rewrite Hu1. cbn. destruct (IH u1 Hok1) as (u' & Hf & Hok' & Hget).
    { intros e He. apply Hin. by right. }
    exists u'. split_and!; [done|done|]. intros k.
    destruct (Hget k) as (Hk & Ht & Hu), (Hget1 k) as (Hk1 & Ht1 & Hus).
    unfold dvalues, dkeys in *. cbn in *.
    assert (dget_def ip [] (dynamic_resources_by_ip self) = d) as Hdd by exact (dget_def_Some ip [] d _ Hd).
    unfold sumQ in Ht, Hu. rewrite Hdd, Hk, Hk1. split_and!; [|lra|lra]. split.
    + intros [[?|?]|(s' & Hs' & ?)]; [by left|right; exists s|right; exists s'];
        (split; [|done]); [left|by right].
    + intros [?|(s' & [->|Hs']%elem_of_cons & ?)]; [by auto..|]. right. by exists s'.
Qed.

(** ** Counting *)

Section freq_lemmas.
Context {D : Type} (same : D → D → bool).

(** The number of elements counted under [d]. *)
Definition class_size (d : D) (l : list D) : Z := len (List.filter (same d) l).

Lemma class_size_snoc d l x : class_size d (l ++ [x]) = class_size d l + if same d x then 1 else 0.
Proof.
  unfold class_size. rewrite List.filter_app, len_app. cbn. by destruct (same d x).
Qed.

Lemma count_in_cases x freqs :
  (∃ pre d n post, freqs = pre ++ (d, n) :: post ∧ same d x = true ∧
     count_in same x freqs = pre ++ (d, n + 1) :: post) ∨
  (Forall (λ e, same e.1 x = false) freqs ∧ count_in same x freqs = freqs ++ [(x, 1)]).
Proof.
  induction freqs as [|[d n] freqs IH]; cbn; [by right|].
  destruct (same d x) eqn:Hs; [by left; exists [], d, n, freqs|].
  destruct IH as [(pre & d' & n' & post & -> & Hs' & ->)|[Hall ->]].
  - left. exists ((d, n) :: pre), d', n', post. done.
  - right. split; [|done]. by constructor.
Qed.

Hypothesis same_refl : ∀ x, same x x = true.
Hypothesis same_sym : ∀ x y, same x y = true → same y x = true.
Hypothesis same_trans : ∀ x y z, same x y = true → same y z = true → same x z = true.

(** Every entry has the size of its class, every element has an entry, no two
    entries are of the same class. *)
Definition counted (freqs : list (D * Z)) (l : list D) : Prop :=
  (∀ d n, (d, n) ∈ freqs → n = class_size d l) ∧
  (∀ x, x ∈ l → ∃ d n, (d, n) ∈ freqs ∧ same d x = true) ∧
  StronglySorted (λ d d', same d d' = false) freqs.*1.

Lemma same_split d d' x : same d x = true → same d d' = false → same d' x = false.
Proof.
  clear same_refl. intros Hx Hd. apply not_true_iff_false. intros Hx'.
  rewrite <- not_true_iff_false in Hd. eauto.
Qed.

Lemma counted_found pre d n post l x :
  counted (pre ++ (d, n) :: post) l → same d x = true →
  counted (pre ++ (d, n + 1) :: post) (l ++ [x]).
Proof.
  intros (Hn & Hcov & Hdis) Hs.
  assert (∀ d' n', (d', n') ∈ pre ++ post → same d' x = false) as Hother.
  { rewrite fmap_app in Hdis. intros d' n' [Hin|Hin]%elem_of_app.
    - assert (same d' d = false) as H0.
      { eapply (StronglySorted_app_1_elem_of _ _ _ d' d Hdis); [|left].
        apply list_elem_of_fmap. by exists (d', n'). }
      apply not_true_iff_false. intros Hx. rewrite <- not_true_iff_false in H0. eauto.
    - apply (same_split d); [done|]. apply StronglySorted_app_1_r in Hdis.
      inversion_clear Hdis as [|? ? _ Hd]. rewrite Forall_forall in Hd. apply Hd.
      apply list_elem_of_fmap. by exists (d', n'). }
  split_and!.
  - intros d' n'. rewrite elem_of_app, elem_of_cons, class_size_snoc. intros Hin.
    assert ((d', n') ∈ pre ++ post ∨ (d', n') = (d, n + 1)) as [Hin'|[= -> ->]]
      by (rewrite elem_of_app; tauto).
    + rewrite (Hother _ _ Hin'), (Hn d' n'); [lia|]. rewrite elem_of_app, elem_of_cons.
      apply elem_of_app in Hin'. tauto.
    + rewrite Hs, <- (Hn d n); [lia|]. rewrite elem_of_app. right. left.
  - intros y [Hy| ->%list_elem_of_singleton]%elem_of_app.
    + destruct (Hcov y Hy) as (d' & n' & Hin & Hsame).
      rewrite elem_of_app, elem_of_cons in Hin.
      destruct Hin as [Hin|[[= -> ->]|Hin]]; [exists d', n'|exists d, (n + 1)|exists d', n'];
        rewrite elem_of_app, elem_of_cons; tauto.
    + exists d, (n + 1). rewrite elem_of_app, elem_of_cons. tauto.
  - rewrite fmap_app in *. exact Hdis.
Qed.

Lemma counted_new freqs l x :
  counted freqs l → Forall (λ e, same e.1 x = false) freqs → counted (freqs ++ [(x, 1)]) (l ++ [x]).
Proof.
  intros (Hn & Hcov & Hdis) Hall. rewrite Forall_forall in Hall. split_and!.
  - intros d n [Hin|[= -> ->]%list_elem_of_singleton]%elem_of_app; rewrite class_size_snoc.
    + rewrite (Hall _ Hin : same d x = false), (Hn d n Hin). lia.
    + rewrite same_refl. unfold class_size. rewrite list_filter_nil; [done|].
      intros y Hy. destruct (Hcov y Hy) as (d & n & Hin & Hs). apply not_true_iff_false. intros Hx.
      specialize (Hall _ Hin). cbn in Hall. rewrite <- not_true_iff_false in Hall. eauto.
  - intros y [Hy| ->%list_elem_of_singleton]%elem_of_app.
    + destruct (Hcov y Hy) as (d & n & Hin & Hs). exists d, n. rewrite elem_of_app. auto.
    + exists x, 1. rewrite elem_of_app. split; [right; left|done].
  - rewrite fmap_app. apply StronglySorted_app. split_and!; [|done|by repeat constructor].
    intros d d' (e & -> & He)%list_elem_of_fmap ->%list_elem_of_singleton. by apply Hall.
Qed.

Lemma freq_counted l : counted (freq_of_dicts same l) l.
Proof.
  unfold freq_of_dicts. induction l as [|x l IH] using rev_ind; cbn.
  - split_and!; [by intros ? ? ?%not_elem_of_nil|by intros ? ?%not_elem_of_nil|constructor].
  - rewrite fold_left_app. cbn.
    destruct (count_in_cases x (fold_left (λ freqs d, count_in same d freqs) l []))
      as [(pre & d & n & post & Hf & Hs & ->)|[Hall ->]].
    + apply counted_found; [|done]. by rewrite <- Hf.
    + by apply counted_new.
Qed.
End freq_lemmas.

(** ** The time of last use *)

(** A heartbeat that reports every resource of the node as available. *)
Definition reports_idle (hb : Heartbeat) : bool :=
  res_eqb (hb_static hb) (dynamic_resources_update (hb_static hb) (hb_dynamic hb)).

(** The clock readings of a history do not decrease; [last_clock] is the last one. *)
Definition op_clock (t : Q) (o : op) : Q :=
  match o with Update _ _ now | MarkActive _ now => now | _ => t end.

Fixpoint clock_ok (t : Q) (ops : list op) : Prop :=
  match ops with
  | [] => True
  | o :: ops => (t <= op_clock t o)%Q ∧ clock_ok (op_clock t o) ops
  end.

Definition last_clock (t : Q) (ops : list op) : Q := fold_left op_clock ops t.

Lemma metrics_clock_snoc o ops t :
  clock_ok t (ops ++ [o]) → clock_ok t ops ∧ (last_clock t ops <= op_clock (last_clock t ops) o)%Q.
Proof.
  unfold last_clock. revert t. induction ops as [|o' ops IH]; cbn; intros t.
  - intros [? _]. done.
  - intros [? Hc]. destruct (IH _ Hc). auto.
Qed.

(** The times recorded are readings of the past, and heartbeats that are younger
    than the time of last use reported the node idle. *)
Definition used_ok (ops : list op) (T : Q) (self : LoadMetrics) : Prop :=
  (∀ ip hb now, Update ip hb now ∈ ops → (now <= T)%Q) ∧
  (∀ ip t, dget ip (last_used_time_by_ip self) = Some t → (t <= T)%Q ∧
     ∀ hb now, Update ip hb now ∈ ops → (t < now)%Q → reports_idle hb = true).

Lemma used_ok_other ops o T T' self self' :
  (T <= T')%Q → (∀ ip hb now, o ≠ Update ip hb now) → used_ok ops T self →
  (∀ ip t, dget ip (last_used_time_by_ip self') = Some t →
     dget ip (last_used_time_by_ip self) = Some t) →
  used_ok (ops ++ [o]) T' self'.
Proof.
  intros HT Ho [Hnow Hused] Hsub.
  assert (∀ ip hb now, Update ip hb now ∈ ops ++ [o] → Update ip hb now ∈ ops) as Hin.
  { intros ip hb now [?|Heq%list_elem_of_singleton]%elem_of_app; [done|]. by destruct (Ho ip hb now). }
  split.
  - intros ip hb now Hi. specialize (Hnow _ _ _ (Hin _ _ _ Hi)). lra.
  - intros ip t Ht%Hsub. destruct (Hused ip t Ht) as [? Hidle]. split; [lra|].
    intros hb now Hi. by apply Hidle, Hin.
Qed.

Lemma used_ok_update ops T self ip hb now :
  (T <= now)%Q → used_ok ops T self → used_ok (ops ++ [Update ip hb now]) now (update self ip hb now).
Proof.
  intros HT [Hnow Hused].
  assert (∀ ip' hb' now', Update ip' hb' now' ∈ ops ++ [Update ip hb now] →
    Update ip' hb' now' ∈ ops ∨ (ip' = ip ∧ hb' = hb ∧ now' = now)) as Hin.
  { intros ip' hb' now' [?|[= -> -> ->]%list_elem_of_singleton]%elem_of_app; auto. }
  split.
  - intros ip' hb' now' [Hi|(-> & -> & ->)]%Hin; [specialize (Hnow _ _ _ Hi)|]; lra.
  - intros ip' t. cbn. fold (reports_idle hb). destruct (negb _ || negb (reports_idle hb)) eqn:Hb.
    + rewrite dget_dset. case_decide as Hip; [subst ip'; intros [= <-]|].
      * split; [lra|]. intros hb' now' [Hi|(_ & -> & ->)]%Hin; [specialize (Hnow _ _ _ Hi)|]; lra.
      * intros Ht. destruct (Hused ip' t Ht) as [? Hidle]. split; [lra|].
        intros hb' now' [Hi|(-> & _ & _)]%Hin; [by apply Hidle|done].
    + apply orb_false_iff in Hb as [_ Hidle%negb_false_iff]. intros Ht.
      destruct (Hused ip' t Ht) as [? Hold]. split; [lra|].
      intros hb' now' [Hi|(-> & -> & ->)]%Hin; [by apply Hold|done].
Qed.

Lemma run_used_ok ops : ∀ t0 lm,
  Forall op_ok ops → clock_ok t0 ops → foldM run_op lm_init ops = Ok lm →
  used_ok ops (last_clock t0 ops) lm.
Proof.
  induction ops as [|o ops IH] using rev_ind; intros t0 lm Hops Hc Hrun.
  - cbn in Hrun. inv_ok. split; [by intros ? ? ? ?%not_elem_of_nil|done].
  - apply Forall_app in Hops as [Hops _].
    apply metrics_clock_snoc in Hc as [Hc Hle]. rewrite foldM_app in Hrun.
    apply bind_Ok in Hrun as (lm1 & Hrun & Ho1). cbn in Ho1. inv_ok.
    specialize (IH t0 lm1 Hops Hc Hrun). unfold last_clock at 1. rewrite fold_left_app. cbn.
    fold (last_clock t0 ops). destruct o; cbn in *; inv_ok.
    + by apply (used_ok_update ops (last_clock t0 ops)).
    + by eapply used_ok_other.
    + destruct (reachable_ok ops Hops) as (lm' & Hrun' & Hok). rewrite Hrun in Hrun'. inv_ok.
      destruct (prune_active_ips_spec lm' active_ips Hok) as (lm2 & Hp & _ & Hu & _).
      assert (lm2 = lm) as -> by congruence. eapply used_ok_other; [done|done|exact IH|]. intros ip t.
      rewrite Hu, dget_dfilter. by case_bool_decide.
    + by eapply used_ok_other.
Qed.

(** ** The summary *)

Lemma deserialize_total freqs :
  Forall (λ e : PlacementGroupTableData * Z, is_Ok (strategy_name (pg_strategy e.1))) freqs →
  ∀ acc, ∃ acc',
    foldM (λ acc '(pg, count), d ← placement_group_deserializer pg; Ok (acc ++ [(d, count)]))
      acc freqs = Ok acc'.
Proof.
  induction 1 as [|[pg n] freqs [name Hname] _ IH]; intros acc; [by eexists|].
  cbn [foldM]. unfold placement_group_deserializer. cbn [fst] in Hname. rewrite Hname. apply IH.
Qed.

Lemma count_in_sub {D} (same : D → D → bool) x freqs e :
  e ∈ count_in same x freqs → e.1 = x ∨ e.1 ∈ freqs.*1.
Proof.
  intros He. destruct (count_in_cases same x freqs) as [(pre & d & n & post & -> & _ & Hc)|[_ Hc]];
    rewrite Hc in He; rewrite ?fmap_app; rewrite ?elem_of_app in *; cbn; rewrite ?elem_of_cons in *.
  - destruct He as [He|[->|He]]; right; [left|by right; left|right; right];
      apply list_elem_of_fmap; by exists e.
  - destruct He as [He|[->|[]%not_elem_of_nil]]; [right|by left]. apply list_elem_of_fmap. by exists e.
Qed.

Lemma freq_sub {D} (same : D → D → bool) l e : e ∈ freq_of_dicts same l → e.1 ∈ l.
Proof.
  unfold freq_of_dicts. revert e. induction l as [|x l IH] using rev_ind; cbn; intros e He.
  - by apply not_elem_of_nil in He.
  - rewrite fold_left_app in He. cbn in He. apply count_in_sub in He as [->|He].
    + rewrite elem_of_app. right. left.
    + apply list_elem_of_fmap in He as (e' & -> & He'). rewrite elem_of_app. left. by apply IH.
Qed.

(** The summary of a well-formed state: its usage entries. *)
Lemma summary_spec self :
  lm_ok self → ∃ s, summary self = Ok s ∧
    ∀ k, match dget k (usage s) with
         | Some (u, t) => (t == total_of self k)%Q ∧ (u == total_of self k - available_of self k)%Q ∧
                          k ∈ dkeys (reduce_resources (dvalues (static_resources_by_ip self)))
         | None => k ∉ dkeys (reduce_resources (dvalues (static_resources_by_ip self)))
         end.
Proof.
  intros Hok. unfold summary. destruct (lm_values_wf self Hok) as [Hwf _].
  destruct (usage_loop (reduce_resources (dvalues (dynamic_resources_by_ip self)))
    (reduce_resources (dvalues (static_resources_by_ip self))) []) as (us & Hus & Hget).
  { by apply reduce_wf. }
  { intros k. by apply reduce_same_keys. }
  rewrite Hus. cbn.
  destruct (deserialize_total (freq_of_dicts pg_same (pending_placement_groups self))) with
    (acc := @nil (PgDemand * Z)) as [pgs Hpgs].
  { apply Forall_forall. intros e He%freq_sub. pose proof (ok_strategies self Hok) as Hst.
    rewrite Forall_forall in Hst. by apply Hst. }
  rewrite Hpgs. cbn. eexists. split; [done|]. cbn. intros k. specialize (Hget k).
  destruct (total_reduce self k Hok) as [Ht Ha].
  destruct (dget k (reduce_resources _)) as [t|] eqn:Hk.
  - destruct Hget as (u & t' & -> & Ht' & Hu). unfold dget_def at 1 in Ht. rewrite Hk in Ht. cbn in Ht.
    split_and!; [lra|lra|by eapply dget_elem_key].
  - rewrite Hget. cbn. by apply dget_None.
Qed.

(** * The properties *)

(** On every history of heartbeats, marks, prunings and requests, the two
    readings of the cluster's usage are total and agree: [_get_resource_usage],
    which loops over nodes and resources, and [summary], which adds up dicts, name the
    same resources, with the same used and the same total amounts. *)
Theorem usage_readings_agree ops :
  Forall op_ok ops →
  ∃ lm used total s, foldM run_op lm_init ops = Ok lm ∧
    _get_resource_usage lm = Ok (used, total) ∧ summary lm = Ok s ∧
    ∀ k, (k ∈ dkeys used ↔ k ∈ dkeys (usage s)) ∧
      ∀ u t, dget k (usage s) = Some (u, t) →
        (u == dget_def k 0 used)%Q ∧ (t == dget_def k 0 total)%Q.
Proof.
  intros Hops. destruct (reachable_ok ops Hops) as (lm & Hrun & Hok).
  destruct (summary_spec lm Hok) as (s & Hs & Hus). unfold _get_resource_usage.
  destruct (usage_nodes_loop lm (static_resources_by_ip lm)
    {| num_nodes := 0; num_nonidle := 0; resources_used := []; resources_total := [] |})
    as (u' & Hf & _ & Hget); [done..|].
  exists lm, (resources_used u'), (resources_total u'), s. rewrite Hf. split_and!; [done..|].
  intros k. specialize (Hus k). destruct (Hget k) as (Hk & Ht & Hu). cbn in Hk, Ht, Hu.
  rewrite <- reduce_keys in Hk. destruct (lm_values_wf lm Hok) as [Hwf _].
  rewrite <- reduce_get in Ht, Hu by done. destruct (total_reduce lm k Hok) as [Ht' _].
  change (dget_def k 0%Q []) with 0%Q in Ht, Hu. fold (available_of lm k) in Hu. split.
  - rewrite Hk, <- (din_spec k (usage s)). unfold din.
    destruct (dget k (usage s)) as [[u t]|]; [tauto|]. split; [|done].
    intros [?%not_elem_of_nil|?]; tauto.
  - intros u t Hd. rewrite Hd in Hus. destruct Hus as (Ht2 & Hu2 & _). split; lra.
Qed.

(** The time of last use means what it says: on a clock that does not run
    backwards, every heartbeat of a node after the node's recorded time of last use
    reported all its resources as free, across prunings and reconnections. *)
Theorem last_use_sound ops t0 lm ip t hb now :
  Forall op_ok ops → clock_ok t0 ops → foldM run_op lm_init ops = Ok lm →
  dget ip (last_used_time_by_ip lm) = Some t →
  Update ip hb now ∈ ops → (t < now)%Q → reports_idle hb = true.
Proof.
  intros Hops Hc Hrun Ht. destruct (run_used_ok ops t0 lm Hops Hc Hrun) as [_ Hu].
  exact (proj2 (Hu ip t Ht) hb now).
Qed.

(** Pruning leaves exactly the nodes the provider knows: after it, a node is
    known to the load metrics if and only if it was and is among the given
    ips, and what is known of it is unchanged. *)
Theorem prune_exact ops lm active :
  Forall op_ok ops → foldM run_op lm_init ops = Ok lm →
  ∃ lm', prune_active_ips lm active = Ok lm' ∧ lm_ok lm' ∧
    ∀ ip, is_active lm' ip = is_active lm ip && bool_decide (ip ∈ active) ∧
      dget ip (static_resources_by_ip lm')
        = (if decide (ip ∈ active) then dget ip (static_resources_by_ip lm) else None) ∧
      dget ip (last_used_time_by_ip lm')
        = (if decide (ip ∈ active) then dget ip (last_used_time_by_ip lm) else None).
Proof.
  intros Hops Hrun. destruct (reachable_ok ops Hops) as (lm1 & Hrun1 & Hok).
  assert (lm1 = lm) as -> by congruence.
  destruct (prune_active_ips_spec lm active Hok) as (lm' & Hp & Hok' & Hu & Hh & Hs & _).
  exists lm'. split_and!; [done|done|]. intros ip. unfold is_active, din. rewrite Hh, Hs, Hu.
  rewrite !dget_dfilter. destruct (decide (ip ∈ active)).
  - rewrite bool_decide_true by done. by rewrite andb_true_r.
  - rewrite bool_decide_false by done. by rewrite andb_false_r.
Qed.

(** The demand vector handed to the scheduler is bounded, whatever the raylets report. *)
Theorem demand_vector_bounded lm :
  len (get_resource_demand_vector lm true) <= 2 * AUTOSCALER_MAX_RESOURCE_DEMAND_VECTOR_SIZE.
Proof.
  unfold get_resource_demand_vector, AUTOSCALER_MAX_RESOURCE_DEMAND_VECTOR_SIZE.
  rewrite len_app, !py_slice_take by lia. unfold len. rewrite !length_take. lia.
Qed.

(** The demand counts of a summary are exact, for any equivalence in the place of
    the serializer: every entry carries the size of its class, every demand has an
    entry, and no two entries are of the same class. *)
Theorem freq_of_dicts_exact {D} (same : D → D → bool) (l : list D) :
  (∀ x, same x x = true) → (∀ x y, same x y = true → same y x = true) →
  (∀ x y z, same x y = true → same y z = true → same x z = true) →
  let freqs := freq_of_dicts same l in
  (∀ d n, (d, n) ∈ freqs → n = len (List.filter (same d) l)) ∧
  (∀ x, x ∈ l → ∃ d n, (d, n) ∈ freqs ∧ same d x = true) ∧
  StronglySorted (λ d d', same d d' = false) freqs.*1.
Proof. intros Hr Hs Ht. exact (freq_counted same Hr Hs Ht l). Qed.

(** A request of [None], which the assertion lets pass, raises. *)
Theorem none_request_raises lm : set_resource_requests lm None = Err TypeError.
Proof. reflexivity. Qed.

(** ** The properties at concrete inputs *)

Module LoadMetricsExamples.
Definition heartbeat (free : Q) : Heartbeat :=
  {| hb_raylet_id := "r"; hb_static := [("CPU"%string, 4%Q)]; hb_dynamic := [("CPU"%string, free)];
     hb_load := []; hb_waiting := None; hb_infeasible := None; hb_pending_pgs := None;
     hb_full_of_actors := false |}.

Definition history : list op :=
  [Update "a" (heartbeat 1) 100; Update "b" (heartbeat 4) 150; Update "a" (heartbeat 4) 200].

Definition metrics : LoadMetrics :=
  match foldM run_op lm_init history with Ok lm => lm | Err _ => lm_init end.
End LoadMetricsExamples.

Lemma example_ops_ok : Forall op_ok LoadMetricsExamples.history.
Proof.
  assert (∀ q, heartbeat_ok (LoadMetricsExamples.heartbeat q)) as Hhb.
  { intros q. unfold heartbeat_ok, dict_wf, dkeys. cbn.
    split_and!; [apply NoDup_singleton|apply NoDup_singleton|done|done]. }
  repeat apply List.Forall_cons; try apply List.Forall_nil; apply Hhb.
Qed.

Lemma usage_readings_agree_witness :
  ∃ lm s, foldM run_op lm_init LoadMetricsExamples.history = Ok lm ∧ summary lm = Ok s.
Proof.
  destruct (usage_readings_agree LoadMetricsExamples.history example_ops_ok)
    as (lm & used & total & s & Hrun & _ & Hs & _).
  exists lm, s. split; [exact Hrun|exact Hs].
Defined.

Lemma last_use_sound_witness : reports_idle (LoadMetricsExamples.heartbeat 4) = true.
Proof.
  apply (last_use_sound LoadMetricsExamples.history 0 LoadMetricsExamples.metrics "a" 100
    (LoadMetricsExamples.heartbeat 4) 200).
  - exact example_ops_ok.
  - cbn. repeat split; unfold Qle; cbn; lia.
  - reflexivity.
  - reflexivity.
  - unfold LoadMetricsExamples.history. set_solver.
  - reflexivity.
Defined.

Lemma prune_exact_witness :
  ∃ lm', prune_active_ips LoadMetricsExamples.metrics ["a"%string] = Ok lm' ∧
    dget "b"%string (static_resources_by_ip lm') = None.
Proof.
  destruct (prune_exact LoadMetricsExamples.history LoadMetricsExamples.metrics ["a"%string])
    as (lm' & Hp & _ & Hget).
  - exact example_ops_ok.
  - reflexivity.
  - exists lm'. split; [exact Hp|exact (proj1 (proj2 (Hget "b"%string)))].
Defined.

Lemma freq_of_dicts_exact_witness :
  ∀ d n, (d, n) ∈ freq_of_dicts Z.eqb [1; 2; 1] → n = len (List.filter (Z.eqb d) [1; 2; 1]).
Proof.
  apply (freq_of_dicts_exact Z.eqb [1; 2; 1]).
  - exact Z.eqb_refl.
  - intros x y. rewrite !Z.eqb_eq. congruence.
  - intros x y z. rewrite !Z.eqb_eq. congruence.
Defined.
