(* ===== verification/AutoscalerTrackers.v ===== *)
(** * The autoscaler's trackers (autoscaler/_private/)

    Three small stores of the autoscaler: [NodeTracker] of [node_tracker.py]
    (the nodes whose failure is to be reported), [EventSummarizer] of
    [event_summarizer.py] (the messages of the next summary, with their
    throttling) and [NodeProviderAvailabilityTracker] of
    [node_provider_availability_tracker.py] (which node types the cloud could
    deliver, with a time to live).  Each reading of the clock is an argument.  The
    locks are not modelled: each method runs under one. *)
From S2P Require Import Prelude PyStrings PyLists BinPack DemandScheduler.
From stdpp Require Import base tactics list gmap strings.
From Stdlib Require Import QArith Lqa Ascii.

#[local] Open Scope Z_scope.

Module NodeTracker.

Abbreviation NodeInfo := (NodeIP * NodeType)%type.

Record NodeTracker := {
  node_mapping : dict NodeID NodeInfo;
  lru_order : list NodeID;
}.

Definition init : NodeTracker := {| node_mapping := []; lru_order := [] |}.

Definition set_lru (l : list NodeID) (self : NodeTracker) : NodeTracker :=
  {| node_mapping := node_mapping self; lru_order := l |}.
Definition set_mapping (d : dict NodeID NodeInfo) (self : NodeTracker) : NodeTracker :=
  {| node_mapping := d; lru_order := lru_order self |}.

(** [constants.AUTOSCALER_MAX_NODES_TRACKED]; the methods take the bound as an
    argument, so that what is shown holds for every bound. *)
Definition AUTOSCALER_MAX_NODES_TRACKED : Z := 1500.

(** [self.lru_order.pop(0)] *)
Definition pop_lru : ST NodeTracker NodeID :=
  self ← st_get;
  match lru_order self with
  | [] => st_raise IndexError
  | node_id :: l => _ ← st_modify (set_lru l); mret node_id
  end.

(** [del self.node_mapping[node_id]] *)
Definition del_mapping (node_id : NodeID) : ST NodeTracker unit :=
  self ← st_get;
  if din node_id (node_mapping self)
  then st_modify (set_mapping (ddel node_id (node_mapping self)))
  else st_raise KeyError.

(** [self.lru_order.remove(node_id)] *)
Definition remove_lru (node_id : NodeID) : ST NodeTracker unit :=
  self ← st_get;
  match list_find (node_id =.) (lru_order self) with
  | Some (i, _) => st_modify (set_lru (delete i (lru_order self)))
  | None => st_raise ValueError
  end.

Section with_bound.
Context (max_tracked : Z).

(** In the eviction case the assignment is to the parameter [node_id]: it is
    the evicted id that the last two lines use. *)
Definition _add_node_mapping (node_id : NodeID) (value : NodeInfo) : ST NodeTracker unit :=
  self ← st_get;
  if din node_id (node_mapping self) then mret tt
  else
    _ ← st_lift (py_assert (len (lru_order self) =? len (node_mapping self)));
    node_id ← (if max_tracked <=? len (lru_order self) then
                 node_id ← pop_lru;
                 _ ← del_mapping node_id;
                 mret node_id
               else mret node_id);
    self ← st_get;
    _ ← st_modify (set_mapping (dset node_id value (node_mapping self)));
    st_modify (set_lru (lru_order self ++ [node_id])).

Definition track (node_id : NodeID) (ip : NodeIP) (node_type : NodeType) : ST NodeTracker unit :=
  self ← st_get;
  if din node_id (node_mapping self) then mret tt
  else _add_node_mapping node_id (ip, node_type).

Definition untrack (node_id : NodeID) : ST NodeTracker unit :=
  self ← st_get;
  if din node_id (node_mapping self) then
    _ ← remove_lru node_id;
    del_mapping node_id
  else mret tt.

(** [self.node_mapping.keys() - non_failed_ids], read through membership. *)
Definition get_all_failed_node_info (self : NodeTracker) (non_failed_ids : gset NodeID) :
    result (list NodeInfo) :=
  let failed (node_id : NodeID) :=
    din node_id (node_mapping self) && negb (bool_decide (node_id ∈ non_failed_ids)) in
  foldM (λ failed_info node_id,
    info ← dget_exn node_id (node_mapping self);
    Ok (failed_info ++ [info])) [] (List.filter failed (lru_order self)).

(** ** Lemmas *)

(** The two views of the tracked nodes agree, in order, and the bound holds. *)
Definition tracker_ok (self : NodeTracker) : Prop :=
  dict_wf (node_mapping self) ∧ lru_order self = dkeys (node_mapping self) ∧
  len (node_mapping self) <= max_tracked.

Inductive op := Track (node_id : NodeID) (ip : NodeIP) (node_type : NodeType)
  | Untrack (node_id : NodeID).

Definition run_op (o : op) : ST NodeTracker unit :=
  match o with Track i ip nt => track i ip nt | Untrack i => untrack i end.
End with_bound.

Lemma len_dkeys {K V} (d : dict K V) : len (dkeys d) = len d.
Proof. unfold dkeys. apply len_fmap. Qed.

Lemma dset_new {K V} `{EqDecision K} (k : K) (v : V) (d : dict K V) :
  din k d = false → dset k v d = d ++ [(k, v)].
Proof. intros Hd. apply dset_fresh. rewrite <- din_spec. congruence. Qed.

(** Removing a key from the list of keys and from the dict. *)
Lemma dkeys_ddel {K V} `{EqDecision K} (k : K) (d : dict K V) :
  din k d = true → ∃ i, list_find (k =.) (dkeys d) = Some (i, k) ∧
    delete i (dkeys d) = dkeys (ddel k d).
Proof.
  unfold din, dkeys. induction d as [|[k' v'] d IH]; cbn; [done|].
  destruct (decide (k = k')) as [<-|Hne].
  - intros _. by exists 0%nat.
  - intros Hin. destruct (IH Hin) as (i & Hf & Hd). exists (S i).
    rewrite Hf. split; [done|]. cbn. f_equal. exact Hd.
Qed.

Lemma len_ddel {K V} `{EqDecision K} (k : K) (d : dict K V) :
  din k d = true → len (ddel k d) = len d - 1.
Proof.
  unfold din, len. induction d as [|[k' v'] d IH]; cbn; [done|].
  case_decide; cbn; [lia|]. intros Hin. specialize (IH Hin). lia.
Qed.

Section lemmas.
Context (max_tracked : Z).
Implicit Types (self : NodeTracker).

(** Below the bound a new node is appended. *)
Lemma track_room self i ip nt :
  tracker_ok max_tracked self → din i (node_mapping self) = false →
  len (node_mapping self) < max_tracked →
  track max_tracked i ip nt self
  = ({| node_mapping := node_mapping self ++ [(i, (ip, nt))];
        lru_order := lru_order self ++ [i] |}, Ok tt).
Proof.
  intros (_ & Hl & _) Hi Hlen. unfold track, _add_node_mapping, mbind, st_bind, st_get. cbn.
  rewrite Hi. cbn. rewrite Hi, Hl, len_dkeys, Z.eqb_refl. cbn.
  destruct (Z.leb_spec max_tracked (len (node_mapping self))); [lia|]. cbn.
  unfold set_lru, set_mapping. cbn. by rewrite dset_new, Hl.
Qed.

(** At the bound the oldest entry gives its id, not its place: the id stays and
    takes over the value of the new node. *)
Lemma track_full self i ip nt old info rest :
  tracker_ok max_tracked self → din i (node_mapping self) = false →
  node_mapping self = (old, info) :: rest → len (node_mapping self) = max_tracked →
  track max_tracked i ip nt self
  = ({| node_mapping := rest ++ [(old, (ip, nt))]; lru_order := dkeys rest ++ [old] |}, Ok tt).
Proof.
  intros (Hwf & Hl & _) Hi Hm Hlen. unfold track, _add_node_mapping, mbind, st_bind, st_get. cbn.
  rewrite Hi. cbn. rewrite Hi, Hl, len_dkeys, Z.eqb_refl. cbn.
  destruct (Z.leb_spec max_tracked (len (node_mapping self))); [|lia]. cbn.
  unfold pop_lru, del_mapping, mbind, st_bind, st_get, st_modify, mret, st_ret.
  rewrite Hl, Hm. unfold dkeys at 1. cbn. rewrite Hm.
  assert (din old ((old, info) :: rest) = true) as -> by (unfold din; cbn; by rewrite decide_True).
  cbn. rewrite decide_True by done. rewrite dset_new; [done|].
  unfold dict_wf, dkeys in Hwf. rewrite Hm in Hwf. cbn in Hwf. apply NoDup_cons in Hwf as [Hn _].
  apply not_true_iff_false. rewrite din_spec. exact Hn.
Qed.

Lemma untrack_known self i :
  tracker_ok max_tracked self → din i (node_mapping self) = true →
  untrack i self
  = ({| node_mapping := ddel i (node_mapping self);
        lru_order := dkeys (ddel i (node_mapping self)) |}, Ok tt).
Proof.
  intros (_ & Hl & _) Hi. unfold untrack, remove_lru, del_mapping, mbind, st_bind, st_get. cbn.
  rewrite Hi. cbn. destruct (dkeys_ddel i (node_mapping self) Hi) as (n & Hf & Hd).
  rewrite Hl, Hf. cbn. rewrite Hi. unfold st_modify, set_mapping. cbn. by rewrite Hd.
Qed.

Lemma tracker_ok_init : 0 <= max_tracked → tracker_ok max_tracked init.
Proof. intros. split_and!; [constructor|done|done]. Qed.

Lemma track_known self i ip nt :
  din i (node_mapping self) = true → track max_tracked i ip nt self = (self, Ok tt).
Proof. intros Hi. unfold track, mbind, st_bind, st_get. cbn. by rewrite Hi. Qed.

Lemma untrack_unknown self i : din i (node_mapping self) = false → untrack i self = (self, Ok tt).
Proof. intros Hi. unfold untrack, mbind, st_bind, st_get. cbn. by rewrite Hi. Qed.

Lemma track_ok self i ip nt :
  0 < max_tracked → tracker_ok max_tracked self →
  ∃ self', track max_tracked i ip nt self = (self', Ok tt) ∧ tracker_ok max_tracked self'.
Proof.
  intros Hpos Hok. destruct (din i (node_mapping self)) eqn:Hi; [by rewrite track_known; eauto|].
  pose proof Hok as (Hwf & Hl & Hlen).
  destruct (decide (len (node_mapping self) < max_tracked)) as [Hlt|Hge].
  - rewrite track_room by done. eexists. split; [done|]. unfold tracker_ok. cbn.
    rewrite <- (dset_new i (ip, nt)), dkeys_dset, Hi by done. split_and!.
    + by apply dset_wf.
    + by rewrite Hl.
    + rewrite dset_new by done. unfold len in *. rewrite length_app. cbn. lia.
  - destruct (node_mapping self) as [|[old info] rest] eqn:Hm.
    { unfold len in Hge. cbn in Hge. lia. }
    rewrite <- Hm in *. erewrite track_full by (done || lia). eexists. split; [done|].
    unfold tracker_ok. cbn. unfold dict_wf, dkeys in *. rewrite Hm in Hwf, Hlen. cbn in Hwf.
    rewrite fmap_app. cbn. split_and!; [|done|].
    + rewrite <- Permutation_cons_append. done.
    + unfold len in *. rewrite length_app. cbn in *. lia.
Qed.

Lemma untrack_ok self i :
  tracker_ok max_tracked self →
  ∃ self', untrack i self = (self', Ok tt) ∧ tracker_ok max_tracked self'.
Proof.
  intros Hok. destruct (din i (node_mapping self)) eqn:Hi; [|by rewrite untrack_unknown; eauto].
  rewrite untrack_known by done. eexists. split; [done|].
  destruct Hok as (Hwf & _ & Hlen). unfold tracker_ok. cbn. split_and!; [by apply ddel_wf|done|].
  rewrite len_ddel by done. lia.
Qed.

Lemma tracker_op_ok self o :
  0 < max_tracked → tracker_ok max_tracked self →
  ∃ self', run_op max_tracked o self = (self', Ok tt) ∧ tracker_ok max_tracked self'.
Proof. intros ??. destruct o; cbn; [by apply track_ok|by apply untrack_ok]. Qed.

(** The report loop, over any part of the order. *)
Lemma failed_loop (d : dict NodeID NodeInfo) (f : NodeID → bool) part acc :
  dict_wf d → (∀ e, e ∈ part → e ∈ d) →
  foldM (λ failed_info node_id, info ← dget_exn node_id d; Ok (failed_info ++ [info])) acc
    (List.filter f part.*1)
  = Ok (acc ++ (List.filter (λ e, f e.1) part).*2).
Proof.
  intros Hwf. revert acc. induction part as [|[i info] part IH]; cbn; intros acc Hin.
  - by rewrite app_nil_r.
  - assert (∀ e, e ∈ part → e ∈ d) as Hin' by (intros; apply Hin; by right).
    destruct (f i) eqn:Hf; cbn; [|by apply IH]. unfold dget_exn.
    rewrite (dget_elem i info) by (done || apply Hin; left). cbn. rewrite IH by done.
    by rewrite <- app_assoc.
Qed.
End lemmas.
End NodeTracker.

Module EventSummarizer.

Section events.
Context {A : Type}.

Record EventSummarizer := {
  events_by_key : dict string A;
  messages_to_send : list string;
  throttled_messages : dict string Q;
}.

Definition init : EventSummarizer :=
  {| events_by_key := []; messages_to_send := []; throttled_messages := [] |}.

Definition sentence (template : string) : string :=
  if endswith "."%char template then template else template +:+ ".".

Definition add (self : EventSummarizer) (template : string) (quantity : A)
    (aggregate : A → A → A) : EventSummarizer :=
  let template := sentence template in
  {| events_by_key :=
       match dget template (events_by_key self) with
       | Some q => dset template (aggregate q quantity) (events_by_key self)
       | None => dset template quantity (events_by_key self)
       end;
     messages_to_send := messages_to_send self;
     throttled_messages := throttled_messages self |}.

(** [now]: the reading of [time.time()]. *)
Definition add_once_per_interval (self : EventSummarizer) (message key : string)
    (interval_s : Z) (now : Q) : EventSummarizer :=
  if din key (throttled_messages self) then self
  else
    {| events_by_key := events_by_key self;
       messages_to_send := messages_to_send self ++ [message];
       throttled_messages := dset key (now + inject_Z interval_s)%Q (throttled_messages self) |}.

(** The clock is read once per key; [now k] is the reading at the key [k]. *)
Definition clear (self : EventSummarizer) (now : string → Q) : EventSummarizer :=
  {| events_by_key := [];
     messages_to_send := [];
     throttled_messages :=
       fold_left (λ d '(k, t), if Qltb t (now k) then ddel k d else d)
         (throttled_messages self) (throttled_messages self) |}.

Inductive op :=
  | Add (template : string) (quantity : A) (aggregate : A → A → A)
  | AddOnce (message key : string) (interval_s : Z) (now : Q)
  | Clear (now : string → Q).

Definition run_op (self : EventSummarizer) (o : op) : EventSummarizer :=
  match o with
  | Add t q g => add self t q g
  | AddOnce m k i now => add_once_per_interval self m k i now
  | Clear now => clear self now
  end.

(** Every clock reading of the operation is at most [t]. *)
Definition op_by (t : Q) (o : op) : Prop :=
  match o with
  | Add _ _ _ => True
  | AddOnce _ _ _ now => (now <= t)%Q
  | Clear now => ∀ k, (now k <= t)%Q
  end.

(** ** Lemmas *)

(** What expiry leaves: the entries whose time has not passed. *)
Lemma expire_get (now : string → Q) (part d : dict string Q) k :
  dict_wf d →
  dget k (fold_left (λ d '(k, t), if Qltb t (now k) then ddel k d else d) part d)
  = if existsb (λ '(k', t), bool_decide (k = k') && Qltb t (now k')) part then None else dget k d.
Proof.
  revert d. induction part as [|[k1 t1] part IH]; cbn; intros d Hwf; [done|].
  destruct (Qltb t1 (now k1)) eqn:Ht; rewrite IH by (done || by apply ddel_wf).
  - rewrite dget_ddel by done. case_bool_decide; cbn; [|by rewrite decide_False].
    rewrite decide_True by done. by destruct (existsb _ _).
  - by rewrite andb_false_r.
Qed.

Lemma expire_wf (now : string → Q) (part d : dict string Q) :
  dict_wf d →
  dict_wf (fold_left (λ d '(k, t), if Qltb t (now k) then ddel k d else d) part d).
Proof.
  intros Hwf. apply fold_left_inv; [done|]. intros d' [k t] _ Hd. destruct (Qltb _ _); [|done].
  by apply ddel_wf.
Qed.

Lemma clear_get (self : EventSummarizer) now k :
  dict_wf (throttled_messages self) →
  dget k (throttled_messages (clear self now))
  = match dget k (throttled_messages self) with
    | Some t => if Qltb t (now k) then None else Some t
    | None => None
    end.
Proof.
  intros Hwf. cbn. rewrite expire_get by done.
  destruct (existsb _ _) eqn:He.
  - apply existsb_exists in He as ([k' t] & Hin & Hk). apply andb_true_iff in Hk as [Hk Ht].
    apply bool_decide_eq_true in Hk as <-. apply list_elem_of_In in Hin.
    by rewrite (dget_elem k t), Ht.
  - destruct (dget k _) as [t|] eqn:Hd; [|done]. destruct (Qltb t (now k)) eqn:Ht; [|done].
    apply dget_Some_elem in Hd. rewrite <- not_true_iff_false in He. destruct He.
    apply existsb_exists. exists (k, t). rewrite bool_decide_true by done.
    split; [by apply list_elem_of_In|done].
Qed.

Lemma run_op_wf self o :
  dict_wf (throttled_messages self) → dict_wf (throttled_messages (run_op self o)).
Proof.
  intros Hwf. destruct o; cbn; [done| |by apply expire_wf].
  unfold add_once_per_interval. case_match; [done|]. by apply dset_wf.
Qed.

(** A key stays throttled while no clock reading passes its time. *)
Lemma run_op_throttled self o k t :
  dict_wf (throttled_messages self) → dget k (throttled_messages self) = Some t →
  op_by t o → dget k (throttled_messages (run_op self o)) = Some t.
Proof.
  intros Hwf Hk Hby. destruct o; cbn [run_op].
  - done.
  - unfold add_once_per_interval. destruct (din key _) eqn:Hd; [done|]. cbn.
    rewrite dget_dset_ne; [done|]. intros ->. unfold din in Hd. by rewrite Hk in Hd.
  - rewrite clear_get, Hk by done. cbn in Hby. specialize (Hby k).
    destruct (Qltb t (now k)) eqn:Hlt; [|done]. apply Qltb_true in Hlt. lra.
Qed.

Lemma run_throttled ops : ∀ self k t,
  dict_wf (throttled_messages self) → dget k (throttled_messages self) = Some t →
  Forall (op_by t) ops → dget k (throttled_messages (fold_left run_op ops self)) = Some t.
Proof.
  induction ops as [|o ops IH]; cbn; intros self k t Hwf Hk Hops; [done|].
  inversion_clear Hops. apply IH; [by apply run_op_wf|by apply run_op_throttled|done].
Qed.

Lemma run_wf ops : ∀ self, dict_wf (throttled_messages self) →
  dict_wf (throttled_messages (fold_left run_op ops self)).
Proof. induction ops; cbn; intros self Hwf; [done|]. auto using run_op_wf. Qed.
End events.
Arguments EventSummarizer : clear implicits.
Arguments op : clear implicits.
End EventSummarizer.

Module Availability.

Record UnavailableNodeInformation := { category : string; description : string }.

(** [NodeLaunchException] of [node_launch_exception.py], less the exception it wraps. *)
Abbreviation NodeLaunchException := UnavailableNodeInformation.

Record NodeAvailabilityRecord := {
  rec_node_type : NodeType;
  is_available : bool;
  last_checked_timestamp : Q;
  unavailable_node_information : option UnavailableNodeInformation;
}.

(** The tracker's [store]: node type to (expiration time, record). *)
Abbreviation Store := (dict NodeType (Q * NodeAvailabilityRecord)).

Definition make_record (node_type : NodeType) (timestamp : Q)
    (node_launch_exception : option NodeLaunchException) : NodeAvailabilityRecord :=
  match node_launch_exception with
  | None =>
      {| rec_node_type := node_type; is_available := true;
         last_checked_timestamp := timestamp; unavailable_node_information := None |}
  | Some e =>
      {| rec_node_type := node_type; is_available := false;
         last_checked_timestamp := timestamp;
         unavailable_node_information :=
           Some {| category := category e; description := description e |} |}
  end.

(** [cur_time]: what [self.timer()] answers. *)
Definition _remove_old_entries (store : Store) (cur_time : Q) : Store :=
  fold_left (λ d '(key, (expiration_time, _)),
    if Qltb expiration_time cur_time then ddel key d else d) store store.

Definition _update_node_availability_requires_lock (ttl : Q) (store : Store)
    (node_type : NodeType) (timestamp : Q) (e : option NodeLaunchException) (cur_time : Q) : Store :=
  let record := make_record node_type timestamp e in
  let expiration_time := (timestamp + ttl)%Q in
  _remove_old_entries (dset node_type (expiration_time, record) store) cur_time.

Definition update_node_availability (ttl : Q) (store : Store) (node_type : NodeType)
    (timestamp : Q) (e : option NodeLaunchException) (cur_time : Q) : Store :=
  _update_node_availability_requires_lock ttl store node_type timestamp e cur_time.

(** The store after the call, and the summary's [node_availabilities]. *)
Definition summary (store : Store) (cur_time : Q) : Store * dict NodeType NodeAvailabilityRecord :=
  let store := _remove_old_entries store cur_time in
  (store, (λ '(node_type, (_, record)), (node_type, record)) <$> store).

(** [AUTOSCALER_NODE_AVAILABILITY_MAX_STALENESS_S], the default of [ttl]. *)
Definition AUTOSCALER_NODE_AVAILABILITY_MAX_STALENESS_S : Q := 1800.

(** ** Histories *)

Record report := {
  rp_type : NodeType; rp_timestamp : Q; rp_exception : option NodeLaunchException; rp_now : Q;
}.

Definition run_report (ttl : Q) (store : Store) (r : report) : Store :=
  update_node_availability ttl store (rp_type r) (rp_timestamp r) (rp_exception r) (rp_now r).

(** What the tracker promises: of each type the last report, while it is no
    older than the time to live. *)
Definition last_report (nt : NodeType) (rs : list report) : option report :=
  fold_left (λ o r, if decide (rp_type r = nt) then Some r else o) rs None.

Definition spec (ttl : Q) (nt : NodeType) (rs : list report) (now : Q) :
    option (Q * NodeAvailabilityRecord) :=
  match last_report nt rs with
  | Some r => if Qltb (rp_timestamp r + ttl)%Q now then None
              else Some ((rp_timestamp r + ttl)%Q,
                         make_record nt (rp_timestamp r) (rp_exception r))
  | None => None
  end.

(** The clock does not run backwards. *)
Fixpoint clock_ok (t : Q) (rs : list report) : Prop :=
  match rs with
  | [] => True
  | r :: rs => (t <= rp_now r)%Q ∧ clock_ok (rp_now r) rs
  end.

(** ** Lemmas *)

Lemma remove_old_loop cur_time (part d : Store) k :
  dict_wf d →
  dict_wf (fold_left (λ d '(key, (x, _)), if Qltb x cur_time then ddel key d else d) part d) ∧
  dget k (fold_left (λ d '(key, (x, _)), if Qltb x cur_time then ddel key d else d) part d)
  = if existsb (λ '(k', (x, _)), bool_decide (k = k') && Qltb x cur_time) part
    then None else dget k d.
Proof.
  revert d. induction part as [|[k1 [t1 r1]] part IH]; cbn; intros d Hwf; [done|].
  destruct (Qltb t1 cur_time) eqn:Ht.
  - destruct (IH (ddel k1 d)) as [Hwf' ->]; [by apply ddel_wf|]. split; [done|].
    rewrite dget_ddel by done. case_bool_decide; cbn; [|by rewrite decide_False].
    rewrite decide_True by done. by destruct (existsb _ _).
  - destruct (IH d) as [Hwf' ->]; [done|]. split; [done|]. by rewrite andb_false_r.
Qed.

Lemma remove_old_wf store cur_time : dict_wf store → dict_wf (_remove_old_entries store cur_time).
Proof. intros Hwf. exact (proj1 (remove_old_loop cur_time store store ""%string Hwf)). Qed.

Lemma remove_old_get store cur_time k :
  dict_wf store →
  dget k (_remove_old_entries store cur_time)
  = match dget k store with
    | Some (x, r) => if Qltb x cur_time then None else Some (x, r)
    | None => None
    end.
Proof.
  intros Hwf. unfold _remove_old_entries.
  rewrite (proj2 (remove_old_loop cur_time store store k Hwf)).
  destruct (existsb _ _) eqn:He.
  - apply existsb_exists in He as ([k' [x r]] & Hin & Hk). apply andb_true_iff in Hk as [Hk Ht].
    apply bool_decide_eq_true in Hk as <-. apply list_elem_of_In in Hin.
    by rewrite (dget_elem k (x, r)), Ht.
  - destruct (dget k store) as [[x r]|] eqn:Hd; [|done]. destruct (Qltb x cur_time) eqn:Ht; [|done].
    apply dget_Some_elem in Hd. rewrite <- not_true_iff_false in He. destruct He.
    apply existsb_exists. exists (k, (x, r)). rewrite bool_decide_true by done.
    split; [by apply list_elem_of_In|done].
Qed.

(** [summary] renames the values of the store it leaves. *)
Lemma summary_get (store : Store) k :
  dget k ((λ '(nt, (_, r)), (nt, r)) <$> store : dict NodeType NodeAvailabilityRecord)
  = snd <$> dget k store.
Proof.
  induction store as [|[k' [x r]] store IH]; cbn; [done|]. case_decide; done.
Qed.

Lemma last_report_snoc nt rs r :
  last_report nt (rs ++ [r]) = if decide (rp_type r = nt) then Some r else last_report nt rs.
Proof. unfold last_report. by rewrite fold_left_app. Qed.

(** An entry dropped earlier would be dropped later as well. *)
Lemma spec_later ttl nt rs t t' :
  (t <= t')%Q →
  match spec ttl nt rs t with
  | Some (x, r) => if Qltb x t' then None else Some (x, r)
  | None => None
  end = spec ttl nt rs t'.
Proof.
  intros Ht. unfold spec. destruct (last_report nt rs) as [r|]; [|done].
  destruct (Qltb (rp_timestamp r + ttl) t) eqn:H1; [|done].
  apply Qltb_true in H1. assert (rp_timestamp r + ttl < t')%Q as H2 by lra.
  apply Qltb_true in H2. by rewrite H2.
Qed.

Lemma last_clock_le rs : ∀ t, clock_ok t rs → (t <= fold_left (λ _ r, rp_now r) rs t)%Q.
Proof.
  induction rs as [|r rs IH]; cbn; intros t H; [lra|].
  destruct H as [H1 H2]. specialize (IH _ H2). lra.
Qed.

Lemma report_clock_snoc rs r : ∀ t, clock_ok t (rs ++ [r]) →
  clock_ok t rs ∧ (fold_left (λ _ r, rp_now r) rs t <= rp_now r)%Q.
Proof.
  induction rs as [|r' rs IH]; cbn; intros t H; [naive_solver|].
  destruct H as [H1 H2]. destruct (IH _ H2). auto.
Qed.

(** The store implements the specification at the time of its last report. *)
Lemma store_refines ttl t0 rs nt :
  clock_ok t0 rs →
  let store := fold_left (run_report ttl) rs [] in
  dict_wf store ∧ dget nt store = spec ttl nt rs (fold_left (λ _ r, rp_now r) rs t0).
Proof.
  cbv zeta. induction rs as [|r rs IH] using rev_ind; intros Hc.
  - split; [constructor|done].
  - apply report_clock_snoc in Hc as [Hc Hle]. destruct (IH Hc) as [Hwf Hget].
    rewrite !fold_left_app. cbn [fold_left]. unfold run_report at 1 3,
      update_node_availability, _update_node_availability_requires_lock.
    split; [by apply remove_old_wf, dset_wf|]. rewrite remove_old_get by (by apply dset_wf).
    rewrite dget_dset. destruct (decide (nt = rp_type r)) as [->|Hne].
    + unfold spec. rewrite last_report_snoc, decide_True by done. done.
    + rewrite Hget. rewrite (spec_later _ _ _ _ _ Hle). unfold spec.
      by rewrite last_report_snoc, decide_False by congruence.
Qed.
End Availability.

(** * The properties *)

Section properties.
Import NodeTracker.

(** From an empty tracker, whatever nodes are tracked and untracked in whatever
    order, no call raises, the mapping and the order list the same nodes, at most
    the bound of them, and the report of failed nodes is exactly the tracked nodes
    that are not in the given set, in the order of tracking. *)
Theorem tracker_reachable_ok max_tracked ops :
  0 < max_tracked →
  ∃ tr, st_for ops (run_op max_tracked) init = (tr, Ok tt) ∧ tracker_ok max_tracked tr ∧
    ∀ non_failed, get_all_failed_node_info tr non_failed
      = Ok (List.filter (λ e, negb (bool_decide (e.1 ∈ non_failed))) (node_mapping tr)).*2.
Proof.
  intros Hpos. assert (wp (st_for ops (run_op max_tracked)) (λ _, tracker_ok max_tracked) init)
    as (tr & [] & Hrun & Hok).
  { apply wp_for with (I := λ _, tracker_ok max_tracked); [apply tracker_ok_init; lia| |done].
    intros o _ tr _ Hok. destruct (tracker_op_ok max_tracked tr o Hpos Hok) as (tr' & Ho & Hok').
    by exists tr', tt. }
  exists tr. split_and!; [done|done|]. intros nf. destruct Hok as (Hwf & Hl & _).
  unfold get_all_failed_node_info. rewrite Hl. unfold dkeys.
  rewrite (failed_loop (node_mapping tr) _ (node_mapping tr)) by done. cbn. do 2 f_equal.
  apply List.filter_ext_in. intros [i info] Hin%list_elem_of_In. cbn. unfold din.
  by rewrite (dget_elem i info).
Qed.

(** A full tracker mislabels: tracking a new node when the bound is reached
    leaves the new node untracked and gives its address and type to the oldest
    tracked node, which the code means to evict; if that node is alive nothing is
    reported when the new node fails, and if only the old one failed the new node's
    address is reported. *)
Theorem tracker_full_mislabels max_tracked tr i ip nt old info rest :
  tracker_ok max_tracked tr → din i (node_mapping tr) = false →
  node_mapping tr = (old, info) :: rest → len (node_mapping tr) = max_tracked →
  ∃ tr', track max_tracked i ip nt tr = (tr', Ok tt) ∧
    din i (node_mapping tr') = false ∧ dget old (node_mapping tr') = Some (ip, nt) ∧
    get_all_failed_node_info tr' (list_to_set (dkeys rest)) = Ok [(ip, nt)].
Proof.
  intros Hok Hi Hm Hlen. erewrite track_full by done. eexists. split; [done|]. cbn.
  destruct Hok as (Hwf & _ & _). rewrite Hm in Hwf, Hi.
  assert (old ∉ dkeys rest) as Hold by (by apply NoDup_cons in Hwf as [? _]).
  assert (din old rest = false) as Hfr by (apply not_true_iff_false; by rewrite din_spec).
  rewrite <- (dset_new old (ip, nt)) by done. split_and!.
  - unfold din in *. cbn in Hi. rewrite dget_dset. by case_decide.
  - apply dget_dset_eq.
  - assert (dkeys rest ++ [old] = (dset old (ip, nt) rest).*1) as Hkeys
      by (rewrite dset_new, fmap_app by done; done).
    unfold get_all_failed_node_info. cbn. rewrite Hkeys.
    rewrite (failed_loop _ _ (dset old (ip, nt) rest)).
    + cbn. rewrite dset_new by done. rewrite List.filter_app. cbn. f_equal.
      rewrite bool_decide_false by (by rewrite elem_of_list_to_set). cbn.
      assert (din old (rest ++ [(old, (ip, nt))]) = true) as ->.
      { rewrite <- dset_new by done. unfold din. by rewrite dget_dset_eq. }
      cbn. rewrite list_filter_nil; [done|]. intros [j x] Hin.
      cbn. rewrite bool_decide_true; [by rewrite andb_false_r|].
      apply elem_of_list_to_set, list_elem_of_fmap. by exists (j, x).
    + apply dset_wf. by apply NoDup_cons in Hwf as [_ ?].
    + done.
Qed.
End properties.

Section event_properties.
Import EventSummarizer.
Context {A : Type}.

(** A throttled message is sent once per interval: after a message was queued
    under a key, no operation puts another one under that key into the queue
    while every clock reading is within the interval, however often the summary is
    cleared in between; once the interval has passed, a clear makes the key
    free and the next message is queued. *)
Theorem events_throttled (self : EventSummarizer A) message key interval now ops :
  dict_wf (throttled_messages self) → din key (throttled_messages self) = false →
  Forall (op_by (now + inject_Z interval)%Q) ops →
  let sent := add_once_per_interval self message key interval now in
  messages_to_send sent = messages_to_send self ++ [message] ∧
  (∀ message' interval' now',
     let later := fold_left run_op ops sent in
     add_once_per_interval later message' key interval' now' = later) ∧
  (∀ clock message' interval' now', (now + inject_Z interval < clock key)%Q →
     messages_to_send (add_once_per_interval (clear (fold_left run_op ops sent) clock)
       message' key interval' now') = [message']).
Proof.
  intros Hwf Hk Hops. cbv zeta. unfold add_once_per_interval at 1. rewrite Hk.
  assert (dict_wf (throttled_messages (add_once_per_interval self message key interval now))) as Hwf1
    by exact (run_op_wf self (AddOnce message key interval now) Hwf).
  assert (dget key (throttled_messages (fold_left run_op ops
    (add_once_per_interval self message key interval now))) = Some (now + inject_Z interval)%Q) as Hget.
  { apply run_throttled; [done| |done]. unfold add_once_per_interval. rewrite Hk. apply dget_dset_eq. }
  split_and!; [done| |].
  - intros m' i' n'. unfold add_once_per_interval at 1. unfold din. by rewrite Hget.
  - intros clock m' i' n' Hlt. unfold add_once_per_interval at 1. unfold din.
    rewrite clear_get, Hget by (by apply run_wf). apply Qltb_true in Hlt. by rewrite Hlt.
Qed.
End event_properties.

Section availability_properties.
Import Availability.

(** The availability tracker implements its promise: after any reports, in any
    order of their timestamps, on a clock that does not run backwards, the summary
    has for each node type the record of the last report if it is no older
    than the time to live, and nothing else. *)
Theorem availability_refines ttl t0 rs now nt :
  clock_ok t0 rs → (fold_left (λ _ r, rp_now r) rs t0 <= now)%Q →
  dget nt (summary (fold_left (run_report ttl) rs []) now).2 = snd <$> spec ttl nt rs now.
Proof.
  intros Hc Hle. destruct (store_refines ttl t0 rs nt Hc) as [Hwf Hget].
  unfold summary. cbn. rewrite summary_get, remove_old_get, Hget by done.
  by rewrite (spec_later _ _ _ _ _ Hle).
Qed.

(** A report that comes late takes the place of a younger one, and is dropped at
    once when it is too old: the younger information is lost. *)
Theorem late_report_erases :
  let young := {| rp_type := "gpu"; rp_timestamp := 2000; rp_exception := None; rp_now := 2001 |} in
  let late := {| rp_type := "gpu"; rp_timestamp := 100; rp_exception := None; rp_now := 2002 |} in
  let ttl := AUTOSCALER_NODE_AVAILABILITY_MAX_STALENESS_S in
  (summary (fold_left (run_report ttl) [young] []) 2002).2 ≠ [] ∧
  (summary (fold_left (run_report ttl) [young; late] []) 2002).2 = [].
Proof. split; [discriminate|reflexivity]. Qed.
End availability_properties.

(** ** The properties at concrete inputs *)

Section witnesses.
#[local] Open Scope string_scope.

Lemma tracker_reachable_ok_witness :
  ∃ tr, st_for [NodeTracker.Track "a" "1" "cpu"; NodeTracker.Track "b" "2" "cpu"; NodeTracker.Untrack "a"]
      (NodeTracker.run_op 2) NodeTracker.init = (tr, Ok tt) ∧
    NodeTracker.get_all_failed_node_info tr ∅
      = Ok (List.filter (λ e, negb (bool_decide (e.1 ∈ (∅ : gset NodeID)))) (NodeTracker.node_mapping tr)).*2.
Proof.
  destruct (tracker_reachable_ok 2
    [NodeTracker.Track "a" "1" "cpu"; NodeTracker.Track "b" "2" "cpu"; NodeTracker.Untrack "a"])
    as (tr & Hrun & _ & Hfail); [lia|].
  exists tr. split; [exact Hrun|exact (Hfail ∅)].
Defined.

Definition full_tracker : NodeTracker.NodeTracker :=
  {| NodeTracker.node_mapping := [("a", ("1", "cpu")); ("b", ("2", "cpu"))];
     NodeTracker.lru_order := ["a"; "b"] |}.

Lemma tracker_full_mislabels_witness :
  ∃ tr', NodeTracker.track 2 "c" "3" "gpu" full_tracker = (tr', Ok tt) ∧
    dget "a" (NodeTracker.node_mapping tr') = Some ("3", "gpu").
Proof.
  destruct (tracker_full_mislabels 2 full_tracker "c" "3" "gpu" "a" ("1", "cpu") [("b", ("2", "cpu"))])
    as (tr' & Ht & _ & Ha & _).
  - split_and!; [|reflexivity|discriminate]. cbn. unfold dict_wf, dkeys. cbn.
    repeat (constructor; [rewrite ?not_elem_of_cons; split_and?; done || apply not_elem_of_nil|]). constructor.
  - reflexivity.
  - reflexivity.
  - reflexivity.
  - exists tr'. split; [exact Ht|exact Ha].
Defined.

Lemma events_throttled_witness :
  EventSummarizer.messages_to_send (EventSummarizer.add_once_per_interval
    (EventSummarizer.clear (EventSummarizer.add_once_per_interval
       (A := Z) EventSummarizer.init "m" "k" 30 100) (λ _, 131%Q)) "n" "k" 30 131) = ["n"].
Proof.
  destruct (events_throttled (A := Z) EventSummarizer.init "m" "k" 30 100 []) as (_ & _ & Hlater).
  - constructor.
  - reflexivity.
  - constructor.
  - apply (Hlater (λ _, 131%Q) "n" 30 131%Q). reflexivity.
Defined.

Lemma availability_refines_witness :
  dget "gpu" (Availability.summary (fold_left (Availability.run_report 1800)
    [{| Availability.rp_type := "gpu"; Availability.rp_timestamp := 100;
        Availability.rp_exception := None; Availability.rp_now := 101 |}] []) 200).2
  = Some (Availability.make_record "gpu" 100 None).
Proof.
  apply (availability_refines 1800 0
    [{| Availability.rp_type := "gpu"; Availability.rp_timestamp := 100;
        Availability.rp_exception := None; Availability.rp_now := 101 |}] 200 "gpu").
  - split; [discriminate|exact I].
  - discriminate.
Defined.
End witnesses.
