(* ===== verification/Autoscaler.v ===== *)
(** * The autoscaler's main loop (autoscaler/_private/autoscaler.py)

    [StandardAutoscaler]: one call of [update] reads the configuration, lists the
    nodes, terminates those that break the configuration or are idle or
    unhealthy, runs updaters on the others and launches what the resource demand
    scheduler asks for; the launchers of [node_launcher.py] take the launches off a
    queue.  The cloud, the clock, the configuration file and the updater threads are
    observed: an [Env] holds what they answer during one update, the state logs in
    [actions] what the autoscaler asks them to do.  Prometheus gauges and log texts are not
    modelled. *)
From S2P Require Import Prelude PyStrings PyLists BinPack DemandScheduler LoadMetrics AutoscalerTrackers.
From stdpp Require Import base tactics list gmap strings.
From Stdlib Require Import QArith Qround Lqa.

#[local] Open Scope Z_scope.
Import BinPack Tags.

(** ** Tags (autoscaler/tags.py) and constants *)

Definition TAG_RAY_NODE_STATUS : string := "ray-node-status".
Definition STATUS_UNINITIALIZED : string := "uninitialized".
Definition STATUS_UPDATE_FAILED : string := "update-failed".
Definition STATUS_UP_TO_DATE : string := "up-to-date".
Definition TAG_RAY_LAUNCH_CONFIG : string := "ray-launch-config".
Definition TAG_RAY_RUNTIME_CONFIG : string := "ray-runtime-config".
Definition TAG_RAY_FILE_MOUNTS_CONTENTS : string := "ray-file-mounts-contents".
Definition AUTOSCALER_HEARTBEAT_TIMEOUT_S : Q := 30.

(** ** Configuration *)

(** A set of commands of an updater, by name: the commands are opaque. *)
Abbreviation Commands := (list string).

(** What the loop reads of the cluster's configuration.  [node_config] and
    [worker_nodes] are opaque texts; a type's own commands and docker
    configuration are found under its name. *)
Record Config := {
  available_node_types : NodeTypes;
  cfg_max_workers : Z;
  cfg_head_node_type : NodeType;
  idle_timeout_minutes : Q;
  cfg_upscaling_speed : option Q;
  autoscaling_mode : option string;
  target_utilization_fraction : option Q;
  worker_nodes : string;
  auth : string;
  provider_type : option string;
  restart_only : bool;
  no_restart : bool;
  worker_setup_commands : Commands;
  worker_start_ray_commands : Commands;
  initialization_commands : Commands;
  docker : option string;
  type_setup_commands : dict NodeType Commands;
  type_initialization_commands : dict NodeType Commands;
  type_docker : dict NodeType string;
}.

(** The flags of the provider's configuration and the constructor's bounds. *)
Record Settings := {
  max_launch_batch : Z;
  max_failures : Z;
  update_interval_s : Q;
  max_tracked : Z;
  disable_node_updaters : bool;
  disable_launch_config_check : bool;
  foreground_node_launch : bool;
  launcher_has_types : bool;
  worker_liveness_check : bool;
  worker_rpc_drain : bool;
}.

(** How a call of [create_node_with_resources] ends. *)
Inductive create_outcome :=
  | Created
  | LaunchFailed (e : Availability.NodeLaunchException)
  | CreateRaised.

(** What the outside answers during one update.  The provider's answers for a
    node do not change while an update runs. *)
Record Env := {
  e_provider : NodeProvider;
  e_nodes : result (list NodeID);
  e_readonly : bool;
  e_terminate : list NodeID → result unit;
  e_now : Q;
  e_mark_now : NodeIP → Q;
  e_exitcode : NodeID → option Z;
  e_config : result Config;
  e_hashes : result (string * option string);
  e_create : NodeType → Z → create_outcome;
}.

Record NonTerminatedNodes := {
  all_node_ids : list NodeID;
  worker_ids : list NodeID;
  head_id : option NodeID;
}.

(** An updater thread: what it was started with (its docker configuration is the
    cluster's and the node type's), and whether it is to recover the node. *)
Record Updater := {
  upd_initialization_commands : Commands;
  upd_setup_commands : Commands;
  upd_ray_start_commands : Commands;
  upd_docker_config : option (string * string);
  for_recovery : bool;
}.

(** A launch request: how many nodes of which type, with the configuration. *)
Abbreviation NodeLaunchData := (Config * Z * NodeType)%type.

Inductive action :=
  | DrainNodes (raylet_ids : list string)
  | TerminateNodes (nodes : list NodeID)
  | StartUpdater (node : NodeID) (u : Updater)
  | CreateNodes (node_type : NodeType) (count : Z).

Record StandardAutoscaler := {
  settings : Settings;
  config : Config;
  runtime_hash : string;
  file_mounts_contents_hash : option string;
  scheduler : ResourceDemandScheduler;
  load_metrics : LoadMetrics;
  updaters : dict NodeID Updater;
  num_failed_updates : dict NodeID Z;
  num_successful_updates : dict NodeID Z;
  num_failures : Z;
  last_update_time : Q;
  non_terminated_nodes : option NonTerminatedNodes;
  nodes_to_terminate : list NodeID;
  launch_queue : list NodeLaunchData;
  pending_launches : dict NodeType Z;
  node_tracker : NodeTracker.NodeTracker;
  event_summarizer : EventSummarizer.EventSummarizer Z;
  availability : Availability.Store;
  actions : list action;
}.

(** Assignments to one attribute. *)
Definition set_config (v : Config) (self : StandardAutoscaler) :
    StandardAutoscaler :=
  {| settings := settings self; config := v; runtime_hash := runtime_hash self;
     file_mounts_contents_hash := file_mounts_contents_hash self; scheduler := scheduler self;
     load_metrics := load_metrics self; updaters := updaters self;
     num_failed_updates := num_failed_updates self;
     num_successful_updates := num_successful_updates self; num_failures := num_failures self;
     last_update_time := last_update_time self;
     non_terminated_nodes := non_terminated_nodes self;
     nodes_to_terminate := nodes_to_terminate self; launch_queue := launch_queue self;
     pending_launches := pending_launches self; node_tracker := node_tracker self;
     event_summarizer := event_summarizer self; availability := availability self;
     actions := actions self |}.
Definition set_runtime_hash (v : string) (self : StandardAutoscaler) :
    StandardAutoscaler :=
  {| settings := settings self; config := config self; runtime_hash := v;
     file_mounts_contents_hash := file_mounts_contents_hash self; scheduler := scheduler self;
     load_metrics := load_metrics self; updaters := updaters self;
     num_failed_updates := num_failed_updates self;
     num_successful_updates := num_successful_updates self; num_failures := num_failures self;
     last_update_time := last_update_time self;
     non_terminated_nodes := non_terminated_nodes self;
     nodes_to_terminate := nodes_to_terminate self; launch_queue := launch_queue self;
     pending_launches := pending_launches self; node_tracker := node_tracker self;
     event_summarizer := event_summarizer self; availability := availability self;
     actions := actions self |}.
Definition set_file_mounts_contents_hash (v : option string) (self : StandardAutoscaler) :
    StandardAutoscaler :=
  {| settings := settings self; config := config self; runtime_hash := runtime_hash self;
     file_mounts_contents_hash := v; scheduler := scheduler self;
     load_metrics := load_metrics self; updaters := updaters self;
     num_failed_updates := num_failed_updates self;
     num_successful_updates := num_successful_updates self; num_failures := num_failures self;
     last_update_time := last_update_time self;
     non_terminated_nodes := non_terminated_nodes self;
     nodes_to_terminate := nodes_to_terminate self; launch_queue := launch_queue self;
     pending_launches := pending_launches self; node_tracker := node_tracker self;
     event_summarizer := event_summarizer self; availability := availability self;
     actions := actions self |}.
Definition set_scheduler (v : ResourceDemandScheduler) (self : StandardAutoscaler) :
    StandardAutoscaler :=
  {| settings := settings self; config := config self; runtime_hash := runtime_hash self;
     file_mounts_contents_hash := file_mounts_contents_hash self; scheduler := v;
     load_metrics := load_metrics self; updaters := updaters self;
     num_failed_updates := num_failed_updates self;
     num_successful_updates := num_successful_updates self; num_failures := num_failures self;
     last_update_time := last_update_time self;
     non_terminated_nodes := non_terminated_nodes self;
     nodes_to_terminate := nodes_to_terminate self; launch_queue := launch_queue self;
     pending_launches := pending_launches self; node_tracker := node_tracker self;
     event_summarizer := event_summarizer self; availability := availability self;
     actions := actions self |}.
Definition set_load_metrics (v : LoadMetrics) (self : StandardAutoscaler) :
    StandardAutoscaler :=
  {| settings := settings self; config := config self; runtime_hash := runtime_hash self;
     file_mounts_contents_hash := file_mounts_contents_hash self; scheduler := scheduler self;
     load_metrics := v; updaters := updaters self;
     num_failed_updates := num_failed_updates self;
     num_successful_updates := num_successful_updates self; num_failures := num_failures self;
     last_update_time := last_update_time self;
     non_terminated_nodes := non_terminated_nodes self;
     nodes_to_terminate := nodes_to_terminate self; launch_queue := launch_queue self;
     pending_launches := pending_launches self; node_tracker := node_tracker self;
     event_summarizer := event_summarizer self; availability := availability self;
     actions := actions self |}.
Definition set_updaters (v : dict NodeID Updater) (self : StandardAutoscaler) :
    StandardAutoscaler :=
  {| settings := settings self; config := config self; runtime_hash := runtime_hash self;
     file_mounts_contents_hash := file_mounts_contents_hash self; scheduler := scheduler self;
     load_metrics := load_metrics self; updaters := v;
     num_failed_updates := num_failed_updates self;
     num_successful_updates := num_successful_updates self; num_failures := num_failures self;
     last_update_time := last_update_time self;
     non_terminated_nodes := non_terminated_nodes self;
     nodes_to_terminate := nodes_to_terminate self; launch_queue := launch_queue self;
     pending_launches := pending_launches self; node_tracker := node_tracker self;
     event_summarizer := event_summarizer self; availability := availability self;
     actions := actions self |}.
Definition set_num_failed_updates (v : dict NodeID Z) (self : StandardAutoscaler) :
    StandardAutoscaler :=
  {| settings := settings self; config := config self; runtime_hash := runtime_hash self;
     file_mounts_contents_hash := file_mounts_contents_hash self; scheduler := scheduler self;
     load_metrics := load_metrics self; updaters := updaters self; num_failed_updates := v;
     num_successful_updates := num_successful_updates self; num_failures := num_failures self;
     last_update_time := last_update_time self;
     non_terminated_nodes := non_terminated_nodes self;
     nodes_to_terminate := nodes_to_terminate self; launch_queue := launch_queue self;
     pending_launches := pending_launches self; node_tracker := node_tracker self;
     event_summarizer := event_summarizer self; availability := availability self;
     actions := actions self |}.
Definition set_num_successful_updates (v : dict NodeID Z) (self : StandardAutoscaler) :
    StandardAutoscaler :=
  {| settings := settings self; config := config self; runtime_hash := runtime_hash self;
     file_mounts_contents_hash := file_mounts_contents_hash self; scheduler := scheduler self;
     load_metrics := load_metrics self; updaters := updaters self;
     num_failed_updates := num_failed_updates self; num_successful_updates := v;
     num_failures := num_failures self; last_update_time := last_update_time self;
     non_terminated_nodes := non_terminated_nodes self;
     nodes_to_terminate := nodes_to_terminate self; launch_queue := launch_queue self;
     pending_launches := pending_launches self; node_tracker := node_tracker self;
     event_summarizer := event_summarizer self; availability := availability self;
     actions := actions self |}.
Definition set_num_failures (v : Z) (self : StandardAutoscaler) :
    StandardAutoscaler :=
  {| settings := settings self; config := config self; runtime_hash := runtime_hash self;
     file_mounts_contents_hash := file_mounts_contents_hash self; scheduler := scheduler self;
     load_metrics := load_metrics self; updaters := updaters self;
     num_failed_updates := num_failed_updates self;
     num_successful_updates := num_successful_updates self; num_failures := v;
     last_update_time := last_update_time self;
     non_terminated_nodes := non_terminated_nodes self;
     nodes_to_terminate := nodes_to_terminate self; launch_queue := launch_queue self;
     pending_launches := pending_launches self; node_tracker := node_tracker self;
     event_summarizer := event_summarizer self; availability := availability self;
     actions := actions self |}.
Definition set_last_update_time (v : Q) (self : StandardAutoscaler) :
    StandardAutoscaler :=
  {| settings := settings self; config := config self; runtime_hash := runtime_hash self;
     file_mounts_contents_hash := file_mounts_contents_hash self; scheduler := scheduler self;
     load_metrics := load_metrics self; updaters := updaters self;
     num_failed_updates := num_failed_updates self;
     num_successful_updates := num_successful_updates self; num_failures := num_failures self;
     last_update_time := v; non_terminated_nodes := non_terminated_nodes self;
     nodes_to_terminate := nodes_to_terminate self; launch_queue := launch_queue self;
     pending_launches := pending_launches self; node_tracker := node_tracker self;
     event_summarizer := event_summarizer self; availability := availability self;
     actions := actions self |}.
Definition set_non_terminated_nodes (v : option NonTerminatedNodes) (self : StandardAutoscaler) :
    StandardAutoscaler :=
  {| settings := settings self; config := config self; runtime_hash := runtime_hash self;
     file_mounts_contents_hash := file_mounts_contents_hash self; scheduler := scheduler self;
     load_metrics := load_metrics self; updaters := updaters self;
     num_failed_updates := num_failed_updates self;
     num_successful_updates := num_successful_updates self; num_failures := num_failures self;
     last_update_time := last_update_time self; non_terminated_nodes := v;
     nodes_to_terminate := nodes_to_terminate self; launch_queue := launch_queue self;
     pending_launches := pending_launches self; node_tracker := node_tracker self;
     event_summarizer := event_summarizer self; availability := availability self;
     actions := actions self |}.
Definition set_nodes_to_terminate (v : list NodeID) (self : StandardAutoscaler) :
    StandardAutoscaler :=
  {| settings := settings self; config := config self; runtime_hash := runtime_hash self;
     file_mounts_contents_hash := file_mounts_contents_hash self; scheduler := scheduler self;
     load_metrics := load_metrics self; updaters := updaters self;
     num_failed_updates := num_failed_updates self;
     num_successful_updates := num_successful_updates self; num_failures := num_failures self;
     last_update_time := last_update_time self;
     non_terminated_nodes := non_terminated_nodes self; nodes_to_terminate := v;
     launch_queue := launch_queue self; pending_launches := pending_launches self;
     node_tracker := node_tracker self; event_summarizer := event_summarizer self;
     availability := availability self; actions := actions self |}.
Definition set_launch_queue (v : list NodeLaunchData) (self : StandardAutoscaler) :
    StandardAutoscaler :=
  {| settings := settings self; config := config self; runtime_hash := runtime_hash self;
     file_mounts_contents_hash := file_mounts_contents_hash self; scheduler := scheduler self;
     load_metrics := load_metrics self; updaters := updaters self;
     num_failed_updates := num_failed_updates self;
     num_successful_updates := num_successful_updates self; num_failures := num_failures self;
     last_update_time := last_update_time self;
     non_terminated_nodes := non_terminated_nodes self;
     nodes_to_terminate := nodes_to_terminate self; launch_queue := v;
     pending_launches := pending_launches self; node_tracker := node_tracker self;
     event_summarizer := event_summarizer self; availability := availability self;
     actions := actions self |}.
Definition set_pending_launches (v : dict NodeType Z) (self : StandardAutoscaler) :
    StandardAutoscaler :=
  {| settings := settings self; config := config self; runtime_hash := runtime_hash self;
     file_mounts_contents_hash := file_mounts_contents_hash self; scheduler := scheduler self;
     load_metrics := load_metrics self; updaters := updaters self;
     num_failed_updates := num_failed_updates self;
     num_successful_updates := num_successful_updates self; num_failures := num_failures self;
     last_update_time := last_update_time self;
     non_terminated_nodes := non_terminated_nodes self;
     nodes_to_terminate := nodes_to_terminate self; launch_queue := launch_queue self;
     pending_launches := v; node_tracker := node_tracker self;
     event_summarizer := event_summarizer self; availability := availability self;
     actions := actions self |}.
Definition set_node_tracker (v : NodeTracker.NodeTracker) (self : StandardAutoscaler) :
    StandardAutoscaler :=
  {| settings := settings self; config := config self; runtime_hash := runtime_hash self;
     file_mounts_contents_hash := file_mounts_contents_hash self; scheduler := scheduler self;
     load_metrics := load_metrics self; updaters := updaters self;
     num_failed_updates := num_failed_updates self;
     num_successful_updates := num_successful_updates self; num_failures := num_failures self;
     last_update_time := last_update_time self;
     non_terminated_nodes := non_terminated_nodes self;
     nodes_to_terminate := nodes_to_terminate self; launch_queue := launch_queue self;
     pending_launches := pending_launches self; node_tracker := v;
     event_summarizer := event_summarizer self; availability := availability self;
     actions := actions self |}.
Definition set_event_summarizer (v : EventSummarizer.EventSummarizer Z) (self : StandardAutoscaler) :
    StandardAutoscaler :=
  {| settings := settings self; config := config self; runtime_hash := runtime_hash self;
     file_mounts_contents_hash := file_mounts_contents_hash self; scheduler := scheduler self;
     load_metrics := load_metrics self; updaters := updaters self;
     num_failed_updates := num_failed_updates self;
     num_successful_updates := num_successful_updates self; num_failures := num_failures self;
     last_update_time := last_update_time self;
     non_terminated_nodes := non_terminated_nodes self;
     nodes_to_terminate := nodes_to_terminate self; launch_queue := launch_queue self;
     pending_launches := pending_launches self; node_tracker := node_tracker self;
     event_summarizer := v; availability := availability self; actions := actions self |}.
Definition set_availability (v : Availability.Store) (self : StandardAutoscaler) :
    StandardAutoscaler :=
  {| settings := settings self; config := config self; runtime_hash := runtime_hash self;
     file_mounts_contents_hash := file_mounts_contents_hash self; scheduler := scheduler self;
     load_metrics := load_metrics self; updaters := updaters self;
     num_failed_updates := num_failed_updates self;
     num_successful_updates := num_successful_updates self; num_failures := num_failures self;
     last_update_time := last_update_time self;
     non_terminated_nodes := non_terminated_nodes self;
     nodes_to_terminate := nodes_to_terminate self; launch_queue := launch_queue self;
     pending_launches := pending_launches self; node_tracker := node_tracker self;
     event_summarizer := event_summarizer self; availability := v; actions := actions self |}.
Definition set_actions (v : list action) (self : StandardAutoscaler) :
    StandardAutoscaler :=
  {| settings := settings self; config := config self; runtime_hash := runtime_hash self;
     file_mounts_contents_hash := file_mounts_contents_hash self; scheduler := scheduler self;
     load_metrics := load_metrics self; updaters := updaters self;
     num_failed_updates := num_failed_updates self;
     num_successful_updates := num_successful_updates self; num_failures := num_failures self;
     last_update_time := last_update_time self;
     non_terminated_nodes := non_terminated_nodes self;
     nodes_to_terminate := nodes_to_terminate self; launch_queue := launch_queue self;
     pending_launches := pending_launches self; node_tracker := node_tracker self;
     event_summarizer := event_summarizer self; availability := availability self;
     actions := v |}.

Section loop.
Context (env : Env).
(** [hash_launch_conf] hashes with SHA-1 the launch configuration and the keys of
    the authentication; [conf_update a b] is the opaque [a.update(b)];
    [repr_request] is Python's rendering of a request. *)
Context (hash_launch_conf : string → string → string).
Context (conf_update : string → string → string).
Context (repr_request : ResourceDict → string).
Context (AUTOSCALER_CONSERVE_GPU_NODES : bool).

Abbreviation P := (e_provider env).
Abbreviation ip_of node_id := (internal_ip P (Some node_id)).
Abbreviation M := (ST StandardAutoscaler).

(** A loop that carries a value. *)
Fixpoint st_fold {A B} (f : B → A → M B) (b : B) (l : list A) : M B :=
  match l with
  | [] => mret b
  | a :: l => b ← f b a; st_fold f b l
  end.

(** ** Listing the nodes *)

Definition make_non_terminated_nodes : result NonTerminatedNodes :=
  nodes ← e_nodes env;
  foldM (λ ntn node,
    tags ← node_tags P node;
    node_kind ← dget_exn TAG_RAY_NODE_KIND tags;
    Ok (if decide (node_kind = NODE_KIND_WORKER)
        then {| all_node_ids := all_node_ids ntn; worker_ids := worker_ids ntn ++ [node];
                head_id := head_id ntn |}
        else if decide (node_kind = NODE_KIND_HEAD)
        then {| all_node_ids := all_node_ids ntn; worker_ids := worker_ids ntn;
                head_id := Some node |}
        else ntn))
    {| all_node_ids := nodes; worker_ids := []; head_id := None |} nodes.

Definition remove_terminating_nodes (ntn : NonTerminatedNodes) (terminating : list NodeID) :
    NonTerminatedNodes :=
  {| all_node_ids := filter (λ n, n ∉ terminating) (all_node_ids ntn);
     worker_ids := filter (λ n, n ∉ terminating) (worker_ids ntn);
     head_id := head_id ntn |}.

(** [self.non_terminated_nodes], asserted to be there. *)
Definition the_nodes : M NonTerminatedNodes :=
  self ← st_get; st_lift (of_option AssertionError (non_terminated_nodes self)).

(** ** Termination *)

Definition _get_node_type (node_id : NodeID) : result string :=
  tags ← node_tags P node_id;
  Ok (default "unknown_node_type"%string (dget TAG_RAY_USER_NODE_TYPE tags)).

Definition add_event (template : string) (quantity : Z) : M unit :=
  st_modify (λ self,
    set_event_summarizer
      (EventSummarizer.add (event_summarizer self) template quantity Z.add) self).

Definition schedule_node_termination (node_id : NodeID) (reason_opt : option string) : M unit :=
  reason ← st_lift (of_option PyException reason_opt);
  _ ← st_lift (ip_of node_id);
  node_type ← st_lift (_get_node_type node_id);
  _ ← add_event ("Removing {} nodes of type " +:+ node_type +:+ " (" +:+ reason +:+ ").") 1;
  st_modify (λ self, set_nodes_to_terminate (nodes_to_terminate self ++ [node_id]) self).

Definition log_action (a : action) : M unit :=
  st_modify (λ self, set_actions (actions self ++ [a]) self).

(** The ips that can be fetched, once each ([node_ips] is a set). *)
Definition fetch_ips (nodes : list NodeID) : list NodeIP :=
  remove_dups (omap (λ n, match ip_of n with Ok ip => Some ip | Err _ => None end) nodes).

(** The answer of the GCS changes only metrics: every exception of the call is caught. *)
Definition drain_nodes_via_gcs (provider_node_ids_to_drain : list NodeID) : M unit :=
  self ← st_get;
  let raylet_ids_to_drain :=
    remove_dups (omap (λ ip, dget ip (raylet_id_by_ip (load_metrics self)))
                   (fetch_ips provider_node_ids_to_drain)) in
  match raylet_ids_to_drain with
  | [] => mret tt
  | _ => log_action (DrainNodes raylet_ids_to_drain)
  end.

Definition untrack (node_id : NodeID) : M unit := λ self,
  let '(tr, r) := NodeTracker.untrack node_id (node_tracker self) in
  (set_node_tracker tr self, r).

Definition track (node_id : NodeID) (ip : NodeIP) (node_type : NodeType) : M unit := λ self,
  let '(tr, r) :=
    NodeTracker.track (max_tracked (settings self)) node_id ip node_type (node_tracker self) in
  (set_node_tracker tr self, r).

Definition terminate_scheduled_nodes : M unit :=
  ntn ← the_nodes;
  self ← st_get;
  let nodes := nodes_to_terminate self in
  match nodes with
  | [] => mret tt
  | _ =>
      _ ← (if worker_rpc_drain (settings self) then drain_nodes_via_gcs nodes else mret tt);
      _ ← st_lift (e_terminate env nodes);
      _ ← log_action (TerminateNodes nodes);
      _ ← st_for nodes untrack;
      _ ← st_modify (set_non_terminated_nodes (Some (remove_terminating_nodes ntn nodes)));
      st_modify (set_nodes_to_terminate [])
  end.

(** ** Which workers to keep *)

Definition launch_config_ok (self : StandardAutoscaler) (node_id : NodeID) : result bool :=
  if disable_launch_config_check (settings self) then Ok true
  else
    tags ← node_tags P node_id;
    let tag_launch_conf := dget TAG_RAY_LAUNCH_CONFIG tags in
    match dget TAG_RAY_USER_NODE_TYPE tags with
    | None => Ok false
    | Some node_type =>
        match dget node_type (available_node_types (config self)) with
        | None => Ok false
        | Some type_config =>
            launch_config ←
              (if decide (node_type = ""%string) then Ok (worker_nodes (config self))
               else node_config ← of_option KeyError (nt_node_config type_config);
                    Ok (conf_update (worker_nodes (config self)) node_config));
            Ok (bool_decide
                  (Some (hash_launch_conf launch_config (auth (config self))) = tag_launch_conf))
        end
    end.

(** [least_recently_used] is -1. *)
Definition last_time_used (last_used : dict NodeIP Q) (node_id : NodeID) : result Q :=
  node_ip ← ip_of node_id;
  Ok (default (-1)%Q (dget node_ip last_used)).

(** [sorted] computes each key once, before comparing. *)
Definition _sort_based_on_last_used (nodes : list NodeID) (last_used : dict NodeIP Q) :
    result (list NodeID) :=
  keyed ← foldM (λ acc node_id, t ← last_time_used last_used node_id; Ok (acc ++ [(node_id, t)]))
            [] nodes;
  Ok (py_sorted_rev Qcompare snd keyed).*1.

(** [available_node_types[t]["resources"]], or what the node reported when that
    is empty. *)
Definition resources_or_static (self : StandardAutoscaler) (node_type : NodeType)
    (node_id : option NodeID) : result ResourceDict :=
  type_config ← dget_exn node_type (available_node_types (config self));
  node_resources ← config_resources type_config;
  match node_resources with
  | [] => ip ← internal_ip P node_id;
          Ok (dget_def ip [] (static_resources_by_ip (load_metrics self)))
  | _ => Ok node_resources
  end.

(** The workers with a type, each with its resources. *)
Definition worker_resources (self : StandardAutoscaler) (sorted_node_ids : list NodeID) :
    result (list (NodeID * ResourceDict)) :=
  foldM (λ acc node_id,
    tags ← node_tags P node_id;
    match dget TAG_RAY_USER_NODE_TYPE tags with
    | None => Ok acc
    | Some node_type =>
        res ← resources_or_static self node_type (Some node_id);
        Ok (acc ++ [(node_id, res)])
    end) [] sorted_node_ids.

(** The nodes whose resources the packing touched, or whose resources are unknown. *)
Definition touched (max_resources : list (NodeID * ResourceDict)) (used : list ResourceDict) :
    result (list NodeID) :=
  foldM (λ acc '(i, (node_id, res)),
    left ← of_option IndexError (used !! i);
    if res_eqb left res && negb (bool_decide (res = [])) then Ok acc
    else Ok (acc ++ [node_id])) [] (zip (seq 0 (length max_resources)) max_resources).

Definition _get_nodes_needed_for_request_resources (self : StandardAutoscaler)
    (sorted_node_ids : list NodeID) : result (list NodeID) :=
  head ← resources_or_static self (cfg_head_node_type (config self))
           (non_terminated_nodes self ≫= head_id);
  workers ← worker_resources self sorted_node_ids;
  '(_, used_resource_requests) ←
    get_bin_pack_residual (head :: workers.*2) (resource_requests (load_metrics self)) false;
  match used_resource_requests with
  | [] => Err IndexError
  | _ :: used => touched workers used
  end.

Inductive KeepOrTerminate := keep | terminate | decide_later.

(** [list(available_node_types)] in the reason is left out. *)
Definition _keep_worker_of_node_type (self : StandardAutoscaler) (node_id : NodeID)
    (node_type_counts : dict NodeType Z) : result (KeepOrTerminate * option string) :=
  tags ← node_tags P node_id;
  match dget TAG_RAY_USER_NODE_TYPE tags with
  | None => Ok (decide_later, None)
  | Some node_type =>
      match dget node_type (available_node_types (config self)) with
      | None => Ok (terminate, Some "not in available_node_types"%string)
      | Some type_config =>
          let min_workers := config_min_workers type_config in
          let max_workers := config_max_workers type_config in
          let new_count := dget_def node_type 0 node_type_counts + 1 in
          if new_count <=? Z.min min_workers max_workers then Ok (keep, None)
          else if max_workers <? new_count then Ok (terminate, Some "max_workers_per_type"%string)
          else Ok (decide_later, None)
      end
  end.

(** [keep_node], the closure that counts a kept node. *)
Definition keep_node (node_id : NodeID) (node_type_counts : dict NodeType Z) :
    result (dict NodeType Z) :=
  tags ← node_tags P node_id;
  Ok (match dget TAG_RAY_USER_NODE_TYPE tags with
      | Some node_type => dset node_type (dget_def node_type 0 node_type_counts + 1) node_type_counts
      | None => node_type_counts
      end).

(** One worker of the loop: the counts of kept nodes and the nodes that could
    go if there are too many. *)
Definition enforce_node (last_used : dict NodeIP Q) (horizon : Q) (needed : list NodeID)
    (s : dict NodeType Z * list NodeID) (node_id : NodeID) : M (dict NodeType Z * list NodeID) :=
  let '(node_type_counts, nodes_we_could_terminate) := s in
  self ← st_get;
  '(verdict, reason) ← st_lift (_keep_worker_of_node_type self node_id node_type_counts);
  match verdict with
  | terminate =>
      _ ← schedule_node_termination node_id reason;
      mret (node_type_counts, nodes_we_could_terminate)
  | _ =>
      let protected :=
        match verdict with keep => true | _ => bool_decide (node_id ∈ needed) end in
      config_ok ← (if protected then st_lift (launch_config_ok self node_id) else mret false);
      if config_ok : bool then
        counts ← st_lift (keep_node node_id node_type_counts);
        mret (counts, nodes_we_could_terminate)
      else
        node_ip ← st_lift (ip_of node_id);
        if match dget node_ip last_used with Some t => Qltb t horizon | None => false end then
          _ ← schedule_node_termination node_id (Some "idle"%string);
          mret (node_type_counts, nodes_we_could_terminate)
        else
          config_ok ← st_lift (launch_config_ok self node_id);
          if config_ok : bool then
            counts ← st_lift (keep_node node_id node_type_counts);
            mret (counts, nodes_we_could_terminate ++ [node_id])
          else
            _ ← schedule_node_termination node_id (Some "outdated"%string);
            mret (node_type_counts, nodes_we_could_terminate)
  end.

(** [num_extra_nodes_to_terminate], cut to the nodes that may go. *)
Definition num_extra (self : StandardAutoscaler) (num_workers : Z)
    (nodes_we_could_terminate : list NodeID) : Z :=
  Z.min (num_workers - len (nodes_to_terminate self) - cfg_max_workers (config self))
    (len nodes_we_could_terminate).

Definition terminate_nodes_to_enforce_config_constraints (now : Q) : M unit :=
  ntn ← the_nodes;
  self ← st_get;
  let last_used := last_used_time_by_ip (load_metrics self) in
  let horizon := (now - 60 * idle_timeout_minutes (config self))%Q in
  sorted_node_ids ← st_lift (_sort_based_on_last_used (worker_ids ntn) last_used);
  needed ← (match resource_requests (load_metrics self) with
            | [] => mret []
            | _ => st_lift (_get_nodes_needed_for_request_resources self sorted_node_ids)
            end);
  '(_, nodes_we_could_terminate) ←
    st_fold (enforce_node last_used horizon needed) ([], []) sorted_node_ids;
  self ← st_get;
  let n := num_extra self (len (worker_ids ntn)) nodes_we_could_terminate in
  _ ← (if 0 <? n then
         st_for (py_slice (- n) None nodes_we_could_terminate)
           (λ node_id, schedule_node_termination node_id (Some "max workers"%string))
       else mret tt);
  terminate_scheduled_nodes.

(** ** Health *)

Definition heartbeat_on_time (self : StandardAutoscaler) (node_id : NodeID) (now : Q) : result bool :=
  key ← ip_of node_id;
  Ok (match dget key (last_heartbeat_time_by_ip (load_metrics self)) with
      | Some last_heartbeat_time => Qltb (now - last_heartbeat_time) AUTOSCALER_HEARTBEAT_TIMEOUT_S
      | None => false
      end).

Definition mark_active (ip : NodeIP) : M unit :=
  st_modify (λ self,
    set_load_metrics (LoadMetrics.mark_active (load_metrics self) ip (e_mark_now env ip)) self).

Definition check_unhealthy (now : Q) (node_id : NodeID) : M unit :=
  tags ← st_lift (node_tags P node_id);
  node_status ← st_lift (dget_exn TAG_RAY_NODE_STATUS tags);
  if decide (node_status = STATUS_UP_TO_DATE) then
    ip ← st_lift (ip_of node_id);
    self ← st_get;
    _ ← (if is_active (load_metrics self) ip then mret tt else mark_active ip);
    self ← st_get;
    on_time ← st_lift (heartbeat_on_time self node_id now);
    if on_time : bool then mret tt
    else schedule_node_termination node_id (Some "lost contact with raylet"%string)
  else mret tt.

Definition terminate_unhealthy_nodes (now : Q) : M unit :=
  ntn ← the_nodes;
  _ ← st_for (worker_ids ntn) (check_unhealthy now);
  terminate_scheduled_nodes.

(** ** Updaters *)

Definition can_update (self : StandardAutoscaler) (node_id : NodeID) : result bool :=
  if disable_node_updaters (settings self) then Ok false
  else if din node_id (updaters self) then Ok false
  else
    config_ok ← launch_config_ok self node_id;
    if negb config_ok then Ok false
    else Ok (negb (0 <? dget_def node_id 0 (num_failed_updates self))).

Definition files_up_to_date (self : StandardAutoscaler) (node_id : NodeID) : result bool :=
  tags ← node_tags P node_id;
  let applied_config_hash := dget TAG_RAY_RUNTIME_CONFIG tags in
  let applied_file_mounts_contents_hash := dget TAG_RAY_FILE_MOUNTS_CONTENTS tags in
  Ok (bool_decide (applied_config_hash = Some (runtime_hash self))
      && (bool_decide (file_mounts_contents_hash self = None)
          || bool_decide (file_mounts_contents_hash self = applied_file_mounts_contents_hash))).

(** A field of the node's type, or else the cluster's. *)
Definition _get_node_type_specific_fields {A} (self : StandardAutoscaler) (node_id : NodeID)
    (fields : A) (type_fields : dict NodeType A) : result A :=
  tags ← node_tags P node_id;
  match dget TAG_RAY_USER_NODE_TYPE tags with
  | None => Ok fields
  | Some node_type =>
      if din node_type (available_node_types (config self))
      then Ok (dget_def node_type fields type_fields)
      else Err ValueError
  end.

(** The cluster's docker configuration and the fields of the node's type that
    overwrite it; [None] is the empty dict. *)
Definition _get_node_specific_docker_config (self : StandardAutoscaler) (node_id : NodeID) :
    result (option (string * string)) :=
  match docker (config self) with
  | None => Ok None
  | Some d =>
      node_specific_docker ←
        _get_node_type_specific_fields self node_id d (type_docker (config self));
      Ok (Some (d, node_specific_docker))
  end.

(** [UpdateInstructions], or nothing for "no update". *)
Abbreviation UpdateInstructions :=
  (option (NodeID * Commands * Commands * option (string * string)))%type.

Definition should_update (self : StandardAutoscaler) (node_id : NodeID) :
    result UpdateInstructions :=
  can ← can_update self node_id;
  if negb can then Ok None
  else
    tags ← node_tags P node_id;
    up_to_date ←
      (if bool_decide (dget TAG_RAY_NODE_STATUS tags = Some STATUS_UP_TO_DATE)
       then files_up_to_date self node_id else Ok false);
    if up_to_date : bool then Ok None
    else
      let cfg := config self in
      let specific_setup :=
        _get_node_type_specific_fields self node_id (worker_setup_commands cfg)
          (type_setup_commands cfg) in
      let successful_updated := 0 <? dget_def node_id 0 (num_successful_updates self) in
      '(setup_commands, ray_start_commands) ←
        (if successful_updated && restart_only cfg then Ok ([], worker_start_ray_commands cfg)
         else if successful_updated && no_restart cfg then
           setup ← specific_setup; Ok (setup, [])
         else setup ← specific_setup; Ok (setup, worker_start_ray_commands cfg));
      docker_config ← _get_node_specific_docker_config self node_id;
      Ok (Some (node_id, setup_commands, ray_start_commands, docker_config)).

(** [updater.start()] and [self.updaters[node_id] = updater]. *)
Definition start_updater (node_id : NodeID) (u : Updater) : M unit :=
  _ ← log_action (StartUpdater node_id u);
  st_modify (λ self, set_updaters (dset node_id u (updaters self)) self).

(** The ip of the head is put into the commands; their text is not modelled. *)
Definition head_ip : M NodeIP :=
  ntn ← the_nodes; st_lift (internal_ip P (head_id ntn)).

Definition spawn_updater (node_id : NodeID) (setup_commands ray_start_commands : Commands)
    (docker_config : option (string * string)) : M unit :=
  ip ← st_lift (ip_of node_id);
  node_type ← st_lift (_get_node_type node_id);
  _ ← track node_id ip node_type;
  _ ← head_ip;
  self ← st_get;
  init ← st_lift (_get_node_type_specific_fields self node_id
                    (initialization_commands (config self))
                    (type_initialization_commands (config self)));
  start_updater node_id
    {| upd_initialization_commands := init; upd_setup_commands := setup_commands;
       upd_ray_start_commands := ray_start_commands; upd_docker_config := docker_config;
       for_recovery := false |}.

(** An exception ends the thread it is raised in, not the update (which joins the
    thread, so a loop that does not end is not left). *)
Definition in_thread (m : M unit) : M unit := λ self,
  match m self with
  | (self, Err OutOfFuel) => (self, Err OutOfFuel)
  | (self, _) => (self, Ok tt)
  end.

(** The threads are started after all instructions are computed and are joined; they
    touch different nodes and run here in the order of the nodes. *)
Definition update_nodes : M unit :=
  ntn ← the_nodes;
  self ← st_get;
  instructions ← st_lift (foldM (λ acc node_id,
      i ← should_update self node_id;
      match i with
      | Some i => _ ← node_tags P node_id; Ok (acc ++ [i])
      | None => Ok acc
      end) [] (worker_ids ntn));
  st_for instructions (λ '(node_id, setup, start, docker_config),
    in_thread (spawn_updater node_id setup start docker_config)).

Definition complete_update (failed_nodes : list NodeID) (node_id : NodeID) : M (list NodeID) :=
  failed_nodes ←
    (if bool_decide (e_exitcode env node_id = Some 0) then
       _ ← st_modify (λ self, set_num_successful_updates
             (dset node_id (dget_def node_id 0 (num_successful_updates self) + 1)
                (num_successful_updates self)) self);
       ip ← st_lift (ip_of node_id);
       _ ← mark_active ip;
       mret failed_nodes
     else
       _ ← st_modify (λ self, set_num_failed_updates
             (dset node_id (dget_def node_id 0 (num_failed_updates self) + 1)
                (num_failed_updates self)) self);
       _ ← untrack node_id;
       mret (failed_nodes ++ [node_id]));
  _ ← st_modify (λ self, set_updaters (ddel node_id (updaters self)) self);
  mret failed_nodes.

Definition process_completed_updates : M unit :=
  self ← st_get;
  let completed_nodes :=
    filter (λ n, e_exitcode env n ≠ None) (dkeys (updaters self)) in
  failed_nodes ← st_fold complete_update [] completed_nodes;
  match failed_nodes with
  | [] => mret tt
  | _ =>
      ntn ← the_nodes;
      _ ← st_for failed_nodes (λ node_id,
            if decide (node_id ∈ worker_ids ntn)
            then schedule_node_termination node_id (Some "launch failed"%string)
            else mret tt);
      terminate_scheduled_nodes
  end.

Definition recover_if_needed (now : Q) (node_id : NodeID) : M unit :=
  self ← st_get;
  can ← st_lift (can_update self node_id);
  if negb can then mret tt
  else
    on_time ← st_lift (heartbeat_on_time self node_id now);
    if on_time : bool then mret tt
    else
      node_type ← st_lift (_get_node_type node_id);
      _ ← add_event ("Restarting {} nodes of type " +:+ node_type
                     +:+ " (lost contact with raylet).") 1;
      _ ← head_ip;
      _ ← st_lift (node_tags P node_id);
      start_updater node_id
        {| upd_initialization_commands := []; upd_setup_commands := [];
           upd_ray_start_commands := worker_start_ray_commands (config self);
           upd_docker_config := (λ d, (d, d)) <$> docker (config self);
           for_recovery := true |}.

Definition attempt_to_recover_unhealthy_nodes (now : Q) : M unit :=
  ntn ← the_nodes;
  st_for (worker_ids ntn) (recover_if_needed now).

(** ** Launching *)

(** [ConcurrentCounter.inc] and [dec] of [util.py]. *)
Definition pending_inc (node_type : NodeType) (count : Z) : M unit :=
  st_modify (λ self, set_pending_launches
    (dset node_type (dget_def node_type 0 (pending_launches self) + count)
       (pending_launches self)) self).

Definition pending_dec (node_type : NodeType) (count : Z) : M unit :=
  _ ← st_modify (λ self, set_pending_launches
        (dset node_type (dget_def node_type 0 (pending_launches self) - count)
           (pending_launches self)) self);
  self ← st_get;
  st_lift (py_assert (0 <=? dget_def node_type 0 (pending_launches self))).

Definition update_availability (node_type : NodeType) (e : option Availability.NodeLaunchException) :
    M unit :=
  st_modify (λ self, set_availability
    (Availability.update_node_availability
       Availability.AUTOSCALER_NODE_AVAILABILITY_MAX_STALENESS_S (availability self)
       node_type (e_now env) e (e_now env)) self).

(** [_launch_node]: what it checks before it asks the provider, and the request. *)
Definition _launch_node (launch_config : Config) (count : Z) (node_type : NodeType) : M unit :=
  self ← st_get;
  _ ← st_lift (py_assert (negb (launcher_has_types (settings self))
                          || negb (bool_decide (node_type = ""%string))));
  type_config ← st_lift (dget_exn node_type (available_node_types launch_config));
  _ ← (if decide (node_type = ""%string) then mret tt
       else _ ← st_lift (of_option KeyError (nt_node_config type_config)); mret tt);
  _ ← st_lift (config_resources type_config);
  match e_create env node_type count with
  | Created => log_action (CreateNodes node_type count)
  | LaunchFailed e => _ ← update_availability node_type (Some e); st_raise PyException
  | CreateRaised => st_raise PyException
  end.

(** [try: m except Exception: h else: k] *)
Definition try_else (m h k : M unit) : M unit := λ self,
  match m self with
  | (self, Ok _) => k self
  | (self, Err OutOfFuel) => (self, Err OutOfFuel)
  | (self, Err _) => h self
  end.

(** [launch_node] of [BaseNodeLauncher]; the text of the traceback is left out. *)
Definition launch_node (launch_config : Config) (count : Z) (node_type : NodeType) : M unit :=
  _ ← try_else (_launch_node launch_config count node_type)
        (_ ← add_event ("Failed to launch {} nodes of type " +:+ node_type +:+ ".") count;
         st_modify (λ self, set_event_summarizer
           (EventSummarizer.add_once_per_interval (event_summarizer self)
              "Node creation failed." "Failed to create node." 60 (e_now env)) self))
        (update_availability node_type None);
  pending_dec node_type count.

(** Where a call of [launch_new_node] is, with its local variables: at its start, at the
    head of [while count > 0] with its copy of the configuration, or at its end.  Launcher
    threads run between two steps: the counter and the queue are shared with them, each
    step makes at most one put, and the counter is incremented before the first. *)
Inductive LaunchPc :=
  | LaunchStart (count : Z) (node_type : NodeType)
  | LaunchLoop (launch_config : Config) (count : Z) (node_type : NodeType)
  | LaunchDone.

(** [self.launch_queue.put(...)] *)
Definition queue_put (d : NodeLaunchData) : M unit :=
  st_modify (λ self, set_launch_queue (launch_queue self ++ [d]) self).

(** From one point of [launch_new_node] to the next. *)
Definition launch_step (pc : LaunchPc) : M LaunchPc :=
  match pc with
  | LaunchStart count node_type =>
      _ ← add_event ("Adding {} nodes of type " +:+ node_type +:+ ".") count;
      _ ← pending_inc node_type count;
      self ← st_get;
      if foreground_node_launch (settings self) then
        _ ← launch_node (config self) count node_type; mret LaunchDone
      else mret (LaunchLoop (config self) count node_type)
  | LaunchLoop launch_config count node_type =>
      if 0 <? count then
        self ← st_get;
        _ ← queue_put (launch_config, Z.min count (max_launch_batch (settings self)), node_type);
        mret (LaunchLoop launch_config (count - max_launch_batch (settings self)) node_type)
      else mret LaunchDone
  | LaunchDone => mret LaunchDone
  end.

(** The steps of one call without a launcher in between. *)
Fixpoint launch_run (fuel : nat) (pc : LaunchPc) : M unit :=
  match pc with
  | LaunchDone => mret tt
  | _ => match fuel with
         | O => st_raise OutOfFuel
         | S fuel => pc ← launch_step pc; launch_run fuel pc
         end
  end.

(** The whole call: a step to the loop, one per batch and one to leave it.  When
    [max_launch_batch] is not positive the loop does not end. *)
Definition launch_new_node (count : Z) (node_type : NodeType) : M unit :=
  launch_run (2 + Z.to_nat count) (LaunchStart count node_type).

Definition launch_required_nodes (to_launch : dict NodeType Z) : M unit :=
  st_for to_launch (λ '(node_type, count), launch_new_node count node_type).

(** ** Reports *)

(** [sub in s] *)
Fixpoint str_contains (sub s : string) : bool :=
  String.prefix sub s ||
  match s with EmptyString => false | String _ s => str_contains sub s end.

Definition add_once (message key : string) : M unit :=
  st_modify (λ self, set_event_summarizer
    (EventSummarizer.add_once_per_interval (event_summarizer self) message key 30 (e_now env)) self).

(** The unfulfilled requests, less those of placement groups, that some node
    type could carry, and those that none could. *)
Definition split_unfulfilled (sched : ResourceDemandScheduler) (unfulfilled : list ResourceDict) :
    result (list ResourceDict * list ResourceDict) :=
  foldM (λ '(pending, infeasible) bundle,
    if existsb (λ k, str_contains "_group_" k || bool_decide (k = "bundle"%string)) (dkeys bundle)
    then Ok (pending, infeasible)
    else
      feasible ← is_feasible sched bundle;
      Ok (if feasible : bool then (pending ++ [bundle], infeasible)
          else (pending, infeasible ++ [bundle]))) ([], []) unfulfilled.

(** The messages are those of the code up to the advice at their end; the keys
    render the sorted items. *)
Definition _report_pending_infeasible (unfulfilled : list ResourceDict) : M unit :=
  self ← st_get;
  '(pending, infeasible) ← st_lift (split_unfulfilled (scheduler self) unfulfilled);
  let sorted_items (r : ResourceDict) : ResourceDict :=
    py_sorted (pair_cmp String.compare Qcompare) id r in
  _ ← (if cluster_full_of_actors_detected (load_metrics self) then
         st_for pending (λ request,
           add_once ("Warning: The following resource request cannot be scheduled right now: "
                     +:+ repr_request request) ("pending_" +:+ repr_request (sorted_items request)))
       else mret tt);
  st_for infeasible (λ request,
    add_once ("Error: No available node types can fulfill resource request "
              +:+ repr_request request) ("infeasible_" +:+ repr_request (sorted_items request))).

Record AutoscalerSummary := {
  active_nodes : dict NodeType Z;
  pending_nodes : list (NodeIP * NodeType * string);
  summary_pending_launches : dict NodeType Z;
  failed_nodes : list (NodeIP * NodeType);
  node_availability_summary : dict NodeType Availability.NodeAvailabilityRecord;
}.

(** One node of the summary: the active counts, the pending nodes and the nodes
    that have not failed. *)
Definition summarize_node (lm : LoadMetrics)
    (s : dict NodeType Z * list (NodeIP * NodeType * string) * gset NodeID) (node_id : NodeID) :
    result (dict NodeType Z * list (NodeIP * NodeType * string) * gset NodeID) :=
  let '(active, pending, non_failed) := s in
  ip ← ip_of node_id;
  tags ← node_tags P node_id;
  match dget TAG_RAY_NODE_KIND tags, dget TAG_RAY_USER_NODE_TYPE tags, dget TAG_RAY_NODE_STATUS tags with
  | Some kind, Some node_type, Some status =>
      if decide (kind = NODE_KIND_UNMANAGED) then Ok s
      else if is_active lm ip then
        Ok (dset node_type (dget_def node_type 0 active + 1) active, pending,
            {[node_id]} ∪ non_failed)
      else if decide (status ∈ [STATUS_UP_TO_DATE; STATUS_UPDATE_FAILED]) then Ok s
      else Ok (active, pending ++ [(ip, node_type, status)], {[node_id]} ∪ non_failed)
  | _, _, _ => Ok s
  end.

(** [summary] writes to the availability tracker only: it drops old entries. *)
Definition summary : M (option AutoscalerSummary) :=
  self ← st_get;
  match non_terminated_nodes self with
  | None => mret None
  | Some ntn =>
      '(active, pending, non_failed) ←
        st_lift (foldM (summarize_node (load_metrics self)) ([], [], ∅) (all_node_ids ntn));
      failed ← st_lift (NodeTracker.get_all_failed_node_info (node_tracker self) non_failed);
      let '(store, avail) := Availability.summary (availability self) (e_now env) in
      _ ← st_modify (set_availability store);
      mret (Some {| active_nodes := active; pending_nodes := pending;
                    summary_pending_launches :=
                      List.filter (λ '(_, count), negb (count =? 0)) (pending_launches self);
                    failed_nodes := failed; node_availability_summary := avail |})
  end.

(** The scheduler asks the same provider as the loop. *)
Definition with_provider (sched : ResourceDemandScheduler) : ResourceDemandScheduler :=
  {| provider := P; node_types := node_types sched;
     node_resource_updated := node_resource_updated sched; max_workers := max_workers sched;
     head_node_type := head_node_type sched; upscaling_speed := upscaling_speed sched |}.

(** [info_string] and [legacy_log_info_string], less their texts: what they
    compute on the way may raise. *)
Definition log_info_strings : M unit :=
  self ← st_get;
  _ ← st_lift (LoadMetrics.summary (load_metrics self));
  s ← summary;
  _ ← st_lift (of_option AssertionError s);
  ntn ← the_nodes;
  _ ← st_lift (_get_resource_usage (load_metrics self));
  _ ← st_lift (calculate_node_resources (with_provider (scheduler self)) (worker_ids ntn)
                 (pending_launches self) (dynamic_resources_by_ip (load_metrics self)));
  mret tt.

(** ** The update *)

(** The speed when the configuration has none: the legacy settings, or 1. *)
Definition upscaling_default (c : Config) : Q :=
  if bool_decide (autoscaling_mode c = Some "aggressive"%string) then 99999
  else match target_utilization_fraction c with
       | Some f => if negb (Qeq_bool f 0) then (1 / (if Qltb f (1 # 1000) then 1 # 1000 else f) - 1)%Q
                   else 1
       | None => 1
       end.

Definition upscaling_speed_of (c : Config) : Q :=
  match cfg_upscaling_speed c with
  | Some speed => if negb (Qeq_bool speed 0) then speed else upscaling_default c
  | None => upscaling_default c
  end.

(** The body of [reset]: an exception may leave the new configuration with the
    old scheduler. *)
Definition reset_body : M unit :=
  new_config ← st_lift (e_config env);
  '(new_runtime_hash, new_contents_hash) ← st_lift (e_hashes env);
  _ ← st_modify (set_config new_config);
  _ ← st_modify (set_runtime_hash new_runtime_hash);
  _ ← st_modify (set_file_mounts_contents_hash new_contents_hash);
  self ← st_get;
  sched ← st_lift (reset_config (scheduler self) P (available_node_types new_config)
                     (cfg_max_workers new_config) (cfg_head_node_type new_config)
                     (upscaling_speed_of new_config));
  st_modify (set_scheduler sched).

(** [reset(errors_fatal=False)] *)
Definition reset : M unit := in_thread reset_body.

(** The part of [_update] that a read-only provider skips. *)
Definition maintain_nodes (now : Q) : M unit :=
  _ ← terminate_nodes_to_enforce_config_constraints now;
  self ← st_get;
  let liveness := worker_liveness_check (settings self) in
  if disable_node_updaters (settings self) then
    if liveness then terminate_unhealthy_nodes now else mret tt
  else
    _ ← process_completed_updates;
    _ ← update_nodes;
    if liveness then attempt_to_recover_unhealthy_nodes now else mret tt.

(** [self.resource_demand_scheduler.get_nodes_to_launch(...)] *)
Definition ask_scheduler : M (dict NodeType Z * list ResourceDict) :=
  ntn ← the_nodes;
  self ← st_get;
  let lm := load_metrics self in
  '(sched, decision) ←
    st_lift (get_nodes_to_launch AUTOSCALER_CONSERVE_GPU_NODES (with_provider (scheduler self))
      (all_node_ids ntn) (pending_launches self) (get_resource_demand_vector lm true)
      (dynamic_resources_by_ip lm) (pending_placement_groups lm) (static_resources_by_ip lm)
      (Some (resource_requests lm)));
  _ ← st_modify (set_scheduler sched);
  mret decision.

Definition _update : M unit :=
  let now := e_now env in
  self ← st_get;
  if Qltb (now - last_update_time self) (update_interval_s (settings self)) then mret tt
  else
    _ ← st_modify (set_last_update_time now);
    ntn ← st_lift make_non_terminated_nodes;
    _ ← st_modify (set_non_terminated_nodes (Some ntn));
    _ ← st_modify (set_nodes_to_terminate []);
    active_ips ← st_lift (foldM (λ acc n, ip ← ip_of n; Ok (acc ++ [ip])) [] (all_node_ids ntn));
    lm ← st_lift (prune_active_ips (load_metrics self) active_ips);
    _ ← st_modify (set_load_metrics lm);
    _ ← log_info_strings;
    _ ← (if e_readonly env then mret tt else maintain_nodes now);
    '(to_launch, unfulfilled) ← ask_scheduler;
    _ ← _report_pending_infeasible unfulfilled;
    if e_readonly env then mret tt else launch_required_nodes to_launch.

(** The handler of [update]: [self.config["provider"]["type"]] raises [KeyError] when
    the configuration has none; failures are counted, and raised when there are too
    many. *)
Definition update_handler (e : exn) : M unit := λ self,
  match provider_type (config self) with
  | None => (self, Err KeyError)
  | Some provider_type =>
      let is_k8s_connection_error :=
        bool_decide (provider_type = "kubernetes"%string) && bool_decide (e = MaxRetryError) in
      let self :=
        if is_k8s_connection_error then self else set_num_failures (num_failures self + 1) self in
      (self, if max_failures (settings self) <? num_failures self then Err e else Ok tt)
  end.

(** [update].  A loop that does not end is no exception: nothing catches it. *)
Definition update : M unit := λ self,
  match (_ ← reset; _update) self with
  | (self, Ok _) => (self, Ok tt)
  | (self, Err OutOfFuel) => (self, Err OutOfFuel)
  | (self, Err e) => update_handler e self
  end.
End loop.
