(* ===== verification/AutoscalerProofs.v ===== *)
(** * Properties of the autoscaler's main loop

    The sweep over the workers as a relation with its invariants, the accounting
    of launches, and the composition of an update with the resource demand
    scheduler. *)
From S2P Require Import Prelude PyStrings PyLists BinPack BinPackProofs DemandScheduler DemandSchedulerProofs LoadMetrics LoadMetricsProofs AutoscalerTrackers Autoscaler.
From stdpp Require Import base tactics list gmap strings sorting.
From Stdlib Require Import QArith Lqa.

#[local] Open Scope Z_scope.
Import BinPack Tags.

Section sweep.
Context (env : Env).
Context (hash_launch_conf conf_update : string → string → string).

Abbreviation P := (e_provider env).
Abbreviation M := (ST StandardAutoscaler).
Abbreviation launch_config_ok := (launch_config_ok env hash_launch_conf conf_update).
Abbreviation enforce_node := (enforce_node env hash_launch_conf conf_update).

(** ** What scheduling a termination writes *)

(** [s'] is [s] after the nodes of [l] were scheduled for termination. *)
Definition scheduled (l : list NodeID) (s s' : StandardAutoscaler) : Prop :=
  ∃ ev, s' = set_nodes_to_terminate (nodes_to_terminate s ++ l) (set_event_summarizer ev s).

Lemma scheduled_nil s : scheduled [] s s.
Proof. exists (event_summarizer s). rewrite app_nil_r. by destruct s. Qed.

Lemma scheduled_trans l1 l2 s1 s2 s3 :
  scheduled l1 s1 s2 → scheduled l2 s2 s3 → scheduled (l1 ++ l2) s1 s3.
Proof. intros [e1 ->] [e2 ->]. exists e2. cbn. by rewrite app_assoc. Qed.

Lemma schedule_spec n r s s' u :
  schedule_node_termination env n r s = (s', Ok u) → scheduled [n] s s'.
Proof.
  unfold schedule_node_termination, add_event. intros Hs. inv_st. by eexists.
Qed.

(** ** The sweep as a relation *)

Definition type_of (n : NodeID) : option NodeType :=
  match node_tags P n with Ok tags => dget TAG_RAY_USER_NODE_TYPE tags | Err _ => None end.

Definition bump (n : NodeID) (counts : dict NodeType Z) : dict NodeType Z :=
  match type_of n with
  | Some t => dset t (dget_def t 0 counts + 1) counts
  | None => counts
  end.

(** The state, the times of last use, the horizon and the needed nodes of a sweep. *)
Context (s0 : StandardAutoscaler) (last_used : dict NodeIP Q) (horizon : Q) (needed : list NodeID).

Abbreviation types := (available_node_types (config s0)).

Definition idle (n : NodeID) : Prop :=
  ∃ ip t, internal_ip P (Some n) = Ok ip ∧ dget ip last_used = Some t ∧ (t < horizon)%Q.

Definition up_to_date (n : NodeID) : Prop := launch_config_ok s0 n = Ok true.

(** The node's type is gone from the configuration, or has its maximum already. *)
Definition unwanted (counts : dict NodeType Z) (n : NodeID) : Prop :=
  ∃ t, type_of n = Some t ∧
    (dget t types = None ∨
     ∃ c, dget t types = Some c ∧ config_max_workers c < dget_def t 0 counts + 1).

(** The node is one of the first [min_workers] of its type. *)
Definition under_min (counts : dict NodeType Z) (n : NodeID) : Prop :=
  ∃ t c, type_of n = Some t ∧ dget t types = Some c ∧
    dget_def t 0 counts + 1 <= Z.min (config_min_workers c) (config_max_workers c).

Definition protected (counts : dict NodeType Z) (n : NodeID) : Prop :=
  under_min counts n ∨ n ∈ needed.

(** [sweep counts l T K C counts']: from the counts of kept nodes [counts], the
    loop over [l] terminates [T], keeps [K] and leaves [C] to be
    terminated if there are too many. *)
Inductive sweep : dict NodeType Z → list NodeID → list NodeID → list NodeID → list NodeID →
    dict NodeType Z → Prop :=
  | sweep_nil counts : sweep counts [] [] [] [] counts
  | sweep_terminate counts n l T K C counts' :
      (unwanted counts n ∨
       ((idle n ∨ launch_config_ok s0 n = Ok false) ∧ ¬ (protected counts n ∧ up_to_date n))) →
      sweep counts l T K C counts' → sweep counts (n :: l) (n :: T) K C counts'
  | sweep_keep counts n l T K C counts' :
      protected counts n → up_to_date n → ¬ unwanted counts n →
      sweep (bump n counts) l T K C counts' → sweep counts (n :: l) T (n :: K) C counts'
  | sweep_could counts n l T K C counts' :
      ¬ protected counts n → up_to_date n → ¬ unwanted counts n → ¬ idle n →
      sweep (bump n counts) l T K C counts' → sweep counts (n :: l) T K (n :: C) counts'.

(** ** The code implements the relation *)

Lemma keep_node_spec n counts counts' :
  keep_node env n counts = Ok counts' → counts' = bump n counts.
Proof. unfold keep_node, bump, type_of. intros Hk. inv_ok. by rewrite H. Qed.

Lemma verdict_spec n counts v r :
  _keep_worker_of_node_type env s0 n counts = Ok (v, r) →
  match v with
  | terminate => unwanted counts n
  | keep => under_min counts n ∧ ¬ unwanted counts n
  | decide_later => ¬ under_min counts n ∧ ¬ unwanted counts n
  end.
Proof.
  unfold _keep_worker_of_node_type, unwanted, under_min, type_of. intros Hk.
  apply bind_Ok in Hk as (tags & Htags & Hk). rewrite Htags.
  destruct (dget TAG_RAY_USER_NODE_TYPE tags) as [t|] eqn:Ht; [|naive_solver].
  destruct (dget t types) as [c|] eqn:Hc; [|simplify_eq; naive_solver].
  destruct (Z.leb_spec (dget_def t 0 counts + 1) (Z.min (config_min_workers c) (config_max_workers c))).
  - simplify_eq. split; [by eexists _, _|]. intros (t' & [= <-] & [?|(c' & ? & ?)]); simplify_eq. lia.
  - destruct (Z.ltb_spec (config_max_workers c) (dget_def t 0 counts + 1)); simplify_eq.
    + exists t. split; [done|]. right. by exists c.
    + split; [intros (t' & c' & [= <-] & ? & ?)|intros (t' & [= <-] & [?|(c' & ? & ?)])];
        simplify_eq; lia.
Qed.

(** An iteration on a node that is not unwanted; [prot] is whether it is protected. *)
Lemma enforce_rest counts could n (prot : bool) s s' counts' could' :
  (protected counts n ↔ prot = true) → ¬ unwanted counts n →
  launch_config_ok s n = launch_config_ok s0 n →
  (config_ok ← (if prot then st_lift (launch_config_ok s n) else mret false);
   if config_ok : bool then
     counts ← st_lift (keep_node env n counts); mret (counts, could)
   else
     node_ip ← st_lift (internal_ip P (Some n));
     if match dget node_ip last_used with Some t => Qltb t horizon | None => false end then
       _ ← schedule_node_termination env n (Some "idle"%string); mret (counts, could)
     else
       config_ok ← st_lift (launch_config_ok s n);
       if config_ok : bool then
         counts ← st_lift (keep_node env n counts); mret (counts, could ++ [n])
       else
         _ ← schedule_node_termination env n (Some "outdated"%string); mret (counts, could)) s
  = (s', Ok (counts', could')) →
  (counts' = counts ∧ could' = could ∧ scheduled [n] s s' ∧
   (unwanted counts n ∨
    ((idle n ∨ launch_config_ok s0 n = Ok false) ∧ ¬ (protected counts n ∧ up_to_date n)))) ∨
  (counts' = bump n counts ∧ could' = could ∧ s' = s ∧
   protected counts n ∧ up_to_date n ∧ ¬ unwanted counts n) ∨
  (counts' = bump n counts ∧ could' = could ++ [n] ∧ s' = s ∧
   ¬ protected counts n ∧ up_to_date n ∧ ¬ unwanted counts n ∧ ¬ idle n).
Proof.
  intros Hprot Hnu Hlc He. rewrite Hlc in He. apply st_bind_Ok in He as (s1 & ok & Hok & He).
  assert (s1 = s ∧ (if prot then launch_config_ok s0 n = Ok ok else ok = false)) as [-> Hok'].
  { destruct prot; unfold mret, st_ret, st_lift in Hok; by simplify_eq. }
  clear Hok. unfold up_to_date. destruct ok.
  - inv_st. match goal with H : keep_node _ _ _ = _ |- _ => apply keep_node_spec in H as -> end.
    destruct prot; [|done]. right. left. tauto.
  - apply st_bind_Ok in He as (s1 & ip & Hip & He). unfold st_lift in Hip. simplify_eq.
    assert (idle n ↔ match dget ip last_used with Some t => Qltb t horizon | None => false end = true)
      as Hidle.
    { unfold idle. split.
      - intros (ip' & t & Hip' & Ht & Hlt). assert (ip' = ip) as -> by congruence.
        rewrite Ht. by apply Qltb_true.
      - destruct (dget ip last_used) as [t|] eqn:Ht; [|done]. intros ?%Qltb_true. by eauto. }
    destruct (match dget ip last_used with Some t => Qltb t horizon | None => false end).
    + apply st_bind_Ok in He as (s2 & u & Hsch & He). inv_st. apply schedule_spec in Hsch. left.
      split_and!; [done|done|done|]. right. split; [tauto|]. intros [Hp Hup].
      destruct prot; [congruence|]. destruct Hprot as [Hprot _]. by specialize (Hprot Hp).
    + apply st_bind_Ok in He as (s2 & ok & Hok & He). unfold st_lift in Hok. simplify_eq.
      assert (¬ idle n) as Hni by (rewrite Hidle; done). destruct ok.
      * inv_st. match goal with H : keep_node _ _ _ = _ |- _ => apply keep_node_spec in H as -> end.
        right. right. split_and!; try done. rewrite Hprot. destruct prot; [congruence|done].
      * apply st_bind_Ok in He as (s3 & u & Hsch & He). inv_st. apply schedule_spec in Hsch. left.
        split_and!; [done|done|done|]. right. split; [tauto|]. intros [_ Hup]. congruence.
Qed.

(** One iteration: it reads the state only through what the loop does not change. *)
Lemma enforce_node_spec counts could n s s' counts' could' :
  (∃ ev nt, s = set_nodes_to_terminate nt (set_event_summarizer ev s0)) →
  enforce_node last_used horizon needed (counts, could) n s = (s', Ok (counts', could')) →
  (counts' = counts ∧ could' = could ∧ scheduled [n] s s' ∧
   (unwanted counts n ∨
    ((idle n ∨ launch_config_ok s0 n = Ok false) ∧ ¬ (protected counts n ∧ up_to_date n)))) ∨
  (counts' = bump n counts ∧ could' = could ∧ s' = s ∧
   protected counts n ∧ up_to_date n ∧ ¬ unwanted counts n) ∨
  (counts' = bump n counts ∧ could' = could ++ [n] ∧ s' = s ∧
   ¬ protected counts n ∧ up_to_date n ∧ ¬ unwanted counts n ∧ ¬ idle n).
Proof.
  intros (ev & nt & Hs) He. unfold Autoscaler.enforce_node in He.
  assert (∀ c, _keep_worker_of_node_type env s n c = _keep_worker_of_node_type env s0 n c) as Hkw
    by (by subst s).
  assert (launch_config_ok s n = launch_config_ok s0 n) as Hlc by (by subst s). clear Hs.
  apply st_bind_Ok in He as (s1 & self & Hget & He). unfold st_get in Hget. injection Hget as <- <-.
  apply st_bind_Ok in He as (s2 & [v r] & Hv & He). unfold st_lift in Hv. injection Hv as <- Hv.
  rewrite Hkw in Hv. pose proof (verdict_spec _ _ _ _ Hv) as Hver.
  assert (v = terminate ∨ (v ≠ terminate ∧ ¬ unwanted counts n ∧
    (protected counts n ↔ match v with keep => true | _ => bool_decide (n ∈ needed) end = true)))
    as [->|(Hnt & Hnu & Hprot)].
  { unfold protected. destruct v; [right|by left|right]; split_and!; try tauto; try done.
    rewrite bool_decide_eq_true. tauto. }
  - apply st_bind_Ok in He as (s3 & u & Hsch & He). inv_st. apply schedule_spec in Hsch.
    left. split_and!; [done|done|done|by left].
  - destruct v; [|done|]; clear Hnt Hver Hv Hkw;
      (eapply enforce_rest; [exact Hprot|exact Hnu|exact Hlc|exact He]).
Qed.

Lemma loop_sweep l : ∀ counts could s s' counts' could',
  (∃ ev nt, s = set_nodes_to_terminate nt (set_event_summarizer ev s0)) →
  st_fold (enforce_node last_used horizon needed) (counts, could) l s = (s', Ok (counts', could')) →
  ∃ T K C, sweep counts l T K C counts' ∧ could' = could ++ C ∧ scheduled T s s'.
Proof.
  induction l as [|n l IH]; intros counts could s s' counts' could' Hs Hf; cbn in Hf.
  - inv_st. exists [], [], []. rewrite app_nil_r. split_and!; [constructor|done|apply scheduled_nil].
  - apply st_bind_Ok in Hf as (s1 & [counts1 could1] & Hn & Hf).
    destruct (enforce_node_spec _ _ _ _ _ _ _ Hs Hn)
      as [(-> & -> & Hsch & Hr)|[(-> & -> & -> & ? & ? & ?)|(-> & -> & -> & ? & ? & ? & ?)]].
    + assert (∃ ev nt, s1 = set_nodes_to_terminate nt (set_event_summarizer ev s0)) as Hs1.
      { destruct Hs as (ev & nt & ->), Hsch as [ev' ->]. by eexists _, _. }
      destruct (IH _ _ _ _ _ _ Hs1 Hf) as (T & K & C & Hsw & -> & Hsch').
      exists (n :: T), K, C. split_and!; [by constructor|done|].
      by apply (scheduled_trans [n] T s s1 s').
    + destruct (IH _ _ _ _ _ _ Hs Hf) as (T & K & C & Hsw & -> & Hsch').
      exists T, (n :: K), C. split_and!; [by constructor|done|done].
    + destruct (IH _ _ _ _ _ _ Hs Hf) as (T & K & C & Hsw & -> & Hsch').
      exists T, K, (n :: C). split_and!; [by constructor|by rewrite <- app_assoc|done].
Qed.

(** ** What a sweep guarantees *)

(** The number of nodes of a type in a list. *)
Definition of_type (t : NodeType) (l : list NodeID) : Z :=
  len (List.filter (λ n, bool_decide (type_of n = Some t)) l).

Lemma of_type_cons t n l :
  of_type t (n :: l) = of_type t l + if decide (type_of n = Some t) then 1 else 0.
Proof.
  unfold of_type. cbn. case_decide.
  - rewrite bool_decide_true by done. apply len_cons.
  - rewrite bool_decide_false by done. lia.
Qed.

Lemma of_type_app t l1 l2 : of_type t (l1 ++ l2) = of_type t l1 + of_type t l2.
Proof. unfold of_type. by rewrite List.filter_app, len_app. Qed.

Lemma of_type_perm t l1 l2 : l1 ≡ₚ l2 → of_type t l1 = of_type t l2.
Proof.
  induction 1; rewrite ?of_type_cons; lia.
Qed.

Lemma of_type_nonneg t l : 0 <= of_type t l.
Proof. apply len_nonneg. Qed.

Lemma bump_get n counts t :
  dget_def t 0 (bump n counts) = dget_def t 0 counts + if decide (type_of n = Some t) then 1 else 0.
Proof.
  unfold bump. destruct (type_of n) as [t'|]; [|rewrite decide_False by done; lia].
  rewrite dget_def_dset. repeat case_decide; simplify_eq; lia.
Qed.

Lemma sweep_partition counts l T K C counts' :
  sweep counts l T K C counts' → l ≡ₚ T ++ K ++ C.
Proof.
  induction 1 as [|? n l T K C ? ? ? IH|? n l T K C ? ? ? ? ? IH|? n l T K C ? ? ? ? ? ? IH];
    cbn; [done|by rewrite IH|..].
  - rewrite IH. by rewrite Permutation_middle.
  - rewrite IH, !app_assoc. by rewrite Permutation_middle.
Qed.

(** The counts add up the kept nodes, and stay within the types' maxima. *)
Lemma sweep_counts counts l T K C counts' t :
  sweep counts l T K C counts' →
  dget_def t 0 counts' = dget_def t 0 counts + of_type t (K ++ C) ∧
  (0 < of_type t (K ++ C) →
   ∃ c, dget t types = Some c ∧ dget_def t 0 counts + of_type t (K ++ C) <= config_max_workers c).
Proof.
  assert (∀ counts n, ¬ unwanted counts n → type_of n = Some t →
    ∃ c, dget t types = Some c ∧ dget_def t 0 counts + 1 <= config_max_workers c) as Hwanted.
  { intros cs n Hn Ht. destruct (dget t types) as [c|] eqn:Hc.
    - exists c. split; [done|]. apply Z.nlt_ge. intros Hlt. apply Hn. exists t. split; [done|].
      right. exists c. auto.
    - destruct Hn. exists t. auto. }
  assert (∀ counts n l, ¬ unwanted counts n →
    (0 < of_type t l → ∃ c, dget t types = Some c ∧
       dget_def t 0 (bump n counts) + of_type t l <= config_max_workers c) →
    0 < of_type t (n :: l) → ∃ c, dget t types = Some c ∧
       dget_def t 0 counts + of_type t (n :: l) <= config_max_workers c) as Hstep.
  { intros cs n l' Hn IH Hpos. rewrite of_type_cons in *. rewrite bump_get in IH.
    pose proof (of_type_nonneg t l'). destruct (decide (0 < of_type t l')) as [Hp|Hp].
    - destruct (IH Hp) as (c & Hc & Hle). exists c. split; [done|]. lia.
    - case_decide; [|lia]. destruct (Hwanted cs n Hn) as (c & Hc & Hle); [done|].
      exists c. split; [done|lia]. }
  induction 1 as [cs|cs n l T K C ? ? ? IH|cs n l T K C ? ? ? Hu ? IH|cs n l T K C ? ? ? Hu ? ? IH].
  - cbn. unfold of_type, len. cbn. split; lia.
  - exact IH.
  - destruct IH as [IH1 IH2]. split; [|by apply (Hstep cs n (K ++ C))].
    rewrite IH1, bump_get, <- app_comm_cons, of_type_cons. lia.
  - destruct IH as [IH1 IH2].
    assert (of_type t (K ++ n :: C) = of_type t (n :: K ++ C)) as ->
      by (apply of_type_perm; by rewrite Permutation_middle).
    split; [|by apply (Hstep cs n (K ++ C))]. rewrite IH1, bump_get, of_type_cons. lia.
Qed.

Lemma sweep_kept counts l T K C counts' n :
  sweep counts l T K C counts' → n ∈ K ++ C → up_to_date n.
Proof.
  induction 1 as [|? ? ? ? ? ? ? ? ? IH|? m ? ? ? ? ? ? ? ? ? IH|? m ? ? K C ? ? ? ? ? ? IH].
  - by intros ?%not_elem_of_nil.
  - done.
  - cbn. by intros [->|Hin]%elem_of_cons; [|apply IH].
  - rewrite <- Permutation_middle. by intros [->|Hin]%elem_of_cons; [|apply IH].
Qed.

Definition is_up_to_date (n : NodeID) : bool :=
  match launch_config_ok s0 n with Ok b => b | Err _ => false end.

Lemma is_up_to_date_true n : is_up_to_date n = true ↔ up_to_date n.
Proof. unfold is_up_to_date, up_to_date. destruct (launch_config_ok s0 n) as [[]|]; naive_solver. Qed.

(** A node that was not protected has enough of its type before it. *)
Lemma not_under_min counts n t c :
  type_of n = Some t → dget t types = Some c → ¬ under_min counts n →
  Z.min (config_min_workers c) (config_max_workers c) <= dget_def t 0 counts.
Proof.
  intros Ht Hc Hn. apply Z.nlt_ge. intros Hlt. apply Hn. exists t, c. split_and!; [done|done|lia].
Qed.

(** The first [min_workers] up-to-date workers of a type are kept. *)
Lemma sweep_min counts l T K C counts' t c :
  sweep counts l T K C counts' → dget t types = Some c →
  Z.min (Z.min (config_min_workers c) (config_max_workers c) - dget_def t 0 counts)
    (of_type t (List.filter is_up_to_date l)) <= of_type t K.
Proof.
  intros Hsw Hc. induction Hsw as [cs|cs n l T K C ? Hr ? IH|cs n l T K C ? Hp Hup ? ? IH
    |cs n l T K C ? Hp Hup ? ? ? IH]; cbn.
  - unfold of_type, len. cbn. lia.
  - destruct (is_up_to_date n) eqn:Hup; [|done]. rewrite of_type_cons. case_decide as Ht; [|lia].
    pose proof (of_type_nonneg t K). apply is_up_to_date_true in Hup.
    destruct Hr as [(t' & Ht' & [Hnone|(c' & Hc' & Hlt)])|[_ Hnp]]; simplify_eq; [lia|].
    assert (¬ under_min cs n) as Hn by (intros Hu; apply Hnp; split; [by left|done]).
    pose proof (not_under_min cs n t c Ht Hc Hn). lia.
  - rewrite (proj2 (is_up_to_date_true n) Hup), !of_type_cons. rewrite bump_get in IH.
    case_decide; lia.
  - rewrite (proj2 (is_up_to_date_true n) Hup), !of_type_cons. rewrite bump_get in IH.
    case_decide as Ht; [|lia]. pose proof (of_type_nonneg t K).
    assert (¬ under_min cs n) as Hn by (intros Hu; apply Hp; by left).
    pose proof (not_under_min cs n t c Ht Hc Hn). lia.
Qed.

(** Why a node was terminated: its type is gone or full, or it is idle or outdated
    and was not both protected and up to date. *)
Lemma sweep_reason counts l T K C counts' n :
  sweep counts l T K C counts' → n ∈ T →
  (∃ t, type_of n = Some t ∧ dget t types = None) ∨
  (∃ t c, type_of n = Some t ∧ dget t types = Some c ∧ config_max_workers c <= dget_def t 0 counts') ∨
  ((idle n ∨ launch_config_ok s0 n = Ok false) ∧ (n ∈ needed → ¬ up_to_date n)).
Proof.
  assert (∀ cs l T K C cs', sweep cs l T K C cs' → ∀ t, dget_def t 0 cs <= dget_def t 0 cs') as Hmono.
  { intros cs l1 T1 K1 C1 cs' Hsw t. destruct (sweep_counts _ _ _ _ _ _ t Hsw) as [-> _].
    pose proof (of_type_nonneg t (K1 ++ C1)). lia. }
  induction 1 as [cs|cs m l T K C cs' Hr Hsw IH|? ? ? ? ? ? ? ? ? ? ? IH|? ? ? ? ? ? ? ? ? ? ? ? IH];
    [by intros ?%not_elem_of_nil| |done|done].
  intros [->|Hin]%elem_of_cons; [|by apply IH].
  destruct Hr as [(t & Ht & [Hnone|(c & Hc & Hlt)])|[Hio Hnp]].
  - left. by exists t.
  - right. left. exists t, c. split_and!; [done|done|]. specialize (Hmono _ _ _ _ _ _ Hsw t). lia.
  - right. right. split; [done|]. intros Hneed Hup. apply Hnp. split; [by right|done].
Qed.

(** Of the kept nodes that are not needed, each has a type, and there are no more
    of a type than its [min_workers]. *)
Lemma sweep_protected counts l T K C counts' :
  sweep counts l T K C counts' →
  let spare := List.filter (λ n, negb (bool_decide (n ∈ needed))) K in
  (∀ n, n ∈ spare → is_Some (type_of n)) ∧
  ∀ t, 0 < of_type t spare → ∃ c, dget t types = Some c ∧
    dget_def t 0 counts + of_type t spare <= Z.min (config_min_workers c) (config_max_workers c).
Proof.
  cbv zeta.
  induction 1 as [|? ? ? ? ? ? ? ? ? IH|cs m l T K C ? Hp ? ? ? [IH1 IH2]|cs m l T K C ? ? ? ? ? ? [IH1 IH2]].
  - split; [by intros ? ?%not_elem_of_nil|]. intros t. unfold of_type, len. cbn. lia.
  - exact IH.
  - cbn. case_bool_decide as Hneed; cbn.
    + split; [done|]. intros t Ht. destruct (IH2 t Ht) as (c & Hc & Hle). exists c. split; [done|].
      rewrite bump_get in Hle. case_decide; lia.
    + destruct Hp as [(t0 & c0 & Ht0 & Hc0 & Hle0)|]; [|done]. split.
      * intros n [->|Hn]%elem_of_cons; [by rewrite Ht0|by apply IH1].
      * intros t. rewrite of_type_cons. intros Hpos.
        destruct (decide (type_of m = Some t)) as [Ht|Ht].
        -- assert (t0 = t) as -> by congruence. exists c0. split; [done|].
           pose proof (of_type_nonneg t (List.filter (λ n, negb (bool_decide (n ∈ needed))) K)).
           destruct (decide (0 < of_type t (List.filter (λ n, negb (bool_decide (n ∈ needed))) K)))
             as [Hp|Hp]; [|lia].
           destruct (IH2 t Hp) as (c & Hc & Hle). rewrite bump_get, decide_True in Hle by done.
           assert (c = c0) as -> by congruence. lia.
        -- rewrite Z.add_0_r in *. destruct (IH2 t Hpos) as (c & Hc & Hle). exists c.
           rewrite bump_get, decide_False in Hle by done. split; [done|lia].
  - split; [done|]. intros t Ht. destruct (IH2 t Ht) as (c & Hc & Hle). exists c. split; [done|].
    rewrite bump_get in Hle. case_decide; lia.
Qed.

(** The nodes left to be terminated are not needed and not idle. *)
Lemma sweep_could_spec counts l T K C counts' n :
  sweep counts l T K C counts' → n ∈ C → n ∉ needed ∧ ¬ idle n.
Proof.
  induction 1 as [|? ? ? ? ? ? ? ? ? IH|? ? ? ? ? ? ? ? ? ? ? IH|? ? ? ? ? ? ? Hp ? ? Hi ? IH];
    [by intros ?%not_elem_of_nil|done|done|].
  intros [->|Hin]%elem_of_cons; [|by apply IH]. split; [|done]. intros Hn. apply Hp. by right.
Qed.
End sweep.

(** ** Frames: the parts of the state that an operation leaves alone *)

Definition preserves {A B} (f : StandardAutoscaler → B) (m : ST StandardAutoscaler A) : Prop :=
  ∀ s, f (m s).1 = f s.

Section preserves.
Context {B : Type} (f : StandardAutoscaler → B).

Lemma preserves_ret {A} (a : A) : preserves f (mret a).
Proof. done. Qed.
Lemma preserves_get : preserves f st_get.
Proof. done. Qed.
Lemma preserves_lift {A} (r : result A) : preserves f (st_lift r).
Proof. done. Qed.
Lemma preserves_raise {A} e : preserves f (st_raise (A := A) e).
Proof. done. Qed.
Lemma preserves_modify g : (∀ s, f (g s) = f s) → preserves f (st_modify g).
Proof. intros Hg s. apply Hg. Qed.

Lemma preserves_bind {A C} (m : ST StandardAutoscaler A) (k : A → ST StandardAutoscaler C) :
  preserves f m → (∀ a, preserves f (k a)) → preserves f (m ≫= k).
Proof.
  intros Hm Hk s. unfold mbind, st_bind. specialize (Hm s).
  destruct (m s) as [s1 [a|e]]; cbn in *; [by rewrite Hk|done].
Qed.

Lemma preserves_for {A} (l : list A) (k : A → ST StandardAutoscaler unit) :
  (∀ a, preserves f (k a)) → preserves f (st_for l k).
Proof.
  intros Hk. induction l as [|a l IH]; cbn; [apply preserves_ret|by apply preserves_bind].
Qed.

Lemma preserves_fold {A C} (l : list A) (k : C → A → ST StandardAutoscaler C) c :
  (∀ c a, preserves f (k c a)) → preserves f (st_fold k c l).
Proof.
  intros Hk. revert c. induction l as [|a l IH]; cbn; intros c; [apply preserves_ret|].
  by apply preserves_bind.
Qed.

Lemma preserves_in_thread m : preserves f m → preserves f (in_thread m).
Proof.
  intros Hm s. unfold in_thread. specialize (Hm s). by destruct (m s) as [s1 [a|[]]].
Qed.

Lemma preserves_try m h k :
  preserves f m → preserves f h → preserves f k → preserves f (try_else m h k).
Proof.
  intros Hm Hh Hk s. unfold try_else. specialize (Hm s). destruct (m s) as [s1 [a|[]]]; cbn in *;
    rewrite ?Hk, ?Hh; done.
Qed.

Lemma preserves_launch_run env fuel pc :
  (∀ pc, preserves f (launch_step env pc)) → preserves f (launch_run env fuel pc).
Proof.
  intros Hs. revert pc. induction fuel as [|fuel IH]; intros []; cbn [launch_run];
    first [apply preserves_raise|apply preserves_ret|apply preserves_bind]; auto.
Qed.
End preserves.

(** Split an operation into its parts; what is left are the writes to [f]. *)
Ltac frame :=
  repeat (cbv zeta; intros;
    lazymatch goal with
    | |- preserves _ (mbind _ _) => apply preserves_bind
    | |- preserves _ (mret _) => apply preserves_ret
    | |- preserves _ st_get => apply preserves_get
    | |- preserves _ (st_lift _) => apply preserves_lift
    | |- preserves _ (st_raise _) => apply preserves_raise
    | |- preserves _ (st_modify _) => apply preserves_modify; done
    | |- preserves _ (st_for _ _) => apply preserves_for
    | |- preserves _ (st_fold _ _ _) => apply preserves_fold
    | |- preserves _ (in_thread _) => apply preserves_in_thread
    | |- preserves _ (try_else _ _ _) => apply preserves_try
    | |- preserves _ (launch_run _ _ _) => apply preserves_launch_run
    | |- preserves _ (match ?x with _ => _ end) => destruct x
    | |- preserves _ ?m => first [solve [auto with frames] | let h := head_of m in unfold h]
    end).

Create HintDb frames.

Section frames.
Context (env : Env) (hash_launch_conf conf_update : string → string → string).
Context (repr_request : ResourceDict → string) (conserve : bool).

(** Failures and settings belong to [update] alone. *)
Definition bookkeeping (s : StandardAutoscaler) := (num_failures s, settings s).

(** The launches belong to [launch_required_nodes] and the launchers. *)
Definition launches (s : StandardAutoscaler) := (launch_queue s, pending_launches s).

Lemma untrack_frame {B} (f : StandardAutoscaler → B) n :
  (∀ tr s, f (set_node_tracker tr s) = f s) → preserves f (untrack n).
Proof. intros Hf s. unfold untrack. destruct (NodeTracker.untrack n _). apply Hf. Qed.

Lemma track_frame {B} (f : StandardAutoscaler → B) n ip t :
  (∀ tr s, f (set_node_tracker tr s) = f s) → preserves f (track n ip t).
Proof. intros Hf s. unfold track. destruct (NodeTracker.track _ _ _ _ _). apply Hf. Qed.

#[local] Hint Extern 1 (preserves _ (untrack _)) => apply untrack_frame; done : frames.
#[local] Hint Extern 1 (preserves _ (track _ _ _)) => apply track_frame; done : frames.

Lemma maintain_frame :
  preserves (λ s, (bookkeeping s, launches s, config s, scheduler s, last_update_time s))
    (maintain_nodes env hash_launch_conf conf_update (e_now env)).
Proof. frame. Qed.

Lemma log_frame :
  preserves (λ s, (bookkeeping s, launches s, config s, scheduler s, load_metrics s,
                   nodes_to_terminate s, non_terminated_nodes s))
    (log_info_strings env).
Proof. frame. Qed.

Lemma report_frame unf :
  preserves (λ s, (bookkeeping s, launches s, config s, scheduler s, load_metrics s,
                   non_terminated_nodes s))
    (_report_pending_infeasible env repr_request unf).
Proof. frame. Qed.

Lemma update_body_frame :
  preserves bookkeeping (_ ← reset env; _update env hash_launch_conf conf_update repr_request conserve).
Proof. frame. Qed.

(** The configuration belongs to [reset]. *)
Lemma update_config_frame :
  preserves config (_update env hash_launch_conf conf_update repr_request conserve).
Proof. frame. Qed.
End frames.

(** ** The whole enforcement *)

Section enforcement.
Context (env : Env) (hash_launch_conf conf_update : string → string → string).
Abbreviation P := (e_provider env).
Abbreviation sweep := (sweep env hash_launch_conf conf_update).

Lemma st_bind_get {A} (k : StandardAutoscaler → ST StandardAutoscaler A) s :
  (st_get ≫= k) s = k s s.
Proof. done. Qed.

Lemma st_bind_lift {A C} (r : result A) (k : A → ST StandardAutoscaler C) s s' c :
  (st_lift r ≫= k) s = (s', Ok c) → ∃ a, r = Ok a ∧ k a s = (s', Ok c).
Proof. unfold mbind, st_bind, st_lift. destruct r; naive_solver. Qed.

Lemma the_nodes_spec s ntn s' u :
  non_terminated_nodes s = Some ntn → the_nodes s = (s', Ok u) → s' = s ∧ u = ntn.
Proof. unfold the_nodes. intros Hn H. inv_st. rewrite Hn in *. by inv_ok. Qed.

Lemma remove_none ntn : remove_terminating_nodes ntn [] = ntn.
Proof.
  destruct ntn as [a w h]. unfold remove_terminating_nodes. cbn. f_equal; apply filter_all;
    apply Forall_forall; intros; apply not_elem_of_nil.
Qed.

Lemma terminate_scheduled_spec s s' u ntn :
  non_terminated_nodes s = Some ntn → terminate_scheduled_nodes env s = (s', Ok u) →
  non_terminated_nodes s' = Some (remove_terminating_nodes ntn (nodes_to_terminate s)) ∧
  nodes_to_terminate s' = [].
Proof.
  intros Hn Ht. unfold terminate_scheduled_nodes in Ht.
  apply st_bind_Ok in Ht as (s1 & ntn' & Hntn & Ht).
  destruct (the_nodes_spec _ _ _ _ Hn Hntn) as [-> ->]. rewrite st_bind_get in Ht.
  cbv zeta in Ht. destruct (nodes_to_terminate s) as [|n l] eqn:Hl.
  - inv_st. by rewrite remove_none.
  - inv_st. done.
Qed.

Lemma schedule_all l r : ∀ s s' u,
  st_for l (λ n, schedule_node_termination env n r) s = (s', Ok u) → scheduled l s s'.
Proof.
  induction l as [|n l IH]; cbn; intros s s' u Hf.
  - inv_st. apply scheduled_nil.
  - apply st_bind_Ok in Hf as (s1 & v & Hn & Hf). apply schedule_spec in Hn.
    by apply (scheduled_trans [n] l s s1 s'), (IH _ _ _ Hf).
Qed.

Lemma sort_spec nodes lu sorted :
  _sort_based_on_last_used env nodes lu = Ok sorted → sorted ≡ₚ nodes.
Proof.
  unfold _sort_based_on_last_used. intros Hs. apply bind_Ok in Hs as (keyed & Hk & Hs). inv_ok.
  rewrite py_sorted_rev_perm.
  enough (∀ acc, foldM (λ acc n, t ← last_time_used env lu n; Ok (acc ++ [(n, t)])) acc nodes = Ok keyed →
    keyed.*1 = acc.*1 ++ nodes) as Hgen by (by rewrite (Hgen [] Hk)).
  clear Hk. induction nodes as [|n nodes IH]; cbn; intros acc Hf; inv_ok; [by rewrite app_nil_r|].
  rewrite (IH _ Hf), fmap_app. cbn. by rewrite <- app_assoc.
Qed.

(** The nodes that [request_resources()] needs, as the enforcement computes them. *)
Definition needed_by_requests (s : StandardAutoscaler) (sorted needed : list NodeID) : Prop :=
  match resource_requests (load_metrics s) with
  | [] => needed = []
  | _ => _get_nodes_needed_for_request_resources env s sorted = Ok needed
  end.

Definition horizon_of (s : StandardAutoscaler) (now : Q) : Q :=
  (now - 60 * idle_timeout_minutes (config s))%Q.

(** The enforcement is a sweep over the workers, then the termination of those that
    are too many from the end of the list of nodes that may go. *)
Lemma enforce_spec now s s' u ntn :
  non_terminated_nodes s = Some ntn → nodes_to_terminate s = [] →
  terminate_nodes_to_enforce_config_constraints env hash_launch_conf conf_update now s = (s', Ok u) →
  ∃ sorted needed T K C X counts,
    sorted ≡ₚ worker_ids ntn ∧ needed_by_requests s sorted needed ∧
    sweep s (last_used_time_by_ip (load_metrics s)) (horizon_of s now) needed [] sorted T K (C ++ X) counts ∧
    len X = Z.max 0 (Z.min (len (worker_ids ntn) - len T - cfg_max_workers (config s)) (len (C ++ X))) ∧
    non_terminated_nodes s' = Some (remove_terminating_nodes ntn (T ++ X)) ∧
    nodes_to_terminate s' = [].
Proof.
  intros Hn Hnil He. unfold terminate_nodes_to_enforce_config_constraints in He.
  apply st_bind_Ok in He as (s1 & ntn' & Hntn & He).
  destruct (the_nodes_spec _ _ _ _ Hn Hntn) as [-> ->].
  rewrite st_bind_get in He. apply st_bind_lift in He as (sorted & Hsort & He).
  apply st_bind_Ok in He as (s1 & needed & Hneed & He).
  assert (s1 = s ∧ needed_by_requests s sorted needed) as [-> Hneeded].
  { unfold needed_by_requests. destruct (resource_requests _); inv_st; auto. }
  apply st_bind_Ok in He as (s1 & [counts could] & Hloop & He).
  assert (∃ ev nt, s = set_nodes_to_terminate nt (set_event_summarizer ev s)) as Hself.
  { exists (event_summarizer s), (nodes_to_terminate s). by destruct s. }
  destruct (loop_sweep env hash_launch_conf conf_update s _ _ needed _ _ _ _ _ _ _ Hself Hloop)
    as (T & K & D & Hsw & -> & Hsch). cbn [app] in *.
  rewrite st_bind_get in He. apply st_bind_Ok in He as (s2 & v & Hextra & He).
  assert (non_terminated_nodes s1 = Some ntn ∧ nodes_to_terminate s1 = T ∧ config s1 = config s)
    as (Hn1 & HT & Hcfg) by (destruct Hsch as [ev ->]; cbn; by rewrite Hnil).
  assert (∃ X C, D = C ++ X ∧ scheduled X s1 s2 ∧
    len X = Z.max 0 (Z.min (len (worker_ids ntn) - len T - cfg_max_workers (config s)) (len D)))
    as (X & C & -> & HX & HlenX).
  { unfold num_extra in Hextra. rewrite HT, Hcfg in Hextra.
    set (k := Z.min (len (worker_ids ntn) - len T - cfg_max_workers (config s)) (len D)) in *.
    destruct (Z.ltb_spec 0 k).
    - apply schedule_all in Hextra. rewrite (proj1 (py_slice_last k D ltac:(lia))) in Hextra.
      exists (drop (length D - Z.to_nat k) D), (take (length D - Z.to_nat k) D).
      rewrite take_drop. split_and!; [done|done|]. unfold len in *. rewrite length_drop. lia.
    - inv_st. exists [], D. rewrite app_nil_r. split_and!; [done|apply scheduled_nil|].
      unfold len at 1. cbn. lia. }
  assert (non_terminated_nodes s2 = Some ntn ∧ nodes_to_terminate s2 = T ++ X) as [Hn2 HTX]
    by (destruct HX as [ev ->]; cbn; by rewrite HT).
  destruct (terminate_scheduled_spec _ _ _ _ Hn2 He) as [Hend Hempty]. rewrite HTX in Hend.
  exists sorted, needed, T, K, C, X, counts. split_and!; try done. by apply (sort_spec _ _ _ Hsort).
Qed.
(** The workers that remain, when the provider lists no node twice. *)
Lemma remaining_workers (ws T K C X : list NodeID) :
  NoDup ws → ws ≡ₚ T ++ K ++ C ++ X → filter (λ n, n ∉ T ++ X) ws ≡ₚ K ++ C.
Proof.
  intros Hnd Hp. rewrite Hp in Hnd |- *. rewrite !filter_app.
  assert (∀ a b c : list NodeID, NoDup (a ++ b ++ c) → ∀ n, n ∈ a ++ c → n ∉ b) as Hdis.
  { clear. intros a b c Hnd n Hin Hb. rewrite (Permutation_app_swap_app a b c) in Hnd.
    apply NoDup_app in Hnd as (_ & Hd & _). by apply (Hd n). }
  rewrite (filter_none _ T), (filter_none _ X), (filter_all _ K), (filter_all _ C), app_nil_r; [done|..].
  - apply Forall_forall. intros n Hn Hin.
    apply (Hdis (T ++ K) C X) with n; [by rewrite <- app_assoc| |done].
    rewrite !elem_of_app in *. tauto.
  - apply Forall_forall. intros n Hn Hin.
    apply (Hdis T K (C ++ X)) with n; [done| |done]. rewrite !elem_of_app in *. tauto.
  - apply Forall_forall. intros n Hn Hin. apply Hin. rewrite elem_of_app. by right.
  - apply Forall_forall. intros n Hn Hin. apply Hin. rewrite elem_of_app. by left.
Qed.

(** The lemmas on sweeps, put together for an enforcement that returns. *)
Lemma enforced now s s' u ntn :
  non_terminated_nodes s = Some ntn → nodes_to_terminate s = [] → NoDup (worker_ids ntn) →
  terminate_nodes_to_enforce_config_constraints env hash_launch_conf conf_update now s = (s', Ok u) →
  ∃ ntn' sorted needed T K C X counts,
    non_terminated_nodes s' = Some ntn' ∧ nodes_to_terminate s' = [] ∧
    sorted ≡ₚ worker_ids ntn ∧ needed_by_requests s sorted needed ∧
    sweep s (last_used_time_by_ip (load_metrics s)) (horizon_of s now) needed [] sorted T K (C ++ X) counts ∧
    worker_ids ntn ≡ₚ T ++ K ++ C ++ X ∧ worker_ids ntn' ≡ₚ K ++ C ∧
    (∀ n, n ∈ worker_ids ntn' ↔ n ∈ worker_ids ntn ∧ n ∉ T ++ X) ∧
    len X = Z.max 0 (Z.min (len (worker_ids ntn) - len T - cfg_max_workers (config s)) (len (C ++ X))).
Proof.
  intros Hn Hnil Hnd He.
  destruct (enforce_spec _ _ _ _ _ Hn Hnil He)
    as (sorted & needed & T & K & C & X & counts & Hperm & Hneed & Hsw & HX & Hend & Hempty).
  assert (worker_ids ntn ≡ₚ T ++ K ++ C ++ X) as Hp
    by (rewrite <- Hperm; by eapply sweep_partition).
  eexists _, sorted, needed, T, K, C, X, counts. split_and!; try done.
  - by apply remaining_workers.
  - intros n. cbn. rewrite list_elem_of_filter. tauto.
Qed.
End enforcement.

(** * The properties of the enforcement *)

Section enforcement_properties.
Context (env : Env) (hash_launch_conf conf_update : string → string → string).
Abbreviation enforce :=
  (terminate_nodes_to_enforce_config_constraints env hash_launch_conf conf_update).

(** What an enforcement leaves is within the configuration: of every type no more
    workers than its [max_workers], no worker of a type that is gone, only workers with
    the current launch configuration, and no more workers than the cluster's
    [max_workers] unless all that are left are needed by [request_resources()] or are
    within the [min_workers] of their types. *)
Theorem enforcement_limits now s s' u ntn :
  non_terminated_nodes s = Some ntn → nodes_to_terminate s = [] → NoDup (worker_ids ntn) →
  enforce now s = (s', Ok u) →
  ∃ ntn' sorted needed, non_terminated_nodes s' = Some ntn' ∧
    sorted ≡ₚ worker_ids ntn ∧ needed_by_requests env s sorted needed ∧
    (∀ n, n ∈ worker_ids ntn' → launch_config_ok env hash_launch_conf conf_update s n = Ok true) ∧
    (∀ t, 0 < of_type env t (worker_ids ntn') →
       ∃ c, dget t (available_node_types (config s)) = Some c ∧
         of_type env t (worker_ids ntn') <= config_max_workers c) ∧
    (len (worker_ids ntn') <= cfg_max_workers (config s) ∨
     let spare := List.filter (λ n, negb (bool_decide (n ∈ needed))) (worker_ids ntn') in
     (∀ n, n ∈ spare → is_Some (type_of env n)) ∧
     ∀ t, 0 < of_type env t spare → ∃ c, dget t (available_node_types (config s)) = Some c ∧
       of_type env t spare <= Z.min (config_min_workers c) (config_max_workers c)).
Proof.
  intros Hn Hnil Hnd He.
  destruct (enforced _ _ _ _ _ _ _ _ Hn Hnil Hnd He)
    as (ntn' & sorted & needed & T & K & C & X & counts & Hn' & _ & Hs & Hneed & Hsw & Hp & Hrem & _ & HX).
  exists ntn', sorted, needed. split_and!; [done|done|done|..].
  - intros n. rewrite Hrem. intros Hin. apply (sweep_kept _ _ _ _ _ _ _ _ _ _ _ _ _ n Hsw).
    rewrite !elem_of_app in *. tauto.
  - intros t. rewrite (of_type_perm env t _ _ Hrem). intros Hpos.
    destruct (sweep_counts _ _ _ _ _ _ _ _ _ _ _ _ _ t Hsw) as [_ Hmax].
    rewrite app_assoc, of_type_app in Hmax. pose proof (of_type_nonneg env t X).
    destruct Hmax as (c & Hc & Hle); [lia|]. exists c. split; [done|].
    change (dget_def t 0 []) with 0 in Hle. lia.
  - assert (len (worker_ids ntn) = len T + len K + len C + len X) as Hlen
      by (unfold len; rewrite Hp, !length_app; lia).
    assert (len (worker_ids ntn') = len K + len C) as Hlen'
      by (unfold len; rewrite Hrem, !length_app; lia).
    rewrite len_app in HX. pose proof (len_nonneg C). pose proof (len_nonneg X).
    destruct (decide (C = [])) as [->|HC].
    + right. rewrite app_nil_r in Hrem. cbv zeta.
      assert (List.filter (λ n, negb (bool_decide (n ∈ needed))) (worker_ids ntn')
        ≡ₚ List.filter (λ n, negb (bool_decide (n ∈ needed))) K) as Hf by (by apply filter_bool_perm).
      destruct (sweep_protected _ _ _ _ _ _ _ _ _ _ _ _ _ Hsw) as [Htyped Hmin]. split.
      * intros n. rewrite Hf. apply Htyped.
      * intros t. rewrite (of_type_perm env t _ _ Hf). intros Hpos.
        destruct (Hmin t Hpos) as (c & Hc & Hle). by exists c.
    + left. assert (0 < len C) by (destruct C; [done|rewrite len_cons; pose proof (len_nonneg C); lia]).
      lia.
Qed.

(** C4: an enforcement takes nothing that is needed: of every type at least
    [min_workers] of the workers with the current launch configuration stay, or all of
    them if they are fewer; and a worker that [request_resources()] needs stays if its launch
    configuration is current, unless its type is gone or full. *)
Theorem enforcement_keeps_needed now s s' u ntn :
  non_terminated_nodes s = Some ntn → nodes_to_terminate s = [] → NoDup (worker_ids ntn) →
  enforce now s = (s', Ok u) →
  ∃ ntn' sorted needed, non_terminated_nodes s' = Some ntn' ∧
    sorted ≡ₚ worker_ids ntn ∧ needed_by_requests env s sorted needed ∧
    (∀ t c, dget t (available_node_types (config s)) = Some c →
       Z.min (Z.min (config_min_workers c) (config_max_workers c))
         (of_type env t (List.filter (is_up_to_date env hash_launch_conf conf_update s) (worker_ids ntn)))
       <= of_type env t (worker_ids ntn')) ∧
    (∀ n, n ∈ needed → n ∈ worker_ids ntn →
       launch_config_ok env hash_launch_conf conf_update s n = Ok true →
       n ∈ worker_ids ntn' ∨
       ∃ t, type_of env n = Some t ∧
         ∀ c, dget t (available_node_types (config s)) = Some c →
           config_max_workers c <= of_type env t (worker_ids ntn)).
Proof.
  intros Hn Hnil Hnd He.
  destruct (enforced _ _ _ _ _ _ _ _ Hn Hnil Hnd He)
    as (ntn' & sorted & needed & T & K & C & X & counts & Hn' & _ & Hs & Hneed & Hsw & Hp & Hrem & Hin & _).
  exists ntn', sorted, needed. split_and!; [done|done|done|..].
  - intros t c Hc. rewrite (of_type_perm env t _ _ Hrem), of_type_app.
    pose proof (sweep_min _ _ _ _ _ _ _ _ _ _ _ _ _ t c Hsw Hc) as Hmin.
    change (dget_def t 0 []) with 0 in Hmin. rewrite Z.sub_0_r in Hmin.
    rewrite <- (of_type_perm env t _ _ (filter_bool_perm _ _ _ Hs)).
    pose proof (of_type_nonneg env t C). lia.
  - intros n Hnd1 Hnw Hup. destruct (decide (n ∈ T ++ X)) as [HTX|HTX]; [|left; apply Hin; auto].
    apply elem_of_app in HTX as [HT|HX].
    + right. destruct (sweep_reason _ _ _ _ _ _ _ _ _ _ _ _ _ n Hsw HT)
        as [(t & Ht & Hc)|[(t & c & Ht & Hc & Hle)|[_ Hnup]]].
      * exists t. split; [done|]. intros c Hc'. congruence.
      * exists t. split; [done|]. intros c' Hc'. assert (c' = c) as -> by congruence.
        destruct (sweep_counts _ _ _ _ _ _ _ _ _ _ _ _ _ t Hsw) as [Hcounts _].
        change (dget_def t 0 []) with 0 in Hcounts.
        rewrite (of_type_perm env t _ _ Hp), of_type_app. pose proof (of_type_nonneg env t T). lia.
      * by destruct (Hnup Hnd1).
    + destruct (sweep_could_spec _ _ _ _ _ _ _ _ _ _ _ _ _ n Hsw) as [Hnn _]; [|done].
      rewrite elem_of_app. by right.
Qed.

(** The reasons of a termination. *)
Lemma enforcement_reasons now s s' u ntn :
  non_terminated_nodes s = Some ntn → nodes_to_terminate s = [] → NoDup (worker_ids ntn) →
  enforce now s = (s', Ok u) →
  ∃ ntn', non_terminated_nodes s' = Some ntn' ∧
    ∀ n, n ∈ worker_ids ntn → n ∉ worker_ids ntn' →
    (∃ t, type_of env n = Some t ∧ dget t (available_node_types (config s)) = None) ∨
    (∃ t c, type_of env n = Some t ∧ dget t (available_node_types (config s)) = Some c ∧
       config_max_workers c < of_type env t (worker_ids ntn)) ∨
    launch_config_ok env hash_launch_conf conf_update s n = Ok false ∨
    idle env (last_used_time_by_ip (load_metrics s)) (horizon_of s now) n ∨
    cfg_max_workers (config s) <= len (worker_ids ntn').
Proof.
  intros Hn Hnil Hnd He.
  destruct (enforced _ _ _ _ _ _ _ _ Hn Hnil Hnd He)
    as (ntn' & sorted & needed & T & K & C & X & counts & Hn' & _ & Hs & Hneed & Hsw & Hp & Hrem & Hin & HX).
  exists ntn'. split; [done|]. intros n Hw Hnot.
  assert (n ∈ T ++ X) as [HT|HnX]%elem_of_app.
  { destruct (decide (n ∈ T ++ X)); [done|]. destruct Hnot. by apply Hin. }
  - destruct (sweep_reason _ _ _ _ _ _ _ _ _ _ _ _ _ n Hsw HT)
      as [?|[(t & c & Ht & Hc & Hle)|[[?|?] _]]]; [by left| |auto..].
    right. left. exists t, c. split_and!; [done|done|].
    destruct (sweep_counts _ _ _ _ _ _ _ _ _ _ _ _ _ t Hsw) as [Hcounts _].
    change (dget_def t 0 []) with 0 in Hcounts.
    rewrite (of_type_perm env t _ _ Hp), of_type_app. apply elem_of_Permutation in HT as [T' HT].
    rewrite (of_type_perm env t _ _ HT), of_type_cons, decide_True by done.
    pose proof (of_type_nonneg env t T'). lia.
  - do 4 right. rewrite len_app in HX.
    assert (len (worker_ids ntn) = len T + len K + len C + len X) as Hlen
      by (unfold len; rewrite Hp, !length_app; lia).
    assert (len (worker_ids ntn') = len K + len C) as -> by (unfold len; rewrite Hrem, !length_app; lia).
    assert (0 < len X) by (destruct X; [by apply not_elem_of_nil in HnX|rewrite len_cons; pose proof (len_nonneg X); lia]).
    lia.
Qed.

(** An enforcement terminates a worker only with a reason: its type is gone, its
    type has its maximum without it, its launch configuration is outdated, the cluster
    has its [max_workers] without it, or it is idle; and idle means that every
    heartbeat since the idle timeout reported all its resources as free, on every
    history of the load metrics. *)
Theorem enforcement_sound now s s' u ntn ops t0 :
  Forall op_ok ops → clock_ok t0 ops → foldM run_op lm_init ops = Ok (load_metrics s) →
  non_terminated_nodes s = Some ntn → nodes_to_terminate s = [] → NoDup (worker_ids ntn) →
  enforce now s = (s', Ok u) →
  ∃ ntn', non_terminated_nodes s' = Some ntn' ∧
    ∀ n, n ∈ worker_ids ntn → n ∉ worker_ids ntn' →
    (∃ t, type_of env n = Some t ∧ dget t (available_node_types (config s)) = None) ∨
    (∃ t c, type_of env n = Some t ∧ dget t (available_node_types (config s)) = Some c ∧
       config_max_workers c < of_type env t (worker_ids ntn)) ∨
    launch_config_ok env hash_launch_conf conf_update s n = Ok false ∨
    cfg_max_workers (config s) <= len (worker_ids ntn') ∨
    ∃ ip, internal_ip (e_provider env) (Some n) = Ok ip ∧
      ∀ hb at_time, Update ip hb at_time ∈ ops →
        (now - 60 * idle_timeout_minutes (config s) <= at_time)%Q → reports_idle hb = true.
Proof.
  intros Hops Hc Hrun Hn Hnil Hnd He.
  destruct (enforcement_reasons now s s' u ntn Hn Hnil Hnd He) as (ntn' & Hn' & Hr).
  exists ntn'. split; [done|]. intros n Hin Hnot.
  destruct (Hr n Hin Hnot) as [?|[?|[?|[(ip & t & Hip & Ht & Hlt)|?]]]]; [auto..| |auto].
  do 4 right. exists ip. split; [done|]. intros hb at_time Hup Hle.
  destruct (run_used_ok ops t0 (load_metrics s) Hops Hc Hrun) as [_ Hu].
  apply (proj2 (Hu ip t Ht) hb at_time Hup). unfold horizon_of in Hlt. lra.
Qed.
End enforcement_properties.

(** ** Health *)

Section health.
Context (env : Env) (now : Q) (s0 : StandardAutoscaler).
Hypothesis marks_later : ∀ ip, (now <= e_mark_now env ip)%Q.

Abbreviation heartbeats s := (last_heartbeat_time_by_ip (load_metrics s)).

(** The node says it is up to date, and its last heartbeat is too old. *)
Definition lost_contact (n : NodeID) : Prop :=
  ∃ tags ip t, node_tags (e_provider env) n = Ok tags ∧
    dget TAG_RAY_NODE_STATUS tags = Some STATUS_UP_TO_DATE ∧
    internal_ip (e_provider env) (Some n) = Ok ip ∧ dget ip (heartbeats s0) = Some t ∧
    (AUTOSCALER_HEARTBEAT_TIMEOUT_S <= now - t)%Q.

(** Heartbeats are those of the start or faked after [now]; the nodes scheduled on the
    way have lost contact. *)
Definition health_ok (s : StandardAutoscaler) : Prop :=
  non_terminated_nodes s = non_terminated_nodes s0 ∧
  (∀ ip t, dget ip (heartbeats s) = Some t → dget ip (heartbeats s0) = Some t ∨ (now <= t)%Q) ∧
  ∀ n, n ∈ nodes_to_terminate s → lost_contact n.

Lemma mark_health ip s : health_ok s → health_ok (mark_active env ip s).1.
Proof.
  intros (Hn & Hhb & Hnt). split_and!; [done| |done]. cbn. intros ip' t. rewrite dget_dset.
  case_decide as Hip; [|by apply Hhb]. intros [= <-]. right. apply marks_later.
Qed.

Lemma check_unhealthy_ok n s s' u :
  check_unhealthy env now n s = (s', Ok u) → health_ok s → health_ok s'.
Proof.
  intros Hc Hok. unfold check_unhealthy in Hc.
  apply st_bind_lift in Hc as (tags & Htags & Hc). apply st_bind_lift in Hc as (st & Hst & Hc).
  apply of_option_Ok in Hst. case_decide as Hup; [subst st|by inv_st].
  apply st_bind_lift in Hc as (ip & Hip & Hc). rewrite st_bind_get in Hc.
  apply st_bind_Ok in Hc as (s1 & v & Hmark & Hc).
  assert (health_ok s1 ∧ is_Some (dget ip (heartbeats s1))) as [Hok1 [t Ht]].
  { unfold is_active, din in Hmark. destruct (dget ip (heartbeats s)) as [t|] eqn:Ht.
    - inv_st. split; [done|]. by rewrite Ht.
    - injection Hmark as <- _. split; [by apply mark_health|]. cbn. by rewrite dget_dset_eq. }
  rewrite st_bind_get in Hc. apply st_bind_lift in Hc as (on_time & Hon & Hc).
  unfold heartbeat_on_time in Hon. rewrite Hip in Hon. cbn in Hon. rewrite Ht in Hon. inv_ok.
  destruct (Qltb (now - t) AUTOSCALER_HEARTBEAT_TIMEOUT_S) eqn:Hlt; [by inv_st|].
  apply schedule_spec in Hc as [ev ->]. destruct Hok1 as (Hn & Hhb & Hnt). split_and!; [done|done|].
  cbn. intros m [Hm| ->%list_elem_of_singleton]%elem_of_app; [by apply Hnt|].
  apply Qltb_false in Hlt. exists tags, ip, t. split_and!; try done.
  destruct (Hhb ip t Ht) as [|Hle]; [done|].
  exfalso. unfold AUTOSCALER_HEARTBEAT_TIMEOUT_S in Hlt. lra.
Qed.

Lemma check_all_ok l : ∀ s s' u,
  st_for l (check_unhealthy env now) s = (s', Ok u) → health_ok s → health_ok s'.
Proof.
  induction l as [|n l IH]; cbn; intros s s' u Hf Hok; [by inv_st|].
  apply st_bind_Ok in Hf as (s1 & v & Hn & Hf). eapply IH; [exact Hf|].
  by eapply check_unhealthy_ok.
Qed.
End health.

(** A health check terminates only workers that have lost contact: whose status is
    up to date and whose last heartbeat, recorded before the check, is at least
    [AUTOSCALER_HEARTBEAT_TIMEOUT_S] old; a worker that has not sent a heartbeat yet gets
    one more timeout. *)
Theorem unhealthy_sound env now s s' u ntn :
  (∀ ip, (now <= e_mark_now env ip)%Q) → non_terminated_nodes s = Some ntn →
  nodes_to_terminate s = [] → terminate_unhealthy_nodes env now s = (s', Ok u) →
  ∃ ntn', non_terminated_nodes s' = Some ntn' ∧
    ∀ n, n ∈ worker_ids ntn → n ∉ worker_ids ntn' → lost_contact env now s n.
Proof.
  intros Hm Hn Hnil Ht. unfold terminate_unhealthy_nodes in Ht.
  apply st_bind_Ok in Ht as (s1 & ntn1 & Hntn & Ht).
  destruct (the_nodes_spec _ _ _ _ Hn Hntn) as [-> ->].
  apply st_bind_Ok in Ht as (s1 & v & Hc & Ht).
  destruct (check_all_ok env now s Hm _ _ _ _ Hc) as (Hn1 & _ & Hlost).
  { split_and!; [done|by left|]. rewrite Hnil. by intros n ?%not_elem_of_nil. }
  rewrite Hn in Hn1. destruct (terminate_scheduled_spec _ _ _ _ _ Hn1 Ht) as [Hn' _].
  eexists. split; [exact Hn'|]. intros n Hin Hnot. cbn in Hnot. rewrite list_elem_of_filter in Hnot.
  apply Hlost. destruct (decide (n ∈ nodes_to_terminate s1)); [done|tauto].
Qed.

(** ** Launching *)

(** The loop of [launch_new_node], with a step per batch and one to leave it. *)
Lemma launch_loop_spec env c t : ∀ fuel count s,
  0 < max_launch_batch (settings s) → (Z.to_nat count < fuel)%nat →
  ∃ bs, launch_run env fuel (LaunchLoop c count t) s =
      (set_launch_queue (launch_queue s ++ ((λ n, (c, n, t)) <$> bs)) s, Ok tt) ∧
    sumZ bs = Z.max 0 count ∧ Forall (λ n, 0 < n <= max_launch_batch (settings s)) bs.
Proof.
  induction fuel as [|fuel IH]; intros count s Hb Hf; [lia|].
  cbn [launch_run]. unfold launch_step, queue_put, mbind, st_bind, st_get, st_modify.
  destruct (Z.ltb_spec 0 count) as [Hc|Hc]; cbn.
  - destruct (IH (count - max_launch_batch (settings s))
      (set_launch_queue (launch_queue s ++ [(c, Z.min count (max_launch_batch (settings s)), t)]) s))
      as (bs & Hrun & Hsum & Hall); [done|lia|].
    exists (Z.min count (max_launch_batch (settings s)) :: bs). rewrite Hrun. cbn in *.
    rewrite <- app_assoc, sumZ_cons, Hsum. split_and!; [done|lia|]. constructor; [lia|done].
  - exists []. change (sumZ []) with 0. split_and!; [|lia|done].
    rewrite app_nil_r. by destruct fuel, s.
Qed.

(** ** The launchers as a transition system

    The update thread calls [launch_new_node], whose steps are those of [launch_step];
    between any two of them a launcher may take a request off the queue or, when the
    provider has answered, finish one; the other parts of an update leave the launches
    alone ([maintain_frame], [log_frame], [report_frame]).  A state is the autoscaler, the
    point at which the update's launch is, and the launches that launchers have taken.
    [launch_new_node_steps] shows that the whole call is such a sequence of steps. *)
Section launchers.
Abbreviation LState := (StandardAutoscaler * LaunchPc * list NodeLaunchData)%type.

Inductive lstep : LState → LState → Prop :=
  | LCall s fl count t :
      0 <= count → lstep (s, LaunchDone, fl) (s, LaunchStart count t, fl)
  | LRun env s pc fl s' pc' :
      launch_step env pc s = (s', Ok pc') → lstep (s, pc, fl) (s', pc', fl)
  | LTake s pc fl d q :
      launch_queue s = d :: q → lstep (s, pc, fl) (set_launch_queue q s, pc, fl ++ [d])
  | LFinish env s pc fl1 c n t fl2 s' r :
      launch_node env c n t s = (s', r) →
      lstep (s, pc, fl1 ++ (c, n, t) :: fl2) (s', pc, fl1 ++ fl2)
  | LOther s pc fl s' :
      launches s' = launches s → settings s' = settings s → lstep (s, pc, fl) (s', pc, fl).

(** The launches of a type in a list of requests. *)
Definition launching (t : NodeType) (l : list NodeLaunchData) : Z :=
  sumZ ((λ '(_, n, t'), if decide (t' = t) then n else 0) <$> l).

Lemma launching_app t l1 l2 : launching t (l1 ++ l2) = launching t l1 + launching t l2.
Proof. unfold launching. by rewrite fmap_app, sumZ_app. Qed.

Lemma launching_cons t c n t' l :
  launching t ((c, n, t') :: l) = (if decide (t' = t) then n else 0) + launching t l.
Proof. done. Qed.

(** What the update's launch has counted and not put into the queue yet. *)
Definition still_to_put (t : NodeType) (pc : LaunchPc) : Z :=
  match pc with
  | LaunchLoop _ count t' => if decide (t' = t) then Z.max 0 count else 0
  | _ => 0
  end.

(** Every pending launch is in the queue, with a launcher or still to be put into the
    queue, and nothing else is pending. *)
Definition launches_ok (st : LState) : Prop :=
  let '(s, pc, fl) := st in
  0 < max_launch_batch (settings s) ∧
  (∀ count t, pc = LaunchStart count t → 0 <= count) ∧
  Forall (λ '(_, n, _), 0 < n) (launch_queue s ++ fl) ∧
  ∀ t, dget_def t 0 (pending_launches s) = launching t (launch_queue s ++ fl) + still_to_put t pc.

Lemma launching_nonneg t l : Forall (λ '(_, n, _), 0 < n) l → 0 <= launching t l.
Proof.
  unfold launching. induction 1 as [|[[c n] t'] l Hn _ IH]; [done|].
  cbn. rewrite sumZ_cons. case_decide; lia.
Qed.

Lemma launching_batches t c t' bs :
  launching t ((λ n, (c, n, t')) <$> bs) = if decide (t' = t) then sumZ bs else 0.
Proof.
  unfold launching. induction bs as [|b bs IH]; cbn; [by case_decide|].
  rewrite !sumZ_cons. cbn in IH. rewrite IH. case_decide; lia.
Qed.

(** A launch in the background: one more entry per batch. *)
Lemma launch_new_node_spec env count t s :
  0 <= count → foreground_node_launch (settings s) = false → 0 < max_launch_batch (settings s) →
  ∃ s' bs, launch_new_node env count t s = (s', Ok tt) ∧
    launch_queue s' = launch_queue s ++ ((λ n, (config s, n, t)) <$> bs) ∧
    sumZ bs = count ∧ Forall (λ n, 0 < n <= max_launch_batch (settings s)) bs ∧
    pending_launches s' = dset t (dget_def t 0 (pending_launches s) + count) (pending_launches s) ∧
    settings s' = settings s ∧ config s' = config s ∧
    non_terminated_nodes s' = non_terminated_nodes s.
Proof.
  intros Hc Hfg Hb. unfold launch_new_node. change (2 + Z.to_nat count)%nat with (S (1 + Z.to_nat count)).
  cbn [launch_run]. unfold launch_step at 1, add_event, pending_inc, mbind, st_bind, st_modify, st_get.
  cbn -[launch_run]. rewrite Hfg. cbn -[launch_run].
  edestruct (launch_loop_spec env (config s) t (S (Z.to_nat count)) count) as (bs & -> & Hsum & Hall);
    [|lia|]; cbn; [exact Hb|].
  eexists _, bs. split; [done|]. cbn. cbn in Hall. split_and!; try done. lia.
Qed.

Lemma _launch_node_ends env c n t s : (_launch_node env c n t s).2 ≠ Err OutOfFuel.
Proof.
  unfold _launch_node, mbind, st_bind, st_get, st_lift, mret, st_ret, st_raise, update_availability,
    st_modify, log_action, py_assert, dget_exn, config_resources, of_option. cbn.
  repeat (case_match; simplify_eq; cbn); done.
Qed.

Lemma launch_node_pending env c n t s :
  ∃ s1, pending_launches s1 = pending_launches s ∧ launch_queue s1 = launch_queue s ∧
    settings s1 = settings s ∧ launch_node env c n t s = pending_dec t n s1.
Proof.
  set (m := try_else (_launch_node env c n t)
        (_ ← add_event ("Failed to launch {} nodes of type " +:+ t +:+ ".") n;
         st_modify (λ self, set_event_summarizer
           (EventSummarizer.add_once_per_interval (event_summarizer self)
              "Node creation failed." "Failed to create node." 60 (e_now env)) self))
        (update_availability env t None)).
  assert (preserves (λ s, (pending_launches s, launch_queue s, settings s)) m) as Hp
    by (unfold m; frame).
  assert (∃ s1, m s = (s1, Ok tt)) as [s1 Hm].
  { unfold m, try_else. pose proof (_launch_node_ends env c n t s) as Hend.
    destruct (_launch_node env c n t s) as [s1 [[]|[]]]; try (eexists; reflexivity). by destruct Hend. }
  exists s1. specialize (Hp s). rewrite Hm in Hp. cbn in Hp. injection Hp as Hp1 Hp2 Hp3.
  split_and!; [done|done|done|]. unfold launch_node. fold m. unfold mbind at 1, st_bind at 1. by rewrite Hm.
Qed.

Lemma pending_dec_spec t n s s' r :
  pending_dec t n s = (s', r) →
  s' = set_pending_launches (dset t (dget_def t 0 (pending_launches s) - n) (pending_launches s)) s ∧
  (0 <= dget_def t 0 (pending_launches s) - n → r = Ok tt).
Proof.
  unfold pending_dec, mbind, st_bind, st_modify, st_get, st_lift, py_assert. cbn.
  intros Hd. simplify_eq. split; [done|]. intros Hle.
  rewrite dget_def_dset, decide_True, (proj2 (Z.leb_le _ _) Hle) by done. done.
Qed.

Lemma lcall_ok env s pc fl s' pc' :
  launches_ok (s, pc, fl) → launch_step env pc s = (s', Ok pc') → launches_ok (s', pc', fl).
Proof.
  intros (Hb & Hc & Hpos & Hpend). destruct pc as [count t|c count t|]; cbn.
  - specialize (Hc count t eq_refl).
    unfold add_event, pending_inc, mbind, st_bind, st_modify, st_get, mret, st_ret. cbn.
    destruct (foreground_node_launch (settings s)); cbn.
    + set (s0 := set_pending_launches _ _).
      destruct (launch_node_pending env (config s) count t s0) as (s1 & Hp1 & Hq1 & Hs1 & ->).
      destruct (pending_dec t count s1) as [s2 [[]|e]] eqn:Hd; intros ?; simplify_eq.
      apply pending_dec_spec in Hd as [-> _]. cbn. rewrite Hs1, Hq1, Hp1. cbn. split_and!; [done|done|done|].
      intros t'. rewrite !dget_def_dset. specialize (Hpend t'). cbn in Hpend.
      repeat case_decide; simplify_eq; lia.
    + intros ?. simplify_eq. cbn. split_and!; [done|done|done|]. intros t'. rewrite dget_def_dset.
      specialize (Hpend t'). cbn in Hpend. repeat case_decide; simplify_eq; lia.
  - unfold queue_put, mbind, st_bind, st_modify, st_get, mret, st_ret.
    destruct (Z.ltb_spec 0 count); cbn; intros ?; simplify_eq; cbn.
    + split_and!; [done|done| |].
      * rewrite !Forall_app in *. destruct Hpos as [??]. repeat split; [done| |done].
        constructor; [lia|constructor].
      * intros t'. rewrite Hpend. cbn. rewrite !launching_app, launching_cons.
        change (launching t' []) with 0. case_decide; lia.
    + split_and!; [done|done|done|]. intros t'. rewrite Hpend. cbn. case_decide; lia.
  - unfold mret, st_ret. intros ?. by simplify_eq.
Qed.

Lemma lstep_ok st st' : launches_ok st → lstep st st' → launches_ok st'.
Proof.
  intros Hok Hstep. destruct Hstep as [s fl count t Hc|env s pc fl s' pc' Hl|s pc fl d q Hq
    |env s pc fl1 c n t fl2 s' r Hl|s pc fl s' Hl Hs].
  - destruct Hok as (? & _ & ? & ?). cbn. split_and!; [done| |done|done]. intros ? ? [= <- <-]. done.
  - by eapply lcall_ok.
  - destruct Hok as (Hb & Hc & Hpos & Hpend). cbn. rewrite Hq in Hpos, Hpend. split_and!; [done|done| |].
    + rewrite app_assoc. cbn in Hpos. apply Forall_cons in Hpos as [??].
      apply Forall_app. split; [done|by constructor].
    + intros t. rewrite Hpend. rewrite !launching_app. cbn. destruct d as [[c n] t'].
      rewrite !launching_cons. change (launching t []) with 0. lia.
  - destruct Hok as (Hb & Hc & Hpos & Hpend).
    destruct (launch_node_pending env c n t s) as (s1 & Hp1 & Hq1 & Hs1 & Hl1). rewrite Hl1 in Hl.
    apply pending_dec_spec in Hl as [-> _]. cbn. rewrite Hp1, Hq1, Hs1. split_and!; [done|done| |].
    + rewrite !Forall_app in *. destruct Hpos as (? & ? & Hpos). apply Forall_cons in Hpos as [_ ?].
      done.
    + intros t'. rewrite dget_def_dset. specialize (Hpend t').
      rewrite !launching_app, launching_cons in Hpend. rewrite !launching_app.
      repeat case_decide; simplify_eq; lia.
  - unfold launches in Hl. injection Hl as Hq Hp. cbn. by rewrite Hq, Hp, Hs.
Qed.

Lemma steps_ok st st' : rtc (lstep) st st' → launches_ok st → launches_ok st'.
Proof. induction 1; eauto using lstep_ok. Qed.

(** The whole call is made of steps of the system. *)
Lemma launch_run_steps env fuel : ∀ pc s s' fl,
  launch_run env fuel pc s = (s', Ok tt) → rtc lstep (s, pc, fl) (s', LaunchDone, fl).
Proof.
  induction fuel as [|fuel IH]; intros pc s s' fl Hr.
  - destruct pc; cbv in Hr; simplify_eq. apply rtc_refl.
  - destruct pc as [c t|c n t|]; [| |cbv in Hr; simplify_eq; apply rtc_refl];
      cbn [launch_run] in Hr; apply st_bind_Ok in Hr as (s1 & pc1 & Hs & Hr);
      (eapply rtc_l; [by eapply LRun|by apply IH]).
Qed.

Lemma launch_new_node_steps env count t s s' fl :
  0 <= count → launch_new_node env count t s = (s', Ok tt) →
  rtc lstep (s, LaunchDone, fl) (s', LaunchDone, fl).
Proof. intros Hc Hl. eapply rtc_l; [by apply LCall|]. by eapply launch_run_steps. Qed.

(** C5: the pending launches are accounted for at every moment, whatever the launchers do:
    with a positive [max_launch_batch], from a state with nothing pending and no launch
    going on, however calls of [launch_new_node] for non-negative counts and launcher
    threads interleave (between the increment of the counter and the first put, and between
    two puts, launchers may take and finish requests, each in an environment of its own),
    the pending launches of every type are exactly those in the queue, those with the
    launchers and those the running call has counted and not put yet; and finishing a
    request never raises, also when the provider fails. *)
Theorem launches_accounted s0 s pc fl :
  0 < max_launch_batch (settings s0) → launch_queue s0 = [] → pending_launches s0 = [] →
  rtc lstep (s0, LaunchDone, []) (s, pc, fl) →
  (∀ t, dget_def t 0 (pending_launches s) = launching t (launch_queue s ++ fl) + still_to_put t pc) ∧
  ∀ env c n t, (c, n, t) ∈ fl → ∃ s', launch_node env c n t s = (s', Ok tt) ∧
    dget_def t 0 (pending_launches s') = dget_def t 0 (pending_launches s) - n.
Proof.
  intros Hb0 Hq0 Hp0 Hsteps. destruct (steps_ok _ _ Hsteps) as (_ & _ & Hpos & Hpend).
  { cbn. rewrite Hq0, Hp0. split_and!; [done|done|constructor|]. intros t. reflexivity. }
  split; [done|]. intros env c n t Hin.
  destruct (launch_node_pending env c n t s) as (s1 & Hp1 & _ & _ & ->).
  assert (0 <= dget_def t 0 (pending_launches s) - n) as Hle.
  { apply list_elem_of_split in Hin as (fl1 & fl2 & ->). rewrite Hpend.
    rewrite !launching_app, launching_cons, decide_True by done.
    rewrite !Forall_app in Hpos. destruct Hpos as (H1 & H2 & H3). apply Forall_cons in H3 as [_ H3].
    pose proof (launching_nonneg t _ H1). pose proof (launching_nonneg t _ H2).
    pose proof (launching_nonneg t _ H3).
    assert (0 <= still_to_put t pc) by (destruct pc; cbn; try case_decide; lia). lia. }
  destruct (pending_dec t n s1) as [s2 r] eqn:Hd. apply pending_dec_spec in Hd as [-> Hr].
  rewrite Hp1 in Hr. rewrite Hr by done. eexists. split; [done|]. cbn.
  by rewrite Hp1, dget_def_dset, decide_True by done.
Qed.

(** With a batch size that is not positive the loop of [launch_new_node] never ends. *)
Lemma empty_batch_never_ends env c n t fuel : ∀ s,
  max_launch_batch (settings s) <= 0 → 0 < n →
  (launch_run env fuel (LaunchLoop c n t) s).2 = Err OutOfFuel.
Proof.
  revert n. induction fuel as [|fuel IH]; intros n s Hb Hn; [done|].
  cbn [launch_run]. unfold launch_step, queue_put, mbind, st_bind, st_get, st_modify.
  rewrite (proj2 (Z.ltb_lt 0 n) Hn). cbn. apply IH; cbn; lia.
Qed.

(** A launch is cut into batches that the launchers may take: when it returns, the queue
    has grown by requests of the node type, none empty and none above
    [max_launch_batch], which add up to the nodes asked for; it returns for every count
    and every positive batch size. *)
Theorem launch_batched env count t s :
  0 <= count → foreground_node_launch (settings s) = false → 0 < max_launch_batch (settings s) →
  ∃ s' bs, launch_new_node env count t s = (s', Ok tt) ∧
    launch_queue s' = launch_queue s ++ ((λ n, (config s, n, t)) <$> bs) ∧
    sumZ bs = count ∧ Forall (λ n, 0 < n <= max_launch_batch (settings s)) bs.
Proof.
  intros Hc Hfg Hb.
  destruct (launch_new_node_spec env count t s Hc Hfg Hb) as (s' & bs & ? & ? & ? & ? & _). by exists s', bs.
Qed.
End launchers.

(** ** The composition with the scheduler *)

Section composition.
Context (env : Env) (hash_launch_conf conf_update : string → string → string).
Context (repr_request : ResourceDict → string) (conserve : bool).
Abbreviation P := (e_provider env).
Abbreviation of_type := (of_type env).

(** The nodes and the pending launches that the scheduler counts. *)
Lemma add_node_count self st nt avail st' t :
  add_node self st nt avail = Ok st' → t ∈ dkeys (node_types self) →
  dget_def t 0 st'.2 = dget_def t 0 st.2 + if decide (nt = t) then 1 else 0.
Proof.
  unfold add_node. destruct st as [nr counts]. intros Ha Ht.
  destruct (dget nt (node_types self)) as [c|] eqn:Hc; inv_ok.
  - rewrite dget_def_dset. repeat case_decide; simplify_eq; lia.
  - case_decide; [subst|lia]. by apply dget_None in Hc.
Qed.

Lemma count_nodes self unused nodes t : ∀ st st',
  provider self = P → t ∈ dkeys (node_types self) →
  foldM (λ s node_id,
    tags ← node_tags (provider self) node_id;
    match dget TAG_RAY_USER_NODE_TYPE tags with
    | None => Ok s
    | Some node_type =>
        ip ← internal_ip (provider self) (Some node_id);
        add_node self s node_type (dget ip unused)
    end) st nodes = Ok st' →
  dget_def t 0 st'.2 = dget_def t 0 st.2 + of_type t nodes.
Proof.
  intros st st' HP Ht. revert st. rewrite HP. induction nodes as [|n nodes IH]; intros st Hf.
  - cbn in Hf. inv_ok. change (of_type t []) with 0. lia.
  - cbn [foldM] in Hf. apply bind_Ok in Hf as (st1 & Hn & Hf). rewrite (IH _ Hf), of_type_cons.
    apply bind_Ok in Hn as (tags & Htags & Hn). unfold type_of. rewrite Htags.
    destruct (dget TAG_RAY_USER_NODE_TYPE tags) as [nt|].
    + apply bind_Ok in Hn as (ip & _ & Hn). rewrite (add_node_count _ _ _ _ _ t Hn Ht).
      repeat case_decide; simplify_eq; lia.
    + inv_ok. lia.
Qed.

Lemma count_pending self t k l : ∀ st st',
  t ∈ dkeys (node_types self) →
  foldM (λ s (_ : nat), add_node self s k None) st l = Ok st' →
  dget_def t 0 st'.2 = dget_def t 0 st.2 + if decide (k = t) then len l else 0.
Proof.
  intros st st' Ht. revert st. induction l as [|x l IH]; intros st Hf.
  - cbn in Hf. inv_ok. case_decide; change (len (@nil nat)) with 0; lia.
  - cbn [foldM] in Hf. apply bind_Ok in Hf as (st1 & Hn & Hf).
    rewrite (IH _ Hf), (add_node_count _ _ _ _ _ t Hn Ht), len_cons. case_decide; lia.
Qed.

Lemma calculate_exact self nodes pending unused nr counts t :
  provider self = P → t ∈ dkeys (node_types self) → dict_wf pending →
  (∀ k v, (k, v) ∈ pending → 0 <= v) →
  calculate_node_resources self nodes pending unused = Ok (nr, counts) →
  dget_def t 0 counts = of_type t nodes + dget_def t 0 pending.
Proof.
  intros HP Ht Hwf Hpos Hc. unfold calculate_node_resources in Hc.
  apply bind_Ok in Hc as (st & Hn & Hp). apply (count_nodes _ _ _ t _ _ HP Ht) in Hn.
  cbn [snd] in Hn. change (dget_def t 0 []) with 0 in Hn.
  enough (dget_def t 0 (nr, counts).2 = dget_def t 0 st.2 + dget_def t 0 pending) as Heq
    by (cbn [snd] in Heq; lia).
  clear Hn. revert st Hp. induction pending as [|[k v] pending IH]; intros st Hp.
  - cbn in Hp. inv_ok. change (dget_def t 0 []) with 0. lia.
  - cbn [foldM] in Hp. apply bind_Ok in Hp as (st1 & Hk & Hp).
    unfold dict_wf, dkeys in Hwf. cbn in Hwf. apply NoDup_cons in Hwf as [Hk0 Hwf].
    rewrite (IH Hwf ltac:(intros; eapply Hpos; by right) _ Hp), (count_pending _ t _ _ _ _ Ht Hk).
    assert (0 <= v) by (eapply Hpos; left). rewrite dget_def_cons. unfold len. rewrite length_seq.
    destruct (decide (k = t)) as [->|]; [|rewrite decide_False by done; lia].
    rewrite decide_True, (dget_def_not_in t 0 pending Hk0) by done. lia.
Qed.

(** What the scheduler reads of the load metrics. *)
Definition demands_of (lm : LoadMetrics) :=
  (get_resource_demand_vector lm true, pending_placement_groups lm, resource_requests lm).

Lemma launch_required_spec to_launch : ∀ s,
  (∀ t n, (t, n) ∈ to_launch → 0 <= n) → dict_wf to_launch →
  foreground_node_launch (settings s) = false → 0 < max_launch_batch (settings s) →
  ∃ s', launch_required_nodes env to_launch s = (s', Ok tt) ∧
    (∀ t, dget_def t 0 (pending_launches s') = dget_def t 0 (pending_launches s) + dget_def t 0 to_launch) ∧
    non_terminated_nodes s' = non_terminated_nodes s ∧ scheduler s' = scheduler s.
Proof.
  unfold launch_required_nodes.
  induction to_launch as [|[k n] to_launch IH]; intros s Hpos Hwf Hfg Hb.
  - exists s. cbn. split_and!; try done. intros t. change (dget_def t 0 []) with 0. lia.
  - unfold dict_wf, dkeys in Hwf. cbn in Hwf. apply NoDup_cons in Hwf as [Hk Hwf].
    destruct (launch_new_node_spec env n k s) as (s1 & bs & Hl & _ & _ & _ & Hp & Hs & _ & Hn);
      [by eapply Hpos; left|done|done|].
    destruct (IH s1) as (s' & Hf & Hpend & Hn' & Hsched).
    { intros t m Hin. eapply Hpos. by right. } { done. } { by rewrite Hs. } { by rewrite Hs. }
    assert (preserves scheduler (launch_new_node env n k)) as Hfr by frame.
    specialize (Hfr s). rewrite Hl in Hfr. cbn in Hfr.
    exists s'. cbn [st_for]. unfold mbind, st_bind. rewrite Hl. split_and!; [done| |congruence|congruence].
    intros t. rewrite Hpend, Hp, dget_def_dset, dget_def_cons.
    destruct (decide (t = k)) as [->|]; [|lia]. rewrite (dget_def_not_in k 0 to_launch Hk). lia.
Qed.

Lemma runtime_provider self nodes mx self' :
  _update_node_resources_from_runtime self nodes mx = Ok self' → provider self' = provider self.
Proof.
  unfold _update_node_resources_from_runtime. case_decide; intros Hu; inv_ok; [done|].
  eapply (foldM_inv _ (λ s, provider s = provider self)); [exact Hu|done|].
  intros s1 n s2 _ Hs. unfold update_from_runtime_step. intros Hstep. rewrite <- Hs.
  apply bind_Ok in Hstep as (tags & _ & Hstep). repeat case_match; inv_ok; try done;
    repeat case_match; inv_ok; repeat case_match; done.
Qed.

Lemma decision_provider self nodes launching demands unused pgs mx ensure self' d :
  is_legacy_yaml self None = false →
  get_nodes_to_launch conserve self nodes launching demands unused pgs mx ensure = Ok (self', d) →
  provider self' = provider self.
Proof.
  intros Hleg Hg. unfold get_nodes_to_launch in Hg. rewrite Hleg in Hg.
  unfold mbind at 1, result_bind at 1 in Hg.
  apply bind_Ok in Hg as (self2 & Hu & Hg).
  apply runtime_provider in Hu. rewrite <- Hu.
  apply bind_Ok in Hg as ([nr counts] & _ & Hg). apply bind_Ok in Hg as ([[nr1 c1] a1] & _ & Hg).
  destruct (placement_groups_to_resource_demands pgs). apply bind_Ok in Hg as (b & _ & Hg).
  destruct b; inv_ok; done.
Qed.

(** What comes before the question to the scheduler. *)
Lemma ask_scheduler_spec s s' tl unf :
  ask_scheduler env conserve s = (s', Ok (tl, unf)) →
  dict_wf (node_types (scheduler s)) → is_legacy_yaml (scheduler s) None = false →
  dict_wf (pending_launches s) → (∀ t n, (t, n) ∈ pending_launches s → 0 <= n) →
  demands_ok (demands_of (load_metrics s)).1.1 (demands_of (load_metrics s)).1.2
    (Some (demands_of (load_metrics s)).2) →
  dict_wf tl ∧ (∀ t n, (t, n) ∈ tl → 0 <= n) ∧
  launches s' = launches s ∧ settings s' = settings s ∧
  ∃ ntn, non_terminated_nodes s = Some ntn ∧ non_terminated_nodes s' = Some ntn ∧
    ∀ t, 0 < dget_def t 0 tl → ∃ c, dget t (node_types (scheduler s')) = Some c ∧
      of_type t (all_node_ids ntn) + dget_def t 0 (pending_launches s) + dget_def t 0 tl
        <= max_of_type (head_node_type (scheduler s')) t c.
Proof.
  intros Ha Hwf Hleg Hpwf Hppos Hd. unfold ask_scheduler in Ha.
  apply st_bind_Ok in Ha as (s1 & ntn & Hntn & Ha).
  assert (s1 = s ∧ non_terminated_nodes s = Some ntn) as [-> Hn].
  { unfold the_nodes in Hntn. rewrite st_bind_get in Hntn. unfold st_lift in Hntn.
    injection Hntn as <- Ho. by apply of_option_Ok in Ho. }
  rewrite st_bind_get in Ha. apply st_bind_lift in Ha as ([sched d] & Hg & Ha). inv_st.
  assert (is_legacy_yaml (with_provider env (scheduler s)) None = false) as Hleg' by exact Hleg.
  assert (dict_wf (node_types (with_provider env (scheduler s)))) as Hwfp by exact Hwf.
  pose proof (decision_provider _ _ _ _ _ _ _ _ _ _ Hleg' Hg) as Hprov.
  destruct (decision_spec conserve _ _ _ _ _ _ _ _ _ _ _ Hwfp Hleg' Hd Hg)
    as (Hwf' & nr & counts & s1 & total & Hcalc & _ & Hlim & _ & Htl & Hget).
  split_and!; [done| |done|done|].
  - intros t n Hin. destruct (Hget t n); [by apply dget_elem|lia].
  - exists ntn. split_and!; [done|done|]. intros t Hpos. unfold dget_def in Hpos at 1.
    destruct (dget t tl) as [n|] eqn:Ht; [|done]. cbn in Hpos.
    destruct (Hget t n Ht) as [Hk Hle]. destruct (Hlim t) as [_ Hl]. destruct Hl as (c & Hin & Hle'); [lia|].
    exists c. split; [by apply dget_elem|].
    rewrite (calculate_exact _ _ _ _ _ _ t Hprov Hk Hpwf Hppos Hcalc) in Hle'.
    unfold dget_def at 2. rewrite Ht. cbn in *. lia.
Qed.
End composition.

(** * The properties of an update *)

Section update_properties.
Context (env : Env) (hash_launch_conf conf_update : string → string → string).
Context (repr_request : ResourceDict → string) (conserve : bool).
Abbreviation _update := (_update env hash_launch_conf conf_update repr_request conserve).

(** The part of the state that the scheduler reads, less the nodes. *)
Definition scheduler_view (s : StandardAutoscaler) :=
  (launch_queue s, pending_launches s, settings s, scheduler s,
   (get_resource_demand_vector (load_metrics s) true, pending_placement_groups (load_metrics s),
    resource_requests (load_metrics s))).

#[local] Hint Extern 1 (preserves _ (untrack _)) => apply untrack_frame; done : frames.
#[local] Hint Extern 1 (preserves _ (track _ _ _)) => apply track_frame; done : frames.

Lemma prune_demands lm ips lm' :
  prune_active_ips lm ips = Ok lm' →
  (get_resource_demand_vector lm' true, pending_placement_groups lm', resource_requests lm')
  = (get_resource_demand_vector lm true, pending_placement_groups lm, resource_requests lm).
Proof. unfold prune_active_ips. intros Hp. by inv_ok. Qed.

(** An update that is not throttled asks the scheduler in a state with the
    same view, and launches what it answers. *)
Lemma update_shape s s' :
  Qltb (e_now env - last_update_time s) (update_interval_s (settings s)) = false →
  e_readonly env = false → _update s = (s', Ok tt) →
  ∃ s1 s2 s3 tl unf, scheduler_view s1 = scheduler_view s ∧
    ask_scheduler env conserve s1 = (s2, Ok (tl, unf)) ∧
    (launches s3, settings s3, scheduler s3, non_terminated_nodes s3)
      = (launches s2, settings s2, scheduler s2, non_terminated_nodes s2) ∧
    launch_required_nodes env tl s3 = (s', Ok tt).
Proof.
  intros Hthr Hro Hu. unfold Autoscaler._update in Hu. cbv zeta in Hu. rewrite st_bind_get, Hthr, Hro in Hu.
  apply st_bind_Ok in Hu as (sa & u1 & Ha & Hu). apply st_bind_lift in Hu as (ntn & _ & Hu).
  apply st_bind_Ok in Hu as (sb & u2 & Hb & Hu). apply st_bind_Ok in Hu as (sc & u3 & Hc & Hu).
  apply st_bind_lift in Hu as (ips & _ & Hu). apply st_bind_lift in Hu as (lm & Hlm & Hu).
  apply st_bind_Ok in Hu as (sd & u4 & Hd & Hu). apply prune_demands in Hlm.
  assert (scheduler_view sd = scheduler_view s) as Hview.
  { unfold st_modify in Ha, Hb, Hc, Hd. injection Ha as <- _. injection Hb as <- _.
    injection Hc as <- _. injection Hd as <- _. unfold scheduler_view.
    cbn -[get_resource_demand_vector]. by rewrite Hlm. }
  apply st_bind_Ok in Hu as (se & u5 & He & Hu). apply st_bind_Ok in Hu as (s1 & u6 & Hf & Hu).
  apply st_bind_Ok in Hu as (s2 & [tl unf] & Hask & Hu). apply st_bind_Ok in Hu as (s3 & u7 & Hr & Hu).
  exists s1, s2, s3, tl, unf.
  assert (preserves scheduler_view (log_info_strings env)) as Hp1 by frame.
  assert (preserves scheduler_view (maintain_nodes env hash_launch_conf conf_update (e_now env)))
    as Hp2 by frame.
  assert (preserves (λ s, (launches s, settings s, scheduler s, non_terminated_nodes s))
    (_report_pending_infeasible env repr_request unf)) as Hp3 by frame.
  specialize (Hp1 sd). specialize (Hp2 se). specialize (Hp3 s2). rewrite He in Hp1. rewrite Hf in Hp2.
  rewrite Hr in Hp3. cbn [fst] in *. split_and!; [congruence|done|done|done].
Qed.

(** An update never overbuys: after it, of every node type that it launches, the
    nodes that exist and the launches that are pending, old and new, are together at
    most the type's [max_workers] (one more for the head's type); of the other
    types nothing is launched.  Reading the nodes, enforcing the configuration,
    running updaters and asking the scheduler are composed as the code composes them. *)
Theorem update_type_limit s s' :
  Qltb (e_now env - last_update_time s) (update_interval_s (settings s)) = false →
  e_readonly env = false →
  foreground_node_launch (settings s) = false → 0 < max_launch_batch (settings s) →
  dict_wf (node_types (scheduler s)) → is_legacy_yaml (scheduler s) None = false →
  dict_wf (pending_launches s) → (∀ t n, (t, n) ∈ pending_launches s → 0 <= n) →
  demands_ok (get_resource_demand_vector (load_metrics s) true)
    (pending_placement_groups (load_metrics s)) (Some (resource_requests (load_metrics s))) →
  _update s = (s', Ok tt) →
  ∃ ntn, non_terminated_nodes s' = Some ntn ∧
    ∀ t, dget_def t 0 (pending_launches s') = dget_def t 0 (pending_launches s) ∨
      ∃ c, dget t (node_types (scheduler s')) = Some c ∧
        of_type env t (all_node_ids ntn) + dget_def t 0 (pending_launches s')
          <= max_of_type (head_node_type (scheduler s')) t c.
Proof.
  intros Hthr Hro Hfg Hb Hwf Hleg Hpwf Hppos Hd Hu.
  destruct (update_shape s s' Hthr Hro Hu) as (s1 & s2 & s3 & tl & unf & Hv & Hask & Hv3 & Hl).
  unfold scheduler_view in Hv. apply pair_eq in Hv as [Hv Hdem].
  apply pair_eq in Hv as [Hv Hsch1]. apply pair_eq in Hv as [Hv Hset1].
  apply pair_eq in Hv as [_ Hp1]. unfold launches in Hv3.
  apply pair_eq in Hv3 as [Hv3 Hn3]. apply pair_eq in Hv3 as [Hv3 Hsch3].
  apply pair_eq in Hv3 as [Hv3 Hset3]. apply pair_eq in Hv3 as [_ Hp3].
  destruct (ask_scheduler_spec env conserve s1 s2 tl unf Hask)
    as (Htl & Htlpos & Hl2 & Hset2 & ntn & _ & Hn2 & Hlim).
  { by rewrite Hsch1. } { by rewrite Hsch1. } { by rewrite Hp1. } { by rewrite Hp1. }
  { by rewrite (Hdem : demands_of _ = demands_of _). }
  unfold launches in Hl2. apply pair_eq in Hl2 as [_ Hp2].
  destruct (launch_required_spec env tl s3) as (s4 & Hl4 & Hpend & Hn4 & Hsch4); [done|done|..].
  { by rewrite Hset3, Hset2, Hset1. } { by rewrite Hset3, Hset2, Hset1. }
  rewrite Hl in Hl4. injection Hl4 as <-.
  exists ntn. split; [congruence|]. intros t. rewrite Hpend, Hp3, Hp2, Hp1, Hsch4, Hsch3.
  destruct (decide (0 < dget_def t 0 tl)) as [Hpos|Hpos].
  - right. destruct (Hlim t Hpos) as (c & Hc & Hle). exists c. split; [done|]. rewrite Hp1 in Hle. lia.
  - left. enough (0 <= dget_def t 0 tl) by lia. unfold dget_def.
    destruct (dget t tl) as [n|] eqn:Ht; cbn; [|done]. by eapply Htlpos, dget_Some_elem.
Qed.

End update_properties.

(** ** Every loop of an update ends *)

Definition ends {A} (r : result A) : Prop := r ≠ Err OutOfFuel.

Lemma ends_bind {A B} (c : result A) (k : A → result B) :
  ends c → (∀ a, ends (k a)) → ends (c ≫= k).
Proof. intros Hc Hk. destruct c as [a|e]; cbn; [apply Hk|]. intros [= ->]. by apply Hc. Qed.

Lemma ends_foldM {A B} (k : B → A → result B) l b : (∀ b a, ends (k b a)) → ends (foldM k b l).
Proof.
  intros Hk. revert b. induction l as [|a l IH]; intros b; [done|]. cbn. by apply ends_bind.
Qed.

Lemma ends_assert b : ends (py_assert b).
Proof. by destruct b. Qed.

Lemma ends_option {A} e (o : option A) : e ≠ OutOfFuel → ends (of_option e o).
Proof. destruct o; [done|]. by intros ? [= ->]. Qed.

Create HintDb ends.

(** Split a computation into its parts, as [frame] does. *)
Ltac ends :=
  repeat (cbv zeta; intros;
    lazymatch goal with
    | |- ends (mbind _ _) => apply ends_bind
    | |- ends (Ok _) => done
    | |- ends (mret _) => done
    | |- ends (Err _) => done
    | |- ends (foldM _ _ _) => apply ends_foldM
    | |- ends (py_assert _) => apply ends_assert
    | |- ends (of_option _ _) => apply ends_option; done
    | |- ends (match ?x with _ => _ end) => destruct x
    | |- ends (match ?x with _ => _ end _) => destruct x
    | |- ends ?m => first [solve [eauto with ends] | let h := head_of m in unfold h]
    end).

Lemma inplace_subtract_ends node res : ends (_inplace_subtract node res).
Proof. revert node. induction res as [|[k v] res IH]; intros node; cbn; [done|]. ends. Qed.
#[local] Hint Resolve inplace_subtract_ends : ends.

Lemma residual_ends nodes demands strict : ends (get_bin_pack_residual nodes demands strict).
Proof. ends. Qed.
#[local] Hint Resolve residual_ends : ends.

Lemma score_types_ends conserve existing added head rs strict sc t :
  ends (score_types conserve existing added head rs strict sc t).
Proof. ends. Qed.
#[local] Hint Resolve score_types_ends : ends.

(** Each round of [get_nodes_for] leaves fewer demands: no round is missing. *)
Lemma nodes_for_body_shorter conserve nts existing head mx strict added rs added' rs' :
  get_nodes_for_body conserve nts existing head mx strict added rs = Ok (Some (added', rs')) →
  (length rs' < length rs)%nat.
Proof.
  unfold get_nodes_for_body. destruct rs as [|r rs]; [done|].
  destruct (_ || _); [done|]. intros Hb. apply bind_Ok in Hb as (scores & _ & Hb).
  destruct (py_sorted_rev _ _ _) as [|[sc best] l]; [done|].
  apply bind_Ok in Hb as (rs1 & Hrs & Hb). simplify_eq. destruct strict; [simplify_eq; cbn; lia|].
  inv_ok. repeat case_match; inv_ok. by apply Nat.ltb_lt.
Qed.

Lemma nodes_for_loop_ends conserve nts existing head mx strict : ∀ fuel added rs,
  (length rs ≤ fuel)%nat →
  ends (get_nodes_for_loop conserve fuel nts existing head mx strict added rs).
Proof.
  assert (∀ added rs, ends (get_nodes_for_body conserve nts existing head mx strict added rs)) as Hb
    by (intros; ends).
  induction fuel as [|fuel IH]; intros added rs Hl; cbn; specialize (Hb added rs);
    destruct (get_nodes_for_body _ _ _ _ _ _ _ _) as [[[added' rs']|]|e] eqn:He; cbn; try done;
    try (intros [= ->]; by apply Hb); apply nodes_for_body_shorter in He; [lia|].
  apply IH. lia.
Qed.

Lemma nodes_for_ends conserve nts existing head mx rs strict :
  ends (get_nodes_for conserve nts existing head mx rs strict).
Proof. by apply nodes_for_loop_ends. Qed.
#[local] Hint Resolve nodes_for_ends : ends.

(** The outside answers: its calls return or raise. *)
Record env_answers (env : Env) : Prop := {
  answers_tags n : ends (node_tags (e_provider env) n);
  answers_ip n : ends (internal_ip (e_provider env) n);
  answers_nodes : ends (e_nodes env);
  answers_terminate l : ends (e_terminate env l);
  answers_config : ends (e_config env);
  answers_hashes : ends (e_hashes env);
}.

(** A computation ends, when batches are not empty, and leaves the settings alone. *)
Definition st_ends {A} (m : ST StandardAutoscaler A) : Prop :=
  ∀ s, 0 < max_launch_batch (settings s) → ends (m s).2 ∧ settings (m s).1 = settings s.

Section st_ends.
Lemma st_ends_bind {A B} (m : ST StandardAutoscaler A) (k : A → ST StandardAutoscaler B) :
  st_ends m → (∀ a, st_ends (k a)) → st_ends (m ≫= k).
Proof.
  intros Hm Hk s Hs. unfold mbind, st_bind. destruct (Hm s Hs) as [He Hset].
  destruct (m s) as [s1 [a|e]]; cbn in *; [|split; [|done]; intros [= ->]; by apply He].
  destruct (Hk a s1) as [He2 Hset2]; [by rewrite Hset|]. split; [done|congruence].
Qed.

Lemma st_ends_lift {A} (r : result A) : ends r → st_ends (st_lift r).
Proof. intros Hr s Hs. by split. Qed.

Lemma st_ends_ret {A} (a : A) : st_ends (mret a).
Proof. intros s Hs. by split. Qed.

Lemma st_ends_get : st_ends st_get.
Proof. intros s Hs. by split. Qed.

Lemma st_ends_raise {A} e : e ≠ OutOfFuel → st_ends (st_raise e : ST StandardAutoscaler A).
Proof. intros He s Hs. split; [|done]. by intros [= ->]. Qed.

Lemma st_ends_modify f : (∀ s, settings (f s) = settings s) → st_ends (st_modify f).
Proof. intros Hf s Hs. split; [done|apply Hf]. Qed.

Lemma st_ends_for {A} (l : list A) k : (∀ a, st_ends (k a)) → st_ends (st_for l k).
Proof. intros Hk. induction l as [|a l IH]; cbn; [apply st_ends_ret|by apply st_ends_bind]. Qed.

Lemma st_ends_fold {A B} (l : list A) (k : B → A → ST StandardAutoscaler B) b :
  (∀ b a, st_ends (k b a)) → st_ends (st_fold k b l).
Proof.
  intros Hk. revert b. induction l as [|a l IH]; intros b; cbn; [apply st_ends_ret|by apply st_ends_bind].
Qed.

Lemma st_ends_thread m : st_ends m → st_ends (in_thread m).
Proof.
  intros Hm s Hs. destruct (Hm s Hs) as [He Hset]. unfold in_thread.
  destruct (m s) as [s1 [a|[]]]; cbn in *; done.
Qed.

Lemma st_ends_try m h k : st_ends m → st_ends h → st_ends k → st_ends (try_else m h k).
Proof.
  intros Hm Hh Hk s Hs. destruct (Hm s Hs) as [He Hset]. unfold try_else.
  destruct (m s) as [s1 [a|e]]; cbn in *;
    [destruct (Hk s1) as [? ?]|destruct (Hh s1) as [? ?]]; try by rewrite Hset.
  - split; congruence.
  - destruct e; cbn; split; congruence.
Qed.
End st_ends.

Ltac st_ends :=
  repeat (cbv zeta; intros;
    lazymatch goal with
    | |- st_ends (mbind _ _) => apply st_ends_bind
    | |- st_ends (mret _) => apply st_ends_ret
    | |- st_ends st_get => apply st_ends_get
    | |- st_ends (st_lift _) => apply st_ends_lift
    | |- st_ends (st_raise _) => apply st_ends_raise; done
    | |- st_ends (st_modify _) => apply st_ends_modify; done
    | |- st_ends (st_for _ _) => apply st_ends_for
    | |- st_ends (st_fold _ _ _) => apply st_ends_fold
    | |- st_ends (in_thread _) => apply st_ends_thread
    | |- st_ends (try_else _ _ _) => apply st_ends_try
    | |- st_ends (match ?x with _ => _ end) => destruct x
    | |- st_ends ?m => first [solve [auto with ends] | let h := head_of m in unfold h]
    | |- ends _ => solve [ends]
    end).

Section update_ends.
Context (env : Env) (hash_launch_conf conf_update : string → string → string).
Context (repr_request : ResourceDict → string) (conserve : bool).
Context (Henv : env_answers env).

#[local] Hint Resolve answers_tags answers_ip answers_nodes answers_terminate answers_config
  answers_hashes : ends.

(** The scheduler's questions go to the provider of the environment. *)
Definition asks (self : ResourceDemandScheduler) : Prop := provider self = e_provider env.

Lemma asks_tags self n : asks self → ends (node_tags (provider self) n).
Proof. intros ->. by apply answers_tags. Qed.

Lemma asks_ip self n : asks self → ends (internal_ip (provider self) n).
Proof. intros ->. by apply answers_ip. Qed.
#[local] Hint Resolve asks_tags asks_ip : ends.

Lemma ends_foldM_inv {A B} (P : B → Prop) (k : B → A → result B) l b :
  P b → (∀ b a, P b → ends (k b a) ∧ ∀ b', k b a = Ok b' → P b') → ends (foldM k b l).
Proof.
  intros Hb Hk. revert b Hb. induction l as [|a l IH]; intros b Hb; [done|]. cbn.
  destruct (Hk b a Hb) as [He Hp]. destruct (k b a) as [b'|e]; cbn; [by apply IH, Hp|].
  intros [= ->]. by apply He.
Qed.

Lemma ends_bind_Ok {A B} (c : result A) (k : A → result B) :
  ends c → (∀ a, c = Ok a → ends (k a)) → ends (c ≫= k).
Proof. intros Hc Hk. destruct c as [a|e]; cbn; [by apply Hk|]. intros [= ->]. by apply Hc. Qed.

Lemma runtime_ends self nodes mx :
  asks self → ends (_update_node_resources_from_runtime self nodes mx).
Proof.
  intros Ha. unfold _update_node_resources_from_runtime. case_decide; [done|].
  apply (ends_foldM_inv asks); [done|]. clear dependent self. intros self n Ha. split; [unfold update_from_runtime_step; ends|].
  intros self' Hs. pose proof (runtime_provider self [n] mx self') as Hp. unfold asks in *.
  rewrite <- Ha. unfold update_from_runtime_step in Hs.
  apply bind_Ok in Hs as (tags & _ & Hs). repeat case_match; inv_ok; try done;
    repeat case_match; inv_ok; repeat case_match; done.
Qed.

Lemma infer_head_ends self h mx :
  asks self → ends (infer_head_resources self h mx) ∧
    ∀ self', infer_head_resources self h mx = Ok self' → asks self'.
Proof.
  intros Ha. pose proof (asks_ip self h Ha) as Hip.
  unfold infer_head_resources, ends, config_resources, dget_exn, of_option, mbind, result_bind in *.
  repeat (case_match; simplify_eq); split; intros; simplify_eq; try done; by destruct Hip.
Qed.

Lemma infer_worker_ends self h mx :
  asks self → ends (infer_worker_resources self h mx) ∧
    ∀ self', infer_worker_resources self h mx = Ok self' → asks self'.
Proof.
  intros Ha. split; [unfold infer_worker_resources; ends|].
  unfold infer_worker_resources. intros self' Hi. inv_ok. repeat case_match; inv_ok; try done.
  by case_match.
Qed.

Lemma infer_legacy_ends self nodes mx :
  asks self → ends (_infer_legacy_node_resources_if_needed self nodes mx) ∧
    ∀ self', _infer_legacy_node_resources_if_needed self nodes mx = Ok self' → asks self'.
Proof.
  intros Ha. unfold _infer_legacy_node_resources_if_needed. split.
  - apply ends_bind; [ends|]. intros [h ws]. apply ends_bind_Ok; [by apply infer_head_ends|].
    intros self1 H1. apply infer_worker_ends. by eapply infer_head_ends.
  - intros self' Hi. apply bind_Ok in Hi as ([h ws] & _ & Hi). apply bind_Ok in Hi as (self1 & H1 & Hi).
    eapply infer_worker_ends; [|done]. by eapply infer_head_ends.
Qed.

Lemma nodes_to_launch_ends self nodes launching demands unused pgs mx ensure :
  asks self → ends (get_nodes_to_launch conserve self nodes launching demands unused pgs mx ensure).
Proof.
  intros Ha. unfold get_nodes_to_launch. apply ends_bind_Ok.
  { case_match; [by apply infer_legacy_ends|done]. }
  intros self1 H1. assert (asks self1) as Ha1.
  { revert H1. case_match; [|congruence]. by apply infer_legacy_ends. }
  apply ends_bind_Ok; [by apply runtime_ends|]. intros self2 H2.
  assert (asks self2) as Ha2 by (unfold asks; by rewrite (runtime_provider _ _ _ _ H2)).
  clear H1 H2. ends.
Qed.

Lemma asks_with_provider self : asks (with_provider env self).
Proof. done. Qed.
#[local] Hint Resolve nodes_to_launch_ends asks_with_provider : ends.

(** The tracker has no loop: run it. *)
Ltac run_tracker :=
  unfold mbind, st_bind, st_get, st_lift, st_modify, mret, st_ret, st_raise, py_assert;
  repeat (case_match; simplify_eq; cbn in *); done.

Lemma untrack_ends n : st_ends (untrack n).
Proof.
  intros s Hs. unfold untrack.
  assert (ends (NodeTracker.untrack n (node_tracker s)).2)
    by (unfold ends, NodeTracker.untrack, NodeTracker.remove_lru, NodeTracker.del_mapping; run_tracker).
  by destruct (NodeTracker.untrack _ _).
Qed.

Lemma track_ends n ip t : st_ends (track n ip t).
Proof.
  intros s Hs. unfold track.
  assert (ends (NodeTracker.track (max_tracked (settings s)) n ip t (node_tracker s)).2)
    by (unfold ends, NodeTracker.track, NodeTracker._add_node_mapping, NodeTracker.pop_lru,
          NodeTracker.del_mapping; run_tracker).
  by destruct (NodeTracker.track _ _ _ _ _).
Qed.
#[local] Hint Resolve untrack_ends track_ends : ends.

Lemma launch_node_ends c n t : st_ends (launch_node env c n t).
Proof. st_ends. Qed.

(** [launch_new_node] ends because every batch takes something off the count. *)
Lemma launch_new_node_ends n t : st_ends (launch_new_node env n t).
Proof.
  intros s Hs. destruct (launch_new_node env n t s) as [s' r] eqn:Hl. cbn [fst snd].
  unfold launch_new_node in Hl. change (2 + Z.to_nat n)%nat with (S (1 + Z.to_nat n)) in Hl.
  cbn [launch_run] in Hl. unfold mbind at 1, st_bind at 1 in Hl.
  destruct (launch_step env (LaunchStart n t) s) as [s1 r1] eqn:Hstep.
  unfold launch_step, add_event, pending_inc, mbind, st_bind, st_modify, st_get, mret, st_ret in Hstep.
  cbn in Hstep. destruct (foreground_node_launch (settings s)); cbn in Hstep.
  - set (s0 := set_pending_launches _ _) in Hstep.
    destruct (launch_node_ends (config s) n t s0) as [He Hset]; [done|].
    destruct (launch_node env (config s) n t s0) as [s2 [[]|e]]; cbn in *; simplify_eq.
    + cbv in Hl. by simplify_eq.
    + split; [|done]. intros [= ->]. by apply He.
  - simplify_eq. set (s0 := set_pending_launches _ _) in Hl.
    destruct (launch_loop_spec env (config s) t (S (Z.to_nat n)) n s0) as (bs & Hr & _); [done|lia|].
    cbn [Nat.add] in Hl. rewrite Hr in Hl. by simplify_eq.
Qed.
#[local] Hint Resolve launch_new_node_ends : ends.

Lemma update_body_ends :
  st_ends (_ ← reset env; _update env hash_launch_conf conf_update repr_request conserve).
Proof. st_ends. Qed.

(** The configuration after an update is the old one or the one that was read. *)
Lemma update_body_config s :
  let s' := ((_ ← reset env; _update env hash_launch_conf conf_update repr_request conserve) s).1 in
  config s' = config s ∨ e_config env = Ok (config s').
Proof.
  pose proof (update_config_frame env hash_launch_conf conf_update repr_request conserve) as Hup.
  cbv zeta. unfold mbind, st_bind.
  assert (config (reset env s).1 = config s ∨ e_config env = Ok (config (reset env s).1)) as Hreset.
  { unfold reset, in_thread, reset_body, mbind, st_bind, st_lift, st_modify, st_get.
    repeat (case_match; simplify_eq; cbn in *; auto). }
  destruct (reset env s) as [s1 [[]|e]]; cbn in *; [|done]. by rewrite Hup.
Qed.

(** Whatever happens in it, an update counts at most one failure, and raises only
    when the count is above the bound. *)
Lemma update_counts s s' r :
  0 < max_launch_batch (settings s) →
  (∀ c, e_config env = Ok c ∨ c = config s → is_Some (provider_type c)) →
  update env hash_launch_conf conf_update repr_request conserve s = (s', r) →
  settings s' = settings s ∧ is_Some (provider_type (config s')) ∧
  num_failures s <= num_failures s' <= num_failures s + 1 ∧
  (num_failures s' <= max_failures (settings s) → r = Ok tt).
Proof.
  intros Hb Hprov. unfold update.
  pose proof (update_body_frame env hash_launch_conf conf_update repr_request conserve s) as Hf.
  pose proof (update_body_ends s Hb) as [Hends _].
  pose proof (update_body_config s) as Hcfg.
  destruct ((_ ← reset env; _update env hash_launch_conf conf_update repr_request conserve) s) as [s1 [[]|e]]; cbn in Hf, Hcfg, Hends;
    injection Hf as Hnf Hset; intros Hu.
  - simplify_eq. rewrite Hnf, Hset. split_and!; [done| |lia|lia|done].
    apply Hprov. destruct Hcfg; auto.
  - destruct (Hprov (config s1)) as [ty Hty]; [destruct Hcfg; auto|].
    assert (update_handler e s1 = (s', r)) as Hh by (destruct e; done || by destruct Hends).
    unfold update_handler in Hh. rewrite Hty in Hh.
    set (s2 := if _ && _ then _ else _) in Hh.
    assert (settings s2 = settings s1 ∧ config s2 = config s1 ∧
      num_failures s1 <= num_failures s2 <= num_failures s1 + 1)
      as (Hset2 & Hcfg2 & Hnf2) by (unfold s2; destruct (_ && _); cbn; (split_and!; [done|done|lia|lia])).
    injection Hh as <- <-. rewrite Hset2, Hset, Hcfg2, Hty. split_and!; [done|by eexists|lia|lia|].
    intros Hle. destruct (Z.ltb_spec (max_failures (settings s)) (num_failures s2)); [lia|done].
Qed.
End update_ends.

(** A failing update whose configuration has no provider type raises [KeyError] from its
    handler, whatever the number of failures. *)
Lemma handler_needs_provider_type env hash_launch_conf conf_update repr_request conserve s s1 e :
  (_ ← reset env; _update env hash_launch_conf conf_update repr_request conserve) s = (s1, Err e) →
  e ≠ OutOfFuel → provider_type (config s1) = None →
  update env hash_launch_conf conf_update repr_request conserve s = (s1, Err KeyError).
Proof.
  intros Hb He Hty. unfold update. rewrite Hb. unfold update_handler. rewrite Hty. by destruct e.
Qed.

(** C40: the autoscaler survives [max_failures] failing updates: from a state without
    failures, with a positive [max_launch_batch] and with a provider type in its configuration
    and in every configuration it reads, any sequence of at most [max_failures] updates, each
    in an environment of its own whose provider and configuration file answer or raise anything
    at every call, runs to its end: every loop ends and no update raises. *)
Theorem update_tolerates_failures hash_launch_conf conf_update repr_request conserve envs s :
  num_failures s = 0 → len envs <= max_failures (settings s) →
  0 < max_launch_batch (settings s) → is_Some (provider_type (config s)) →
  Forall env_answers envs →
  Forall (λ env, ∀ c, e_config env = Ok c → is_Some (provider_type c)) envs →
  ∃ s', st_for envs (λ env, update env hash_launch_conf conf_update repr_request conserve) s = (s', Ok tt) ∧
    0 <= num_failures s' <= len envs.
Proof.
  intros H0 Hlen Hb Hty Henv Hread. revert Hlen.
  enough (∀ k, 0 <= num_failures s <= k → k + len envs <= max_failures (settings s) →
    ∃ s', st_for envs (λ env, update env hash_launch_conf conf_update repr_request conserve) s = (s', Ok tt) ∧
      0 <= num_failures s' <= k + len envs) as Hgen by (intros; apply (Hgen 0); lia).
  clear H0. revert s Hb Hty. induction Henv as [|env envs He Henv IH]; intros s Hb Hty k Hk Hmax.
  - exists s. split; [done|]. change (len (@nil Env)) with 0. lia.
  - cbn [st_for]. rewrite len_cons in *. pose proof (len_nonneg envs).
    apply Forall_cons in Hread as [Hr Hread].
    destruct (update env hash_launch_conf conf_update repr_request conserve s) as [s1 r] eqn:Hu.
    destruct (update_counts env hash_launch_conf conf_update repr_request conserve He s s1 r)
      as (Hset & Hty1 & Hnf & Hok); [done|intros c [?| ->]; auto|done|]. rewrite Hok in Hu by lia.
    destruct (IH Hread s1) with (k := k + 1) as (s' & Hrun & Hle); [by rewrite Hset|done|lia|rewrite Hset; lia|].
    exists s'. unfold mbind, st_bind. rewrite Hu. split; [done|lia].
Qed.

(** * The properties at concrete inputs *)

Module AutoscalerExamples.
Open Scope string_scope.

(** A head and three workers of one type, which may have two. *)
Definition tags_of (n : NodeID) : result (dict string string) :=
  if decide (n = "h") then Ok [(TAG_RAY_NODE_KIND, NODE_KIND_HEAD); (TAG_RAY_USER_NODE_TYPE, "head");
                               (TAG_RAY_NODE_STATUS, STATUS_UP_TO_DATE)]
  else Ok [(TAG_RAY_NODE_KIND, NODE_KIND_WORKER); (TAG_RAY_USER_NODE_TYPE, "cpu");
           (TAG_RAY_NODE_STATUS, STATUS_UP_TO_DATE); (TAG_RAY_LAUNCH_CONFIG, "conf-auth");
           (TAG_RAY_RUNTIME_CONFIG, "rt")].

Definition provider : NodeProvider :=
  {| node_tags := tags_of;
     internal_ip := λ n, match n with Some n => Ok ("ip-" +:+ n) | None => Err KeyError end |}.

Definition node_type (cpus : Z) (mn mx : Z) : NodeTypeConfig :=
  {| nt_resources := Some [("CPU", inject_Z cpus)]; nt_min_workers := Some mn;
     nt_max_workers := Some mx; nt_node_config := Some "conf"; nt_other := [] |}.

Definition cfg : Config :=
  {| available_node_types := [("head", node_type 2 0 0); ("cpu", node_type 4 1 2); ("big", node_type 8 0 3)];
     cfg_max_workers := 5; cfg_head_node_type := "head"; idle_timeout_minutes := 5;
     cfg_upscaling_speed := None; autoscaling_mode := None; target_utilization_fraction := None;
     worker_nodes := ""; auth := "-auth"; provider_type := Some "aws"; restart_only := false;
     no_restart := false; worker_setup_commands := []; worker_start_ray_commands := [];
     initialization_commands := []; docker := None; type_setup_commands := [];
     type_initialization_commands := []; type_docker := [] |}.

Definition env (nodes : result (list NodeID)) : Env :=
  {| e_provider := provider; e_nodes := nodes;
     e_readonly := false; e_terminate := λ _, Ok tt; e_now := 1000; e_mark_now := λ _, 1000%Q;
     e_exitcode := λ _, None; e_config := Ok cfg; e_hashes := Ok ("rt", None);
     e_create := λ _ _, Created |}.

Definition settings0 : Settings :=
  {| max_launch_batch := 2; max_failures := 2; update_interval_s := 5; max_tracked := 10;
     disable_node_updaters := true; disable_launch_config_check := false;
     foreground_node_launch := false; launcher_has_types := true; worker_liveness_check := true;
     worker_rpc_drain := true |}.

(** Heartbeats: the first worker is busy, the second idle for long. *)
Definition heartbeat (free : Q) (waiting : list ResourceDict) : Heartbeat :=
  {| hb_raylet_id := "r"; hb_static := [("CPU", 4%Q)]; hb_dynamic := [("CPU", free)]; hb_load := [];
     hb_waiting := Some waiting; hb_infeasible := None; hb_pending_pgs := None;
     hb_full_of_actors := false |}.

Definition history : list op :=
  [Update "ip-w1" (heartbeat 1 []) 100; Update "ip-w2" (heartbeat 4 []) 200;
   Update "ip-w1" (heartbeat 1 []) 900; Update "ip-w2" (heartbeat 4 [[("CPU", 8%Q)]]) 990].

Definition lm : LoadMetrics :=
  match foldM run_op lm_init history with Ok lm => lm | Err _ => lm_init end.

Definition sched : ResourceDemandScheduler :=
  {| DemandScheduler.provider := provider; node_types := available_node_types cfg;
     node_resource_updated := ∅; max_workers := 5; head_node_type := "head"; upscaling_speed := 1 |}.

Definition state (ntn : option NonTerminatedNodes) : StandardAutoscaler :=
  {| settings := settings0; config := cfg; runtime_hash := "rt"; file_mounts_contents_hash := None;
     scheduler := sched; load_metrics := lm; updaters := []; num_failed_updates := [];
     num_successful_updates := []; num_failures := 0; last_update_time := 0;
     non_terminated_nodes := ntn; nodes_to_terminate := []; launch_queue := [];
     pending_launches := []; node_tracker := NodeTracker.init;
     event_summarizer := EventSummarizer.init; availability := []; actions := [] |}.

Definition ntn : NonTerminatedNodes :=
  {| all_node_ids := ["h"; "w1"; "w2"; "w3"]; worker_ids := ["w1"; "w2"; "w3"]; head_id := Some "h" |}.

Definition nodes : result (list NodeID) := Ok ["h"; "w1"; "w2"; "w3"].

Abbreviation enforce := (terminate_nodes_to_enforce_config_constraints (env nodes) String.append String.append 1000).
Abbreviation do_update := (_update (env nodes) String.append String.append (λ _, "") true).
End AutoscalerExamples.

(** A run that is evaluated to its end. *)
Lemma run_ok {A} (m : ST StandardAutoscaler A) s a : (m s).2 = Ok a → m s = ((m s).1, Ok a).
Proof. intros <-. by destruct (m s). Qed.

Lemma example_history : Forall op_ok AutoscalerExamples.history ∧ clock_ok 0 AutoscalerExamples.history.
Proof.
  split.
  - unfold AutoscalerExamples.history.
    assert (∀ q w, heartbeat_ok (AutoscalerExamples.heartbeat q w)) as Hhb.
    { intros q w. unfold heartbeat_ok, dict_wf. cbn. unfold dkeys. cbn.
      split_and!; [apply NoDup_singleton|apply NoDup_singleton|done|done]. }
    repeat apply List.Forall_cons; try apply List.Forall_nil; apply Hhb.
  - cbn. repeat split; unfold Qle; cbn; lia.
Qed.

Lemma example_nodup : NoDup (worker_ids AutoscalerExamples.ntn).
Proof. cbn. repeat (constructor; [set_solver|]). constructor. Qed.

Lemma enforcement_limits_witness :
  ∃ ntn', non_terminated_nodes
      (AutoscalerExamples.enforce (AutoscalerExamples.state (Some AutoscalerExamples.ntn))).1 = Some ntn' ∧
    ∀ n, n ∈ worker_ids ntn' → launch_config_ok (AutoscalerExamples.env AutoscalerExamples.nodes)
      String.append String.append (AutoscalerExamples.state (Some AutoscalerExamples.ntn)) n = Ok true.
Proof.
  destruct (enforcement_limits (AutoscalerExamples.env AutoscalerExamples.nodes) String.append String.append
    1000 (AutoscalerExamples.state (Some AutoscalerExamples.ntn))
    (AutoscalerExamples.enforce (AutoscalerExamples.state (Some AutoscalerExamples.ntn))).1 tt
    AutoscalerExamples.ntn) as (ntn' & _ & _ & Hn & _ & _ & Hok & _).
  - reflexivity.
  - reflexivity.
  - exact example_nodup.
  - apply run_ok. vm_compute. reflexivity.
  - exists ntn'. split; [exact Hn|exact Hok].
Defined.

Lemma enforcement_keeps_needed_witness :
  ∃ ntn', non_terminated_nodes
      (AutoscalerExamples.enforce (AutoscalerExamples.state (Some AutoscalerExamples.ntn))).1 = Some ntn' ∧
    1 <= of_type (AutoscalerExamples.env AutoscalerExamples.nodes) "cpu" (worker_ids ntn').
Proof.
  destruct (enforcement_keeps_needed (AutoscalerExamples.env AutoscalerExamples.nodes) String.append
    String.append 1000 (AutoscalerExamples.state (Some AutoscalerExamples.ntn))
    (AutoscalerExamples.enforce (AutoscalerExamples.state (Some AutoscalerExamples.ntn))).1 tt
    AutoscalerExamples.ntn) as (ntn' & _ & _ & Hn & _ & _ & Hmin & _).
  - reflexivity.
  - reflexivity.
  - exact example_nodup.
  - apply run_ok. vm_compute. reflexivity.
  - exists ntn'. split; [exact Hn|].
    exact (Hmin "cpu"%string (AutoscalerExamples.node_type 4 1 2) eq_refl).
Defined.

Lemma enforcement_sound_witness :
  reports_idle (AutoscalerExamples.heartbeat 4 [[("CPU"%string, 8%Q)]]) = true.
Proof.
  destruct (enforcement_sound (AutoscalerExamples.env AutoscalerExamples.nodes) String.append String.append
    1000 (AutoscalerExamples.state (Some AutoscalerExamples.ntn))
    (AutoscalerExamples.enforce (AutoscalerExamples.state (Some AutoscalerExamples.ntn))).1 tt
    AutoscalerExamples.ntn AutoscalerExamples.history 0) as (ntn' & Hn & Hr).
  - apply example_history.
  - apply example_history.
  - reflexivity.
  - reflexivity.
  - reflexivity.
  - exact example_nodup.
  - apply run_ok. vm_compute. reflexivity.
  - vm_compute in Hn. injection Hn as <-.
    destruct (Hr "w2"%string) as [(t & Ht & Hc)|[(t & c & Ht & Hc & Hlt)|[Hf|[Hlen|(ip & Hip & Hall)]]]].
    + cbn. set_solver.
    + cbn. set_solver.
    + vm_compute in Ht. injection Ht as <-. discriminate Hc.
    + reflexivity.
    + discriminate Hf.
    + vm_compute in Hlen. destruct (Hlen eq_refl).
    + vm_compute in Hip. injection Hip as <-. apply (Hall _ 990%Q); [|vm_compute; discriminate].
      unfold AutoscalerExamples.history. set_solver.
Defined.

Lemma unhealthy_sound_witness :
  lost_contact (AutoscalerExamples.env AutoscalerExamples.nodes) 1000
    (AutoscalerExamples.state (Some AutoscalerExamples.ntn)) "w1".
Proof.
  destruct (unhealthy_sound (AutoscalerExamples.env AutoscalerExamples.nodes) 1000
    (AutoscalerExamples.state (Some AutoscalerExamples.ntn))
    (terminate_unhealthy_nodes (AutoscalerExamples.env AutoscalerExamples.nodes) 1000
      (AutoscalerExamples.state (Some AutoscalerExamples.ntn))).1 tt AutoscalerExamples.ntn)
    as (ntn' & Hn & Hlost).
  - intros ip. cbn. lra.
  - reflexivity.
  - reflexivity.
  - apply run_ok. vm_compute. reflexivity.
  - apply Hlost; [left|]. vm_compute in Hn. injection Hn as <-. cbn. set_solver.
Defined.

(** A call for three nodes in batches of two, whose first batch a launcher has taken
    before the second is put. *)
Definition launch_at (pc : LaunchPc) : StandardAutoscaler → StandardAutoscaler := λ s,
  (launch_step (AutoscalerExamples.env AutoscalerExamples.nodes) pc s).1.
Definition between_puts : StandardAutoscaler :=
  set_launch_queue [] (launch_at (LaunchLoop AutoscalerExamples.cfg 3 "big")
    (launch_at (LaunchStart 3 "big") (AutoscalerExamples.state None))).

Lemma launches_accounted_witness :
  dget_def "big"%string 0 (pending_launches between_puts) = 2 + 1 ∧
  ∃ s', launch_node (AutoscalerExamples.env AutoscalerExamples.nodes) AutoscalerExamples.cfg 2 "big"
    between_puts = (s', Ok tt) ∧
    dget_def "big"%string 0 (pending_launches s') =
      dget_def "big"%string 0 (pending_launches between_puts) - 2.
Proof.
  destruct (launches_accounted (AutoscalerExamples.state None) between_puts
    (LaunchLoop AutoscalerExamples.cfg 1 "big") [(AutoscalerExamples.cfg, 2, "big"%string)])
    as [Hacc Hfin].
  - reflexivity.
  - reflexivity.
  - reflexivity.
  - eapply rtc_l; [apply (LCall _ _ 3 "big"); lia|].
    eapply rtc_l; [apply (LRun (AutoscalerExamples.env AutoscalerExamples.nodes)); apply run_ok; reflexivity|].
    eapply rtc_l; [apply (LRun (AutoscalerExamples.env AutoscalerExamples.nodes)); apply run_ok; reflexivity|].
    eapply rtc_l; [eapply LTake; reflexivity|]. apply rtc_refl.
  - split; [exact (Hacc "big"%string)|].
    exact (Hfin (AutoscalerExamples.env AutoscalerExamples.nodes) AutoscalerExamples.cfg 2 "big"%string (list_elem_of_here _ _)).
Defined.

Lemma launch_batched_witness :
  ∃ s' bs, launch_new_node (AutoscalerExamples.env AutoscalerExamples.nodes) 3 "big"
      (AutoscalerExamples.state None) = (s', Ok tt) ∧ sumZ bs = 3.
Proof.
  destruct (launch_batched (AutoscalerExamples.env AutoscalerExamples.nodes) 3 "big"
    (AutoscalerExamples.state None)) as (s' & bs & Hl & _ & Hs & _); [lia|reflexivity|reflexivity|].
  exists s', bs. split; [exact Hl|exact Hs].
Defined.

Lemma update_type_limit_witness :
  ∃ ntn, non_terminated_nodes (AutoscalerExamples.do_update (AutoscalerExamples.state None)).1 = Some ntn ∧
    of_type (AutoscalerExamples.env AutoscalerExamples.nodes) "big" (all_node_ids ntn) + 1 <= 3.
Proof.
  destruct (update_type_limit (AutoscalerExamples.env AutoscalerExamples.nodes) String.append String.append
    (λ _, ""%string) true (AutoscalerExamples.state None)
    (AutoscalerExamples.do_update (AutoscalerExamples.state None)).1) as (ntn & Hn & Hlim).
  - reflexivity.
  - reflexivity.
  - reflexivity.
  - reflexivity.
  - cbn. unfold dict_wf, dkeys. cbn. repeat (constructor; [set_solver|]). constructor.
  - reflexivity.
  - constructor.
  - intros t n Hin. by apply not_elem_of_nil in Hin.
  - split_and!; cbn; solve_closed.
  - apply run_ok. vm_compute. reflexivity.
  - exists ntn. split; [exact Hn|]. destruct (Hlim "big"%string) as [Heq|(c & Hc & Hle)].
    + vm_compute in Heq. discriminate Heq.
    + vm_compute in Hc. injection Hc as <-. exact Hle.
Defined.

Lemma update_tolerates_failures_witness :
  ∃ s', st_for [AutoscalerExamples.env (Err RuntimeError); AutoscalerExamples.env (Err KeyError)]
      (λ env, update env String.append String.append (λ _, ""%string) true)
      (AutoscalerExamples.state None) = (s', Ok tt) ∧ 0 <= num_failures s' <= 2.
Proof.
  apply (update_tolerates_failures String.append String.append (λ _, ""%string) true).
  - reflexivity.
  - discriminate.
  - reflexivity.
  - by eexists.
  - repeat constructor; try done; intros n;
      unfold ends; cbn; unfold AutoscalerExamples.tags_of; repeat case_match; done.
  - repeat constructor; intros c [= <-]; by eexists.
Defined.
