(* ===== verification/ServeAutoscaling.v ===== *)
(** * Serve autoscaling policy (serve/_private/autoscaling_policy.py)

    The number of replicas a deployment should have given the ongoing requests
    of its replicas, and the policy object that delays scaling until the same
    decision was made often enough in a row. *)
From S2P Require Import Prelude.
From stdpp Require Import base tactics list.
From Stdlib Require Import QArith Qround Lqa Qabs.

#[local] Open Scope Z_scope.

Record AutoscalingConfig := {
  min_replicas : Z;
  max_replicas : Z;
  target_num_ongoing_requests_per_replica : Q;
  smoothing_factor : Q;
  upscale_delay_s : Q;
  downscale_delay_s : Q;
  look_back_period_s : Q;
}.

(** [CONTROL_LOOP_PERIOD_S] *)
Definition CONTROL_LOOP_PERIOD_S : Q := 1 # 10.

Definition calculate_desired_num_replicas (config : AutoscalingConfig)
    (current_num_ongoing_requests : list Q) : result Z :=
  match current_num_ongoing_requests with
  | [] => Err ValueError
  | _ =>
      let n := inject_Z (Z.of_nat (length current_num_ongoing_requests)) in
      let num_ongoing_requests_per_replica := (sumQ current_num_ongoing_requests / n)%Q in
      if Qeq_bool (target_num_ongoing_requests_per_replica config) 0 then Err ZeroDivisionError
      else
        let error_ratio :=
          (num_ongoing_requests_per_replica / target_num_ongoing_requests_per_replica config)%Q in
        let smoothed_error_ratio := (1 + (error_ratio - 1) * smoothing_factor config)%Q in
        let desired_num_replicas := Qceiling (n * smoothed_error_ratio) in
        let desired_num_replicas := Z.min (max_replicas config) desired_num_replicas in
        Ok (Z.max (min_replicas config) desired_num_replicas)
  end.

Record BasicAutoscalingPolicy := {
  config : AutoscalingConfig;
  scale_up_consecutive_periods : Z;
  scale_down_consecutive_periods : Z;
  decision_counter : Z;
}.

Definition policy_init (c : AutoscalingConfig) : BasicAutoscalingPolicy :=
  {| config := c;
     scale_up_consecutive_periods := py_int (upscale_delay_s c / CONTROL_LOOP_PERIOD_S);
     scale_down_consecutive_periods := py_int (downscale_delay_s c / CONTROL_LOOP_PERIOD_S);
     decision_counter := 0 |}.

Definition set_counter (n : Z) (p : BasicAutoscalingPolicy) : BasicAutoscalingPolicy :=
  {| config := config p;
     scale_up_consecutive_periods := scale_up_consecutive_periods p;
     scale_down_consecutive_periods := scale_down_consecutive_periods p;
     decision_counter := n |}.

Definition get_decision_num_replicas (p : BasicAutoscalingPolicy) (curr_target_num_replicas : Z)
    (current_num_ongoing_requests : list Q) (current_handle_queued_queries : Q) :
    result (BasicAutoscalingPolicy * Z) :=
  match current_num_ongoing_requests with
  | [] =>
      Ok (p, if Qltb 0 current_handle_queued_queries
             then Z.max 1 curr_target_num_replicas
             else curr_target_num_replicas)
  | _ =>
      desired_num_replicas ←
        calculate_desired_num_replicas (config p) current_num_ongoing_requests;
      if curr_target_num_replicas <? desired_num_replicas then
        let counter := (if decision_counter p <? 0 then 0 else decision_counter p) + 1 in
        if scale_up_consecutive_periods p <? counter
        then Ok (set_counter 0 p, desired_num_replicas)
        else Ok (set_counter counter p, curr_target_num_replicas)
      else if desired_num_replicas <? curr_target_num_replicas then
        let counter := (if 0 <? decision_counter p then 0 else decision_counter p) - 1 in
        if counter <? - scale_down_consecutive_periods p
        then Ok (set_counter 0 p, desired_num_replicas)
        else Ok (set_counter counter p, curr_target_num_replicas)
      else Ok (set_counter 0 p, curr_target_num_replicas)
  end.
