(* ===== verification/ServeAutoscalingProofs.v ===== *)
(** * Correctness of the Serve autoscaling policy *)
From S2P Require Import Prelude ServeAutoscaling.
From stdpp Require Import base tactics list.
From Stdlib Require Import QArith Qround Lqa.

#[local] Open Scope Z_scope.
#[local] Arguments calculate_desired_num_replicas : simpl never.

(** ** The desired number *)

Lemma desired_bounds c reqs n :
  min_replicas c <= max_replicas c →
  calculate_desired_num_replicas c reqs = Ok n → min_replicas c <= n <= max_replicas c.
Proof.
  intros Hc. unfold calculate_desired_num_replicas. destruct reqs; [done|].
  case_match; intros; inv_ok; lia.
Qed.

(** The policy's answer, whatever its history: the number it was given, the
    desired number, or one replica for requests queued at no replica. *)
Lemma decision_cases p curr reqs queued p' n :
  get_decision_num_replicas p curr reqs queued = Ok (p', n) →
  config p' = config p ∧
  scale_up_consecutive_periods p' = scale_up_consecutive_periods p ∧
  scale_down_consecutive_periods p' = scale_down_consecutive_periods p ∧
  (n = curr ∨ (reqs = [] ∧ n = 1) ∨ calculate_desired_num_replicas (config p) reqs = Ok n).
Proof.
  unfold get_decision_num_replicas. destruct reqs as [|x reqs].
  - intros; inv_ok. split_and!; try done. case_match; [|by left].
    destruct (Z.max_spec 1 curr) as [[_ ->]|[_ ->]]; auto.
  - intros; inv_ok. repeat case_match; inv_ok; split_and!; auto.
Qed.

(** When requests are reported, the policy answers the current number of
    replicas or a number between [min_replicas] and [max_replicas]. *)
Theorem decision_within_limits p curr reqs queued p' n :
  min_replicas (config p) <= max_replicas (config p) → reqs ≠ [] →
  get_decision_num_replicas p curr reqs queued = Ok (p', n) →
  n = curr ∨ min_replicas (config p) <= n <= max_replicas (config p).
Proof.
  intros Hc Hne Hd. apply decision_cases in Hd as (_ & _ & _ & [|[[? _]|Hd]]); [by left|done|].
  right. by eapply desired_bounds.
Qed.

(** The witness: a loaded replica, no delay. *)
Definition cfg_example (delay : Q) : AutoscalingConfig :=
  {| min_replicas := 1; max_replicas := 3; target_num_ongoing_requests_per_replica := 1;
     smoothing_factor := 1; upscale_delay_s := delay; downscale_delay_s := delay;
     look_back_period_s := 30 |}.

Lemma decision_within_limits_witness : 3 = 1 ∨ 1 <= 3 <= 3.
Proof.
  apply (decision_within_limits (policy_init (cfg_example 0)) 1 [10%Q] 0%Q
           (policy_init (cfg_example 0)) 3); [done|done|vm_compute; reflexivity].
Defined.

(** ** Delays *)

(** One call of the policy: the current target, the ongoing requests and the
    queued queries. *)
Record call := { c_curr : Z; c_reqs : list Q; c_queued : Q }.

(** What a call asks for; calls without any reported replica ask for nothing. *)
Inductive direction := Up | Down | Same.

Definition direction_of (c : AutoscalingConfig) (x : call) : result direction :=
  n ← calculate_desired_num_replicas c (c_reqs x);
  Ok (if c_curr x <? n then Up else if n <? c_curr x then Down else Same).

(** A sequence of calls, with the directions of the informative ones. *)
Fixpoint run_policy (p : BasicAutoscalingPolicy) (xs : list call) :
    result (BasicAutoscalingPolicy * list direction) :=
  match xs with
  | [] => Ok (p, [])
  | x :: xs =>
      '(p', _) ← get_decision_num_replicas p (c_curr x) (c_reqs x) (c_queued x);
      '(p'', ds) ← run_policy p' xs;
      match c_reqs x with
      | [] => Ok (p'', ds)
      | _ => d ← direction_of (config p) x; Ok (p'', d :: ds)
      end
  end.

(** The counter counts the calls in a row for the same direction. *)
Definition counts (hist : list direction) (n : Z) : Prop :=
  ∃ front, hist = front ++ replicate (Z.to_nat n) Up ++ replicate (Z.to_nat (- n)) Down.

Lemma counts_zero hist : counts hist 0.
Proof. exists hist. by rewrite app_nil_r. Qed.

Lemma counts_up hist n :
  counts hist n → counts (hist ++ [Up]) ((if n <? 0 then 0 else n) + 1).
Proof.
  intros [front ->]. destruct (Z.ltb_spec n 0).
  - exists (front ++ replicate (Z.to_nat n) Up ++ replicate (Z.to_nat (- n)) Down).
    done.
  - exists front. rewrite !(Z2Nat.nonpos (- _)) by lia. rewrite Z2Nat.inj_add, replicate_add by lia.
    cbn. by rewrite !app_nil_r, <- app_assoc.
Qed.

Lemma counts_down hist n :
  counts hist n → counts (hist ++ [Down]) ((if 0 <? n then 0 else n) - 1).
Proof.
  intros [front ->]. destruct (Z.ltb_spec 0 n).
  - exists (front ++ replicate (Z.to_nat n) Up ++ replicate (Z.to_nat (- n)) Down).
    done.
  - exists front. rewrite !(Z2Nat.nonpos n), (Z2Nat.nonpos (n - 1)) by lia.
    replace (- (n - 1)) with (- n + 1) by lia. rewrite Z2Nat.inj_add, replicate_add by lia.
    cbn. by rewrite <- app_assoc.
Qed.

Lemma decision_counts p x p' n hist :
  get_decision_num_replicas p (c_curr x) (c_reqs x) (c_queued x) = Ok (p', n) →
  counts hist (decision_counter p) →
  match c_reqs x with
  | [] => counts hist (decision_counter p')
  | _ => ∃ d, direction_of (config p) x = Ok d ∧ counts (hist ++ [d]) (decision_counter p')
  end.
Proof.
  unfold get_decision_num_replicas, direction_of. intros Hd Hc.
  destruct (c_reqs x) as [|q reqs]; [by inv_ok|].
  destruct (calculate_desired_num_replicas _ _) as [m|] eqn:Hm; cbn in *; [|done].
  eexists. split; [done|]. pose proof (counts_up _ _ Hc). pose proof (counts_down _ _ Hc).
  pose proof (counts_zero (hist ++ [Up])). pose proof (counts_zero (hist ++ [Down])).
  pose proof (counts_zero (hist ++ [Same])).
  repeat case_match; inv_ok; done.
Qed.

Lemma run_policy_counts p xs p' ds hist :
  run_policy p xs = Ok (p', ds) → counts hist (decision_counter p) →
  counts (hist ++ ds) (decision_counter p') ∧ config p' = config p ∧
  scale_up_consecutive_periods p' = scale_up_consecutive_periods p ∧
  scale_down_consecutive_periods p' = scale_down_consecutive_periods p.
Proof.
  revert p ds hist. induction xs as [|x xs IH]; cbn; intros p ds hist Hrun Hc.
  - inv_ok. by rewrite app_nil_r.
  - destruct (get_decision_num_replicas _ _ _ _) as [[p1 n1]|] eqn:Hd; cbn in Hrun; [|done].
    destruct (run_policy p1 xs) as [[p2 ds2]|] eqn:Hr; cbn in Hrun; [|done].
    pose proof (decision_cases _ _ _ _ _ _ Hd) as (E1 & E2 & E3 & _).
    pose proof (decision_counts _ _ _ _ hist Hd Hc) as Hs.
    rewrite <- E1, <- E2, <- E3. destruct (c_reqs x).
    + injection Hrun as <- <-. by eapply IH.
    + destruct Hs as (d & Hdir & Hs). rewrite Hdir in Hrun. injection Hrun as <- <-.
      rewrite (cons_middle d hist ds2), app_assoc. by eapply IH.
Qed.

(** Scaling is delayed: whatever calls a policy has answered, it raises the
    number of replicas only if the calls just before asked for more, at least
    [upscale_delay_s / CONTROL_LOOP_PERIOD_S] of them in a row, and lowers it
    only after as many calls in a row that asked for fewer as the downscale
    delay requires. *)
Theorem scaling_is_delayed c xs p hist x p' n :
  run_policy (policy_init c) xs = Ok (p, hist) → c_reqs x ≠ [] →
  get_decision_num_replicas p (c_curr x) (c_reqs x) (c_queued x) = Ok (p', n) →
  (c_curr x < n → ∃ front, hist =
     front ++ replicate (Z.to_nat (py_int (upscale_delay_s c / CONTROL_LOOP_PERIOD_S))) Up) ∧
  (n < c_curr x → ∃ front, hist =
     front ++ replicate (Z.to_nat (py_int (downscale_delay_s c / CONTROL_LOOP_PERIOD_S))) Down).
Proof.
  intros Hrun Hne Hd.
  apply (run_policy_counts _ _ _ _ []) in Hrun as ([front Hf] & Hc & Hu & Hdn);
    [|apply counts_zero]. cbn in Hf, Hc, Hu, Hdn.
  unfold get_decision_num_replicas in Hd. destruct (c_reqs x); [done|].
  destruct (calculate_desired_num_replicas _ _) as [m|]; cbn in Hd; [|done].
  rewrite Hu, Hdn in Hd. clear Hc Hu Hdn Hne.
  split; intros Hlt.
  - destruct (Z.ltb_spec (c_curr x) m); [|repeat case_match; inv_ok; lia].
    destruct (Z.ltb_spec (py_int (upscale_delay_s c / CONTROL_LOOP_PERIOD_S))
      ((if decision_counter p <? 0 then 0 else decision_counter p) + 1)) as [Hp|]; [|exfalso; inv_ok; lia].
    destruct (Z.ltb_spec (decision_counter p) 0).
    { exists hist. rewrite Z2Nat.nonpos by lia. by rewrite app_nil_r. }
    rewrite (Z2Nat.nonpos (- decision_counter p)) in Hf by lia. cbn in Hf.
    rewrite app_nil_r in Hf.
    set (k := Z.to_nat (py_int _)) in *.
    exists (front ++ replicate (Z.to_nat (decision_counter p) - k) Up).
    rewrite <- app_assoc, <- replicate_add.
    replace (Z.to_nat (decision_counter p) - k + k)%nat with (Z.to_nat (decision_counter p)); [done|].
    lia.
  - destruct (Z.ltb_spec (c_curr x) m); [repeat case_match; inv_ok; lia|].
    destruct (Z.ltb_spec m (c_curr x)); [|inv_ok; lia].
    destruct (Z.ltb_spec ((if 0 <? decision_counter p then 0 else decision_counter p) - 1)
      (- py_int (downscale_delay_s c / CONTROL_LOOP_PERIOD_S))) as [Hp|]; [|exfalso; inv_ok; lia].
    destruct (Z.ltb_spec 0 (decision_counter p)).
    { exists hist. rewrite Z2Nat.nonpos by lia. by rewrite app_nil_r. }
    rewrite (Z2Nat.nonpos (decision_counter p)) in Hf by lia. cbn in Hf.
    set (k := Z.to_nat (py_int _)) in *.
    exists (front ++ replicate (Z.to_nat (- decision_counter p) - k) Down).
    rewrite <- app_assoc, <- replicate_add.
    replace (Z.to_nat (- decision_counter p) - k + k)%nat
      with (Z.to_nat (- decision_counter p)); [done|].
    lia.
Qed.

Definition busy : call := {| c_curr := 1; c_reqs := [10%Q]; c_queued := 0 |}.

Lemma scaling_is_delayed_witness :
  ∃ front, [Up; Up] = front ++ replicate (Z.to_nat (py_int ((1 # 5) / CONTROL_LOOP_PERIOD_S))) Up.
Proof.
  apply (scaling_is_delayed (cfg_example (1 # 5)) [busy; busy]
           (set_counter 2 (policy_init (cfg_example (1 # 5)))) [Up; Up] busy
           (policy_init (cfg_example (1 # 5))) 3);
    [vm_compute; reflexivity|done|vm_compute; reflexivity|done].
Defined.
