(* ===== verification/ServeReplica.v ===== *)
(** * Serve replicas (serve/_private/deployment_state.py, serve/_private/version.py)

    Deployment versions, the controller's view of one replica
    ([ActorReplicaWrapper] and [DeploymentReplica]), and the container of a
    deployment's replicas.  A Ray API call is an observation that the method
    takes as an argument (is this object ready, what did [ray.get] return, what
    time is it) and, when it acts on the actor, an [Action] that the method
    returns. *)
From S2P Require Import Prelude.
From stdpp Require Import base tactics list strings sorting.
From Stdlib Require Import QArith.

#[local] Open Scope Z_scope.

Abbreviation ReplicaTag := string.

(** ** Versions *)

Record DeploymentVersion := {
  unversioned : bool;
  code_version : string;
  user_config : option string;
  user_config_hash : Z;
  version_hash : Z;
}.

Section version.
(** [zlib.crc32] and [json.dumps(user_config, sort_keys=True)] (the identity
    on bytes). *)
Context (crc32 : string → Z) (serialize : option string → string).

(** [DeploymentVersion(code_version, user_config)]; [letters] is what
    [get_random_letters] returns when there is no code version. *)
Definition mk_version (letters : string) (code : option string) (config : option string) :
    DeploymentVersion :=
  let code_version := default letters code in
  let serialized_user_config := serialize config in
  {| unversioned := match code with None => true | Some _ => false end;
     code_version := code_version;
     user_config := config;
     user_config_hash := crc32 serialized_user_config;
     version_hash := crc32 (serialized_user_config +:+ code_version) |}.
End version.

(** [__eq__] compares the hashes. *)
Definition version_eqb (v w : DeploymentVersion) : bool := version_hash v =? version_hash w.

(** [==] on optional versions: [None] equals only [None]. *)
Definition opt_version_eqb (v w : option DeploymentVersion) : bool :=
  match v, w with
  | Some v, Some w => version_eqb v w
  | None, None => true
  | _, _ => false
  end.

(** ** Enumerations *)

Inductive ReplicaState := STARTING | UPDATING | RECOVERING | RUNNING | STOPPING.

#[global] Instance ReplicaState_eq_dec : EqDecision ReplicaState.
Proof. solve_decision. Defined.

Definition ALL_REPLICA_STATES : list ReplicaState :=
  [STARTING; UPDATING; RECOVERING; RUNNING; STOPPING].

Inductive ReplicaStartupStatus :=
  | PENDING_ALLOCATION | PENDING_INITIALIZATION | SUCCEEDED | FAILED.

Inductive ReplicaHealthCheckResponse :=
  | HC_NONE | HC_SUCCEEDED | HC_APP_FAILURE | HC_ACTOR_CRASHED.

#[global] Instance ReplicaHealthCheckResponse_eq_dec : EqDecision ReplicaHealthCheckResponse.
Proof. solve_decision. Defined.

Definition REPLICA_HEALTH_CHECK_UNHEALTHY_THRESHOLD : Z := 3.

(** What a method asks Ray to do with the replica's actor. *)
Inductive Action :=
  | StartActor (tag : ReplicaTag)
  | Reconfigure (tag : ReplicaTag) (config : option string)
  | PrepareForShutdown (tag : ReplicaTag)
  | KillStopped (tag : ReplicaTag)
  | ForceKill (tag : ReplicaTag)
  | StartHealthCheck (tag : ReplicaTag).

(** The part of a deployment's configuration a replica reads. *)
Record DeploymentConfig := {
  num_replicas : Z;
  max_concurrent_queries : Z;
  cfg_user_config : option string;
  graceful_shutdown_timeout_s : Q;
  health_check_period_s : Q;
  health_check_timeout_s : Q;
  is_java : bool;
  cfg_other : string;
}.

(** ** The actor behind a replica *)

Record ActorReplicaWrapper := {
  a_max_concurrent_queries : option Z;
  a_graceful_shutdown_timeout_s : Q;
  a_healthy : bool;
  a_health_check_period_s : Q;
  a_health_check_timeout_s : Q;
  a_health_check_ref : bool;          (* an outstanding check, not [None] *)
  a_graceful_shutdown_ref : bool;     (* [prepare_for_shutdown] was called, not [None] *)
  a_last_health_check_time : Q;
  a_consecutive_health_check_failures : Z;
  a_node_id : option string;
  a_is_cross_language : bool;
}.

Definition actor_init : ActorReplicaWrapper :=
  {| a_max_concurrent_queries := None; a_graceful_shutdown_timeout_s := 0;
     a_healthy := true; a_health_check_period_s := 0; a_health_check_timeout_s := 0;
     a_health_check_ref := false; a_graceful_shutdown_ref := false;
     a_last_health_check_time := 0;
     a_consecutive_health_check_failures := 0; a_node_id := None;
     a_is_cross_language := false |}.

(** The fields [start] sets; the creation of the Ray actor is the action. *)
Definition actor_start (c : DeploymentConfig) (a : ActorReplicaWrapper) : ActorReplicaWrapper :=
  {| a_max_concurrent_queries := Some (max_concurrent_queries c);
     a_graceful_shutdown_timeout_s := graceful_shutdown_timeout_s c;
     a_healthy := a_healthy a;
     a_health_check_period_s := health_check_period_s c;
     a_health_check_timeout_s := health_check_timeout_s c;
     a_health_check_ref := a_health_check_ref a;
     a_graceful_shutdown_ref := a_graceful_shutdown_ref a;
     a_last_health_check_time := a_last_health_check_time a;
     a_consecutive_health_check_failures := a_consecutive_health_check_failures a;
     a_node_id := a_node_id a;
     a_is_cross_language := if is_java c then true else a_is_cross_language a |}.

(** What is observed of a starting actor: whether [is_allocated] and the
    initialization returned, and what getting their results gives ([None]: the
    get raises). *)
Record ready_obs := {
  ro_allocated : bool;
  ro_ready : bool;
  ro_result : option (DeploymentConfig * DeploymentVersion);
  ro_node : option string;
}.

Definition actor_reconfigured (c : DeploymentConfig) (node : option string)
    (a : ActorReplicaWrapper) : ActorReplicaWrapper :=
  {| a_max_concurrent_queries := Some (max_concurrent_queries c);
     a_graceful_shutdown_timeout_s := graceful_shutdown_timeout_s c;
     a_healthy := a_healthy a;
     a_health_check_period_s := health_check_period_s c;
     a_health_check_timeout_s := health_check_timeout_s c;
     a_health_check_ref := a_health_check_ref a;
     a_graceful_shutdown_ref := a_graceful_shutdown_ref a;
     a_last_health_check_time := a_last_health_check_time a;
     a_consecutive_health_check_failures := a_consecutive_health_check_failures a;
     a_node_id := match node with Some n => Some n | None => a_node_id a end;
     a_is_cross_language := a_is_cross_language a |}.

Definition check_ready (o : ready_obs) (a : ActorReplicaWrapper) :
    ActorReplicaWrapper * (ReplicaStartupStatus * option DeploymentVersion) :=
  if negb (ro_allocated o) then (a, (PENDING_ALLOCATION, None))
  else if negb (ro_ready o) then (a, (PENDING_INITIALIZATION, None))
  else if a_is_cross_language a then (a, (SUCCEEDED, None))
  else
    match ro_result o with
    | None => (a, (FAILED, None))
    | Some (c, version) =>
        (actor_reconfigured c (ro_node o) a,
         match ro_node o with
         | Some _ => (SUCCEEDED, Some version)
         | None => (FAILED, None)
         end)
    end.

(** ** Health checks *)

(** The outcome of [ray.get] on the health check's object reference. *)
Inductive get_outcome := GetOk | GetActorError | GetRayError.

(** What one call of [check_health] observes: whether the outstanding check
    returned and with what outcome, the clock readings, and the random factor
    of the period. *)
Record health_obs := {
  ho_ready : bool;
  ho_get : get_outcome;
  ho_now_active : Q;
  ho_now_should : Q;
  ho_random : Q;
  ho_now_start : Q;
}.

Definition set_health_check_ref (b : bool) (a : ActorReplicaWrapper) : ActorReplicaWrapper :=
  {| a_max_concurrent_queries := a_max_concurrent_queries a;
     a_graceful_shutdown_timeout_s := a_graceful_shutdown_timeout_s a;
     a_healthy := a_healthy a;
     a_health_check_period_s := a_health_check_period_s a;
     a_health_check_timeout_s := a_health_check_timeout_s a;
     a_health_check_ref := b;
     a_graceful_shutdown_ref := a_graceful_shutdown_ref a;
     a_last_health_check_time := a_last_health_check_time a;
     a_consecutive_health_check_failures := a_consecutive_health_check_failures a;
     a_node_id := a_node_id a; a_is_cross_language := a_is_cross_language a |}.

Definition set_health (healthy : bool) (failures : Z) (a : ActorReplicaWrapper) :
    ActorReplicaWrapper :=
  {| a_max_concurrent_queries := a_max_concurrent_queries a;
     a_graceful_shutdown_timeout_s := a_graceful_shutdown_timeout_s a;
     a_healthy := healthy;
     a_health_check_period_s := a_health_check_period_s a;
     a_health_check_timeout_s := a_health_check_timeout_s a;
     a_health_check_ref := a_health_check_ref a;
     a_graceful_shutdown_ref := a_graceful_shutdown_ref a;
     a_last_health_check_time := a_last_health_check_time a;
     a_consecutive_health_check_failures := failures;
     a_node_id := a_node_id a; a_is_cross_language := a_is_cross_language a |}.

Definition set_last_health_check_time (t : Q) (a : ActorReplicaWrapper) : ActorReplicaWrapper :=
  {| a_max_concurrent_queries := a_max_concurrent_queries a;
     a_graceful_shutdown_timeout_s := a_graceful_shutdown_timeout_s a;
     a_healthy := a_healthy a;
     a_health_check_period_s := a_health_check_period_s a;
     a_health_check_timeout_s := a_health_check_timeout_s a;
     a_health_check_ref := a_health_check_ref a;
     a_graceful_shutdown_ref := a_graceful_shutdown_ref a;
     a_last_health_check_time := t;
     a_consecutive_health_check_failures := a_consecutive_health_check_failures a;
     a_node_id := a_node_id a; a_is_cross_language := a_is_cross_language a |}.

Definition _check_active_health_check (o : health_obs) (a : ActorReplicaWrapper) :
    ActorReplicaWrapper * ReplicaHealthCheckResponse :=
  let response :=
    if negb (a_health_check_ref a) then HC_NONE
    else if ho_ready o then
      match ho_get o with
      | GetOk => HC_SUCCEEDED
      | GetActorError => HC_ACTOR_CRASHED
      | GetRayError => HC_APP_FAILURE
      end
    else if Qltb (a_health_check_timeout_s a) (ho_now_active o - a_last_health_check_time a)
    then HC_APP_FAILURE
    else HC_NONE in
  (match response with HC_NONE => a | _ => set_health_check_ref false a end, response).

Definition _should_start_new_health_check (o : health_obs) (a : ActorReplicaWrapper) : bool :=
  if a_health_check_ref a then false
  else
    let time_since_last := (ho_now_should o - a_last_health_check_time a)%Q in
    let randomized_period := (a_health_check_period_s a * ho_random o)%Q in
    Qltb randomized_period time_since_last.

Definition actor_check_health (tag : ReplicaTag) (o : health_obs) (a : ActorReplicaWrapper) :
    ActorReplicaWrapper * bool * list Action :=
  let '(a, response) := _check_active_health_check o a in
  let a :=
    match response with
    | HC_NONE => a
    | HC_SUCCEEDED => set_health true 0 a
    | HC_APP_FAILURE =>
        let failures := a_consecutive_health_check_failures a + 1 in
        set_health (if REPLICA_HEALTH_CHECK_UNHEALTHY_THRESHOLD <=? failures then false
                    else a_healthy a) failures a
    | HC_ACTOR_CRASHED => set_health false (a_consecutive_health_check_failures a) a
    end in
  if _should_start_new_health_check o a
  then (set_health_check_ref true (set_last_health_check_time (ho_now_start o) a),
        a_healthy a, [StartHealthCheck tag])
  else (a, a_healthy a, []).

(** ** Replicas *)

Record DeploymentReplica := {
  r_tag : ReplicaTag;
  r_deployment_name : string;
  r_version : option DeploymentVersion;
  r_start_time : option Q;
  r_shutdown_deadline : option Q;
  r_actor : ActorReplicaWrapper;
}.

Definition replica_init (tag : ReplicaTag) (deployment : string)
    (version : option DeploymentVersion) : DeploymentReplica :=
  {| r_tag := tag; r_deployment_name := deployment; r_version := version; r_start_time := None; r_shutdown_deadline := None;
     r_actor := actor_init |}.

Definition replica_start (c : DeploymentConfig) (version : option DeploymentVersion) (now : Q)
    (r : DeploymentReplica) : DeploymentReplica * list Action :=
  ({| r_tag := r_tag r; r_deployment_name := r_deployment_name r; r_version := version; r_start_time := Some now;
      r_shutdown_deadline := r_shutdown_deadline r; r_actor := actor_start c (r_actor r) |},
   [StartActor (r_tag r)]).

Section replica.
Context (crc32 : string → Z) (serialize : option string → string).

Definition replica_update_user_config (config : option string) (v : DeploymentVersion)
    (r : DeploymentReplica) : DeploymentReplica * list Action :=
  ({| r_tag := r_tag r; r_deployment_name := r_deployment_name r;
      r_version := Some (mk_version crc32 serialize "" (Some (code_version v)) config);
      r_start_time := r_start_time r; r_shutdown_deadline := r_shutdown_deadline r;
      r_actor := r_actor r |},
   [Reconfigure (r_tag r) config]).
End replica.

(** The actor's handle is [None] when the actor does not exist, and a method
    of it is called. *)
Definition replica_recover (actor_exists : bool) (now : Q) (r : DeploymentReplica) :
    result DeploymentReplica :=
  if negb actor_exists then Err AttributeError
  else Ok {| r_tag := r_tag r; r_deployment_name := r_deployment_name r;
             r_version := r_version r; r_start_time := Some now;
             r_shutdown_deadline := r_shutdown_deadline r; r_actor := r_actor r |}.

Definition check_started (o : ready_obs) (r : DeploymentReplica) :
    DeploymentReplica * ReplicaStartupStatus :=
  let '(a, (status, version)) := check_ready o (r_actor r) in
  ({| r_tag := r_tag r; r_deployment_name := r_deployment_name r;
      r_version :=
        match status, version with SUCCEEDED, Some v => Some v | _, _ => r_version r end;
      r_start_time := r_start_time r; r_shutdown_deadline := r_shutdown_deadline r;
      r_actor := a |}, status).

(** [self._graceful_shutdown_ref = handle.prepare_for_shutdown.remote()] *)
Definition set_graceful_shutdown_ref (a : ActorReplicaWrapper) : ActorReplicaWrapper :=
  {| a_max_concurrent_queries := a_max_concurrent_queries a;
     a_graceful_shutdown_timeout_s := a_graceful_shutdown_timeout_s a;
     a_healthy := a_healthy a;
     a_health_check_period_s := a_health_check_period_s a;
     a_health_check_timeout_s := a_health_check_timeout_s a;
     a_health_check_ref := a_health_check_ref a;
     a_graceful_shutdown_ref := true;
     a_last_health_check_time := a_last_health_check_time a;
     a_consecutive_health_check_failures := a_consecutive_health_check_failures a;
     a_node_id := a_node_id a; a_is_cross_language := a_is_cross_language a |}.

(** [actor_exists]: [ray.get_actor] finds the actor; when it does not it raises the
    [ValueError] it documents, and the actor is not asked to shut down. *)
Definition replica_stop (graceful actor_exists : bool) (now : Q) (r : DeploymentReplica) :
    DeploymentReplica * list Action :=
  let timeout_s := a_graceful_shutdown_timeout_s (r_actor r) in
  let timeout_s := if graceful then timeout_s else 0%Q in
  ({| r_tag := r_tag r; r_deployment_name := r_deployment_name r; r_version := r_version r; r_start_time := r_start_time r;
      r_shutdown_deadline := Some (now + timeout_s)%Q;
      r_actor := if actor_exists then set_graceful_shutdown_ref (r_actor r) else r_actor r |},
   if actor_exists then [PrepareForShutdown (r_tag r)] else []).

(** [so_lookup_error]: what [ray.get_actor] raises, other than the [ValueError] of an
    actor that does not exist; [so_exists]: the actor is found; [so_ready]: its graceful
    shutdown returned; [so_now]: the clock. *)
Record stop_obs := {
  so_lookup_error : option exn;
  so_exists : bool;
  so_ready : bool;
  so_now : Q;
}.

(** [ActorReplicaWrapper.check_stopped] and [DeploymentReplica.check_stopped].  A replica
    whose actor was not found when it was stopped has no reference to wait for: [ray.wait]
    of [[None]] raises [TypeError] if the actor is found now. *)
Definition check_stopped (o : stop_obs) (r : DeploymentReplica) : result (bool * list Action) :=
  match so_lookup_error o with
  | Some e => Err e
  | None =>
      if negb (so_exists o) then Ok (true, [])
      else if negb (a_graceful_shutdown_ref (r_actor r)) then Err TypeError
      else if so_ready o then Ok (true, [KillStopped (r_tag r)])
      else
        deadline ← of_option AttributeError (r_shutdown_deadline r);
        Ok (false, if Qltb deadline (so_now o) then [ForceKill (r_tag r)] else [])
  end.

Definition check_health (o : health_obs) (r : DeploymentReplica) :
    DeploymentReplica * bool * list Action :=
  let '(a, healthy, acts) := actor_check_health (r_tag r) o (r_actor r) in
  ({| r_tag := r_tag r; r_deployment_name := r_deployment_name r; r_version := r_version r; r_start_time := r_start_time r;
      r_shutdown_deadline := r_shutdown_deadline r; r_actor := a |}, healthy, acts).

(** An [ActorHandle] object.  The class defines no [__eq__], so that two handles are equal
    when they are the same object, whatever actor they stand for: the controller has one
    object per replica, and whoever unpickles a handle makes a new one, the [n]-th of its
    process. *)
Inductive ActorHandle :=
  | ControllerHandle (tag : ReplicaTag)
  | UnpickledHandle (n : nat).

#[global] Instance ActorHandle_eq_dec : EqDecision ActorHandle.
Proof. solve_decision. Defined.

(** A frozen dataclass: [==] and [hash] go by all fields, the handle too. *)
Record RunningReplicaInfo := {
  ri_deployment_name : string;
  ri_tag : ReplicaTag;
  ri_actor_handle : ActorHandle;
  ri_max_concurrent_queries : option Z;
  ri_is_cross_language : bool;
}.

#[global] Instance RunningReplicaInfo_eq_dec : EqDecision RunningReplicaInfo.
Proof. solve_decision. Defined.

Definition get_running_replica_info (r : DeploymentReplica) : RunningReplicaInfo :=
  {| ri_deployment_name := r_deployment_name r; ri_tag := r_tag r;
     ri_actor_handle := ControllerHandle (r_tag r);
     ri_max_concurrent_queries := a_max_concurrent_queries (r_actor r);
     ri_is_cross_language := a_is_cross_language (r_actor r) |}.

Definition with_handle (h : ActorHandle) (r : RunningReplicaInfo) : RunningReplicaInfo :=
  {| ri_deployment_name := ri_deployment_name r; ri_tag := ri_tag r; ri_actor_handle := h;
     ri_max_concurrent_queries := ri_max_concurrent_queries r;
     ri_is_cross_language := ri_is_cross_language r |}.

(** A list of infos as another process unpickles it, which has made [base] handles
    before. *)
Definition unpickle_infos (base : nat) (rs : list RunningReplicaInfo) : list RunningReplicaInfo :=
  imap (λ i r, with_handle (UnpickledHandle (base + i)) r) rs.

(** Infos of the same replica with the same settings, through whatever handle. *)
Definition same_replica (r r' : RunningReplicaInfo) : Prop :=
  with_handle (ri_actor_handle r') r = r'.

(** ** Which replicas to stop first *)

(** Replicas without a node first, then node by node, the nodes with the fewest
    replicas first. *)
Definition rank_replicas_for_stopping (all_available_replicas : list DeploymentReplica) :
    list DeploymentReplica :=
  let node_to_replicas :=
    fold_left (λ (d : dict (option string) (list DeploymentReplica)) r,
      let node := a_node_id (r_actor r) in
      dset node (dget_def node [] d ++ [r]) d) all_available_replicas [] in
  dget_def None [] node_to_replicas
  ++ concat (py_sorted Nat.compare length (dvalues (ddel None node_to_replicas))).

(** ** The container *)

Record ReplicaStateContainer := {
  rc_starting : list DeploymentReplica;
  rc_updating : list DeploymentReplica;
  rc_recovering : list DeploymentReplica;
  rc_running : list DeploymentReplica;
  rc_stopping : list DeploymentReplica;
}.

Definition container_init : ReplicaStateContainer :=
  {| rc_starting := []; rc_updating := []; rc_recovering := []; rc_running := [];
     rc_stopping := [] |}.

(** [self._replicas[state]] and [self._replicas[state] = l] *)
Definition rc_get (c : ReplicaStateContainer) (s : ReplicaState) : list DeploymentReplica :=
  match s with
  | STARTING => rc_starting c | UPDATING => rc_updating c | RECOVERING => rc_recovering c
  | RUNNING => rc_running c | STOPPING => rc_stopping c
  end.

Definition rc_set (s : ReplicaState) (l : list DeploymentReplica) (c : ReplicaStateContainer) :
    ReplicaStateContainer :=
  {| rc_starting := match s with STARTING => l | _ => rc_starting c end;
     rc_updating := match s with UPDATING => l | _ => rc_updating c end;
     rc_recovering := match s with RECOVERING => l | _ => rc_recovering c end;
     rc_running := match s with RUNNING => l | _ => rc_running c end;
     rc_stopping := match s with STOPPING => l | _ => rc_stopping c end |}.

Definition rc_add (s : ReplicaState) (r : DeploymentReplica) (c : ReplicaStateContainer) :
    ReplicaStateContainer :=
  rc_set s (rc_get c s ++ [r]) c.

Definition rc_get_all (c : ReplicaStateContainer) (states : list ReplicaState) :
    list DeploymentReplica :=
  concat (rc_get c <$> states).

(** [exclude_version is not None and replica.version == exclude_version] *)
Definition excluded (exclude_version : option DeploymentVersion) (r : DeploymentReplica) : bool :=
  match exclude_version with
  | None => false
  | Some _ => opt_version_eqb (r_version r) exclude_version
  end.

(** The inner loop of [pop] for one state: [n] replicas were popped before. *)
Fixpoint pop_loop (exclude_version : option DeploymentVersion) (max_replicas : option Z) (n : Z)
    (rs : list DeploymentReplica) : list DeploymentReplica * list DeploymentReplica :=
  match rs with
  | [] => ([], [])
  | r :: rs =>
      if bool_decide (max_replicas = Some n) || excluded exclude_version r then
        let '(popped, remaining) := pop_loop exclude_version max_replicas n rs in
        (popped, r :: remaining)
      else
        let '(popped, remaining) := pop_loop exclude_version max_replicas (n + 1) rs in
        (r :: popped, remaining)
  end.

(** [max_replicas = None] is [math.inf]. *)
Fixpoint rc_pop (exclude_version : option DeploymentVersion) (max_replicas : option Z)
    (ranking_function : list DeploymentReplica → list DeploymentReplica) (n : Z)
    (states : list ReplicaState) (c : ReplicaStateContainer) :
    list DeploymentReplica * ReplicaStateContainer :=
  match states with
  | [] => ([], c)
  | state :: states =>
      let '(popped, remaining) :=
        pop_loop exclude_version max_replicas n (ranking_function (rc_get c state)) in
      let '(replicas, c) :=
        rc_pop exclude_version max_replicas ranking_function
          (n + Z.of_nat (length popped)) states (rc_set state remaining c) in
      (popped ++ replicas, c)
  end.

Definition rc_count (exclude_version version : option DeploymentVersion)
    (states : list ReplicaState) (c : ReplicaStateContainer) : result Z :=
  match exclude_version, version with
  | None, None => Ok (Z.of_nat (length (rc_get_all c states)))
  | None, Some v =>
      Ok (Z.of_nat (length (filter (λ r, opt_version_eqb (r_version r) (Some v) = true)
                              (rc_get_all c states))))
  | Some v, None =>
      Ok (Z.of_nat (length (filter (λ r, opt_version_eqb (r_version r) (Some v) = false)
                              (rc_get_all c states))))
  | Some _, Some _ => Err ValueError
  end.
