(* ===== verification/ServeReplicaProofs.v ===== *)
(** * Correctness of replicas, health checks and the replica container *)
From S2P Require Import Prelude ServeReplica.
From stdpp Require Import base tactics list strings sorting.
From Stdlib Require Import QArith.

#[local] Open Scope Z_scope.
#[local] Arguments actor_check_health : simpl never.
#[local] Arguments _check_active_health_check : simpl never.

(** ** Ranking permutes *)

Lemma dget_def_nil_sum {K A} `{EqDecision K} (d : dict K (list A)) k l :
  concat (dvalues (dset k (dget_def k [] d ++ l) d)) ≡ₚ concat (dvalues d) ++ l.
Proof.
  unfold dvalues, dget_def. induction d as [|[k' v] d IH]; cbn.
  - by rewrite app_nil_r.
  - case_decide; cbn; [|by rewrite IH, app_assoc].
    rewrite <- !app_assoc. f_equiv. apply Permutation_app_comm.
Qed.

Lemma concat_ddel {K A} `{EqDecision K} (d : dict K (list A)) k :
  dget_def k [] d ++ concat (dvalues (ddel k d)) ≡ₚ concat (dvalues d).
Proof.
  unfold dvalues, dget_def. induction d as [|[k' v] d IH]; cbn; [done|].
  case_decide; cbn; [done|]. rewrite <- IH. cbn. rewrite !app_assoc. f_equiv.
  apply Permutation_app_comm.
Qed.

Lemma concat_perm {A} (l1 l2 : list (list A)) : l1 ≡ₚ l2 → concat l1 ≡ₚ concat l2.
Proof.
  induction 1; cbn; [done|by f_equiv| |by etrans].
  rewrite !app_assoc. f_equiv. apply Permutation_app_comm.
Qed.

Lemma rank_perm rs : rank_replicas_for_stopping rs ≡ₚ rs.
Proof.
  unfold rank_replicas_for_stopping.
  match goal with |- context [dget_def None [] ?d] => set (dd := d) end.
  rewrite (concat_perm _ _ (py_sorted_perm _ _ _)), concat_ddel. unfold dd. clear dd.
  assert (∀ d, concat (dvalues (fold_left (λ (d : dict (option string) (list DeploymentReplica)) r,
      dset (a_node_id (r_actor r)) (dget_def (a_node_id (r_actor r)) [] d ++ [r]) d) rs d))
    ≡ₚ concat (dvalues d) ++ rs) as Hgen; [|by rewrite Hgen].
  induction rs as [|r rs IH]; cbn; intros d; [by rewrite app_nil_r|].
  rewrite IH, dget_def_nil_sum, <- app_assoc. done.
Qed.

(** ** Popping *)

Lemma rc_get_set c st l st' :
  rc_get (rc_set st l c) st' = if decide (st' = st) then l else rc_get c st'.
Proof. destruct st, st'; reflexivity. Qed.

Lemma pop_loop_perm ev mx n rs popped remaining :
  pop_loop ev mx n rs = (popped, remaining) → popped ++ remaining ≡ₚ rs.
Proof.
  revert n popped remaining. induction rs as [|r rs IH]; cbn; intros n p q H; simplify_eq; [done|].
  destruct (_ || _); destruct (pop_loop ev mx _ rs) as [p' q'] eqn:Hp; simplify_eq;
    apply IH in Hp; rewrite <- Hp; cbn; [by rewrite Permutation_middle|done].
Qed.

(** Popped replicas are not of the excluded version. *)
Lemma pop_loop_excluded ev mx n rs popped remaining :
  pop_loop ev mx n rs = (popped, remaining) →
  Forall (λ r, excluded ev r = false) popped.
Proof.
  revert n popped remaining. induction rs as [|r rs IH]; cbn; intros n p q H; simplify_eq; [done|].
  destruct (bool_decide _); cbn in H.
  - destruct (pop_loop ev mx _ rs) as [p' q'] eqn:Hp; simplify_eq. by eapply IH.
  - destruct (excluded ev r) eqn:He; destruct (pop_loop ev mx _ rs) as [p' q'] eqn:Hp; simplify_eq;
      [by eapply IH|constructor; [done|by eapply IH]].
Qed.

(** At most [k] replicas are popped, and exactly as many as there are when none
    is excluded. *)
Lemma pop_loop_length ev k n rs popped remaining :
  n <= k → pop_loop ev (Some k) n rs = (popped, remaining) →
  n + Z.of_nat (length popped) <= k ∧
  (ev = None → n + Z.of_nat (length popped) = Z.min k (n + Z.of_nat (length rs))).
Proof.
  revert n popped remaining. induction rs as [|r rs IH]; cbn; intros n p q Hn H; simplify_eq;
    [cbn; lia|].
  case_bool_decide as Hk; cbn in H.
  - injection Hk as ->. destruct (pop_loop ev (Some n) n rs) as [p' q'] eqn:Hp. simplify_eq.
    destruct (IH n p q' ltac:(lia) Hp) as [? Hx]. split; [done|]. intros E. specialize (Hx E). lia.
  - assert (n < k) by (destruct (decide (n = k)); [congruence|lia]).
    destruct (excluded ev r) eqn:He.
    + destruct (pop_loop ev (Some k) n rs) as [p' q'] eqn:Hp. simplify_eq.
      destruct (IH n p q' ltac:(lia) Hp) as [? Hx]. split; [done|]. by intros ->.
    + destruct (pop_loop ev (Some k) (n + 1) rs) as [p' q'] eqn:Hp. simplify_eq. cbn.
      destruct (IH (n + 1) p' q ltac:(lia) Hp) as [? Hx]. split; [lia|].
      intros E. specialize (Hx E). lia.
Qed.

Section pop.
Context (ev : option DeploymentVersion) (mx : option Z)
        (ranking : list DeploymentReplica → list DeploymentReplica)
        (Hrank : ∀ l, ranking l ≡ₚ l).

(** States that are not popped keep their replicas. *)
Lemma rc_pop_other n states c popped c' st :
  rc_pop ev mx ranking n states c = (popped, c') → st ∉ states → rc_get c' st = rc_get c st.
Proof.
  revert n c popped c'. induction states as [|s states IH]; cbn; intros n c p c' H Hst;
    simplify_eq; [done|].
  destruct (pop_loop _ _ _ _) as [p1 q1]. destruct (rc_pop _ _ _ _ _ _) as [p2 c2] eqn:Hp.
  simplify_eq. apply not_elem_of_cons in Hst as [Hne Hst].
  rewrite (IH _ _ _ _ Hp Hst), rc_get_set. by rewrite decide_False.
Qed.

(** No state gains a replica. *)
Lemma rc_pop_sub n states c popped c' st r :
  rc_pop ev mx ranking n states c = (popped, c') → r ∈ rc_get c' st → r ∈ rc_get c st.
Proof.
  revert n c popped c'. induction states as [|s states IH]; cbn; intros n c p c' H Hr;
    simplify_eq; [done|].
  destruct (pop_loop _ _ _ _) as [p1 q1] eqn:Hp1. destruct (rc_pop _ _ _ _ _ _) as [p2 c2] eqn:Hp.
  simplify_eq. specialize (IH _ _ _ _ Hp Hr). rewrite rc_get_set in IH.
  case_decide; [subst s|done]. apply pop_loop_perm in Hp1. rewrite Hrank in Hp1.
  rewrite <- Hp1. apply elem_of_app. by right.
Qed.

(** Replicas of the excluded version stay where they are. *)
Lemma rc_pop_keeps_excluded n states c popped c' st :
  rc_pop ev mx ranking n states c = (popped, c') →
  filter (λ r, excluded ev r = true) (rc_get c' st) ≡ₚ
  filter (λ r, excluded ev r = true) (rc_get c st).
Proof.
  revert n c popped c'. induction states as [|s states IH]; cbn; intros n c p c' H;
    simplify_eq; [done|].
  destruct (pop_loop _ _ _ _) as [p1 q1] eqn:Hp1. destruct (rc_pop _ _ _ _ _ _) as [p2 c2] eqn:Hp.
  simplify_eq. rewrite (IH _ _ _ _ Hp), rc_get_set. case_decide; [subst s|done].
  pose proof (pop_loop_excluded _ _ _ _ _ _ Hp1) as Hex. apply pop_loop_perm in Hp1.
  rewrite Hrank in Hp1. rewrite <- Hp1, filter_app.
  assert (filter (λ r, excluded ev r = true) p1 = []) as ->; [|done].
  apply filter_none. eapply Forall_impl; [exact Hex|]. cbn. congruence.
Qed.

(** Popping moves replicas out of the states, and loses none. *)
Lemma rc_pop_perm n states c popped c' :
  NoDup states → rc_pop ev mx ranking n states c = (popped, c') →
  popped ++ rc_get_all c' states ≡ₚ rc_get_all c states.
Proof.
  revert n c popped c'. induction states as [|s states IH]; cbn; intros n c p c' Hnd H;
    simplify_eq; [done|].
  apply NoDup_cons in Hnd as [Hs Hnd].
  destruct (pop_loop _ _ _ _) as [p1 q1] eqn:Hp1.
  destruct (rc_pop _ _ _ _ _ _) as [p2 c2] eqn:Hp2. simplify_eq.
  apply pop_loop_perm in Hp1. rewrite Hrank in Hp1.
  pose proof (rc_pop_other _ _ _ _ _ s Hp2 Hs) as Hq. rewrite rc_get_set, decide_True in Hq by done.
  apply IH in Hp2; [|done]. unfold rc_get_all in *. cbn. rewrite Hq, <- Hp1.
  assert (rc_get (rc_set s q1 c) <$> states = rc_get c <$> states) as Heq.
  { apply list_fmap_ext. intros i x Hx. rewrite rc_get_set. apply list_elem_of_lookup_2 in Hx.
    case_decide; [by subst|done]. }
  rewrite Heq in Hp2. rewrite <- Hp2. rewrite <- !app_assoc. f_equiv.
  rewrite !app_assoc. f_equiv. apply Permutation_app_comm.
Qed.

Lemma rc_pop_excluded n states c popped c' :
  rc_pop ev mx ranking n states c = (popped, c') → Forall (λ r, excluded ev r = false) popped.
Proof.
  revert n c popped c'. induction states as [|s states IH]; cbn; intros n c p c' H;
    simplify_eq; [done|].
  destruct (pop_loop _ _ _ _) as [p1 q1] eqn:Hp1.
  destruct (rc_pop _ _ _ _ _ _) as [p2 c2] eqn:Hp2. simplify_eq.
  apply Forall_app. split; [by eapply pop_loop_excluded|by eapply IH].
Qed.
End pop.

Lemma rc_pop_length ev k ranking n states c popped c' :
  (∀ l, ranking l ≡ₚ l) → NoDup states → n <= k →
  rc_pop ev (Some k) ranking n states c = (popped, c') →
  n + Z.of_nat (length popped) <= k ∧
  (ev = None →
   n + Z.of_nat (length popped) = Z.min k (n + Z.of_nat (length (rc_get_all c states)))).
Proof.
  intros Hrank Hnd. revert n c popped c'.
  induction states as [|s states IH]; cbn; intros n c p c' Hn H; simplify_eq; [cbn; lia|].
  apply NoDup_cons in Hnd as [Hs Hnd].
  destruct (pop_loop _ _ _ _) as [p1 q1] eqn:Hp1.
  destruct (rc_pop _ _ _ _ _ _) as [p2 c2] eqn:Hp2. simplify_eq.
  destruct (pop_loop_length _ _ _ _ _ _ Hn Hp1) as [H1 H1'].
  destruct (IH Hnd _ _ _ _ H1 Hp2) as [H2 H2'].
  rewrite length_app. split; [lia|]. intros E. specialize (H1' E). specialize (H2' E).
  rewrite (Permutation_length (Hrank _)) in H1'. unfold rc_get_all in *. cbn. rewrite length_app.
  assert (rc_get (rc_set s q1 c) <$> states = rc_get c <$> states) as Heq.
  { apply list_fmap_ext. intros i x Hx. rewrite rc_get_set. apply list_elem_of_lookup_2 in Hx.
    case_decide; [by subst|done]. }
  rewrite Heq in H2'. lia.
Qed.

(** ** Everything in the container *)

Definition all_replicas (c : ReplicaStateContainer) : list DeploymentReplica :=
  rc_get_all c ALL_REPLICA_STATES.

Lemma all_replicas_add st r c : all_replicas (rc_add st r c) ≡ₚ r :: all_replicas c.
Proof.
  unfold all_replicas, rc_get_all, rc_add. destruct st; cbn; rewrite ?app_nil_r; solve_Permutation.
Qed.

(** The states outside a list of states, for a pop that concerns only those. *)
Lemma rc_get_all_perm c l1 l2 : l1 ≡ₚ l2 → rc_get_all c l1 ≡ₚ rc_get_all c l2.
Proof. intros Hp. unfold rc_get_all. by apply concat_perm, fmap_Permutation. Qed.

Lemma rc_get_all_app c l1 l2 : rc_get_all c (l1 ++ l2) = rc_get_all c l1 ++ rc_get_all c l2.
Proof. unfold rc_get_all. by rewrite fmap_app, concat_app. Qed.

Lemma rc_get_all_ext c c' l :
  (∀ st, st ∈ l → rc_get c st = rc_get c' st) → rc_get_all c l = rc_get_all c' l.
Proof.
  intros H. unfold rc_get_all. f_equal. apply list_fmap_ext. intros i st Hst.
  apply H. by eapply list_elem_of_lookup_2.
Qed.

(** A pop from some of the states of a list [U] moves replicas out of [U]. *)
Lemma rc_pop_within ev mx ranking states rest U c popped c' :
  (∀ l, ranking l ≡ₚ l) → NoDup U → states ++ rest ≡ₚ U →
  rc_pop ev mx ranking 0 states c = (popped, c') →
  popped ++ rc_get_all c' U ≡ₚ rc_get_all c U.
Proof.
  intros Hr HU Hsp Hp. rewrite <- Hsp in HU.
  apply NoDup_app in HU as (Hnd & Hdis & _).
  rewrite <- !(rc_get_all_perm _ _ _ Hsp), !rc_get_all_app.
  rewrite app_assoc, (rc_pop_perm _ _ _ Hr _ _ _ _ _ Hnd Hp).
  apply reflexive_eq. f_equal. apply rc_get_all_ext. intros st Hst. eapply rc_pop_other; [exact Hp|].
  intros Hin. by eapply Hdis.
Qed.

(** [pop(states=[st])] *)
Lemma pop_loop_all n rs : pop_loop None None n rs = (rs, []).
Proof.
  revert n. induction rs as [|r rs IH]; cbn; intros n; [done|].
  rewrite bool_decide_eq_false_2 by done. cbn. by rewrite IH.
Qed.

Lemma rc_pop_state st c : rc_pop None None id 0 [st] c = (rc_get c st, rc_set st [] c).
Proof. cbn [rc_pop]. unfold id. rewrite pop_loop_all. by rewrite app_nil_r. Qed.

(** ** Versions *)

Section versions.
Context (crc32 : string → Z) (serialize : option string → string).

(** A version as its constructor makes it. *)
Definition version_wf (v : DeploymentVersion) : Prop :=
  user_config_hash v = crc32 (serialize (user_config v)) ∧
  version_hash v = crc32 (serialize (user_config v) +:+ code_version v).

Lemma mk_version_wf letters code cfg : version_wf (mk_version crc32 serialize letters code cfg).
Proof. done. Qed.

(** [zlib.crc32] is incremental: [crc32(a + b) = crc32(b, crc32(a))]. *)
Definition crc32_incremental : Prop :=
  ∃ continue : Z → string → Z, ∀ a b, crc32 (a +:+ b) = continue (crc32 a) b.

Lemma same_parts_same_version v w :
  crc32_incremental → version_wf v → version_wf w →
  code_version v = code_version w → user_config_hash v = user_config_hash w →
  version_eqb v w = true.
Proof.
  intros [continue Hc] [Hu Hv] [Hu' Hw] Hcode Huser. unfold version_eqb. apply Z.eqb_eq.
  rewrite Hv, Hw, !Hc, <- Hu, <- Hu'. congruence.
Qed.
End versions.

(** ** Health checks *)

(** The responses of a sequence of [check_health] calls, and the actor after
    them. *)
Fixpoint run_health (tag : ReplicaTag) (a : ActorReplicaWrapper) (os : list health_obs) :
    ActorReplicaWrapper * list ReplicaHealthCheckResponse :=
  match os with
  | [] => (a, [])
  | o :: os =>
      let response := (_check_active_health_check o a).2 in
      let '(a', _, _) := actor_check_health tag o a in
      let '(a'', rs) := run_health tag a' os in
      (a'', response :: rs)
  end.

Lemma check_health_effect tag o a a' h acts :
  actor_check_health tag o a = (a', h, acts) →
  h = a_healthy a' ∧
  match (_check_active_health_check o a).2 with
  | HC_NONE => a_healthy a' = a_healthy a ∧
      a_consecutive_health_check_failures a' = a_consecutive_health_check_failures a
  | HC_SUCCEEDED => a_healthy a' = true ∧ a_consecutive_health_check_failures a' = 0
  | HC_APP_FAILURE =>
      a_consecutive_health_check_failures a' = a_consecutive_health_check_failures a + 1 ∧
      a_healthy a' = (if REPLICA_HEALTH_CHECK_UNHEALTHY_THRESHOLD
                         <=? a_consecutive_health_check_failures a + 1
                      then false else a_healthy a)
  | HC_ACTOR_CRASHED => a_healthy a' = false ∧
      a_consecutive_health_check_failures a' = a_consecutive_health_check_failures a
  end.
Proof.
  unfold actor_check_health.
  unfold _check_active_health_check. cbv zeta.
  set (resp := if negb (a_health_check_ref a) then HC_NONE else _).
  clearbody resp. cbn [snd].
  destruct resp; cbn; intros H;
    match type of H with (if ?b then _ else _) = _ => destruct b end; simplify_eq; cbn;
    repeat split; done.
Qed.

(** The informative answers since the last successful one, after [post]. *)
Definition since_success (post rs : list ReplicaHealthCheckResponse) :
    list ReplicaHealthCheckResponse :=
  fold_left (λ post r,
    match r with HC_NONE => post | HC_SUCCEEDED => [] | _ => post ++ [r] end) rs post.

(** The counter counts the failures of [post], and the actor is unhealthy when
    [post] has a crash or three answers. *)
Definition health_inv (a : ActorReplicaWrapper) (post : list ReplicaHealthCheckResponse) : Prop :=
  Forall (λ r, r = HC_APP_FAILURE ∨ r = HC_ACTOR_CRASHED) post ∧
  (HC_ACTOR_CRASHED ∉ post →
   a_consecutive_health_check_failures a = Z.of_nat (length post)) ∧
  0 <= a_consecutive_health_check_failures a ∧
  (a_healthy a = false ↔ HC_ACTOR_CRASHED ∈ post ∨ (3 <= length post)%nat).

Lemma health_inv_nil a :
  a_healthy a = true → a_consecutive_health_check_failures a = 0 → health_inv a [].
Proof.
  intros Hh Hc. split_and!; [done|by intros _|by rewrite Hc|]. rewrite Hh.
  split; [done|]. intros [Hin|Hlen]; [by apply elem_of_nil in Hin|cbn in Hlen; lia].
Qed.

Lemma health_inv_failure a a' post :
  health_inv a post →
  a_consecutive_health_check_failures a' = a_consecutive_health_check_failures a + 1 →
  a_healthy a' = (if REPLICA_HEALTH_CHECK_UNHEALTHY_THRESHOLD
                     <=? a_consecutive_health_check_failures a + 1
                  then false else a_healthy a) →
  health_inv a' (post ++ [HC_APP_FAILURE]).
Proof.
  intros (Hall & Hcnt & Hnn & Hh) Hc' Hh'. unfold REPLICA_HEALTH_CHECK_UNHEALTHY_THRESHOLD in Hh'.
  assert (HC_ACTOR_CRASHED ∈ post ++ [HC_APP_FAILURE] ↔ HC_ACTOR_CRASHED ∈ post) as Hin.
  { rewrite elem_of_app, list_elem_of_singleton. naive_solver. }
  split_and!.
  - apply Forall_app. split; [done|]. repeat constructor.
  - rewrite Hin, length_app. cbn. intros Hx. specialize (Hcnt Hx). lia.
  - lia.
  - rewrite Hin, length_app, Hh'. cbn.
    destruct (Z.leb_spec 3 (a_consecutive_health_check_failures a + 1)) as [Hle|Hlt].
    + split; [|done]. intros _. destruct (decide (HC_ACTOR_CRASHED ∈ post)) as [|Hx]; [by left|].
      right. specialize (Hcnt Hx). lia.
    + rewrite Hh. split; intros [?|Hlen]; [by left|right; lia|by left|].
      destruct (decide (HC_ACTOR_CRASHED ∈ post)) as [|Hx]; [by left|].
      specialize (Hcnt Hx). lia.
Qed.

Lemma health_inv_crash a a' post :
  health_inv a post → a_healthy a' = false → 0 <= a_consecutive_health_check_failures a' →
  health_inv a' (post ++ [HC_ACTOR_CRASHED]).
Proof.
  intros (Hall & _ & _ & _) Hh' Hnn.
  assert (HC_ACTOR_CRASHED ∈ post ++ [HC_ACTOR_CRASHED]) as Hin
    by (apply elem_of_app; right; left).
  split_and!; [|done|done|].
  - apply Forall_app. split; [done|]. constructor; [by right|done].
  - split; [by left|done].
Qed.

Lemma run_health_inv tag os a a' rs post :
  run_health tag a os = (a', rs) → health_inv a post → health_inv a' (since_success post rs).
Proof.
  revert a a' rs post. induction os as [|o os IH]; intros a a' rs post Hrun Hinv.
  { cbn in Hrun. by simplify_eq. }
  cbn [run_health] in Hrun.
  destruct (actor_check_health tag o a) as [[a1 h1] acts] eqn:Hc.
  apply check_health_effect in Hc as [_ Heff].
  remember (_check_active_health_check o a).2 as resp eqn:Hresp. clear Hresp.
  destruct (run_health tag a1 os) as [a2 rs2] eqn:Hr. injection Hrun as <- <-.
  unfold since_success. cbn [fold_left]. eapply IH; [done|].
  destruct resp.
  - destruct Heff as [E1 E2]. unfold health_inv. by rewrite E1, E2.
  - destruct Heff as [E1 E2]. by apply health_inv_nil.
  - destruct Heff as [E1 E2]. by eapply health_inv_failure.
  - destruct Heff as [E1 E2]. eapply health_inv_crash; [done|done|].
    destruct Hinv as (_ & _ & Hnn & _). lia.
Qed.

(** After any sequence of health checks of a freshly started replica, the
    replica counts as unhealthy exactly when, among the answers received since
    the last successful one, the actor crashed or at least three (failed or
    timed-out) checks came back. *)
Theorem unhealthy_iff_three_failures tag c os a' rs :
  run_health tag (actor_start c actor_init) os = (a', rs) →
  a_healthy a' = false ↔
    HC_ACTOR_CRASHED ∈ since_success [] rs ∨ (3 <= length (since_success [] rs))%nat.
Proof.
  intros Hrun. eapply run_health_inv in Hrun; [|by apply health_inv_nil]. apply Hrun.
Qed.

(** Three checks that each come back with an error. *)
Definition failing_check (t : Q) : health_obs :=
  {| ho_ready := true; ho_get := GetRayError; ho_now_active := t; ho_now_should := t;
     ho_random := 1; ho_now_start := t |}.

Definition some_config : DeploymentConfig :=
  {| num_replicas := 1; max_concurrent_queries := 100; cfg_user_config := None;
     graceful_shutdown_timeout_s := 20; health_check_period_s := 10;
     health_check_timeout_s := 30; is_java := false; cfg_other := "" |}.

Lemma unhealthy_iff_three_failures_witness :
  a_healthy (run_health "r" (actor_start some_config actor_init)
    (failing_check <$> [20; 40; 60; 80]%Q)).1 = false.
Proof.
  apply (unhealthy_iff_three_failures "r" some_config (failing_check <$> [20; 40; 60; 80]%Q) _
    [HC_NONE; HC_APP_FAILURE; HC_APP_FAILURE; HC_APP_FAILURE]); [vm_compute; reflexivity|].
  right. vm_compute. lia.
Defined.
