(* ===== verification/ServeDeployment.v ===== *)
(** * Serve deployments (serve/_private/deployment_state.py, [DeploymentState])

    The reconciler of one deployment: its target state, its replicas by state,
    and the [update] cycle (rolling update, scaling, health and startup checks,
    status).  Methods are stateful computations that may raise ([ST]): [update]
    catches every exception, so the state at the raising point matters.  What
    the controller's loop observes from Ray during one cycle is an [update_env];
    what it does (actor operations, long-poll notifications, checkpoints) is
    recorded in the state. *)
From S2P Require Import Prelude ServeReplica ServeAutoscaling.
From stdpp Require Import base tactics list strings.
From Stdlib Require Import QArith.

#[local] Open Scope Z_scope.

(** ** Data *)

Record DeploymentInfo := {
  deployment_config : DeploymentConfig;
  info_version : option string;
  start_time_ms : Z;
  end_time_ms : option Z;
  autoscaling_policy : option BasicAutoscalingPolicy;
}.

Record DeploymentTargetState := {
  ts_info : option DeploymentInfo;
  ts_num_replicas : Z;
  ts_version : option DeploymentVersion;
  ts_deleting : bool;
}.

Definition target_default : DeploymentTargetState :=
  {| ts_info := None; ts_num_replicas := -1; ts_version := None; ts_deleting := false |}.

Inductive DeploymentStatus := ST_UPDATING | ST_HEALTHY | ST_UNHEALTHY.

#[global] Instance DeploymentStatus_eq_dec : EqDecision DeploymentStatus.
Proof. solve_decision. Defined.

(** The message of a status, as what it reports. *)
Inductive StatusMessage :=
  | MsgEmpty
  | MsgConstructorFailed (times : Z)
  | MsgPendingAllocation (replicas : nat)
  | MsgPendingInitialization (replicas : nat)
  | MsgUpdateFailed (e : exn).

Record DeploymentStatusInfo := { status : DeploymentStatus; message : StatusMessage }.

(** [_long_poll_host.notify_changed] of the running replicas, and the
    checkpoints written, are recorded with the actor operations. *)
Inductive Effect :=
  | ActorOp (a : Action)
  | NotifyRunning (infos : list RunningReplicaInfo)
  | SaveCheckpoint (t : DeploymentTargetState).

Record DeploymentState := {
  ds_name : string;
  ds_target : DeploymentTargetState;
  ds_prev_startup_warning : Q;
  ds_retry_counter : Z;
  ds_replicas : ReplicaStateContainer;
  ds_status : DeploymentStatusInfo;
  ds_effects : list Effect;
}.

Definition ds_init (name : string) (now : Q) : DeploymentState :=
  {| ds_name := name; ds_target := target_default; ds_prev_startup_warning := now;
     ds_retry_counter := 0; ds_replicas := container_init;
     ds_status := {| status := ST_UPDATING; message := MsgEmpty |}; ds_effects := [] |}.

Abbreviation M := (ST DeploymentState).

(** ** Field updates *)

Definition set_target (t : DeploymentTargetState) (s : DeploymentState) : DeploymentState :=
  {| ds_name := ds_name s; ds_target := t;
     ds_prev_startup_warning := ds_prev_startup_warning s;
     ds_retry_counter := ds_retry_counter s; ds_replicas := ds_replicas s;
     ds_status := ds_status s; ds_effects := ds_effects s |}.
Definition set_warning (w : Q) (s : DeploymentState) : DeploymentState :=
  {| ds_name := ds_name s; ds_target := ds_target s; ds_prev_startup_warning := w;
     ds_retry_counter := ds_retry_counter s; ds_replicas := ds_replicas s;
     ds_status := ds_status s; ds_effects := ds_effects s |}.
Definition set_retry (n : Z) (s : DeploymentState) : DeploymentState :=
  {| ds_name := ds_name s; ds_target := ds_target s;
     ds_prev_startup_warning := ds_prev_startup_warning s; ds_retry_counter := n;
     ds_replicas := ds_replicas s; ds_status := ds_status s; ds_effects := ds_effects s |}.
Definition set_replicas (c : ReplicaStateContainer) (s : DeploymentState) : DeploymentState :=
  {| ds_name := ds_name s; ds_target := ds_target s;
     ds_prev_startup_warning := ds_prev_startup_warning s;
     ds_retry_counter := ds_retry_counter s; ds_replicas := c; ds_status := ds_status s;
     ds_effects := ds_effects s |}.
Definition set_status (st : DeploymentStatus) (m : StatusMessage) (s : DeploymentState) :
    DeploymentState :=
  {| ds_name := ds_name s; ds_target := ds_target s;
     ds_prev_startup_warning := ds_prev_startup_warning s;
     ds_retry_counter := ds_retry_counter s; ds_replicas := ds_replicas s;
     ds_status := {| status := st; message := m |}; ds_effects := ds_effects s |}.
Definition emit (es : list Effect) (s : DeploymentState) : DeploymentState :=
  {| ds_name := ds_name s; ds_target := ds_target s;
     ds_prev_startup_warning := ds_prev_startup_warning s;
     ds_retry_counter := ds_retry_counter s; ds_replicas := ds_replicas s;
     ds_status := ds_status s; ds_effects := ds_effects s ++ es |}.

Definition perform (acts : list Action) : M unit := st_modify (emit (ActorOp <$> acts)).

(** [self._replicas.add(state, r)], [.pop(...)], [.count(...)] *)
Definition add_replica (st : ReplicaState) (r : DeploymentReplica) : M unit :=
  st_modify (λ s, set_replicas (rc_add st r (ds_replicas s)) s).

Definition pop_replicas (exclude_version : option DeploymentVersion) (max_replicas : option Z)
    (ranking : list DeploymentReplica → list DeploymentReplica) (states : list ReplicaState) :
    M (list DeploymentReplica) := λ s,
  let '(popped, c) := rc_pop exclude_version max_replicas ranking 0 states (ds_replicas s) in
  (set_replicas c s, Ok popped).

Definition count_replicas (exclude_version version : option DeploymentVersion)
    (states : list ReplicaState) : M Z :=
  s ← st_get; st_lift (rc_count exclude_version version states (ds_replicas s)).

Definition MAX_DEPLOYMENT_CONSTRUCTOR_RETRY_COUNT : Z := 100.

(** What one [update] observes. *)
Record update_env := {
  env_letters : nat → string;
  env_start_now : ReplicaTag → Q;
  env_stop_exists : ReplicaTag → bool;
  env_stop_now : ReplicaTag → Q;
  env_health : ReplicaTag → health_obs;
  env_ready : ReplicaTag → ready_obs;
  env_slow_now : ReplicaTag → Q;
  env_warning_now : Q;
  env_warning_set_now : Q;
  env_stopped : ReplicaTag → stop_obs;
}.

Section deployment.
Context (crc32 : string → Z) (serialize : option string → string).
(** [SLOW_STARTUP_WARNING_S] and [SLOW_STARTUP_WARNING_PERIOD_S], read from the
    process environment (default 30). *)
Context (SLOW_STARTUP_WARNING_S SLOW_STARTUP_WARNING_PERIOD_S : Q).

(** ** Target state *)

Definition from_deployment_info (letters : string) (info : option DeploymentInfo)
    (deleting : bool) : result DeploymentTargetState :=
  if deleting then
    Ok {| ts_info := info; ts_num_replicas := 0; ts_version := None; ts_deleting := true |}
  else
    i ← of_option AttributeError info;
    Ok {| ts_info := info;
          ts_num_replicas := num_replicas (deployment_config i);
          ts_version := Some (mk_version crc32 serialize letters (info_version i)
                                (cfg_user_config (deployment_config i)));
          ts_deleting := false |}.

(** Writing the checkpoint succeeds or raises (the store is remote). *)
Definition save_checkpoint (saved : result unit) (t : DeploymentTargetState) : M unit :=
  match saved with
  | Ok _ => st_modify (emit [SaveCheckpoint t])
  | Err e => st_raise e
  end.

Definition _set_target_state_deleting (saved : result unit) : M unit :=
  s ← st_get;
  target_state ← st_lift (from_deployment_info "" (ts_info (ds_target s)) true);
  _ ← save_checkpoint saved target_state;
  st_modify (λ s, set_status ST_UPDATING MsgEmpty (set_target target_state s)).

Definition _set_target_state (saved : result unit) (letters : string)
    (target_info : DeploymentInfo) : M unit :=
  target_state ← st_lift (from_deployment_info letters (Some target_info) false);
  _ ← save_checkpoint saved target_state;
  st_modify (λ s, set_retry 0 (set_status ST_UPDATING MsgEmpty (set_target target_state s))).

Definition set_start_time (t : Z) (i : DeploymentInfo) : DeploymentInfo :=
  {| deployment_config := deployment_config i; info_version := info_version i;
     start_time_ms := t; end_time_ms := end_time_ms i;
     autoscaling_policy := autoscaling_policy i |}.

(** Equality of [DeploymentConfig]s (a pydantic model: field by field). *)
Definition config_eqb (c d : DeploymentConfig) : bool :=
  (num_replicas c =? num_replicas d)
  && (max_concurrent_queries c =? max_concurrent_queries d)
  && bool_decide (cfg_user_config c = cfg_user_config d)
  && Qeq_bool (graceful_shutdown_timeout_s c) (graceful_shutdown_timeout_s d)
  && Qeq_bool (health_check_period_s c) (health_check_period_s d)
  && Qeq_bool (health_check_timeout_s c) (health_check_timeout_s d)
  && eqb (is_java c) (is_java d)
  && bool_decide (cfg_other c = cfg_other d).

Definition deploy (saved : result unit) (letters : string) (info : DeploymentInfo) : M bool :=
  s ← st_get;
  match ts_info (ds_target s) with
  | None => _ ← _set_target_state saved letters info; mret true
  | Some existing =>
      let info := set_start_time (start_time_ms existing) info in
      if config_eqb (deployment_config existing) (deployment_config info)
         && match info_version info with
            | None => false
            | Some v => bool_decide (info_version existing = Some v)
            end
      then mret false
      else _ ← _set_target_state saved letters info; mret true
  end.

Definition set_num_replicas (n : Z) (c : DeploymentConfig) : DeploymentConfig :=
  {| num_replicas := n; max_concurrent_queries := max_concurrent_queries c;
     cfg_user_config := cfg_user_config c;
     graceful_shutdown_timeout_s := graceful_shutdown_timeout_s c;
     health_check_period_s := health_check_period_s c;
     health_check_timeout_s := health_check_timeout_s c; is_java := is_java c;
     cfg_other := cfg_other c |}.

Definition set_config (c : DeploymentConfig) (i : DeploymentInfo) : DeploymentInfo :=
  {| deployment_config := c; info_version := info_version i;
     start_time_ms := start_time_ms i; end_time_ms := end_time_ms i;
     autoscaling_policy := autoscaling_policy i |}.

Definition set_info_version (v : option string) (i : DeploymentInfo) : DeploymentInfo :=
  {| deployment_config := deployment_config i; info_version := v;
     start_time_ms := start_time_ms i; end_time_ms := end_time_ms i;
     autoscaling_policy := autoscaling_policy i |}.

Definition set_policy (p : BasicAutoscalingPolicy) (i : DeploymentInfo) : DeploymentInfo :=
  {| deployment_config := deployment_config i; info_version := info_version i;
     start_time_ms := start_time_ms i; end_time_ms := end_time_ms i;
     autoscaling_policy := Some p |}.

Definition set_target_info (i : DeploymentInfo) (s : DeploymentState) : DeploymentState :=
  set_target {| ts_info := Some i; ts_num_replicas := ts_num_replicas (ds_target s);
                ts_version := ts_version (ds_target s);
                ts_deleting := ts_deleting (ds_target s) |} s.

Definition should_autoscale (s : DeploymentState) : result bool :=
  i ← of_option AttributeError (ts_info (ds_target s));
  Ok (match autoscaling_policy i with Some _ => true | None => false end).

(** [copy(curr_info)] is shallow: the new info shares its [deployment_config]
    and its policy with the current target's info.  Assigning the number of
    replicas to it therefore changes the current target's configuration too,
    before the checkpoint is written. *)
Definition autoscale (saved : result unit) (letters : string)
    (current_num_ongoing_requests : list Q) (current_handle_queued_queries : Q) : M unit :=
  s ← st_get;
  if ts_deleting (ds_target s) then mret tt
  else
    curr_info ← st_lift (of_option AttributeError (ts_info (ds_target s)));
    policy ← st_lift (of_option AttributeError (autoscaling_policy curr_info));
    '(policy, decision_num_replicas) ←
      st_lift (get_decision_num_replicas policy (num_replicas (deployment_config curr_info))
                 current_num_ongoing_requests current_handle_queued_queries);
    let curr_info := set_policy policy curr_info in
    _ ← st_modify (set_target_info curr_info);
    if decision_num_replicas =? num_replicas (deployment_config curr_info) then mret tt
    else
      let shared := set_num_replicas decision_num_replicas (deployment_config curr_info) in
      let curr_info := set_config shared curr_info in
      _ ← st_modify (set_target_info curr_info);
      new_config ←
        (match info_version curr_info with
         | Some _ => mret curr_info
         | None =>
             v ← st_lift (of_option AttributeError (ts_version (ds_target s)));
             mret (set_info_version (Some (code_version v)) curr_info)
         end);
      _set_target_state saved letters new_config.

Definition delete (saved : result unit) : M unit := _set_target_state_deleting saved.

(** ** Recovery *)

Definition recover_target_state_from_checkpoint (t : DeploymentTargetState) : M unit :=
  st_modify (set_target t).

(** The replicas found in the cluster, as the tags of their names. *)
Definition recover_current_state_from_replica_actor_names (actor_exists : ReplicaTag → bool)
    (now : ReplicaTag → Q) (replica_names : list (ReplicaTag * string)) : M unit :=
  st_for replica_names (λ '(tag, deployment_tag),
    r ← st_lift (replica_recover (actor_exists tag) (now tag)
                   (replica_init tag deployment_tag None));
    add_replica RECOVERING r).

(** ** Rolling update *)

Definition stop_replica (env : update_env) (graceful : bool) (r : DeploymentReplica) : M unit :=
  let '(r, acts) :=
    replica_stop graceful (env_stop_exists env (r_tag r)) (env_stop_now env (r_tag r)) r in
  _ ← perform acts;
  add_replica STOPPING r.

(** [max(int(0.2 * num_replicas), 1)] *)
Definition rollout_size (target : Z) : Z := Z.max (py_int ((1 # 5) * inject_Z target)) 1.

(** One popped replica: restart it for a new code version, reconfigure it for a
    new user config.  The result says whether it was stopped. *)
Definition update_one_replica (env : update_env) (replicas_stopped : bool)
    (r : DeploymentReplica) : M bool :=
  s ← st_get;
  rv ← st_lift (of_option AttributeError (r_version r));
  tv ← st_lift (of_option AttributeError (ts_version (ds_target s)));
  if negb (bool_decide (code_version rv = code_version tv)) then
    _ ← stop_replica env true r; mret true
  else if negb (user_config_hash rv =? user_config_hash tv) then
    let '(r, acts) := replica_update_user_config crc32 serialize (user_config tv) rv r in
    _ ← perform acts;
    _ ← add_replica UPDATING r;
    mret replicas_stopped
  else st_raise AssertionError.

Fixpoint update_replicas (env : update_env) (replicas_stopped : bool)
    (rs : list DeploymentReplica) : M bool :=
  match rs with
  | [] => mret replicas_stopped
  | r :: rs => b ← update_one_replica env replicas_stopped r; update_replicas env b rs
  end.

Definition _stop_wrong_version_replicas (env : update_env) : M bool :=
  s ← st_get;
  let target := ts_num_replicas (ds_target s) in
  let version := ts_version (ds_target s) in
  if target =? 0 then mret false
  else
    old_running_replicas ← count_replicas version None [STARTING; UPDATING; RUNNING];
    old_stopping_replicas ← count_replicas version None [STOPPING];
    new_running_replicas ← count_replicas None version [RUNNING];
    if target <? old_running_replicas + old_stopping_replicas then mret false
    else
      let pending_replicas := target - new_running_replicas - old_running_replicas in
      let max_to_stop := Z.max (rollout_size target - pending_replicas) 0 in
      replicas_to_update ←
        pop_replicas version (Some max_to_stop) rank_replicas_for_stopping [STARTING; RUNNING];
      update_replicas env false replicas_to_update.

(** ** Scaling *)

(** [ReplicaName(self._name, get_random_letters()).replica_tag] *)
Definition replica_tag_of (name letters : string) : ReplicaTag :=
  name +:+ "#" +:+ letters.

Definition start_new_replica (env : update_env) (i : nat) : M unit :=
  s ← st_get;
  let tag := replica_tag_of (ds_name s) (env_letters env i) in
  let version := ts_version (ds_target s) in
  info ← st_lift (of_option AttributeError (ts_info (ds_target s)));
  let '(r, acts) :=
    replica_start (deployment_config info) version (env_start_now env tag)
      (replica_init tag (ds_name s) version) in
  _ ← perform acts;
  add_replica STARTING r.

Definition _scale_deployment_replicas (env : update_env) : M bool :=
  s ← st_get;
  let target := ts_num_replicas (ds_target s) in
  _ ← st_lift (py_assert (0 <=? target));
  replicas_stopped ← _stop_wrong_version_replicas env;
  current_replicas ← count_replicas None None [STARTING; UPDATING; RUNNING];
  recovering_replicas ← count_replicas None None [RECOVERING];
  let delta_replicas := target - current_replicas - recovering_replicas in
  if delta_replicas =? 0 then mret false
  else if 0 <? delta_replicas then
    stopping_replicas ← count_replicas None None [STOPPING];
    let to_add := Z.max (delta_replicas - stopping_replicas) 0 in
    _ ← st_for (seq 0 (Z.to_nat to_add)) (start_new_replica env);
    mret replicas_stopped
  else
    let to_remove := - delta_replicas in
    replicas_to_stop ←
      pop_replicas None (Some to_remove) rank_replicas_for_stopping
        [STARTING; UPDATING; RECOVERING; RUNNING];
    _ ← st_for replicas_to_stop (stop_replica env true);
    mret true.

(** ** Checking replicas *)

(** One replica of the health check loop; the result says whether it left the
    running replicas. *)
Definition health_check_one (env : update_env) (changed : bool) (r : DeploymentReplica) : M bool :=
  let '(r, healthy, acts) := check_health (env_health env (r_tag r)) r in
  _ ← perform acts;
  if healthy : bool then _ ← add_replica RUNNING r; mret changed
  else
    _ ← stop_replica env false r;
    s ← st_get;
    _ ← (if opt_version_eqb (r_version r) (ts_version (ds_target s))
         then st_modify (set_status ST_UNHEALTHY MsgEmpty) else mret tt);
    mret true.

Fixpoint health_check_loop (env : update_env) (changed : bool) (rs : list DeploymentReplica) :
    M bool :=
  match rs with
  | [] => mret changed
  | r :: rs => b ← health_check_one env changed r; health_check_loop env b rs
  end.

(** One replica of [_check_startup_replicas]: the pending ones that are slow are
    collected with their status. *)
Definition check_startup_one (env : update_env) (original_state : ReplicaState)
    (stop_on_slow : bool) (acc : list ReplicaStartupStatus * bool) (r : DeploymentReplica) :
    M (list ReplicaStartupStatus * bool) :=
  let '(slow_replicas, transitioned_to_running) := acc in
  let '(r, start_status) := check_started (env_ready env (r_tag r)) r in
  match start_status with
  | SUCCEEDED => _ ← add_replica RUNNING r; mret (slow_replicas, true)
  | FAILED =>
      _ ← st_modify (λ s, if 0 <=? ds_retry_counter s
                          then set_retry (ds_retry_counter s + 1) s else s);
      _ ← stop_replica env false r;
      mret (slow_replicas, transitioned_to_running)
  | PENDING_ALLOCATION | PENDING_INITIALIZATION =>
      start_time ← st_lift (of_option TypeError (r_start_time r));
      let is_slow :=
        Qltb SLOW_STARTUP_WARNING_S (env_slow_now env (r_tag r) - start_time)%Q in
      let slow_replicas := if is_slow then slow_replicas ++ [start_status] else slow_replicas in
      _ ← (if is_slow && stop_on_slow then stop_replica env false r
           else add_replica original_state r);
      mret (slow_replicas, transitioned_to_running)
  end.

Fixpoint check_startup_loop (env : update_env) (original_state : ReplicaState)
    (stop_on_slow : bool) (acc : list ReplicaStartupStatus * bool) (rs : list DeploymentReplica) :
    M (list ReplicaStartupStatus * bool) :=
  match rs with
  | [] => mret acc
  | r :: rs =>
      acc ← check_startup_one env original_state stop_on_slow acc r;
      check_startup_loop env original_state stop_on_slow acc rs
  end.

Definition _check_startup_replicas (env : update_env) (original_state : ReplicaState)
    (stop_on_slow : bool) : M (list ReplicaStartupStatus * bool) :=
  rs ← pop_replicas None None id [original_state];
  check_startup_loop env original_state stop_on_slow ([], false) rs.

(** The status after a slow startup was noticed: [UNHEALTHY] is kept. *)
Definition report_slow (m : StatusMessage) (s : DeploymentState) : DeploymentState :=
  if decide (status (ds_status s) = ST_UNHEALTHY) then s else set_status ST_UPDATING m s.

Definition warn_slow_replicas (env : update_env) (slow : list ReplicaStartupStatus) : M unit :=
  s ← st_get;
  if negb (bool_decide (slow = []))
     && Qltb SLOW_STARTUP_WARNING_PERIOD_S (env_warning_now env - ds_prev_startup_warning s)
  then
    let pending_allocation :=
      length (List.filter (λ st, match st with PENDING_ALLOCATION => true | _ => false end) slow) in
    let pending_initialization :=
      length (List.filter (λ st, match st with PENDING_INITIALIZATION => true | _ => false end) slow) in
    _ ← (if Nat.ltb 0 pending_allocation
         then st_modify (report_slow (MsgPendingAllocation pending_allocation)) else mret tt);
    _ ← (if Nat.ltb 0 pending_initialization
         then st_modify (report_slow (MsgPendingInitialization pending_initialization))
         else mret tt);
    st_modify (set_warning (env_warning_set_now env))
  else mret tt.

Definition check_stopped_one (env : update_env) (r : DeploymentReplica) : M unit :=
  '(stopped, acts) ← st_lift (check_stopped (env_stopped env (r_tag r)) r);
  _ ← perform acts;
  if stopped : bool then mret tt else add_replica STOPPING r.

(** The running, starting, updating and recovering replicas; the result says whether the
    running replicas changed. *)
Definition check_live_replicas (env : update_env) : M bool :=
  running ← pop_replicas None None id [RUNNING];
  running_replicas_changed ← health_check_loop env false running;
  '(slow_start, starting_to_running) ← _check_startup_replicas env STARTING false;
  '(slow_update, updating_to_running) ← _check_startup_replicas env UPDATING false;
  '(slow_recover, recovering_to_running) ← _check_startup_replicas env RECOVERING true;
  _ ← warn_slow_replicas env (slow_start ++ slow_update ++ slow_recover);
  mret (running_replicas_changed || starting_to_running || updating_to_running
        || recovering_to_running).

(** All stopping replicas are popped before the first is checked. *)
Definition _check_and_update_replicas (env : update_env) : M bool :=
  running_replicas_changed ← check_live_replicas env;
  stopping ← pop_replicas None None id [STOPPING];
  _ ← st_for stopping (check_stopped_one env);
  mret running_replicas_changed.

(** ** Status *)

Definition get_running_replica_infos (s : DeploymentState) : list RunningReplicaInfo :=
  get_running_replica_info <$> rc_get_all (ds_replicas s) [RUNNING].

Definition _notify_running_replicas_changed : M unit :=
  s ← st_get; st_modify (emit [NotifyRunning (get_running_replica_infos s)]).

(** What is left of [_check_curr_status] when the constructor failures do not
    decide the status. *)
Definition check_pending_ops (target : Z) (all_running running_at_target : Z) : M bool :=
  pending ← count_replicas None None [STARTING; UPDATING; RECOVERING; STOPPING];
  s ← st_get;
  if pending =? 0 then
    if ts_deleting (ds_target s) && (all_running =? 0) then mret true
    else if target =? running_at_target
         then _ ← st_modify (set_status ST_HEALTHY MsgEmpty); mret false
         else mret false
  else mret false.

Definition _check_curr_status : M bool :=
  s ← st_get;
  let target_version := ts_version (ds_target s) in
  let target_replica_count := ts_num_replicas (ds_target s) in
  all_running ← count_replicas None None [RUNNING];
  running_at_target ← count_replicas None target_version [RUNNING];
  let failed_to_start_count := ds_retry_counter s in
  let failed_to_start_threshold :=
    Z.min MAX_DEPLOYMENT_CONSTRUCTOR_RETRY_COUNT (target_replica_count * 3) in
  if (failed_to_start_threshold <=? failed_to_start_count)
     && negb (failed_to_start_threshold =? 0) then
    if 0 <? running_at_target then
      _ ← st_modify (set_retry (-1));
      check_pending_ops target_replica_count all_running running_at_target
    else
      _ ← st_modify (set_status ST_UNHEALTHY (MsgConstructorFailed failed_to_start_count));
      mret false
  else check_pending_ops target_replica_count all_running running_at_target.

(** ** The update cycle *)

Definition update_body (env : update_env) : M bool :=
  changed1 ← _scale_deployment_replicas env;
  changed2 ← _check_and_update_replicas env;
  _ ← (if changed1 || changed2 then _notify_running_replicas_changed else mret tt);
  _check_curr_status.

(** Returns whether the deployment was deleted; never raises. *)
Definition update (env : update_env) (s : DeploymentState) : DeploymentState * bool :=
  match update_body env s with
  | (s', Ok deleted) => (s', deleted)
  | (s', Err e) => (set_status ST_UNHEALTHY (MsgUpdateFailed e) s', false)
  end.

End deployment.
