(* ===== verification/ServeDeploymentProofs.v ===== *)
(** * Correctness of the deployment reconciler

    The update cycle of a well-formed deployment raises nothing, loses no
    replica, never runs more replicas than its target, and changes its status
    only for the documented reasons. *)
From S2P Require Import Prelude ServeReplica ServeReplicaProofs ServeAutoscaling ServeDeployment.
From stdpp Require Import base tactics list strings sets.
From Stdlib Require Import QArith.

#[local] Open Scope Z_scope.
#[local] Arguments rc_pop : simpl never.
#[local] Arguments rc_add : simpl never.
#[local] Arguments rc_get_all : simpl never.
#[local] Arguments all_replicas : simpl never.
#[local] Arguments stop_replica : simpl never.
#[local] Arguments add_replica : simpl never.
#[local] Arguments perform : simpl never.

Definition LIVE : list ReplicaState := [STARTING; UPDATING; RECOVERING; RUNNING].

(** The replicas that are not stopping. *)
Definition live (c : ReplicaStateContainer) : Z := Z.of_nat (length (rc_get_all c LIVE)).

Lemma live_add st r c :
  live (rc_add st r c) = live c + if decide (st = STOPPING) then 0 else 1.
Proof.
  unfold live, rc_get_all, rc_add. case_decide; destruct st; try done; cbn;
    rewrite ?length_app; cbn; lia.
Qed.

Lemma all_replicas_live c : all_replicas c = rc_get_all c LIVE ++ rc_stopping c.
Proof. unfold all_replicas, rc_get_all. cbn. rewrite !app_nil_r, <- !app_assoc. done. Qed.

Lemma total_live c :
  Z.of_nat (length (all_replicas c)) = live c + Z.of_nat (length (rc_stopping c)).
Proof.
  rewrite all_replicas_live, length_app. unfold live. lia.
Qed.

Lemma NoDup_ALL : NoDup ALL_REPLICA_STATES.
Proof. apply (bool_decide_unpack _). vm_compute. exact I. Qed.
Lemma NoDup_LIVE : NoDup LIVE.
Proof. apply (bool_decide_unpack _). vm_compute. exact I. Qed.

Section deployment_proofs.
Context (crc32 : string → Z) (serialize : option string → string).
Context (SLOW_STARTUP_WARNING_S SLOW_STARTUP_WARNING_PERIOD_S : Q).
Context (crc32_inc : crc32_incremental crc32).

(** ** Well-formed deployments *)

Definition version_ok (r : DeploymentReplica) : Prop :=
  ∃ v, r_version r = Some v ∧ version_wf crc32 serialize v.

(** What holds of a replica in each state: it was started, it knows its version
    unless it is being recovered, and a stopping replica has a deadline. *)
Definition replica_ok (st : ReplicaState) (r : DeploymentReplica) : Prop :=
  is_Some (r_start_time r) ∧
  match st with
  | STOPPING => is_Some (r_shutdown_deadline r)
  | RECOVERING => version_ok r ∨ a_is_cross_language (r_actor r) = false
  | _ => version_ok r
  end.

Definition container_ok (c : ReplicaStateContainer) : Prop :=
  ∀ st, Forall (replica_ok st) (rc_get c st).

Definition target_ok (t : DeploymentTargetState) : Prop :=
  0 <= ts_num_replicas t ∧
  (ts_num_replicas t ≠ 0 →
   is_Some (ts_info t) ∧ ∃ v, ts_version t = Some v ∧ version_wf crc32 serialize v).

(** The versions that replicas report are made by the constructor. *)
Definition env_ok (env : update_env) : Prop :=
  ∀ tag c v, ro_result (env_ready env tag) = Some (c, v) → version_wf crc32 serialize v.

Definition tags (rs : list DeploymentReplica) : list ReplicaTag := r_tag <$> rs.

(** The bookkeeping of an update of a deployment whose target is [T]: the
    replicas in the container and those taken out of it ([rest]) have the tags
    [ts], and at most [k] of them are live ([m] of [rest] are). *)
Definition acc (T : DeploymentTargetState) (N : string) (ts : list ReplicaTag) (k m : Z)
    (rest : list DeploymentReplica) (s : DeploymentState) : Prop :=
  ds_target s = T ∧ ds_name s = N ∧ container_ok (ds_replicas s) ∧
  tags rest ++ tags (all_replicas (ds_replicas s)) ≡ₚ ts ∧
  live (ds_replicas s) + m <= k.

Lemma container_ok_add st r c : container_ok c → replica_ok st r → container_ok (rc_add st r c).
Proof.
  intros Hc Hr st'. unfold rc_add. rewrite rc_get_set. case_decide as Heq; [subst st'|apply Hc].
  apply Forall_app. split; [apply Hc|by constructor].
Qed.

Lemma container_ok_sub c c' :
  container_ok c → (∀ st r, r ∈ rc_get c' st → r ∈ rc_get c st) → container_ok c'.
Proof.
  intros Hc Hsub st. apply Forall_forall. intros r Hr.
  specialize (Hc st). rewrite Forall_forall in Hc. auto.
Qed.

(** ** Adding and popping *)

Lemma acc_frame T N ts k m rest s s' :
  acc T N ts k m rest s →
  ds_target s' = ds_target s → ds_name s' = ds_name s → ds_replicas s' = ds_replicas s →
  acc T N ts k m rest s'.
Proof. unfold acc. intros (? & ? & ? & ? & ?) -> -> ->. done. Qed.

Lemma acc_add T N ts k m rest st r r' s :
  acc T N ts k (m + 1) (r :: rest) s → replica_ok st r' → r_tag r' = r_tag r →
  acc T N ts k m rest (set_replicas (rc_add st r' (ds_replicas s)) s).
Proof.
  intros (HT & HN & Hc & Hts & Hk) Hr Htag. split_and!; cbn; [done|done| | |].
  - by apply container_ok_add.
  - rewrite <- Hts. unfold tags. rewrite all_replicas_add. cbn. rewrite Htag. solve_Permutation.
  - rewrite live_add. case_decide; lia.
Qed.

Lemma acc_add_stopping T N ts k m rest r r' s :
  acc T N ts k m (r :: rest) s → replica_ok STOPPING r' → r_tag r' = r_tag r →
  acc T N ts k m rest (set_replicas (rc_add STOPPING r' (ds_replicas s)) s).
Proof.
  intros (HT & HN & Hc & Hts & Hk) Hr Htag. split_and!; cbn; [done|done| | |].
  - by apply container_ok_add.
  - rewrite <- Hts. unfold tags. rewrite all_replicas_add. cbn. rewrite Htag. solve_Permutation.
  - rewrite live_add. case_decide; [lia|done].
Qed.

Lemma acc_weaken T N ts k k' m m' rest s :
  acc T N ts k m rest s → m' + k <= m + k' → acc T N ts k' m' rest s.
Proof. intros (? & ? & ? & ? & ?) ?. split_and!; try done. lia. Qed.

(** A pop from live states. *)
Lemma acc_pop_live T N ts k ev mx ranking states others s popped c' :
  acc T N ts k 0 [] s → (∀ l, ranking l ≡ₚ l) → states ++ others ≡ₚ LIVE →
  rc_pop ev mx ranking 0 states (ds_replicas s) = (popped, c') →
  acc T N ts k (Z.of_nat (length popped)) popped (set_replicas c' s) ∧
  Forall (λ r, ∃ st, st ∈ states ∧ replica_ok st r) popped ∧
  rc_stopping c' = rc_stopping (ds_replicas s).
Proof.
  intros (HT & HN & Hc & Hts & Hk) Hr Hst Hp.
  assert (NoDup states) as Hnd.
  { pose proof NoDup_LIVE as H. rewrite <- Hst in H. by apply NoDup_app in H as (? & _ & _). }
  pose proof (rc_pop_within _ _ _ _ _ _ _ _ _ Hr NoDup_LIVE Hst Hp) as Hl.
  assert (rc_get c' STOPPING = rc_get (ds_replicas s) STOPPING) as Hs.
  { eapply rc_pop_other; [exact Hp|]. intros Hin.
    assert (STOPPING ∈ LIVE) as Hx by (rewrite <- Hst; apply elem_of_app; by left).
    apply (bool_decide_pack _) in Hx. by vm_compute in Hx. }
  assert (popped ++ all_replicas c' ≡ₚ all_replicas (ds_replicas s)) as Ha.
  { rewrite !all_replicas_live, app_assoc, Hl. cbn in Hs. by rewrite Hs. }
  assert (∀ r, r ∈ popped → ∃ st, st ∈ states ∧ r ∈ rc_get (ds_replicas s) st) as Hpop.
  { intros r Hin. assert (r ∈ rc_get_all (ds_replicas s) states) as Hx.
    { rewrite <- (rc_pop_perm _ _ _ Hr _ _ _ _ _ Hnd Hp). apply elem_of_app. by left. }
    unfold rc_get_all in Hx. apply list_elem_of_In, in_concat in Hx as (l & Hl1 & Hl2).
    apply list_elem_of_In, list_elem_of_fmap in Hl1 as (st & -> & Hst1).
    exists st. split; [done|]. by apply list_elem_of_In. }
  split_and!; [..|exact Hs].
  - split_and!; cbn; [done|done| | |].
    + eapply container_ok_sub; [exact Hc|]. intros st r Hin.
      by eapply rc_pop_sub.
    + rewrite <- Hts. unfold tags. by rewrite <- Ha, fmap_app.
    + unfold live in *. apply Permutation_length in Hl. rewrite length_app in Hl. lia.
  - apply Forall_forall. intros r Hin. destruct (Hpop r Hin) as (st & Hst1 & Hst2).
    exists st. split; [done|]. specialize (Hc st). rewrite Forall_forall in Hc. auto.
Qed.

(** ** Stopping, updating and starting one replica *)

Lemma wp_perform acts (Q : unit → DeploymentState → Prop) s :
  Q tt (emit (ActorOp <$> acts) s) → wp (perform acts) Q s.
Proof. intros HQ. by apply wp_modify. Qed.

Lemma wp_stop_replica env graceful r T N ts k m rest s (Q : unit → DeploymentState → Prop) :
  acc T N ts k m (r :: rest) s → is_Some (r_start_time r) →
  (∀ s', acc T N ts k m rest s' → Q tt s') → wp (stop_replica env graceful r) Q s.
Proof.
  intros Hacc Hst HQ. unfold stop_replica, replica_stop. wp_step. apply wp_perform. apply wp_modify.
  apply HQ. eapply acc_add_stopping; [by eapply acc_frame; [exact Hacc|..]| |done].
  split; [done|]. cbn. by eexists.
Qed.

(** The version of a replica that the rolling update takes is not the target's. *)
Lemma excluded_false r v tv :
  r_version r = Some v → excluded (Some tv) r = false → version_eqb v tv = false.
Proof. unfold excluded. intros ->. done. Qed.

Lemma wp_update_one env b r T N ts k m rest s v tv :
  acc T N ts k (m + 1) (r :: rest) s → replica_ok RUNNING r →
  r_version r = Some v → ts_version T = Some tv →
  version_wf crc32 serialize v → version_wf crc32 serialize tv → version_eqb v tv = false →
  wp (update_one_replica crc32 serialize env b r) (λ _, acc T N ts k m rest) s.
Proof.
  intros Hacc [Hst Hok] Hv Htv Hvw Htw Hne. pose proof Hacc as (HT & _).
  unfold update_one_replica. wp_step. wp_step. rewrite HT, Hv, Htv.
  wp_step. eapply wp_lift; [done|]. wp_step. eapply wp_lift; [done|].
  destruct (bool_decide (code_version v = code_version tv)) eqn:Hcode; cbn.
  - apply bool_decide_eq_true in Hcode.
    destruct (Z.eqb_spec (user_config_hash v) (user_config_hash tv)) as [Hu|Hu]; cbn.
    { rewrite (same_parts_same_version crc32 serialize v tv) in Hne; done. }
    wp_step. apply wp_perform. wp_step. apply wp_modify. wp_step.
    eapply acc_add; [by eapply acc_frame; [exact Hacc|..]| |done].
    split; [done|]. eexists. split; [done|apply mk_version_wf].
  - wp_step. eapply wp_stop_replica; [exact Hacc|done|]. intros s' Hs'. wp_step.
    eapply acc_weaken; [exact Hs'|lia].
Qed.

Lemma wp_update_replicas env b rs T N ts k s tv :
  acc T N ts k (Z.of_nat (length rs)) rs s →
  Forall (λ r, ∃ st, st ∈ [STARTING; RUNNING] ∧ replica_ok st r) rs →
  Forall (λ r, excluded (Some tv) r = false) rs →
  ts_version T = Some tv → version_wf crc32 serialize tv →
  wp (update_replicas crc32 serialize env b rs) (λ _, acc T N ts k 0 []) s.
Proof.
  intros Hacc Hok Hex Htv Hw. revert b s Hacc Hok Hex.
  induction rs as [|r rs IH]; intros b s Hacc Hok Hex; cbn [update_replicas].
  - by wp_step.
  - inversion_clear Hok as [|?? (st & Hin & Hr) Hok']. inversion_clear Hex as [|?? He Hex'].
    assert (replica_ok RUNNING r) as Hr'.
    { apply elem_of_cons in Hin as [->|Hin]; [done|]. by apply list_elem_of_singleton in Hin as ->. }
    destruct (Hr') as (_ & v & Hv & Hvw). wp_step. eapply wp_mono.
    + eapply (wp_update_one env b r T N ts k (Z.of_nat (length rs)) rs); eauto.
      * eapply acc_weaken; [exact Hacc|]. cbn [length]. lia.
      * by eapply excluded_false.
    + cbv beta. intros b' s' Hs'. by apply IH.
Qed.

Lemma wp_pop ev mx ranking states (Q : list DeploymentReplica → DeploymentState → Prop) s :
  (∀ popped c', rc_pop ev mx ranking 0 states (ds_replicas s) = (popped, c') →
     Q popped (set_replicas c' s)) →
  wp (pop_replicas ev mx ranking states) Q s.
Proof.
  intros HQ. unfold wp, pop_replicas. destruct (rc_pop _ _ _ _ _ _) as [popped c'] eqn:Hp.
  eexists _, _. split; [done|]. by apply HQ.
Qed.

Lemma wp_count_all states (Q : Z → DeploymentState → Prop) s :
  Q (Z.of_nat (length (rc_get_all (ds_replicas s) states))) s →
  wp (count_replicas None None states) Q s.
Proof. intros HQ. unfold count_replicas. wp_step. wp_step. by eapply wp_lift. Qed.

(** ** The rolling update *)

(** The replicas of version [v], and those of another version, in some states. *)
Definition count_at (v : DeploymentVersion) (states : list ReplicaState)
    (c : ReplicaStateContainer) : Z :=
  Z.of_nat (length (filter (λ r, opt_version_eqb (r_version r) (Some v) = true)
                      (rc_get_all c states))).
Definition count_not (v : DeploymentVersion) (states : list ReplicaState)
    (c : ReplicaStateContainer) : Z :=
  Z.of_nat (length (filter (λ r, opt_version_eqb (r_version r) (Some v) = false)
                      (rc_get_all c states))).

Lemma wp_count_at v states (Q : Z → DeploymentState → Prop) s :
  Q (count_at v states (ds_replicas s)) s → wp (count_replicas None (Some v) states) Q s.
Proof. intros HQ. unfold count_replicas. wp_step. wp_step. by eapply wp_lift. Qed.

Lemma wp_count_not v states (Q : Z → DeploymentState → Prop) s :
  Q (count_not v states (ds_replicas s)) s → wp (count_replicas (Some v) None states) Q s.
Proof. intros HQ. unfold count_replicas. wp_step. wp_step. by eapply wp_lift. Qed.

(** What the rolling update counts as available: the replicas running the new
    version and those that have not left the old one. *)
Definition available (v : DeploymentVersion) (c : ReplicaStateContainer) : Z :=
  count_at v [RUNNING] c + count_not v [STARTING; UPDATING; RUNNING] c.

Lemma filter_length_add {A} (P : A → Prop) `{∀ x, Decision (P x)} (l1 l2 : list A) x :
  (length (filter P (l1 ++ l2)) <= length (filter P ((l1 ++ [x]) ++ l2)))%nat.
Proof. rewrite !filter_app, !length_app. lia. Qed.

Lemma available_add v st r c : available v c <= available v (rc_add st r c).
Proof.
  unfold available, count_at, count_not, rc_get_all, rc_add.
  destruct st; cbn; rewrite ?app_nil_r, ?filter_app, ?length_app; lia.
Qed.

Lemma available_pop v k c popped c' :
  rc_pop (Some v) (Some k) rank_replicas_for_stopping 0 [STARTING; RUNNING] c = (popped, c') →
  available v c' + Z.of_nat (length popped) = available v c.
Proof.
  intros Hp.
  pose proof (rc_pop_keeps_excluded _ _ _ rank_perm _ _ _ _ _ RUNNING Hp) as Hnew.
  pose proof (rc_pop_excluded _ _ _ _ _ _ _ _ Hp) as Hex.
  eapply (rc_pop_within _ _ _ _ [UPDATING] [STARTING; UPDATING; RUNNING]) in Hp;
    [|apply rank_perm|apply (bool_decide_unpack _); vm_compute; exact I|solve_Permutation].
  unfold available, count_not.
  assert (count_at v [RUNNING] c' = count_at v [RUNNING] c) as ->.
  { unfold count_at, rc_get_all. cbn. rewrite !app_nil_r. f_equal.
    exact (Permutation_length Hnew). }
  assert (length (filter (λ r, opt_version_eqb (r_version r) (Some v) = false)
            (popped ++ rc_get_all c' [STARTING; UPDATING; RUNNING])) =
          length (filter (λ r, opt_version_eqb (r_version r) (Some v) = false)
            (rc_get_all c [STARTING; UPDATING; RUNNING]))) as Hlen by by rewrite Hp.
  rewrite filter_app, length_app in Hlen.
  assert (filter (λ r, opt_version_eqb (r_version r) (Some v) = false) popped = popped) as Hall
    by by apply filter_all.
  rewrite Hall in Hlen. lia.
Qed.

Lemma update_replicas_available v env b rs s s' r :
  update_replicas crc32 serialize env b rs s = (s', Ok r) →
  available v (ds_replicas s) <= available v (ds_replicas s').
Proof.
  revert b s. induction rs as [|x rs IH]; intros b s; cbn [update_replicas]; intros H; inv_st;
    [done|].
  match goal with H : update_replicas _ _ _ _ _ _ = _ |- _ => apply IH in H; etrans; [|exact H] end.
  match goal with H : update_one_replica _ _ _ _ _ _ = _ |- _ => rename H into Hone end.
  unfold update_one_replica in Hone. inv_st. case_match; [|case_match]; inv_st.
  - unfold stop_replica, perform, add_replica, replica_stop in *. inv_st. apply available_add.
  - unfold perform, add_replica in *. inv_st. apply available_add.
Qed.

(** The rolling update keeps the bookkeeping, and takes replicas out of service
    only down to [rollout_size] below the target. *)
Lemma wp_stop_wrong_version env T N ts k s :
  acc T N ts k 0 [] s → target_ok T →
  wp (_stop_wrong_version_replicas crc32 serialize env) (λ _ s', acc T N ts k 0 [] s' ∧
    ∀ tv, ts_version T = Some tv →
      Z.min (available tv (ds_replicas s)) (ts_num_replicas T - rollout_size (ts_num_replicas T))
      <= available tv (ds_replicas s')) s.
Proof.
  intros Hacc [Hnn Htarget]. pose proof Hacc as (HT & _).
  unfold _stop_wrong_version_replicas. wp_step. wp_step. rewrite HT.
  destruct (Z.eqb_spec (ts_num_replicas T) 0) as [|Hnz].
  { wp_step. split; [done|]. intros. lia. }
  destruct (Htarget Hnz) as (_ & tv & Htv & Hw). rewrite Htv.
  wp_step. apply wp_count_not. wp_step. apply wp_count_not. wp_step. apply wp_count_at.
  case_match; [wp_step; split; [done|]; intros; lia|]. wp_step.
  apply wp_pop. intros popped c' Hp.
  pose proof (rc_pop_excluded _ _ _ _ _ _ _ _ Hp) as Hex.
  pose proof (available_pop _ _ _ _ _ Hp) as Hav.
  eapply rc_pop_length in Hp as Hlen;
    [|apply rank_perm|apply (bool_decide_unpack _); vm_compute; exact I|lia].
  eapply (acc_pop_live T N ts k) in Hp as (Hacc' & Hok & _);
    [|exact Hacc|apply rank_perm|by instantiate (1 := [UPDATING; RECOVERING]); solve_Permutation].
  eapply wp_mono; [apply wp_and; [by eapply wp_update_replicas|]|].
  - intros s' a Hrun. exact (update_replicas_available tv _ _ _ _ _ _ Hrun).
  - cbn. intros _ s' [Hs' Hle]. split; [done|]. intros tv' Htv'. simplify_eq.
    destruct Hlen as [Hlen _]. unfold available in *. lia.
Qed.

(** ** Scaling *)

Lemma live_counts c :
  live c = Z.of_nat (length (rc_get_all c [STARTING; UPDATING; RUNNING]))
           + Z.of_nat (length (rc_get_all c [RECOVERING])).
Proof. unfold live, rc_get_all. cbn. rewrite !length_app. cbn. lia. Qed.

Lemma acc_total T N ts k s :
  acc T N ts k 0 [] s →
  Z.of_nat (length ts) = live (ds_replicas s) + Z.of_nat (length (rc_get_all (ds_replicas s) [STOPPING])).
Proof.
  intros (_ & _ & _ & Hts & _). apply Permutation_length in Hts. cbn in Hts.
  unfold tags in Hts. rewrite length_fmap in Hts. rewrite <- Hts, total_live.
  unfold rc_get_all. cbn. by rewrite app_nil_r.
Qed.

(** The tags of the replicas that scaling up starts. *)
Definition started_tags (env : update_env) (N : string) (idx : list nat) : list ReplicaTag :=
  (λ i, replica_tag_of N (env_letters env i)) <$> idx.

Lemma wp_start_new env T N ts k m i s :
  acc T N ts k (m + 1) [] s → target_ok T → ts_num_replicas T ≠ 0 →
  wp (start_new_replica env i)
    (λ _, acc T N (replica_tag_of N (env_letters env i) :: ts) k m []) s.
Proof.
  intros (HT & HN & Hc & Hts & Hk) [_ Htarget] Hnz.
  destruct (Htarget Hnz) as ([info Hinfo] & tv & Htv & Hw).
  unfold start_new_replica. wp_step. wp_step. rewrite HT, HN, Htv, Hinfo. wp_step.
  eapply wp_lift; [done|]. unfold replica_start, replica_init. wp_step. apply wp_perform.
  apply wp_modify. split_and!; cbn; [done|done| | |].
  - apply container_ok_add; [done|]. split; cbn; [by eexists|]. by exists tv.
  - unfold tags. rewrite all_replicas_add. cbn. f_equiv. exact Hts.
  - rewrite live_add. case_decide; [done|lia].
Qed.

Lemma wp_start_many env T N k ts idx s :
  acc T N ts k (Z.of_nat (length idx)) [] s → target_ok T →
  (idx = [] ∨ ts_num_replicas T ≠ 0) →
  wp (st_for idx (start_new_replica env))
    (λ _ s', ∃ ts', ts' ≡ₚ started_tags env N idx ++ ts ∧ acc T N ts' k 0 [] s') s.
Proof.
  intros Hacc HT Hnz. revert ts s Hacc. induction idx as [|i idx IH]; intros ts s Hacc; cbn [st_for].
  - wp_step. by exists ts.
  - destruct Hnz as [|Hnz]; [done|]. wp_step. eapply wp_mono.
    + apply (wp_start_new env T N ts k (Z.of_nat (length idx))); [|done|done].
      eapply acc_weaken; [exact Hacc|]. cbn [length]. lia.
    + cbv beta. intros _ s' Hs'. eapply wp_mono; [apply IH; [by right|exact Hs']|].
      cbv beta. intros _ s'' (ts' & Hp & Hs''). exists ts'. split; [|done].
      rewrite Hp. cbn. solve_Permutation.
Qed.

Lemma acc_perm T N ts ts' k m rest s : acc T N ts k m rest s → ts ≡ₚ ts' → acc T N ts' k m rest s.
Proof. intros (? & ? & ? & Hts & ?) Hp. split_and!; try done. by rewrite Hts. Qed.

Lemma wp_stop_many env graceful T N ts k rs s :
  acc T N ts k 0 rs s → Forall (λ r, is_Some (r_start_time r)) rs →
  wp (st_for rs (stop_replica env graceful)) (λ _, acc T N ts k 0 []) s.
Proof.
  intros Hacc Hall. apply (wp_for (λ rest s, acc T N ts k 0 rest s)); [done| |done].
  intros r rest s1 Hr Hs1. rewrite Forall_forall in Hall.
  eapply wp_stop_replica; [exact Hs1|by apply Hall|done].
Qed.

Lemma wp_scale env T N ts k s :
  acc T N ts k 0 [] s → target_ok T →
  wp (_scale_deployment_replicas crc32 serialize env) (λ _,
    acc T N (started_tags env N (seq 0 (Z.to_nat (ts_num_replicas T - Z.of_nat (length ts)))) ++ ts)
      (ts_num_replicas T) 0 []) s.
Proof.
  intros Hacc HT. pose proof Hacc as (HTs & _). unfold _scale_deployment_replicas.
  wp_step. wp_step. rewrite HTs. wp_step.
  eapply wp_lift; [by rewrite (proj2 (Z.leb_le _ _) (proj1 HT))|].
  wp_step. eapply wp_mono; [by eapply wp_stop_wrong_version|]. cbv beta. intros b s1 [Hs1 _].
  pose proof (acc_total _ _ _ _ _ Hs1) as Htot.
  pose proof (live_counts (ds_replicas s1)) as Hlive. destruct Hs1 as (H1 & H2 & H3 & H4 & H5).
  wp_step. apply wp_count_all. wp_step. apply wp_count_all.
  set (cur := Z.of_nat (length (rc_get_all (ds_replicas s1) [STARTING; UPDATING; RUNNING]))) in *.
  set (rec := Z.of_nat (length (rc_get_all (ds_replicas s1) [RECOVERING]))) in *.
  assert (acc T N ts (live (ds_replicas s1)) 0 [] s1) as Hacc1 by (split_and!; done || lia).
  destruct (Z.eqb_spec (ts_num_replicas T - cur - rec) 0) as [Hd|Hd].
  - wp_step. rewrite Z2Nat.nonpos by lia. eapply acc_weaken; [exact Hacc1|lia].
  - destruct (Z.ltb_spec 0 (ts_num_replicas T - cur - rec)) as [Hpos|Hneg].
    + wp_step. apply wp_count_all.
      set (st := Z.of_nat (length (rc_get_all (ds_replicas s1) [STOPPING]))) in *.
      replace (Z.to_nat (ts_num_replicas T - Z.of_nat (length ts)))
        with (Z.to_nat (Z.max (ts_num_replicas T - cur - rec - st) 0)) by lia.
      wp_step. eapply wp_mono.
      * eapply (wp_start_many env T N (ts_num_replicas T)); [|done|right; lia].
        rewrite length_seq. eapply acc_weaken; [exact Hacc1|]. lia.
      * cbv beta. intros _ s2 (ts' & Hp & Hs2). wp_step. by eapply acc_perm.
    + rewrite (Z2Nat.nonpos (ts_num_replicas T - Z.of_nat (length ts))) by lia.
      wp_step. apply wp_pop. intros popped c' Hp.
      eapply rc_pop_length in Hp as Hlen;
        [|apply rank_perm|apply (bool_decide_unpack _); vm_compute; exact I|lia].
      eapply (acc_pop_live T N ts _) in Hp as (Hacc2 & Hok & _);
        [|exact Hacc1|apply rank_perm|by instantiate (1 := [])].
      destruct Hlen as [_ Hlen]. specialize (Hlen eq_refl). unfold live, LIVE in Hlive.
      wp_step. eapply wp_mono;
        [apply (wp_stop_many env true T N ts (ts_num_replicas T))|].
      * eapply acc_weaken; [exact Hacc2|]. unfold live, LIVE in *.
        destruct HT as [Hnn _]. lia.
      * eapply Forall_impl; [exact Hok|]. cbn. intros r (st & _ & Hst & _). exact Hst.
      * cbv beta. intros _ s2 Hs2. by wp_step.
Qed.

(** ** Checking replicas *)

Lemma wp_health_check_one env b r T N ts k m rest s :
  acc T N ts k (m + 1) (r :: rest) s → replica_ok RUNNING r →
  wp (health_check_one env b r) (λ _, acc T N ts k m rest) s.
Proof.
  intros Hacc [Hst Hok]. unfold health_check_one, check_health.
  destruct (actor_check_health _ _ _) as [[a healthy] acts].
  wp_step. apply wp_perform. destruct healthy.
  - wp_step. apply wp_modify. wp_step.
    eapply acc_add; [by eapply acc_frame; [exact Hacc|..]| |done]. by split.
  - wp_step. eapply (wp_stop_replica _ _ _ T N ts k (m + 1) rest); [|done|].
    { destruct Hacc as (? & ? & ? & ? & ?). by split_and!. }
    intros s' Hs'. wp_step. wp_step. wp_step.
    destruct (opt_version_eqb _ _); repeat wp_step;
      (eapply acc_weaken; [by eapply acc_frame; [exact Hs'|..]|lia]).
Qed.

Lemma wp_health_check_loop env b rs T N ts k s :
  acc T N ts k (Z.of_nat (length rs)) rs s → Forall (replica_ok RUNNING) rs →
  wp (health_check_loop env b rs) (λ _, acc T N ts k 0 []) s.
Proof.
  revert b s. induction rs as [|r rs IH]; intros b s Hacc Hok; cbn [health_check_loop];
    [by wp_step|].
  inversion_clear Hok. wp_step. eapply wp_mono.
  - apply (wp_health_check_one env b r T N ts k (Z.of_nat (length rs)) rs); [|done].
    eapply acc_weaken; [exact Hacc|]. cbn [length]. lia.
  - cbv beta. intros b' s' Hs'. by apply IH.
Qed.

(** What a startup check leaves alone, and that a replica that comes up knows
    its version. *)
Lemma check_started_ok env o st r r' status :
  env_ok env → o = env_ready env (r_tag r) →
  check_started o r = (r', status) → st ∈ [STARTING; UPDATING; RECOVERING] → replica_ok st r →
  r_tag r' = r_tag r ∧ r_start_time r' = r_start_time r ∧
  match status with
  | SUCCEEDED => replica_ok RUNNING r'
  | FAILED => True
  | _ => replica_ok st r'
  end.
Proof.
  intros Henv -> Hc Hst [Hstart Hok]. unfold check_started, check_ready in Hc.
  destruct (ro_allocated _); [|cbn in Hc; simplify_eq; by split_and!].
  destruct (ro_ready _); [|cbn in Hc; simplify_eq; by split_and!].
  destruct (a_is_cross_language (r_actor r)) eqn:Hx; cbn in Hc.
  - simplify_eq. split_and!; [done|done|]. split; [done|]. unfold version_ok in *. cbn.
    destruct st; [done|done|by destruct Hok|done|].
    apply (bool_decide_pack _) in Hst. by vm_compute in Hst.
  - destruct (ro_result _) as [[c v]|] eqn:Hres; [|by simplify_eq].
    destruct (ro_node _); simplify_eq; [|done]. split_and!; [done|done|].
    split; [done|]. exists v. split; [done|]. by eapply Henv.
Qed.

(** The pending branch of the startup check. *)
Lemma wp_check_pending env st slow slow_rs trans status r T N ts k m rest s :
  acc T N ts k (m + 1) (r :: rest) s → replica_ok st r →
  wp (start_time ← st_lift (of_option TypeError (r_start_time r));
      let is_slow := Qltb SLOW_STARTUP_WARNING_S (env_slow_now env (r_tag r) - start_time)%Q in
      let slow_replicas := if is_slow then slow_rs ++ [status] else slow_rs in
      _ ← (if is_slow && slow then stop_replica env false r else add_replica st r);
      mret (slow_replicas, trans))
    (λ (_ : list ReplicaStartupStatus * bool), acc T N ts k m rest) s.
Proof.
  intros Hacc Hok. destruct (Hok) as ((t0 & Ht0) & _). rewrite Ht0.
  wp_step. eapply wp_lift; [done|]. cbv zeta. wp_step. destruct (_ && slow).
  - eapply wp_stop_replica; [exact Hacc|by eexists|].
    intros s2 Hs2. wp_step. eapply acc_weaken; [exact Hs2|lia].
  - apply wp_modify. wp_step. by eapply acc_add.
Qed.

Lemma wp_check_startup_one env st slow rs_acc r T N ts k m rest s :
  env_ok env → st ∈ [STARTING; UPDATING; RECOVERING] →
  acc T N ts k (m + 1) (r :: rest) s → replica_ok st r →
  wp (check_startup_one SLOW_STARTUP_WARNING_S env st slow rs_acc r) (λ _, acc T N ts k m rest) s.
Proof.
  intros Henv Hst Hacc Hok. unfold check_startup_one. destruct rs_acc as [slow_rs trans].
  destruct (check_started _ r) as [r' status] eqn:Hc.
  eapply check_started_ok in Hc as (Htag & Hstart & Hok'); [|done..].
  assert (is_Some (r_start_time r')) as Hs' by (rewrite Hstart; apply Hok).
  assert (acc T N ts k (m + 1) (r' :: rest) s) as Hacc'.
  { destruct Hacc as (? & ? & ? & Hts & ?). split_and!; try done. cbn in *. by rewrite Htag. }
  destruct status.
  - by apply wp_check_pending.
  - by apply wp_check_pending.
  - wp_step. apply wp_modify. wp_step. by eapply acc_add.
  - wp_step. wp_step. wp_step. eapply (wp_stop_replica _ _ _ T N ts k (m + 1) rest); [|done|].
    + case_match; [|done]. by eapply acc_frame; [exact Hacc'|..].
    + intros s2 Hs2. wp_step. eapply acc_weaken; [exact Hs2|lia].
Qed.

Lemma wp_check_startup_loop env st slow rs_acc rs T N ts k s :
  env_ok env → st ∈ [STARTING; UPDATING; RECOVERING] →
  acc T N ts k (Z.of_nat (length rs)) rs s → Forall (replica_ok st) rs →
  wp (check_startup_loop SLOW_STARTUP_WARNING_S env st slow rs_acc rs) (λ _, acc T N ts k 0 []) s.
Proof.
  intros Henv Hst. revert rs_acc s. induction rs as [|r rs IH]; intros rs_acc s Hacc Hok;
    cbn [check_startup_loop]; [by wp_step|].
  inversion_clear Hok. wp_step. eapply wp_mono.
  - apply (wp_check_startup_one env st slow rs_acc r T N ts k (Z.of_nat (length rs)) rs);
      [done|done| |done].
    eapply acc_weaken; [exact Hacc|]. cbn [length]. lia.
  - cbv beta. intros rs_acc' s' Hs'. by apply IH.
Qed.

Lemma acc_pop_state T N ts k st s :
  acc T N ts k 0 [] s → st ∈ LIVE →
  acc T N ts k (Z.of_nat (length (rc_get (ds_replicas s) st))) (rc_get (ds_replicas s) st)
    (set_replicas (rc_set st [] (ds_replicas s)) s).
Proof.
  intros Hacc Hst. apply list_elem_of_split in Hst as (l1 & l2 & Hst).
  eapply (acc_pop_live T N ts k None None id [st] (l1 ++ l2)); [done|done| |apply rc_pop_state].
  rewrite Hst. solve_Permutation.
Qed.

Lemma wp_check_startup env st slow T N ts k s :
  env_ok env → st ∈ [STARTING; UPDATING; RECOVERING] → acc T N ts k 0 [] s →
  wp (_check_startup_replicas SLOW_STARTUP_WARNING_S env st slow) (λ _, acc T N ts k 0 []) s.
Proof.
  intros Henv Hst Hacc. unfold _check_startup_replicas. wp_step. apply wp_pop.
  intros popped c'. rewrite rc_pop_state. intros ?; simplify_eq.
  apply wp_check_startup_loop; [done|done| |apply Hacc]. apply acc_pop_state; [done|].
  unfold LIVE. set_solver.
Qed.

Lemma wp_warn_slow env slow T N ts k s :
  acc T N ts k 0 [] s →
  wp (warn_slow_replicas SLOW_STARTUP_WARNING_PERIOD_S env slow) (λ _, acc T N ts k 0 []) s.
Proof.
  intros Hacc. unfold warn_slow_replicas, report_slow. wp_step. wp_step. case_match; [|by wp_step].
  wp_step. case_match; repeat wp_step; case_match; repeat wp_step;
    repeat case_match; by eapply acc_frame; [exact Hacc|..].
Qed.

(** ** Stopping replicas

    A stopping replica was asked to shut down, or its actor was not found when this update
    stopped it. *)
Definition asked (r : DeploymentReplica) : Prop := a_graceful_shutdown_ref (r_actor r) = true.
Definition asked_or_missing (env : update_env) (r : DeploymentReplica) : Prop :=
  asked r ∨ env_stop_exists env (r_tag r) = false.
Definition all_asked (env : update_env) (s : DeploymentState) : Prop :=
  Forall (asked_or_missing env) (rc_stopping (ds_replicas s)).

(** The cluster answers about stopping replicas as it documents ([ray.get_actor] raises
    nothing but the [ValueError] of a missing actor), and an actor that this update did not
    find to stop is not found later in the update. *)
Definition stops_consistent (env : update_env) : Prop :=
  ∀ tag, so_lookup_error (env_stopped env tag) = None ∧
    (env_stop_exists env tag = false → so_exists (env_stopped env tag) = false).

(** What the check of a stopping replica reports when the replica is gone: its actor is
    not found, or it was asked to shut down and has. *)
Definition reported_gone (env : update_env) (tag : ReplicaTag) : Prop :=
  so_lookup_error (env_stopped env tag) = None ∧
  (so_exists (env_stopped env tag) = false ∨
   so_ready (env_stopped env tag) = true ∧ env_stop_exists env tag = true).

(** The operations of an update keep [all_asked]. *)
Definition keeps_asked {A} (env : update_env) (m : ST DeploymentState A) : Prop :=
  ∀ s, all_asked env s → all_asked env (m s).1.

Section keeps.
Context (env : update_env).

Lemma asked_bind {A B} (m : ST DeploymentState A) (k : A → ST DeploymentState B) :
  keeps_asked env m → (∀ a, keeps_asked env (k a)) → keeps_asked env (m ≫= k).
Proof.
  intros Hm Hk s Hs. unfold mbind, st_bind. specialize (Hm s Hs).
  destruct (m s) as [s1 [a|e]]; cbn in *; [by apply Hk|done].
Qed.

Lemma asked_same {A} (m : ST DeploymentState A) :
  (∀ s, rc_stopping (ds_replicas (m s).1) = rc_stopping (ds_replicas s)) → keeps_asked env m.
Proof. intros Hm s Hs. unfold all_asked. by rewrite Hm. Qed.

Lemma asked_for {A} (l : list A) k : (∀ a, keeps_asked env (k a)) → keeps_asked env (st_for l k).
Proof. intros Hk. induction l as [|a l IH]; cbn; [by intros s|by apply asked_bind]. Qed.

Lemma asked_add st r : st ≠ STOPPING → keeps_asked env (add_replica st r).
Proof. intros Hst. apply asked_same. intros s. cbn. by destruct st. Qed.

Lemma asked_stop graceful r : keeps_asked env (stop_replica env graceful r).
Proof.
  intros s Hs. unfold stop_replica, replica_stop, perform, add_replica. cbn.
  apply Forall_app. split; [done|]. constructor; [|done]. unfold asked_or_missing, asked. cbn.
  destruct (env_stop_exists env (r_tag r)); [by left|by right].
Qed.

Lemma asked_pop ev mx ranking states : (∀ l, ranking l ≡ₚ l) →
  keeps_asked env (pop_replicas ev mx ranking states).
Proof.
  intros Hr s Hs. unfold pop_replicas. destruct (rc_pop _ _ _ _ _ _) as [popped c'] eqn:Hp.
  unfold all_asked in *. cbn. rewrite Forall_forall in *. intros r Hin. apply Hs.
  by apply (rc_pop_sub _ _ _ Hr _ _ _ _ _ STOPPING r Hp).
Qed.
End keeps.

Create HintDb asked.
#[local] Hint Resolve asked_stop asked_pop : asked.

Ltac keeps_asked :=
  repeat (cbv zeta; intros;
    lazymatch goal with
    | |- keeps_asked _ (mbind _ _) => apply asked_bind
    | |- keeps_asked _ (st_for _ _) => apply asked_for
    | |- keeps_asked _ (add_replica _ _) => apply asked_add; done
    | |- keeps_asked _ (mret _) => by apply asked_same
    | |- keeps_asked _ st_get => by apply asked_same
    | |- keeps_asked _ (st_lift _) => by apply asked_same
    | |- keeps_asked _ (st_raise _) => by apply asked_same
    | |- keeps_asked _ (perform _) => by apply asked_same
    | |- keeps_asked _ (st_modify _) => apply asked_same; intros ?; cbn; unfold report_slow; repeat case_match; done
    | |- keeps_asked _ (match ?x with _ => _ end) => destruct x
    | |- keeps_asked _ ?m =>
        first [solve [auto using Permutation_refl, rank_perm with asked]
              | let h := head_of m in unfold h]
    end).

Lemma keeps_health_check_loop env b rs : keeps_asked env (health_check_loop env b rs).
Proof.
  revert b. induction rs as [|r rs IH]; intros b; cbn [health_check_loop]; [by apply asked_same|].
  apply asked_bind; [|done]. keeps_asked.
Qed.

Lemma keeps_check_startup env st slow : st ≠ STOPPING →
  keeps_asked env (_check_startup_replicas SLOW_STARTUP_WARNING_S env st slow).
Proof.
  intros Hst. unfold _check_startup_replicas. apply asked_bind; [by apply asked_pop|].
  intros rs. generalize (@nil ReplicaStartupStatus, false).
  induction rs as [|r rs IH]; intros c; cbn [check_startup_loop]; [by apply asked_same|].
  apply asked_bind; [|done]. keeps_asked.
Qed.

#[local] Hint Resolve keeps_health_check_loop : asked.
#[local] Hint Extern 1 (keeps_asked _ (_check_startup_replicas _ _ _ _)) =>
  apply keeps_check_startup; discriminate : asked.

Lemma keeps_scale env : keeps_asked env (_scale_deployment_replicas crc32 serialize env).
Proof.
  assert (∀ b rs, keeps_asked env (update_replicas crc32 serialize env b rs)) as Hup.
  { intros b rs. revert b. induction rs as [|r rs IH]; intros b; cbn [update_replicas];
      [by apply asked_same|]. apply asked_bind; [|done]. keeps_asked. }
  keeps_asked.
Qed.

(** The check of the stopping replicas, when the cluster answers consistently: those that
    stay were asked to shut down. *)
Lemma wp_check_stopped_loop env rs T N ts k s :
  stops_consistent env → acc T N ts k 0 rs s → Forall (replica_ok STOPPING) rs →
  Forall (asked_or_missing env) rs → Forall asked (rc_stopping (ds_replicas s)) →
  wp (st_for rs (check_stopped_one env))
    (λ _ s', ∃ gone ts', gone ++ ts' ≡ₚ ts ∧ Forall (reported_gone env) gone ∧
       acc T N ts' k 0 [] s' ∧ Forall asked (rc_stopping (ds_replicas s'))) s.
Proof.
  intros Hcons. revert ts s. induction rs as [|r rs IH]; intros ts s Hacc Hok Hask Hs; cbn [st_for].
  { wp_step. by exists [], ts. }
  inversion_clear Hok as [|?? Hr Hrs]. apply Forall_cons in Hask as [Hra Hask].
  destruct (Hr) as [Hst [d Hd]]. destruct (Hcons (r_tag r)) as [Herr Hmiss].
  wp_step. unfold check_stopped_one. wp_step.
  assert (∀ acts, reported_gone env (r_tag r) →
    wp (st_for rs (check_stopped_one env)) (λ _ s', ∃ gone ts', gone ++ ts' ≡ₚ ts ∧
      Forall (reported_gone env) gone ∧ acc T N ts' k 0 [] s' ∧
      Forall asked (rc_stopping (ds_replicas s'))) (emit acts s)) as Hgone.
  { intros acts Hg. destruct Hacc as (H1 & H2 & H3 & H4 & H5).
    eapply wp_mono; [apply (IH (tags rs ++ tags (all_replicas (ds_replicas s))));
      [by split_and!|exact Hrs|exact Hask|exact Hs]|].
    cbv beta. intros _ s' (gone & ts' & Hp & Hall & Hs'). exists (r_tag r :: gone), ts'.
    split_and!; [|by constructor|apply Hs'..]. rewrite <- H4. cbn. by rewrite Hp. }
  unfold check_stopped. rewrite Herr. destruct (so_exists _) eqn:Hex; cbn.
  2: { eapply wp_lift; [done|]. cbv iota beta. wp_step. apply wp_perform. wp_step. apply Hgone.
       split; [done|by left]. }
  assert (env_stop_exists env (r_tag r) = true) as Hse
    by (destruct (env_stop_exists env (r_tag r)); [done|]; specialize (Hmiss eq_refl); congruence).
  destruct Hra as [Hra|Hra]; [|congruence]. rewrite Hra. cbn.
  destruct (so_ready _) eqn:Hrd.
  { eapply wp_lift; [done|]. cbv iota beta. wp_step. apply wp_perform. wp_step. apply Hgone.
    split; [done|by right]. }
  rewrite Hd. cbn. eapply wp_lift; [done|]. cbv iota beta. wp_step. apply wp_perform. apply wp_modify.
  apply IH; [|done|done|].
  - eapply acc_add_stopping; [by eapply acc_frame; [exact Hacc|..]|done|done].
  - cbn. apply Forall_app. split; [done|by constructor].
Qed.

(** Whatever the cluster answers, also when the check raises, it adds no replica and leaves
    the live ones alone. *)
Lemma check_stopped_loop_any env rs s s' r :
  st_for rs (check_stopped_one env) s = (s', r) →
  live (ds_replicas s') = live (ds_replicas s) ∧
  (length (all_replicas (ds_replicas s')) ≤ length rs + length (all_replicas (ds_replicas s)))%nat.
Proof.
  revert s. induction rs as [|x rs IH]; intros s; cbn [st_for].
  { unfold mret, st_ret. intros ?. simplify_eq. split; [done|lia]. }
  unfold mbind at 1, st_bind at 1. destruct (check_stopped_one env x s) as [s1 r1] eqn:Hone.
  assert (live (ds_replicas s1) = live (ds_replicas s) ∧
    (length (all_replicas (ds_replicas s1)) ≤ 1 + length (all_replicas (ds_replicas s)))%nat) as [Hl Hn].
  { unfold check_stopped_one, mbind, st_bind, st_lift in Hone.
    destruct (check_stopped _ _) as [[stopped acts]|e]; [|simplify_eq; split; [done|lia]].
    unfold perform, st_modify in Hone. cbn in Hone.
    destruct stopped; unfold mret, st_ret, add_replica, st_modify in Hone; simplify_eq; cbn;
      [split; [done|lia]|].
    rewrite live_add, all_replicas_add. case_decide; [split; [lia|cbn; lia]|done]. }
  destruct r1 as [[]|e]; [|intros ?; simplify_eq; cbn; split; [done|lia]].
  intros Hr. apply IH in Hr as [Hl' Hn']. cbn. split; [congruence|lia].
Qed.

(** ** The check phase of an update *)

(** Everything before the check of the stopping replicas. *)
Lemma wp_check_live env T N ts k s :
  env_ok env → acc T N ts k 0 [] s → all_asked env s →
  wp (check_live_replicas SLOW_STARTUP_WARNING_S SLOW_STARTUP_WARNING_PERIOD_S env)
    (λ _ s', acc T N ts k 0 [] s' ∧ all_asked env s') s.
Proof.
  intros Henv Hacc Hask.
  assert (keeps_asked env (check_live_replicas SLOW_STARTUP_WARNING_S SLOW_STARTUP_WARNING_PERIOD_S env))
    as Hkeep.
  { keeps_asked. }
  apply wp_and; [|intros s' b Hr; specialize (Hkeep s Hask); by rewrite Hr in Hkeep].
  unfold check_live_replicas.
  wp_step. apply wp_pop. intros popped c'. rewrite rc_pop_state. intros ?; simplify_eq.
  wp_step. eapply wp_mono.
  { eapply wp_health_check_loop; [apply acc_pop_state; [exact Hacc|set_solver]|apply Hacc]. }
  cbv beta. intros b1 s1 H1. wp_step. eapply wp_mono; [by eapply wp_check_startup; [|set_solver|]|].
  cbv beta. intros [l2 b2] s2 H2. wp_step.
  eapply wp_mono; [by eapply wp_check_startup; [|set_solver|]|].
  cbv beta. intros [l3 b3] s3 H3. wp_step.
  eapply wp_mono; [by eapply wp_check_startup; [|set_solver|]|].
  cbv beta. intros [l4 b4] s4 H4. wp_step. eapply wp_mono; [by eapply wp_warn_slow|].
  cbv beta. intros _ s5 H5. by wp_step.
Qed.

(** The stopping replicas popped. *)
Lemma acc_pop_stopping T N ts k s :
  acc T N ts k 0 [] s →
  acc T N ts k 0 (rc_stopping (ds_replicas s)) (set_replicas (rc_set STOPPING [] (ds_replicas s)) s).
Proof.
  intros (? & ? & Hc & Hts & Hk). split_and!; cbn; [done|done| | |exact Hk].
  - eapply container_ok_sub; [exact Hc|]. intros st r. rewrite rc_get_set. by case_decide; set_solver.
  - cbn in Hts. rewrite <- Hts, !all_replicas_live. unfold tags. cbn.
    rewrite !fmap_app. cbn. rewrite app_nil_r, Permutation_app_comm. done.
Qed.

Lemma wp_check_and_update env T N ts k s :
  env_ok env → stops_consistent env → acc T N ts k 0 [] s → all_asked env s →
  wp (_check_and_update_replicas SLOW_STARTUP_WARNING_S SLOW_STARTUP_WARNING_PERIOD_S env)
    (λ _ s', ∃ gone ts', gone ++ ts' ≡ₚ ts ∧ Forall (reported_gone env) gone ∧
       acc T N ts' k 0 [] s' ∧ Forall asked (rc_stopping (ds_replicas s'))) s.
Proof.
  intros Henv Hcons Hacc Hask. unfold _check_and_update_replicas.
  wp_step. eapply wp_mono; [by apply wp_check_live|]. cbv beta. intros b s5 [H5 Hask5].
  wp_step. apply wp_pop. intros popped c'. rewrite rc_pop_state.
  intros ?; simplify_eq. wp_step. eapply wp_mono.
  { eapply (wp_check_stopped_loop env _ T N ts k); [done|by apply acc_pop_stopping|apply H5|done|].
    cbn. constructor. }
  cbv beta. intros _ s6 H6. by wp_step.
Qed.

(** Whatever the cluster answers, the check phase, which may raise, keeps the number of
    live replicas below [k] and adds no replica. *)
Lemma check_phase_any env T N ts k s s' r :
  env_ok env → acc T N ts k 0 [] s → all_asked env s →
  _check_and_update_replicas SLOW_STARTUP_WARNING_S SLOW_STARTUP_WARNING_PERIOD_S env s = (s', r) →
  live (ds_replicas s') <= k ∧ (length (all_replicas (ds_replicas s')) ≤ length ts)%nat.
Proof.
  intros Henv Hacc Hask. unfold _check_and_update_replicas.
  destruct (wp_check_live env T N ts k s Henv Hacc Hask) as (s5 & b & Hrun & H5 & _).
  unfold mbind at 1, st_bind at 1. rewrite Hrun.
  unfold mbind at 1, st_bind at 1, pop_replicas. rewrite rc_pop_state.
  apply acc_pop_stopping in H5 as (_ & _ & _ & Hts & Hk). set (s6 := set_replicas _ _) in *.
  apply Permutation_length in Hts. rewrite length_app in Hts. unfold tags in Hts.
  rewrite !length_fmap in Hts. cbn [rc_get].
  unfold mbind, st_bind. destruct (st_for _ _ s6) as [s7 r7] eqn:Hloop.
  apply check_stopped_loop_any in Hloop as [Hl Hn]. intros Hend.
  assert (s' = s7) as -> by (destruct r7; unfold mret, st_ret in Hend; by simplify_eq). lia.
Qed.

(** ** The status *)

Lemma wp_check_status (Q : bool → DeploymentState → Prop) s :
  (∀ s' b, _check_curr_status s = (s', Ok b) → Q b s') → wp _check_curr_status Q s.
Proof.
  intros HQ. destruct (_check_curr_status s) as [s' [b|e]] eqn:Hc; [by exists s', b; auto|].
  exfalso. unfold _check_curr_status, check_pending_ops, count_replicas in Hc.
  unfold mbind, st_bind, st_get, st_lift, st_modify, mret, st_ret, rc_count in Hc.
  destruct (ts_version (ds_target s)); cbn in Hc; repeat case_match; simplify_eq.
Qed.

Lemma check_status_spec s s' b :
  _check_curr_status s = (s', Ok b) →
  ds_replicas s' = ds_replicas s ∧ ds_target s' = ds_target s ∧ ds_name s' = ds_name s ∧
  (b = true → ts_deleting (ds_target s) = true ∧ all_replicas (ds_replicas s) = []) ∧
  (status (ds_status s') = ST_HEALTHY → status (ds_status s) ≠ ST_HEALTHY →
   rc_get_all (ds_replicas s) [STARTING; UPDATING; RECOVERING; STOPPING] = [] ∧
   rc_count None (ts_version (ds_target s)) [RUNNING] (ds_replicas s) =
     Ok (ts_num_replicas (ds_target s))).
Proof.
  assert (∀ l, Z.of_nat (length l) = 0 → l = ([] : list DeploymentReplica)) as Hnil
    by (intros [|]; cbn; [done|lia]).
  assert (rc_get_all (ds_replicas s) [STARTING; UPDATING; RECOVERING; STOPPING] = [] →
          rc_get_all (ds_replicas s) [RUNNING] = [] → all_replicas (ds_replicas s) = []) as Hall.
  { unfold all_replicas, rc_get_all. cbn. rewrite !app_nil_r. intros Hx Hy. rewrite Hy. exact Hx. }
  unfold _check_curr_status, check_pending_ops, count_replicas. intros H. inv_st.
  repeat case_match; inv_st; repeat case_match; inv_st;
    repeat match goal with
    | H : (_ && _) = true |- _ => apply andb_true_iff in H as [? ?]
    | H : (_ =? _) = true |- _ => apply Z.eqb_eq in H
    end; split_and!; try done; intros; try congruence; try (split; [done|]); eauto.
  all: try (apply Hall; apply Hnil; done). all: try (split; [by apply Hnil|congruence]).
Qed.

(** ** The update cycle *)

(** Every stopping replica was asked to shut down. *)
Definition deployment_ok (s : DeploymentState) : Prop :=
  container_ok (ds_replicas s) ∧ target_ok (ds_target s) ∧
  Forall asked (rc_stopping (ds_replicas s)).

Definition replica_tags (s : DeploymentState) : list ReplicaTag :=
  tags (all_replicas (ds_replicas s)).

(** How many replicas an update starts: as many as are missing, counting the
    stopping ones as present. *)
Definition num_to_start (s : DeploymentState) : nat :=
  Z.to_nat (ts_num_replicas (ds_target s) - Z.of_nat (length (all_replicas (ds_replicas s)))).

Abbreviation body env :=
  (update_body crc32 serialize SLOW_STARTUP_WARNING_S SLOW_STARTUP_WARNING_PERIOD_S env).
Abbreviation upd env :=
  (update crc32 serialize SLOW_STARTUP_WARNING_S SLOW_STARTUP_WARNING_PERIOD_S env).

Lemma acc_start s : deployment_ok s →
  acc (ds_target s) (ds_name s) (replica_tags s) (live (ds_replicas s)) 0 [] s.
Proof. intros (Hc & Ht & _). split_and!; done || lia. Qed.

Lemma asked_start env s : deployment_ok s → all_asked env s.
Proof. intros (_ & _ & Ha). eapply Forall_impl; [exact Ha|]. by left. Qed.

Definition update_post (env : update_env) (s s' : DeploymentState) : Prop :=
  deployment_ok s' ∧ ds_target s' = ds_target s ∧
  live (ds_replicas s') <= ts_num_replicas (ds_target s) ∧
  ∃ gone, Forall (reported_gone env) gone ∧
    gone ++ replica_tags s' ≡ₚ
    started_tags env (ds_name s) (seq 0 (num_to_start s)) ++ replica_tags s.

Lemma wp_scale_asked env T N ts k s :
  acc T N ts k 0 [] s → all_asked env s → target_ok T →
  wp (_scale_deployment_replicas crc32 serialize env) (λ _ s',
    acc T N (started_tags env N (seq 0 (Z.to_nat (ts_num_replicas T - Z.of_nat (length ts)))) ++ ts)
      (ts_num_replicas T) 0 [] s' ∧ all_asked env s') s.
Proof.
  intros Hacc Hask HT. apply wp_and; [by eapply wp_scale|].
  intros s' b Hr. pose proof (keeps_scale env s Hask) as Hk. by rewrite Hr in Hk.
Qed.

Lemma wp_update_body env s :
  deployment_ok s → env_ok env → stops_consistent env →
  wp (body env) (λ _, update_post env s) s.
Proof.
  intros Hok Henv Hcons. destruct (Hok) as (_ & HT & _). unfold update_body.
  wp_step. eapply wp_mono; [eapply wp_scale_asked; [by apply acc_start|by apply asked_start|done]|].
  cbv beta. intros b1 s1 [H1 Hask1].
  wp_step. eapply wp_mono; [by eapply wp_check_and_update|]. cbv beta.
  intros b2 s2 (gone & ts' & Hp & Hgone & H2 & Hask2). wp_step.
  set (ts0 := started_tags _ _ _ ++ _) in *.
  assert (∀ s3, acc (ds_target s) (ds_name s) ts' (ts_num_replicas (ds_target s)) 0 [] s3 →
    Forall asked (rc_stopping (ds_replicas s3)) →
    wp _check_curr_status (λ _, update_post env s) s3) as Hfin.
  { intros s3 (E1 & E2 & E3 & E4 & E5) E6. apply wp_check_status. intros s4 b4 Hc.
    apply check_status_spec in Hc as (F1 & F2 & _). unfold update_post, deployment_ok, replica_tags at 1.
    rewrite F1, F2, E1. split_and!; [done|done|done|done|lia|]. exists gone. split; [done|].
    cbn in E4. rewrite E4, Hp. unfold ts0, num_to_start, replica_tags, tags.
    by rewrite length_fmap. }
  unfold _notify_running_replicas_changed.
  destruct (b1 || b2); repeat wp_step; apply Hfin; try done.
Qed.

Lemma update_of_body env s s' d : body env s = (s', Ok d) → upd env s = (s', d).
Proof. unfold update. by intros ->. Qed.



(** The status check changes no replica, and raises nothing. *)
Lemma update_replicas_of_check env s s1 b1 s2 r :
  _scale_deployment_replicas crc32 serialize env s = (s1, Ok b1) →
  _check_and_update_replicas SLOW_STARTUP_WARNING_S SLOW_STARTUP_WARNING_PERIOD_S env s1 = (s2, r) →
  ds_replicas (upd env s).1 = ds_replicas s2.
Proof.
  intros Hs Hc. unfold update, update_body, mbind, st_bind. rewrite Hs, Hc.
  destruct r as [b2|e]; [|done]. unfold _notify_running_replicas_changed.
  set (m := if b1 || b2 then _ else _).
  assert (∃ s3, m s2 = (s3, Ok tt) ∧ ds_replicas s3 = ds_replicas s2) as (s3 & -> & Hs3)
    by (unfold m; destruct (b1 || b2); by eexists).
  destruct (wp_check_status (λ _ s', ds_replicas s' = ds_replicas s3) s3) as (s4 & d & -> & Hs4).
  { intros s' b Hr. by apply check_status_spec in Hr as [? _]. }
  cbn. congruence.
Qed.

(** C8: after an update there are never more live (not stopping) replicas than
    the target asks for, and never more replicas in all than the larger of the
    target and what there was before; also when the check of the stopping replicas
    raises. *)
Theorem update_never_exceeds_target env s :
  deployment_ok s → env_ok env →
  live (ds_replicas (upd env s).1) <= ts_num_replicas (ds_target s) ∧
  Z.of_nat (length (replica_tags (upd env s).1)) <=
    Z.max (ts_num_replicas (ds_target s)) (Z.of_nat (length (replica_tags s))).
Proof.
  intros Hok Henv.
  destruct (wp_scale_asked env _ _ _ _ s (acc_start s Hok) (asked_start env s Hok) (proj1 (proj2 Hok)))
    as (s1 & b1 & Hs & Hacc & Hask).
  destruct (_check_and_update_replicas SLOW_STARTUP_WARNING_S SLOW_STARTUP_WARNING_PERIOD_S env s1)
    as [s2 r] eqn:Hc.
  destruct (check_phase_any _ _ _ _ _ _ _ _ Henv Hacc Hask Hc) as [Hl Hn].
  unfold replica_tags at 1. rewrite (update_replicas_of_check _ _ _ _ _ _ Hs Hc). split; [done|].
  rewrite length_app in Hn. unfold started_tags, tags, replica_tags in *.
  rewrite !length_fmap, length_seq in Hn. rewrite !length_fmap. lia.
Qed.

(** C9: a rolling update keeps the deployment available: among the replicas
    that run the target version or have not yet left an older one, it takes out
    of service only so many that at least [target - max(20% of target, 1)]
    remain (or all of them, when there were fewer to begin with). *)
Theorem rolling_update_keeps_available env s v :
  deployment_ok s → ts_version (ds_target s) = Some v →
  ∃ s' b, _stop_wrong_version_replicas crc32 serialize env s = (s', Ok b) ∧
    Z.min (available v (ds_replicas s))
      (ts_num_replicas (ds_target s) - rollout_size (ts_num_replicas (ds_target s)))
    <= available v (ds_replicas s').
Proof.
  intros Hok Hv.
  destruct (wp_stop_wrong_version env _ _ _ _ s (acc_start s Hok) (proj1 (proj2 Hok)))
    as (s' & b & Hrun & _ & Hav). exists s', b. split; [done|]. by apply Hav.
Qed.

(** ** Status and deletion *)

(** The last step of a normal update is the status check. *)
Lemma body_ends_in_status env s s' d :
  body env s = (s', Ok d) → ∃ s1, _check_curr_status s1 = (s', Ok d).
Proof. unfold update_body. intros H. inv_st. eauto. Qed.

(** [update] reports a deployment as deleted only when it was being deleted
    and holds no replica any more, in whatever state. *)
Theorem deleted_only_when_empty env s s' :
  upd env s = (s', true) →
  ts_deleting (ds_target s') = true ∧ replica_tags s' = [].
Proof.
  unfold update. destruct (body env s) as [s1 [d|e]] eqn:Hb; intros H; simplify_eq.
  apply body_ends_in_status in Hb as (s2 & Hc).
  apply check_status_spec in Hc as (E1 & E2 & _ & Hdel & _).
  destruct (Hdel eq_refl) as [H1 H2]. unfold replica_tags. by rewrite E1, E2, H2.
Qed.

(** The status becomes HEALTHY only when nothing is pending (starting,
    updating, recovering or stopping) and exactly the target number of replicas
    run the target version. *)
Theorem healthy_only_at_goal s s' b :
  _check_curr_status s = (s', Ok b) →
  status (ds_status s) ≠ ST_HEALTHY → status (ds_status s') = ST_HEALTHY →
  rc_get_all (ds_replicas s') [STARTING; UPDATING; RECOVERING; STOPPING] = [] ∧
  rc_count None (ts_version (ds_target s')) [RUNNING] (ds_replicas s') =
    Ok (ts_num_replicas (ds_target s')).
Proof.
  intros Hc Hne Hh. apply check_status_spec in Hc as (E1 & E2 & _ & _ & Hgoal).
  rewrite E1, E2. by apply Hgoal.
Qed.

(** The stopping replicas after the loop were stopping before or are not gone. *)
Lemma check_stopped_loop_keeps env rs s s' u :
  st_for rs (check_stopped_one env) s = (s', Ok u) →
  Forall (λ r, ¬ reported_gone env (r_tag r)) (rc_stopping (ds_replicas s)) →
  Forall (λ r, ¬ reported_gone env (r_tag r)) (rc_stopping (ds_replicas s')).
Proof.
  revert s. induction rs as [|r rs IH]; intros s; cbn [st_for]; intros H Hs; inv_st; [done|].
  match goal with H : st_for _ _ _ = _ |- _ => apply IH in H; [exact H|] end.
  match goal with H : check_stopped_one _ _ _ = _ |- _ => rename H into Hone end.
  unfold check_stopped_one, check_stopped, perform, add_replica in Hone. inv_st.
  destruct (so_lookup_error _) eqn:Herr; inv_st.
  destruct (so_exists _) eqn:Hex; cbn in *; inv_st; [|done].
  destruct (a_graceful_shutdown_ref _); cbn in *; inv_st.
  destruct (so_ready _) eqn:Hrd; inv_st; [done|].
  destruct (r_shutdown_deadline r); cbn in *; inv_st. unfold rc_add. cbn.
  apply Forall_app. split; [done|]. constructor; [|done].
  unfold reported_gone. rewrite Hex, Hrd. naive_solver.
Qed.

Lemma check_phase_stopping env s s' b :
  _check_and_update_replicas SLOW_STARTUP_WARNING_S SLOW_STARTUP_WARNING_PERIOD_S env s =
    (s', Ok b) →
  Forall (λ r, ¬ reported_gone env (r_tag r)) (rc_stopping (ds_replicas s')).
Proof.
  unfold _check_and_update_replicas. intros H. inv_st.
  repeat match goal with
  | p : (_ * _)%type |- _ => destruct p
  | H : mbind _ _ _ = (_, Ok _) |- _ => progress inv_st
  end.
  match goal with H : pop_replicas _ _ _ [STOPPING] _ = _ |- _ => rename H into Hpop end.
  unfold pop_replicas in Hpop. rewrite rc_pop_state in Hpop. inv_st.
  eapply check_stopped_loop_keeps; [done|]. cbn. constructor.
Qed.

Lemma body_split env s s' d :
  body env s = (s', Ok d) →
  ∃ s1, _check_curr_status s1 = (s', Ok d) ∧
    Forall (λ r, ¬ reported_gone env (r_tag r)) (rc_stopping (ds_replicas s1)).
Proof.
  unfold update_body, _notify_running_replicas_changed. intros H. inv_st.
  match goal with H : _check_and_update_replicas _ _ _ _ = _ |- _ =>
    apply check_phase_stopping in H end.
  eexists. split; [done|]. case_match; inv_st; done.
Qed.

Lemma rc_get_all_init l : rc_get_all container_init l = [].
Proof. unfold rc_get_all. induction l as [|[] l IH]; done. Qed.

(** An empty deployment that is being deleted is reported deleted. *)
Lemma status_of_empty s s' d :
  _check_curr_status s = (s', Ok d) → ts_deleting (ds_target s) = true →
  ts_num_replicas (ds_target s) = 0 → all_replicas (ds_replicas s) = [] → d = true.
Proof.
  intros Hc Hdel Hz Hnil.
  assert (ds_replicas s = container_init) as Hinit.
  { unfold all_replicas, rc_get_all in Hnil. destruct (ds_replicas s). cbn in Hnil.
    rewrite !app_nil in Hnil. destruct_and! Hnil. by subst. }
  unfold _check_curr_status, check_pending_ops, count_replicas in Hc.
  unfold mbind, st_bind, st_get, st_lift in Hc. rewrite Hz, Hinit in Hc.
  destruct (ts_version (ds_target s)); cbn in Hc; rewrite andb_false_r in Hc; cbn in Hc;
    rewrite Hinit, ?rc_get_all_init, Hdel in Hc; injection Hc; congruence.
Qed.

(** C10: deletion completes: once the cluster reports the actors of a deployment
    that is being deleted as gone, one update empties the deployment and reports
    it deleted. *)
Theorem delete_completes env s :
  deployment_ok s → env_ok env → ts_deleting (ds_target s) = true →
  ts_num_replicas (ds_target s) = 0 → (∀ tag, reported_gone env tag) →
  ∃ s', upd env s = (s', true) ∧ replica_tags s' = [].
Proof.
  intros Hok Henv Hdel Hzero Hgone.
  assert (stops_consistent env) as Hcons.
  { intros tag. destruct (Hgone tag) as [? [?|[? ?]]]; split; try done. congruence. }
  destruct (wp_update_body env s Hok Henv Hcons) as (s' & d & Hb & _ & HT & Hlive & _).
  destruct (body_split _ _ _ _ Hb) as (s1 & Hc & Hst).
  destruct (check_status_spec _ _ _ Hc) as (E1 & E2 & _).
  assert (all_replicas (ds_replicas s1) = []) as Hnil.
  { rewrite all_replicas_live. rewrite E1, Hzero in Hlive. unfold live in Hlive.
    destruct (rc_get_all _ LIVE); cbn in Hlive; [|lia].
    destruct Hst as [|r ? Hr]; [done|]. by destruct (Hr (Hgone _)). }
  assert (d = true) as ->.
  { eapply status_of_empty; [exact Hc|..]; by rewrite <- ?E2, ?HT. }
  exists s'. rewrite (update_of_body _ _ _ _ Hb). unfold replica_tags. by rewrite E1, Hnil.
Qed.

(** ** Target state and checkpoints *)

Definition last_checkpoint (s : DeploymentState) : option DeploymentTargetState :=
  last (omap (λ e, match e with SaveCheckpoint t => Some t | _ => None end) (ds_effects s)).

Lemma last_checkpoint_emit t s : last_checkpoint (emit [SaveCheckpoint t] s) = Some t.
Proof. unfold last_checkpoint. cbn. rewrite omap_app. cbn. apply last_snoc. Qed.

Lemma set_target_state_cases saved letters info s :
  (∃ e, _set_target_state crc32 serialize saved letters info s = (s, Err e)) ∨
  ∃ s', _set_target_state crc32 serialize saved letters info s = (s', Ok tt) ∧
    last_checkpoint s' = Some (ds_target s') ∧ ds_replicas s' = ds_replicas s ∧
    ts_info (ds_target s') = Some info ∧
    ts_version (ds_target s') =
      Some (mk_version crc32 serialize letters (info_version info)
              (cfg_user_config (deployment_config info))) ∧
    ts_num_replicas (ds_target s') = num_replicas (deployment_config info) ∧
    ts_deleting (ds_target s') = false.
Proof.
  unfold _set_target_state, save_checkpoint, from_deployment_info. cbn.
  destruct saved as [u|e]; [right|left; by eexists].
  eexists. split; [done|]. cbn. split_and!; try done.
  etrans; [|apply (last_checkpoint_emit _ s)]. done.
Qed.

(** Target changes are written ahead: a [deploy] that changes the target
    returns [True] only with the new target checkpointed, the target then being
    the deployed info's replica count and a version made from it; when the write
    raises, or the deployment is unchanged, the state is untouched. *)
Theorem deploy_writes_ahead saved letters info s :
  match deploy crc32 serialize saved letters info s with
  | (s', Ok true) =>
      last_checkpoint s' = Some (ds_target s') ∧ ds_replicas s' = ds_replicas s ∧
      ts_num_replicas (ds_target s') = num_replicas (deployment_config info) ∧
      ts_version (ds_target s') =
        Some (mk_version crc32 serialize letters (info_version info)
                (cfg_user_config (deployment_config info))) ∧
      ts_deleting (ds_target s') = false
  | (s', _) => s' = s
  end.
Proof.
  unfold deploy, mbind, st_bind, st_get.
  destruct (ts_info (ds_target s)) as [existing|]; [destruct (config_eqb _ _ && _); [done|]|].
  all: match goal with |- context [_set_target_state _ _ _ _ ?i _] =>
    destruct (set_target_state_cases saved letters i s) as [(e & ->)|(s' & -> & Hs)]; [done|] end.
  all: cbn; naive_solver.
Qed.

(** Deploying makes an empty or well-formed deployment well-formed, so that
    the guarantees of [update] hold from the first deployment on. *)
Theorem deploy_establishes_ok saved letters info s s' :
  container_ok (ds_replicas s) → Forall asked (rc_stopping (ds_replicas s)) →
  0 <= num_replicas (deployment_config info) →
  deploy crc32 serialize saved letters info s = (s', Ok true) → deployment_ok s'.
Proof.
  intros Hc Ha Hn. unfold deploy, mbind, st_bind, st_get.
  destruct (ts_info (ds_target s)) as [existing|]; [destruct (config_eqb _ _ && _); [done|]|].
  all: match goal with |- context [_set_target_state _ _ _ _ ?i _] =>
    destruct (set_target_state_cases saved letters i s) as [(e & ->)|(s2 & -> & Hs)]; [done|] end.
  all: destruct Hs as (_ & E1 & E2 & E3 & E4 & _); intros Heq; cbn in Heq; inv_st; split;
    [by rewrite E1|]; split; [|by rewrite E1]; split; [rewrite E4; exact Hn|]; intros _; rewrite E2, E3; split; [by eexists|];
    eexists; split; [done|apply mk_version_wf].
Qed.

(** When the checkpoint write of an autoscaling decision raises, the
    configuration of the current target has already been changed to the decided
    number while the target's replica count has not: the copy of the deployment
    info is shallow.  The next identical decision then looks as if it were
    already in force. *)
Theorem autoscale_failed_write_leaks e letters reqs queued s info policy policy' n :
  ts_deleting (ds_target s) = false → ts_info (ds_target s) = Some info →
  autoscaling_policy info = Some policy → is_Some (info_version info) →
  get_decision_num_replicas policy (num_replicas (deployment_config info)) reqs queued =
    Ok (policy', n) →
  n ≠ num_replicas (deployment_config info) →
  ∃ s' info', autoscale crc32 serialize (Err e) letters reqs queued s = (s', Err e) ∧
    ts_info (ds_target s') = Some info' ∧
    num_replicas (deployment_config info') = n ∧
    ts_num_replicas (ds_target s') = ts_num_replicas (ds_target s) ∧
    ds_effects s' = ds_effects s.
Proof.
  intros Hdel Hinfo Hpol [v Hv] Hdec Hne. unfold autoscale, mbind, st_bind, st_get, st_lift, st_modify.
  rewrite Hdel, Hinfo. cbn. rewrite Hpol. cbn. rewrite Hdec.
  rewrite (proj2 (Z.eqb_neq _ _) Hne). rewrite Hv. cbn. eexists _, _. split_and!; done.
Qed.

End deployment_proofs.

(** ** A deployment in the middle of a rolling update *)

Module Examples.

(** A checksum that is computed incrementally, as [zlib.crc32] is. *)
Fixpoint crc_from (h : Z) (s : string) : Z :=
  match s with
  | EmptyString => h
  | String a s => crc_from ((h * 257 + 1 + Z.of_nat (Ascii.nat_of_ascii a)) mod 4294967296) s
  end.

Definition crc : string → Z := crc_from 0.
Definition dumps (c : option string) : string := default "null" c.

Lemma crc_incremental : crc32_incremental crc.
Proof.
  exists crc_from. unfold crc. intros a. generalize 0 as h.
  induction a as [|x a IH]; intros h b; cbn; [done|]. apply IH.
Qed.

Definition version (code : string) : DeploymentVersion := mk_version crc dumps "" (Some code) None.

Definition cfg (n : Z) : DeploymentConfig :=
  {| num_replicas := n; max_concurrent_queries := 100; cfg_user_config := None;
     graceful_shutdown_timeout_s := 20; health_check_period_s := 10;
     health_check_timeout_s := 30; is_java := false; cfg_other := "" |}.

Definition policy : BasicAutoscalingPolicy :=
  policy_init {| min_replicas := 1; max_replicas := 5;
    target_num_ongoing_requests_per_replica := 1; smoothing_factor := 1;
    upscale_delay_s := 0; downscale_delay_s := 0; look_back_period_s := 30 |}.

Definition info (n : Z) : DeploymentInfo :=
  {| deployment_config := cfg n; info_version := Some "v2"; start_time_ms := 0;
     end_time_ms := None; autoscaling_policy := Some policy |}.

Definition replica (tag code : string) : DeploymentReplica :=
  (replica_start (cfg 2) (Some (version code)) 0 (replica_init tag "d" (Some (version code)))).1.

Definition target (n : Z) (deleting : bool) : DeploymentTargetState :=
  {| ts_info := Some (info n); ts_num_replicas := n;
     ts_version := if deleting then None else Some (version "v2"); ts_deleting := deleting |}.

(** One new replica runs, another is starting, one old replica still runs. *)
Definition rolling (n : Z) (deleting : bool) : DeploymentState :=
  {| ds_name := "d"; ds_target := target n deleting; ds_prev_startup_warning := 0;
     ds_retry_counter := 0;
     ds_replicas := {| rc_starting := [replica "d#b" "v2"]; rc_updating := [];
                       rc_recovering := [];
                       rc_running := [replica "d#a" "v2"; replica "d#c" "v1"];
                       rc_stopping := [] |};
     ds_status := {| status := ST_UPDATING; message := MsgEmpty |}; ds_effects := [] |}.

(** The cluster: everything is healthy; starting replicas are ready or not, and
    stopping ones gone or not. *)
Definition env (ready gone : bool) : update_env :=
  {| env_letters := λ i, String (Ascii.ascii_of_nat (65 + i)) "";
     env_start_now := λ _, 0%Q; env_stop_exists := λ _, true; env_stop_now := λ _, 0%Q;
     env_health := λ _, {| ho_ready := true; ho_get := GetOk; ho_now_active := 1;
                           ho_now_should := 1; ho_random := 1; ho_now_start := 1 |};
     env_ready := λ _, {| ro_allocated := ready; ro_ready := ready;
                          ro_result := Some (cfg 2, version "v2"); ro_node := Some "n" |};
     env_slow_now := λ _, 1%Q; env_warning_now := 1; env_warning_set_now := 1;
     env_stopped := λ _, {| so_lookup_error := None; so_exists := true;
                            so_ready := gone; so_now := 1 |} |}.

Lemma rolling_ok n deleting :
  0 <= n → (deleting = true → n = 0) → deployment_ok crc dumps (rolling n deleting).
Proof.
  intros Hn Hdel. split; [|split; [|constructor]].
  - intros []; cbn; repeat constructor; try (by eexists); eexists; (split; [done|]);
      apply mk_version_wf.
  - split; [done|]. cbn. intros Hnz. split; [by eexists|]. destruct deleting.
    + by destruct Hnz; apply Hdel.
    + eexists. split; [done|apply mk_version_wf].
Qed.

Lemma env_example_ok ready gone : env_ok crc dumps (env ready gone).
Proof. intros tag c v H. cbn in H. simplify_eq. apply mk_version_wf. Qed.

Lemma env_example_consistent ready gone : stops_consistent (env ready gone).
Proof. by intros tag. Qed.



Lemma update_never_exceeds_target_witness :
  live (ds_replicas (update crc dumps 30 30 (env true true) (rolling 1 false)).1) <= 1 ∧
  Z.of_nat (length (replica_tags (update crc dumps 30 30 (env true true) (rolling 1 false)).1)) <= 3.
Proof.
  apply (update_never_exceeds_target crc dumps 30 30 crc_incremental (env true true)
           (rolling 1 false)); [apply rolling_ok; done|apply env_example_ok].
Defined.

Lemma rolling_update_keeps_available_witness :
  ∃ s' b, _stop_wrong_version_replicas crc dumps (env true true) (rolling 2 false) = (s', Ok b) ∧
    1 <= available (version "v2") (ds_replicas s').
Proof.
  apply (rolling_update_keeps_available crc dumps crc_incremental (env true true)
           (rolling 2 false) (version "v2")); [apply rolling_ok; done|done].
Defined.

Lemma delete_completes_witness :
  ∃ s', update crc dumps 30 30 (env true true) (rolling 0 true) = (s', true) ∧
    replica_tags s' = [].
Proof.
  apply (delete_completes crc dumps 30 30 crc_incremental);
    [apply rolling_ok; done|apply env_example_ok|done|done|]. intros tag. split; [done|by right].
Defined.

Lemma deleted_only_when_empty_witness :
  ts_deleting (ds_target (update crc dumps 30 30 (env true true) (rolling 0 true)).1) = true ∧
  replica_tags (update crc dumps 30 30 (env true true) (rolling 0 true)).1 = [].
Proof.
  apply (deleted_only_when_empty crc dumps 30 30 (env true true) (rolling 0 true)).
  vm_compute. reflexivity.
Defined.

(** One more update after the rolling update finished: two replicas run. *)
Definition settled : DeploymentState :=
  (_check_and_update_replicas 30 30 (env true true)
     (_scale_deployment_replicas crc dumps (env true true) (rolling 2 false)).1).1.

Lemma healthy_only_at_goal_witness :
  rc_get_all (ds_replicas (_check_curr_status settled).1)
    [STARTING; UPDATING; RECOVERING; STOPPING] = [] ∧
  rc_count None (Some (version "v2")) [RUNNING] (ds_replicas (_check_curr_status settled).1) = Ok 2.
Proof.
  apply (healthy_only_at_goal settled (_check_curr_status settled).1 false);
    vm_compute; [reflexivity|discriminate|reflexivity].
Defined.

Lemma deploy_establishes_ok_witness :
  deployment_ok crc dumps (deploy crc dumps (Ok tt) "" (info 2) (ds_init "d" 0)).1.
Proof.
  apply (deploy_establishes_ok crc dumps (Ok tt) "" (info 2) (ds_init "d" 0));
    [intros []; constructor|constructor|done|vm_compute; reflexivity].
Defined.

(** An actor that is not found to be stopped and is found afterwards: the update fails and
    the deployment has lost both replicas it was stopping, whose actors live on. *)
Definition env_unstable : update_env :=
  let e := env true true in
  {| env_letters := env_letters e; env_start_now := env_start_now e;
     env_stop_exists := λ _, false; env_stop_now := env_stop_now e; env_health := env_health e;
     env_ready := env_ready e; env_slow_now := env_slow_now e; env_warning_now := 1;
     env_warning_set_now := 1; env_stopped := env_stopped e |}.

Example unstable_lookup_loses_replicas :
  replica_tags (update crc dumps 30 30 env_unstable (rolling 1 false)).1 = ["d#a"] ∧
  message (ds_status (update crc dumps 30 30 env_unstable (rolling 1 false)).1) =
    MsgUpdateFailed TypeError.
Proof. vm_compute. split; reflexivity. Qed.

Lemma autoscale_failed_write_leaks_witness :
  ∃ s' info', autoscale crc dumps (Err RuntimeError) "" [10%Q; 10%Q] 0%Q (rolling 2 false) =
      (s', Err RuntimeError) ∧
    ts_info (ds_target s') = Some info' ∧ num_replicas (deployment_config info') = 5 ∧
    ts_num_replicas (ds_target s') = 2 ∧ ds_effects s' = [].
Proof.
  apply (autoscale_failed_write_leaks crc dumps RuntimeError "" [10%Q; 10%Q] 0%Q (rolling 2 false)
           (info 2) policy policy 5); [done|done|done|by eexists|vm_compute; reflexivity|done].
Defined.

(** The rolling update may stop a running replica without the routers being
    told: when stopping it leaves exactly the target number of replicas,
    [_scale_deployment_replicas] returns [False], and the update sends no
    notification although the set of running replicas changed. *)
Theorem stopped_replica_not_announced :
  let s := rolling 2 false in
  let s' := (update crc dumps 30 30 (env false false) s).1 in
  ri_tag <$> get_running_replica_infos s = ["d#a"; "d#c"] ∧
  ri_tag <$> get_running_replica_infos s' = ["d#a"] ∧
  omap (λ e, match e with NotifyRunning l => Some l | _ => None end) (ds_effects s') = [].
Proof. vm_compute. done. Qed.

End Examples.
