(* ===== verification/ServeMetrics.v ===== *)
(** * Serve metrics store (serve/_private/autoscaling_metrics.py)

    The in-memory time series the autoscaler averages over: points are kept
    sorted by timestamp and queries look at the points after the start of a
    window, optionally forgetting the others. *)
From S2P Require Import Prelude.
From stdpp Require Import base tactics list strings sorting.
From Stdlib Require Import QArith Lqa.

#[local] Open Scope Z_scope.

Record TimeStampedValue := { timestamp : Q; value : Q }.

Definition InMemoryMetricsStore := dict string (list TimeStampedValue).

(** Where [bisect.bisect] (on the right) puts a timestamp in a sorted list:
    after the points that are not later. *)
Fixpoint bisect (a : list TimeStampedValue) (x : Q) : nat :=
  match a with
  | [] => 0
  | p :: a => if Qltb x (timestamp p) then 0 else S (bisect a x)
  end.

(** [bisect.insort] *)
Definition insort (a : list TimeStampedValue) (x : TimeStampedValue) : list TimeStampedValue :=
  take (bisect a (timestamp x)) a ++ x :: drop (bisect a (timestamp x)) a.

Definition add_metrics_point (data_points : dict string Q) (timestamp : Q)
    (data : InMemoryMetricsStore) : InMemoryMetricsStore :=
  fold_left (λ data '(name, v),
    dset name (insort (dget_def name [] data) {| timestamp := timestamp; value := v |}) data)
    data_points data.

Definition _get_datapoints (key : string) (window_start_timestamp_s : Q)
    (data : InMemoryMetricsStore) : list TimeStampedValue :=
  let datapoints := dget_def key [] data in
  drop (bisect datapoints window_start_timestamp_s) datapoints.

(** Reading [self.data[key]] of a [defaultdict] creates the key. *)
Definition compacted (do_compact : bool) (key : string) (points : list TimeStampedValue)
    (data : InMemoryMetricsStore) : InMemoryMetricsStore :=
  dset key (if do_compact then points else dget_def key [] data) data.

Definition window_average (key : string) (window_start_timestamp_s : Q) (do_compact : bool)
    (data : InMemoryMetricsStore) : InMemoryMetricsStore * option Q :=
  let points_after_idx := _get_datapoints key window_start_timestamp_s data in
  (compacted do_compact key points_after_idx data,
   match points_after_idx with
   | [] => None
   | _ => Some (sumQ (value <$> points_after_idx)
                / inject_Z (Z.of_nat (length points_after_idx)))%Q
   end).

(** Python's [max] keeps the first of equal values. *)
Definition py_max (l : list Q) : option Q :=
  match l with
  | [] => None
  | x :: l => Some (fold_left (λ m y, if Qltb m y then y else m) l x)
  end.

Definition max (key : string) (window_start_timestamp_s : Q) (do_compact : bool)
    (data : InMemoryMetricsStore) : InMemoryMetricsStore * option Q :=
  let points_after_idx := _get_datapoints key window_start_timestamp_s data in
  (compacted do_compact key points_after_idx data, py_max (value <$> points_after_idx)).

(** ** Sortedness *)

Definition earlier (p q : TimeStampedValue) : Prop := (timestamp p <= timestamp q)%Q.

(** The points a query looks at. *)
Definition after (x : Q) (a : list TimeStampedValue) : list TimeStampedValue :=
  filter (λ p, Qltb x (timestamp p) = true) a.

Lemma drop_bisect a x : StronglySorted earlier a → drop (bisect a x) a = after x a.
Proof.
  unfold after. induction 1 as [|p a Hs IH Hp]; [done|]. cbn [bisect].
  destruct (Qltb x (timestamp p)) eqn:Hx; cbn [drop].
  - rewrite (filter_all _ (p :: a)); [done|]. constructor; [done|].
    eapply Forall_impl; [exact Hp|]. unfold earlier. cbn. intros q Hq.
    apply Qltb_true in Hx. apply Qltb_true. lra.
  - rewrite filter_cons_False by congruence. done.
Qed.

Lemma insort_perm a p : insort a p ≡ₚ p :: a.
Proof. unfold insort. rewrite <- Permutation_middle, take_drop. done. Qed.

Lemma insort_sorted a p : StronglySorted earlier a → StronglySorted earlier (insort a p).
Proof.
  unfold insort. induction 1 as [|q a Hs IH Hq]; cbn; [by repeat constructor|].
  destruct (Qltb (timestamp p) (timestamp q)) eqn:Hx; cbn.
  - apply Qltb_true in Hx. constructor; [by constructor|]. constructor; [unfold earlier; lra|].
    eapply Forall_impl; [exact Hq|]. unfold earlier. cbn. intros r Hr. lra.
  - apply Qltb_false in Hx. constructor; [done|].
    apply Forall_app. rewrite Forall_cons. split_and!.
    + by apply Forall_take.
    + done.
    + by apply Forall_drop.
Qed.

(** ** The history of a store *)

Definition store_sorted (data : InMemoryMetricsStore) : Prop :=
  ∀ key, StronglySorted earlier (dget_def key [] data).

(** The points recorded for [key] by one [add_metrics_point]. *)
Definition points_for (key : string) (data_points : list (string * Q)) (t : Q) : list TimeStampedValue :=
  (λ p, {| timestamp := t; value := p.2 |}) <$> filter (λ p, p.1 = key) data_points.

Lemma points_for_cons key name v dps t :
  points_for key ((name, v) :: dps) t =
    (if decide (name = key) then [{| timestamp := t; value := v |}] else []) ++ points_for key dps t.
Proof. unfold points_for. rewrite filter_cons. cbn [fst snd]. by case_decide. Qed.

Lemma add_point_effect data_points t data :
  store_sorted data →
  store_sorted (add_metrics_point data_points t data) ∧
  ∀ key, dget_def key [] (add_metrics_point data_points t data) ≡ₚ
         points_for key data_points t ++ dget_def key [] data.
Proof.
  revert data. induction data_points as [|[name v] dps IH]; intros data Hs; [done|].
  set (data' := dset name (insort (dget_def name [] data) {| timestamp := t; value := v |}) data).
  change (add_metrics_point ((name, v) :: dps) t data) with (add_metrics_point dps t data').
  unfold data'. destruct (IH data') as [IH1 IH2]; unfold data' in *.
  { intros key. rewrite dget_def_dset. case_decide; [by apply insort_sorted|done]. }
  split; [exact IH1|]. intros key. rewrite IH2, dget_def_dset, points_for_cons.
  repeat case_decide; subst; try done. rewrite insort_perm. solve_Permutation.
Qed.

(** One use of a store. *)
Inductive metric_op :=
  | Record_ (data_points : dict string Q) (t : Q)
  | Average (key : string) (start : Q) (do_compact : bool)
  | Max (key : string) (start : Q) (do_compact : bool).

Definition run_op (data : InMemoryMetricsStore) (o : metric_op) : InMemoryMetricsStore :=
  match o with
  | Record_ dps t => add_metrics_point dps t data
  | Average key start c => (window_average key start c data).1
  | Max key start c => (max key start c data).1
  end.

(** Everything ever recorded for [key]. *)
Definition recorded (key : string) (ops : list metric_op) : list TimeStampedValue :=
  concat ((λ o, match o with Record_ dps t => points_for key dps t | _ => [] end) <$> ops).

(** No earlier query of [key] that compacted looked at a window that starts
    after [start]. *)
Definition windows_before (key : string) (start : Q) (ops : list metric_op) : Prop :=
  Forall (λ o, match o with
               | Average k s true | Max k s true => k = key → (s <= start)%Q
               | _ => True end) ops.

Lemma after_perm x a b : a ≡ₚ b → after x a ≡ₚ after x b.
Proof. intros Hp. unfold after. by rewrite Hp. Qed.

Lemma after_after x y a : (x <= y)%Q → after y (after x a) = after y a.
Proof.
  intros Hle. unfold after. rewrite list_filter_filter. apply list_filter_iff. intros p.
  rewrite !Qltb_true. split; [naive_solver|]. intros. split; [done|lra].
Qed.

Lemma after_sorted x a : StronglySorted earlier a → StronglySorted earlier (after x a).
Proof.
  unfold after. induction 1 as [|p a Hs IH Hp]; [constructor|]. rewrite filter_cons.
  case_decide; [|done]. constructor; [done|]. apply Forall_forall. intros q Hq.
  apply list_elem_of_filter in Hq as [_ Hq]. rewrite Forall_forall in Hp. auto.
Qed.

Lemma compacted_effect key start data k c :
  store_sorted data →
  store_sorted (compacted c k (_get_datapoints k start data) data) ∧
  dget_def key [] (compacted c k (_get_datapoints k start data) data) =
    if decide (key = k ∧ c = true) then after start (dget_def key [] data)
    else dget_def key [] data.
Proof.
  intros Hs. unfold compacted, _get_datapoints. rewrite drop_bisect by apply Hs. split.
  - intros key'. rewrite dget_def_dset. case_decide; [subst|done]. destruct c; [|done].
    apply after_sorted, Hs.
  - rewrite dget_def_dset. destruct c; repeat case_decide; naive_solver.
Qed.

(** What a store keeps: every point after the windows asked for so far. *)
Lemma store_keeps key start ops data :
  store_sorted data → windows_before key start ops →
  store_sorted (fold_left run_op ops data) ∧
  after start (dget_def key [] (fold_left run_op ops data)) ≡ₚ
  after start (recorded key ops ++ dget_def key [] data).
Proof.
  revert data. induction ops as [|o ops IH]; intros data Hs Hw; cbn [fold_left]; [done|].
  inversion_clear Hw as [|?? Ho Hops].
  assert (store_sorted (run_op data o) ∧
    after start (dget_def key [] (run_op data o)) ≡ₚ
    after start (recorded key [o] ++ dget_def key [] data)) as [Hs' Hp].
  { unfold recorded. destruct o as [dps t|k s c|k s c]; cbn.
    - destruct (add_point_effect dps t data Hs) as [H1 H2]. split; [done|].
      rewrite app_nil_r. by apply after_perm.
    - destruct (compacted_effect key s data k c Hs) as [H1 H2]. split; [done|].
      rewrite H2. case_decide as Hk; [|done]. destruct Hk as [-> ->]. rewrite after_after; [done|auto].
    - destruct (compacted_effect key s data k c Hs) as [H1 H2]. split; [done|].
      rewrite H2. case_decide as Hk; [|done]. destruct Hk as [-> ->]. rewrite after_after; [done|auto]. }
  destruct (IH (run_op data o) Hs' Hops) as [IH1 IH2]. split; [done|].
  rewrite IH2. unfold after in *. rewrite filter_app, Hp. unfold recorded. cbn.
  rewrite !filter_app. rewrite app_nil_r. solve_Permutation.
Qed.

Lemma datapoints_spec key start ops :
  windows_before key start ops →
  _get_datapoints key start (fold_left run_op ops []) ≡ₚ after start (recorded key ops).
Proof.
  intros Hw. destruct (store_keeps key start ops [] ltac:(intros ?; constructor) Hw) as [Hs Hp].
  unfold _get_datapoints. rewrite drop_bisect by apply Hs. rewrite Hp. by rewrite app_nil_r.
Qed.

Lemma sumQ_perm l l' : l ≡ₚ l' → (sumQ l == sumQ l')%Q.
Proof. unfold sumQ. induction 1; cbn in *; lra. Qed.

(** Whatever was recorded and asked before, with compaction or not, the
    average over a window is the average of exactly the recorded points that are
    strictly later than its start ([None] when there are none), as long as no
    earlier query compacted a later window. *)
Theorem window_average_correct key start c ops :
  windows_before key start ops →
  let pts := after start (recorded key ops) in
  match (window_average key start c (fold_left run_op ops [])).2 with
  | None => pts = []
  | Some q => pts ≠ [] ∧
      (q == sumQ (value <$> pts) / inject_Z (Z.of_nat (length pts)))%Q
  end.
Proof.
  intros Hw pts. pose proof (datapoints_spec key start ops Hw) as Hp. fold pts in Hp.
  unfold window_average. cbn [snd].
  destruct (_get_datapoints key start (fold_left run_op ops [])) as [|p l].
  - by apply Permutation_nil_l in Hp.
  - split; [by intros ->; apply Permutation_nil_r in Hp|].
    rewrite (Permutation_length Hp). apply Qdiv_comp; [|done].
    apply sumQ_perm. by apply fmap_Permutation.
Qed.

Definition ops_example : list metric_op :=
  [Record_ [("r", 4%Q)] 10; Record_ [("r", 2%Q)] 30; Average "r" 5 true; Record_ [("r", 6%Q)] 20].

Lemma window_average_correct_witness :
  let pts := after 15 (recorded "r" ops_example) in
  match (window_average "r" 15 true (fold_left run_op ops_example [])).2 with
  | None => pts = []
  | Some q => pts ≠ [] ∧
      (q == sumQ (value <$> pts) / inject_Z (Z.of_nat (length pts)))%Q
  end.
Proof.
  apply (window_average_correct "r" 15 true ops_example).
  repeat constructor; cbn; intros; lra.
Defined.

(** A point recorded at the very start of the window is left out, although
    the documentation of [window_average] includes it. *)
Theorem window_start_excluded :
  (window_average "r" 10 true (add_metrics_point [("r", 4%Q)] 10 [])).2 = None.
Proof. reflexivity. Qed.
