(* ===== verification/ServeManager.v ===== *)
(** * Serve replica names and the deployment state manager
    (serve/_private/common.py, serve/_private/deployment_state.py)

    The manager keeps the deployments of an application, checkpoints their
    targets in the key-value store, and recovers them, with the replica actors
    still alive in the cluster, when the controller restarts. *)
From S2P Require Import Prelude PyStrings ServeReplica ServeAutoscaling ServeDeployment ServeMetrics.
From stdpp Require Import base tactics list strings.
From Stdlib Require Import QArith Ascii.

#[local] Open Scope Z_scope.

(** ** Replica names *)

Definition REPLICA_PREFIX : string := "SERVE_REPLICA::".
Definition DELIMITER : ascii := "#".

Definition is_replica_name (actor_name : string) : bool := String.prefix REPLICA_PREFIX actor_name.

(** [s.replace(pat, '')]; [skip] characters of an occurrence are left. *)
Fixpoint py_remove (pat : string) (skip : nat) (s : string) : string :=
  match s with
  | EmptyString => EmptyString
  | String c s' =>
      match skip with
      | S skip => py_remove pat skip s'
      | O => if String.prefix pat s then py_remove pat (String.length pat - 1) s'
             else String c (py_remove pat 0 s')
      end
  end.

(** The deployment tag and the suffix. *)
Definition from_str (actor_name : string) : result (string * string) :=
  _ ← py_assert (is_replica_name actor_name);
  match py_split DELIMITER (py_remove REPLICA_PREFIX 0 actor_name) with
  | [deployment_tag; replica_suffix] => Ok (deployment_tag, replica_suffix)
  | _ => Err AssertionError
  end.

(** The name of a replica's actor: the prefix and the replica's tag. *)
Definition actor_name_of (tag : ReplicaTag) : string := REPLICA_PREFIX +:+ tag.

(** ** The manager *)

Abbreviation Checkpoint := (dict string DeploymentTargetState * dict string DeploymentInfo)%type.

Record DeploymentStateManager := {
  _deployment_states : dict string DeploymentState;
  _deleted_deployment_metadata : dict string DeploymentInfo;
  autoscaling_metrics_store : InMemoryMetricsStore;
  handle_metrics_store : InMemoryMetricsStore;
  kv_checkpoint : option Checkpoint;
}.

Abbreviation MM := (ST DeploymentStateManager).

Definition set_states (d : dict string DeploymentState) (m : DeploymentStateManager) :
    DeploymentStateManager :=
  {| _deployment_states := d; _deleted_deployment_metadata := _deleted_deployment_metadata m;
     autoscaling_metrics_store := autoscaling_metrics_store m;
     handle_metrics_store := handle_metrics_store m; kv_checkpoint := kv_checkpoint m |}.
Definition set_deleted (d : dict string DeploymentInfo) (m : DeploymentStateManager) :
    DeploymentStateManager :=
  {| _deployment_states := _deployment_states m; _deleted_deployment_metadata := d;
     autoscaling_metrics_store := autoscaling_metrics_store m;
     handle_metrics_store := handle_metrics_store m; kv_checkpoint := kv_checkpoint m |}.
Definition set_stores (a h : InMemoryMetricsStore) (m : DeploymentStateManager) :
    DeploymentStateManager :=
  {| _deployment_states := _deployment_states m;
     _deleted_deployment_metadata := _deleted_deployment_metadata m;
     autoscaling_metrics_store := a; handle_metrics_store := h;
     kv_checkpoint := kv_checkpoint m |}.
Definition set_kv (c : option Checkpoint) (m : DeploymentStateManager) : DeploymentStateManager :=
  {| _deployment_states := _deployment_states m;
     _deleted_deployment_metadata := _deleted_deployment_metadata m;
     autoscaling_metrics_store := autoscaling_metrics_store m;
     handle_metrics_store := handle_metrics_store m; kv_checkpoint := c |}.

Definition get_checkpoint_data (s : DeploymentState) : DeploymentTargetState := ds_target s.

(** The checkpoint of all targets, with the write-ahead one in place. *)
Definition _save_checkpoint_func (name : string) (t : DeploymentTargetState)
    (m : DeploymentStateManager) : Checkpoint :=
  (dset name t ((λ p, (p.1, get_checkpoint_data p.2)) <$> _deployment_states m),
   _deleted_deployment_metadata m).

Definition written (before after : DeploymentState) : option DeploymentTargetState :=
  last (omap (λ e, match e with SaveCheckpoint t => Some t | _ => None end)
          (drop (length (ds_effects before)) (ds_effects after))).

(** Run a method of one deployment: [self._deployment_states[name].op()].  What
    it checkpoints goes to the key-value store. *)
Definition on_deployment {A} (name : string) (op : ST DeploymentState A) : MM A := λ m,
  match dget name (_deployment_states m) with
  | None => (m, Err KeyError)
  | Some s =>
      let '(s', r) := op s in
      let m' := set_states (dset name s' (_deployment_states m)) m in
      (match written s s' with
       | Some t => set_kv (Some (_save_checkpoint_func name t m)) m'
       | None => m'
       end, r)
  end.

Definition MAX_NUM_DELETED_DEPLOYMENTS : nat := 1000.

Definition set_end_time (t : Z) (i : DeploymentInfo) : DeploymentInfo :=
  {| deployment_config := deployment_config i; info_version := info_version i;
     start_time_ms := start_time_ms i; end_time_ms := Some t;
     autoscaling_policy := autoscaling_policy i |}.

(** The bookkeeping of a deleted deployment. *)
Definition remember_deleted (name : string) (info : DeploymentInfo)
    (meta : dict string DeploymentInfo) : dict string DeploymentInfo :=
  dset name info (if (MAX_NUM_DELETED_DEPLOYMENTS <? length meta)%nat then tail meta else meta).

Section manager.
Context (crc32 : string → Z) (serialize : option string → string).
Context (SLOW_STARTUP_WARNING_S SLOW_STARTUP_WARNING_PERIOD_S : Q).

Definition record_autoscaling_metrics (data : dict string Q) (send_timestamp : Q) : MM unit :=
  st_modify (λ m, set_stores (add_metrics_point data send_timestamp (autoscaling_metrics_store m))
                    (handle_metrics_store m) m).

Definition record_handle_metrics (data : dict string Q) (send_timestamp : Q) : MM unit :=
  st_modify (λ m, set_stores (autoscaling_metrics_store m)
                    (add_metrics_point data send_timestamp (handle_metrics_store m)) m).

(** [saved]: whether the write to the store succeeds; [letters]: the random code
    version of an unversioned deployment; [now]: the clock. *)
Definition manager_deploy (saved : result unit) (letters : string) (now : Q)
    (deployment_name : string) (info : DeploymentInfo) : MM bool :=
  m ← st_get;
  _ ← (if din deployment_name (_deleted_deployment_metadata m)
       then st_modify (λ m, set_deleted (ddel deployment_name (_deleted_deployment_metadata m)) m)
       else mret tt);
  _ ← (if din deployment_name (_deployment_states m) then mret tt
       else st_modify (λ m, set_states (dset deployment_name (ds_init deployment_name now)
                                          (_deployment_states m)) m));
  on_deployment deployment_name (deploy crc32 serialize saved letters info).

Definition delete_deployment (saved : result unit) (deployment_name : string) : MM unit :=
  m ← st_get;
  if din deployment_name (_deployment_states m)
  then on_deployment deployment_name (ServeDeployment.delete crc32 serialize saved)
  else mret tt.

Definition shutdown (saved : string → result unit) : MM unit :=
  m ← st_get;
  _ ← st_for (dkeys (_deployment_states m)) (λ name,
        on_deployment name (ServeDeployment.delete crc32 serialize (saved name)));
  st_modify (set_kv None).

(** ** Metrics of a deployment *)

Fixpoint average_replicas (now : ReplicaTag → Q) (look_back_period_s : Q)
    (rs : list DeploymentReplica) (store : InMemoryMetricsStore) : InMemoryMetricsStore * list Q :=
  match rs with
  | [] => (store, [])
  | r :: rs =>
      let '(store, avg) :=
        window_average (r_tag r) (now (r_tag r) - look_back_period_s) true store in
      let '(store, avgs) := average_replicas now look_back_period_s rs store in
      (store, match avg with Some q => q :: avgs | None => avgs end)
  end.

Definition get_replica_ongoing_request_metrics (now : ReplicaTag → Q) (deployment_name : string)
    (look_back_period_s : Q) : MM (list Q) :=
  m ← st_get;
  s ← st_lift (dget_exn deployment_name (_deployment_states m));
  let '(store, avgs) :=
    average_replicas now look_back_period_s (rc_get_all (ds_replicas s) [RUNNING])
      (autoscaling_metrics_store m) in
  _ ← st_modify (λ m, set_stores store (handle_metrics_store m) m);
  mret avgs.

Definition get_handle_queueing_metrics (now : Q) (deployment_name : string)
    (look_back_period_s : Q) : MM Q :=
  m ← st_get;
  let '(store, queued) :=
    ServeMetrics.max deployment_name (now - look_back_period_s) true (handle_metrics_store m) in
  _ ← st_modify (λ m, set_stores (autoscaling_metrics_store m) store m);
  mret (default 0%Q queued).

Definition get_autoscale_metric_lookback_period (s : DeploymentState) : result Q :=
  i ← of_option AttributeError (ts_info (ds_target s));
  p ← of_option AttributeError (autoscaling_policy i);
  Ok (look_back_period_s (config p)).

(** ** The update of all deployments *)

(** What the manager observes for one deployment during an update. *)
Record manager_env := {
  me_update : update_env;
  me_saved : result unit;
  me_letters : string;
  me_replica_now : ReplicaTag → Q;
  me_handle_now : Q;
  me_end_ms : Z;
}.

Definition autoscale_one (env : manager_env) (name : string) (s : DeploymentState) : MM unit :=
  period ← st_lift (get_autoscale_metric_lookback_period s);
  ongoing ← get_replica_ongoing_request_metrics (me_replica_now env) name period;
  queued ← get_handle_queueing_metrics (me_handle_now env) name period;
  on_deployment name (autoscale crc32 serialize (me_saved env) (me_letters env) ongoing queued).

Definition update_one (env : manager_env) (name : string) : MM bool :=
  m ← st_get;
  s ← st_lift (dget_exn name (_deployment_states m));
  scale ← st_lift (should_autoscale s);
  _ ← (if scale : bool then autoscale_one env name s else mret tt);
  deleted ← on_deployment name (λ s,
    let '(s', d) := update crc32 serialize SLOW_STARTUP_WARNING_S SLOW_STARTUP_WARNING_PERIOD_S
                      (me_update env) s in (s', Ok d));
  if deleted : bool then
    m ← st_get;
    s ← st_lift (dget_exn name (_deployment_states m));
    info ← st_lift (of_option AttributeError (ts_info (ds_target s)));
    _ ← st_modify (λ m, set_deleted
          (remember_deleted name (set_end_time (me_end_ms env) info)
             (_deleted_deployment_metadata m)) m);
    mret true
  else mret false.

Fixpoint update_all (env : string → manager_env) (names : list string) : MM (list string) :=
  match names with
  | [] => mret []
  | name :: names =>
      deleted ← update_one (env name) name;
      tags ← update_all env names;
      mret (if deleted : bool then name :: tags else tags)
  end.

Definition manager_update (env : string → manager_env) : MM unit :=
  m ← st_get;
  deleted_tags ← update_all env (dkeys (_deployment_states m));
  st_modify (λ m, set_states (fold_left (λ d tag, ddel tag d) deleted_tags (_deployment_states m)) m).

(** ** Recovery *)

Definition map_actor_name (d : dict string (list (ReplicaTag * string))) (actor_name : string) :
    result (dict string (list (ReplicaTag * string))) :=
  '(deployment_tag, suffix) ← from_str actor_name;
  let tag := replica_tag_of deployment_tag suffix in
  Ok (dset deployment_tag (dget_def deployment_tag [] d ++ [(tag, deployment_tag)]) d).

Definition _map_actor_names_to_deployment (all_current_actor_names : list string) :
    result (dict string (list (ReplicaTag * string))) :=
  foldM map_actor_name [] (List.filter is_replica_name all_current_actor_names).

Definition recover_deployment (exists_ : ReplicaTag → bool) (now : ReplicaTag → Q) (init_now : Q)
    (actors : dict string (list (ReplicaTag * string))) (tag : string)
    (t : DeploymentTargetState) : result DeploymentState :=
  match (_ ← recover_target_state_from_checkpoint t;
         recover_current_state_from_replica_actor_names exists_ now (dget_def tag [] actors))
        (ds_init tag init_now) with
  | (s, Ok _) => Ok s
  | (_, Err e) => Err e
  end.

Definition recover_step (exists_ : ReplicaTag → bool) (now : ReplicaTag → Q) (init_now : Q)
    (actors : dict string (list (ReplicaTag * string))) (states : dict string DeploymentState)
    (entry : string * DeploymentTargetState) : result (dict string DeploymentState) :=
  s ← recover_deployment exists_ now init_now actors entry.1 entry.2;
  Ok (dset entry.1 s states).

(** [__init__], from what is in the key-value store. *)
Definition _recover_from_checkpoint (exists_ : ReplicaTag → bool) (now : ReplicaTag → Q)
    (init_now : Q) (checkpoint : option Checkpoint) (all_current_actor_names : list string) :
    result DeploymentStateManager :=
  actors ← _map_actor_names_to_deployment all_current_actor_names;
  match checkpoint with
  | None => Ok {| _deployment_states := []; _deleted_deployment_metadata := [];
                  autoscaling_metrics_store := []; handle_metrics_store := [];
                  kv_checkpoint := None |}
  | Some (infos, deleted) =>
      states ← foldM (recover_step exists_ now init_now actors) [] infos;
      Ok {| _deployment_states := states; _deleted_deployment_metadata := deleted;
            autoscaling_metrics_store := []; handle_metrics_store := [];
            kv_checkpoint := checkpoint |}
  end.

(** ** Queries *)

Definition manager_running_replica_infos (m : DeploymentStateManager) :
    dict string (list RunningReplicaInfo) :=
  (λ p, (p.1, get_running_replica_infos p.2)) <$> _deployment_states m.

Definition get_deployment (deployment_name : string) (include_deleted : bool)
    (m : DeploymentStateManager) : option DeploymentInfo :=
  match dget deployment_name (_deployment_states m) with
  | Some s => ts_info (ds_target s)
  | None => if include_deleted then dget deployment_name (_deleted_deployment_metadata m) else None
  end.

Definition get_deployment_configs (filter_tag : option string) (include_deleted : bool)
    (m : DeploymentStateManager) : result (dict string DeploymentConfig) :=
  let selected (name : string) :=
    match filter_tag with None => true | Some tag => bool_decide (name = tag) end in
  configs ← foldM (λ configs '(name, s),
    if selected name then
      i ← of_option AttributeError (ts_info (ds_target s));
      Ok (dset name (deployment_config i) configs)
    else Ok configs) [] (_deployment_states m);
  Ok (if include_deleted
      then fold_left (λ configs '(name, i),
             if selected name then dset name (deployment_config i) configs else configs)
             (_deleted_deployment_metadata m) configs
      else configs).

Definition get_deployment_statuses (m : DeploymentStateManager) : list DeploymentStatusInfo :=
  ds_status <$> dvalues (_deployment_states m).

End manager.
