(* ===== verification/ServeManagerProofs.v ===== *)
(** * Correctness of replica names and of the deployment state manager *)
From S2P Require Import Prelude PyStrings ServeReplica ServeReplicaProofs ServeAutoscaling ServeDeployment.
From S2P Require Import ServeMetrics ServeDeploymentProofs ServeManager.
From stdpp Require Import base tactics list strings.
From Stdlib Require Import QArith Ascii.

#[local] Open Scope Z_scope.
#[local] Arguments String.append !_ _ : simpl nomatch.

(** ** Replica names *)

Lemma py_remove_skip pat p s : py_remove pat (String.length p) (p +:+ s) = py_remove pat 0 s.
Proof. induction p as [|c p IH]; cbn; [done|]. exact IH. Qed.

Lemma py_remove_absent pat c s : str_in c pat = true → str_in c s = false → py_remove pat 0 s = s.
Proof.
  intros Hpat. induction s as [|a s IH]; [done|]. intros Hs. cbn [py_remove].
  destruct (String.prefix pat (String a s)) eqn:Hp.
  - rewrite (str_prefix_char c _ _ Hp Hpat) in Hs. done.
  - cbn in Hs. apply orb_false_iff in Hs as [_ Hs]. by rewrite IH.
Qed.

Lemma py_remove_prefix c p s :
  py_remove (String c p) 0 (String c p +:+ s) = py_remove (String c p) 0 s.
Proof.
  pose proof (str_prefix_app (String c p) s) as Hp.
  change (String c p +:+ s) with (String c (p +:+ s)) in *. cbn [py_remove]. rewrite Hp.
  replace (String.length (String c p) - 1)%nat with (String.length p) by (cbn; lia).
  apply py_remove_skip.
Qed.

Lemma strip_prefix s :
  str_in ":" s = false → py_remove REPLICA_PREFIX 0 (actor_name_of s) = s.
Proof.
  intros Hs. unfold actor_name_of.
  etrans; [apply (py_remove_prefix "S" "ERVE_REPLICA::")|]. by apply (py_remove_absent _ ":").
Qed.

(** The name of a replica's actor determines its deployment and its suffix:
    reading back the name that is made from a deployment name and a suffix
    returns both, provided neither contains the delimiter or a colon. *)
Theorem replica_name_roundtrip deployment suffix :
  str_in DELIMITER deployment = false → str_in DELIMITER suffix = false →
  str_in ":" deployment = false → str_in ":" suffix = false →
  from_str (actor_name_of (replica_tag_of deployment suffix)) = Ok (deployment, suffix).
Proof.
  intros Hd Hs Hcd Hcs.
  assert (is_replica_name (actor_name_of (replica_tag_of deployment suffix)) = true) as Hn
    by apply str_prefix_app.
  unfold from_str. rewrite Hn. cbn [py_assert mbind result_bind]. rewrite strip_prefix.
  2: { unfold replica_tag_of. rewrite !str_in_app, Hcd, Hcs. done. }
  unfold replica_tag_of. change ("#" +:+ suffix) with (String DELIMITER suffix).
  rewrite py_split_app, py_split_absent by done. done.
Qed.

Lemma replica_name_roundtrip_witness :
  from_str (actor_name_of (replica_tag_of "image_classifier" "xKqZpA")) =
    Ok ("image_classifier", "xKqZpA").
Proof. apply (replica_name_roundtrip "image_classifier" "xKqZpA"); reflexivity. Defined.

(** A deployment whose name contains the delimiter runs, but the names of
    its replicas cannot be read back: recovery of the controller raises
    [AssertionError] as long as one of its actors is alive. *)
Theorem delimiter_in_name_breaks_recovery exists_ now t ck deployment suffix others :
  str_in DELIMITER deployment = true → str_in ":" deployment = false → str_in ":" suffix = false →
  _recover_from_checkpoint exists_ now t ck
    (actor_name_of (replica_tag_of deployment suffix) :: others) = Err AssertionError.
Proof.
  intros Hd Hcd Hcs. unfold _recover_from_checkpoint, _map_actor_names_to_deployment.
  assert (is_replica_name (actor_name_of (replica_tag_of deployment suffix)) = true) as Hn
    by apply str_prefix_app.
  cbn [List.filter]. rewrite Hn. cbn [foldM].
  assert (map_actor_name [] (actor_name_of (replica_tag_of deployment suffix)) = Err AssertionError)
    as ->; [|done].
  unfold map_actor_name, from_str. rewrite Hn. cbn [py_assert mbind result_bind]. rewrite strip_prefix.
  2: { unfold replica_tag_of. rewrite !str_in_app, Hcd, Hcs. done. }
  unfold replica_tag_of. change ("#" +:+ suffix) with (String DELIMITER suffix).
  pose proof (py_split_length DELIMITER deployment suffix) as Hl.
  pose proof (py_split_present _ _ Hd). pose proof (py_split_nonempty DELIMITER suffix).
  destruct (py_split DELIMITER (deployment +:+ String DELIMITER suffix)) as [|? [|? [|? ?]]];
    try done. cbn in Hl. destruct (py_split DELIMITER suffix); [done|]. cbn in Hl. lia.
Qed.

Lemma delimiter_in_name_breaks_recovery_witness :
  _recover_from_checkpoint (λ _, true) (λ _, 0%Q) 0 None ["SERVE_REPLICA::a#b#xKqZpA"] =
    Err AssertionError.
Proof.
  apply (delimiter_in_name_breaks_recovery (λ _, true) (λ _, 0%Q) 0 None "a#b" "xKqZpA" []);
    reflexivity.
Defined.

(** ** Recovery *)

(** The actors of a cluster: replicas, of a deployment and with a suffix, and others. *)
Abbreviation Actor := (string * string + string)%type.

Section manager_proofs.
Context (crc32 : string → Z) (serialize : option string → string).

(** A deploy that changes the target checkpoints it, as its only effect. *)
Lemma deploy_effects saved letters info s s' :
  deploy crc32 serialize saved letters info s = (s', Ok true) →
  ds_effects s' = ds_effects s ++ [SaveCheckpoint (ds_target s')].
Proof.
  unfold deploy, _set_target_state, save_checkpoint. intros H. inv_st.
  case_match; [case_match|]; inv_st; destruct saved; inv_st; done.
Qed.

Lemma dget_fmap {K V W} `{EqDecision K} (f : V → W) (d : dict K V) k :
  dget k ((λ p, (p.1, f p.2)) <$> d) = f <$> dget k d.
Proof. induction d as [|[k' v] d IH]; cbn; [done|]. by case_decide. Qed.

Lemma dkeys_fmap {K V W} `{EqDecision K} (f : V → W) (d : dict K V) :
  dkeys ((λ p, (p.1, f p.2)) <$> d) = dkeys d.
Proof. unfold dkeys. rewrite <- list_fmap_compose. by apply list_fmap_ext. Qed.

(** The checkpoint mirrors the memory: the same deployments with the same
    targets, and the same deleted deployments. *)
Definition checkpointed (m : DeploymentStateManager) : Prop :=
  ∃ infos, kv_checkpoint m = Some (infos, _deleted_deployment_metadata m) ∧ dict_wf infos ∧
    ∀ n, dget n infos = ds_target <$> dget n (_deployment_states m).

Lemma deploy_checkpoints saved letters now name info m m' :
  dict_wf (_deployment_states m) →
  manager_deploy crc32 serialize saved letters now name info m = (m', Ok true) →
  checkpointed m'.
Proof.
  intros Hwf. unfold manager_deploy. intros H. inv_st.
  match goal with H : on_deployment _ _ ?x = _ |- _ => rename H into Hon; rename x into m1 end.
  assert (dict_wf (_deployment_states m1)) as Hwf1.
  { repeat case_match; inv_st; try done; by apply dset_wf. }
  unfold on_deployment in Hon. destruct (dget name (_deployment_states m1)) as [s|] eqn:Hs; [|done].
  destruct (deploy _ _ _ _ _ s) as [s' r] eqn:Hd. injection Hon as Hm ->.
  apply deploy_effects in Hd. unfold written in Hm. rewrite Hd, drop_app_length in Hm. cbn in Hm.
  subst m'. unfold checkpointed. cbn. eexists. split; [done|]. split.
  - apply dset_wf. unfold dict_wf. rewrite (dkeys_fmap get_checkpoint_data). exact Hwf1.
  - intros n. rewrite !dget_dset, (dget_fmap get_checkpoint_data). by case_decide.
Qed.

(** The replica actors of a deployment among the actors of the cluster. *)
Definition replica_of (n : string) (actor_name : string) : option (ReplicaTag * string) :=
  if is_replica_name actor_name then
    match from_str actor_name with
    | Ok (d, suffix) => if decide (d = n) then Some (replica_tag_of d suffix, d) else None
    | Err _ => None
    end
  else None.

Lemma actor_names_mapped names d0 :
  Forall (λ a, is_replica_name a = true → is_Ok (from_str a)) names →
  ∃ d, foldM map_actor_name d0 (List.filter is_replica_name names) = Ok d ∧
    ∀ n, dget_def n [] d = dget_def n [] d0 ++ omap (replica_of n) names.
Proof.
  revert d0. induction names as [|a names IH]; intros d0 Hall.
  { exists d0. split; [done|]. intros n. cbn. by rewrite app_nil_r. }
  inversion_clear Hall as [|?? Ha Hnames]. cbn [List.filter]. unfold replica_of.
  destruct (is_replica_name a) eqn:Hr; cbn [foldM].
  - destruct (Ha eq_refl) as [[t sfx] Hfrom]. 
    assert (map_actor_name d0 a =
      Ok (dset t (dget_def t [] d0 ++ [(replica_tag_of t sfx, t)]) d0)) as ->
      by (unfold map_actor_name; by rewrite Hfrom).
    cbn [mbind result_bind].
    destruct (IH (dset t (dget_def t [] d0 ++ [(replica_tag_of t sfx, t)]) d0) Hnames)
      as (d & Hd & Hget).
    exists d. split; [exact Hd|]. intros n. rewrite Hget, dget_def_dset. cbn. rewrite Hr, Hfrom.
    destruct (decide (n = t)) as [->|Hne].
    + rewrite decide_True by done. by rewrite <- app_assoc.
    + by rewrite decide_False.
  - destruct (IH d0 Hnames) as (d & Hd & Hget). exists d. split; [done|]. intros n.
    rewrite Hget. cbn. by rewrite Hr.
Qed.

Lemma recover_replicas exists_ now names s :
  (∀ tag, exists_ tag = true) →
  ∃ s', recover_current_state_from_replica_actor_names exists_ now names s = (s', Ok tt) ∧
    ds_target s' = ds_target s ∧
    (r_tag <$> rc_recovering (ds_replicas s')) =
      (r_tag <$> rc_recovering (ds_replicas s)) ++ names.*1.
Proof.
  intros Hex. unfold recover_current_state_from_replica_actor_names. revert s.
  induction names as [|[tag d] names IH]; intros s; cbn.
  { exists s. by rewrite app_nil_r. }
  unfold mbind, st_bind, st_lift, replica_recover. rewrite Hex. cbn.
  match goal with |- context [st_for names _ ?s1] =>
    destruct (IH s1) as (s' & E & Ht & Hr) end.
  exists s'. split_and!; [exact E|by rewrite Ht|]. rewrite Hr. unfold rc_add. cbn.
  rewrite fmap_app. cbn. by rewrite <- app_assoc.
Qed.

Lemma recover_deployment_ok exists_ now t actors tag target :
  (∀ r, exists_ r = true) →
  ∃ s, recover_deployment exists_ now t actors tag target = Ok s ∧ ds_target s = target ∧
    r_tag <$> rc_recovering (ds_replicas s) = (dget_def tag [] actors).*1.
Proof.
  intros Hex. unfold recover_deployment, recover_target_state_from_checkpoint. cbn.
  unfold mbind, st_bind, st_modify. cbn.
  destruct (recover_replicas exists_ now (dget_def tag [] actors) (set_target target (ds_init tag t)) Hex)
    as (s' & -> & Ht & Hr). by exists s'.
Qed.

(** The loop over the checkpoint. *)
Lemma recover_states exists_ now t actors infos states0 :
  (∀ r, exists_ r = true) → NoDup (dkeys infos) →
  ∃ states, foldM (recover_step exists_ now t actors) states0 infos = Ok states ∧
    ∀ n, match dget n infos with
         | Some target => ∃ s, dget n states = Some s ∧ ds_target s = target ∧
             r_tag <$> rc_recovering (ds_replicas s) = (dget_def n [] actors).*1
         | None => dget n states = dget n states0
         end.
Proof.
  intros Hex. revert states0. induction infos as [|[tag target] infos IH]; intros states0 Hnd; cbn.
  { by exists states0. }
  destruct (recover_deployment_ok exists_ now t actors tag target Hex) as (s & Hrec & Ht & Hr).
  assert (recover_step exists_ now t actors states0 (tag, target) = Ok (dset tag s states0)) as ->
    by (unfold recover_step; cbn; by rewrite Hrec).
  cbn [mbind result_bind].
  unfold dkeys in Hnd. cbn in Hnd. apply NoDup_cons in Hnd as [Htag Hnd].
  destruct (IH (dset tag s states0) Hnd) as (states & -> & Hget). exists states. split; [done|].
  intros n. specialize (Hget n). case_decide as Hn; [subst n|].
  - assert (dget tag infos = None) as Hnone.
    { destruct (dget tag infos) eqn:Hd; [|done]. destruct Htag. apply din_spec. unfold din.
      by rewrite Hd. }
    rewrite Hnone, dget_dset_eq in Hget. by exists s.
  - destruct (dget n infos); [done|]. by rewrite dget_dset_ne in Hget.
Qed.

(** The name an actor was created with. *)
Definition actor_name (a : Actor) : string :=
  match a with
  | inl (deployment, suffix) => actor_name_of (replica_tag_of deployment suffix)
  | inr name => name
  end.

(** No delimiter or colon in the deployment and the suffix of a replica, and no replica's
    name for another actor. *)
Definition readable (a : Actor) : bool :=
  match a with
  | inl (deployment, suffix) =>
      negb (str_in DELIMITER deployment) && negb (str_in DELIMITER suffix) &&
      negb (str_in ":" deployment) && negb (str_in ":" suffix)
  | inr name => negb (is_replica_name name)
  end.

(** The tags of the replicas of deployment [n]. *)
Definition tags_of (n : string) (actors : list Actor) : list ReplicaTag :=
  omap (λ a : Actor, match a with
                     | inl (deployment, suffix) =>
                         if decide (deployment = n) then Some (replica_tag_of deployment suffix) else None
                     | inr _ => None
                     end) actors.

Lemma readable_replica n a :
  readable a = true →
  (is_replica_name (actor_name a) = true → is_Ok (from_str (actor_name a))) ∧
  fst <$> replica_of n (actor_name a) =
    match a with
    | inl (d, suffix) => if decide (d = n) then Some (replica_tag_of d suffix) else None
    | inr _ => None
    end.
Proof.
  destruct a as [[d suffix]|name]; cbn [readable actor_name]; unfold replica_of.
  - intros [[[H1%negb_true_iff H2%negb_true_iff]%andb_true_iff H3%negb_true_iff]%andb_true_iff
      H4%negb_true_iff]%andb_true_iff.
    assert (is_replica_name (actor_name_of (replica_tag_of d suffix)) = true) as -> by apply str_prefix_app.
    rewrite (replica_name_roundtrip d suffix) by done. split; [by intros _; eexists|]. by case_decide.
  - intros Hn%negb_true_iff. rewrite Hn. done.
Qed.

Lemma readable_replicas n actors :
  Forall (λ a, readable a = true) actors →
  (omap (replica_of n) (actor_name <$> actors)).*1 = tags_of n actors.
Proof.
  induction 1 as [|a actors Ha _ IH]; [done|]. destruct (readable_replica n a Ha) as [_ Hr].
  unfold tags_of in *. rewrite fmap_cons. cbn [omap list_omap]. rewrite <- Hr.
  destruct (replica_of n (actor_name a)); cbn [fmap option_fmap option_map]; [|exact IH].
  rewrite fmap_cons. f_equal. exact IH.
Qed.

(** C11: a deploy survives a crash of the controller: after [deploy] returned [True], a
    controller that starts from the store finds exactly the same deployments with the same
    targets and the same deleted deployments, and attaches every replica actor to the
    deployment that it was created for, as recovering, under its tag.  The names of the
    deployments and the suffixes have no "#" and no ":" in them, other actors do not have
    the prefix of replicas, and no actor dies between the listing of the actors and its
    attachment. *)
Theorem deploy_survives_crash saved letters now name info m m' exists_ rnow t (actors : list Actor) :
  dict_wf (_deployment_states m) →
  manager_deploy crc32 serialize saved letters now name info m = (m', Ok true) →
  (∀ tag, exists_ tag = true) →
  Forall (λ a, readable a = true) actors →
  ∃ m'', _recover_from_checkpoint exists_ rnow t (kv_checkpoint m') (actor_name <$> actors) = Ok m'' ∧
    _deleted_deployment_metadata m'' = _deleted_deployment_metadata m' ∧
    (∀ n, ds_target <$> dget n (_deployment_states m'') =
          ds_target <$> dget n (_deployment_states m')) ∧
    ∀ n s, dget n (_deployment_states m'') = Some s →
      r_tag <$> rc_recovering (ds_replicas s) = tags_of n actors.
Proof.
  intros Hwf Hd Hex Hnames.
  destruct (deploy_checkpoints _ _ _ _ _ _ _ Hwf Hd) as (infos & Hkv & Hwf' & Hget).
  destruct (actor_names_mapped (actor_name <$> actors) []) as (da & Hda & Hactors).
  { apply Forall_fmap. eapply Forall_impl; [exact Hnames|]. intros a Ha.
    exact (proj1 (readable_replica ""%string a Ha)). }
  destruct (recover_states exists_ rnow t da infos [] Hex Hwf') as (states & Hst & Hs).
  unfold _recover_from_checkpoint, _map_actor_names_to_deployment. rewrite Hkv, Hda. cbn. rewrite Hst.
  cbn. eexists. split; [done|]. cbn. split_and!; [done|..].
  - intros n. rewrite <- Hget. specialize (Hs n). destruct (dget n infos).
    + by destruct Hs as (s & -> & <- & _).
    + cbn in Hs. by rewrite Hs.
  - intros n s Hn. specialize (Hs n). destruct (dget n infos); [|cbn in Hs; congruence].
    destruct Hs as (s' & Hs' & _ & Hr). simplify_eq. rewrite Hr, Hactors. by apply readable_replicas.
Qed.

(** A first deployment whose checkpoint cannot be written blocks the
    reconciler: the call raises, but leaves a deployment without target behind,
    and from then on every update of the manager raises [AttributeError] before
    it reaches any deployment created later. *)
Theorem failed_deploy_blocks_updates slow period e letters now name info m :
  _deployment_states m = [] →
  ∃ s, (manager_deploy crc32 serialize (Err e) letters now name info m).2 = Err e ∧
    _deployment_states (manager_deploy crc32 serialize (Err e) letters now name info m).1 =
      [(name, s)] ∧
    ∀ env m' rest, _deployment_states m' = (name, s) :: rest →
      manager_update crc32 serialize slow period env m' = (m', Err AttributeError).
Proof.
  intros Hempty. exists (ds_init name now).
  assert (∀ m1, _deployment_states m1 = [] →
    (on_deployment name (deploy crc32 serialize (Err e) letters info)
       (set_states (dset name (ds_init name now) (_deployment_states m1)) m1)) =
    (set_states [(name, ds_init name now)] m1, Err e)) as Hon.
  { intros m1 Hm1. unfold on_deployment. rewrite Hm1. cbn. rewrite decide_True by done. cbn.
    assert (deploy crc32 serialize (Err e) letters info (ds_init name now) =
      (ds_init name now, Err e)) as -> by done.
    unfold written. rewrite drop_all. cbn. by rewrite decide_True. }
  split_and!.
  - unfold manager_deploy, mbind, st_bind, st_get. rewrite Hempty.
    change (din name []) with false. unfold st_modify, mret, st_ret.
    destruct (din name (_deleted_deployment_metadata m)); cbv iota beta; by rewrite Hon.
  - unfold manager_deploy, mbind, st_bind, st_get. rewrite Hempty.
    change (din name []) with false. unfold st_modify, mret, st_ret.
    destruct (din name (_deleted_deployment_metadata m)); cbv iota beta; by rewrite Hon.
  - intros env m' rest Hs. 
    assert (update_one crc32 serialize slow period (env name) name m' = (m', Err AttributeError))
      as Hone.
    { unfold update_one, mbind, st_bind, st_get, st_lift, dget_exn. cbv beta iota. rewrite Hs.
      cbn [dget]. by rewrite decide_True. }
    unfold manager_update, mbind, st_bind, st_get. cbv beta iota. rewrite Hs.
    change (dkeys ((name, ds_init name now) :: rest)) with (name :: dkeys rest).
    cbn [update_all]. unfold mbind, st_bind. by rewrite Hone.
Qed.
End manager_proofs.

(** The metadata of deleted deployments is bounded, but one more deployment
    is kept than the constant says: adding one to a full record of
    [MAX_NUM_DELETED_DEPLOYMENTS] drops none. *)
Theorem deleted_metadata_bound name info meta :
  (length meta <= MAX_NUM_DELETED_DEPLOYMENTS + 1)%nat →
  (length (remember_deleted name info meta) <= MAX_NUM_DELETED_DEPLOYMENTS + 1)%nat ∧
  (length meta = MAX_NUM_DELETED_DEPLOYMENTS → name ∉ dkeys meta →
   length (remember_deleted name info meta) = MAX_NUM_DELETED_DEPLOYMENTS + 1)%nat.
Proof.
  intros Hle.
  assert (∀ d : dict string DeploymentInfo, length (dset name info d) =
    (length d + if din name d then 0 else 1)%nat) as Hlen.
  { intros d. transitivity (length (dkeys (dset name info d))); [by unfold dkeys; rewrite length_fmap|].
    rewrite dkeys_dset. unfold dkeys. destruct (din name d); rewrite ?length_app, length_fmap; cbn; lia. }
  unfold remember_deleted. rewrite Hlen.
  destruct (Nat.ltb_spec MAX_NUM_DELETED_DEPLOYMENTS (length meta)) as [Hlt|Hge].
  - split; [|intros; lia]. destruct meta as [|x meta]; cbn in *; [lia|]. destruct (din name meta); lia.
  - split; [destruct (din name meta); lia|]. intros Hm Hn. destruct (din name meta) eqn:Hd; [|lia].
    by apply din_spec in Hd.
Qed.

Module ManagerExamples.
Import ServeDeploymentProofs.Examples.

Definition empty_manager : DeploymentStateManager :=
  {| _deployment_states := []; _deleted_deployment_metadata := [];
     autoscaling_metrics_store := []; handle_metrics_store := []; kv_checkpoint := None |}.

Definition deployed : DeploymentStateManager :=
  (manager_deploy crc dumps (Ok tt) "" 0 "d" (info 2) empty_manager).1.

Definition alive : list Actor := [inr "SERVE_CONTROLLER"; inl ("d", "xKqZpA"); inl ("other", "aBcDeF")].

Lemma deploy_survives_crash_witness :
  actor_name <$> alive = ["SERVE_CONTROLLER"; "SERVE_REPLICA::d#xKqZpA"; "SERVE_REPLICA::other#aBcDeF"] ∧
  ∃ m'', _recover_from_checkpoint (λ _, true) (λ _, 0%Q) 0 (kv_checkpoint deployed) (actor_name <$> alive) = Ok m'' ∧
    ∀ s, dget "d" (_deployment_states m'') = Some s →
      r_tag <$> rc_recovering (ds_replicas s) = ["d#xKqZpA"].
Proof.
  split; [vm_compute; reflexivity|].
  destruct (deploy_survives_crash crc dumps (Ok tt) "" 0 "d" (info 2) empty_manager deployed
              (λ _, true) (λ _, 0%Q) 0 alive) as (m'' & Hrec & _ & _ & Hr);
    [constructor|vm_compute; reflexivity|done|repeat constructor; vm_compute; reflexivity|].
  exists m''. split; [exact Hrec|]. intros s Hs. exact (Hr "d" s Hs).
Defined.

Lemma failed_deploy_blocks_updates_witness :
  ∃ s, (manager_deploy crc dumps (Err RuntimeError) "" 0 "d" (info 2) empty_manager).2 =
      Err RuntimeError ∧
    _deployment_states
      (manager_deploy crc dumps (Err RuntimeError) "" 0 "d" (info 2) empty_manager).1 = [("d", s)] ∧
    ∀ env m' rest, _deployment_states m' = ("d", s) :: rest →
      manager_update crc dumps 30 30 env m' = (m', Err AttributeError).
Proof.
  apply (failed_deploy_blocks_updates crc dumps 30 30 RuntimeError "" 0 "d" (info 2) empty_manager).
  reflexivity.
Defined.

Lemma deleted_metadata_bound_witness :
  (length (remember_deleted "d" (info 2) []) <= MAX_NUM_DELETED_DEPLOYMENTS + 1)%nat ∧
  (length (@nil (string * DeploymentInfo)) = MAX_NUM_DELETED_DEPLOYMENTS → "d" ∉ dkeys ([] : dict string DeploymentInfo) →
   length (remember_deleted "d" (info 2) []) = MAX_NUM_DELETED_DEPLOYMENTS + 1)%nat.
Proof. apply (deleted_metadata_bound "d" (info 2) []). cbn. lia. Defined.
End ManagerExamples.
