(* ===== verification/ServeRouter.v ===== *)
(** * The Serve router (serve/_private/router.py, [ReplicaSet])

    Each handle keeps the set of running replicas with the queries in flight on
    each of them, and sends a query to the next replica, round robin, that has
    room.  Coroutines interleave at the [await]s: a step of the system is one
    atomic piece of a method.  A query in flight is known by the number of its
    reference. *)
From S2P Require Import Prelude ServeReplica.
From stdpp Require Import base tactics list strings.

#[local] Open Scope Z_scope.

Abbreviation ObjectRef := nat.

(** [replica_iterator] is the list that [itertools.cycle] goes round, from its
    next element on; [next_ref] numbers the requests sent, which [sent] records. *)
Record ReplicaSet := {
  in_flight_queries : dict RunningReplicaInfo (list ObjectRef);
  replica_iterator : list RunningReplicaInfo;
  config_updated_event : bool;
  num_queued_queries : Z;
  next_ref : ObjectRef;
  sent : list (RunningReplicaInfo * ObjectRef);
}.

Definition replica_set_init : ReplicaSet :=
  {| in_flight_queries := []; replica_iterator := []; config_updated_event := false;
     num_queued_queries := 0; next_ref := 0; sent := [] |}.

Definition set_in_flight (d : dict RunningReplicaInfo (list ObjectRef)) (s : ReplicaSet) :
    ReplicaSet :=
  {| in_flight_queries := d; replica_iterator := replica_iterator s;
     config_updated_event := config_updated_event s; num_queued_queries := num_queued_queries s;
     next_ref := next_ref s; sent := sent s |}.
Definition set_iterator (l : list RunningReplicaInfo) (s : ReplicaSet) : ReplicaSet :=
  {| in_flight_queries := in_flight_queries s; replica_iterator := l;
     config_updated_event := config_updated_event s; num_queued_queries := num_queued_queries s;
     next_ref := next_ref s; sent := sent s |}.
Definition set_event (b : bool) (s : ReplicaSet) : ReplicaSet :=
  {| in_flight_queries := in_flight_queries s; replica_iterator := replica_iterator s;
     config_updated_event := b; num_queued_queries := num_queued_queries s;
     next_ref := next_ref s; sent := sent s |}.
Definition set_queued (n : Z) (s : ReplicaSet) : ReplicaSet :=
  {| in_flight_queries := in_flight_queries s; replica_iterator := replica_iterator s;
     config_updated_event := config_updated_event s; num_queued_queries := n;
     next_ref := next_ref s; sent := sent s |}.

(** The request is sent to the replica's actor; its tracker is in flight. *)
Definition send (replica : RunningReplicaInfo) (refs : list ObjectRef) (s : ReplicaSet) :
    ReplicaSet :=
  {| in_flight_queries := dset replica (refs ++ [next_ref s]) (in_flight_queries s);
     replica_iterator := replica_iterator s;
     config_updated_event := config_updated_event s; num_queued_queries := num_queued_queries s;
     next_ref := S (next_ref s); sent := sent s ++ [(replica, next_ref s)] |}.

Section router.
(** [random.shuffle] *)
Context (shuffle : list RunningReplicaInfo → list RunningReplicaInfo).

Definition _reset_replica_iterator (s : ReplicaSet) : ReplicaSet :=
  set_iterator (shuffle (dkeys (in_flight_queries s))) s.

(** The sets of added, removed and kept entries, as lists without duplicates. *)
Definition compute_iterable_delta (old new : list RunningReplicaInfo) :
    list RunningReplicaInfo * list RunningReplicaInfo * list RunningReplicaInfo :=
  (remove_dups (filter (λ r, r ∉ old) new), remove_dups (filter (λ r, r ∉ new) old),
   remove_dups (filter (λ r, r ∈ new) old)).

Definition update_running_replicas (running_replicas : list RunningReplicaInfo) (s : ReplicaSet) :
    ReplicaSet :=
  let '(added, removed, _) :=
    compute_iterable_delta (dkeys (in_flight_queries s)) running_replicas in
  let d := fold_left (λ d r, dset r [] d) added (in_flight_queries s) in
  let d := fold_left (λ d r, ddel r d) removed d in
  let s := set_in_flight d s in
  if (0 <? length added)%nat || (0 <? length removed)%nat
  then set_event true (_reset_replica_iterator s)
  else s.

(** [next(self.replica_iterator)] *)
Definition next_replica : ST ReplicaSet RunningReplicaInfo := λ s,
  match replica_iterator s with
  | [] => (s, Err StopIteration)
  | r :: rest => (set_iterator (rest ++ [r]) s, Ok r)
  end.

(** At most [n] replicas are tried. *)
Fixpoint try_replicas (n : nat) : ST ReplicaSet (option ObjectRef) :=
  match n with
  | O => mret None
  | S n =>
      replica ← next_replica;
      s ← st_get;
      refs ← st_lift (dget_exn replica (in_flight_queries s));
      max_concurrent ← st_lift (of_option TypeError (ri_max_concurrent_queries replica));
      if max_concurrent <=? Z.of_nat (length refs) then try_replicas n
      else
        _ ← st_modify (send replica refs);
        mret (Some (next_ref s))
  end.

Definition _try_assign_replica : ST ReplicaSet (option ObjectRef) :=
  s ← st_get; try_replicas (length (dkeys (in_flight_queries s))).

Definition _all_query_refs (s : ReplicaSet) : list ObjectRef :=
  concat (dvalues (in_flight_queries s)).

(** [done]: the references that [ray.wait] reports; [crashed]: whether getting
    the completed queries of a replica raises [RayActorError]. *)
Definition drain_replica (done_ : ObjectRef → bool)
    (crashed : RunningReplicaInfo → list ObjectRef → bool)
    (p : RunningReplicaInfo * list ObjectRef) :
    (RunningReplicaInfo * list ObjectRef) * list RunningReplicaInfo :=
  let completed := List.filter done_ p.2 in
  if (0 <? length completed)%nat
  then ((p.1, List.filter (λ r, negb (done_ r)) p.2),
        if crashed p.1 completed then [p.1] else [])
  else (p, []).

Definition _drain_completed_object_refs (done_ : ObjectRef → bool)
    (crashed : RunningReplicaInfo → list ObjectRef → bool) (s : ReplicaSet) : ReplicaSet * nat :=
  let num_done := length (List.filter done_ (_all_query_refs s)) in
  let drained := drain_replica done_ crashed <$> in_flight_queries s in
  let replicas_to_remove := concat (snd <$> drained) in
  let s := set_in_flight (fst <$> drained) s in
  (if (0 <? length replicas_to_remove)%nat
   then _reset_replica_iterator
          (set_in_flight (fold_left (λ d r, ddel r d) replicas_to_remove (in_flight_queries s)) s)
   else s, num_done).

(** [assign_replica], piece by piece: a query is queued; it is assigned, or the
    completed queries are drained; it waits when nothing completed, and clears
    the event when it wakes. *)
Definition enqueue (s : ReplicaSet) : ReplicaSet := set_queued (num_queued_queries s + 1) s.

Definition assign_step (s : ReplicaSet) : ReplicaSet * result (option ObjectRef) :=
  match _try_assign_replica s with
  | (s, Ok (Some ref)) => (set_queued (num_queued_queries s - 1) s, Ok (Some ref))
  | (s, r) => (s, r)
  end.

Definition wake_up (s : ReplicaSet) : ReplicaSet :=
  if config_updated_event s then set_event false s else s.

End router.
