(* ===== verification/ServeRouterProofs.v ===== *)
(** * Correctness of the Serve router *)
From S2P Require Import Prelude ServeReplica ServeRouter.
From stdpp Require Import base tactics list strings relations sets.

#[local] Open Scope Z_scope.

Section router_proofs.
Implicit Types (s : ReplicaSet) (r : RunningReplicaInfo).

Definition within_capacity (d : dict RunningReplicaInfo (list ObjectRef)) : Prop :=
  ∀ r refs, dget r d = Some refs →
    ∃ mx, ri_max_concurrent_queries r = Some mx ∧ Z.of_nat (length refs) <= Z.max 0 mx.

(** The queries counted for a replica were sent to it. *)
Definition counted_were_sent (s : ReplicaSet) : Prop :=
  ∀ r refs, dget r (in_flight_queries s) = Some refs → ∀ q, q ∈ refs → (r, q) ∈ sent s.

Record router_inv (s : ReplicaSet) : Prop := {
  ri_wf : dict_wf (in_flight_queries s);
  ri_iter : replica_iterator s ≡ₚ dkeys (in_flight_queries s);
  ri_cap : within_capacity (in_flight_queries s);
  ri_sent : counted_were_sent s;
}.

(** ** Handles *)

(** The process has made [base] handles: those of its members are older. *)
Definition handles_below (base : nat) (s : ReplicaSet) : Prop :=
  ∀ r n, r ∈ dkeys (in_flight_queries s) → ri_actor_handle r = UnpickledHandle n → (n < base)%nat.

Lemma elem_of_unpickle base rs r :
  r ∈ unpickle_infos base rs ↔
  ∃ i r0, rs !! i = Some r0 ∧ r = with_handle (UnpickledHandle (base + i)) r0.
Proof.
  unfold unpickle_infos. rewrite list_elem_of_lookup. split.
  - intros (i & Hi). rewrite list_lookup_imap in Hi. apply fmap_Some in Hi as (r0 & Hr & ->). eauto.
  - intros (i & r0 & Hi & ->). exists i. by rewrite list_lookup_imap, Hi.
Qed.

Lemma unpickle_fresh base rs s r :
  handles_below base s → r ∈ unpickle_infos base rs → r ∉ dkeys (in_flight_queries s).
Proof.
  intros Hb (i & r0 & _ & ->)%elem_of_unpickle Hin.
  specialize (Hb _ (base + i)%nat Hin eq_refl). lia.
Qed.

Lemma unpickle_same base rs r :
  r ∈ unpickle_infos base rs → ∃ r', r' ∈ rs ∧ same_replica r r'.
Proof.
  intros (i & r0 & Hi & ->)%elem_of_unpickle. exists r0.
  split; [by eapply list_elem_of_lookup_2|]. by destruct r0.
Qed.

(** ** Dictionaries under deletion *)

Lemma fold_ddel {V} (rs : list RunningReplicaInfo) (d : dict RunningReplicaInfo V) :
  dict_wf d →
  dict_wf (fold_left (λ d r, ddel r d) rs d) ∧
  ∀ k, dget k (fold_left (λ d r, ddel r d) rs d) = if decide (k ∈ rs) then None else dget k d.
Proof.
  revert d. induction rs as [|r rs IH]; cbn; intros d Hwf; [done|].
  destruct (IH (ddel r d) (ddel_wf d r Hwf)) as [IH1 IH2]. split; [done|]. intros k.
  rewrite IH2, dget_ddel by done. repeat case_decide; set_solver.
Qed.

Lemma fold_dset_empty (rs : list RunningReplicaInfo) (d : dict RunningReplicaInfo (list ObjectRef)) :
  dict_wf d →
  dict_wf (fold_left (λ d r, dset r [] d) rs d) ∧
  ∀ k, dget k (fold_left (λ d r, dset r [] d) rs d) = if decide (k ∈ rs) then Some [] else dget k d.
Proof.
  revert d. induction rs as [|r rs IH]; cbn; intros d Hwf; [done|].
  destruct (IH (dset r [] d) (dset_wf _ _ _ Hwf)) as [IH1 IH2]. split; [done|]. intros k.
  rewrite IH2, dget_dset. repeat case_decide; set_solver.
Qed.

Lemma elem_of_dkeys_dget {V} (d : dict RunningReplicaInfo V) k : k ∈ dkeys d ↔ is_Some (dget k d).
Proof.
  rewrite <- din_spec. unfold din. destruct (dget k d); split; try done; by intros [? ?].
Qed.

(** Two well-formed dictionaries with the same keys. *)
Lemma dkeys_perm {V W} (d : dict RunningReplicaInfo V) (d' : dict RunningReplicaInfo W) :
  dict_wf d → dict_wf d' → (∀ k, k ∈ dkeys d ↔ k ∈ dkeys d') → dkeys d ≡ₚ dkeys d'.
Proof. intros H1 H2 Hk. by apply NoDup_Permutation. Qed.

(** ** Membership *)

Section effects.
Context (shuffle : list RunningReplicaInfo → list RunningReplicaInfo)
        (shuffle_perm : ∀ l, shuffle l ≡ₚ l).

Lemma update_effect rs s :
  dict_wf (in_flight_queries s) →
  let s' := update_running_replicas shuffle rs s in
  dict_wf (in_flight_queries s') ∧
  (∀ k, dget k (in_flight_queries s') =
     if decide (k ∈ rs) then Some (default [] (dget k (in_flight_queries s))) else None) ∧
  sent s' = sent s ∧
  (replica_iterator s ≡ₚ dkeys (in_flight_queries s) →
   replica_iterator s' ≡ₚ dkeys (in_flight_queries s')).
Proof.
  intros Hwf. unfold update_running_replicas, compute_iterable_delta.
  set (added := remove_dups (filter (λ r, r ∉ dkeys (in_flight_queries s)) rs)).
  set (removed := remove_dups (filter (λ r, r ∉ rs) (dkeys (in_flight_queries s)))).
  destruct (fold_dset_empty added (in_flight_queries s) Hwf) as [Hw1 Hg1].
  destruct (fold_ddel removed _ Hw1) as [Hw2 Hg2].
  set (d := fold_left (λ d r, ddel r d) removed _) in *.
  assert (∀ k, dget k d =
     if decide (k ∈ rs) then Some (default [] (dget k (in_flight_queries s))) else None) as Hget.
  { intros k. rewrite Hg2, Hg1. unfold added, removed.
    assert (k ∈ dkeys (in_flight_queries s) ↔ is_Some (dget k (in_flight_queries s))) as Hk
      by apply elem_of_dkeys_dget.
    destruct (dget k (in_flight_queries s)) as [v|] eqn:Hd; cbn.
    - assert (k ∈ dkeys (in_flight_queries s)) as Hin by (apply Hk; by eexists).
      repeat case_decide; rewrite ?elem_of_remove_dups, ?list_elem_of_filter in *; naive_solver.
    - assert (k ∉ dkeys (in_flight_queries s)) as Hin by (intros [? ?]%Hk; done).
      repeat case_decide; rewrite ?elem_of_remove_dups, ?list_elem_of_filter in *; naive_solver. }
  destruct ((0 <? length added)%nat || (0 <? length removed)%nat) eqn:Hch; cbn.
  - split_and!; [done|done|done|intros _; apply shuffle_perm].
  - split_and!; [done|done|done|]. intros Hit. rewrite Hit. apply orb_false_iff in Hch as [Ha Hr].
    apply Nat.ltb_ge in Ha, Hr.
    destruct added eqn:Ea; [|cbn in Ha; lia]. destruct removed eqn:Er; [|cbn in Hr; lia]. done.
Qed.

(** ** Assignment *)

Definition full (s : ReplicaSet) (r : RunningReplicaInfo) : Prop :=
  ∃ refs mx, dget r (in_flight_queries s) = Some refs ∧ ri_max_concurrent_queries r = Some mx ∧
    mx <= Z.of_nat (length refs).

(** Trying the next [length l1] replicas: they are all full, or the first that
    has room gets the query. *)
Lemma try_replicas_spec l1 l2 s :
  router_inv s → replica_iterator s = l1 ++ l2 →
  (Forall (full s) l1 ∧ try_replicas (length l1) s = (set_iterator (l2 ++ l1) s, Ok None)) ∨
  ∃ pre r post refs mx, l1 = pre ++ r :: post ∧ Forall (full s) pre ∧
    dget r (in_flight_queries s) = Some refs ∧ ri_max_concurrent_queries r = Some mx ∧
    Z.of_nat (length refs) < mx ∧
    try_replicas (length l1) s =
      (send r refs (set_iterator (post ++ l2 ++ pre ++ [r]) s), Ok (Some (next_ref s))).
Proof.
  intros Hinv. revert l2 s Hinv. induction l1 as [|r l1 IH]; intros l2 s Hinv Hit.
  { left. split; [done|]. cbn. rewrite app_nil_r. cbn in Hit. rewrite <- Hit.
    by destruct s. }
  cbn [try_replicas length]. unfold mbind, st_bind, next_replica. rewrite Hit. cbn [app].
  assert (r ∈ dkeys (in_flight_queries s)) as Hin
    by (rewrite <- (ri_iter _ Hinv), Hit; left).
  apply elem_of_dkeys_dget in Hin as [refs Hrefs].
  destruct (ri_cap _ Hinv r refs Hrefs) as (mx & Hmx & Hle).
  unfold st_get, st_lift, dget_exn. cbn. rewrite Hrefs, Hmx. cbn.
  destruct (Z.leb_spec mx (Z.of_nat (length refs))) as [Hfull|Hroom].
  - assert (full s r) as Hf by (exists refs, mx; done).
    set (s1 := set_iterator ((l1 ++ l2) ++ [r]) s).
    assert (router_inv s1) as Hinv1.
    { destruct Hinv as [Hw Hi Hc Hq]. constructor; cbn; [done| |done|done]. rewrite <- Hi, Hit.
      solve_Permutation. }
    destruct (IH (l2 ++ [r]) s1 Hinv1 ltac:(cbn; by rewrite app_assoc)) as
      [[Hall E]|(pre & r' & post & refs' & mx' & -> & Hpre & Hg & Hm & Hlt & E)].
    + left. split; [by constructor|]. rewrite E. unfold s1, set_iterator. cbn.
      by rewrite <- app_assoc.
    + right. exists (r :: pre), r', post, refs', mx'. split_and!; try done; [by constructor|].
      rewrite E.
      assert (post ++ (l2 ++ [r]) ++ pre ++ [r'] = post ++ l2 ++ (r :: pre) ++ [r']) as ->
        by by rewrite <- app_assoc.
      done.
  - right. exists [], r, l1, refs, mx. split_and!; try done.
    unfold send, set_iterator. cbn. unfold mret, st_ret. by rewrite <- app_assoc.
Qed.

Lemma try_assign_spec s :
  router_inv s →
  (Forall (full s) (dkeys (in_flight_queries s)) ∧ _try_assign_replica s = (s, Ok None)) ∨
  ∃ r refs mx it, dget r (in_flight_queries s) = Some refs ∧
    ri_max_concurrent_queries r = Some mx ∧ Z.of_nat (length refs) < mx ∧
    it ≡ₚ replica_iterator s ∧
    _try_assign_replica s = (send r refs (set_iterator it s), Ok (Some (next_ref s))).
Proof.
  intros Hinv. unfold _try_assign_replica, mbind, st_bind, st_get.
  pose proof (ri_iter _ Hinv) as Hi.
  rewrite <- (Permutation_length Hi).
  destruct (try_replicas_spec (replica_iterator s) [] s Hinv) as
    [[Hall E]|(pre & r & post & refs & mx & Hl & Hpre & Hg & Hm & Hlt & E)];
    [by rewrite app_nil_r| |].
  - left. split; [by rewrite <- Hi|]. rewrite E. cbn. by destruct s.
  - right. exists r, refs, mx, (post ++ [] ++ pre ++ [r]). split_and!; try done.
    rewrite Hl. solve_Permutation.
Qed.

Lemma send_inv s r refs mx it :
  router_inv s → dget r (in_flight_queries s) = Some refs →
  ri_max_concurrent_queries r = Some mx → Z.of_nat (length refs) < mx →
  it ≡ₚ replica_iterator s → router_inv (send r refs (set_iterator it s)).
Proof.
  intros [Hw Hi Hc Hq] Hg Hm Hlt Hit. constructor; cbn.
  - by apply dset_wf.
  - rewrite Hit, Hi, dkeys_dset. unfold din. by rewrite Hg.
  - intros r' refs'. rewrite dget_dset. case_decide as Hr; [|by apply Hc]. subst r'.
    intros ?; simplify_eq. exists mx. split; [done|]. rewrite length_app. cbn. lia.
  - intros r' refs'. cbn. rewrite dget_dset. intros Hr' q Hin. apply elem_of_app.
    case_decide as Hr; [|left; by eapply Hq]. subst r'. simplify_eq.
    apply elem_of_app in Hin as [Hin|Hin]; [left; by eapply Hq|right].
    apply list_elem_of_singleton in Hin as ->. by apply list_elem_of_singleton.
Qed.

(** ** The invariant *)

Lemma drained_get done_ crashed (d : dict RunningReplicaInfo (list ObjectRef)) r refs :
  dget r (fst <$> (drain_replica done_ crashed <$> d)) = Some refs →
  ∃ refs', dget r d = Some refs' ∧ (length refs <= length refs')%nat ∧ ∀ q, q ∈ refs → q ∈ refs'.
Proof.
  induction d as [|[r1 l1] d IH]; [done|]. rewrite !fmap_cons.
  destruct (drain_replica done_ crashed (r1, l1)) as [[r1' l1'] gone] eqn:Hd.
  assert (r1' = r1 ∧ (length l1' <= length l1)%nat ∧ ∀ q, q ∈ l1' → q ∈ l1) as (-> & Hle & Hsub).
  { unfold drain_replica in Hd. cbn in Hd. case_match; simplify_eq; split_and!; try done.
    - apply List.filter_length_le.
    - intros q. rewrite !list_elem_of_In, filter_In. tauto. }
  cbn [dget fst]. case_decide; [|exact IH]. intros [= <-]. by exists l1.
Qed.

Lemma drained_keys done_ crashed (d : dict RunningReplicaInfo (list ObjectRef)) :
  dkeys (fst <$> (drain_replica done_ crashed <$> d)) = dkeys d.
Proof.
  unfold dkeys. rewrite <- !list_fmap_compose. apply list_fmap_ext. intros i p _. cbn.
  unfold drain_replica. by case_match.
Qed.

(** What draining leaves. *)
Lemma drain_effect s done_ crashed :
  dict_wf (in_flight_queries s) →
  let s' := (_drain_completed_object_refs shuffle done_ crashed s).1 in
  dict_wf (in_flight_queries s') ∧
  (∀ r refs, dget r (in_flight_queries s') = Some refs →
     ∃ refs', dget r (in_flight_queries s) = Some refs' ∧ (length refs <= length refs')%nat ∧
       ∀ q, q ∈ refs → q ∈ refs') ∧
  sent s' = sent s ∧
  (replica_iterator s ≡ₚ dkeys (in_flight_queries s) →
   replica_iterator s' ≡ₚ dkeys (in_flight_queries s')).
Proof.
  intros Hw. unfold _drain_completed_object_refs. cbv zeta. cbn [fst].
  pose proof (drained_keys done_ crashed (in_flight_queries s)) as Hk.
  pose proof (drained_get done_ crashed (in_flight_queries s)) as Hd.
  set (d := fst <$> (drain_replica done_ crashed <$> in_flight_queries s)) in *.
  set (gone := concat _). assert (dict_wf d) as Hwd by (unfold dict_wf; by rewrite Hk).
  destruct (0 <? length gone)%nat eqn:Hg.
  - destruct (fold_ddel gone d Hwd) as [Hwf Hget].
    split_and!; [exact Hwf| |done|intros _; apply shuffle_perm]. intros r refs Hr.
    change (dget r (fold_left (λ d r, ddel r d) gone d) = Some refs) in Hr.
    rewrite Hget in Hr. case_decide; [done|]. by apply Hd.
  - split_and!; [exact Hwd|exact Hd|done|]. intros Hi. change (replica_iterator s ≡ₚ dkeys d).
    by rewrite Hi, Hk.
Qed.
End effects.

(** ** The system *)

(** A replica that runs knows how many queries it takes. *)
Definition capacity_known (rs : list RunningReplicaInfo) : Prop :=
  Forall (λ r, is_Some (ri_max_concurrent_queries r)) rs.

(** The router's own steps; every call of [random.shuffle] gives its own
    permutation. *)
Inductive rlocal : ReplicaSet → ReplicaSet → Prop :=
  | local_enqueue s : rlocal s (enqueue s)
  | local_assign s s' o : assign_step s = (s', o) → rlocal s s'
  | local_drain shuffle s done_ crashed :
      (∀ l, shuffle l ≡ₚ l) → rlocal s (_drain_completed_object_refs shuffle done_ crashed s).1
  | local_wake_up s : rlocal s (wake_up s).

(** Those and the updates of the membership, in any interleaving.  Every long-poll answer
    is unpickled: its infos carry handles that the process has not seen before. *)
Inductive rstep : ReplicaSet → ReplicaSet → Prop :=
  | step_update shuffle base s rs :
      (∀ l, shuffle l ≡ₚ l) → capacity_known rs → handles_below base s →
      rstep s (update_running_replicas shuffle (unpickle_infos base rs) s)
  | step_local s s' : rlocal s s' → rstep s s'.

Definition reachable_set : ReplicaSet → Prop := rtc rstep replica_set_init.

Lemma router_inv_init : router_inv replica_set_init.
Proof. constructor; cbn; [constructor|done|by intros r refs H|by intros r refs H]. Qed.

Lemma rlocal_inv s s' : rlocal s s' → router_inv s → router_inv s'.
Proof.
  destruct 1 as [s|s s' o Ha|shuffle s done_ crashed Hsh|s]; intros Hinv.
  - by destruct Hinv.
  - unfold assign_step in Ha.
    destruct (try_assign_spec s Hinv) as [[_ E]|(r & refs & mx & it & Hg & Hm & Hlt & Hit & E)];
      rewrite E in Ha; simplify_eq; [done|].
    destruct (send_inv s r refs mx it Hinv Hg Hm Hlt Hit) as [H1 H2 H3 H4]. by constructor.
  - destruct Hinv as [Hw Hi Hc Hq].
    destruct (drain_effect shuffle Hsh s done_ crashed Hw) as (Hw' & Hg & Hsent & Hi').
    constructor; [done|auto| |]; intros r refs Hr; destruct (Hg r refs Hr) as (refs' & Hr' & Hle & Hsub).
    + destruct (Hc r refs' Hr') as (mx & Hm & Hle'). exists mx. split; [done|]. lia.
    + intros q Hin. rewrite Hsent. eapply Hq; [exact Hr'|auto].
  - unfold wake_up. case_match; [by destruct Hinv|done].
Qed.

(** An answer replaces all members: none of its infos was a member, because its handles are
    new. *)
Lemma update_fresh shuffle base rs s :
  (∀ l, shuffle l ≡ₚ l) → dict_wf (in_flight_queries s) → handles_below base s →
  ∀ k, dget k (in_flight_queries (update_running_replicas shuffle (unpickle_infos base rs) s)) =
    if decide (k ∈ unpickle_infos base rs) then Some [] else None.
Proof.
  intros Hsh Hw Hb k. destruct (update_effect shuffle Hsh (unpickle_infos base rs) s Hw) as (_ & Hg & _).
  rewrite Hg. case_decide as Hk; [|done]. f_equal.
  pose proof (unpickle_fresh base rs s k Hb Hk) as Hnot. rewrite elem_of_dkeys_dget in Hnot.
  destruct (dget k (in_flight_queries s)); [|done]. by destruct Hnot.
Qed.

Lemma rstep_inv s s' : rstep s s' → router_inv s → router_inv s'.
Proof.
  destruct 1 as [shuffle base s rs Hsh Hrs Hb|s s' Hl]; [|by apply rlocal_inv]. intros [Hw Hi Hc Hq].
  destruct (update_effect shuffle Hsh (unpickle_infos base rs) s Hw) as (Hw' & _ & _ & Hi').
  pose proof (update_fresh shuffle base rs s Hsh Hw Hb) as Hg. constructor; [done|auto| |];
    intros r refs; rewrite Hg; case_decide as Hr; intros ?; simplify_eq.
  - apply unpickle_same in Hr as (r' & Hr' & Hsame). unfold capacity_known in Hrs.
    rewrite Forall_forall in Hrs. destruct (Hrs r' Hr') as [mx Hm]. exists mx.
    split; [|cbn; lia]. rewrite <- Hsame in Hm. by destruct r.
  - by intros q ?%not_elem_of_nil.
Qed.

Lemma reachable_router_inv s : reachable_set s → router_inv s.
Proof.
  intros Hr. eapply (rtc_ind_r router_inv); [apply router_inv_init| |exact Hr].
  intros; by eapply rstep_inv.
Qed.

(** C14: however queries, completions and long-poll answers interleave, where every info
    of an answer has a maximum and, being unpickled, a handle of its own: for each replica
    info of the last answer, a handle never counts more queries in flight than the info's
    maximum, and every query it counts was sent to that info's replica; an answer starts
    the counts of all its infos at zero, those of replicas that stay too, because infos are
    equal only if they hold the same handle object. *)
Theorem router_respects_capacity s :
  reachable_set s →
  (∀ r refs, dget r (in_flight_queries s) = Some refs →
     ∃ mx, ri_max_concurrent_queries r = Some mx ∧ Z.of_nat (length refs) <= Z.max 0 mx ∧
       ∀ q, q ∈ refs → (r, q) ∈ sent s) ∧
  ∀ shuffle base rs k, (∀ l, shuffle l ≡ₚ l) → handles_below base s →
    dget k (in_flight_queries (update_running_replicas shuffle (unpickle_infos base rs) s)) =
      if decide (k ∈ unpickle_infos base rs) then Some [] else None.
Proof.
  intros Hr%reachable_router_inv. split.
  - intros r refs Hg. destruct (ri_cap _ Hr r refs Hg) as (mx & Hm & Hle). exists mx.
    split_and!; [done|done|]. by apply (ri_sent _ Hr).
  - intros shuffle base rs k Hsh Hb. apply update_fresh; [done|apply Hr|done].
Qed.

(** In every reachable state, trying to assign a query raises nothing and
    gives up only when every replica is at its limit (changing nothing);
    otherwise it sends the query to one replica that has room and counts it
    there. *)
Theorem assign_iff_room s :
  reachable_set s →
  (Forall (full s) (dkeys (in_flight_queries s)) ∧ _try_assign_replica s = (s, Ok None)) ∨
  ∃ s' r refs, _try_assign_replica s = (s', Ok (Some (next_ref s))) ∧
    dget r (in_flight_queries s) = Some refs ∧ ¬ full s r ∧
    sent s' = sent s ++ [(r, next_ref s)] ∧
    in_flight_queries s' = dset r (refs ++ [next_ref s]) (in_flight_queries s).
Proof.
  intros Hr%reachable_router_inv.
  destruct (try_assign_spec s Hr) as [[Hall E]|(r & refs & mx & it & Hg & Hm & Hlt & Hit & E)];
    [by left|]. right. eexists _, r, refs. split_and!; [exact E|done| |done|done].
  intros (refs' & mx' & Hg' & Hm' & Hle). simplify_eq. lia.
Qed.

(** [update_running_replicas] makes the router's replicas exactly the given ones, and
    keeps the queries in flight on the infos that stay, which in a process that received
    the list by long poll are none ([update_fresh]). *)
Theorem update_replaces_members shuffle s rs k :
  (∀ l, shuffle l ≡ₚ l) → reachable_set s →
  dget k (in_flight_queries (update_running_replicas shuffle rs s)) =
    if decide (k ∈ rs) then Some (default [] (dget k (in_flight_queries s))) else None.
Proof. intros Hsh [Hw _ _ _]%reachable_router_inv. by apply (update_effect shuffle Hsh rs s Hw). Qed.
End router_proofs.

(** ** A concrete router *)

Module RouterExamples.

Definition announced1 : RunningReplicaInfo :=
  {| ri_deployment_name := "d"; ri_tag := "d#a"; ri_actor_handle := ControllerHandle "d#a";
     ri_max_concurrent_queries := Some 1; ri_is_cross_language := false |}.
Definition announced2 : RunningReplicaInfo :=
  {| ri_deployment_name := "d"; ri_tag := "d#b"; ri_actor_handle := ControllerHandle "d#b";
     ri_max_concurrent_queries := Some 1; ri_is_cross_language := false |}.

(** What the first answer, of both replicas, becomes in the router's process. *)
Definition r1 : RunningReplicaInfo := with_handle (UnpickledHandle 0) announced1.
Definition r2 : RunningReplicaInfo := with_handle (UnpickledHandle 1) announced2.

Definition two : ReplicaSet := update_running_replicas id [r1; r2] replica_set_init.
Definition busy_set : ReplicaSet := (assign_step two).1.

Lemma two_reachable : reachable_set two.
Proof.
  eapply rtc_l; [|apply rtc_refl].
  apply (step_update id 0 _ [announced1; announced2]); [done|repeat constructor; by eexists|].
  intros r n Hin. by apply not_elem_of_nil in Hin.
Qed.

Lemma busy_reachable : reachable_set busy_set.
Proof.
  eapply rtc_r; [apply two_reachable|].
  eapply step_local, (local_assign _ _ (assign_step two).2). apply surjective_pairing.
Qed.

Lemma router_respects_capacity_witness :
  ∃ mx, Some 1 = Some mx ∧ Z.of_nat (length [0%nat]) <= Z.max 0 mx ∧
    ∀ q, q ∈ [0%nat] → (r1, q) ∈ sent busy_set.
Proof.
  destruct (router_respects_capacity busy_set busy_reachable) as [Hcap _].
  apply (Hcap r1 [0%nat]). vm_compute. reflexivity.
Defined.

(** A replica that takes one query at a time is sent two: the second answer forgets the
    query that it has. *)
Definition one : ReplicaSet := update_running_replicas id [r1] replica_set_init.
Definition after_second_answer : ReplicaSet :=
  update_running_replicas id (unpickle_infos 1 [announced1]) (assign_step one).1.

Example second_answer_exceeds_maximum :
  (λ p, (ri_tag p.1, p.2)) <$> sent (assign_step after_second_answer).1 =
    [("d#a", 0%nat); ("d#a", 1%nat)].
Proof. vm_compute. reflexivity. Qed.

Lemma assign_iff_room_witness :
  (Forall (full busy_set) (dkeys (in_flight_queries busy_set)) ∧
   _try_assign_replica busy_set = (busy_set, Ok None)) ∨
  ∃ s' r refs, _try_assign_replica busy_set = (s', Ok (Some 1%nat)) ∧
    dget r (in_flight_queries busy_set) = Some refs ∧ ¬ full busy_set r ∧
    sent s' = sent busy_set ++ [(r, 1%nat)] ∧
    in_flight_queries s' = dset r (refs ++ [1%nat]) (in_flight_queries busy_set).
Proof. apply (assign_iff_room busy_set busy_reachable). Defined.

Lemma update_replaces_members_witness :
  dget r1 (in_flight_queries (update_running_replicas id [r1] busy_set)) = Some [0%nat].
Proof. apply (update_replaces_members id busy_set [r1] r1 (λ l, reflexivity l) busy_reachable). Defined.
End RouterExamples.
