(* ===== verification/ServeLongPoll.v ===== *)
(** * Serve long polling (serve/_private/long_poll.py)

    The controller's host keeps the latest snapshot of each object with an
    identifier of its version; a client polls with the identifiers it has and is
    answered at once when one is outdated, otherwise when an object changes.
    Coroutines and callbacks interleave: [listen_for_change] is split at its
    [await], and the client's handling of an answer at the callbacks it posts to
    its event loop. *)
From S2P Require Import Prelude PyStrings.
From stdpp Require Import base tactics list strings.
From Stdlib Require Import Ascii.

#[local] Open Scope Z_scope.

Inductive LongPollNamespace := RUNNING_REPLICAS | ROUTE_TABLE.

#[global] Instance LongPollNamespace_eq_dec : EqDecision LongPollNamespace.
Proof. solve_decision. Defined.

Inductive KeyType :=
  | KStr (s : string)
  | KNamespace (n : LongPollNamespace)
  | KPair (n : LongPollNamespace) (s : string).

#[global] Instance KeyType_eq_dec : EqDecision KeyType.
Proof. solve_decision. Defined.

(** ** Keys for the other languages *)

Definition namespace_name (n : LongPollNamespace) : string :=
  match n with RUNNING_REPLICAS => "RUNNING_REPLICAS" | ROUTE_TABLE => "ROUTE_TABLE" end.

(** The namespace with that name, or the name itself. *)
Definition _parse_poll_namespace (name : string) : LongPollNamespace + string :=
  if bool_decide (name = namespace_name ROUTE_TABLE) then inl ROUTE_TABLE
  else if bool_decide (name = namespace_name RUNNING_REPLICAS) then inl RUNNING_REPLICAS
  else inr name.

Definition _parse_xlang_key (xlang_key : string) : result KeyType :=
  if startswith "(" xlang_key && endswith ")" xlang_key then
    match py_split "," (str_init (str_tail xlang_key)) with
    | [f0; f1] =>
        match _parse_poll_namespace (py_strip f0) with
        | inl n => Ok (KPair n (py_strip f1))
        | inr _ => Err ValueError
        end
    | _ => Err ValueError
    end
  else
    match _parse_poll_namespace xlang_key with
    | inl n => Ok (KNamespace n)
    | inr name => Ok (KStr name)
    end.

Definition _build_xlang_key (key : KeyType) : string :=
  match key with
  | KPair n s => "(" +:+ namespace_name n +:+ "," +:+ s +:+ ")"
  | KNamespace n => namespace_name n
  | KStr s => s
  end.

(** ** The host *)

Section long_poll.
Context {O : Type}.

Record UpdatedObject := { object_snapshot : O; snapshot_id : Z }.

Abbreviation event := nat.

(** [fired] holds the events that were set; [next_event] numbers new ones. *)
Record LongPollHost := {
  snapshot_ids : dict KeyType Z;
  object_snapshots : dict KeyType O;
  notifier_events : dict KeyType (list event);
  fired : list event;
  next_event : event;
}.

Definition host_init : LongPollHost :=
  {| snapshot_ids := []; object_snapshots := []; notifier_events := []; fired := [];
     next_event := 0 |}.

(** [random_id]: the first identifier of a key, from [random.randint].  The source keeps a
    reference to [updated_object]; the one object that is changed after it was passed, the
    table of routes, is treated as an alias where it is composed with the host
    ([ServeEndpointProofs.publish]). *)
Definition notify_changed (random_id : Z) (object_key : KeyType) (updated_object : O)
    (h : LongPollHost) : LongPollHost :=
  {| snapshot_ids :=
       dset object_key (dget_def object_key random_id (snapshot_ids h) + 1) (snapshot_ids h);
     object_snapshots := dset object_key updated_object (object_snapshots h);
     notifier_events := ddel object_key (notifier_events h);
     fired := fired h ++ dget_def object_key [] (notifier_events h);
     next_event := next_event h |}.

(** The objects of the host that are newer than the client's. *)
Definition outdated_step (h : LongPollHost) (d : dict KeyType UpdatedObject)
    (entry : KeyType * Z) : result (dict KeyType UpdatedObject) :=
  match dget entry.1 (snapshot_ids h) with
  | None => Ok d
  | Some id =>
      if id =? entry.2 then Ok d
      else
        obj ← dget_exn entry.1 (object_snapshots h);
        Ok (dset entry.1 {| object_snapshot := obj; snapshot_id := id |} d)
  end.

Definition client_outdated_keys (keys_to_snapshot_ids : dict KeyType Z) (h : LongPollHost) :
    result (dict KeyType UpdatedObject) :=
  foldM (outdated_step h) [] keys_to_snapshot_ids.

(** An event per watched key. *)
Definition register_step (acc : LongPollHost * list (event * KeyType)) (key : KeyType) :
    LongPollHost * list (event * KeyType) :=
  let '(h, tasks) := acc in
  ({| snapshot_ids := snapshot_ids h; object_snapshots := object_snapshots h;
      notifier_events :=
        dset key (dget_def key [] (notifier_events h) ++ [next_event h]) (notifier_events h);
      fired := fired h; next_event := S (next_event h) |},
   tasks ++ [(next_event h, key)]).

(** [listen_for_change] up to its [await]: an answer, or the tasks it waits for. *)
Definition listen_start (keys_to_snapshot_ids : dict KeyType Z) (h : LongPollHost) :
    result (LongPollHost * (dict KeyType UpdatedObject + list (event * KeyType))) :=
  outdated ← client_outdated_keys keys_to_snapshot_ids h;
  match outdated with
  | _ :: _ => Ok (h, inl outdated)
  | [] =>
      let '(h, tasks) := fold_left register_step (dkeys keys_to_snapshot_ids) (h, []) in
      Ok (h, inr tasks)
  end.

(** The rest, when the wait ends because of the task of [key]. *)
Definition listen_finish (key : KeyType) (h : LongPollHost) :
    result (dict KeyType UpdatedObject) :=
  obj ← dget_exn key (object_snapshots h);
  id ← dget_exn key (snapshot_ids h);
  Ok [(key, {| object_snapshot := obj; snapshot_id := id |})].

(** ** The client *)

Record LongPollClient := {
  key_listeners : list KeyType;
  c_snapshot_ids : dict KeyType Z;
  c_object_snapshots : dict KeyType O;
  _callbacks_processed_count : nat;
  is_running : bool;
  called : list (KeyType * O);
}.

(** [_reset], less the poll. *)
Definition client_reset (keys : list KeyType) (c : LongPollClient) : LongPollClient :=
  {| key_listeners := keys; c_snapshot_ids := (λ k, (k, -1)) <$> keys; c_object_snapshots := [];
     _callbacks_processed_count := 0; is_running := is_running c; called := called c |}.

Definition client_init (key_listeners : list KeyType) : result LongPollClient :=
  match key_listeners with
  | [] => Err AssertionError
  | _ :: _ =>
      Ok (client_reset key_listeners
            {| key_listeners := key_listeners; c_snapshot_ids := []; c_object_snapshots := [];
               _callbacks_processed_count := 0; is_running := true; called := [] |})
  end.

Definition client_stop (c : LongPollClient) : LongPollClient :=
  {| key_listeners := key_listeners c; c_snapshot_ids := c_snapshot_ids c;
     c_object_snapshots := c_object_snapshots c;
     _callbacks_processed_count := _callbacks_processed_count c; is_running := false;
     called := called c |}.

(** The loop of [_process_update]: the snapshots are stored; the callbacks are
    posted. *)
Definition process_one (c : LongPollClient) (u : KeyType * UpdatedObject) : LongPollClient :=
  {| key_listeners := key_listeners c;
     c_snapshot_ids := dset u.1 (snapshot_id u.2) (c_snapshot_ids c);
     c_object_snapshots := dset u.1 (object_snapshot u.2) (c_object_snapshots c);
     _callbacks_processed_count := _callbacks_processed_count c; is_running := is_running c;
     called := called c |}.

Definition process_updates (updates : dict KeyType UpdatedObject) (c : LongPollClient) :
    LongPollClient := fold_left process_one updates c.

(** One posted callback; the result says whether to poll again. *)
Definition run_callback (key : KeyType) (arg : O) (trigger_at : nat) (c : LongPollClient) :
    LongPollClient * bool :=
  let count := S (_callbacks_processed_count c) in
  let poll := (count =? trigger_at)%nat in
  ({| key_listeners := key_listeners c; c_snapshot_ids := c_snapshot_ids c;
      c_object_snapshots := c_object_snapshots c;
      _callbacks_processed_count := if poll then 0%nat else count; is_running := is_running c;
      called := called c ++ [(key, arg)] |}, poll).

(** ** The system *)

(** Where the client's request is. *)
Inductive phase :=
  | Polling (ids : dict KeyType Z)
  | Waiting (ids : dict KeyType Z) (tasks : list (event * KeyType))
  | Answered (updates : dict KeyType UpdatedObject)
  | TimedOut
  | Callbacks (todo : list (KeyType * O)) (trigger_at : nat)
  | Stopped.

Record system := { host : LongPollHost; client : LongPollClient; at_ : phase }.

Definition system_init (keys : list KeyType) : result system :=
  c ← client_init keys;
  Ok {| host := host_init; client := c; at_ := Polling (c_snapshot_ids c) |}.

(** [0 <= random_id]: [random.randint(0, 1_000_000)].  A request that fails in the
    controller is repeated ([step_retry]); the host serves other clients meanwhile
    ([step_other]). *)
Inductive sstep : system → system → Prop :=
  | step_notify s random_id key obj :
      0 <= random_id →
      sstep s {| host := notify_changed random_id key obj (host s); client := client s; at_ := at_ s |}
  | step_other s ids h r :
      listen_start ids (host s) = Ok (h, r) →
      sstep s {| host := h; client := client s; at_ := at_ s |}
  | step_answer s ids h updates :
      at_ s = Polling ids → listen_start ids (host s) = Ok (h, inl updates) →
      sstep s {| host := h; client := client s; at_ := Answered updates |}
  | step_wait s ids h tasks :
      at_ s = Polling ids → listen_start ids (host s) = Ok (h, inr tasks) →
      sstep s {| host := h; client := client s; at_ := Waiting ids tasks |}
  | step_wake s ids tasks e key updates :
      at_ s = Waiting ids tasks → (e, key) ∈ tasks → e ∈ fired (host s) →
      listen_finish key (host s) = Ok updates →
      sstep s {| host := host s; client := client s; at_ := Answered updates |}
  | step_retry s ids :
      at_ s = Polling ids →
      sstep s {| host := host s; client := client s; at_ := Polling (c_snapshot_ids (client s)) |}
  | step_timeout s ids tasks :
      at_ s = Waiting ids tasks →
      sstep s {| host := host s; client := client s; at_ := TimedOut |}
  | step_reset s :
      at_ s = TimedOut →
      sstep s {| host := host s; client := client_reset (key_listeners (client s)) (client s);
                 at_ := Polling ((λ k, (k, -1)) <$> key_listeners (client s)) |}
  | step_process s updates :
      at_ s = Answered updates →
      sstep s {| host := host s; client := process_updates updates (client s);
                 at_ := Callbacks ((λ u, (u.1, object_snapshot u.2)) <$> updates)
                          (length updates) |}
  | step_callback s key arg todo n c poll :
      at_ s = Callbacks ((key, arg) :: todo) n → run_callback key arg n (client s) = (c, poll) →
      sstep s {| host := host s; client := c;
                 at_ := if poll : bool then Polling (c_snapshot_ids c) else Callbacks todo n |}
  | step_stop s :
      sstep s {| host := host s; client := client_stop (client s); at_ := Stopped |}.

End long_poll.
Arguments LongPollHost : clear implicits.
Arguments LongPollClient : clear implicits.
Arguments UpdatedObject : clear implicits.
Arguments system : clear implicits.
