(* ===== verification/ServeLongPollProofs.v ===== *)
(** * Correctness of long polling *)
From S2P Require Import Prelude PyStrings ServeLongPoll.
From stdpp Require Import base tactics list strings relations sets.
From Stdlib Require Import Ascii.

#[local] Open Scope Z_scope.
#[local] Arguments String.append !_ _ : simpl nomatch.

(** ** Keys for the other languages *)

(** Keys that survive the encoding: the second part of a pair has no comma and
    no white space around it, and a plain key does not look like another kind. *)
Definition key_ok (k : KeyType) : Prop :=
  match k with
  | KNamespace _ => True
  | KPair _ s => str_in "," s = false ∧ py_strip s = s
  | KStr s => s ≠ namespace_name ROUTE_TABLE ∧ s ≠ namespace_name RUNNING_REPLICAS ∧
      startswith "(" s && endswith ")" s = false
  end.

(** A key that is sent to another language and back is the same key, when its
    text has no comma and no white space around it and is not taken for another
    kind of key. *)
Theorem xlang_key_roundtrip k : key_ok k → _parse_xlang_key (_build_xlang_key k) = Ok k.
Proof.
  destruct k as [s|n|n s]; cbn [key_ok _build_xlang_key].
  - intros (H1 & H2 & H3). unfold _parse_xlang_key, _parse_poll_namespace.
    rewrite H3. by rewrite !bool_decide_eq_false_2.
  - by destruct n.
  - intros [Hc Hs]. unfold _parse_xlang_key.
    set (body := namespace_name n +:+ "," +:+ s).
    assert ("(" +:+ namespace_name n +:+ "," +:+ s +:+ ")" = String "(" (body +:+ String ")" ""))
      as ->.
    { unfold body. destruct n; cbn; done. }
    unfold endswith. change (String "(" (body +:+ String ")" ""))
      with (String "(" body +:+ String ")" ""). rewrite str_last_snoc. cbn [startswith app].
    change (String "(" body +:+ String ")" "") with (String "(" (body +:+ String ")" "")).
    cbn [str_tail]. rewrite str_init_snoc. cbn.
    unfold body. change ("," +:+ s) with (String "," s).
    rewrite py_split_app, py_split_absent by (done || by destruct n).
    rewrite Hs. by destruct n.
Qed.

Lemma xlang_key_roundtrip_witness :
  _parse_xlang_key "(RUNNING_REPLICAS,image_classifier)" =
    Ok (KPair RUNNING_REPLICAS "image_classifier").
Proof. apply (xlang_key_roundtrip (KPair RUNNING_REPLICAS "image_classifier")). done. Defined.

Section long_poll_proofs.
Context {O : Type}.
Implicit Types (h : LongPollHost O) (c : LongPollClient O) (s : system O).

(** ** Invariants *)

Record host_inv h : Prop := {
  hi_wf : dict_wf (notifier_events h);
  hi_ids : ∀ k j, dget k (snapshot_ids h) = Some j → 0 <= j ∧ is_Some (dget k (object_snapshots h));
}.

(** The pair [i], [o] was the host's snapshot of [k] at some time: it is not
    newer than the host's, and it is the host's if it has its identifier. *)
Definition coherent h (k : KeyType) (i : Z) (o : O) : Prop :=
  0 <= i ∧ ∃ j, dget k (snapshot_ids h) = Some j ∧ i <= j ∧
    (i = j → dget k (object_snapshots h) = Some o).

Definition client_inv h c : Prop :=
  NoDup (key_listeners c) ∧ dkeys (c_snapshot_ids c) = key_listeners c ∧
  ∀ k i, dget k (c_snapshot_ids c) = Some i →
    i = -1 ∨ ∃ o, dget k (c_object_snapshots c) = Some o ∧ coherent h k i o.

(** A waiting request will hear of every change: the event of each key it
    watches has fired, or is registered and the client is up to date on it. *)
Definition watches h (ids : dict KeyType Z) (tasks : list (nat * KeyType)) : Prop :=
  ∀ k i, dget k ids = Some i →
    ∃ e, (e, k) ∈ tasks ∧
      (e ∈ fired h ∨
       e ∈ dget_def k [] (notifier_events h) ∧
       (dget k (snapshot_ids h) = None ∨ dget k (snapshot_ids h) = Some i)).

Definition phase_inv h c (p : phase (O := O)) : Prop :=
  match p with
  | Polling ids => ids = c_snapshot_ids c ∧ _callbacks_processed_count c = 0%nat
  | Waiting ids tasks =>
      ids = c_snapshot_ids c ∧ _callbacks_processed_count c = 0%nat ∧ watches h ids tasks ∧
      Forall (λ t, t.2 ∈ key_listeners c) tasks
  | Answered updates =>
      updates ≠ [] ∧ _callbacks_processed_count c = 0%nat ∧
      Forall (λ u, u.1 ∈ key_listeners c ∧
                   coherent h u.1 (snapshot_id u.2) (object_snapshot u.2)) updates
  | TimedOut => True
  | Callbacks todo n => todo ≠ [] ∧ (_callbacks_processed_count c + length todo = n)%nat
  | Stopped => True
  end.

(** The last object that the callback of [k] got. *)
Definition last_called (k : KeyType) (l : list (KeyType * O)) : option O :=
  snd <$> last (filter (λ p, p.1 = k) l).

Definition pending (p : phase (O := O)) : list (KeyType * O) :=
  match p with Callbacks todo _ => todo | _ => [] end.

(** Once the posted callbacks have run, each got the stored object last. *)
Definition delivered c (todo : list (KeyType * O)) : Prop :=
  ∀ k o, dget k (c_object_snapshots c) = Some o → last_called k (called c ++ todo) = Some o.

Record system_inv s : Prop := {
  si_host : host_inv (host s);
  si_client : client_inv (host s) (client s);
  si_phase : phase_inv (host s) (client s) (at_ s);
  si_delivered : at_ s ≠ Stopped → delivered (client s) (pending (at_ s));
}.

Lemma last_called_snoc k l k' o :
  last_called k (l ++ [(k', o)]) = if decide (k' = k) then Some o else last_called k l.
Proof.
  unfold last_called. rewrite filter_app, filter_cons. cbn. case_decide.
  - by rewrite last_snoc.
  - by rewrite app_nil_r.
Qed.

(** ** A notification *)

Lemma notify_host r k o h : 0 <= r → host_inv h → host_inv (notify_changed r k o h).
Proof.
  intros Hr [Hw Hi]. constructor; cbn; [by apply ddel_wf|]. intros k' j. rewrite !dget_dset.
  case_decide as Hk; [subst|by apply Hi]. intros ?; simplify_eq. split; [|by eexists].
  unfold dget_def. destruct (dget k (snapshot_ids h)) as [j|] eqn:Hj; cbn; [|lia].
  apply Hi in Hj. lia.
Qed.

Lemma notify_coherent r k o h k' i o' :
  coherent h k' i o' → coherent (notify_changed r k o h) k' i o'.
Proof.
  intros (Hi & j & Hj & Hle & Ho). split; [done|]. cbn. rewrite !dget_dset.
  case_decide as Hk; [subst k'|by exists j]. unfold dget_def. rewrite Hj. cbn.
  exists (j + 1). split_and!; [done|lia|]. intros. lia.
Qed.

Lemma notify_client r k o h c : client_inv h c → client_inv (notify_changed r k o h) c.
Proof.
  intros (Hn & Hk & Hc). split_and!; [done|done|]. intros k' i Hi. destruct (Hc k' i Hi) as [|(o' & Ho & Hco)]; [by left|].
  right. exists o'. split; [done|]. by apply notify_coherent.
Qed.

Lemma notify_watches r k o h ids tasks :
  host_inv h → watches h ids tasks → watches (notify_changed r k o h) ids tasks.
Proof.
  intros [Hw _] Hwt k' i Hi. destruct (Hwt k' i Hi) as (e & He & Hcase). exists e. split; [done|].
  cbn. destruct Hcase as [Hf|[Hreg Hid]]; [left; apply elem_of_app; by left|].
  destruct (decide (k' = k)) as [->|Hne].
  - left. apply elem_of_app. by right.
  - right. unfold dget_def at 1. rewrite dget_ddel, decide_False by done. split; [exact Hreg|].
    by rewrite dget_dset_ne.
Qed.

Lemma notify_phase r k o h c p :
  host_inv h → phase_inv h c p → phase_inv (notify_changed r k o h) c p.
Proof.
  intros Hh. destruct p; cbn; try done.
  - intros (? & ? & ? & ?). split_and!; try done. by apply notify_watches.
  - intros (? & ? & Hall). split_and!; try done. eapply Forall_impl; [exact Hall|].
    cbn. intros u [? ?]. split; [done|]. by apply notify_coherent.
Qed.

(** ** Answers *)

Lemma outdated_total h ids d0 :
  host_inv h →
  ∃ d, foldM (outdated_step h) d0 ids = Ok d ∧
    (∀ k u, dget k d = Some u → dget k d0 = Some u ∨
       (k ∈ dkeys ids ∧ dget k (snapshot_ids h) = Some (snapshot_id u) ∧
        dget k (object_snapshots h) = Some (object_snapshot u))) ∧
    (∀ k i j, NoDup (dkeys ids) → dget k ids = Some i → dget k (snapshot_ids h) = Some j → j ≠ i →
       ∃ u, dget k d = Some u ∧ snapshot_id u = j) ∧
    (d = [] → d0 = []) ∧
    ∀ k, is_Some (dget k d0) → is_Some (dget k d).
Proof.
  intros [_ Hi]. revert d0. induction ids as [|[k i] ids IH]; intros d0; cbn.
  { exists d0. split_and!; try done. by left. }
  assert (∃ d1, outdated_step h d0 (k, i) = Ok d1 ∧
    (d1 = d0 ∧ (dget k (snapshot_ids h) = None ∨ dget k (snapshot_ids h) = Some i) ∨
     ∃ u, d1 = dset k u d0 ∧ dget k (snapshot_ids h) = Some (snapshot_id u) ∧
       dget k (object_snapshots h) = Some (object_snapshot u)))
    as (d1 & -> & Hd1).
  { unfold outdated_step. cbn. destruct (dget k (snapshot_ids h)) as [j|] eqn:Hj;
      [|exists d0; split; [done|]; left; split; [done|by left]].
    destruct (Z.eqb_spec j i) as [->|Hne];
      [exists d0; split; [done|]; left; split; [done|by right]|].
    destruct (Hi k j Hj) as [_ [o Ho]]. unfold dget_exn. rewrite Ho. cbn. eexists. split; [done|].
    right. by eexists. }
  cbn [mbind result_bind].
  destruct (IH d1) as (d & -> & Hsrc & Hcov & Hnil & Hkeep). exists d. split; [done|].
  assert (∀ k', is_Some (dget k' d0) → is_Some (dget k' d1)) as Hstep.
  { intros k' Hk'. destruct Hd1 as [[-> _]|(u & -> & _)]; [done|]. rewrite dget_dset.
    case_decide; [by eexists|done]. }
  split_and!.
  - intros k' u Hu. destruct (Hsrc k' u Hu) as [Hu'|(Hin & ? & ?)]; [|right; split_and!; try done].
    + destruct Hd1 as [[-> _]|(u' & -> & H1 & H2)]; [by left|]. rewrite dget_dset in Hu'.
      case_decide as Hk; [|by left]. simplify_eq. right. split_and!; try done. unfold dkeys. cbn. left.
    + unfold dkeys in *. cbn. by right.
  - intros k' i' j Hnd Hk' Hj Hne. unfold dkeys in Hnd. cbn in Hnd. apply NoDup_cons in Hnd as [Hnk Hnd].
    destruct (decide (k' = k)) as [->|Hkk]; [|by eapply Hcov].
    simplify_eq. destruct Hd1 as [[-> [?|?]]|(u & -> & H1 & H2)]; [congruence|congruence|].
    destruct (Hkeep k) as [u' Hu']; [rewrite dget_dset_eq; by eexists|]. exists u'. split; [done|].
    destruct (Hsrc k u' Hu') as [Hu''|(Hin & ? & _)]; [|congruence].
    rewrite dget_dset_eq in Hu''. congruence.
  - intros Hd. apply Hnil in Hd. destruct Hd1 as [[-> _]|(u & -> & _)]; [done|].
    by apply dset_nonempty in Hd.
  - auto.
Qed.

(** Registering the events of a request. *)
Lemma register_spec keys h tasks0 h' tasks :
  fold_left register_step keys (h, tasks0) = (h', tasks) → host_inv h →
  snapshot_ids h' = snapshot_ids h ∧ object_snapshots h' = object_snapshots h ∧
  fired h' = fired h ∧ host_inv h' ∧
  (∀ k e, e ∈ dget_def k [] (notifier_events h) → e ∈ dget_def k [] (notifier_events h')) ∧
  (∀ t, t ∈ tasks0 → t ∈ tasks) ∧
  (∀ t, t ∈ tasks → t ∈ tasks0 ∨ t.2 ∈ keys) ∧
  (∀ k, k ∈ keys → ∃ e, (e, k) ∈ tasks ∧ e ∈ dget_def k [] (notifier_events h')).
Proof.
  revert h tasks0. induction keys as [|k keys IH]; intros h tasks0 Hf Hh.
  { cbn in Hf. simplify_eq. split_and!; try done; [by left|]. intros k Hk. by apply elem_of_nil in Hk. }
  cbn [fold_left] in Hf. unfold register_step at 2 in Hf.
  apply IH in Hf as (E1 & E2 & E3 & E4 & E5 & E6 & E7 & E8); cbn in *.
  2: { destruct Hh as [Hw Hi]. constructor; cbn; [by apply dset_wf|done]. }
  split_and!; try done.
  - intros k' e He. apply E5. rewrite dget_def_dset. case_decide; [subst|done].
    apply elem_of_app. by left.
  - intros t Ht. apply E6. apply elem_of_app. by left.
  - intros t Ht. apply E7 in Ht as [Ht|Ht]; [|right; by right].
    apply elem_of_app in Ht as [Ht|Ht]; [by left|].
    apply list_elem_of_singleton in Ht as ->. right. left.
  - intros k' Hk'. apply elem_of_cons in Hk' as [->|Hk']; [|by apply E8].
    exists (next_event h). split; [apply E6, elem_of_app; right; left|].
    apply E5. rewrite dget_def_dset, decide_True by done. apply elem_of_app. right. left.
Qed.

(** What [listen_for_change] answers is current, and when it waits the client is
    up to date. *)
Lemma listen_start_spec ids h :
  host_inv h → NoDup (dkeys ids) →
  (∃ updates, listen_start ids h = Ok (h, inl updates) ∧ updates ≠ [] ∧
    (∀ k u, dget k updates = Some u → k ∈ dkeys ids ∧
       dget k (snapshot_ids h) = Some (snapshot_id u) ∧
       dget k (object_snapshots h) = Some (object_snapshot u)) ∧
    ∀ k i j, dget k ids = Some i → dget k (snapshot_ids h) = Some j → j ≠ i →
      ∃ u, dget k updates = Some u ∧ snapshot_id u = j) ∨
  ∃ h' tasks, listen_start ids h = Ok (h', inr tasks) ∧ host_inv h' ∧
    snapshot_ids h' = snapshot_ids h ∧ object_snapshots h' = object_snapshots h ∧
    (∀ k i, dget k ids = Some i →
       dget k (snapshot_ids h) = None ∨ dget k (snapshot_ids h) = Some i) ∧
    watches h' ids tasks ∧ Forall (λ t, t.2 ∈ dkeys ids) tasks.
Proof.
  intros Hh Hnd. unfold listen_start, client_outdated_keys.
  destruct (outdated_total h ids [] Hh) as (d & -> & Hsrc & Hcov & _ & _). cbn [mbind result_bind].
  destruct d as [|x d].
  - right. destruct (fold_left register_step (dkeys ids) (h, [])) as [h' tasks] eqn:Hf.
    apply register_spec in Hf as (E1 & E2 & E3 & E4 & E5 & E6 & E7 & E8); [|done].
    assert (∀ k i, dget k ids = Some i →
      dget k (snapshot_ids h) = None ∨ dget k (snapshot_ids h) = Some i) as Hup.
    { intros k i Hi. destruct (dget k (snapshot_ids h)) as [j|] eqn:Hj; [|by left].
      destruct (decide (j = i)) as [->|Hne]; [by right|].
      destruct (Hcov k i j Hnd Hi Hj Hne) as (u & Hu & _). done. }
    exists h', tasks. split_and!; try done.
    + intros k i Hi. destruct (E8 k) as (e & He & Hreg).
      { apply din_spec. unfold din. by rewrite Hi. }
      exists e. split; [done|]. right. split; [done|]. rewrite E1. by apply Hup.
    + apply Forall_forall. intros t Ht. apply E7 in Ht as [Ht|]; [by apply elem_of_nil in Ht|done].
  - left. exists (x :: d). split_and!; try done.
    + intros k u Hu. by destruct (Hsrc k u Hu) as [Hx|Hx].
    + intros k i j. by apply Hcov.
Qed.

(** ** The client *)

Lemma process_inv h updates c :
  client_inv h c →
  Forall (λ u, u.1 ∈ key_listeners c ∧
               coherent h u.1 (snapshot_id u.2) (object_snapshot u.2)) updates →
  client_inv h (process_updates updates c) ∧
  key_listeners (process_updates updates c) = key_listeners c ∧
  _callbacks_processed_count (process_updates updates c) = _callbacks_processed_count c.
Proof.
  unfold process_updates. revert c. induction updates as [|[k u] updates IH]; intros c Hc Hall;
    [done|]. inversion_clear Hall as [|?? [Hk Hco] Hall']. cbn [fold_left].
  destruct Hc as (Hnd & Hkeys & Hget).
  assert (client_inv h (process_one c (k, u))) as Hc'.
  { split_and!; cbn; [done| |].
    - rewrite dkeys_dset. cbn in Hk. rewrite <- Hkeys in Hk. apply din_spec in Hk. by rewrite Hk.
    - intros k' i. rewrite !dget_dset. case_decide as Hkk; [|by apply Hget].
      intros [= <-]. subst k'. right. by exists (object_snapshot u). }
  destruct (IH (process_one c (k, u)) Hc') as (H1 & H2 & H3); [done|]. done.
Qed.

Lemma minus_one_ids (ks : list KeyType) :
  dkeys ((λ k, (k, -1)) <$> ks) = ks ∧
  ∀ k i, dget k ((λ k, (k, -1)) <$> ks) = Some i → i = -1.
Proof.
  split.
  - unfold dkeys. rewrite <- list_fmap_compose. apply list_fmap_id.
  - intros k i. induction ks as [|k' ks IH]; cbn; [done|]. case_decide; [congruence|done].
Qed.

(** ** The system *)

Lemma dget_in_list {V} (d : dict KeyType V) k v : (k, v) ∈ d → dict_wf d → dget k d = Some v.
Proof.
  unfold dict_wf, dkeys. induction d as [|[k' v'] d IH]; intros Hin Hwf; [by apply elem_of_nil in Hin|].
  cbn in Hwf. apply NoDup_cons in Hwf as [Hk Hwf]. apply elem_of_cons in Hin as [Heq|Hin]; cbn.
  - simplify_eq. by rewrite decide_True.
  - rewrite decide_False; [auto|]. intros <-. apply Hk, list_elem_of_fmap. by exists (k, v).
Qed.

Lemma outdated_wf h ids d0 d : dict_wf d0 → foldM (outdated_step h) d0 ids = Ok d → dict_wf d.
Proof.
  intros Hwf Hf. eapply (foldM_inv _ (λ d, dict_wf d)); [exact Hf|done|].
  intros d1 [k i] d2 _ Hd1 Hstep. unfold outdated_step in Hstep. cbn in Hstep.
  destruct (dget k (snapshot_ids h)); [|by inv_ok]. destruct (_ =? _); [by inv_ok|].
  inv_ok. by apply dset_wf.
Qed.

Lemma listen_start_wf ids h h' updates :
  listen_start ids h = Ok (h', inl updates) → dict_wf updates.
Proof.
  unfold listen_start, client_outdated_keys. intros H. inv_ok.
  match goal with H : foldM _ _ _ = Ok ?d |- _ => apply outdated_wf in H as Hwf; [|constructor] end.
  case_match; inv_ok; [|done]. by destruct (fold_left _ _ _); inv_ok.
Qed.

Lemma system_init_inv keys s : NoDup keys → system_init keys = Ok s → system_inv s.
Proof.
  intros Hnd Hs. unfold system_init, client_init in Hs. destruct keys as [|k0 keys']; [done|].
  set (keys := k0 :: keys') in *. cbn [mbind result_bind] in Hs. injection Hs as <-.
  destruct (minus_one_ids keys) as [Hk Hm]. constructor; cbn [host client at_].
  - constructor; cbn; [constructor|]. intros k j Hj. done.
  - split_and!; [done|exact Hk|]. intros k i Hi. left. by eapply Hm.
  - done.
  - intros _ k o. done.
Qed.

(** Other requests only add events. *)
Lemma other_host ids h h' r :
  listen_start ids h = Ok (h', r) → host_inv h →
  host_inv h' ∧ snapshot_ids h' = snapshot_ids h ∧ object_snapshots h' = object_snapshots h ∧
  fired h' = fired h ∧
  ∀ k e, e ∈ dget_def k [] (notifier_events h) → e ∈ dget_def k [] (notifier_events h').
Proof.
  unfold listen_start. intros H Hh. inv_ok. case_match; [|by inv_ok].
  destruct (fold_left register_step (dkeys ids) (h, [])) as [h1 tasks] eqn:Hf. inv_ok.
  by apply register_spec in Hf as (E1 & E2 & E3 & E4 & E5 & _).
Qed.

Lemma other_inv s ids h' r :
  system_inv s → listen_start ids (host s) = Ok (h', r) →
  system_inv {| host := h'; client := client s; at_ := at_ s |}.
Proof.
  intros [Hh (Hnd & Hkeys & Hget) Hp Hd] Hl.
  destruct (other_host _ _ _ _ Hl Hh) as (Hh' & E1 & E2 & E3 & E4).
  assert (∀ k i o, coherent (host s) k i o → coherent h' k i o) as Hco.
  { unfold coherent. by rewrite E1, E2. }
  constructor; cbn [host client at_]; [done| | |done].
  - split_and!; [done|done|]. intros k i Hi. destruct (Hget k i Hi) as [|(o & ? & ?)]; [by left|].
    right. exists o. auto.
  - destruct (at_ s); cbn in *; try done.
    + destruct Hp as (? & ? & Hw & ?). split_and!; try done. intros k i Hi.
      destruct (Hw k i Hi) as (e & ? & Hcase). exists e. rewrite E1, E3. naive_solver.
    + destruct Hp as (? & ? & Hall). split_and!; try done. eapply Forall_impl; [exact Hall|].
      naive_solver.
Qed.

Lemma answer_inv s ids h' updates :
  system_inv s → at_ s = Polling ids → listen_start ids (host s) = Ok (h', inl updates) →
  system_inv {| host := h'; client := client s; at_ := Answered updates |}.
Proof.
  intros [Hh Hc Hp Hd] Hat Hl. rewrite Hat in Hp. destruct Hp as [-> Hcnt].
  destruct Hc as (Hnd & Hkeys & Hget).
  pose proof (listen_start_wf _ _ _ _ Hl) as Hwf.
  destruct (listen_start_spec (c_snapshot_ids (client s)) (host s) Hh) as
    [(u & E & Hne & Hsrc & _)|(h'' & tasks & E & _)]; [by rewrite Hkeys| |];
    rewrite E in Hl; simplify_eq.
  rewrite Hat in Hd. constructor; cbn [host client at_];
    [done|by split_and!| |intros _; by apply Hd]. split_and!; [done|done|].
  apply Forall_forall. intros [k v] Hin. apply dget_in_list in Hin; [|done]. cbn in *.
  destruct (Hsrc k v Hin) as (Hk & Hid & Hobj). split; [by rewrite <- Hkeys|].
  destruct (hi_ids _ Hh k _ Hid) as [Hnn _]. split; [done|]. by exists (snapshot_id v).
Qed.

Lemma wait_inv s ids h' tasks :
  system_inv s → at_ s = Polling ids → listen_start ids (host s) = Ok (h', inr tasks) →
  system_inv {| host := h'; client := client s; at_ := Waiting ids tasks |}.
Proof.
  intros [Hh Hc Hp Hd] Hat Hl. rewrite Hat in Hp. destruct Hp as [-> Hcnt].
  destruct Hc as (Hnd & Hkeys & Hget).
  destruct (listen_start_spec (c_snapshot_ids (client s)) (host s) Hh) as
    [(u & E & _)|(h'' & tasks' & E & Hh' & E1 & E2 & Hup & Hw & Hks)]; [by rewrite Hkeys| |];
    rewrite E in Hl; simplify_eq.
  rewrite Hat in Hd. constructor; cbn [host client at_]; [done| | |intros _; by apply Hd].
  - split_and!; [done|done|]. intros k i Hi. unfold coherent. rewrite E1, E2. by apply Hget.
  - cbn. by rewrite <- Hkeys.
Qed.

Lemma wake_inv s ids tasks e key updates :
  system_inv s → at_ s = Waiting ids tasks → (e, key) ∈ tasks →
  listen_finish key (host s) = Ok updates →
  system_inv {| host := host s; client := client s; at_ := Answered updates |}.
Proof.
  intros [Hh Hc Hp Hd] Hat Hin Hf. rewrite Hat in Hp. destruct Hp as (-> & Hcnt & Hw & Hks).
  rewrite Hat in Hd. constructor; cbn [host client at_]; [done|done| |intros _; by apply Hd].
  unfold listen_finish, dget_exn in Hf. inv_ok.
  split_and!; [done|done|]. constructor; [|done]. cbn.
  rewrite Forall_forall in Hks. specialize (Hks _ Hin). cbn in Hks. split; [done|].
  match goal with H : dget key (snapshot_ids _) = Some ?j |- _ =>
    destruct (hi_ids _ Hh key j H) as [Hnn _]; split; [done|]; by exists j end.
Qed.

(** Storing an answer posts its callbacks. *)
Lemma process_delivered updates c todo :
  delivered c todo →
  delivered (process_updates updates c)
    (todo ++ ((λ u, (u.1, object_snapshot u.2)) <$> updates)).
Proof.
  unfold process_updates. revert c todo. induction updates as [|u updates IH]; intros c todo Hd.
  { by rewrite app_nil_r. }
  cbn [fold_left fmap list_fmap]. rewrite cons_middle, (assoc_L (++)). apply IH.
  intros k o. cbn [process_one c_object_snapshots called]. rewrite (app_assoc (called c)), dget_dset, last_called_snoc.
  destruct (decide (k = u.1)) as [->|Hne]; [by rewrite decide_True|].
  rewrite decide_False by congruence. apply Hd.
Qed.

Lemma process_step_inv s updates :
  system_inv s → at_ s = Answered updates →
  system_inv {| host := host s; client := process_updates updates (client s);
                at_ := Callbacks ((λ u, (u.1, object_snapshot u.2)) <$> updates)
                         (length updates) |}.
Proof.
  intros [Hh Hc Hp Hd] Hat. rewrite Hat in Hp, Hd. destruct Hp as (Hne & Hcnt & Hall).
  destruct (process_inv _ _ _ Hc Hall) as (H1 & H2 & H3).
  constructor; cbn [host client at_ pending phase_inv]; [done|done| |].
  - rewrite H3, Hcnt. split; [by destruct updates|]. by rewrite length_fmap.
  - intros _. apply (process_delivered updates (client s) []). by apply Hd.
Qed.

Lemma callback_inv s key arg todo n c poll :
  system_inv s → at_ s = Callbacks ((key, arg) :: todo) n →
  run_callback key arg n (client s) = (c, poll) →
  system_inv {| host := host s; client := c;
                at_ := if poll : bool then Polling (c_snapshot_ids c) else Callbacks todo n |}.
Proof.
  intros [Hh Hc Hp Hd] Hat Hrun. rewrite Hat in Hp, Hd. destruct Hp as (_ & Hn). cbn in Hn.
  specialize (Hd ltac:(done)). cbn [pending] in Hd.
  unfold run_callback in Hrun. cbv zeta in Hrun.
  destruct (Nat.eqb_spec (S (_callbacks_processed_count (client s))) n) as [Heq|Hneq];
    injection Hrun as <- <-; (constructor; cbn; [done|done| |]).
  - done.
  - assert (todo = []) as -> by (apply nil_length_inv; lia). intros _ k o Ho. cbn.
    rewrite app_nil_r. by apply Hd.
  - split; [|lia]. intros ->. cbn in Hn. lia.
  - intros _ k o Ho. cbn. rewrite <- (assoc_L (++)). by apply Hd.
Qed.

Lemma sstep_inv s s' : sstep s s' → system_inv s → system_inv s'.
Proof.
  destruct 1 as [s r k o Hr|s ids h' r Hl|s ids h' updates Hat Hl|s ids h' tasks Hat Hl
    |s ids tasks e key updates Hat Hin Hf Hl|s ids Hat|s ids tasks Hat|s Hat|s updates Hat
    |s key arg todo n c poll Hat Hrun|s]; intros Hinv;
    [|by eapply other_inv|by eapply answer_inv|by eapply wait_inv|by eapply wake_inv| | | |
     by eapply process_step_inv|by eapply callback_inv|];
    destruct Hinv as [Hh Hc Hp Hd].
  - constructor; cbn [host client at_];
      [by apply notify_host|by apply notify_client|by apply notify_phase|done].
  - rewrite Hat in Hp, Hd. destruct Hp as [-> Hcnt]. by constructor.
  - rewrite Hat in Hd. constructor; cbn; try done. intros _. by apply Hd.
  - destruct Hc as (Hnd & Hkeys & Hget).
    destruct (minus_one_ids (key_listeners (client s))) as [Hk Hm].
    constructor; cbn; [done| |done|done]. split_and!; [done|exact Hk|].
    intros k i Hi. left. by eapply Hm.
  - by constructor.
Qed.

Definition reachable_system (keys : list KeyType) s : Prop :=
  ∃ s0, system_init keys = Ok s0 ∧ rtc sstep s0 s.

Lemma reachable_system_inv keys s : NoDup keys → reachable_system keys s → system_inv s.
Proof.
  intros Hnd (s0 & Hs0 & Hr). eapply (rtc_ind_r system_inv); [by eapply system_init_inv| |exact Hr].
  intros; by eapply sstep_inv.
Qed.

Lemma coherent_delivered s k i :
  system_inv s →
  dget k (c_snapshot_ids (client s)) = Some i → dget k (snapshot_ids (host s)) = Some i →
  dget k (c_object_snapshots (client s)) = dget k (object_snapshots (host s)) ∧
  (∀ ids tasks, at_ s = Polling ids ∨ at_ s = Waiting ids tasks →
     last_called k (called (client s)) = dget k (object_snapshots (host s))).
Proof.
  intros [Hhi (_ & _ & Hget) _ Hd] Hc Hh.
  destruct (Hget k i Hc) as [->|(o & Ho & _ & j & Hj & _ & Heq)].
  { apply (hi_ids _ Hhi) in Hh as [? _]. lia. }
  simplify_eq. rewrite Heq by done. split; [done|]. intros ids tasks Hat.
  assert (at_ s ≠ Stopped ∧ pending (at_ s) = []) as [Hns Hpe] by (by destruct Hat as [-> | ->]).
  specialize (Hd Hns k o Ho). by rewrite Hpe, app_nil_r in Hd.
Qed.

(** A client never takes a stale object for the current one: however
    notifications, other requests, answers, timeouts and callbacks interleave, when
    its identifier of an object equals the host's, its object is the host's, and
    while it polls or waits its callback has got that object last. *)
Theorem client_snapshot_coherent keys s k i :
  NoDup keys → reachable_system keys s →
  dget k (c_snapshot_ids (client s)) = Some i → dget k (snapshot_ids (host s)) = Some i →
  dget k (c_object_snapshots (client s)) = dget k (object_snapshots (host s)) ∧
  (∀ ids tasks, at_ s = Polling ids ∨ at_ s = Waiting ids tasks →
     last_called k (called (client s)) = dget k (object_snapshots (host s))).
Proof. intros Hnd Hr. by apply coherent_delivered, (reachable_system_inv keys). Qed.

(** No update is lost: whenever the host has another version of a watched
    object than the client that is polling or waiting, the request can be
    answered at once with the host's current object: at the start of the poll, or
    because the event of that very key has fired. *)
Theorem outdated_client_is_answered keys s k i j :
  NoDup keys → reachable_system keys s →
  dget k (c_snapshot_ids (client s)) = Some i → dget k (snapshot_ids (host s)) = Some j → i ≠ j →
  (∀ ids, at_ s = Polling ids →
     ∃ updates u, listen_start ids (host s) = Ok (host s, inl updates) ∧
       dget k updates = Some u ∧ snapshot_id u = j ∧
       dget k (object_snapshots (host s)) = Some (object_snapshot u)) ∧
  (∀ ids tasks, at_ s = Waiting ids tasks →
     ∃ e o, (e, k) ∈ tasks ∧ e ∈ fired (host s) ∧
       dget k (object_snapshots (host s)) = Some o ∧
       listen_finish k (host s) =
         Ok [(k, {| object_snapshot := o; snapshot_id := j |})]).
Proof.
  intros Hnd Hr Hc Hh Hne. apply reachable_system_inv in Hr as [Hhi (Hnd' & Hkeys & _) Hp _]; [|done].
  split.
  - intros ids Hat. rewrite Hat in Hp. destruct Hp as [-> _].
    destruct (listen_start_spec (c_snapshot_ids (client s)) (host s) Hhi) as
      [(updates & E & _ & Hsrc & Hcov)|(h'' & tasks & E & _ & _ & _ & Hup & _)];
      [by rewrite Hkeys| |].
    + destruct (Hcov k i j Hc Hh) as (u & Hu & Hid); [congruence|]. exists updates, u.
      destruct (Hsrc k u Hu) as (_ & _ & Hobj). done.
    + destruct (Hup k i Hc) as [Hx|Hx]; congruence.
  - intros ids tasks Hat. rewrite Hat in Hp. destruct Hp as (-> & _ & Hw & _).
    destruct (Hw k i Hc) as (e & He & [Hf|[_ [Hx|Hx]]]); [|congruence|congruence].
    destruct (hi_ids _ Hhi k j Hh) as [_ [o Ho]]. exists e, o. split_and!; try done.
    unfold listen_finish, dget_exn. by rewrite Ho, Hh.
Qed.
End long_poll_proofs.

(** ** A concrete run *)

Module LongPollExamples.

Definition key : KeyType := KPair RUNNING_REPLICAS "d".

(** The client polls before anything is known, waits, and is notified. *)
Definition new_client : LongPollClient nat :=
  {| key_listeners := [key]; c_snapshot_ids := [(key, -1)]; c_object_snapshots := [];
     _callbacks_processed_count := 0; is_running := true; called := [] |}.
Definition waiting : system nat :=
  {| host := (fold_left register_step [key] (host_init, [])).1; client := new_client;
     at_ := Waiting [(key, -1)] [(0%nat, key)] |}.
Definition notified : system nat :=
  {| host := notify_changed 41 key 7%nat (host waiting); client := client waiting;
     at_ := at_ waiting |}.

Lemma notified_reachable : reachable_system [key] notified.
Proof.
  eexists. split; [reflexivity|].
  eapply rtc_l; [eapply (step_wait _ [(key, -1)]); reflexivity|].
  eapply rtc_l; [apply (step_notify _ 41 key 7%nat); lia|]. apply rtc_refl.
Qed.

Lemma outdated_client_is_answered_witness :
  (∀ ids, at_ notified = Polling ids →
     ∃ updates u, listen_start ids (host notified) = Ok (host notified, inl updates) ∧
       dget key updates = Some u ∧ snapshot_id u = 42 ∧
       dget key (object_snapshots (host notified)) = Some (object_snapshot u)) ∧
  (∀ ids tasks, at_ notified = Waiting ids tasks →
     ∃ e o, (e, key) ∈ tasks ∧ e ∈ fired (host notified) ∧
       dget key (object_snapshots (host notified)) = Some o ∧
       listen_finish key (host notified) =
         Ok [(key, {| object_snapshot := o; snapshot_id := 42 |})]).
Proof.
  apply (outdated_client_is_answered [key] notified key (-1) 42);
    [repeat constructor; set_solver|apply notified_reachable|reflexivity|reflexivity|done].
Defined.

(** It is answered, stores the snapshot, and runs its callback. *)
Definition answered : system nat :=
  {| host := host notified; client := client notified;
     at_ := Answered [(key, {| object_snapshot := 7%nat; snapshot_id := 42 |})] |}.
Definition processed : system nat :=
  {| host := host answered;
     client := process_updates [(key, {| object_snapshot := 7%nat; snapshot_id := 42 |})]
                 (client answered);
     at_ := Callbacks [(key, 7%nat)] 1 |}.
Definition polling_again : system nat :=
  {| host := host processed; client := (run_callback key 7%nat 1 (client processed)).1;
     at_ := Polling [(key, 42)] |}.

Lemma polling_again_reachable : reachable_system [key] polling_again.
Proof.
  destruct notified_reachable as (s0 & Hs0 & Hr). exists s0. split; [done|].
  eapply rtc_r; [eapply rtc_r; [eapply rtc_r; [exact Hr|]|]|].
  - eapply (step_wake _ _ _ 0%nat key); [reflexivity|left|vm_compute; left|reflexivity].
  - apply (step_process answered). reflexivity.
  - apply (step_callback processed key 7%nat [] 1 (client polling_again) true); reflexivity.
Qed.

Lemma client_snapshot_coherent_witness :
  dget key (c_object_snapshots (client polling_again)) = Some 7%nat ∧
  (∀ ids tasks, at_ polling_again = Polling ids ∨ at_ polling_again = Waiting ids tasks →
     last_called key (called (client polling_again)) = Some 7%nat).
Proof.
  apply (client_snapshot_coherent [key] polling_again key 42);
    [repeat constructor; set_solver|apply polling_again_reachable|reflexivity|reflexivity].
Defined.
End LongPollExamples.
