(* ===== verification/ServeRouting.v ===== *)
(** * Routing: the router as a subscriber of the controller

    The callback of a long-poll client belongs to a subscriber.  [Subscriber] says
    what the composition needs of one; the router's replica set
    (serve/_private/router.py, [Router.__init__]) is an instance.  [cstep] lets the
    controller's notifications, the client and the subscriber's own steps
    interleave. *)
From S2P Require Import Prelude PyStrings ServeReplica ServeRouter ServeRouterProofs.
From S2P Require Import ServeLongPoll ServeLongPollProofs.
From stdpp Require Import base tactics list strings relations sets.

#[local] Open Scope Z_scope.

(** [on_update] is the callback, [local_step] anything else the subscriber does;
    [reflects] relates its state to the object it was told of last. *)
Class Subscriber (S O : Type) := {
  sub_init : S;
  on_update : O → S → S → Prop;
  local_step : S → S → Prop;
  valid : S → Prop;
  reflects : S → O → Prop;
  sub_init_valid : valid sub_init;
  on_update_reflects o s s' : valid s → on_update o s s' → valid s' ∧ reflects s' o;
  local_step_reflects s s' :
    valid s → local_step s s' → valid s' ∧ ∀ o, reflects s o → reflects s' o;
}.

Section composition.
Context {S O : Type} `{Subscriber S O} (key : KeyType).

Record served := { sys : system O; sub : S }.

(** The client of a subscriber listens to one key. *)
Inductive cstep : served → served → Prop :=
  | cstep_local x s' : local_step (sub x) s' → cstep x {| sys := sys x; sub := s' |}
  | cstep_callback x y arg s' :
      sstep (sys x) y → called (client y) = called (client (sys x)) ++ [(key, arg)] →
      on_update arg (sub x) s' → cstep x {| sys := y; sub := s' |}
  | cstep_system x y :
      sstep (sys x) y → called (client y) = called (client (sys x)) →
      cstep x {| sys := y; sub := sub x |}.

Definition served_reachable (x : served) : Prop :=
  ∃ s0, system_init [key] = Ok s0 ∧ rtc cstep {| sys := s0; sub := sub_init |} x.

Record served_inv (x : served) : Prop := {
  vi_system : system_inv (sys x);
  vi_valid : valid (sub x);
  vi_reflects o : last_called key (called (client (sys x))) = Some o → reflects (sub x) o;
}.

Lemma cstep_inv x y : cstep x y → served_inv x → served_inv y.
Proof.
  destruct 1 as [x s' Hl|x y arg s' Hs Hc Hu|x y Hs Hc]; intros [Hi Hv Hr].
  - destruct (local_step_reflects _ _ Hv Hl) as [Hv' Hr']. constructor; cbn; auto.
  - destruct (on_update_reflects _ _ _ Hv Hu) as [Hv' Hr'].
    constructor; cbn; [by eapply sstep_inv|done|]. intros o.
    rewrite Hc, last_called_snoc, decide_True by done. by intros [= <-].
  - constructor; cbn; [by eapply sstep_inv|done|]. rewrite Hc. apply Hr.
Qed.

Lemma served_reachable_inv x : served_reachable x → served_inv x.
Proof.
  intros (s0 & Hs0 & Hr). eapply (rtc_ind_r served_inv); [| |exact Hr].
  - constructor; cbn.
    + eapply system_init_inv; [|exact Hs0]. apply NoDup_singleton.
    + apply sub_init_valid.
    + injection Hs0 as <-. done.
  - intros; by eapply cstep_inv.
Qed.

(** Between answers, a subscriber whose client is up to date reflects the host's
    object. *)
Lemma up_to_date_reflects x i o ids tasks :
  served_reachable x →
  dget key (c_snapshot_ids (client (sys x))) = Some i →
  dget key (snapshot_ids (host (sys x))) = Some i →
  dget key (object_snapshots (host (sys x))) = Some o →
  at_ (sys x) = Polling ids ∨ at_ (sys x) = Waiting ids tasks →
  valid (sub x) ∧ reflects (sub x) o.
Proof.
  intros [Hi Hv Hr]%served_reachable_inv Hc Hh Ho Hat. split; [done|]. apply Hr.
  destruct (coherent_delivered _ _ _ Hi Hc Hh) as [_ Hd]. by rewrite (Hd _ _ Hat).
Qed.
End composition.
Arguments served : clear implicits.

(** ** The router *)

Lemma try_replicas_members n s s' res :
  try_replicas n s = (s', res) → dict_wf (in_flight_queries s) →
  dkeys (in_flight_queries s') = dkeys (in_flight_queries s) ∧
  ∀ ref, res = Ok (Some ref) →
    ∃ r, r ∈ dkeys (in_flight_queries s) ∧ sent s' = sent s ++ [(r, ref)].
Proof.
  revert s. induction n as [|n IH]; intros s Ht Hw; cbn in Ht.
  { injection Ht as <- <-. by split. }
  unfold mbind, st_bind, next_replica, st_get, st_lift, st_modify in Ht.
  destruct (replica_iterator s) as [|r rest]; [by simplify_eq|]. cbn in Ht.
  unfold dget_exn in Ht. destruct (dget r (in_flight_queries s)) as [refs|] eqn:Hg; cbn in Ht;
    [|by simplify_eq].
  destruct (ri_max_concurrent_queries r) as [mx|]; cbn in Ht; [|by simplify_eq].
  destruct (mx <=? _); [by apply IH in Ht|].
  injection Ht as <- <-. cbn [send in_flight_queries set_iterator sent next_ref].
  assert (r ∈ dkeys (in_flight_queries s)) as Hin by (apply elem_of_dkeys_dget; by eexists).
  rewrite dkeys_dset. apply din_spec in Hin as Hd. rewrite Hd. split; [done|].
  intros ref [= <-]. by exists r.
Qed.

(** Everything the router does by itself keeps its members, or drops some. *)
Lemma rlocal_members s s' :
  rlocal s s' → dict_wf (in_flight_queries s) →
  dict_wf (in_flight_queries s') ∧
  ∀ r, r ∈ dkeys (in_flight_queries s') → r ∈ dkeys (in_flight_queries s).
Proof.
  destruct 1 as [s|s s' o Ha|shuffle s done_ crashed Hsh|s]; intros Hw.
  - done.
  - assert (dkeys (in_flight_queries s') = dkeys (in_flight_queries s)) as E.
    { unfold assign_step, _try_assign_replica in Ha.
      destruct (try_replicas (length (dkeys (in_flight_queries s))) s) as [s1 res] eqn:Ht.
      change ((s ← st_get; try_replicas (length (dkeys (in_flight_queries s)))) s)
        with (try_replicas (length (dkeys (in_flight_queries s))) s) in Ha. rewrite Ht in Ha.
      apply try_replicas_members in Ht as [E _]; [|done].
      destruct res as [[ref|]|e]; by simplify_eq. }
    unfold dict_wf. rewrite E. by split.
  - destruct (drain_effect shuffle Hsh s done_ crashed Hw) as (Hw' & Hg & _ & _). split; [done|].
    intros r Hr. apply elem_of_dkeys_dget in Hr as [refs Hr].
    destruct (Hg r refs Hr) as (refs' & Hr' & _). apply elem_of_dkeys_dget. by eexists.
  - unfold wake_up. by case_match.
Qed.

(** The callback gets the announced infos as they were unpickled: with new handles. *)
#[export] Program Instance router_subscriber : Subscriber ReplicaSet (list RunningReplicaInfo) := {|
  sub_init := replica_set_init;
  on_update rs s s' :=
    ∃ shuffle base, (∀ l, shuffle l ≡ₚ l) ∧ handles_below base s ∧
      s' = update_running_replicas shuffle (unpickle_infos base rs) s;
  local_step := rlocal;
  valid s := dict_wf (in_flight_queries s);
  reflects s rs := ∀ r, r ∈ dkeys (in_flight_queries s) → ∃ r', r' ∈ rs ∧ same_replica r r';
|}.
Next Obligation. constructor. Qed.
Next Obligation.
  intros rs s s' Hw (shuffle & base & Hsh & Hb & ->).
  destruct (update_effect shuffle Hsh (unpickle_infos base rs) s Hw) as (Hw' & Hg & _).
  split; [done|]. intros r Hr. apply elem_of_dkeys_dget in Hr as [refs Hr]. rewrite Hg in Hr.
  case_decide as Hin; [|done]. by eapply unpickle_same.
Qed.
Next Obligation.
  intros s s' Hw Hl. destruct (rlocal_members s s' Hl Hw) as [Hw' Hm]. split; [done|]. auto.
Qed.

(** C13: a handle that is up to date sends queries only to replicas the controller
    announced: when its client has the host's version of the running replicas and
    no answer is being processed, its members are infos of announced replicas (unpickled,
    so through handle objects of their own), and so is the replica that the next query goes
    to. *)
Theorem router_follows_controller deployment_name (x : served ReplicaSet (list RunningReplicaInfo))
    i rs ids tasks :
  let key := KPair RUNNING_REPLICAS deployment_name in
  served_reachable key x →
  dget key (c_snapshot_ids (client (sys x))) = Some i →
  dget key (snapshot_ids (host (sys x))) = Some i →
  dget key (object_snapshots (host (sys x))) = Some rs →
  at_ (sys x) = Polling ids ∨ at_ (sys x) = Waiting ids tasks →
  (∀ r, r ∈ dkeys (in_flight_queries (sub x)) → ∃ r', r' ∈ rs ∧ same_replica r r') ∧
  ∀ s' ref, _try_assign_replica (sub x) = (s', Ok (Some ref)) →
    ∃ r r', r' ∈ rs ∧ same_replica r r' ∧ sent s' = sent (sub x) ++ [(r, ref)].
Proof.
  intros key Hx Hc Hh Ho Hat. destruct (up_to_date_reflects key x i rs ids tasks) as [Hv Hr]; try done.
  split; [done|]. intros s' ref Ht.
  destruct (try_replicas_members _ _ _ _ Ht Hv) as [_ Hsent].
  destruct (Hsent ref eq_refl) as (r & Hin & E). destruct (Hr r Hin) as (r' & Hin' & Hsame).
  by exists r, r'.
Qed.

Module RoutingExamples.
Import RouterExamples.

Definition key : KeyType := KPair RUNNING_REPLICAS "d".
Definition answer : UpdatedObject (list RunningReplicaInfo) :=
  {| object_snapshot := [announced1]; snapshot_id := 42 |}.

(** The controller announces a replica; the router's client polls, is answered and
    runs the callback. *)
Definition h1 : LongPollHost (list RunningReplicaInfo) := notify_changed 41 key [announced1] host_init.
Definition c0 : LongPollClient (list RunningReplicaInfo) :=
  {| key_listeners := [key]; c_snapshot_ids := [(key, -1)]; c_object_snapshots := [];
     _callbacks_processed_count := 0; is_running := true; called := [] |}.
Definition c1 : LongPollClient (list RunningReplicaInfo) := process_updates [(key, answer)] c0.
Definition final : served ReplicaSet (list RunningReplicaInfo) :=
  {| sys := {| host := h1; client := (run_callback key [announced1] 1 c1).1; at_ := Polling [(key, 42)] |};
     sub := update_running_replicas id [r1] replica_set_init |}.

Lemma final_reachable : served_reachable key final.
Proof.
  eexists. split; [reflexivity|].
  eapply rtc_l; [eapply cstep_system; [apply (step_notify _ 41 key [announced1]); lia|reflexivity]|].
  eapply rtc_l; [eapply cstep_system; [apply (step_answer _ [(key, -1)] h1 [(key, answer)]); reflexivity|reflexivity]|].
  eapply rtc_l; [eapply cstep_system; [apply (step_process _ [(key, answer)]); reflexivity|reflexivity]|].
  eapply rtc_l; [|apply rtc_refl].
  eapply (cstep_callback key _ (sys final) [announced1]); [|reflexivity|exists id, 0%nat; split; [done|]; split; [|reflexivity]; intros r n Hin; by apply not_elem_of_nil in Hin].
  apply (step_callback {| host := h1; client := c1; at_ := Callbacks [(key, [announced1])] 1 |}
           key [announced1] [] 1 (client (sys final)) true); reflexivity.
Qed.

Lemma router_follows_controller_witness :
  (∀ r, r ∈ dkeys (in_flight_queries (sub final)) → ∃ r', r' ∈ [announced1] ∧ same_replica r r') ∧
  ∀ s' ref, _try_assign_replica (sub final) = (s', Ok (Some ref)) →
    ∃ r r', r' ∈ [announced1] ∧ same_replica r r' ∧ sent s' = sent (sub final) ++ [(r, ref)].
Proof.
  apply (router_follows_controller "d" final 42 [announced1] [(key, 42)] []);
    [apply final_reachable|reflexivity|reflexivity|reflexivity|by left].
Defined.
End RoutingExamples.
