(* ===== verification/ServeEndpoint.v ===== *)
(** * Endpoints and the routes to them

    The controller's table of endpoints ([serve/_private/endpoint_state.py]) and the router of the
    HTTP proxies that are told of it ([LongestPrefixRouter] of [http_proxy.py]). *)
From S2P Require Import Prelude PyStrings.
From stdpp Require Import base tactics list strings.
From Stdlib Require Import Ascii.

#[local] Open Scope Z_scope.

Record EndpointInfo := mkInfo { route : string }.

#[global] Instance EndpointInfo_eq_dec : EqDecision EndpointInfo.
Proof. solve_decision. Defined.

Definition EndpointTag : Type := string.
Definition Endpoints : Type := dict EndpointTag EndpointInfo.

(** ** [EndpointState] *)

(** [checkpoint] is what the store has under [CHECKPOINT_KEY]; [notified] are the tables that the
    long-poll host was notified of.  The host keeps the dict itself, not a copy: what it answers to
    a request is [_endpoints] at that time. *)
Record EndpointState := mkEndpointState {
  _endpoints : Endpoints;
  checkpoint : option Endpoints;
  notified : list Endpoints
}.

Definition set_endpoints (d : Endpoints) (s : EndpointState) : EndpointState :=
  mkEndpointState d (checkpoint s) (notified s).

(** [_notify_route_table_changed] *)
Definition _notify_route_table_changed : ST EndpointState unit :=
  st_modify (λ s, mkEndpointState (_endpoints s) (checkpoint s) (notified s ++ [_endpoints s])).

(** [EndpointState(kv_store, long_poll_host)] *)
Definition new_endpoint_state (stored : option Endpoints) : EndpointState :=
  let s := mkEndpointState (default [] stored) stored [] in
  (_notify_route_table_changed s).1.

(** [shutdown] *)
Definition shutdown_endpoints : ST EndpointState unit :=
  st_modify (λ s, mkEndpointState (_endpoints s) None (notified s)).

(** [_checkpoint]; [written] says that the store takes the write. *)
Definition checkpoint_endpoints (written : bool) : ST EndpointState unit :=
  if written then st_modify (λ s, mkEndpointState (_endpoints s) (Some (_endpoints s)) (notified s))
  else st_raise RayError.

(** [_get_endpoint_for_route] *)
Fixpoint _get_endpoint_for_route (r : string) (endpoints : Endpoints) : option EndpointTag :=
  match endpoints with
  | [] => None
  | (endpoint, info) :: endpoints =>
      if decide (route info = r) then Some endpoint else _get_endpoint_for_route r endpoints
  end.

(** [update_endpoint] *)
Definition update_endpoint (written : bool) (endpoint : EndpointTag) (endpoint_info : EndpointInfo) :
    ST EndpointState unit :=
  s ← st_get;
  if decide (dget endpoint (_endpoints s) = Some endpoint_info) then mret tt else
  _ ← match _get_endpoint_for_route (route endpoint_info) (_endpoints s) with
      | Some existing_route_endpoint =>
          if decide (existing_route_endpoint = endpoint) then mret tt
          else st_modify (λ s, set_endpoints (ddel existing_route_endpoint (_endpoints s)) s)
      | None => mret tt
      end;
  _ ← st_modify (λ s, set_endpoints (dset endpoint endpoint_info (_endpoints s)) s);
  _ ← checkpoint_endpoints written;
  _notify_route_table_changed.

(** [get_endpoint_route] *)
Definition get_endpoint_route (endpoint : EndpointTag) (s : EndpointState) : option string :=
  route <$> dget endpoint (_endpoints s).

(** [get_endpoints] *)
Definition get_endpoints (s : EndpointState) : dict EndpointTag string :=
  prod_map id route <$> _endpoints s.

(** [delete_endpoint] *)
Definition delete_endpoint (written : bool) (endpoint : EndpointTag) : ST EndpointState unit :=
  s ← st_get;
  if din endpoint (_endpoints s) then
    _ ← st_modify (λ s, set_endpoints (ddel endpoint (_endpoints s)) s);
    _ ← checkpoint_endpoints written;
    _notify_route_table_changed
  else mret tt.

(** ** [LongestPrefixRouter] *)

Section router.
(** The handle of an endpoint. *)
Context {Handle : Type} (get_handle : EndpointTag → Handle).

Record LongestPrefixRouter := mkRouter {
  sorted_routes : list string;
  route_info : dict string EndpointTag;
  handles : dict EndpointTag Handle
}.

Definition new_router : LongestPrefixRouter := mkRouter [] [] [].

(** [endpoint_exists] *)
Definition endpoint_exists (endpoint : EndpointTag) (self : LongestPrefixRouter) : bool :=
  din endpoint (handles self).

(** One turn of the loop of [update_routes]: the handles that were there and are not needed so far,
    the routes, their endpoints, and the handles. *)
Definition update_step (acc : list EndpointTag * list string * dict string EndpointTag * dict EndpointTag Handle)
    (entry : EndpointTag * EndpointInfo) :
    result (list EndpointTag * list string * dict string EndpointTag * dict EndpointTag Handle) :=
  let '(existing_handles, routes, route_info, handles) := acc in
  let '(endpoint, info) := entry in
  let routes := routes ++ [route info] in
  let route_info := dset (route info) endpoint route_info in
  if din endpoint handles then
    if decide (endpoint ∈ existing_handles) then
      Ok (filter (λ e, e ≠ endpoint) existing_handles, routes, route_info, handles)
    else Err KeyError
  else Ok (existing_handles, routes, route_info, dset endpoint (get_handle endpoint) handles).

(** [update_routes] *)
Definition update_routes (endpoints : Endpoints) (self : LongestPrefixRouter) : result LongestPrefixRouter :=
  '(existing_handles, routes, route_info, handles) ←
    foldM update_step (dkeys (handles self), [], [] : dict string EndpointTag, handles self) endpoints;
  let handles := fold_left (λ h endpoint, ddel endpoint h) existing_handles handles in
  Ok (mkRouter (py_sorted_rev Z.compare (λ r, Z.of_nat (String.length r)) routes) route_info handles).

(** Whether the loop of [match_route] takes a route. *)
Definition matched (target_route r : string) : bool :=
  String.prefix r target_route &&
  (endswith "/" r ||
   (String.length target_route =? String.length r)%nat ||
   bool_decide (String.get (String.length r) target_route = Some "/"%char)).

Fixpoint match_routes (self : LongestPrefixRouter) (target_route : string) (routes : list string) :
    result (option (string * Handle)) :=
  match routes with
  | [] => Ok None
  | r :: routes =>
      if matched target_route r then
        endpoint ← dget_exn r (route_info self);
        handle ← dget_exn endpoint (handles self);
        Ok (Some (r, handle))
      else match_routes self target_route routes
  end.

(** [match_route] *)
Definition match_route (target_route : string) (self : LongestPrefixRouter) : result (option (string * Handle)) :=
  match_routes self target_route (sorted_routes self).
End router.
Arguments LongestPrefixRouter : clear implicits.
