(* ===== verification/ServeEndpointProofs.v ===== *)
(** * Endpoints and the routes to them, proved

    The table of endpoints has one endpoint for each route, and is what was last saved and
    announced as long as writes succeed.  A proxy that is up to date sends each request to the
    endpoint with the longest route that matches its path: the router is a [Subscriber] of the
    controller, so that this follows from its operations alone. *)
From S2P Require Import Prelude PyStrings PyLists ServeLongPoll ServeRouting ServeEndpoint.
From stdpp Require Import base tactics list strings relations sorting.
From Stdlib Require Import Ascii.

#[local] Open Scope Z_scope.

(** ** Strings *)

Lemma prefix_app r t : String.prefix r t = true ↔ ∃ suffix, t = r +:+ suffix.
Proof.
  split; [|intros [suffix ->]; apply str_prefix_app]. revert t. induction r as [|c r IH]; intros t; [by exists t|].
  destruct t as [|d t]; cbn; [done|]. destruct (ascii_dec c d) as [<-|]; [|done]. intros [suffix ->]%IH. by exists suffix.
Qed.

Lemma length_str_app (r s : string) : String.length (r +:+ s) = (String.length r + String.length s)%nat.
Proof.
  induction r as [|c r IH]; [done|]. change (String c r +:+ s) with (String c (r +:+ s)). cbn [String.length]. by rewrite IH.
Qed.

Lemma get_str_app (r s : string) : String.get (String.length r) (r +:+ s) = String.get 0 s.
Proof. induction r as [|c r IH]; [done|]. exact IH. Qed.

Lemma endswith_app c r : endswith c r = true ↔ ∃ p, r = p +:+ String c EmptyString.
Proof.
  unfold endswith. split; [|intros [p ->]; rewrite str_last_snoc; apply Ascii.eqb_refl].
  induction r as [|d r IH]; [done|]. destruct r as [|e r].
  - cbn. intros ->%Ascii.eqb_eq. by exists EmptyString.
  - intros [p Hp]%IH. exists (String d p). by rewrite Hp.
Qed.

(** ** Matching *)

(** A route matches a path that it is, or that it is a prefix of up to a slash. *)
Definition route_matches (target_route r : string) : Prop :=
  ∃ suffix, target_route = r +:+ suffix ∧
    (suffix = ""%string ∨ (∃ p, r = p +:+ "/"%string) ∨ ∃ q, suffix = String "/" q).

Lemma matched_spec t r : matched t r = true ↔ route_matches t r.
Proof.
  unfold matched, route_matches. rewrite andb_true_iff, !orb_true_iff, prefix_app, endswith_app, Nat.eqb_eq, bool_decide_eq_true.
  split.
  - intros [[suffix ->] H]. exists suffix. split; [done|]. rewrite length_str_app, get_str_app in H.
    destruct H as [[H|H]|H].
    + right. by left.
    + left. destruct suffix; [done|]. cbn in H. lia.
    + right. right. destruct suffix as [|c q]; [done|]. injection H as ->. by exists q.
  - intros (suffix & -> & H). split; [by exists suffix|]. rewrite length_str_app, get_str_app. destruct H as [->|[H|[q ->]]].
    + left. right. cbn. lia.
    + left. by left.
    + by right.
Qed.

(** Prefixes of a path of the same length are the same. *)
Lemma prefix_same_length r1 r2 s1 s2 :
  r1 +:+ s1 = r2 +:+ s2 → String.length r1 = String.length r2 → r1 = r2.
Proof.
  revert r2. induction r1 as [|c r1 IH]; intros [|d r2] Heq Hlen; try done.
  cbn in *. injection Heq as -> Heq. f_equal. apply IH; [done|lia].
Qed.

(** ** Updating the routes *)

(** A table as the controller has it: one endpoint for each route. *)
Definition table_ok (endpoints : Endpoints) : Prop :=
  dict_wf endpoints ∧ NoDup (route <$> dvalues endpoints).

Section router.
Context {Handle : Type} (get_handle : EndpointTag → Handle).

Record router_ok (self : LongestPrefixRouter Handle) : Prop := {
  ro_wf : dict_wf (handles self);
  ro_handles e h : dget e (handles self) = Some h → h = get_handle e
}.

(** What the loop leaves. *)
Lemma update_fold (eps : Endpoints) ex rs ri hs :
  dict_wf eps → dict_wf hs → (∀ e, e ∈ ex → din e hs = true) → (∀ e, e ∈ dkeys eps → din e hs = true → e ∈ ex) →
  ∃ ex' hs',
    foldM (update_step get_handle) (ex, rs, ri, hs) eps =
      Ok (ex', rs ++ (route <$> dvalues eps), fold_left (λ d (p : EndpointTag * EndpointInfo), dset (route p.2) p.1 d) eps ri, hs') ∧
    dict_wf hs' ∧ (∀ e, e ∈ ex' ↔ e ∈ ex ∧ e ∉ dkeys eps) ∧
    ∀ e, dget e hs' = match dget e hs with
                      | Some h => Some h
                      | None => if decide (e ∈ dkeys eps) then Some (get_handle e) else None
                      end.
Proof.
  revert ex rs ri hs. induction eps as [|[e info] eps IH]; intros ex rs ri hs Hwf Hhs Hex Hin.
  { exists ex, hs. cbn. rewrite app_nil_r. split_and!; [done|done| |].
    - intros e. split; [intros; split; [done|apply not_elem_of_nil]|tauto].
    - intros e. by destruct (dget e hs). }
  apply NoDup_cons in Hwf as [Hne Hwf]. cbn in Hne. cbn [foldM update_step].
  destruct (din e hs) eqn:He.
  - rewrite decide_True by (apply Hin; [by left|done]). cbn [mbind result_bind].
    destruct (IH (filter (λ e', e' ≠ e) ex) (rs ++ [route info]) (dset (route info) e ri) hs) as (ex' & hs' & Hf & Hw' & Hex' & Hget); [done|done| | |].
    + intros e' [_ He']%list_elem_of_filter. by apply Hex.
    + intros e' He' Hd. apply list_elem_of_filter. split; [by intros ->|]. apply Hin; [by right|done].
    + exists ex', hs'. rewrite Hf. cbn. rewrite <- app_assoc. split_and!; [done|done| |].
      * intros e'. rewrite Hex', list_elem_of_filter. unfold dkeys in *. rewrite fmap_cons, elem_of_cons. cbn. naive_solver.
      * intros e'. rewrite Hget. destruct (dget e' hs) eqn:Hd; [done|]. unfold dkeys. rewrite fmap_cons.
        assert (e' ≠ e) by (intros ->; unfold din in He; by rewrite Hd in He).
        destruct (decide (e' ∈ eps.*1)); [by rewrite decide_True by (by right)|].
        rewrite decide_False; [done|]. intros [?|?]%elem_of_cons; done.
  - cbn [mbind result_bind].
    destruct (IH ex (rs ++ [route info]) (dset (route info) e ri) (dset e (get_handle e) hs)) as (ex' & hs' & Hf & Hw' & Hex' & Hget).
    + done.
    + by apply dset_wf.
    + intros e' He'. unfold din. rewrite dget_dset. case_decide; [done|]. by apply Hex.
    + intros e' He' Hd. apply Hin; [by right|]. unfold din in *. rewrite dget_dset in Hd.
      rewrite decide_False in Hd by (intros ->; done). done.
    + exists ex', hs'. rewrite Hf. cbn. rewrite <- app_assoc. split_and!; [done|done| |].
      * intros e'. rewrite Hex'. unfold dkeys. rewrite fmap_cons, elem_of_cons. cbn.
        split; [|naive_solver]. intros [H1 H2]. split; [done|]. intros [->|]; [|done].
        apply Hex in H1. congruence.
      * intros e'. rewrite Hget, dget_dset. unfold dkeys. rewrite fmap_cons. cbn.
        destruct (decide (e' = e)) as [->|Hn].
        -- unfold din in He. destruct (dget e hs); [done|]. by rewrite decide_True by left.
        -- destruct (dget e' hs); [done|]. destruct (decide (e' ∈ eps.*1)); [by rewrite decide_True by (by right)|].
           rewrite decide_False; [done|]. intros [?|?]%elem_of_cons; done.
Qed.

Lemma del_handles ex (hs : dict EndpointTag Handle) :
  dict_wf hs → dict_wf (fold_left (λ h e, ddel e h) ex hs) ∧
  ∀ e, dget e (fold_left (λ h e, ddel e h) ex hs) = if decide (e ∈ ex) then None else dget e hs.
Proof.
  revert hs. induction ex as [|x ex IH]; intros hs Hw; cbn [fold_left].
  { split; [done|]. intros e. rewrite decide_False; [done|apply not_elem_of_nil]. }
  destruct (IH (ddel x hs) (ddel_wf _ _ Hw)) as [Hw' Hget]. split; [done|]. intros e. rewrite Hget, dget_ddel by done.
  destruct (decide (e ∈ ex)); [by rewrite decide_True by (by right)|]. destruct (decide (e = x)) as [->|].
  - by rewrite decide_True by left.
  - rewrite decide_False; [done|]. intros [?|?]%elem_of_cons; done.
Qed.

(** The endpoint of each route. *)
Lemma route_info_get (eps : Endpoints) ri e info :
  NoDup (route <$> dvalues eps) → (e, info) ∈ eps →
  dget (route info) (fold_left (λ d (p : EndpointTag * EndpointInfo), dset (route p.2) p.1 d) eps ri) = Some e.
Proof.
  intros Hnd Hin. assert (∀ (eps : Endpoints) r ri, r ∉ route <$> dvalues eps →
    dget r (fold_left (λ d (p : EndpointTag * EndpointInfo), dset (route p.2) p.1 d) eps ri) = dget r ri) as Hrest.
  { clear. induction eps as [|[e info] eps IH]; intros r ri Hr; [done|]. cbn in *. apply not_elem_of_cons in Hr as [Hr1 Hr2].
    rewrite IH by done. by rewrite dget_dset_ne. }
  revert ri. induction eps as [|[e' info'] eps IH]; intros ri; [by apply not_elem_of_nil in Hin|]. cbn in *.
  apply NoDup_cons in Hnd as [Hn Hnd]. apply elem_of_cons in Hin as [[= <- <-]|Hin]; [|by apply IH].
  rewrite Hrest by done. by rewrite dget_dset_eq.
Qed.

Lemma update_routes_eq (eps : Endpoints) self :
  table_ok eps → router_ok self →
  ∃ self', update_routes get_handle eps self = Ok self' ∧ router_ok self' ∧
    sorted_routes self' = py_sorted_rev Z.compare (λ r, Z.of_nat (String.length r)) (route <$> dvalues eps) ∧
    ∀ e info, (e, info) ∈ eps → dget (route info) (route_info self') = Some e ∧ dget e (handles self') = Some (get_handle e).
Proof.
  intros [Hwf Hnd] [Hh Hget]. unfold update_routes.
  destruct (update_fold eps (dkeys (handles self)) [] [] (handles self)) as (ex & hs & -> & Hw & Hex & Hhs); [done|done| | |].
  - intros e. by rewrite din_spec.
  - intros e _. by rewrite din_spec.
  - cbn [mbind result_bind]. destruct (del_handles ex hs Hw) as [Hw' Hdel]. eexists. split; [reflexivity|]. split; [split|split]; cbn.
    + done.
    + intros e h. rewrite Hdel. case_decide; [done|]. rewrite Hhs. destruct (dget e (handles self)) eqn:He.
      * intros [= <-]. by apply Hget.
      * by case_decide; intros [= <-].
    + done.
    + intros e info Hin. split; [by apply route_info_get|]. assert (e ∈ dkeys eps) as Hk.
      { apply list_elem_of_fmap. by exists (e, info). }
      rewrite Hdel, decide_False by (intros [_ ?]%Hex; done). rewrite Hhs.
      destruct (dget e (handles self)) eqn:He; [by rewrite (Hget _ _ He)|]. by rewrite decide_True.
Qed.

(** ** Longest prefixes *)

(** What a router answers for a table. *)
Definition routes_by (endpoints : Endpoints) (self : LongestPrefixRouter Handle) : Prop :=
  ∀ target_route, ∃ res, match_route target_route self = Ok res ∧
    match res with
    | Some (r, handle) =>
        route_matches target_route r ∧
        (∃ e, (e, mkInfo r) ∈ endpoints ∧ handle = get_handle e) ∧
        ∀ e info, (e, info) ∈ endpoints → route_matches target_route (route info) →
          (String.length (route info) ≤ String.length r)%nat
    | None => ∀ e info, (e, info) ∈ endpoints → ¬ route_matches target_route (route info)
    end.

Lemma match_routes_eq self t (rs : list string) :
  StronglySorted (λ r1 r2, (String.length r2 ≤ String.length r1)%nat) rs →
  (∀ r, r ∈ rs → ∃ e h, dget r (route_info self) = Some e ∧ dget e (handles self) = Some h) →
  (match_routes (Handle := Handle) self t rs = Ok None ∧ ∀ r, r ∈ rs → ¬ route_matches t r) ∨
  ∃ r e h, match_routes self t rs = Ok (Some (r, h)) ∧ r ∈ rs ∧ route_matches t r ∧
    dget r (route_info self) = Some e ∧ dget e (handles self) = Some h ∧
    ∀ r', r' ∈ rs → route_matches t r' → (String.length r' ≤ String.length r)%nat.
Proof.
  induction 1 as [|r rs Hs IH Hr]; intros Hget; cbn [match_routes].
  { left. split; [done|]. intros r Hr. by apply not_elem_of_nil in Hr. }
  destruct (matched t r) eqn:Hm.
  - right. destruct (Hget r ltac:(left)) as (e & h & He & Hh). exists r, e, h. unfold dget_exn. rewrite He. cbn. rewrite Hh. cbn.
    split_and!; [done|left|by apply matched_spec|done|done|]. intros r' [->|Hr']%elem_of_cons _; [done|].
    rewrite Forall_forall in Hr. by apply Hr.
  - assert (¬ route_matches t r) as Hno by (intros Hn%matched_spec; congruence).
    destruct IH as [[Hn Hall]|(r1 & e & h & Heq & Hin & Hm1 & He & Hh & Hmax)].
    + intros r' Hr'. apply Hget. by right.
    + left. split; [done|]. intros r' [->|Hr']%elem_of_cons; [done|by apply Hall].
    + right. exists r1, e, h. split_and!; try done; [by right|]. intros r' [->|Hr']%elem_of_cons Hm'; [done|by apply Hmax].
Qed.

Lemma update_routes_by (eps : Endpoints) self self' :
  table_ok eps → router_ok self → update_routes get_handle eps self = Ok self' → routes_by eps self'.
Proof.
  intros Hok Hr Hup. destruct (update_routes_eq eps self Hok Hr) as (self1 & Heq & [_ Hh] & Hsorted & Hget).
  rewrite Heq in Hup. injection Hup as <-. intros t. unfold match_route. rewrite Hsorted.
  set (rs := py_sorted_rev _ _ _).
  assert (∀ r, r ∈ rs ↔ ∃ e, (e, mkInfo r) ∈ eps) as Hrs.
  { intros r. unfold rs. rewrite py_sorted_rev_perm. rewrite list_elem_of_fmap. unfold dvalues. split.
    - intros (info & -> & ((e, info') & -> & Hin)%list_elem_of_fmap). exists e. by destruct info'.
    - intros [e Hin]. exists (mkInfo r). split; [done|]. apply list_elem_of_fmap. by exists (e, mkInfo r). }
  assert (StronglySorted (λ r1 r2, (String.length r2 ≤ String.length r1)%nat) rs) as Hs.
  { pose (before := λ x y, match Z.compare (Z.of_nat (String.length x)) (Z.of_nat (String.length y)) with Lt => false | _ => true end).
    change rs with (stable_sort before (route <$> dvalues eps)).
    assert (∀ x y, before x y = true ↔ (String.length y ≤ String.length x)%nat) as Hb.
    { intros x y. unfold before. destruct (Z.compare_spec (Z.of_nat (String.length x)) (Z.of_nat (String.length y))); split; intros; (done || lia || (exfalso; lia)). }
    assert (StronglySorted (λ x y, before x y = true) (stable_sort before (route <$> dvalues eps))) as Hss.
    { apply stable_sort_sorted.
      - intros x y Hxy. apply Hb. destruct (decide (String.length y ≤ String.length x)%nat) as [Hle|]; [apply Hb in Hle; congruence|lia].
      - intros x y z. rewrite !Hb. lia. }
    revert Hss. generalize (stable_sort before (route <$> dvalues eps)). intros l Hl.
    induction Hl as [|x l Hl IH Hx]; constructor; [done|]. eapply Forall_impl; [exact Hx|]. intros y. apply Hb. }
  destruct (match_routes_eq self1 t rs Hs) as [[Hn Hall]|(r & e & h & Heq' & Hin & Hm & He & Hh' & Hmax)].
  - intros r [e Hin]%Hrs. destruct (Hget e _ Hin) as [H1 H2]. by exists e, (get_handle e).
  - exists None. split; [done|]. intros e [r] Hin. apply Hall, Hrs. by exists e.
  - exists (Some (r, h)). split; [done|]. split_and!; [done| |].
    + apply Hrs in Hin as [e' Hin]. destruct (Hget e' _ Hin) as [H1 H2]. cbn in H1. rewrite He in H1. injection H1 as ->.
      exists e'. split; [done|]. rewrite Hh' in H2. by injection H2.
    + intros e' [r'] Hin' Hm'. apply Hmax; [|done]. apply Hrs. by exists e'.
Qed.

(** The answer is one endpoint's. *)
Lemma routes_by_unique (eps : Endpoints) t e1 e2 r1 r2 :
  table_ok eps → (e1, mkInfo r1) ∈ eps → (e2, mkInfo r2) ∈ eps →
  route_matches t r1 → route_matches t r2 → String.length r1 = String.length r2 → e1 = e2.
Proof.
  intros [_ Hnd] H1 H2 (s1 & -> & _) (s2 & Heq & _) Hlen. apply (prefix_same_length _ _ _ _ Heq) in Hlen as <-.
  clear -Hnd H1 H2. induction eps as [|[e [r]] eps IH]; [by apply not_elem_of_nil in H1|]. cbn in Hnd.
  apply NoDup_cons in Hnd as [Hn Hnd].
  assert (∀ e', (e', mkInfo r) ∈ eps → False) as Hno.
  { intros e' Hin. apply Hn. apply list_elem_of_fmap. exists (mkInfo r). split; [done|]. apply list_elem_of_fmap. by exists (e', mkInfo r). }
  apply elem_of_cons in H1, H2. destruct H1 as [E1|H1], H2 as [E2|H2]; simplify_eq; [done|..|by apply IH];
    exfalso; by eapply Hno.
Qed.
End router.

(** ** The proxy as a subscriber *)

Section proxy.
Context {Handle : Type} (get_handle : EndpointTag → Handle).

Lemma update_routes_ok (eps : Endpoints) self self' :
  router_ok get_handle self → update_routes get_handle eps self = Ok self' → router_ok get_handle self'.
Proof.
  intros [Hw Hh]. unfold update_routes.
  assert (∀ (eps : Endpoints) acc acc', foldM (update_step get_handle) acc eps = Ok acc' →
    dict_wf acc.2 → (∀ e h, dget e acc.2 = Some h → h = get_handle e) →
    dict_wf acc'.2 ∧ ∀ e h, dget e acc'.2 = Some h → h = get_handle e) as Hfold.
  { clear. induction eps as [|[e info] eps IH]; intros [[[ex rs] ri] hs] acc' Hf Hw Hh; cbn in Hf; [by injection Hf as <-|].
    destruct (din e hs) eqn:He.
    - destruct (decide (e ∈ ex)); [|done]. cbn in Hf. by apply IH in Hf.
    - cbn in Hf. apply IH in Hf; [done|by apply dset_wf|]. intros e' h. cbn. rewrite dget_dset. case_decide; [|by apply Hh].
      intros [= <-]. by subst. }
  destruct (foldM _ _ eps) as [[[[ex rs] ri] hs]|] eqn:Hf; [|done]. apply Hfold in Hf as [Hw' Hh']; [|done|done].
  cbn in *. intros [= <-]. destruct (del_handles ex hs Hw') as [Hw2 Hdel]. split; cbn; [done|].
  intros e h. rewrite Hdel. case_decide; [done|]. apply Hh'.
Qed.

Program Definition proxy_subscriber : Subscriber (LongestPrefixRouter Handle) Endpoints := {|
  sub_init := new_router;
  on_update eps self self' := update_routes get_handle eps self = Ok self';
  local_step self self' := self' = self;
  valid := router_ok get_handle;
  reflects self eps := table_ok eps → routes_by get_handle eps self;
|}.
Next Obligation. split; [constructor|done]. Qed.
Next Obligation.
  intros eps self self' Hok Hup. split; [exact (update_routes_ok eps self self' Hok Hup)|].
  intros Ht. exact (update_routes_by get_handle eps self self' Ht Hok Hup).
Qed.
Next Obligation. by intros self self' Hok ->. Qed.
End proxy.

(** ** The table of endpoints *)

(** The controller: calls of the API, with writes that succeed or fail, and restarts. *)
Inductive estep : EndpointState → EndpointState → Prop :=
  | estep_update written e info s : estep s (update_endpoint written e info s).1
  | estep_delete written e s : estep s (delete_endpoint written e s).1
  | estep_restart s : estep s (new_endpoint_state (checkpoint s)).

Lemma route_endpoint_spec r (eps : Endpoints) :
  match _get_endpoint_for_route r eps with
  | Some e => ∃ info, (e, info) ∈ eps ∧ route info = r
  | None => r ∉ route <$> dvalues eps
  end.
Proof.
  induction eps as [|[e info] eps IH]; cbn [_get_endpoint_for_route]; [apply not_elem_of_nil|].
  destruct (decide (route info = r)) as [Hr|Hr].
  - exists info. split; [by left|done].
  - destruct (_get_endpoint_for_route r eps).
    + destruct IH as (info' & Hin & Hr'). exists info'. split; [by right|done].
    + cbn. intros [->|?]%elem_of_cons; done.
Qed.

Lemma values_ddel e (eps : Endpoints) : sublist (route <$> dvalues (ddel e eps)) (route <$> dvalues eps).
Proof.
  induction eps as [|[e' info] eps IH]; [done|]. cbn. destruct (decide (e = e')); cbn; [by apply sublist_cons|by apply sublist_skip].
Qed.

Lemma table_ddel e eps : table_ok eps → table_ok (ddel e eps).
Proof.
  intros [Hw Hn]. split; [by apply ddel_wf|]. eapply sublist_NoDup; [done|apply values_ddel].
Qed.

(** A route that no other endpoint has may be given to an endpoint. *)
Lemma table_dset e info (eps : Endpoints) :
  table_ok eps → (∀ e' info', (e', info') ∈ eps → route info' = route info → e' = e) → table_ok (dset e info eps).
Proof.
  intros [Hw Hn] Hother. split; [by apply dset_wf|]. induction eps as [|[e1 info1] eps IH].
  { cbn. apply NoDup_singleton. }
  apply NoDup_cons in Hw as [Hne Hw]. cbn in Hn, Hne. apply NoDup_cons in Hn as [Hnr Hn]. cbn [dset].
  destruct (decide (e = e1)) as [<-|He]; cbn.
  - apply NoDup_cons. split; [|done]. intros Hin. apply list_elem_of_fmap in Hin as (info' & Hr & Hin).
    apply list_elem_of_fmap in Hin as ((e', info2) & -> & Hin). cbn in Hr. apply Hne.
    rewrite <- (Hother e' info2); [|by right|done]. apply list_elem_of_fmap. by exists (e', info2).
  - apply NoDup_cons. split; [|apply IH; [done|done|intros; eapply Hother; [by right|done]]].
    intros Hin. apply list_elem_of_fmap in Hin as (info' & Hr & Hin). apply list_elem_of_fmap in Hin as ((e', info2) & -> & Hin). cbn in Hr.
    apply dget_elem in Hin; [|by apply dset_wf]. rewrite dget_dset in Hin. case_decide as He'.
    + injection Hin as <-. specialize (Hother e1 info1 ltac:(left) Hr). done.
    + apply Hnr. apply list_elem_of_fmap. exists info2. split; [done|]. apply list_elem_of_fmap.
      exists (e', info2). split; [done|]. by apply dget_Some_elem.
Qed.

(** The table after an update. *)
Definition updated_table (e : EndpointTag) (info : EndpointInfo) (eps : Endpoints) : Endpoints :=
  dset e info match _get_endpoint_for_route (route info) eps with
              | Some e' => if decide (e' = e) then eps else ddel e' eps
              | None => eps
              end.

Lemma updated_table_ok e info eps : table_ok eps → table_ok (updated_table e info eps).
Proof.
  intros Hok. unfold updated_table. pose proof (route_endpoint_spec (route info) eps) as Hr.
  destruct (_get_endpoint_for_route (route info) eps) as [e1|].
  - destruct Hr as (info1 & Hin1 & Hr1).
    assert (∀ e' info', (e', info') ∈ eps → route info' = route info → e' = e1) as Huniq.
    { intros e' [r'] Hin' Hr'. destruct info1 as [r1], info as [r]. cbn in *. subst.
      eapply (routes_by_unique eps r e' e1 r r Hok Hin' Hin1); [| |done];
        (exists ""%string; split; [|by left]); clear; induction r as [|c r IH]; [done| |done|];
        (change (String c r +:+ "") with (String c (r +:+ "")); by rewrite <- IH). }
    destruct (decide (e1 = e)) as [->|Hne]; apply table_dset; try done; [by apply table_ddel|].
    intros e' info' Hin' Hr'. apply dget_elem in Hin'; [|by apply table_ddel]. rewrite dget_ddel in Hin' by apply Hok.
    case_decide; [done|]. apply dget_Some_elem in Hin'. by apply Huniq in Hin'.
  - apply table_dset; [done|]. intros e' info' Hin' Hr'. exfalso. apply Hr. rewrite <- Hr'. apply list_elem_of_fmap.
    exists info'. split; [done|]. apply list_elem_of_fmap. by exists (e', info').
Qed.

Lemma update_endpoint_eq written e info s :
  dget e (_endpoints s) ≠ Some info →
  update_endpoint written e info s =
    let t := updated_table e info (_endpoints s) in
    if written then (mkEndpointState t (Some t) (notified s ++ [t]), Ok tt)
    else (mkEndpointState t (checkpoint s) (notified s), Err RayError).
Proof.
  intros Hne. unfold update_endpoint, updated_table, mbind, st_bind, st_get. rewrite decide_False by done.
  destruct (_get_endpoint_for_route _ _); [destruct (decide _)|]; by destruct written.
Qed.

Record endpoints_ok (s : EndpointState) : Prop := {
  eo_table : table_ok (_endpoints s);
  eo_saved : table_ok (default [] (checkpoint s));
  eo_last : last (notified s) = Some (default [] (checkpoint s))
}.

Lemma estep_ok s s' : estep s s' → endpoints_ok s → endpoints_ok s'.
Proof.
  destruct 1 as [written e info s|written e s|s]; intros [Ht Hs Hl].
  - destruct (decide (dget e (_endpoints s) = Some info)) as [He|He].
    + unfold update_endpoint, mbind, st_bind, st_get. by rewrite decide_True.
    + rewrite update_endpoint_eq by done. pose proof (updated_table_ok e info _ Ht).
      destruct written; split; cbn; try done. apply last_snoc.
  - unfold delete_endpoint, mbind, st_bind, st_get. destruct (din e (_endpoints s)); [|done].
    pose proof (table_ddel e _ Ht). destruct written; split; cbn; try done. apply last_snoc.
  - by split.
Qed.

(** A failed update is not made up for: the next one with the same arguments does nothing. *)
Theorem failed_update_is_lost e info s :
  dget e (_endpoints s) ≠ Some info →
  let s' := (update_endpoint false e info s).1 in
  checkpoint s' = checkpoint s ∧ notified s' = notified s ∧
  dget e (_endpoints s') = Some info ∧ update_endpoint true e info s' = (s', Ok tt).
Proof.
  intros Hne s'. unfold s'. rewrite update_endpoint_eq by done. cbn. split_and!; [done|done|apply dget_dset_eq|].
  unfold update_endpoint, mbind, st_bind, st_get. cbn. by rewrite decide_True by apply dget_dset_eq.
Qed.

(** From the start, under any calls of the API with writes that succeed or fail, and restarts
    of the controller: no two endpoints have the same route, and the table that was announced last
    is the one a restart recovers. *)
Theorem endpoints_consistent stored s :
  table_ok (default [] stored) → rtc estep (new_endpoint_state stored) s →
  table_ok (_endpoints s) ∧ last (notified s) = Some (default [] (checkpoint s)) ∧
  _endpoints (new_endpoint_state (checkpoint s)) = default [] (checkpoint s).
Proof.
  intros Hst Hr. assert (endpoints_ok s) as [Ht _ Hl].
  { eapply (rtc_ind_r endpoints_ok); [|intros; by eapply estep_ok|exact Hr]. by split. }
  done.
Qed.

(** ** The controller, its long-poll host and a proxy

    The host is given the dict [_endpoints] itself and keeps it: what it answers to a request is the
    table at that time, also when the table changed and was not announced. *)
Section proxied.
Context {Handle : Type} (get_handle : EndpointTag → Handle).

Abbreviation table_key := (KNamespace ROUTE_TABLE).

(** The object under a key changed in place: its identifier stays. *)
Definition alias_object (key : KeyType) (o : Endpoints) (h : LongPollHost Endpoints) : LongPollHost Endpoints :=
  {| snapshot_ids := snapshot_ids h; object_snapshots := dset key o (object_snapshots h);
     notifier_events := notifier_events h; fired := fired h; next_event := next_event h |}.

(** What a call of the API that takes the state from [before] to [after] does to the host. *)
Definition publish (random_id : Z) (before after : EndpointState) (h : LongPollHost Endpoints) : LongPollHost Endpoints :=
  alias_object table_key (_endpoints after)
    (if (length (notified before) <? length (notified after))%nat
     then notify_changed random_id table_key (_endpoints after) h else h).

Record proxied := mkProxied {
  controller : EndpointState;
  proxy : served (LongestPrefixRouter Handle) Endpoints;
  write_failed : bool;
}.

Definition set_host (h : LongPollHost Endpoints) (x : served (LongestPrefixRouter Handle) Endpoints) :
    served (LongestPrefixRouter Handle) Endpoints :=
  {| sys := {| host := h; client := client (sys x); at_ := at_ (sys x) |}; sub := sub x |}.

Definition raised {A} (r : result A) : bool := match r with Ok _ => false | Err _ => true end.

(** The state after a call of the API. *)
Definition called_api (random_id : Z) (m : ST EndpointState unit) (x : proxied) : proxied :=
  let '(s', r) := m (controller x) in
  mkProxied s' (set_host (publish random_id (controller x) s' (host (sys (proxy x)))) (proxy x))
    (write_failed x || raised r).

(** Calls of the API whose writes succeed or fail, and everything else: requests, answers and
    callbacks of the proxy, other clients and the notifications of other objects. *)
Inductive pstep : proxied → proxied → Prop :=
  | pstep_update random_id written e info x :
      0 <= random_id → pstep x (called_api random_id (update_endpoint written e info) x)
  | pstep_delete random_id written e x :
      0 <= random_id → pstep x (called_api random_id (delete_endpoint written e) x)
  | pstep_proxy x y :
      @cstep _ _ (proxy_subscriber get_handle) table_key (proxy x) y →
      dget table_key (snapshot_ids (host (sys y))) = dget table_key (snapshot_ids (host (sys (proxy x)))) →
      dget table_key (object_snapshots (host (sys y))) = dget table_key (object_snapshots (host (sys (proxy x)))) →
      pstep x (mkProxied (controller x) y (write_failed x)).

(** The controller starts, which announces the table it recovers; then a proxy. *)
Definition proxied_init (random_id : Z) (stored : option Endpoints) (s0 : system Endpoints) : proxied :=
  let s := new_endpoint_state stored in
  mkProxied s {| sys := {| host := publish random_id (mkEndpointState (_endpoints s) stored []) s (host s0);
                           client := client s0; at_ := at_ s0 |};
                 sub := new_router |} false.

Definition proxied_reachable (x : proxied) : Prop :=
  ∃ random_id stored s0, 0 <= random_id ∧ table_ok (default [] stored) ∧
    system_init [table_key] = Ok s0 ∧ rtc pstep (proxied_init random_id stored s0) x.

(** As long as no write failed the host has the table under the identifier it announced it by. *)
Record proxied_inv (x : proxied) : Prop := {
  pi_served : @served_reachable _ _ (proxy_subscriber get_handle) table_key (proxy x);
  pi_object : dget table_key (object_snapshots (host (sys (proxy x)))) = Some (_endpoints (controller x));
  pi_table : table_ok (_endpoints (controller x))
}.

Lemma dset_same (key : KeyType) (o : Endpoints) (d : dict KeyType Endpoints) :
  dget key d = Some o → dset key o d = d.
Proof.
  induction d as [|[k v] d IH]; [done|]. cbn. case_decide; [by intros [= ->]|]. intros Hk. by rewrite IH.
Qed.

Lemma alias_same key o h : dget key (object_snapshots h) = Some o → alias_object key o h = h.
Proof.
  intros Hk. unfold alias_object. rewrite dset_same by done. by destruct h.
Qed.

Lemma publish_notified random_id before after h :
  (length (notified before) < length (notified after))%nat →
  publish random_id before after h = notify_changed random_id table_key (_endpoints after) h.
Proof.
  intros Hl. unfold publish. rewrite (proj2 (Nat.ltb_lt _ _) Hl). apply alias_same. cbn. apply dget_dset_eq.
Qed.

Lemma served_notified random_id o x :
  0 <= random_id → @served_reachable _ _ (proxy_subscriber get_handle) table_key x →
  @served_reachable _ _ (proxy_subscriber get_handle) table_key
    (set_host (notify_changed random_id table_key o (host (sys x))) x).
Proof.
  intros Hr (s0 & Hs0 & Hx). exists s0. split; [done|]. eapply rtc_r; [exact Hx|].
  destruct x as [y z]. eapply (@cstep_system _ _ (proxy_subscriber get_handle)); [by apply step_notify|done].
Qed.

(** A call either does nothing or, when its write succeeds, announces a table that is in order. *)
Lemma api_step random_id m x :
  0 <= random_id →
  (∀ s s' u, m s = (s', Ok u) → table_ok (_endpoints s) →
     s' = s ∨ table_ok (_endpoints s') ∧ notified s' = notified s ++ [_endpoints s']) →
  proxied_inv x → write_failed (called_api random_id m x) = false → proxied_inv (called_api random_id m x).
Proof.
  intros Hr Hm [Hs Ho Ht]. unfold called_api. destruct (m (controller x)) as [s' [u|e]] eqn:Hrun; cbn;
    [intros _|by rewrite orb_true_r].
  destruct (Hm _ _ _ Hrun Ht) as [->|[Ht' Hn]].
  - assert (publish random_id (controller x) (controller x) (host (sys (proxy x))) = host (sys (proxy x))) as Hp.
    { unfold publish. rewrite Nat.ltb_irrefl. by apply alias_same. }
    rewrite Hp. split; cbn; [|done|done]. by destruct (proxy x) as [[]].
  - rewrite publish_notified by (rewrite Hn, length_app; cbn; lia).
    split; cbn; [by apply served_notified|apply dget_dset_eq|done].
Qed.

Lemma pstep_inv x y :
  pstep x y → (write_failed x = false → proxied_inv x) → write_failed y = false → proxied_inv y.
Proof.
  assert (∀ random_id m, write_failed (called_api random_id m x) = false → write_failed x = false) as Hmono.
  { intros random_id m. unfold called_api. destruct (m (controller x)). cbn. by intros [? _]%orb_false_iff. }
  destruct 1 as [random_id written e info x Hr|random_id written e x Hr|x y Hc Hid Hob]; intros Hinv Hf.
  - apply api_step; [done| |by eapply Hinv, Hmono|done]. intros s s' u Hu Ht.
    destruct (decide (dget e (_endpoints s) = Some info)) as [He|He].
    + unfold update_endpoint, mbind, st_bind, st_get in Hu. rewrite decide_True in Hu by done.
      injection Hu as ->. by left.
    + rewrite update_endpoint_eq in Hu by done. destruct written; [|done]. injection Hu as <-. right.
      split; [by apply updated_table_ok|done].
  - apply api_step; [done| |by eapply Hinv, Hmono|done]. intros s s' u Hu Ht.
    unfold delete_endpoint, mbind, st_bind, st_get in Hu. destruct (din e (_endpoints s)).
    + destruct written; [|done]. injection Hu as <-. right. split; [by apply table_ddel|done].
    + injection Hu as ->. by left.
  - destruct (Hinv Hf) as [(s0 & Hs0 & Hs) Ho Ht]. split; cbn; [|by rewrite Hob|done].
    exists s0. split; [done|]. by eapply rtc_r.
Qed.

Lemma proxied_reachable_inv x : proxied_reachable x → write_failed x = false → proxied_inv x.
Proof.
  intros (random_id & stored & s0 & Hr & Ht & Hs0 & Hx).
  eapply (rtc_ind_r (λ x, write_failed x = false → proxied_inv x)); [| |exact Hx].
  - intros _. unfold proxied_init. rewrite publish_notified by (cbn; lia). split; cbn; [|apply dget_dset_eq|done].
    apply (served_notified random_id _ {| sys := s0; sub := new_router |}); [done|]. exists s0. split; [done|apply rtc_refl].
  - intros y z _ Hst Hy. by eapply pstep_inv.
Qed.
End proxied.

(** C15: A proxy that is up to date routes by the longest prefix of the controller's table: from a
    start with a stored table that has one endpoint for each route (or none), under any interleaving
    of calls that update and delete endpoints with notifications, requests and callbacks, as long as
    no write of the table has failed: when the proxy's client has the host's version of the route
    table and no answer is being processed, a request goes to the endpoint of the controller's
    current table with the longest route that matches the path, and to none exactly if none matches;
    matching never raises. *)
Theorem proxy_follows_controller {Handle} (get_handle : EndpointTag → Handle) (x : proxied) i ids tasks :
  let key := KNamespace ROUTE_TABLE in
  let eps := _endpoints (controller x) in
  proxied_reachable get_handle x → write_failed x = false →
  dget key (c_snapshot_ids (client (sys (proxy x)))) = Some i →
  dget key (snapshot_ids (host (sys (proxy x)))) = Some i →
  at_ (sys (proxy x)) = Polling ids ∨ at_ (sys (proxy x)) = Waiting ids tasks →
  ∀ target_route, ∃ res, match_route target_route (sub (proxy x)) = Ok res ∧
    match res with
    | Some (r, handle) =>
        route_matches target_route r ∧
        (∃ e, (e, mkInfo r) ∈ eps ∧ handle = get_handle e) ∧
        ∀ e info, (e, info) ∈ eps → route_matches target_route (route info) →
          (String.length (route info) ≤ String.length r)%nat
    | None => ∀ e info, (e, info) ∈ eps → ¬ route_matches target_route (route info)
    end.
Proof.
  intros key eps Hx Hf Hc Hh Hat. destruct (proxied_reachable_inv get_handle x Hx Hf) as [Hs Ho Ht].
  destruct (@up_to_date_reflects _ _ (proxy_subscriber get_handle) key (proxy x) i eps ids tasks Hs Hc Hh Ho Hat) as [_ Hr].
  exact (Hr Ht).
Qed.

(** ** Examples *)

Module EndpointExamples.

(** A route moves from one endpoint to another; a write fails; the controller restarts. *)
Definition moved : EndpointState :=
  (update_endpoint true "b" (mkInfo "/api") (update_endpoint true "a" (mkInfo "/api") (new_endpoint_state None)).1).1.
Definition after_failure : EndpointState := (update_endpoint false "c" (mkInfo "/") moved).1.

Lemma after_failure_reachable : rtc estep (new_endpoint_state None) after_failure.
Proof.
  eapply rtc_l; [apply (estep_update true "a" (mkInfo "/api"))|].
  eapply rtc_l; [apply (estep_update true "b" (mkInfo "/api"))|].
  eapply rtc_l; [apply (estep_update false "c" (mkInfo "/"))|]. apply rtc_refl.
Qed.

Lemma endpoints_consistent_witness :
  _endpoints after_failure = [("b"%string, mkInfo "/api"); ("c"%string, mkInfo "/")] ∧
  last (notified after_failure) = Some [("b"%string, mkInfo "/api")] ∧
  _endpoints (new_endpoint_state (checkpoint after_failure)) = [("b"%string, mkInfo "/api")].
Proof.
  destruct (endpoints_consistent None after_failure) as (_ & Hlast & Hrestart);
    [split; constructor|exact after_failure_reachable|].
  split; [reflexivity|]. split; [exact Hlast|exact Hrestart].
Defined.

(** Two endpoints are registered; a proxy is told of them. *)
Definition key : KeyType := KNamespace ROUTE_TABLE.
Definition table : Endpoints := [("root"%string, mkInfo "/"); ("api"%string, mkInfo "/api")].
Definition c0 : LongPollClient Endpoints :=
  {| key_listeners := [key]; c_snapshot_ids := [(key, -1)]; c_object_snapshots := [];
     _callbacks_processed_count := 0; is_running := true; called := [] |}.
Definition s0 : system Endpoints := {| host := host_init; client := c0; at_ := Polling [(key, -1)] |}.
Definition registered : proxied (Handle := string) :=
  called_api 0 (update_endpoint true "api" (mkInfo "/api"))
    (called_api 0 (update_endpoint true "root" (mkInfo "/")) (proxied_init 41 None s0)).
Definition h1 : LongPollHost Endpoints := host (sys (proxy registered)).
Definition announced : UpdatedObject Endpoints := {| object_snapshot := table; snapshot_id := 44 |}.
Definition c1 : LongPollClient Endpoints := process_updates [(key, announced)] c0.
Definition told : LongestPrefixRouter string :=
  mkRouter ["/api"%string; "/"%string] [("/"%string, "root"%string); ("/api"%string, "api"%string)]
    [("root"%string, "root"%string); ("api"%string, "api"%string)].
Definition told_proxy : served (LongestPrefixRouter string) Endpoints :=
  {| sys := {| host := h1; client := (run_callback key table 1 c1).1; at_ := Polling [(key, 44)] |}; sub := told |}.
Definition final : proxied := mkProxied (controller registered) told_proxy false.

Lemma proxy_final_reachable : proxied_reachable id final.
Proof.
  exists 41, None, s0. split; [lia|]. split; [split; constructor|]. split; [reflexivity|].
  eapply rtc_l; [apply (pstep_update id 0 true "root" (mkInfo "/")); lia|].
  eapply rtc_l; [apply (pstep_update id 0 true "api" (mkInfo "/api")); lia|].
  eapply rtc_l; [eapply pstep_proxy; [eapply cstep_system; [apply (step_answer _ [(key, -1)] h1 [(key, announced)]); reflexivity|reflexivity]|reflexivity|reflexivity]|].
  eapply rtc_l; [eapply pstep_proxy; [eapply cstep_system; [apply (step_process _ [(key, announced)]); reflexivity|reflexivity]|reflexivity|reflexivity]|].
  eapply rtc_l; [|apply rtc_refl].
  apply (pstep_proxy id (mkProxied (controller registered)
    {| sys := {| host := h1; client := c1; at_ := Callbacks [(key, table)] 1 |}; sub := new_router |} false)
    told_proxy); [|reflexivity|reflexivity].
  eapply (@cstep_callback _ _ (proxy_subscriber id) key _ (sys told_proxy) table); [|reflexivity|vm_compute; reflexivity].
  apply (step_callback {| host := h1; client := c1; at_ := Callbacks [(key, table)] 1 |}
           key table [] 1 (client (sys told_proxy)) true); reflexivity.
Qed.

Lemma proxy_follows_controller_witness :
  ∃ res, match_route "/api/users" (sub (proxy final)) = Ok res ∧
    match res with
    | Some (r, handle) =>
        route_matches "/api/users" r ∧ (∃ e, (e, mkInfo r) ∈ table ∧ handle = id e) ∧
        ∀ e info, (e, info) ∈ table → route_matches "/api/users" (route info) →
          (String.length (route info) ≤ String.length r)%nat
    | None => ∀ e info, (e, info) ∈ table → ¬ route_matches "/api/users" (route info)
    end.
Proof.
  apply (proxy_follows_controller id final 44 [(key, 44)] []);
    [apply proxy_final_reachable|reflexivity|reflexivity|reflexivity|by left].
Defined.

(** After a write that failed, the proxy still has the host's identifier, and the host answers
    requests of other clients, under that identifier, with a table the proxy does not have. *)
Definition unannounced : proxied := called_api 0 (update_endpoint false "c" (mkInfo "/c")) final.

Example failed_write_goes_unnoticed :
  dget key (snapshot_ids (host (sys (proxy unannounced)))) = Some 44 ∧
  dget key (c_snapshot_ids (client (sys (proxy unannounced)))) = Some 44 ∧
  dget key (object_snapshots (host (sys (proxy unannounced)))) = Some (table ++ [("c"%string, mkInfo "/c")]) ∧
  match_route "/c" (sub (proxy unannounced)) = Ok (Some ("/", "root"))%string.
Proof. vm_compute. done. Qed.

(** The answers for some paths. *)
Example proxy_answers :
  match_route "/api/users" told = Ok (Some ("/api", "api"))%string ∧
  match_route "/apis" told = Ok (Some ("/", "root"))%string ∧
  match_route "no slash" told = Ok None.
Proof. by vm_compute. Qed.
End EndpointExamples.
