(* ===== verification/ActorPool.v ===== *)
(** * The actor pool (util/actor_pool.py)

    A pool of actors to which work is submitted and from which results are taken
    in order or as they finish.  An item of work is the pair of the function and
    the value it is applied to.  Calling the function makes a new task, whose
    future is numbered by the calls made so far; [calls] records them.  What
    [ray.wait] finds and what [ray.get] gives are arguments of the operations. *)
From S2P Require Import Prelude.
From stdpp Require Import base tactics list.

#[local] Open Scope Z_scope.

Abbreviation future := nat.

Section pool.
Context {A V R : Type} `{EqDecision A}.

Record ActorPool := {
  _idle_actors : list A;
  _future_to_actor : dict future (Z * A);
  _index_to_future : dict Z future;
  _next_task_index : Z;
  _next_return_index : Z;
  _pending_submits : list V;
  calls : list (A * V);
}.

Definition pool_init (actors : list A) : ActorPool :=
  {| _idle_actors := actors; _future_to_actor := []; _index_to_future := [];
     _next_task_index := 0; _next_return_index := 0; _pending_submits := []; calls := [] |}.

Abbreviation M := (ST ActorPool).

(** [l.pop()] *)
Fixpoint pop_last {B} (l : list B) : option (B * list B) :=
  match l with
  | [] => None
  | x :: l =>
      match pop_last l with
      | None => Some (x, [])
      | Some (y, l) => Some (y, x :: l)
      end
  end.

(** A task on [actor], entered in both dictionaries. *)
Definition run_task (actor : A) (idle : list A) (value : V) (p : ActorPool) : ActorPool :=
  let future := length (calls p) in
  {| _idle_actors := idle;
     _future_to_actor := dset future (_next_task_index p, actor) (_future_to_actor p);
     _index_to_future := dset (_next_task_index p) future (_index_to_future p);
     _next_task_index := _next_task_index p + 1;
     _next_return_index := _next_return_index p;
     _pending_submits := _pending_submits p;
     calls := calls p ++ [(actor, value)] |}.

Definition set_pending (l : list V) (p : ActorPool) : ActorPool :=
  {| _idle_actors := _idle_actors p; _future_to_actor := _future_to_actor p;
     _index_to_future := _index_to_future p; _next_task_index := _next_task_index p;
     _next_return_index := _next_return_index p; _pending_submits := l; calls := calls p |}.

Definition set_idle (l : list A) (p : ActorPool) : ActorPool :=
  {| _idle_actors := l; _future_to_actor := _future_to_actor p;
     _index_to_future := _index_to_future p; _next_task_index := _next_task_index p;
     _next_return_index := _next_return_index p; _pending_submits := _pending_submits p;
     calls := calls p |}.

Definition set_running (fs : dict future (Z * A)) (idx : dict Z future) (next : Z)
    (p : ActorPool) : ActorPool :=
  {| _idle_actors := _idle_actors p; _future_to_actor := fs; _index_to_future := idx;
     _next_task_index := _next_task_index p; _next_return_index := next;
     _pending_submits := _pending_submits p; calls := calls p |}.

Definition submit (value : V) (p : ActorPool) : ActorPool :=
  match pop_last (_idle_actors p) with
  | Some (actor, idle) => run_task actor idle value p
  | None => set_pending (_pending_submits p ++ [value]) p
  end.

Definition has_next (p : ActorPool) : bool :=
  match _future_to_actor p with [] => false | _ => true end.

Definition _return_actor (actor : A) (p : ActorPool) : ActorPool :=
  let p := set_idle (_idle_actors p ++ [actor]) p in
  match _pending_submits p with
  | [] => p
  | value :: rest => submit value (set_pending rest p)
  end.

(** [ray_get]: what [ray.get] gives for a finished task (its value, or the
    exception it raised).  [wait]: [None] without a timeout, else whether
    [ray.wait] found the future ready in time. *)
Definition get_next (ray_get : future → result R) (wait : option bool)
    (ignore_if_timedout : bool) : M R :=
  p ← st_get;
  if negb (has_next p) then st_raise StopIteration
  else if _next_task_index p <=? _next_return_index p then st_raise ValueError
  else
    future ← st_lift (dget_exn (_next_return_index p) (_index_to_future p));
    let timedout := match wait with Some false => true | _ => false end in
    if timedout && negb ignore_if_timedout then st_raise TimeoutError
    else
      _ ← st_modify (λ p, set_running (_future_to_actor p)
                            (ddel (_next_return_index p) (_index_to_future p))
                            (_next_return_index p + 1) p);
      '(_, a) ← st_lift (dget_exn future (_future_to_actor p));
      _ ← st_modify (λ p, set_running (ddel future (_future_to_actor p)) (_index_to_future p)
                            (_next_return_index p) p);
      _ ← st_modify (_return_actor a);
      if timedout then st_raise TimeoutError else st_lift (ray_get future).

(** [ready]: the future that [ray.wait] returned, if any. *)
Definition get_next_unordered (ray_get : future → result R) (ready : option future)
    (ignore_if_timedout : bool) : M R :=
  p ← st_get;
  if negb (has_next p) then st_raise StopIteration
  else
    match ready with
    | None => if ignore_if_timedout then st_raise UnboundLocalError else st_raise TimeoutError
    | Some future =>
        '(i, a) ← st_lift (dget_exn future (_future_to_actor p));
        _ ← st_modify (λ p, set_running (ddel future (_future_to_actor p)) (_index_to_future p)
                              (_next_return_index p) p);
        _ ← st_modify (_return_actor a);
        p ← st_get;
        _ ← st_lift (dget_exn i (_index_to_future p));
        _ ← st_modify (λ p, set_running (_future_to_actor p) (ddel i (_index_to_future p))
                              (Z.max (_next_return_index p) (i + 1)) p);
        st_lift (ray_get future)
    end.

Definition has_free (p : ActorPool) : bool :=
  match _idle_actors p, _pending_submits p with
  | _ :: _, [] => true
  | _, _ => false
  end.

Definition pop_idle (p : ActorPool) : ActorPool * option A :=
  if has_free p then
    match pop_last (_idle_actors p) with
    | Some (actor, idle) => (set_idle idle p, Some actor)
    | None => (p, None)
    end
  else (p, None).

Definition busy_actors (p : ActorPool) : list A := snd <$> dvalues (_future_to_actor p).

Definition push (actor : A) : M unit :=
  p ← st_get;
  if bool_decide (actor ∈ _idle_actors p) || bool_decide (actor ∈ busy_actors p)
  then st_raise ValueError
  else st_modify (_return_actor actor).

(** ** Mapping *)

(** [try: m except TimeoutError: pass] *)
Definition pass_timeout (m : M R) : M unit := λ p,
  match m p with
  | (p', Ok _) | (p', Err TimeoutError) => (p', Ok tt)
  | (p', Err e) => (p', Err e)
  end.

(** The first loop of [map]; [ready] says which futures are ready when they are
    waited for. *)
Fixpoint drain (ray_get : future → result R) (ready : future → bool) (fuel : nat) : M unit :=
  match fuel with
  | O => st_raise OutOfFuel
  | S fuel =>
      p ← st_get;
      if has_next p then
        _ ← pass_timeout
              (get_next ray_get
                 (Some (match dget (_next_return_index p) (_index_to_future p) with
                        | Some f => ready f | None => false end)) true);
        drain ray_get ready fuel
      else mret tt
  end.

(** The last loop of [map], whose results the iterator yields. *)
Fixpoint yield_all (ray_get : future → result R) (fuel : nat) : M (list R) :=
  match fuel with
  | O => st_raise OutOfFuel
  | S fuel =>
      p ← st_get;
      if has_next p then
        r ← get_next ray_get None false;
        rs ← yield_all ray_get fuel;
        mret (r :: rs)
      else mret []
  end.

(** The tasks a pool still has to return or to start. *)
Definition outstanding (p : ActorPool) : nat :=
  length (_future_to_actor p) + length (_pending_submits p).

Definition map (ray_get : future → result R) (ready : future → bool) (values : list V) :
    M (list R) :=
  p ← st_get;
  _ ← drain ray_get ready (S (outstanding p));
  _ ← st_for values (λ v, st_modify (submit v));
  p ← st_get;
  yield_all ray_get (S (outstanding p)).

(** [map_unordered]; the n-th element of [picks] is what the n-th [ray.wait]
    returns, as a choice among the futures it is given ([None]: a timeout). *)
Definition pick_of (pick : list future → option future) (p : ActorPool) : option future :=
  pick (dkeys (_future_to_actor p)).

Fixpoint drain_unordered (ray_get : future → result R)
    (picks : list (list future → option future)) : M unit :=
  p ← st_get;
  if has_next p then
    match picks with
    | [] => st_raise OutOfFuel
    | pick :: picks =>
        _ ← pass_timeout (get_next_unordered ray_get (pick_of pick p) false);
        drain_unordered ray_get picks
    end
  else mret tt.

Fixpoint yield_unordered (ray_get : future → result R) (pick : list future → option future)
    (fuel : nat) : M (list R) :=
  match fuel with
  | O => st_raise OutOfFuel
  | S fuel =>
      p ← st_get;
      if has_next p then
        r ← get_next_unordered ray_get (pick_of pick p) false;
        rs ← yield_unordered ray_get pick fuel;
        mret (r :: rs)
      else mret []
  end.

Definition map_unordered (ray_get : future → result R)
    (picks : list (list future → option future)) (pick : list future → option future)
    (values : list V) : M (list R) :=
  _ ← drain_unordered ray_get picks;
  _ ← st_for values (λ v, st_modify (submit v));
  p ← st_get;
  yield_unordered ray_get pick (S (outstanding p)).

End pool.
Arguments ActorPool : clear implicits.
