(* ===== verification/ActorPoolProofs.v ===== *)
(** * Correctness of the actor pool *)
From S2P Require Import Prelude ActorPool.
From stdpp Require Import base tactics list list_numbers strings.

#[local] Open Scope Z_scope.

Lemma ddel_middle {K V} `{EqDecision K} (d1 d2 : dict K V) k v :
  k ∉ dkeys d1 → ddel k (d1 ++ (k, v) :: d2) = d1 ++ d2.
Proof.
  unfold dkeys. induction d1 as [|[k' v'] d1 IH]; cbn; intros Hk.
  - by rewrite decide_True.
  - apply not_elem_of_cons in Hk as [Hne Hk]. rewrite decide_False by done. by rewrite IH.
Qed.

Lemma dget_middle {K V} `{EqDecision K} (d1 d2 : dict K V) k v :
  k ∉ dkeys d1 → dget k (d1 ++ (k, v) :: d2) = Some v.
Proof.
  unfold dkeys. induction d1 as [|[k' v'] d1 IH]; cbn; intros Hk.
  - by rewrite decide_True.
  - apply not_elem_of_cons in Hk as [Hne Hk]. rewrite decide_False by done. by rewrite IH.
Qed.

Lemma ddel_dset_ne {K V} `{EqDecision K} (d : dict K V) k n v :
  k ≠ n → ddel k (dset n v d) = dset n v (ddel k d).
Proof.
  intros Hne. induction d as [|[k' v'] d IH]; cbn; [by rewrite decide_False|].
  repeat (case_decide; cbn; subst; try done). by rewrite IH.
Qed.

Lemma pop_last_snoc {B} (l : list B) x : pop_last (l ++ [x]) = Some (x, l).
Proof. induction l as [|y l IH]; cbn; [done|]. by rewrite IH. Qed.

Lemma pop_last_Some {B} (l l' : list B) x : pop_last l = Some (x, l') → l = l' ++ [x].
Proof.
  revert l'. induction l as [|y l IH]; cbn; intros l' H; [done|].
  destruct (pop_last l) as [[z l1]|] eqn:Hl; simplify_eq.
  - by rewrite (IH _ eq_refl).
  - destruct l as [|w l]; [done|]. cbn in Hl. by destruct (pop_last l) as [[? ?]|].
Qed.

Lemma pop_last_None {B} (l : list B) : pop_last l = None ↔ l = [].
Proof. destruct l as [|x l]; cbn; [done|]. by destruct (pop_last l) as [[? ?]|]. Qed.

Section pool_proofs.
Context {A V R : Type} `{EqDecision A}.
Implicit Types (p : ActorPool A V) (a : A) (v : V).

(** A running task: its index, its future, its actor. *)
Record task := { t_idx : Z; t_fut : future; t_actor : A }.

Definition futures_of (ts : list task) : dict future (Z * A) :=
  (λ t, (t_fut t, (t_idx t, t_actor t))) <$> ts.
Definition indices_of (ts : list task) : dict Z future := (λ t, (t_idx t, t_fut t)) <$> ts.

(** ** The invariant

    Both dictionaries describe the same running tasks; every index that is not
    returned yet is there; an actor is idle or runs one task; and work waits only
    while every actor is busy. *)
Record pool_core (actors : list A) (ts : list task) (p : ActorPool A V) : Prop := {
  inv_futures : _future_to_actor p = futures_of ts;
  inv_indices : _index_to_future p = indices_of ts;
  inv_nodup_idx : NoDup (t_idx <$> ts);
  inv_nodup_fut : NoDup (t_fut <$> ts);
  inv_idx : Forall (λ t, 0 <= t_idx t < _next_task_index p) ts;
  inv_fut : Forall (λ t, ∃ v, calls p !! t_fut t = Some (t_actor t, v)) ts;
  inv_next : 0 <= _next_return_index p <= _next_task_index p;
  inv_present : ∀ i, _next_return_index p <= i < _next_task_index p → i ∈ t_idx <$> ts;
  inv_actors : _idle_actors p ++ (t_actor <$> ts) ≡ₚ actors;
}.

Definition pool_inv (actors : list A) (ts : list task) (p : ActorPool A V) : Prop :=
  pool_core actors ts p ∧ (_pending_submits p = [] ∨ _idle_actors p = []).

Lemma dkeys_futures ts : dkeys (futures_of ts) = t_fut <$> ts.
Proof. unfold dkeys, futures_of. by rewrite <- list_fmap_compose. Qed.
Lemma dkeys_indices ts : dkeys (indices_of ts) = t_idx <$> ts.
Proof. unfold dkeys, indices_of. by rewrite <- list_fmap_compose. Qed.

Lemma pool_init_inv actors : pool_inv actors [] (pool_init actors).
Proof.
  split; [|by left].
  constructor; cbn; rewrite ?app_nil_r; try done; try (by constructor); intros; lia.
Qed.

(** Starting a task on an actor taken from the pool. *)
Lemma run_task_core actors ts p a idle v :
  pool_core actors ts p → _idle_actors p = idle ++ [a] →
  pool_core actors
    (ts ++ [{| t_idx := _next_task_index p; t_fut := length (calls p); t_actor := a |}])
    (run_task a idle v p).
Proof.
  intros [H1 H2 H3 H4 H5 H6 H7 H8 H9] Hidle.
  assert (_next_task_index p ∉ t_idx <$> ts) as Hfi.
  { intros (t & Ht & Hin)%list_elem_of_fmap. rewrite Forall_forall in H5.
    specialize (H5 t Hin). lia. }
  assert (length (calls p) ∉ t_fut <$> ts) as Hff.
  { intros (t & Ht & Hin)%list_elem_of_fmap. rewrite Forall_forall in H6.
    destruct (H6 t Hin) as [v' Hv]. apply lookup_lt_Some in Hv. lia. }
  constructor; cbn.
  - rewrite H1, dset_fresh by by rewrite dkeys_futures. unfold futures_of. by rewrite fmap_app.
  - rewrite H2, dset_fresh by by rewrite dkeys_indices. unfold indices_of. by rewrite fmap_app.
  - rewrite fmap_app. apply NoDup_app. split_and!; [done| |apply NoDup_singleton].
    intros x Hx ->%list_elem_of_singleton. done.
  - rewrite fmap_app. apply NoDup_app. split_and!; [done| |apply NoDup_singleton].
    intros x Hx ->%list_elem_of_singleton. done.
  - apply Forall_app. split; [|repeat constructor; cbn; lia].
    eapply Forall_impl; [exact H5|]. cbn. intros; lia.
  - apply Forall_app. split.
    + eapply Forall_impl; [exact H6|]. cbn. intros t [v' Hv]. exists v'. by apply lookup_app_l_Some.
    + constructor; [|done]. exists v. cbn. by apply list_lookup_middle.
  - lia.
  - intros i Hi. rewrite fmap_app. apply elem_of_app.
    destruct (decide (i = _next_task_index p)) as [->|]; [right; by left|]. left. apply H8. lia.
  - rewrite Hidle in H9. rewrite fmap_app. cbn. rewrite <- H9. solve_Permutation.
Qed.

Definition next_task (p : ActorPool A V) (a : A) : task :=
  {| t_idx := _next_task_index p; t_fut := length (calls p); t_actor := a |}.

(** ** Each operation *)

Lemma submit_inv actors ts p v :
  pool_inv actors ts p →
  pool_inv actors
    (match pop_last (_idle_actors p) with Some (a, _) => ts ++ [next_task p a] | None => ts end)
    (submit v p).
Proof.
  intros [Hc Hp]. unfold submit. destruct (pop_last (_idle_actors p)) as [[a idle]|] eqn:Hpop.
  - apply pop_last_Some in Hpop. split; [by apply run_task_core|]. cbn. rewrite Hpop in Hp.
    destruct Hp as [|Hp]; [by left|]. by destruct idle.
  - apply pop_last_None in Hpop. split; [by destruct Hc; constructor|by right].
Qed.

(** An actor that comes (back) to the pool takes the first waiting work. *)
Lemma return_actor_inv actors ts p a :
  pool_inv actors ts p →
  pool_inv (a :: actors)
    (match _pending_submits p with [] => ts | _ => ts ++ [next_task p a] end)
    (_return_actor a p).
Proof.
  intros [Hc Hp]. unfold _return_actor. cbn.
  assert (pool_core (a :: actors) ts (set_idle (_idle_actors p ++ [a]) p)) as Hc'.
  { destruct Hc as [? ? ? ? ? ? ? ? H9]. constructor; try done. cbn. rewrite <- H9.
    solve_Permutation. }
  destruct (_pending_submits p) as [|v rest] eqn:Hpend.
  - split; [done|]. left. done.
  - destruct Hp as [|Hidle]; [done|]. unfold submit. cbn. rewrite pop_last_snoc.
    split; [|right; cbn; exact Hidle].
    apply (run_task_core (a :: actors) ts
             (set_pending rest (set_idle (_idle_actors p ++ [a]) p)) a (_idle_actors p) v);
      [|done].
    by destruct Hc'; constructor.
Qed.

(** Taking a running task out of the pool, with its actor. *)
Lemma take_core actors l1 t l2 p next' :
  pool_inv actors (l1 ++ t :: l2) p →
  _next_return_index p <= next' <= _next_task_index p →
  (∀ j, next' <= j < _next_task_index p → j ≠ t_idx t) →
  ∃ actors', actors ≡ₚ t_actor t :: actors' ∧
    pool_inv actors' (l1 ++ l2)
      (set_running (ddel (t_fut t) (_future_to_actor p)) (ddel (t_idx t) (_index_to_future p))
         next' p).
Proof.
  intros [[H1 H2 H3 H4 H5 H6 H7 H8 H9] Hp] Hn Hj.
  exists (_idle_actors p ++ (t_actor <$> (l1 ++ l2))). split.
  { rewrite <- H9, !fmap_app. cbn. solve_Permutation. }
  rewrite fmap_app in H3. rewrite fmap_app in H4. cbn in H3, H4.
  assert (t_fut t ∉ t_fut <$> l1 ∧ t_idx t ∉ t_idx <$> l1) as [Hf Hi].
  { apply NoDup_app in H3 as (_ & H3 & _). apply NoDup_app in H4 as (_ & H4 & _).
    split; intros Hx; [eapply H4|eapply H3]; try exact Hx; left. }
  split; [constructor|]; cbn.
  - rewrite H1. unfold futures_of. rewrite fmap_app. cbn. rewrite ddel_middle, fmap_app; [done|].
    by rewrite <- dkeys_futures in Hf.
  - rewrite H2. unfold indices_of. rewrite fmap_app. cbn. rewrite ddel_middle, fmap_app; [done|].
    by rewrite <- dkeys_indices in Hi.
  - rewrite fmap_app. eapply sublist_NoDup; [exact H3|].
    apply sublist_app; [done|]. by apply sublist_cons.
  - rewrite fmap_app. eapply sublist_NoDup; [exact H4|].
    apply sublist_app; [done|]. by apply sublist_cons.
  - rewrite Forall_app, Forall_cons in H5. rewrite Forall_app. naive_solver.
  - rewrite Forall_app, Forall_cons in H6. rewrite Forall_app. naive_solver.
  - lia.
  - intros i Hi'. specialize (H8 i ltac:(lia)). specialize (Hj i Hi').
    rewrite fmap_app in H8 |- *. cbn in H8. rewrite elem_of_app, elem_of_cons in H8.
    rewrite elem_of_app. naive_solver.
  - done.
  - done.
Qed.

(** Looking a running task up in either dictionary. *)
Lemma task_lookup actors l1 t l2 p :
  pool_core actors (l1 ++ t :: l2) p →
  dget (t_idx t) (_index_to_future p) = Some (t_fut t) ∧
  dget (t_fut t) (_future_to_actor p) = Some (t_idx t, t_actor t).
Proof.
  intros [H1 H2 H3 H4 _ _ _ _ _]. rewrite H1, H2. unfold futures_of, indices_of.
  rewrite fmap_app in H3. rewrite fmap_app in H4. rewrite !fmap_app. cbn in *.
  apply NoDup_app in H3 as (_ & H3 & _). apply NoDup_app in H4 as (_ & H4 & _).
  split; apply dget_middle.
  - change (t_idx t ∉ dkeys (indices_of l1)). rewrite dkeys_indices.
    intros Hx. eapply H3; [exact Hx|left].
  - change (t_fut t ∉ dkeys (futures_of l1)). rewrite dkeys_futures.
    intros Hx. eapply H4; [exact Hx|left].
Qed.

Lemma has_next_spec actors ts p : pool_core actors ts p → has_next p = negb (bool_decide (ts = [])).
Proof. intros [H1 _ _ _ _ _ _ _ _]. unfold has_next. rewrite H1. by destruct ts. Qed.

(** The pool after a task was taken out of it. *)
Definition taken (t : task) (next' : Z) (p : ActorPool A V) : ActorPool A V :=
  _return_actor (t_actor t)
    (set_running (ddel (t_fut t) (_future_to_actor p)) (ddel (t_idx t) (_index_to_future p))
       next' p).

Lemma taken_inv actors l1 t l2 p next' :
  pool_inv actors (l1 ++ t :: l2) p →
  _next_return_index p <= next' <= _next_task_index p →
  (∀ j, next' <= j < _next_task_index p → j ≠ t_idx t) →
  ∃ actors', actors ≡ₚ actors' ∧
    pool_inv actors'
      (match _pending_submits p with
       | [] => l1 ++ l2 | _ => (l1 ++ l2) ++ [next_task p (t_actor t)] end)
      (taken t next' p).
Proof.
  intros Hinv Hn Hj. destruct (take_core _ _ _ _ _ _ Hinv Hn Hj) as (actors' & Hp & Hinv').
  exists (t_actor t :: actors'). split; [done|].
  exact (return_actor_inv actors' _ _ (t_actor t) Hinv').
Qed.

Section results.
Context (ray_get : future → result R).

(** What [get_next] does: it raises and changes nothing, or it takes the task
    with the next index. *)
Lemma get_next_cases actors ts p wait ignore :
  pool_inv actors ts p →
  let timedout := match wait with Some false => true | _ => false end in
  (ts = [] ∧ get_next ray_get wait ignore p = (p, Err StopIteration)) ∨
  (ts ≠ [] ∧ _next_return_index p = _next_task_index p ∧
   get_next ray_get wait ignore p = (p, Err ValueError)) ∨
  ∃ l1 t l2, ts = l1 ++ t :: l2 ∧ t_idx t = _next_return_index p ∧
    get_next ray_get wait ignore p =
      if timedout && negb ignore then (p, Err TimeoutError)
      else (taken t (_next_return_index p + 1) p,
            if timedout then Err TimeoutError else ray_get (t_fut t)).
Proof.
  intros [Hc Hp] timedout. unfold get_next, mbind, st_bind, st_get.
  rewrite (has_next_spec _ _ _ Hc). case_bool_decide as Hts; cbn; [by left|].
  destruct (inv_next _ _ _ Hc) as [Hn0 Hn].
  destruct (Z.leb_spec (_next_task_index p) (_next_return_index p)) as [Hle|Hlt].
  { right. left. split_and!; [done|lia|done]. }
  right. right.
  pose proof (inv_present _ _ _ Hc (_next_return_index p) ltac:(lia)) as Hin.
  apply list_elem_of_fmap in Hin as (t & Ht & Hin).
  apply list_elem_of_split in Hin as (l1 & l2 & ->).
  destruct (task_lookup _ _ _ _ _ Hc) as [Hi Hf]. exists l1, t, l2. split_and!; [done|done|].
  unfold dget_exn. rewrite Ht, Hi. cbn. rewrite Hf.
  unfold timedout, taken. rewrite <- Ht. destruct wait as [[]|], ignore; reflexivity.
Qed.

(** Returning the actor before or after the index is deleted is the same. *)
Lemma return_then_delete a f i next' p :
  i ≠ _next_task_index p →
  let q := _return_actor a (set_running (ddel f (_future_to_actor p)) (_index_to_future p)
             (_next_return_index p) p) in
  set_running (_future_to_actor q) (ddel i (_index_to_future q)) next' q =
  _return_actor a (set_running (ddel f (_future_to_actor p)) (ddel i (_index_to_future p)) next' p) ∧
  dget i (_index_to_future q) = dget i (_index_to_future p) ∧
  _next_return_index q = _next_return_index p.
Proof.
  intros Hne. unfold _return_actor. cbn. destruct (_pending_submits p); cbn; [done|].
  unfold submit. cbn. rewrite pop_last_snoc. unfold run_task, set_running. cbn.
  rewrite ddel_dset_ne, dget_dset_ne by done. done.
Qed.

Lemma get_next_unordered_cases actors ts p ready ignore :
  pool_inv actors ts p →
  (∀ f, ready = Some f → f ∈ dkeys (_future_to_actor p)) →
  (ts = [] ∧ get_next_unordered ray_get ready ignore p = (p, Err StopIteration)) ∨
  (ts ≠ [] ∧ ready = None ∧ get_next_unordered ray_get ready ignore p =
     (p, Err (if ignore then UnboundLocalError else TimeoutError))) ∨
  ∃ l1 t l2, ts = l1 ++ t :: l2 ∧ ready = Some (t_fut t) ∧
    get_next_unordered ray_get ready ignore p =
      (taken t (Z.max (_next_return_index p) (t_idx t + 1)) p, ray_get (t_fut t)).
Proof.
  intros [Hc Hp] Hready. unfold get_next_unordered, mbind, st_bind, st_get.
  rewrite (has_next_spec _ _ _ Hc). case_bool_decide as Hts; cbn; [by left|].
  destruct ready as [f|]; [|right; left; by destruct ignore].
  right. right. specialize (Hready f eq_refl).
  rewrite (inv_futures _ _ _ Hc), dkeys_futures in Hready.
  apply list_elem_of_fmap in Hready as (t & -> & Hin).
  apply list_elem_of_split in Hin as (l1 & l2 & ->).
  destruct (task_lookup _ _ _ _ _ Hc) as [Hi Hf]. exists l1, t, l2. split_and!; [done|done|].
  assert (t_idx t < _next_task_index p).
  { pose proof (inv_idx _ _ _ Hc) as H5. rewrite Forall_app, Forall_cons in H5. naive_solver lia. }
  destruct (return_then_delete (t_actor t) (t_fut t) (t_idx t)
    (Z.max (_next_return_index p) (t_idx t + 1)) p ltac:(lia)) as (E1 & E2 & E3).
  unfold dget_exn. rewrite Hf. cbn. rewrite E2, Hi. cbn. rewrite E3. unfold taken. by rewrite <- E1.
Qed.

Lemma pool_inv_perm actors actors' ts p :
  pool_inv actors ts p → actors ≡ₚ actors' → pool_inv actors' ts p.
Proof. intros [[] ?] Hp. split; [constructor; try done; by etrans|done]. Qed.

Lemma get_next_inv actors ts p wait ignore p' r :
  pool_inv actors ts p → get_next ray_get wait ignore p = (p', r) → ∃ ts', pool_inv actors ts' p'.
Proof.
  intros Hinv Hg.
  destruct (get_next_cases actors ts p wait ignore Hinv)
    as [[_ E]|[(_ & _ & E)|(l1 & t & l2 & -> & Ht & E)]];
    rewrite E in Hg; simplify_eq; [by eauto|by eauto|].
  destruct (_ && negb ignore); simplify_eq; [by eauto|].
  destruct Hinv as [Hc Hp].
  assert (t_idx t < _next_task_index p).
  { pose proof (inv_idx _ _ _ Hc) as H5. rewrite Forall_app, Forall_cons in H5. naive_solver lia. }
  destruct (taken_inv actors l1 t l2 p (_next_return_index p + 1) (conj Hc Hp))
    as (actors' & Hperm & Hinv'); [lia|intros; lia|].
  eexists. by eapply pool_inv_perm.
Qed.

Lemma get_next_unordered_inv actors ts p ready ignore p' r :
  pool_inv actors ts p → (∀ f, ready = Some f → f ∈ dkeys (_future_to_actor p)) →
  get_next_unordered ray_get ready ignore p = (p', r) → ∃ ts', pool_inv actors ts' p'.
Proof.
  intros Hinv Hready Hg.
  destruct (get_next_unordered_cases actors ts p ready ignore Hinv Hready)
    as [[_ E]|[(_ & _ & E)|(l1 & t & l2 & -> & Ht & E)]];
    rewrite E in Hg; simplify_eq; [by eauto|by eauto|].
  destruct Hinv as [Hc Hp].
  assert (t_idx t < _next_task_index p).
  { pose proof (inv_idx _ _ _ Hc) as H5. rewrite Forall_app, Forall_cons in H5. naive_solver lia. }
  pose proof (inv_next _ _ _ Hc).
  destruct (taken_inv actors l1 t l2 p (Z.max (_next_return_index p) (t_idx t + 1)) (conj Hc Hp))
    as (actors' & Hperm & Hinv'); [lia|intros; lia|].
  eexists. by eapply pool_inv_perm.
Qed.
End results.

(** ** Reachable pools *)

(** The states a pool goes through, with the actors that belong to it. *)
Inductive reachable : list A → ActorPool A V → Prop :=
  | reach_init actors : reachable actors (pool_init actors)
  | reach_submit actors p v : reachable actors p → reachable actors (submit v p)
  | reach_get_next actors p (ray_get : future → result R) wait ignore p' r :
      reachable actors p → get_next ray_get wait ignore p = (p', r) → reachable actors p'
  | reach_get_next_unordered actors p (ray_get : future → result R) ready ignore p' r :
      reachable actors p → (∀ f, ready = Some f → f ∈ dkeys (_future_to_actor p)) →
      get_next_unordered ray_get ready ignore p = (p', r) → reachable actors p'
  | reach_pop_idle actors actors' p p' a :
      reachable actors p → pop_idle p = (p', Some a) → actors ≡ₚ a :: actors' →
      reachable actors' p'
  | reach_push actors p p' a :
      reachable actors p → push a p = (p', Ok tt) → reachable (a :: actors) p'.

Lemma reachable_inv actors p : reachable actors p → ∃ ts, pool_inv actors ts p.
Proof.
  induction 1 as [actors|actors p v _ [ts IH]|actors p g wait ig p' r _ [ts IH] Hg
    |actors p g ready ig p' r _ [ts IH] Hr Hg|actors actors' p p' a _ [ts IH] Hpop Hp
    |actors p p' a _ [ts IH] Hpush].
  - exists []. apply pool_init_inv.
  - eexists. by apply submit_inv.
  - by eapply get_next_inv.
  - by eapply get_next_unordered_inv.
  - exists ts. unfold pop_idle, has_free in Hpop.
    destruct (_idle_actors p) as [|x l] eqn:Hidle; [done|].
    destruct (_pending_submits p) eqn:Hpend; [|done].
    destruct (pop_last (x :: l)) as [[y l']|] eqn:Hl; simplify_eq.
    apply pop_last_Some in Hl. destruct IH as [[] ?]. split; [|by left].
    constructor; try done. cbn. rewrite Hidle, Hl in *.
    apply (Permutation_cons_inv (a := a)). rewrite <- Hp.
    match goal with H : _ ≡ₚ actors |- _ => rewrite <- H end. solve_Permutation.
  - unfold push in Hpush. inv_st. case_match; inv_st. eexists. by apply return_actor_inv.
Qed.

(** Whatever is submitted, taken in any order, pushed or popped, an actor of
    the pool is either idle or runs exactly one task, work waits only while no
    actor is idle, and the bookkeeping never fails: [get_next] raises only when
    nothing is running, when results were taken out of order, on a timeout, or
    what the task itself raised. *)
Theorem pool_reachable_safe actors p :
  reachable actors p →
  _idle_actors p ++ busy_actors p ≡ₚ actors ∧
  (_pending_submits p ≠ [] → _idle_actors p = []) ∧
  ∀ (ray_get : future → result R) wait ignore e,
    (get_next ray_get wait ignore p).2 = Err e →
    e = StopIteration ∧ has_next p = false ∨
    e = ValueError ∧ _next_return_index p = _next_task_index p ∨
    e = TimeoutError ∧ wait = Some false ∨
    ∃ f, f ∈ dkeys (_future_to_actor p) ∧ ray_get f = Err e.
Proof.
  intros (ts & Hinv)%reachable_inv. pose proof Hinv as [Hc Hp]. split_and!.
  - rewrite <- (inv_actors _ _ _ Hc). unfold busy_actors. rewrite (inv_futures _ _ _ Hc).
    unfold dvalues, futures_of. by rewrite <- !list_fmap_compose.
  - naive_solver.
  - intros ray_get wait ignore e Herr. rewrite (has_next_spec _ _ _ Hc).
    destruct (get_next_cases ray_get _ _ _ wait ignore Hinv)
      as [[-> E]|[(_ & Hn & E)|(l1 & t & l2 & -> & Ht & E)]]; rewrite E in Herr; cbn in Herr.
    + left. by simplify_eq.
    + right. left. by simplify_eq.
    + right. right. destruct wait as [[]|]; cbn in Herr.
      * right. exists (t_fut t). split; [|done]. rewrite (inv_futures _ _ _ Hc), dkeys_futures.
        rewrite fmap_app. apply elem_of_app. right. left.
      * left. destruct ignore; cbn in Herr; by simplify_eq.
      * right. exists (t_fut t). split; [|done]. rewrite (inv_futures _ _ _ Hc), dkeys_futures.
        rewrite fmap_app. apply elem_of_app. right. left.
Qed.

(** ** Ordered use *)

(** Only [get_next] was used since the pool was last empty: the running tasks
    are the latest calls, in order, and their indices are those to return next. *)
Record ordered (ts : list task) (p : ActorPool A V) : Prop := {
  ord_idx : t_idx <$> ts = seqZ (_next_return_index p) (Z.of_nat (length ts));
  ord_next : _next_task_index p = _next_return_index p + Z.of_nat (length ts);
  ord_fut : t_fut <$> ts = seq (length (calls p) - length ts) (length ts);
  ord_calls : (length ts <= length (calls p))%nat;
}.

Definition pool_ord (actors : list A) (ts : list task) (p : ActorPool A V) : Prop :=
  pool_inv actors ts p ∧ ordered ts p.

Lemma ordered_nil actors p : pool_inv actors [] p → ordered [] p.
Proof.
  intros [Hc _]. constructor; cbn; [done| |done|lia].
  destruct (inv_next _ _ _ Hc).
  destruct (decide (_next_return_index p < _next_task_index p)); [|lia].
  assert (_next_return_index p ∈ t_idx <$> []) as Hin by (apply (inv_present _ _ _ Hc); lia).
  by apply elem_of_nil in Hin.
Qed.

(** The pool is idle when nothing runs. *)
Lemma nothing_pending actors p : pool_inv actors [] p → actors ≠ [] → _pending_submits p = [].
Proof.
  intros [Hc Hp] Hne. destruct Hp as [|Hidle]; [done|].
  pose proof (inv_actors _ _ _ Hc) as Ha. rewrite Hidle in Ha. cbn in Ha.
  by apply Permutation_nil_l in Ha.
Qed.

Lemma ordered_add ts p a idle v :
  ordered ts p → ordered (ts ++ [next_task p a]) (run_task a idle v p).
Proof.
  intros [H1 H2 H3 H4]. constructor; cbn; rewrite ?length_app; cbn.
  - rewrite fmap_app, H1, Nat2Z.inj_add, seqZ_app by lia. cbn. f_equal.
    rewrite seqZ_cons by lia. cbn. by rewrite H2.
  - lia.
  - rewrite fmap_app, H3. cbn. rewrite seq_app. cbn.
    replace (length (calls p) + 1 - (length ts + 1))%nat with (length (calls p) - length ts)%nat by lia.
    do 2 f_equal. lia.
  - lia.
Qed.

Lemma ordered_ext ts p p' :
  ordered ts p → _next_return_index p' = _next_return_index p →
  _next_task_index p' = _next_task_index p → calls p' = calls p → ordered ts p'.
Proof. intros [] E1 E2 E3. constructor; rewrite ?E1, ?E2, ?E3; done. Qed.

(** [submit] keeps the order; the next result stays the next result. *)
Lemma submit_ord actors ts p v :
  pool_ord actors ts p →
  ∃ ts' new, pool_ord actors ts' (submit v p) ∧
    calls (submit v p) = calls p ++ new ∧
    (snd <$> new) ++ _pending_submits (submit v p) = _pending_submits p ++ [v] ∧
    (length (calls (submit v p)) - length ts' = length (calls p) - length ts)%nat.
Proof.
  intros [Hinv Hord]. pose proof (submit_inv _ _ _ v Hinv) as Hinv'.
  unfold submit in *. destruct (pop_last (_idle_actors p)) as [[a idle]|] eqn:Hpop.
  - exists (ts ++ [next_task p a]), [(a, v)].
    assert (_pending_submits p = []) as Hnil.
    { destruct Hinv as [_ [|Hidle]]; [done|]. by rewrite Hidle in Hpop. }
    split_and!; [split; [done|by apply ordered_add]|done|by cbn; rewrite Hnil|].
    cbn. rewrite !length_app. cbn. lia.
  - exists ts, []. split_and!; [split; [done|by eapply ordered_ext]| |done|done].
    cbn. by rewrite app_nil_r.
Qed.

Lemma taken_ord actors t ts p :
  pool_ord actors (t :: ts) p →
  ∃ ts' new, pool_ord actors ts' (taken t (_next_return_index p + 1) p) ∧
    calls (taken t (_next_return_index p + 1) p) = calls p ++ new ∧
    (snd <$> new) ++ _pending_submits (taken t (_next_return_index p + 1) p) = _pending_submits p ∧
    (length (calls p) + length new - length ts' = S (length (calls p) - length (t :: ts)))%nat ∧
    (length ts' + length (_pending_submits (taken t (_next_return_index p + 1) p)) =
     length ts + length (_pending_submits p))%nat.
Proof.
  intros [Hinv Hord]. pose proof Hord as [H1 H2 H3 H4]. cbn in H1, H2, H3, H4.
  rewrite seqZ_cons in H1 by lia. injection H1 as Ht H1.
  destruct (taken_inv actors [] t ts p (_next_return_index p + 1) Hinv) as (actors' & Hp & Hinv');
    [lia|intros; lia|]. apply (pool_inv_perm _ actors) in Hinv'; [|by symmetry].
  set (q := set_running (ddel (t_fut t) (_future_to_actor p)) (ddel (t_idx t) (_index_to_future p))
              (_next_return_index p + 1) p).
  assert (ordered ts q) as Hq.
  { constructor; cbn; [|lia| |lia].
    - rewrite H1. f_equal; lia.
    - replace (length (calls p) - length ts)%nat with (S (length (calls p) - S (length ts))) by lia.
      by injection H3. }
  unfold taken in *. fold q in Hinv' |- *. unfold _return_actor in *. cbn in *.
  destruct (_pending_submits p) as [|v rest] eqn:Hpend; cbn.
  - exists ts, []. split_and!; [split; [done|by eapply ordered_ext]| |by cbn; rewrite Hpend|cbn; lia
      |cbn; by rewrite Hpend].
    cbn. by rewrite app_nil_r.
  - unfold submit in *. cbn in *. rewrite pop_last_snoc in *.
    exists (ts ++ [next_task p (t_actor t)]), [(t_actor t, v)].
    split_and!; [split; [done|]|done|done|rewrite !length_app; cbn; lia
                |rewrite !length_app; cbn; lia].
    apply (ordered_add ts (set_pending rest (set_idle (_idle_actors p ++ [t_actor t]) q))).
    by eapply ordered_ext.
Qed.

Lemma outstanding_spec actors ts p :
  pool_inv actors ts p → outstanding p = (length ts + length (_pending_submits p))%nat.
Proof.
  intros [Hc _]. unfold outstanding. rewrite (inv_futures _ _ _ Hc). unfold futures_of.
  by rewrite length_fmap.
Qed.

Section map_proofs.
Context (ray_get : future → result R) (value_of : future → R)
        (ray_get_ok : ∀ f, ray_get f = Ok (value_of f)).

(** In ordered use, [get_next] takes the first running task. *)
Lemma get_next_ordered actors t ts p wait ignore :
  pool_ord actors (t :: ts) p → ignore = true ∨ wait = None →
  get_next ray_get wait ignore p =
    (taken t (_next_return_index p + 1) p,
     match wait with Some false => Err TimeoutError | _ => Ok (value_of (t_fut t)) end).
Proof.
  intros [Hinv Hord] Hig. pose proof Hord as [H1 H2 _ _]. cbn in H1, H2.
  destruct (get_next_cases ray_get _ _ _ wait ignore Hinv)
    as [[? _]|[(_ & Hn & _)|(l1 & t' & l2 & Hts & Ht & E)]]; [done|lia|].
  assert (t' = t) as ->.
  { rewrite seqZ_cons in H1 by lia. injection H1 as Hidx Htl.
    destruct l1 as [|x l1]; cbn in Hts; simplify_eq; [done|].
    assert (t_idx t' ∈ t_idx <$> (l1 ++ t' :: l2)) as Hin.
    { apply list_elem_of_fmap. exists t'. split; [done|]. apply elem_of_app. right. left. }
    rewrite Htl in Hin. apply elem_of_seqZ in Hin. lia. }
  rewrite E, ray_get_ok. destruct Hig as [->| ->]; [|done]. by destruct wait as [[]|].
Qed.

(** The first loop of [map] empties the pool. *)
Lemma drain_ord actors ready fuel p ts :
  pool_ord actors ts p → actors ≠ [] → (outstanding p < fuel)%nat →
  ∃ p', drain ray_get ready fuel p = (p', Ok tt) ∧ pool_ord actors [] p' ∧
    _pending_submits p' = [] ∧ ∃ new, calls p' = calls p ++ new.
Proof.
  intros Hord Hne. revert p ts Hord. induction fuel as [|fuel IH]; intros p ts Hord Hfuel; [lia|].
  pose proof Hord as [Hinv _]. cbn [drain]. unfold mbind, st_bind, st_get.
  rewrite (has_next_spec _ _ _ (proj1 Hinv)). case_bool_decide as Hts; cbn.
  { subst ts. exists p. split_and!; [done|done|by eapply nothing_pending|].
    exists []. by rewrite app_nil_r. }
  destruct ts as [|t ts]; [done|].
  destruct (taken_ord actors t ts p Hord) as (ts' & new & Hord' & Hcalls & Hpend & _ & Hout).
  unfold pass_timeout. rewrite (get_next_ordered actors t ts) by (done || by left).
  rewrite (outstanding_spec _ _ _ Hinv) in Hfuel. cbn in Hfuel.
  destruct (IH _ _ Hord') as (p' & E & Hp' & Hpe & new' & Hc').
  { rewrite (outstanding_spec _ _ _ (proj1 Hord')). lia. }
  exists p'. split_and!; [|done|done|exists (new ++ new'); by rewrite Hc', Hcalls, app_assoc].
  match goal with |- context [if ?b then _ else _] => destruct b end; done.
Qed.

(** The submissions of [map]. *)
Lemma submit_all_ord actors ts p vs :
  pool_ord actors ts p →
  ∃ p' ts' new, st_for vs (λ v, st_modify (submit v)) p = (p', Ok tt) ∧ pool_ord actors ts' p' ∧
    calls p' = calls p ++ new ∧
    (snd <$> new) ++ _pending_submits p' = _pending_submits p ++ vs ∧
    (length (calls p') - length ts' = length (calls p) - length ts)%nat.
Proof.
  revert ts p. induction vs as [|v vs IH]; intros ts p Hord; cbn.
  { exists p, ts, []. rewrite !app_nil_r. done. }
  unfold mbind, st_bind. cbn.
  destruct (submit_ord actors ts p v Hord) as (ts1 & new1 & Hord1 & Hc1 & Hp1 & Hl1).
  destruct (IH ts1 (submit v p) Hord1) as (p' & ts' & new & E & Hord' & Hc & Hp & Hl).
  exists p', ts', (new1 ++ new). split_and!; [done|done|by rewrite Hc, Hc1, app_assoc| |lia].
  rewrite fmap_app, <- app_assoc, Hp, app_assoc, Hp1, <- app_assoc. done.
Qed.

(** The last loop of [map] returns the outstanding tasks in order. *)
Lemma yield_all_ord actors fuel p ts :
  pool_ord actors ts p → actors ≠ [] → (outstanding p < fuel)%nat →
  ∃ p' new, yield_all ray_get fuel p =
      (p', Ok (value_of <$> seq (length (calls p) - length ts) (outstanding p))) ∧
    calls p' = calls p ++ new ∧ (snd <$> new) = _pending_submits p.
Proof.
  intros Hord Hne. revert p ts Hord. induction fuel as [|fuel IH]; intros p ts Hord Hfuel; [lia|].
  pose proof Hord as [Hinv _]. cbn [yield_all]. unfold mbind, st_bind, st_get.
  rewrite (has_next_spec _ _ _ (proj1 Hinv)). case_bool_decide as Hts; cbn.
  { subst ts. exists p, []. rewrite (outstanding_spec _ _ _ Hinv).
    rewrite (nothing_pending _ _ Hinv Hne). rewrite app_nil_r. done. }
  destruct ts as [|t ts]; [done|].
  destruct (taken_ord actors t ts p Hord) as (ts' & new & Hord' & Hcalls & Hpend & Hbase & Hout).
  rewrite (get_next_ordered actors t ts) by (done || by right).
  rewrite (outstanding_spec _ _ _ Hinv) in Hfuel |- *. cbn [length] in Hfuel |- *.
  destruct (IH _ _ Hord') as (p' & new' & E & Hc' & Hp').
  { rewrite (outstanding_spec _ _ _ (proj1 Hord')). lia. }
  exists p', (new ++ new'). split_and!.
  - cbn. rewrite E. cbn. do 2 f_equal. rewrite (outstanding_spec _ _ _ (proj1 Hord')), Hout.
    rewrite Hcalls, length_app, Hbase. cbn. f_equal. f_equal.
    destruct Hord as [_ [_ _ H3 _]]. cbn in H3. by injection H3 as ->.
  - by rewrite Hc', Hcalls, app_assoc.
  - by rewrite fmap_app, Hp', Hpend.
Qed.

(** C12: [map] terminates and yields the results in the order of the values. The pool
    is in a state that its operations lead to and has an actor, no task of it raises,
    and results were so far only taken in order (by [get_next] and [map], not by
    [get_next_unordered], while tasks were running): then [map] first empties the pool
    (ignoring results that are not ready), calls the function once per value, in
    order, and yields the result of each call, in order, however many actors there are
    and whatever finishes first. *)
Theorem map_in_order actors ts p ready values :
  pool_ord actors ts p → actors ≠ [] →
  ∃ p' before new, ActorPool.map ray_get ready values p =
      (p', Ok (value_of <$> seq (length before) (length values))) ∧
    calls p' = before ++ new ∧ calls p `prefix_of` before ∧ snd <$> new = values.
Proof.
  intros Hord Hne. unfold ActorPool.map, mbind, st_bind, st_get.
  destruct (drain_ord actors ready (S (outstanding p)) p ts Hord Hne) as
    (p1 & -> & Hord1 & Hpe1 & new1 & Hc1); [lia|].
  destruct (submit_all_ord actors [] p1 values Hord1) as
    (p2 & ts2 & new2 & -> & Hord2 & Hc2 & Hpe2 & Hl2). rewrite Hpe1 in Hpe2. cbn in Hpe2.
  destruct (yield_all_ord actors (S (outstanding p2)) p2 ts2 Hord2 Hne) as
    (p3 & new3 & -> & Hc3 & Hpe3); [lia|].
  assert (outstanding p2 = length values) as Hout.
  { rewrite (outstanding_spec _ _ _ (proj1 Hord2)). rewrite <- Hpe2, length_app, length_fmap.
    pose proof (ord_calls _ _ (proj2 Hord2)) as Hle. cbn in Hl2.
    rewrite Hc2, length_app in Hl2, Hle. lia. }
  exists p3, (calls p1), (new2 ++ new3). split_and!.
  - rewrite Hl2, Hout. cbn. by rewrite Nat.sub_0_r.
  - by rewrite Hc3, Hc2, app_assoc.
  - exists new1. done.
  - by rewrite fmap_app, Hpe3.
Qed.

(** ** Unordered use *)

(** [ray.wait] without a timeout returns one of the futures it is given. *)
Context (pick : list future → option future)
        (pick_ok : ∀ fs, fs ≠ [] → ∃ f, pick fs = Some f ∧ f ∈ fs).

Lemma yield_unordered_all actors fuel p ts :
  pool_inv actors ts p → actors ≠ [] → (outstanding p < fuel)%nat →
  ∃ p' new outs, yield_unordered ray_get pick fuel p = (p', Ok outs) ∧
    outs ≡ₚ value_of <$> ((t_fut <$> ts) ++ seq (length (calls p)) (length (_pending_submits p))) ∧
    calls p' = calls p ++ new ∧ (snd <$> new) = _pending_submits p.
Proof.
  intros Hinv Hne. revert p ts Hinv. induction fuel as [|fuel IH]; intros p ts Hinv Hfuel; [lia|].
  pose proof Hinv as [Hc _]. cbn [yield_unordered]. unfold mbind, st_bind, st_get.
  rewrite (has_next_spec _ _ _ Hc). case_bool_decide as Hts; cbn.
  { subst ts. exists p, [], []. rewrite (nothing_pending _ _ Hinv Hne), app_nil_r.
    rewrite app_nil_r. by split_and!. }
  assert (∃ f, pick_of pick p = Some f ∧ f ∈ dkeys (_future_to_actor p)) as (f & Hf & Hin).
  { apply pick_ok. rewrite (inv_futures _ _ _ Hc), dkeys_futures. by destruct ts. }
  rewrite Hf.
  assert (∀ f', Some f = Some f' → f' ∈ dkeys (_future_to_actor p)) as Hready by congruence.
  destruct (get_next_unordered_cases ray_get actors ts p (Some f) false Hinv Hready)
    as [[? _]|[(_ & ? & _)|(l1 & t & l2 & -> & Ht & ->)]]; [done|done|].
  assert (t_idx t < _next_task_index p).
  { pose proof (inv_idx _ _ _ Hc) as H5. rewrite Forall_app, Forall_cons in H5. naive_solver lia. }
  pose proof (inv_next _ _ _ Hc).
  destruct (taken_inv actors l1 t l2 p (Z.max (_next_return_index p) (t_idx t + 1)) Hinv)
    as (actors' & Hperm & Hinv'); [lia|intros; lia|].
  apply (pool_inv_perm _ actors) in Hinv'; [|by symmetry].
  rewrite ray_get_ok. rewrite (outstanding_spec _ _ _ Hinv), length_app in Hfuel. cbn in Hfuel.
  set (q := taken t _ p) in *.
  assert (calls q = calls p ++ (match _pending_submits p with [] => [] | v :: _ => [(t_actor t, v)] end)
    ∧ _pending_submits q = tail (_pending_submits p)) as [Hcq Hpq].
  { unfold q, taken, _return_actor. cbn. destruct (_pending_submits p) eqn:Hpe; cbn.
    - by rewrite app_nil_r, Hpe.
    - unfold submit. cbn. rewrite pop_last_snoc. done. }
  destruct (IH q _ Hinv') as (p' & new & outs & E & Houts & Hcalls & Hpend).
  { rewrite (outstanding_spec _ _ _ Hinv'), Hpq.
    destruct (_pending_submits p); cbn; rewrite !length_app in *; cbn in *; lia. }
  rewrite E. rewrite Hcq, Hpq in *. exists p'. eexists _, _. split; [reflexivity|]. split_and!.
  - rewrite Houts. rewrite !fmap_app. cbn. destruct (_pending_submits p); cbn.
    + rewrite !fmap_app. rewrite !app_nil_r. solve_Permutation.
    + rewrite !fmap_app. cbn. rewrite length_app. cbn. rewrite Nat.add_1_r. solve_Permutation.
  - by rewrite Hcalls, <- app_assoc.
  - rewrite fmap_app, Hpend. by destruct (_pending_submits p).
Qed.

(** What [ray.wait] returns is one of the futures it is given. *)
Definition picks_ok (picks : list (list future → option future)) : Prop :=
  Forall (λ pick, ∀ fs f, pick fs = Some f → f ∈ fs) picks.

Lemma drain_unordered_empties actors ts picks p p1 :
  pool_inv actors ts p → picks_ok picks → drain_unordered ray_get picks p = (p1, Ok tt) →
  pool_inv actors [] p1.
Proof.
  intros Hinv Hpicks. revert ts p Hinv. induction picks as [|pk picks IH]; intros ts p Hinv;
    cbn [drain_unordered]; unfold mbind, st_bind, st_get;
    rewrite (has_next_spec _ _ _ (proj1 Hinv)); case_bool_decide as Hts; cbn; intros Hd.
  - unfold mret, st_ret in Hd. by simplify_eq.
  - by simplify_eq.
  - unfold mret, st_ret in Hd. by simplify_eq.
  - inversion_clear Hpicks as [|?? Hpk Hpicks'].
    destruct (pass_timeout (get_next_unordered ray_get (pick_of pk p) false) p) as [p2 [[]|e]] eqn:Hp;
      [|done].
    assert (∃ r, get_next_unordered ray_get (pick_of pk p) false p = (p2, r)) as [r Hg].
    { unfold pass_timeout in Hp.
      destruct (get_next_unordered ray_get (pick_of pk p) false p) as [p3 [r|e]];
        [|destruct e]; simplify_eq; by eexists. }
    destruct (get_next_unordered_inv ray_get _ _ _ _ _ _ _ Hinv (λ f, Hpk _ f) Hg) as [ts' Hinv'].
    by eapply IH.
Qed.

(** Once [map_unordered] has emptied the pool, it terminates and yields the
    result of every value exactly once, in whatever order the tasks finish; the
    function is called once per value, in order. *)
Theorem map_unordered_complete actors p picks p1 values :
  reachable actors p → actors ≠ [] → picks_ok picks →
  drain_unordered ray_get picks p = (p1, Ok tt) →
  ∃ p' new outs, map_unordered ray_get picks pick values p = (p', Ok outs) ∧
    outs ≡ₚ value_of <$> seq (length (calls p1)) (length values) ∧
    calls p' = calls p1 ++ new ∧ snd <$> new = values.
Proof.
  intros (ts & Hinv)%reachable_inv Hne Hpicks Hd.
  pose proof (drain_unordered_empties _ _ _ _ _ Hinv Hpicks Hd) as Hinv1.
  assert (pool_ord actors [] p1) as Hord1 by (split; [done|by eapply ordered_nil]).
  destruct (submit_all_ord actors [] p1 values Hord1) as
    (p2 & ts2 & new2 & E2 & Hord2 & Hc2 & Hpe2 & Hl2).
  rewrite (nothing_pending _ _ Hinv1 Hne) in Hpe2. cbn in Hpe2, Hl2.
  destruct (yield_unordered_all actors (S (outstanding p2)) p2 ts2 (proj1 Hord2) Hne) as
    (p3 & new3 & outs & E3 & Houts & Hc3 & Hpe3); [lia|].
  unfold map_unordered, mbind, st_bind, st_get. rewrite Hd, E2, E3.
  exists p3, (new2 ++ new3), outs. split_and!; [done| |by rewrite Hc3, Hc2, app_assoc
    |by rewrite fmap_app, Hpe3].
  rewrite Houts, (ord_fut _ _ (proj2 Hord2)), Hl2, Nat.sub_0_r.
  assert (length ts2 + length (_pending_submits p2) = length values)%nat as Hlen.
  { rewrite <- Hpe2, length_app, length_fmap. pose proof (ord_calls _ _ (proj2 Hord2)) as Hle.
    rewrite Hc2, length_app in Hl2, Hle. lia. }
  pose proof (ord_calls _ _ (proj2 Hord2)).
  replace (length (calls p2)) with (length (calls p1) + length ts2)%nat by lia.
  by rewrite <- Hlen, seq_app.
Qed.
End map_proofs.
End pool_proofs.

(** ** Concrete pools *)

Module Examples.

(** Two actors; work items and results are numbers; the result of a task is its
    future's number. *)
Definition ray_get (f : future) : result nat := Ok f.
Definition pool0 : ActorPool string nat := pool_init ["a"; "b"].

Lemma pool0_ord : pool_ord ["a"; "b"] [] pool0.
Proof. split; [apply pool_init_inv|by eapply ordered_nil, pool_init_inv]. Qed.

(** After three submissions: two run, one waits. *)
Definition pool3 : ActorPool string nat := submit 3%nat (submit 2%nat (submit 1%nat pool0)).

Lemma pool3_reachable : reachable (R := nat) ["a"; "b"] pool3.
Proof. repeat apply reach_submit. apply reach_init. Qed.

Lemma pool_reachable_safe_witness :
  _idle_actors pool3 ++ busy_actors pool3 ≡ₚ ["a"; "b"] ∧
  (_pending_submits pool3 ≠ [] → _idle_actors pool3 = []) ∧
  ∀ (ray_get : future → result nat) wait ignore e,
    (get_next ray_get wait ignore pool3).2 = Err e →
    e = StopIteration ∧ has_next pool3 = false ∨
    e = ValueError ∧ _next_return_index pool3 = _next_task_index pool3 ∨
    e = TimeoutError ∧ wait = Some false ∨
    ∃ f, f ∈ dkeys (_future_to_actor pool3) ∧ ray_get f = Err e.
Proof. apply (pool_reachable_safe ["a"; "b"] pool3 pool3_reachable). Defined.

Lemma map_in_order_witness :
  ∃ p' before new, ActorPool.map ray_get (λ _, false) [5; 6; 7]%nat pool0 =
      (p', Ok (id <$> seq (length before) 3)) ∧
    calls p' = before ++ new ∧ calls pool0 `prefix_of` before ∧ snd <$> new = [5; 6; 7]%nat.
Proof.
  apply (map_in_order ray_get id (λ _, eq_refl) ["a"; "b"] [] pool0 (λ _, false) [5; 6; 7]%nat);
    [apply pool0_ord|done].
Defined.

Definition newest (fs : list future) : option future := last fs.

Lemma newest_ok fs : fs ≠ [] → ∃ f, newest fs = Some f ∧ f ∈ fs.
Proof.
  intros Hne. unfold newest. destruct (last fs) as [f|] eqn:Hl.
  - exists f. split; [done|]. by apply last_Some_elem_of.
  - by apply last_None in Hl.
Qed.

Lemma newest_member fs f : newest fs = Some f → f ∈ fs.
Proof. by apply last_Some_elem_of. Qed.

Definition drained : ActorPool string nat :=
  (drain_unordered ray_get [newest; newest; newest] pool3).1.

Lemma map_unordered_complete_witness :
  ∃ p' new outs,
    map_unordered ray_get [newest; newest; newest] newest [5; 6]%nat pool3 = (p', Ok outs) ∧
    outs ≡ₚ id <$> seq (length (calls drained)) 2 ∧
    calls p' = calls drained ++ new ∧ snd <$> new = [5; 6]%nat.
Proof.
  apply (map_unordered_complete ray_get id (λ _, eq_refl) newest newest_ok ["a"; "b"] pool3
           [newest; newest; newest] drained [5; 6]%nat pool3_reachable);
    [done|repeat constructor; exact newest_member|vm_compute; reflexivity].
Defined.

(** Taking one result out of order makes a later [map] on the same pool fail
    with [ValueError], although it means to ignore all previous submissions. *)
Theorem map_after_unordered_raises :
  let p := submit 2%nat (submit 1%nat pool0) in
  let p' := (get_next_unordered ray_get (Some 1%nat) false p).1 in
  (get_next_unordered ray_get (Some 1%nat) false p).2 = Ok 1%nat ∧
  (ActorPool.map ray_get (λ _, true) [5; 6]%nat p').2 = Err ValueError.
Proof. vm_compute. done. Qed.

(** [get_next_unordered] cannot ignore a timeout: with [ignore_if_timedout]
    it fails on an unbound variable, and no task is ignored. *)
Theorem unordered_ignore_unbound :
  get_next_unordered ray_get None true pool3 = (pool3, Err UnboundLocalError).
Proof. vm_compute. done. Qed.

End Examples.
