(* ===== verification/DataSplit.v ===== *)
(** * Splitting datasets (data/_internal/split.py, equalize.py, block_list.py,
    data/dataset.py)

    A dataset is a list of blocks of rows with their metadata.  Blocks are split at
    row indices in three phases: the indices of each block, the pieces of each
    block, and the pieces of each split.  A block is a list of rows
    ([SimpleBlockAccessor] of simple_block.py) and a reference to a block is the
    block: remote tasks return what the functions they run return.  Of the
    metadata only the number of rows is kept. *)
From S2P Require Import Prelude PyLists.
From stdpp Require Import base tactics list.
From Stdlib Require Import QArith.

#[local] Open Scope Z_scope.

Record BlockMetadata := { num_rows : option Z }.

Section split.
Context {R : Type}.

Abbreviation Block := (list R).
Abbreviation BlockPartition := (list (list R * BlockMetadata)).

(** ** Block lists *)

(** [_blocks] is [None] once the list is cleared. *)
Record BlockList := {
  _blocks : option (list Block);
  _metadata : list BlockMetadata;
  _owned_by_consumer : bool;
}.

Definition block_list_init (blocks : list Block) (metadata : list BlockMetadata) (owned : bool) :
    result BlockList :=
  _ ← py_assert (length blocks =? length metadata)%nat;
  Ok {| _blocks := Some blocks; _metadata := metadata; _owned_by_consumer := owned |}.

Definition clear (bl : BlockList) : BlockList :=
  {| _blocks := None; _metadata := _metadata bl; _owned_by_consumer := _owned_by_consumer bl |}.

(** The blocks, checked not to be cleared. *)
Definition get_blocks (bl : BlockList) : result (list Block) := of_option ValueError (_blocks bl).

Definition get_blocks_with_metadata (bl : BlockList) : result BlockPartition :=
  blocks ← get_blocks bl; Ok (zip blocks (_metadata bl)).

Definition set_metadata (ms : list BlockMetadata) (bl : BlockList) : BlockList :=
  {| _blocks := _blocks bl; _metadata := ms; _owned_by_consumer := _owned_by_consumer bl |}.

(** The loop of [truncate_by_rows]. *)
Fixpoint truncate_loop (limit out_num_rows : Z) (p : BlockPartition) : BlockPartition :=
  match p with
  | [] => []
  | (b, m) :: p =>
      let out_num_rows := out_num_rows + default 0 (num_rows m) in
      (b, m) :: if limit <=? out_num_rows then [] else truncate_loop limit out_num_rows p
  end.

Definition truncate_by_rows (limit : Z) (bl : BlockList) : result BlockList :=
  p ← get_blocks_with_metadata bl;
  let out := truncate_loop limit 0 p in
  block_list_init out.*1 out.*2 (_owned_by_consumer bl).

Definition divide (block_idx : Z) (bl : BlockList) : result (BlockList * BlockList) :=
  blocks ← get_blocks bl;
  l ← block_list_init (py_slice 0 (Some block_idx) blocks) (py_slice 0 (Some block_idx) (_metadata bl))
        (_owned_by_consumer bl);
  r ← block_list_init (py_slice block_idx None blocks) (py_slice block_idx None (_metadata bl))
        (_owned_by_consumer bl);
  Ok (l, r).

(** ** Splitting at indices *)

(** The rows of each block; the metadata that does not know them learns them. *)
Definition calculate_step (acc : list Z * BlockPartition) (bm : Block * BlockMetadata) :
    list Z * BlockPartition :=
  let n := match num_rows bm.2 with None => len bm.1 | Some n => n end in
  (acc.1 ++ [n], acc.2 ++ [(bm.1, {| num_rows := Some n |})]).

Definition _calculate_blocks_rows (p : BlockPartition) : list Z * BlockPartition :=
  fold_left calculate_step p ([], []).

Definition _generate_valid_indices (num_rows_per_block split_indices : list Z) : list Z :=
  let total_rows := sumZ num_rows_per_block in
  (λ index, Z.min index total_rows) <$> split_indices.

(** The first loop: [rows] and [indices] are what the two counters have not
    passed.  Each round passes one of them. *)
Fixpoint per_block_loop (fuel : nat) (rows indices : list Z)
    (per_block_split_indices : list (list Z)) (current_block_split_indices : list Z)
    (current_block_global_offset : Z) : result (list (list Z) * list Z) :=
  match indices with
  | [] => Ok (per_block_split_indices, current_block_split_indices)
  | split_index :: indices' =>
      match fuel with
      | O => Err OutOfFuel
      | S fuel =>
          match rows with
          | [] => Err IndexError
          | current_block_row :: rows' =>
              if split_index - current_block_global_offset <=? current_block_row then
                per_block_loop fuel rows indices' per_block_split_indices
                  (current_block_split_indices ++ [split_index - current_block_global_offset])
                  current_block_global_offset
              else
                per_block_loop fuel rows' indices
                  (per_block_split_indices ++ [current_block_split_indices]) []
                  (current_block_global_offset + current_block_row)
          end
      end
  end.

(** The second loop appends the indices of the current block, then empty lists. *)
Fixpoint fill_blocks (k : nat) (current_block_split_indices : list Z) : list (list Z) :=
  match k with O => [] | S k => current_block_split_indices :: fill_blocks k [] end.

Definition _generate_per_block_split_indices (num_rows_per_block split_indices : list Z) :
    result (list (list Z)) :=
  '(per_block, current) ←
    per_block_loop (length split_indices + length num_rows_per_block)
      num_rows_per_block split_indices [] [] 0;
  Ok (per_block ++ fill_blocks (length num_rows_per_block - length per_block) current).

(** One slice of [_split_single_block]. *)
Definition slice_step (block : Block) (acc : Z * BlockPartition) (index : option Z) :
    Z * BlockPartition :=
  let split_block := py_slice acc.1 index block in
  (default 0 index, acc.2 ++ [(split_block, {| num_rows := Some (len split_block) |})]).

Definition _split_single_block (block : Block) (meta : BlockMetadata) (split_indices : list Z) :
    BlockPartition :=
  (fold_left (slice_step block) ((Some <$> split_indices) ++ [num_rows meta]) (0, [])).2.

Definition drop_step (num_rows : option Z) (acc : Z * list Z) (index : Z) : Z * list Z :=
  let '(prev_index, optimized_indices) := acc in
  if (index =? 0) || bool_decide (Some index = num_rows) then acc
  else if index =? prev_index then acc
  else (index, optimized_indices ++ [index]).

Definition _drop_empty_block_split (block_split_indices : list Z) (num_rows : option Z) : list Z :=
  (fold_left (drop_step num_rows) block_split_indices (-1, [])).2.

(** The pieces of one block; a block that needs no split is kept. *)
Definition split_block (bm : Block * BlockMetadata) (block_split_indices : list Z) : BlockPartition :=
  match _drop_empty_block_split block_split_indices (num_rows bm.2) with
  | [] => [bm]
  | indices => _split_single_block bm.1 bm.2 indices
  end.

(** A block without indices would leave [None] among the results. *)
Fixpoint _split_all_blocks (p : BlockPartition) (per_block_split_indices : list (list Z)) :
    result BlockPartition :=
  match per_block_split_indices, p with
  | [], [] => Ok []
  | indices :: per_block, bm :: p =>
      rest ← _split_all_blocks p per_block; Ok (split_block bm indices ++ rest)
  | _ :: _, [] => Err IndexError
  | [], _ :: _ => Err TypeError
  end.

(** [sizes] and [pieces] are what the counter and the iterator have not passed. *)
Fixpoint global_loop (fuel : nat) (pieces : BlockPartition) (sizes : list Z)
    (result_blocks : list (list Block)) (result_metas : list (list BlockMetadata))
    (current_blocks : list Block) (current_meta : list BlockMetadata) (current_split_size : Z) :
    result (list (list Block) * list (list BlockMetadata)) :=
  match sizes with
  | [] => Ok (result_blocks, result_metas)
  | size :: sizes' =>
      match fuel with
      | O => Err OutOfFuel
      | S fuel =>
          if size <=? current_split_size then
            _ ← py_assert (current_split_size =? size);
            global_loop fuel pieces sizes' (result_blocks ++ [current_blocks])
              (result_metas ++ [current_meta]) [] [] 0
          else
            match pieces with
            | [] => Err StopIteration
            | (block_ref, meta) :: pieces =>
                n ← of_option TypeError (num_rows meta);
                global_loop fuel pieces sizes result_blocks result_metas
                  (current_blocks ++ [block_ref]) (current_meta ++ [meta]) (current_split_size + n)
            end
      end
  end.

Definition _generate_global_split_results (pieces : BlockPartition) (global_split_sizes : list Z) :
    result (list (list Block) * list (list BlockMetadata)) :=
  global_loop (length pieces + length global_split_sizes) pieces global_split_sizes [] [] [] [] 0.

(** [[helper[i] - helper[i - 1] for i in range(1, len(helper))]] *)
Fixpoint differences (prev : Z) (l : list Z) : list Z :=
  match l with [] => [] | x :: l => (x - prev) :: differences x l end.

Definition _split_at_indices (block_list : BlockList) (indices : list Z) :
    result (list (list Block) * list (list BlockMetadata)) :=
  blocks_with_metadata ← get_blocks_with_metadata block_list;
  match blocks_with_metadata with
  | [] => Ok (replicate (length indices + 1) [], replicate (length indices + 1) [])
  | _ =>
      let '(block_rows, blocks_with_metadata) := _calculate_blocks_rows blocks_with_metadata in
      let valid_indices := _generate_valid_indices block_rows indices in
      per_block_split_indices ← _generate_per_block_split_indices block_rows valid_indices;
      pieces ← _split_all_blocks blocks_with_metadata per_block_split_indices;
      _generate_global_split_results pieces
        (differences 0 (valid_indices ++ [sumZ block_rows]))
  end.

Definition _split_at_index (block_list : BlockList) (index : Z) :
    result (list Block * list BlockMetadata * (list Block * list BlockMetadata)) :=
  '(blocks, metas) ← _split_at_indices block_list [index];
  b0 ← py_nth blocks 0; m0 ← py_nth metas 0;
  b1 ← py_nth blocks 1; m1 ← py_nth metas 1;
  Ok (b0, m0, (b1, m1)).

(** ** Equal splits *)

(** [sum([meta.num_rows for _, meta in split])] *)
Definition meta_rows (split : BlockPartition) : result Z :=
  ns ← mapM (λ bm, of_option TypeError (num_rows bm.2)) split; Ok (sumZ ns).

Definition shave_step (target_size : Z) (acc : BlockPartition * BlockPartition * Z)
    (x : Block * BlockMetadata * Z) : BlockPartition * BlockPartition * Z :=
  let '(shaved, leftovers, shaved_rows) := acc in
  let '(block_with_meta, block_rows) := x in
  if block_rows + shaved_rows <=? target_size
  then (shaved ++ [block_with_meta], leftovers, shaved_rows + block_rows)
  else (shaved, leftovers ++ [block_with_meta], shaved_rows).

Definition _shave_one_split (split : BlockPartition) (num_rows_per_block : list Z)
    (target_size : Z) : BlockPartition * Z * BlockPartition :=
  let '(shaved, leftovers, shaved_rows) :=
    fold_left (shave_step target_size) (zip split num_rows_per_block) ([], [], 0) in
  (shaved, target_size - shaved_rows, leftovers).

Definition _shave_all_splits (input_splits : list BlockPartition)
    (per_split_num_rows : list (list Z)) (target_size : Z) :
    list BlockPartition * list Z * BlockPartition :=
  fold_left (λ '(shaved_splits, per_split_needed_rows, leftovers) '(split, rows),
      let '(shaved, num_rows_needed, l) := _shave_one_split split rows target_size in
      (shaved_splits ++ [shaved], per_split_needed_rows ++ [num_rows_needed], leftovers ++ l))
    (zip input_splits per_split_num_rows) ([], [], []).

(** The running sums. *)
Fixpoint cumulative (prev : Z) (l : list Z) : list Z :=
  match l with [] => [] | x :: l => (prev + x) :: cumulative (prev + x) l end.

Definition _split_leftovers (leftovers : BlockList) (per_split_needed_rows : list Z) :
    result (list BlockPartition) :=
  let num_splits := length per_split_needed_rows in
  '(blocks, metas) ← _split_at_indices leftovers (cumulative 0 per_split_needed_rows);
  Ok (take num_splits (zip_with zip blocks metas)).

(** The first assertions: each split and what it still needs make the target. *)
Definition check_shaved (target_split_size : Z) (x : BlockPartition * Z) : result unit :=
  num_shaved_rows ← meta_rows x.1;
  _ ← py_assert (num_shaved_rows <=? target_split_size);
  py_assert (num_shaved_rows + x.2 =? target_split_size).

(** The last loop gives each split its part of the leftovers. *)
Fixpoint merge_leftovers (target_split_size : Z)
    (shaved_splits leftover_splits : list BlockPartition) : result (list BlockPartition) :=
  match leftover_splits, shaved_splits with
  | [], _ => Ok shaved_splits
  | l :: ls, s :: ss =>
      num_shaved_rows ← meta_rows (s ++ l);
      _ ← py_assert (num_shaved_rows =? target_split_size);
      rest ← merge_leftovers target_split_size ss ls;
      Ok ((s ++ l) :: rest)
  | _ :: _, [] => Err IndexError
  end.

Definition _equalize (per_split_block_lists : list BlockList) (owned_by_consumer : bool) :
    result (list BlockList) :=
  match per_split_block_lists with
  | [] => Ok []
  | _ =>
      splits ← mapM get_blocks_with_metadata per_split_block_lists;
      let per_split_num_rows := (λ s, (_calculate_blocks_rows s).1) <$> splits in
      let splits := (λ s, (_calculate_blocks_rows s).2) <$> splits in
      let total_rows := sumZ (sumZ <$> per_split_num_rows) in
      let target_split_size := total_rows / len splits in
      let '(shaved_splits, per_split_needed_rows, leftovers) :=
        _shave_all_splits splits per_split_num_rows target_split_size in
      _ ← mapM (check_shaved target_split_size) (zip shaved_splits per_split_needed_rows);
      leftover_list ← block_list_init leftovers.*1 leftovers.*2 owned_by_consumer;
      leftover_splits ← _split_leftovers leftover_list per_split_needed_rows;
      merged ← merge_leftovers target_split_size shaved_splits leftover_splits;
      mapM (λ split, block_list_init split.*1 split.*2 owned_by_consumer) merged
  end.

(** ** Datasets

    A dataset is what its plan executes to. *)

Definition count (ds : BlockList) : result Z :=
  p ← get_blocks_with_metadata ds;
  match p with
  | [] => Ok 0
  | _ =>
      if forallb (λ bm, bool_decide (is_Some (num_rows bm.2))) p
      then Ok (sumZ ((λ bm, default 0 (num_rows bm.2)) <$> p))
      else Ok (sumZ ((λ bm, len bm.1) <$> p))
  end.

Definition split_at_indices (ds : BlockList) (indices : list Z) : result (list BlockList) :=
  match indices with
  | [] => Err ValueError
  | i0 :: _ =>
      if bool_decide (py_sorted Z.compare id indices = indices) then
        if i0 <? 0 then Err ValueError
        else
          '(blocks, metadata) ← _split_at_indices ds indices;
          mapM (λ bm, block_list_init bm.1 bm.2 (_owned_by_consumer ds)) (zip blocks metadata)
      else Err ValueError
  end.

(** The loop that makes the indices distinct, from the last but one down.  The
    state is what is right of the current index and how much to subtract. *)
Definition distinct_step (x : Z) (acc : list Z * Z) : list Z * Z :=
  let '(rest, subtract) := acc in
  let x := x - subtract in
  match rest with
  | [] => ([x], subtract)
  | y :: _ => if x =? y then ((x - 1) :: rest, subtract + 1) else (x :: rest, subtract)
  end.

Definition distinct_indices (split_indices : list Z) : list Z :=
  (foldr distinct_step ([], 0) split_indices).1.

Section proportions.
(** [np.cumsum] *)
Context (np_cumsum : list Q → list Q).

Definition split_proportionately (ds : BlockList) (proportions : list Q) : result (list BlockList) :=
  if bool_decide (proportions = []) then Err ValueError
  else if Qle_bool 1 (sumQ proportions) then Err ValueError
  else if existsb (λ p, Qle_bool p 0) proportions then Err ValueError
  else
    dataset_length ← count ds;
    let split_indices :=
      distinct_indices
        ((λ p, py_int (inject_Z dataset_length * p)%Q) <$> np_cumsum proportions) in
    if existsb (λ i, i <=? 0) split_indices then Err ValueError
    else split_at_indices ds split_indices.

Inductive test_size := TestInt (n : Z) | TestFloat (q : Q).

(** [train_test_split] of a dataset that is not shuffled. *)
Definition train_test_split (ds : BlockList) (size : test_size) : result (list BlockList) :=
  match size with
  | TestFloat q =>
      if Qle_bool q 0 || Qle_bool 1 q then Err ValueError else split_proportionately ds [(1 - q)%Q]
  | TestInt n =>
      dataset_length ← count ds;
      if (n <=? 0) || (dataset_length <=? n) then Err ValueError
      else split_at_indices ds [dataset_length - n]
  end.
End proportions.

Definition limit (ds : BlockList) (n : Z) : result BlockList :=
  block_list ← truncate_by_rows n ds;
  '(blocks, metadata, _) ← _split_at_index block_list n;
  block_list_init blocks metadata (_owned_by_consumer block_list).

(** [split] with [equal] and without hints. *)
Definition split_equal (ds : BlockList) (n : Z) : result (list BlockList) :=
  if n <=? 0 then Err ValueError
  else
    c ← count ds;
    let split_index := c / n in
    shards ← split_at_indices ds ((λ i, split_index * Z.of_nat i) <$> seq 1 (Z.to_nat n));
    Ok (take (Z.to_nat n) shards).
End split.
Arguments BlockList : clear implicits.
