(* ===== verification/DataSplitProofs.v ===== *)
(** * Correctness of splitting datasets

    Splitting at indices is what [np.split] does to the rows, whatever the blocks;
    equalizing gives every split the same number of rows and drops fewer rows than
    there are splits. *)
From S2P Require Import Prelude PyLists DataSplit.
From stdpp Require Import base tactics list sorting.
From Stdlib Require Import QArith Qround Lqa.

#[local] Open Scope Z_scope.

Section split_proofs.
Context {R : Type}.
Abbreviation Block := (list R).
Abbreviation BlockPartition := (list (list R * BlockMetadata)).
Implicit Types (b : Block) (p : BlockPartition) (bs : list Block) (xs : list R).

(** ** Blocks with their metadata *)

Definition meta_of b : BlockMetadata := {| num_rows := Some (len b) |}.
Definition metas_of bs : list BlockMetadata := meta_of <$> bs.
Definition rows bs : list R := concat bs.
Arguments rows : simpl never.
Definition described bs : BlockPartition := (λ b, (b, meta_of b)) <$> bs.

(** Metadata that does not lie. *)
Definition accurate p : Prop :=
  Forall (λ bm, num_rows bm.2 = None ∨ num_rows bm.2 = Some (len bm.1)) p.

Lemma described_blocks bs : (described bs).*1 = bs.
Proof. unfold described. rewrite <- list_fmap_compose. apply list_fmap_id. Qed.

Lemma described_metas bs : (described bs).*2 = meta_of <$> bs.
Proof. unfold described. by rewrite <- list_fmap_compose. Qed.

Lemma described_app bs1 bs2 : described (bs1 ++ bs2) = described bs1 ++ described bs2.
Proof. apply fmap_app. Qed.

Lemma calculate_spec p :
  accurate p → _calculate_blocks_rows p = (len <$> p.*1, described p.*1).
Proof.
  unfold _calculate_blocks_rows. intros Hp.
  assert (∀ acc, fold_left calculate_step p acc =
    (acc.1 ++ (len <$> p.*1), acc.2 ++ described p.*1)) as Hf; [|apply (Hf ([], []))].
  induction Hp as [|[b m] p Hm Hp IH]; intros [rows q]; cbn [fold_left fmap list_fmap fst snd].
  { unfold described. cbn. by rewrite !app_nil_r. }
  rewrite IH. cbn [calculate_step fst snd] in *.
  assert (match num_rows m with Some n => n | None => len b end = len b) as E
    by (destruct Hm as [Hm|Hm]; cbn in Hm; by rewrite Hm).
  unfold calculate_step. cbn [fst snd]. rewrite E. rewrite <- !(assoc_L (++)). done.
Qed.

(** ** The indices of each block *)

(** Each block gets the indices that fall into it, counted from its start. *)
Fixpoint assigned (off : Z) (rows : list Z) (per_block : list (list Z)) (indices : list Z) : Prop :=
  match rows, per_block with
  | [], [] => indices = []
  | r :: rows, c :: per_block =>
      ∃ pre post, indices = pre ++ post ∧ c = (λ i, i - off) <$> pre ∧
        Forall (λ i, off <= i <= off + r) pre ∧ assigned (off + r) rows per_block post
  | _, _ => False
  end.

Lemma fill_blocks_length k c : length (fill_blocks k c) = k.
Proof. revert c. induction k; intros; cbn; [done|]. by f_equal. Qed.

Lemma assigned_nil off rows : assigned off rows (fill_blocks (length rows) []) [].
Proof.
  revert off. induction rows as [|r rows IH]; intros off; cbn; [done|].
  exists [], []. split_and!; [done|done|constructor|apply IH].
Qed.

(** The loop from the start of a block, with [cur] already found in it. *)
Lemma per_block_loop_spec fuel rows idxs per cur off :
  (length idxs + length rows <= fuel)%nat → rows ≠ [] →
  StronglySorted Z.le idxs → Forall (λ i, off <= i <= off + sumZ rows) idxs →
  ∃ Ps cur' c P,
    per_block_loop fuel rows idxs per cur off = Ok (per ++ Ps, cur') ∧
    (length Ps < length rows)%nat ∧
    Ps ++ fill_blocks (length rows - length Ps) cur' = (cur ++ c) :: P ∧
    assigned off rows (c :: P) idxs.
Proof.
  revert rows idxs per cur off. induction fuel as [|fuel IH];
    intros rows idxs per cur off Hfuel Hne Hs Hall; (destruct rows as [|r rows]; [done|]);
    (destruct idxs as [|i idxs]; [|cbn in Hfuel; try lia]).
  1, 2: exists [], cur, [], (fill_blocks (length rows) []); cbn; rewrite !app_nil_r;
    split_and!; try done; [lia|]; exists [], []; split_and!; [done|done|constructor|apply assigned_nil].
  inversion Hs as [|? ? Hs' Hle]; subst. inversion Hall as [|? ? Hi Hall']; subst.
  cbn [per_block_loop]. destruct (Z.leb_spec (i - off) r) as [Hfit|Hfit].
  - destruct (IH (r :: rows) idxs per (cur ++ [i - off]) off) as (Ps & cur' & c & P & E & Hl & Hf & Ha);
      [cbn in *; lia|done|done|done|].
    exists Ps, cur', ((i - off) :: c), P. split_and!; [done|done| |].
    { rewrite Hf. by rewrite <- (assoc_L (++)). }
    destruct Ha as (pre & post & -> & -> & Hpre & Hpost).
    exists (i :: pre), post. split_and!; [done|done| |done]. constructor; [lia|done].
  - rewrite sumZ_cons in Hi. assert (rows ≠ []) as Hne'.
    { intros ->. unfold sumZ in Hi. cbn in Hi. lia. }
    destruct (IH rows (i :: idxs) (per ++ [cur]) [] (off + r)) as (Ps & cur' & c & P & E & Hl & Hf & Ha);
      [cbn in *; lia|done|done| |].
    { rewrite Forall_forall in Hle, Hall'. constructor; [lia|]. apply Forall_forall. intros j Hj.
      specialize (Hle j Hj). specialize (Hall' j Hj). cbn in Hall'. rewrite sumZ_cons in Hall'. lia. }
    exists (cur :: Ps), cur', [], (c :: P). split_and!.
    + rewrite E. by rewrite <- (assoc_L (++)).
    + cbn. lia.
    + cbn [length app]. rewrite app_nil_r. f_equal. exact Hf.
    + exists [], (i :: idxs). split_and!; [done|done|constructor|done].
Qed.

Lemma per_block_spec rows idxs :
  rows ≠ [] → StronglySorted Z.le idxs → Forall (λ i, 0 <= i <= sumZ rows) idxs →
  ∃ P, _generate_per_block_split_indices rows idxs = Ok P ∧ assigned 0 rows P idxs.
Proof.
  intros Hne Hs Hall. unfold _generate_per_block_split_indices.
  destruct (per_block_loop_spec (length idxs + length rows) rows idxs [] [] 0)
    as (Ps & cur' & c & P & -> & Hl & Hf & Ha); [lia|done|done|done|].
  exists (c :: P). cbn. split; [|done]. by rewrite Hf.
Qed.

(** ** The pieces of the blocks *)

(** The positions where pieces begin or end, from [pos] on. *)
Fixpoint cuts (pos : Z) (bs : list Block) : list Z :=
  pos :: match bs with [] => [] | b :: bs => cuts (pos + len b) bs end.

Lemma cuts_ge pos bs x : x ∈ cuts pos bs → pos <= x.
Proof.
  revert pos. induction bs as [|b bs IH]; intros pos; cbn; rewrite elem_of_cons; intros [->|Hx];
    [lia|by apply elem_of_nil in Hx|lia|]. apply IH in Hx. pose proof (len_nonneg b). lia.
Qed.

Lemma cuts_here pos bs : pos ∈ cuts pos bs.
Proof. destruct bs; left. Qed.

Lemma cuts_end pos bs : pos + len (concat bs) ∈ cuts pos bs.
Proof.
  revert pos. induction bs as [|b bs IH]; intros pos; cbn.
  - rewrite Z.add_0_r. left.
  - right. rewrite len_app, Z.add_assoc. apply IH.
Qed.

Lemma cuts_app pos bs1 bs2 x :
  x ∈ cuts pos bs1 ∨ x ∈ cuts (pos + len (concat bs1)) bs2 → x ∈ cuts pos (bs1 ++ bs2).
Proof.
  revert pos. induction bs1 as [|b bs1 IH]; intros pos.
  - cbn. rewrite Z.add_0_r, list_elem_of_singleton. intros [->|Hx]; [apply cuts_here|done].
  - cbn. rewrite !elem_of_cons, len_app, Z.add_assoc. intros [[->|Hx]|Hx]; auto.
Qed.

Lemma drop_empty_spec n c :
  Forall (λ x, 0 <= x) c →
  let d := _drop_empty_block_split c n in
  sublist d c ∧ ∀ x, x ∈ c → x = 0 ∨ Some x = n ∨ x ∈ d.
Proof.
  intros Hc. unfold _drop_empty_block_split.
  assert (∀ prev acc, (prev = -1 ∨ prev ∈ acc) →
    ∃ d, (fold_left (drop_step n) c (prev, acc)).2 = acc ++ d ∧ sublist d c ∧
      ∀ x, x ∈ c → x = 0 ∨ Some x = n ∨ x ∈ acc ++ d) as Hf.
  { induction Hc as [|x c Hx Hc IH]; intros prev acc Hprev; cbn [fold_left].
    { exists []. rewrite app_nil_r. split_and!; [done|constructor|]. by intros x Hx%elem_of_nil. }
    assert (drop_step n (prev, acc) x = (prev, acc) ∧ (x = 0 ∨ Some x = n ∨ x ∈ acc) ∨
      drop_step n (prev, acc) x = (x, acc ++ [x])) as [[-> Hd]| ->].
    { unfold drop_step. destruct (Z.eqb_spec x 0); cbn; [left; auto|].
      case_bool_decide; cbn; [left; auto|]. destruct (Z.eqb_spec x prev) as [->|]; [|by right].
      left. split; [done|]. right. right. destruct Hprev; [lia|done]. }
    - destruct (IH prev acc Hprev) as (d & E & Hsub & Hin). exists d. split_and!; [done|by constructor|].
      intros y Hy. apply elem_of_cons in Hy as [->|Hy]; [|by apply Hin].
      destruct Hd as [|[|]]; auto. right. right. apply elem_of_app. by left.
    - destruct (IH x (acc ++ [x])) as (d & E & Hsub & Hin); [right; apply elem_of_app; right; left|].
      exists (x :: d). rewrite <- (assoc_L (++)) in E. cbn in E. split_and!; [done|by constructor|].
      intros y Hy. rewrite <- (assoc_L (++)) in Hin. cbn in Hin.
      apply elem_of_cons in Hy as [->|Hy]; [|by apply Hin].
      right. right. apply elem_of_app. right. left. }
  destruct (Hf (-1) []) as (d & E & Hsub & Hin); [by left|]. cbn in E. rewrite E. done.
Qed.

(** Slicing a block at sorted indices. *)
Lemma split_single_spec b idxs prev acc :
  StronglySorted Z.le (prev :: idxs) → 0 <= prev → Forall (λ i, i <= len b) (prev :: idxs) →
  ∃ bs, (fold_left (slice_step b) ((Some <$> idxs) ++ [Some (len b)]) (prev, acc)).2 =
      acc ++ described bs ∧
    concat bs = py_slice prev (Some (len b)) b ∧
    ∀ off x, x ∈ idxs → off + x ∈ cuts (off + prev) bs.
Proof.
  revert prev acc. induction idxs as [|i idxs IH]; intros prev acc Hs Hp Hall.
  - exists [py_slice prev (Some (len b)) b]. cbn. split_and!; [done|by rewrite app_nil_r|].
    by intros off x Hx%elem_of_nil.
  - inversion Hs as [|? ? Hs' Hle]; subst. inversion Hle; subst.
    inversion Hall as [|? ? Hpb Hall']; subst. inversion Hall'; subst.
    destruct (IH i (acc ++ [(py_slice prev (Some i) b, meta_of (py_slice prev (Some i) b))]))
      as (bs & E & Hc & Hcut); [done|lia|done|].
    exists (py_slice prev (Some i) b :: bs). split_and!.
    + etrans; [exact E|]. by rewrite <- (assoc_L (++)).
    + cbn. rewrite Hc. apply py_slice_app; lia.
    + intros off x Hx. cbn. right. rewrite py_slice_len by lia.
      replace (off + prev + (i - prev)) with (off + i) by lia.
      apply elem_of_cons in Hx as [->|Hx]; [apply cuts_here|by apply Hcut].
Qed.

(** The pieces of one block. *)
Lemma split_block_spec off b c :
  StronglySorted Z.le c → Forall (λ x, 0 <= x <= len b) c →
  ∃ bs, split_block (b, meta_of b) c = described bs ∧ concat bs = b ∧
    ∀ x, x ∈ c → off + x ∈ cuts off bs.
Proof.
  intros Hs Hall. unfold split_block. cbn [fst snd meta_of num_rows].
  destruct (drop_empty_spec (Some (len b)) c) as [Hsub Hin].
  { eapply Forall_impl; [exact Hall|]. cbn. lia. }
  set (d := _drop_empty_block_split c (Some (len b))) in *.
  assert (∃ bs, match d with [] => [(b, meta_of b)] | _ => _split_single_block b (meta_of b) d end =
      described bs ∧ concat bs = b ∧ ∀ x, x ∈ d → off + x ∈ cuts off bs) as (bs & E & Hc & Hcut).
  { destruct d as [|x d'].
    - exists [b]. cbn. rewrite app_nil_r. split_and!; [done|done|]. by intros x Hx%elem_of_nil.
    - assert (StronglySorted Z.le (0 :: x :: d')) as Hs0.
      { constructor; [by eapply sublist_StronglySorted|]. eapply Forall_sublist; [exact Hsub|].
        eapply Forall_impl; [exact Hall|]. cbn. lia. }
      destruct (split_single_spec b (x :: d') 0 [] Hs0) as (bs & E & Hc & Hcut); [lia| |].
      { constructor; [apply len_nonneg|]. eapply Forall_sublist; [exact Hsub|].
        eapply Forall_impl; [exact Hall|]. cbn. lia. }
      exists bs. split_and!; [exact E|by rewrite Hc, py_slice_all|].
      intros y Hy. specialize (Hcut off y Hy). by rewrite Z.add_0_r in Hcut. }
  exists bs. split_and!; [rewrite <- E; by destruct d|done|]. intros x Hx. destruct (Hin x Hx) as [->|[[= ->]|Hd]].
  - rewrite Z.add_0_r. apply cuts_here.
  - rewrite <- Hc. apply cuts_end.
  - by apply Hcut.
Qed.

(** The pieces of all blocks: no row is lost, and every index is a cut. *)
Lemma split_all_spec off bs per_block idxs :
  assigned off (len <$> bs) per_block idxs → StronglySorted Z.le idxs →
  ∃ pieces, _split_all_blocks (described bs) per_block = Ok (described pieces) ∧
    concat pieces = concat bs ∧ ∀ i, i ∈ idxs → i ∈ cuts off pieces.
Proof.
  revert off per_block idxs. induction bs as [|b bs IH]; intros off [|c per_block] idxs; cbn; try done.
  { intros -> _. exists []. split_and!; [done|done|]. by intros i Hi%elem_of_nil. }
  intros (pre & post & -> & -> & Hpre & Ha) Hs.
  apply StronglySorted_app_1_l in Hs as Hs1. apply StronglySorted_app_1_r in Hs as Hs2.
  destruct (IH _ _ _ Ha Hs2) as (ps & E & Hc & Hcut).
  destruct (split_block_spec off b ((λ i, i - off) <$> pre)) as (bs1 & E1 & Hc1 & Hcut1).
  { eapply StronglySorted_fmap; [|exact Hs1]. cbn. lia. }
  { apply Forall_fmap. eapply Forall_impl; [exact Hpre|]. cbn. lia. }
  exists (bs1 ++ ps). unfold described at 1 in E. rewrite E. cbn. rewrite E1, <- described_app.
  split_and!; [done|by rewrite concat_app, Hc1, Hc|].
  intros i Hi. apply cuts_app. apply elem_of_app in Hi as [Hi|Hi].
  - left. replace i with (off + (i - off)) by lia. apply Hcut1.
    apply list_elem_of_fmap. by exists i.
  - right. rewrite Hc1. by apply Hcut.
Qed.

(** ** The splits *)

(** [xs] begins at position [pos]: the rows up to each position in turn. *)
Fixpoint cut_at (pos : Z) (ws : list Z) (xs : list R) : list (list R) :=
  match ws with
  | [] => []
  | w :: ws => take (Z.to_nat (w - pos)) xs :: cut_at w ws (drop (Z.to_nat (w - pos)) xs)
  end.

Lemma differences_length prev l : length (differences prev l) = length l.
Proof. revert prev. induction l; intros; cbn; [done|]. by f_equal. Qed.

Lemma global_loop_spec fuel pieces ws pos cb rb rm :
  (length pieces + length ws <= fuel)%nat →
  StronglySorted Z.le (pos + len (concat cb) :: ws) →
  (∀ w, w ∈ ws → w ∈ cuts (pos + len (concat cb)) pieces) →
  ∃ sp, global_loop fuel (described pieces) (differences pos ws) rb rm cb (metas_of cb)
      (len (concat cb)) = Ok (rb ++ sp, rm ++ (metas_of <$> sp)) ∧
    rows <$> sp = cut_at pos ws (concat cb ++ concat pieces).
Proof.
  revert pieces ws pos cb rb rm. induction fuel as [|fuel IH];
    intros pieces ws pos cb rb rm Hfuel Hs Hcut; (destruct ws as [|w ws];
    [exists []; cbn; by rewrite !app_nil_r|]); [cbn in Hfuel; lia|].
  apply StronglySorted_cons in Hs as [Hge Hs]. apply Forall_cons in Hge as [Hw Hge].
  cbn [differences global_loop]. destruct (Z.leb_spec (w - pos) (len (concat cb))) as [Hc|Hc].
  - assert (len (concat cb) = w - pos) as Hlen by lia. rewrite (proj2 (Z.eqb_eq _ _) Hlen).
    cbn [py_assert mbind result_bind].
    destruct (IH pieces ws w [] (rb ++ [cb]) (rm ++ [metas_of cb])) as (sp & E & Hsp).
    + cbn in Hfuel. lia.
    + cbn. by rewrite Z.add_0_r.
    + cbn. rewrite Z.add_0_r. intros w' Hw'. replace w with (pos + len (concat cb)) by lia.
      apply Hcut. by right.
    + exists (cb :: sp). split; [etrans; [exact E|]; by rewrite <- !(assoc_L (++))|].
      cbn. unfold len in Hlen. cbn in Hsp. rewrite Hsp. f_equal.
      * rewrite take_app_le by lia. by rewrite take_ge by lia.
      * rewrite drop_app_ge by lia. f_equal.
        replace (Z.to_nat (w - pos) - length (concat cb))%nat with 0%nat by lia. by rewrite drop_0.
  - destruct pieces as [|b pieces].
    { specialize (Hcut w (list_elem_of_here _ _)). apply list_elem_of_singleton in Hcut. lia. }
    assert (∀ w', w' ∈ w :: ws → w' ∈ cuts (pos + len (concat cb) + len b) pieces) as Hcut'.
    { intros w' Hw'. specialize (Hcut w' Hw'). cbn in Hcut. apply elem_of_cons in Hcut as [->|]; [|done].
      apply elem_of_cons in Hw' as [|Hw']; [lia|]. apply StronglySorted_cons in Hs as [Hge' _].
      rewrite Forall_forall in Hge'. specialize (Hge' _ Hw'). lia. }
    pose proof (cuts_ge _ _ _ (Hcut' w (list_elem_of_here _ _))) as Hb.
    destruct (IH pieces (w :: ws) pos (cb ++ [b]) rb rm) as (sp & E & Hsp).
    + cbn in *. lia.
    + rewrite concat_app, len_app. cbn [concat]. rewrite app_nil_r.
      apply StronglySorted_cons. split; [|done]. constructor; [lia|].
      apply StronglySorted_cons in Hs as [Hge' _]. eapply Forall_impl; [exact Hge'|]. cbn. lia.
    + rewrite concat_app, len_app. cbn [concat]. rewrite app_nil_r, Z.add_assoc. exact Hcut'.
    + exists sp. split.
      * unfold metas_of at 1 in E. rewrite concat_app, len_app, fmap_app in E. cbn [concat] in E. rewrite app_nil_r in E. exact E.
      * rewrite Hsp. f_equal. rewrite concat_app. cbn. by rewrite app_nil_r, <- (assoc_L (++)).
Qed.

(** What [np.split] does: the slices between consecutive indices. *)
Fixpoint np_split (prev : Z) (indices : list Z) (xs : list R) : list (list R) :=
  match indices with
  | [] => [py_slice prev None xs]
  | i :: indices => py_slice prev (Some i) xs :: np_split i indices xs
  end.

Lemma py_slice_clamp (a b : Z) xs :
  0 <= a <= b →
  py_slice a (Some b) xs = take (Z.to_nat (Z.min b (len xs) - Z.min a (len xs)))
                             (drop (Z.to_nat (Z.min a (len xs))) xs).
Proof.
  intros Hab. unfold py_slice, slice_index. by rewrite !(proj2 (Z.ltb_ge _ _)) by lia.
Qed.

Lemma np_split_spec prev indices xs :
  0 <= prev → StronglySorted Z.le (prev :: indices) →
  cut_at (Z.min prev (len xs)) (((λ i, Z.min i (len xs)) <$> indices) ++ [len xs])
    (drop (Z.to_nat (Z.min prev (len xs))) xs) = np_split prev indices xs.
Proof.
  revert prev. induction indices as [|i indices IH]; intros prev Hp Hs; cbn.
  - f_equal. unfold py_slice, slice_index. by rewrite (proj2 (Z.ltb_ge _ _)) by lia.
  - apply StronglySorted_cons in Hs as [Hge Hs]. apply Forall_cons in Hge as [Hi Hge].
    rewrite py_slice_clamp by lia. f_equal. rewrite <- IH by (done || lia).
    f_equal. rewrite drop_drop. f_equal. pose proof (len_nonneg xs). lia.
Qed.

(** ** Splitting at indices *)

(** The rows of a list of blocks that is not cleared and whose metadata is
    accurate. *)
Definition holds (bl : BlockList R) (bs : list Block) : Prop :=
  _blocks bl = Some bs ∧ length (_metadata bl) = length bs ∧ accurate (zip bs (_metadata bl)).

Lemma holds_partition bl bs :
  holds bl bs →
  ∃ p, get_blocks_with_metadata bl = Ok p ∧ accurate p ∧ p.*1 = bs.
Proof.
  intros (Hb & Hl & Ha). unfold get_blocks_with_metadata, get_blocks. rewrite Hb. cbn.
  eexists. split_and!; [done|done|]. apply fst_zip. lia.
Qed.

Lemma split_at_indices_spec bl bs indices :
  holds bl bs → StronglySorted Z.le indices → Forall (λ i, 0 <= i) indices →
  ∃ splits, _split_at_indices bl indices = Ok (splits, metas_of <$> splits) ∧
    rows <$> splits = np_split 0 indices (concat bs).
Proof.
  intros Hbl Hs Hpos. destruct (holds_partition _ _ Hbl) as (p & E & Ha & Hp).
  unfold _split_at_indices. rewrite E. cbn [mbind result_bind].
  destruct p as [|bm p'] eqn:Hpe.
  - cbn in Hp. subst bs. exists (replicate (length indices + 1) []).
    rewrite !fmap_replicate. split; [done|]. cbn.
    assert (∀ prev, 0 <= prev → StronglySorted Z.le (prev :: indices) →
      replicate (length indices + 1) [] = np_split prev indices (@nil R)) as Hn.
    { clear. induction indices as [|i indices IH]; intros prev Hp Hs; cbn.
      - f_equal. unfold py_slice. by rewrite drop_nil, take_nil.
      - apply StronglySorted_cons in Hs as [Hge Hs]. apply Forall_cons in Hge as [Hi _].
        rewrite py_slice_nil by lia. f_equal. apply IH; [lia|done]. }
    apply Hn; [done|]. by apply StronglySorted_cons.
  - rewrite <- Hpe in *. rewrite calculate_spec by done. rewrite Hp.
    set (valid := _generate_valid_indices (len <$> bs) indices).
    assert (sumZ (len <$> bs) = len (concat bs)) as Hsum by (by rewrite len_concat).
    assert (valid = (λ i, Z.min i (len (concat bs))) <$> indices) as Hv
      by (unfold valid, _generate_valid_indices; by rewrite Hsum).
    pose proof (len_nonneg (concat bs)) as Hnn.
    assert (StronglySorted Z.le valid) as Hsv.
    { rewrite Hv. eapply StronglySorted_fmap; [|exact Hs]. cbn. lia. }
    assert (Forall (λ i, 0 <= i <= len (concat bs)) valid) as Hrange.
    { rewrite Hv. apply Forall_fmap. eapply Forall_impl; [exact Hpos|]. cbn. lia. }
    destruct (per_block_spec (len <$> bs) valid) as (P & -> & Hassigned);
      [subst bs p; by destruct bm|done|by rewrite Hsum|]. cbn [mbind result_bind].
    destruct (split_all_spec 0 bs P valid Hassigned Hsv) as (pieces & -> & Hc & Hcut).
    cbn [mbind result_bind]. unfold _generate_global_split_results. rewrite Hsum.
    destruct (global_loop_spec
      (length (described pieces) + length (differences 0 (valid ++ [len (concat bs)])))
      pieces (valid ++ [len (concat bs)]) 0 [] [] []) as (splits & Eg & Hsplits).
    + unfold described. rewrite differences_length, length_fmap. lia.
    + change (0 + len (concat (@nil Block))) with 0.
      apply StronglySorted_cons. split; [|apply StronglySorted_app_2; try done].
      * apply Forall_app. split; [eapply Forall_impl; [exact Hrange|]; cbn; lia|by repeat constructor].
      * intros x1 x2 Hx1 ->%list_elem_of_singleton. rewrite Forall_forall in Hrange. by apply Hrange.
      * repeat constructor.
    + change (0 + len (concat (@nil Block))) with 0. intros w [Hw| ->%list_elem_of_singleton]%elem_of_app; [by apply Hcut|].
      rewrite <- Hc. apply (cuts_end 0).
    + exists splits. split; [exact Eg|]. rewrite Hsplits. cbn. rewrite Hc, Hv.
      rewrite <- (np_split_spec 0) by (done || by apply StronglySorted_cons).
      rewrite Z.min_l by lia. cbn. by rewrite drop_0.
Qed.

(** ** Datasets *)

Lemma accurate_described bs : accurate (zip bs (metas_of bs)).
Proof.
  unfold accurate, metas_of. induction bs as [|b bs IH]; cbn; constructor; [by right|done].
Qed.

Lemma init_holds bs owned :
  ∃ bl, block_list_init bs (metas_of bs) owned = Ok bl ∧ holds bl bs.
Proof.
  unfold block_list_init, metas_of. rewrite length_fmap, Nat.eqb_refl. cbn.
  eexists. split; [done|]. split_and!; cbn; [done|by rewrite length_fmap|apply accurate_described].
Qed.

Lemma init_all (sp : list (list Block)) owned :
  ∃ outs, mapM (λ bm, block_list_init bm.1 bm.2 owned) (zip sp (metas_of <$> sp)) = Ok outs ∧
    Forall2 holds outs sp.
Proof.
  induction sp as [|bs sp (outs & IH & Hall)]; cbn; [exists []; by split|].
  destruct (init_holds bs owned) as (bl & -> & Hbl). cbn. rewrite IH. cbn.
  exists (bl :: outs). split; [done|by constructor].
Qed.

Lemma sort_insert_Z x (l : list Z) :
  StronglySorted Z.le l →
  StronglySorted Z.le
    (sort_insert (λ x y, match Z.compare (id x) (id y) with Gt => false | _ => true end) x l).
Proof.
  induction 1 as [|y l Hs IH Hle]; cbn [sort_insert]; [repeat constructor|].
  destruct (Z.compare_spec (id x) (id y)) as [E|E|E]; unfold id in E.
  1, 2: constructor; [by constructor|]; constructor; [lia|];
    eapply Forall_impl; [exact Hle|]; cbn; lia.
  constructor; [done|]. rewrite sort_insert_perm. constructor; [lia|done].
Qed.

Lemma py_sorted_Z (l : list Z) : py_sorted Z.compare id l = l ↔ StronglySorted Z.le l.
Proof.
  assert (StronglySorted Z.le (py_sorted Z.compare id l)) as Hs.
  { unfold py_sorted, stable_sort. induction l; cbn; [constructor|by apply sort_insert_Z]. }
  split; [by intros <-|]. intros Hl. apply (StronglySorted_unique Z.le); [done|done|].
  apply py_sorted_perm.
Qed.

(** The indices a caller may give. *)
Definition good_indices (indices : list Z) : Prop :=
  indices ≠ [] ∧ StronglySorted Z.le indices ∧ Forall (λ i, 0 <= i) indices.

Lemma split_dataset_spec ds bs indices :
  holds ds bs → good_indices indices →
  ∃ outs sp, split_at_indices ds indices = Ok outs ∧ Forall2 holds outs sp ∧
    rows <$> sp = np_split 0 indices (rows bs).
Proof.
  intros Hds (Hne & Hs & Hpos). destruct indices as [|i0 indices]; [done|].
  unfold split_at_indices. rewrite bool_decide_eq_true_2 by (by apply py_sorted_Z).
  rewrite (proj2 (Z.ltb_ge i0 0)) by (by inversion Hpos).
  destruct (split_at_indices_spec ds bs (i0 :: indices) Hds Hs Hpos) as (sp & -> & Hsp).
  cbn [mbind result_bind]. destruct (init_all sp (_owned_by_consumer ds)) as (outs & -> & Hall).
  by exists outs, sp.
Qed.

Lemma count_spec ds bs : holds ds bs → count ds = Ok (len (rows bs)).
Proof.
  intros Hds. destruct (holds_partition _ _ Hds) as (p & E & Ha & Hp). unfold count. rewrite E.
  cbn [mbind result_bind]. destruct p as [|bm p'] eqn:Hpe; [by subst|]. rewrite <- Hpe in *. clear Hpe.
  unfold rows. rewrite len_concat, <- Hp. destruct (forallb _ p) eqn:Hall; f_equal.
  - apply f_equal. rewrite <- list_fmap_compose. apply list_fmap_ext. intros i x Hx.
    apply list_elem_of_lookup_2 in Hx. rewrite forallb_forall in Hall.
    apply list_elem_of_In in Hx as Hx'. specialize (Hall _ Hx').
    apply bool_decide_eq_true in Hall as [n Hn]. unfold accurate in Ha. rewrite Forall_forall in Ha.
    destruct (Ha x Hx) as [H|H]; [congruence|]. cbn. by rewrite H.
  - by rewrite <- list_fmap_compose.
Qed.

(** ** Lengths of the splits *)

Lemma np_split_length prev indices xs : length (np_split prev indices xs) = S (length indices).
Proof. revert prev. induction indices; intros; cbn; [done|]. by f_equal. Qed.

Lemma np_split_concat prev indices xs :
  0 <= prev → StronglySorted Z.le (prev :: indices) →
  concat (np_split prev indices xs) = py_slice prev None xs.
Proof.
  revert prev. induction indices as [|i indices IH]; intros prev Hp Hs; cbn; [by rewrite app_nil_r|].
  apply StronglySorted_cons in Hs as [Hge Hs]. apply Forall_cons in Hge as [Hi _].
  rewrite IH by (done || lia). unfold py_slice, slice_index.
  rewrite !(proj2 (Z.ltb_ge _ _)) by lia. pose proof (len_nonneg xs).
  replace (drop (Z.to_nat (Z.min i (len xs))) xs) with
    (drop (Z.to_nat (Z.min i (len xs) - Z.min prev (len xs))) (drop (Z.to_nat (Z.min prev (len xs))) xs))
    by (rewrite drop_drop; f_equal; lia).
  set (ys := drop (Z.to_nat (Z.min prev (len xs))) xs).
  rewrite (take_ge (drop _ ys)), (take_ge ys (Z.to_nat (len xs - Z.min prev (len xs))));
    [apply take_drop|..]; unfold ys; rewrite ?length_drop; unfold len; lia.
Qed.

Lemma np_split_lens prev indices xs :
  0 <= prev → StronglySorted Z.le (prev :: indices) → Forall (λ i, i <= len xs) indices →
  len <$> take (length indices) (np_split prev indices xs) = differences prev indices.
Proof.
  revert prev. induction indices as [|i indices IH]; intros prev Hp Hs Hall; cbn; [done|].
  apply StronglySorted_cons in Hs as [Hge Hs]. apply Forall_cons in Hge as [Hi _].
  apply Forall_cons in Hall as [Hl Hall]. rewrite py_slice_len by lia. f_equal. apply IH; (done || lia).
Qed.

Lemma differences_cumulative prev l : differences prev (cumulative prev l) = l.
Proof. revert prev. induction l as [|x l IH]; intros; cbn; [done|]. rewrite IH. f_equal. lia. Qed.

Lemma cumulative_length prev l : length (cumulative prev l) = length l.
Proof. revert prev. induction l; intros; cbn; [done|]. by f_equal. Qed.

Lemma cumulative_spec prev l :
  Forall (λ x, 0 <= x) l →
  StronglySorted Z.le (prev :: cumulative prev l) ∧
  Forall (λ i, prev <= i <= prev + sumZ l) (cumulative prev l).
Proof.
  intros Hl. revert prev. induction Hl as [|x l Hx Hl IH]; intros prev; cbn [cumulative].
  { split; [repeat constructor|constructor]. }
  destruct (IH (prev + x)) as [Hs Hall]. rewrite sumZ_cons.
  assert (0 <= sumZ l) by (clear -Hl; induction Hl; rewrite ?sumZ_cons; [done|lia]).
  split.
  - constructor; [done|]. constructor; [lia|]. eapply Forall_impl; [exact Hall|]. cbn. lia.
  - constructor; [lia|]. eapply Forall_impl; [exact Hall|]. cbn. lia.
Qed.

(** Splits whose sizes are given and do not exceed the rows. *)
Lemma split_sizes_spec bl bs sizes :
  holds bl bs → Forall (λ x, 0 <= x) sizes → sumZ sizes <= len (rows bs) →
  ∃ sp, _split_at_indices bl (cumulative 0 sizes) = Ok (sp, metas_of <$> sp) ∧
    length sp = S (length sizes) ∧
    (λ s, len (rows s)) <$> take (length sizes) sp = sizes ∧
    concat (rows <$> sp) = rows bs.
Proof.
  intros Hbl Hsz Hsum. destruct (cumulative_spec 0 sizes Hsz) as [Hs Hall].
  apply StronglySorted_cons in Hs as Hs'. destruct Hs' as [_ Hs'].
  destruct (split_at_indices_spec bl bs (cumulative 0 sizes) Hbl Hs') as (sp & E & Hsp).
  { eapply Forall_impl; [exact Hall|]. cbn. lia. }
  exists sp. split; [done|]. split_and!.
  - rewrite <- (length_fmap rows sp), Hsp, np_split_length. by rewrite cumulative_length.
  - rewrite <- (differences_cumulative 0 sizes) at 2.
    rewrite <- (np_split_lens 0 (cumulative 0 sizes) (rows bs)).
    + unfold rows at 2. rewrite <- Hsp, cumulative_length, <- fmap_take, <- list_fmap_compose. done.
    + done.
    + done.
    + eapply Forall_impl; [exact Hall|]. cbn. lia.
  - rewrite Hsp, np_split_concat by (done || lia). apply py_slice_full.
Qed.

(** ** Equalizing *)

Lemma meta_rows_described bs : meta_rows (described bs) = Ok (len (rows bs)).
Proof.
  unfold meta_rows, rows. rewrite len_concat.
  assert (mapM (λ bm, of_option TypeError (num_rows bm.2)) (described bs) = Ok (len <$> bs)) as ->;
    [|done].
  induction bs as [|b bs IH]; cbn in *; [done|]. unfold described in IH. by rewrite IH.
Qed.

Lemma shave_one_spec target bs :
  0 <= target →
  ∃ kept left,
    _shave_one_split (described bs) (len <$> bs) target =
      (described kept, target - len (rows kept), described left) ∧
    bs ≡ₚ kept ++ left ∧ len (rows kept) <= target.
Proof.
  intros Ht. unfold _shave_one_split.
  assert (∀ s0 l0, len (rows s0) <= target → ∃ kept left,
    fold_left (shave_step target) (zip (described bs) (len <$> bs))
      (described s0, described l0, len (rows s0)) =
      (described (s0 ++ kept), described (l0 ++ left), len (rows (s0 ++ kept))) ∧
    bs ≡ₚ kept ++ left ∧ len (rows (s0 ++ kept)) <= target) as Hf.
  { induction bs as [|b bs IH]; intros s0 l0 Hs0.
    { exists [], []. by rewrite !app_nil_r. }
    cbn [described fmap list_fmap zip zip_with fold_left].
    assert (len b + len (rows s0) = len (rows (s0 ++ [b]))) as Hb.
    { unfold rows. rewrite concat_app, len_app. cbn. rewrite app_nil_r. lia. }
    unfold shave_step at 2. rewrite Hb.
    destruct (Z.leb_spec (len (rows (s0 ++ [b]))) target) as [Hle|Hgt].
    - destruct (IH (s0 ++ [b]) l0 Hle) as (kept & left & E & Hp & Hk).
      exists (b :: kept), left. rewrite described_app, <- (assoc_L (++)) in E. rewrite Z.add_comm, Hb.
      rewrite <- (assoc_L (++)) in Hk. split_and!; [exact E|by rewrite Hp|exact Hk].
    - destruct (IH s0 (l0 ++ [b]) Hs0) as (kept & left & E & Hp & Hk).
      exists kept, (b :: left). rewrite described_app, <- (assoc_L (++)) in E.
      split_and!; [exact E| |exact Hk]. rewrite Hp. apply Permutation_middle. }
  destruct (Hf [] []) as (kept & left & E & Hp & Hk); [exact Ht|]. exists kept, left.
  change (described [], described [], len (rows [])) with
    (@nil (Block * BlockMetadata), @nil (Block * BlockMetadata), 0) in E. by rewrite E.
Qed.

Definition lens bs : list Z := len <$> bs.
Implicit Types (bss kepts sp : list (list Block)).
Arguments described : simpl never.
Arguments metas_of : simpl never.

Definition needed (target : Z) bs : Z := target - len (rows bs).
Arguments needed : simpl never.

Lemma shave_all_spec target bss :
  0 <= target →
  ∃ kepts left,
    _shave_all_splits (described <$> bss) (lens <$> bss) target =
      (described <$> kepts, needed target <$> kepts, described left) ∧
    length kepts = length bss ∧ concat bss ≡ₚ concat kepts ++ left ∧
    Forall (λ k, len (rows k) <= target) kepts.
Proof.
  intros Ht. unfold _shave_all_splits.
  set (f := λ '(_, _, _) '(_, _), _).
  assert (∀ k0 l0, ∃ kepts left,
    fold_left f (zip (described <$> bss) (lens <$> bss))
      (described <$> k0, needed target <$> k0, described l0) =
      (described <$> (k0 ++ kepts), needed target <$> (k0 ++ kepts), described (l0 ++ left)) ∧
    length kepts = length bss ∧ concat bss ≡ₚ concat kepts ++ left ∧
    Forall (λ k, len (rows k) <= target) kepts) as Hf.
  { induction bss as [|bs bss IH]; intros k0 l0.
    { exists [], []. by rewrite !app_nil_r. }
    cbn [fmap list_fmap zip zip_with fold_left].
    destruct (shave_one_spec target bs Ht) as (kept & left & E & Hp & Hk).
    destruct (IH (k0 ++ [kept]) (l0 ++ left)) as (kepts & left' & E' & Hl & Hp' & Hall).
    assert (∀ a1 a2 a3, f (a1, a2, a3) (described bs, lens bs) =
      (a1 ++ [described kept], a2 ++ [needed target kept], a3 ++ described left)) as Hstep.
    { intros a1 a2 a3. unfold f. change (lens bs) with (len <$> bs). by rewrite E. }
    exists (kept :: kepts), (left ++ left'). split_and!.
    - rewrite Hstep. rewrite !fmap_app, described_app, <- !(assoc_L (++)) in E'.
      rewrite !fmap_app. exact E'.
    - cbn. by f_equal.
    - cbn. rewrite Hp, Hp'. solve_Permutation.
    - by constructor. }
  apply (Hf [] []).
Qed.

Lemma partitions_spec bls bss :
  Forall2 holds bls bss →
  ∃ ps, mapM get_blocks_with_metadata bls = Ok ps ∧
    (λ p, (_calculate_blocks_rows p).1) <$> ps = lens <$> bss ∧
    (λ p, (_calculate_blocks_rows p).2) <$> ps = described <$> bss.
Proof.
  induction 1 as [|bl bs bls bss Hbl Hall (ps & E & E1 & E2)]; cbn; [by exists []|].
  destruct (holds_partition _ _ Hbl) as (p & -> & Ha & <-). cbn. rewrite E. cbn.
  exists (p :: ps). cbn. rewrite E1, E2, calculate_spec by done. done.
Qed.

Lemma check_all target kepts :
  Forall (λ k, len (rows k) <= target) kepts →
  ∃ us, mapM (check_shaved target) (zip (described <$> kepts) (needed target <$> kepts)) = Ok us.
Proof.
  induction 1 as [|k kepts Hk Hall [us IH]]; [by exists []|]. rewrite !fmap_cons.
  change (zip (?x :: ?l) (?y :: ?l')) with ((x, y) :: zip l l').
  assert (check_shaved target (described k, needed target k) = Ok tt) as E.
  { unfold check_shaved. cbn [fst snd]. rewrite meta_rows_described. cbn [mbind result_bind].
    rewrite (proj2 (Z.leb_le _ _) Hk). unfold needed. by rewrite Zplus_minus, Z.eqb_refl. }
  cbn [mapM]. rewrite E. cbn [mbind result_bind]. rewrite IH. by eexists.
Qed.

Lemma merge_all target kepts sp :
  Forall (λ k, len (rows k) <= target) kepts →
  (λ s, len (rows s)) <$> sp = needed target <$> kepts →
  merge_leftovers target (described <$> kepts) (described <$> sp) =
    Ok (described <$> zip_with app kepts sp) ∧
  Forall (λ s, len (rows s) = target) (zip_with app kepts sp) ∧
  concat (zip_with app kepts sp) ≡ₚ concat kepts ++ concat sp.
Proof.
  intros Hall. revert sp. induction Hall as [|k kepts Hk Hall IH]; intros [|s sp]; cbn; try done.
  intros [= Hs Hsp]. destruct (IH sp Hsp) as (E & Ht & Hp).
  rewrite <- described_app, meta_rows_described. cbn [mbind result_bind].
  assert (len (rows (k ++ s)) = target) as Hlen.
  { unfold needed, rows in *. rewrite concat_app, len_app. lia. }
  rewrite Hlen, Z.eqb_refl. cbn. rewrite E. cbn. split_and!; [done|by constructor|].
  rewrite Hp. solve_Permutation.
Qed.

Lemma zip_metas sp : zip_with zip sp (metas_of <$> sp) = described <$> sp.
Proof.
  induction sp as [|bs sp IH]; cbn; [done|]. f_equal; [|done].
  unfold described, metas_of. clear. induction bs as [|b bs IH]; cbn; [done|]. by f_equal.
Qed.

Lemma init_described sp owned :
  ∃ outs, mapM (λ split, block_list_init split.*1 split.*2 owned) (described <$> sp) = Ok outs ∧
    Forall2 holds outs sp.
Proof.
  induction sp as [|bs sp (outs & IH & Hall)]; cbn; [exists []; by split|].
  rewrite described_blocks, described_metas. destruct (init_holds bs owned) as (bl & Ei & Hbl).
  unfold metas_of in Ei. rewrite Ei. cbn. rewrite IH. cbn. exists (bl :: outs). split; [done|by constructor].
Qed.

Lemma rows_perm bs1 bs2 : bs1 ≡ₚ bs2 → rows bs1 ≡ₚ rows bs2.
Proof.
  unfold rows. induction 1; cbn; [done|by f_equiv| |by etrans]. by rewrite !(assoc_L (++)), (Permutation_app_comm y x).
Qed.

Lemma sum_needed target kepts :
  sumZ (needed target <$> kepts) = target * len kepts - len (rows (concat kepts)).
Proof.
  unfold rows. induction kepts as [|k kepts IH]; [unfold sumZ, len; cbn; lia|]. cbn.
  rewrite sumZ_cons, IH, concat_app, len_app, len_cons. unfold needed, rows. lia.
Qed.
Lemma sum_lens bss : sumZ (sumZ <$> (lens <$> bss)) = len (rows (concat bss)).
Proof.
  unfold rows. induction bss as [|bs bss IH]; [done|]. cbn [fmap list_fmap concat].
  rewrite sumZ_cons, concat_app, len_app, <- IH. f_equal. unfold lens. by rewrite len_concat.
Qed.

Lemma rows_concat sp : rows (concat sp) = concat (rows <$> sp).
Proof. unfold rows. induction sp as [|s sp IH]; cbn; [done|]. by rewrite concat_app, IH. Qed.

Lemma rows_all_equal target sp :
  Forall (λ s, len (rows s) = target) sp → len (rows (concat sp)) = target * len sp.
Proof.
  rewrite rows_concat, len_concat. induction 1 as [|s sp Hs Hall IH]; [unfold sumZ, len; cbn; lia|].
  cbn [fmap list_fmap]. rewrite sumZ_cons, len_cons. cbn in IH. lia.
Qed.

(** After shaving: the leftovers are enough, and merging them makes every split as
    long as the target. *)
Lemma merge_spec target kepts left lbl total :
  holds lbl left → Forall (λ k, len (rows k) <= target) kepts →
  total = len (rows (concat kepts)) + len (rows left) → target * len kepts <= total →
  ∃ sp1 sp2 merged,
    _split_leftovers lbl (needed target <$> kepts) = Ok (described <$> sp1) ∧
    merge_leftovers target (described <$> kepts) (described <$> sp1) = Ok (described <$> merged) ∧
    length merged = length kepts ∧ Forall (λ s, len (rows s) = target) merged ∧
    concat merged ≡ₚ concat kepts ++ concat sp1 ∧
    rows left = concat (rows <$> sp1) ++ concat (rows <$> sp2).
Proof.
  intros Hlbl Hall Htot Hle.
  destruct (split_sizes_spec lbl left (needed target <$> kepts) Hlbl) as (sp & Es & Hlsp & Hsz & Hcat).
  { apply Forall_fmap. eapply Forall_impl; [exact Hall|]. unfold needed. cbn. lia. }
  { rewrite sum_needed. lia. }
  set (k := length (needed target <$> kepts)) in *.
  destruct (merge_all target kepts (take k sp) Hall Hsz) as (Em & Ht & Hp).
  exists (take k sp), (drop k sp), (zip_with app kepts (take k sp)).
  unfold _split_leftovers. rewrite Es. cbn [mbind result_bind]. rewrite zip_metas, <- fmap_take.
  split_and!; [done|done| |done|done|].
  - rewrite length_zip_with, length_take, Hlsp. unfold k. rewrite length_fmap. lia.
  - by rewrite <- concat_app, <- fmap_app, take_drop, Hcat.
Qed.

(** Equalizing gives every split exactly its share [total // n] of the rows; no
    row is invented or given twice, and fewer than [n] rows are dropped. *)
Theorem equalize_equal bls bss owned :
  Forall2 holds bls bss → bls ≠ [] →
  ∃ outs sp dropped,
    _equalize bls owned = Ok outs ∧ Forall2 holds outs sp ∧ length sp = length bls ∧
    Forall (λ s, len (rows s) = len (rows (concat bss)) / len bls) sp ∧
    rows (concat bss) ≡ₚ rows (concat sp) ++ dropped ∧
    len dropped = len (rows (concat bss)) mod len bls.
Proof.
  intros Hbls Hne. assert (0 < len bls) as Hn by (destruct bls; [done|unfold len; cbn; lia]).
  destruct (partitions_spec bls bss Hbls) as (ps & Ep & E1 & E2).
  assert (len bss = len bls) as Hlb by (unfold len; by rewrite (Forall2_length _ _ _ Hbls)).
  set (total := len (rows (concat bss))). set (target := total / len bls).
  assert (0 <= target) as Ht by (apply Z.div_pos; [apply len_nonneg|done]).
  destruct (shave_all_spec target bss Ht) as (kepts & left & Esh & Hlk & Hperm & Hall).
  destruct (check_all target kepts Hall) as [us Ec].
  destruct (init_holds left owned) as (lbl & El & Hlbl).
  assert (len kepts = len bls) as Hlk' by (unfold len in *; lia).
  destruct (merge_spec target kepts left lbl total Hlbl Hall)
    as (sp1 & sp2 & merged & Es & Em & Hlm & Htm & Hpm & Hleft).
  { unfold total. rewrite (rows_perm _ _ Hperm). unfold rows. by rewrite concat_app, len_app. }
  { rewrite Hlk', Z.mul_comm. by apply Z.mul_div_le. }
  destruct (init_described merged owned) as (outs & Eo & Houts).
  assert (rows (concat bss) ≡ₚ rows (concat merged) ++ concat (rows <$> sp2)) as Hrows.
  { rewrite (rows_perm _ _ Hperm), (rows_perm _ _ Hpm). unfold rows at 1 2. rewrite !concat_app.
    fold (rows left). rewrite Hleft, <- rows_concat. by rewrite <- (assoc_L (++)). }
  exists outs, merged, (concat (rows <$> sp2)). split_and!; [|done| |done|done|].
  - unfold _equalize. destruct bls as [|bl0 bls0]; [done|]. rewrite Ep. cbn [mbind result_bind].
    rewrite E1, E2, len_fmap, sum_lens, Hlb. fold total target. rewrite Esh, Ec.
    cbn [mbind result_bind]. rewrite described_blocks, described_metas. unfold metas_of in El.
    rewrite El. cbn [mbind result_bind]. rewrite Es. cbn [mbind result_bind]. rewrite Em. exact Eo.
  - unfold len in *. lia.
  - apply rows_all_equal in Htm. apply Permutation_length in Hrows. rewrite length_app in Hrows.
    rewrite Z.mod_eq by lia. fold target. unfold total, len in *. lia.
Qed.

(** C16: splitting a dataset at indices gives the rows that [np.split] gives, however
    they are spread over blocks and whether or not the metadata knows their
    number; indices that are missing, negative or not sorted raise [ValueError]. *)
Theorem split_at_indices_is_np_split ds bs indices :
  holds ds bs →
  (good_indices indices →
   ∃ outs sp, split_at_indices ds indices = Ok outs ∧ Forall2 holds outs sp ∧
     rows <$> sp = np_split 0 indices (rows bs)) ∧
  (¬ good_indices indices → split_at_indices ds indices = Err ValueError).
Proof.
  intros Hds. split; [by apply split_dataset_spec|]. intros Hbad. unfold split_at_indices.
  destruct indices as [|i0 indices]; [done|]. case_bool_decide as Hsort; [|done].
  apply py_sorted_Z in Hsort. destruct (Z.ltb_spec i0 0) as [|Hi]; [done|]. destruct Hbad.
  split_and!; [done|done|]. apply StronglySorted_cons in Hsort as [Hge _]. constructor; [done|].
  eapply Forall_impl; [exact Hge|]. cbn. lia.
Qed.

Lemma differences_seq k m i :
  differences (k * Z.of_nat i) ((λ i, k * Z.of_nat i) <$> seq (S i) m) = replicate m k.
Proof.
  revert i. induction m as [|m IH]; intros i; cbn [seq fmap list_fmap differences replicate]; [done|].
  f_equal; [lia|]. apply IH.
Qed.

Lemma multiples_sorted k m i :
  0 <= k → StronglySorted Z.le ((λ i, k * Z.of_nat i) <$> seq i m).
Proof.
  intros Hk. revert i. induction m as [|m IH]; intros i; cbn; [constructor|].
  constructor; [apply IH|]. apply Forall_fmap, Forall_forall. intros j Hj%elem_of_seq. cbn. nia.
Qed.

(** An equal split has [n] parts of [count // n] rows each, which are the first
    rows of the dataset in order. *)
Theorem split_equal_equal ds bs n :
  holds ds bs → 0 < n →
  ∃ outs sp, split_equal ds n = Ok outs ∧ Forall2 holds outs sp ∧ len sp = n ∧
    Forall (λ s, len (rows s) = len (rows bs) / n) sp ∧
    rows (concat sp) = take (Z.to_nat (len (rows bs) / n * n)) (rows bs).
Proof.
  intros Hds Hn. unfold split_equal. rewrite (proj2 (Z.leb_gt n 0)) by lia.
  rewrite (count_spec _ _ Hds). cbn [mbind result_bind]. set (k := len (rows bs) / n).
  assert (0 <= k) as Hk by (apply Z.div_pos; [apply len_nonneg|done]).
  assert (k * n <= len (rows bs)) as Hkn by (rewrite Z.mul_comm; by apply Z.mul_div_le).
  set (idx := (λ i, k * Z.of_nat i) <$> seq 1 (Z.to_nat n)).
  assert (length idx = Z.to_nat n) as Hl by (unfold idx; by rewrite length_fmap, length_seq).
  assert (StronglySorted Z.le (0 :: idx)) as Hs.
  { pose proof (multiples_sorted k (S (Z.to_nat n)) 0 Hk) as H. cbn [seq fmap list_fmap] in H.
    by rewrite Z.mul_0_r in H. }
  destruct (split_dataset_spec ds bs idx Hds) as (outs & sp & -> & Houts & Hsp).
  { apply StronglySorted_cons in Hs as [Hge Hs]. split_and!; [|done|done].
    intros Hnil. rewrite Hnil in Hl. cbn in Hl. lia. }
  cbn [mbind result_bind]. exists (take (Z.to_nat n) outs), (take (Z.to_nat n) sp).
  assert (length sp = S (Z.to_nat n)) as Hlsp.
  { by rewrite <- (length_fmap rows), Hsp, np_split_length, Hl. }
  assert (len (take (Z.to_nat n) sp) = n) as Hlt by (unfold len; rewrite length_take; lia).
  assert (Forall (λ s, len (rows s) = k) (take (Z.to_nat n) sp)) as Hall.
  { assert (len <$> (rows <$> take (Z.to_nat n) sp) = replicate (Z.to_nat n) k) as E.
    { rewrite fmap_take, Hsp, <- Hl, np_split_lens; [|done|done|].
      - pose proof (differences_seq k (Z.to_nat n) 0) as Hd. rewrite Z.mul_0_r in Hd. by rewrite Hl.
      - unfold idx. apply Forall_fmap, Forall_forall. intros j Hj%elem_of_seq. cbn. nia. }
    apply Forall_forall. intros s Hin. assert (len (rows s) ∈ replicate (Z.to_nat n) k) as Hr.
    { rewrite <- E, <- list_fmap_compose. apply list_elem_of_fmap. by exists s. }
    by apply elem_of_replicate in Hr as [-> _]. }
  split_and!; [done|by apply Forall2_take|done|done|].
  assert (rows bs = rows (concat (take (Z.to_nat n) sp)) ++ rows (concat (drop (Z.to_nat n) sp))) as E.
  { rewrite !rows_concat, <- concat_app, <- fmap_app, take_drop, Hsp, np_split_concat by done.
    by rewrite py_slice_full. }
  rewrite E. apply rows_all_equal in Hall. rewrite Hlt in Hall.
  rewrite <- Hall. unfold len. rewrite Nat2Z.id. by rewrite take_app_length.
Qed.

(** ** Limits *)

Lemma truncate_spec n c p :
  accurate p →
  ∃ q, p = truncate_loop n c p ++ q ∧
    (q = [] ∨ n <= c + len (rows (truncate_loop n c p).*1)).
Proof.
  intros Ha. revert c. induction Ha as [|[b m] p Hm Ha IH]; intros c; cbn [truncate_loop].
  { exists []. split; [done|by left]. }
  assert (default 0 (num_rows m) <= len b) as Hb.
  { pose proof (len_nonneg b). cbn in Hm. destruct Hm as [-> | ->]; cbn; lia. }
  destruct (Z.leb_spec n (c + default 0 (num_rows m))) as [Hle|Hgt].
  - exists p. split; [done|]. right. unfold rows. cbn. rewrite app_nil_r. lia.
  - destruct (IH (c + default 0 (num_rows m))) as (q & E & Hq). exists q.
    split; [cbn; by rewrite <- E|]. destruct Hq as [->|Hq]; [by left|right].
    unfold rows in *. cbn. rewrite len_app. lia.
Qed.

(** [limit] keeps exactly the first rows. *)
Theorem limit_takes_first ds bs n :
  holds ds bs → 0 <= n →
  ∃ out obs, limit ds n = Ok out ∧ holds out obs ∧ rows obs = take (Z.to_nat n) (rows bs).
Proof.
  intros Hds Hn. destruct (holds_partition _ _ Hds) as (p & E & Ha & Hp).
  unfold limit, truncate_by_rows. rewrite E. cbn [mbind result_bind].
  destruct (truncate_spec n 0 p Ha) as (q & Hq & Hlen). set (t := truncate_loop n 0 p) in *.
  assert (∃ bl, block_list_init t.*1 t.*2 (_owned_by_consumer ds) = Ok bl ∧ holds bl t.*1)
    as (bl & -> & Hbl).
  { unfold block_list_init. rewrite !length_fmap, Nat.eqb_refl. cbn. eexists. split; [done|].
    split_and!; cbn; [done|by rewrite !length_fmap|]. unfold accurate in *. rewrite Hq in Ha.
    apply Forall_app in Ha as [Ha _]. by rewrite zip_fst_snd. }
  cbn [mbind result_bind]. unfold _split_at_index.
  destruct (split_at_indices_spec bl t.*1 [n] Hbl) as (sp & -> & Hsp);
    [by repeat constructor|by repeat constructor|]. cbn [mbind result_bind].
  destruct sp as [|s0 [|s1 [|s2 sp]]]; cbn in Hsp; try discriminate Hsp.
  injection Hsp as Hs0 Hs1. cbn [fmap list_fmap py_nth].
  destruct (init_holds s0 (_owned_by_consumer bl)) as (out & Eo & Ho).
  exists out, s0. split_and!; [exact Eo|done|]. rewrite Hs0, py_slice_take by done.
  rewrite <- Hp, Hq, fmap_app. unfold rows in *. rewrite concat_app.
  destruct Hlen as [->|Hlen]; [by rewrite app_nil_r|]. rewrite take_app_le; [done|].
  unfold len in Hlen. lia.
Qed.

(** ** Proportions *)

(** What [np.cumsum] is documented to give, up to equality of rationals. *)
Fixpoint running_sums (prev : Q) (l : list Q) : list Q :=
  match l with [] => [] | x :: l => (prev + x)%Q :: running_sums (prev + x)%Q l end.

(** The indices become distinct, and the last one stays. *)
Lemma distinct_spec (x : Z) (l : list Z) :
  StronglySorted Z.le (x :: l) →
  ∃ d k, foldr distinct_step ([], 0) (x :: l) = ((x - k) :: d, k) ∧
    StronglySorted Z.lt ((x - k) :: d) ∧ 0 <= k ∧ last ((x - k) :: d) = last (x :: l).
Proof.
  revert x. induction l as [|y l IH]; intros x Hs.
  { exists [], 0. cbn. rewrite Z.sub_0_r. split_and!; [done|repeat constructor|done|done]. }
  apply StronglySorted_cons in Hs as [Hle Hs]. apply Forall_cons in Hle as [Hxy Hle].
  destruct (IH y Hs) as (d & k & E & Hd & Hk & Hl).
  cbn [foldr] in *. rewrite E. cbn [distinct_step].
  destruct (Z.eqb_spec (x - k) (y - k)) as [Heq|Hne].
  - exists ((y - k) :: d), (k + 1). replace (x - (k + 1)) with (x - k - 1) by lia.
    split_and!; [done| |lia|done]. apply StronglySorted_cons. split; [|done].
    apply StronglySorted_cons in Hd as [Hlt _]. constructor; [lia|].
    eapply Forall_impl; [exact Hlt|]. cbn. lia.
  - exists ((y - k) :: d), k. split_and!; [done| |lia|done]. apply StronglySorted_cons. split; [|done].
    apply StronglySorted_cons in Hd as [Hlt _]. constructor; [lia|].
    eapply Forall_impl; [exact Hlt|]. cbn. lia.
Qed.

Lemma py_int_nonneg q : (0 <= q)%Q → py_int q = Qfloor q.
Proof.
  intros Hq. unfold py_int, Qfloor. destruct q as [n d]. cbn. apply Z.quot_div_nonneg; [|lia].
  unfold Qle in Hq. cbn in Hq. lia.
Qed.

Lemma running_sums_spec prev l :
  (0 <= prev)%Q → Forall (λ q : Q, (0 < q)%Q) l →
  StronglySorted Qle (prev :: running_sums prev l) ∧
  (default prev (last (running_sums prev l)) == prev + sumQ l)%Q.
Proof.
  intros Hp Hl. revert prev Hp. induction Hl as [|x l Hx Hl IH]; intros prev Hp; cbn [running_sums].
  { split; [repeat constructor|]. cbn. lra. }
  destruct (IH (prev + x)%Q) as [Hs Hlast]; [lra|]. split.
  - apply StronglySorted_cons. split; [|done]. apply StronglySorted_cons in Hs as [Hge _].
    constructor; [lra|]. eapply Forall_impl; [exact Hge|]. cbn. intros. lra.
  - cbn [sumQ foldr]. fold (sumQ l). destruct (running_sums (prev + x) l) as [|y r] eqn:E.
    + cbn in *. lra.
    + rewrite last_cons_cons. destruct (last (y :: r)) eqn:El; [|by apply last_None in El]. cbn in *. lra.
Qed.

Lemma sorted_last_le x (l : list Z) z :
  StronglySorted Z.lt (x :: l) → last (x :: l) = Some z → x <= z.
Proof.
  intros Hs Hl. destruct l as [|y l]; [by simplify_eq/=|]. rewrite last_cons_cons in Hl.
  apply StronglySorted_cons in Hs as [Hlt _]. rewrite Forall_forall in Hlt.
  apply last_Some_elem_of in Hl. specialize (Hlt z Hl). lia.
Qed.

Lemma np_split_nonempty prev indices xs z :
  0 <= prev → StronglySorted Z.lt (prev :: indices) → last (prev :: indices) = Some z →
  z < len xs → Forall (λ ys, 0 < len ys) (np_split prev indices xs).
Proof.
  revert prev. induction indices as [|i indices IH]; intros prev Hp Hs Hl Hz; cbn [np_split].
  - simplify_eq/=. constructor; [|done]. unfold py_slice, slice_index.
    rewrite (proj2 (Z.ltb_ge _ _)) by lia. unfold len in *. rewrite length_take, length_drop. lia.
  - rewrite last_cons_cons in Hl. apply StronglySorted_cons in Hs as [Hlt Hs].
    apply Forall_cons in Hlt as [Hi _]. pose proof (sorted_last_le _ _ _ Hs Hl).
    constructor; [rewrite py_slice_len by lia; lia|]. apply IH; (done || lia).
Qed.

Section proportions_proofs.
Context (np_cumsum : list Q → list Q)
        (np_cumsum_spec : ∀ l, Forall2 Qeq (np_cumsum l) (running_sums 0 l)).

Lemma raw_indices n (props : list Q) :
  0 <= n → Forall (λ q : Q, (0 < q)%Q) props →
  (λ q : Q, py_int (inject_Z n * q)%Q) <$> np_cumsum props =
    (λ q, Qfloor (inject_Z n * q)) <$> running_sums 0 props.
Proof.
  intros Hn Hpos. destruct (running_sums_spec 0 props ltac:(lra) Hpos) as [Hs _].
  apply StronglySorted_cons in Hs as [Hge _].
  induction (np_cumsum_spec props) as [|c r cs rs Hc Hcs IH]; [done|]. cbn [fmap list_fmap].
  apply Forall_cons in Hge as [Hr Hge]. f_equal; [|by apply IH].
  assert (0 <= inject_Z n)%Q as Hn' by (unfold Qle; cbn; lia).
  rewrite py_int_nonneg; [apply Qfloor_comp; by rewrite Hc|]. rewrite Hc. by apply Qmult_le_0_compat.
Qed.

(** The indices computed from proportions: distinct, and below the length. *)
Lemma proportion_indices n props :
  0 <= n → props ≠ [] → Forall (λ q : Q, (0 < q)%Q) props → (sumQ props < 1)%Q →
  let idx := distinct_indices ((λ q : Q, py_int (inject_Z n * q)%Q) <$> np_cumsum props) in
  existsb (λ i, i <=? 0) idx = false →
  StronglySorted Z.lt (0 :: idx) ∧ idx ≠ [] ∧ ∃ z, last (0 :: idx) = Some z ∧ z < n.
Proof.
  intros Hn Hne Hpos Hsum. rewrite raw_indices by done.
  destruct (running_sums_spec 0 props ltac:(lra) Hpos) as [Hs Hlast].
  assert (0 <= inject_Z n)%Q as Hn' by (unfold Qle; cbn; lia).
  destruct props as [|p0 props]; [done|]. cbn [running_sums] in *.
  set (r0 := (0 + p0)%Q) in *. set (rs := running_sums r0 props) in *.
  apply StronglySorted_cons in Hs as [_ Hs].
  assert (StronglySorted Z.le ((λ q, Qfloor (inject_Z n * q)) <$> (r0 :: rs))) as Hraw.
  { eapply StronglySorted_fmap; [|exact Hs]. intros q1 q2 Hq. apply Qfloor_resp_le.
    rewrite !(Qmult_comm (inject_Z n)). by apply Qmult_le_compat_r. }
  rewrite fmap_cons in Hraw |- *. destruct (distinct_spec _ _ Hraw) as (d & k & E & Hd & Hk & Hl).
  unfold distinct_indices. rewrite E. cbn [fst]. intros Hex.
  set (x := Qfloor (inject_Z n * r0) - k) in *. split_and!; [|done|].
  - apply StronglySorted_cons. split; [|done]. apply Forall_forall. intros i Hi.
    apply list_elem_of_In in Hi. destruct (Z.ltb_spec 0 i) as [|Hle]; [done|].
    enough (existsb (λ i, i <=? 0) (x :: d) = true) by congruence.
    apply existsb_exists. exists i. split; [done|]. by apply Z.leb_le.
  - rewrite last_cons_cons, Hl.
    assert (last (Qfloor (inject_Z n * r0) :: ((λ q, Qfloor (inject_Z n * q)) <$> rs)) =
      (λ q, Qfloor (inject_Z n * q)) <$> last (r0 :: rs)) as ->
      by (symmetry; exact (eq_sym (fmap_last (λ q, Qfloor (inject_Z n * q)) (r0 :: rs)))).
    destruct (last (r0 :: rs)) as [q|] eqn:Eq; [|by apply last_None in Eq]. cbn in Hlast |- *.
    eexists. split; [done|]. destruct (decide (n = 0)) as [->|Hn0].
    + exfalso. assert (x <= 0 - 0) as Hx.
      { unfold x. enough (Qfloor (inject_Z 0 * r0) = 0) by lia.
        rewrite (Qfloor_comp _ 0%Q) by (unfold inject_Z; lra). done. }
      cbn in Hex. apply orb_false_iff in Hex as [Hex _]. apply Z.leb_gt in Hex. lia.
    + assert (inject_Z n * q < inject_Z n)%Q as Hlt.
      { rewrite Hlast. rewrite <- (Qmult_1_r (inject_Z n)) at 2.
        apply Qmult_lt_l; [change 0%Q with (inject_Z 0); rewrite <- Zlt_Qlt; lia|].
        cbn in Hsum. lra. }
      pose proof (Qfloor_le (inject_Z n * q)) as Hfl. rewrite Zlt_Qlt.
      exact (Qle_lt_trans _ _ _ Hfl Hlt).
Qed.

(** A proportional split either raises [ValueError] or gives one part more than
    there are proportions, none of them empty, that together are the dataset. *)
Theorem split_proportionately_nonempty ds bs proportions :
  holds ds bs →
  split_proportionately np_cumsum ds proportions = Err ValueError ∨
  ∃ outs sp, split_proportionately np_cumsum ds proportions = Ok outs ∧
    Forall2 holds outs sp ∧ len sp = len proportions + 1 ∧
    Forall (λ s, 0 < len (rows s)) sp ∧ rows (concat sp) = rows bs.
Proof.
  intros Hds. unfold split_proportionately. case_bool_decide as Hne; [by left|].
  destruct (Qle_bool 1 (sumQ proportions)) eqn:Hsum; [by left|].
  destruct (existsb (λ q, Qle_bool q 0) proportions) eqn:Hpos; [by left|].
  rewrite (count_spec _ _ Hds). cbn [mbind result_bind].
  destruct (existsb _ (distinct_indices _)) eqn:Hex; [by left|]. right.
  assert (Forall (λ q : Q, (0 < q)%Q) proportions) as Hpos'.
  { apply Forall_forall. intros q Hq%list_elem_of_In. apply Qnot_le_lt. intros Hle.
    enough (existsb (λ q, Qle_bool q 0) proportions = true) by congruence.
    apply existsb_exists. exists q. split; [done|]. by apply Qle_bool_iff. }
  destruct (proportion_indices (len (rows bs)) proportions) as (Hs & Hne' & z & Hz & Hlt);
    [apply len_nonneg|done|done| |done|].
  { apply Qnot_le_lt. intros Hle%Qle_bool_iff. congruence. }
  set (idx := distinct_indices _) in *.
  assert (StronglySorted Z.le (0 :: idx)) as Hsle.
  { clear -Hs. induction Hs as [|x l Hs IH Hall]; constructor; [done|].
    eapply Forall_impl; [exact Hall|]. cbn. lia. }
  apply StronglySorted_cons in Hsle as Hsle'. destruct Hsle' as [Hge Hsle'].
  destruct (split_dataset_spec ds bs idx Hds) as (outs & sp & -> & Houts & Hsp); [by split_and!|].
  exists outs, sp. split_and!; [done|done| | |].
  - unfold len. rewrite <- (length_fmap rows sp), Hsp, np_split_length. unfold idx, distinct_indices.
    pose proof (Forall2_length _ _ _ (np_cumsum_spec proportions)) as Hl.
    assert (∀ l, length (foldr distinct_step ([], 0) l).1 = length l) as Hd.
    { clear. induction l as [|x l IH]; cbn; [done|].
      destruct (foldr distinct_step ([], 0) l) as [[|y d] k]; cbn in *; [by f_equal|].
      destruct (_ =? _); cbn; lia. }
    rewrite Hd, length_fmap, Hl. clear. generalize 0%Q.
    induction proportions as [|x l IH]; intros q; cbn; [done|]. specialize (IH (q + x)%Q). lia.
  - pose proof (np_split_nonempty 0 idx (rows bs) z ltac:(done) Hs Hz Hlt) as Hall.
    rewrite <- Hsp in Hall. exact (proj1 (Forall_fmap _ _ _) Hall).
  - rewrite rows_concat, Hsp, np_split_concat by done. apply py_slice_full.
Qed.
End proportions_proofs.
End split_proofs.

(** ** Concrete datasets *)

Module SplitExamples.

Definition blocks : list (list nat) := [[1; 2; 3]; []; [4; 5]]%nat.
Definition ds : BlockList nat :=
  {| _blocks := Some blocks; _metadata := [{| num_rows := Some 3 |}; {| num_rows := None |}; {| num_rows := Some 2 |}];
     _owned_by_consumer := false |}.

Lemma ds_holds : holds ds blocks.
Proof.
  split_and!; [done|done|]. constructor; [by right|]. constructor; [by left|]. constructor; [by right|done].
Qed.

Lemma split_at_indices_is_np_split_witness :
  (good_indices [2; 4; 9] →
   ∃ outs sp, split_at_indices ds [2; 4; 9] = Ok outs ∧ Forall2 holds outs sp ∧
     rows <$> sp = [[1; 2]; [3; 4]; [5]; []]%nat) ∧
  (¬ good_indices [2; 4; 9] → split_at_indices ds [2; 4; 9] = Err ValueError).
Proof. apply (split_at_indices_is_np_split ds blocks [2; 4; 9] ds_holds). Defined.

Lemma split_equal_equal_witness :
  ∃ outs sp, split_equal ds 2 = Ok outs ∧ Forall2 holds outs sp ∧ len sp = 2 ∧
    Forall (λ s, len (rows s) = 2) sp ∧ rows (concat sp) = [1; 2; 3; 4]%nat.
Proof. apply (split_equal_equal ds blocks 2 ds_holds). lia. Defined.

(** Two uneven splits. *)
Definition uneven : list (list (list nat)) := [blocks; [[6]]]%nat.
Definition other : BlockList nat :=
  {| _blocks := Some [[6]]%nat; _metadata := [{| num_rows := Some 1 |}]; _owned_by_consumer := false |}.

Lemma equalize_equal_witness :
  ∃ outs sp dropped,
    _equalize [ds; other] false = Ok outs ∧ Forall2 holds outs sp ∧ length sp = 2%nat ∧
    Forall (λ s, len (rows s) = 3) sp ∧ [1; 2; 3; 4; 5; 6]%nat ≡ₚ rows (concat sp) ++ dropped ∧
    len dropped = 0.
Proof.
  apply (equalize_equal [ds; other] uneven false); [|done].
  constructor; [apply ds_holds|]. constructor; [|constructor].
  split_and!; [done|done|]. constructor; [by right|constructor].
Defined.

Definition ten : BlockList nat :=
  {| _blocks := Some [seq 0 10]; _metadata := [{| num_rows := Some 10 |}]; _owned_by_consumer := false |}.

Lemma ten_holds : holds ten [seq 0 10].
Proof. split_and!; [done|done|]. constructor; [by right|done]. Qed.

Lemma split_proportionately_nonempty_witness :
  split_proportionately (running_sums 0) ten [(1 # 5)%Q; (1 # 2)%Q] = Err ValueError ∨
  ∃ outs sp, split_proportionately (running_sums 0) ten [(1 # 5)%Q; (1 # 2)%Q] = Ok outs ∧
    Forall2 holds outs sp ∧ len sp = 3 ∧ Forall (λ s, 0 < len (rows s)) sp ∧
    rows (concat sp) = seq 0 10.
Proof.
  apply (split_proportionately_nonempty (running_sums 0)
           (λ l, reflexivity (running_sums 0 l)) ten [seq 0 10] [(1 # 5)%Q; (1 # 2)%Q] ten_holds).
Defined.

(** A proportional split can raise although splits that are not empty exist: ten
    rows in the proportions 0.1, 0.4 and 0.05 give the indices 1, 5 and 5; making
    the last two distinct also lowers the first, to 0. *)
Theorem split_proportionately_too_eager :
  split_proportionately (running_sums 0) ten [(1 # 10)%Q; (4 # 10)%Q; (1 # 20)%Q] = Err ValueError ∧
  distinct_indices [1; 5; 5] = [0; 4; 5] ∧
  ∃ outs, split_at_indices ten [1; 4; 5] = Ok outs ∧
    (λ bl, len (concat (default [] (_blocks bl)))) <$> outs = [1; 3; 1; 5].
Proof. split_and!; [vm_compute; done|done|]. eexists. split; vm_compute; reflexivity. Qed.
End SplitExamples.
