(* ===== verification/DataLocality.v ===== *)
(** * Splitting datasets by locality (data/dataset.py, [Dataset.split])

    With hints, [split] gives whole blocks to actors: first those on the actor's
    node, then any.  A block reference is its position in the dataset; where blocks
    and actors are is an argument. *)
From S2P Require Import Prelude PyLists.
From stdpp Require Import base tactics list.

#[local] Open Scope Z_scope.

Section locality.
Context {Actor Node : Type} `{EqDecision Actor, EqDecision Node}.

Abbreviation ref := nat.

Definition build_allocation_size_map (num_blocks n : Z) (actors : list Actor) : dict Actor Z :=
  let num_blocks_per_actor := num_blocks / len actors in
  let num_blocks_left := num_blocks - num_blocks_per_actor * n in
  fold_left (λ d '(i, actor),
      dset actor (if Z.of_nat i <? num_blocks_left then num_blocks_per_actor + 1
                  else num_blocks_per_actor) d)
    (imap (λ i a, (i, a)) actors) [].

(** [location]: the first node that has the block, if any. *)
Definition build_block_refs_by_node_id (location : ref → option Node) (blocks : list ref) :
    dict (option Node) (list ref) :=
  fold_left (λ d b, dset (location b) (dget_def (location b) [] d ++ [b]) d) blocks [].

(** [while matching_blocks and len(allocation) < expected] *)
Fixpoint take_matching (k : nat) (matching_blocks allocation : list ref) : list ref * list ref :=
  match k with
  | O => (matching_blocks, allocation)
  | S k =>
      match py_pop matching_blocks with
      | Ok (b, rest) => take_matching k rest (allocation ++ [b])
      | Err _ => (matching_blocks, allocation)
      end
  end.

Definition first_round (expected : dict Actor Z) (node_id_by_actor : Actor → option Node)
    (acc : dict (option Node) (list ref) * dict Actor (list ref)) (actor : Actor) :
    result (dict (option Node) (list ref) * dict Actor (list ref)) :=
  let '(by_node, allocation_per_actor) := acc in
  let node_id := node_id_by_actor actor in
  expected_block_count ← dget_exn actor expected;
  let '(matching, allocation) :=
    take_matching (Z.to_nat expected_block_count) (dget_def node_id [] by_node) [] in
  Ok (dset node_id matching by_node, dset actor allocation allocation_per_actor).

Fixpoint fill_allocation (k : nat) (remaining allocation : list ref) :
    result (list ref * list ref) :=
  match k with
  | O => Ok (remaining, allocation)
  | S k => '(b, remaining) ← py_pop remaining; fill_allocation k remaining (allocation ++ [b])
  end.

Definition second_round (expected : dict Actor Z)
    (acc : list ref * dict Actor (list ref)) (actor : Actor) :
    result (list ref * dict Actor (list ref)) :=
  let '(remaining, allocation_per_actor) := acc in
  expected_block_count ← dget_exn actor expected;
  let allocation := dget_def actor [] allocation_per_actor in
  '(remaining, allocation) ←
    fill_allocation (Z.to_nat (expected_block_count - len allocation)) remaining allocation;
  Ok (remaining, dset actor allocation allocation_per_actor).

(** The references each actor gets, in the order of the hints. *)
Definition split_by_locality (num_blocks : nat) (n : Z) (location : ref → option Node)
    (node_id_by_actor : Actor → option Node) (locality_hints : list Actor) :
    result (list (list ref)) :=
  if n <=? 0 then Err ValueError
  else if negb (len locality_hints =? n) then Err ValueError
  else
    let expected := build_allocation_size_map (Z.of_nat num_blocks) n locality_hints in
    let by_node := build_block_refs_by_node_id location (seq 0 num_blocks) in
    '(by_node, allocation_per_actor) ←
      foldM (first_round expected node_id_by_actor) (by_node, []) locality_hints;
    '(remaining, allocation_per_actor) ←
      foldM (second_round expected) (concat (dvalues by_node), allocation_per_actor) locality_hints;
    _ ← py_assert (length remaining =? 0)%nat;
    Ok ((λ a, dget_def a [] allocation_per_actor) <$> locality_hints).
End locality.
