(* ===== verification/DataLocalityProofs.v ===== *)
(** * Correctness of splitting by locality *)
From S2P Require Import Prelude PyLists DataLocality.
From stdpp Require Import base tactics list sets.

#[local] Open Scope Z_scope.

Section locality_proofs.
Context {Actor Node : Type} `{EqDecision Actor, EqDecision Node}.
Implicit Types (hints : list Actor).

Lemma py_pop_Ok {A} (l : list A) a l' : py_pop l = Ok (a, l') → l = l' ++ [a].
Proof.
  unfold py_pop. destruct (last l) as [b|] eqn:Hl; [|done]. intros [= -> <-].
  apply last_Some in Hl as [l' ->]. rewrite length_app. cbn.
  replace (length l' + 1 - 1)%nat with (length l') by lia. by rewrite take_app_length.
Qed.

Lemma py_pop_total {A} (l : list A) : l ≠ [] → ∃ a l', py_pop l = Ok (a, l') ∧ l = l' ++ [a].
Proof.
  intros Hne. destruct (last l) as [a|] eqn:Hl; [|by apply last_None in Hl].
  unfold py_pop. rewrite Hl. eexists _, _. split; [done|]. apply py_pop_Ok. unfold py_pop. by rewrite Hl.
Qed.

Lemma take_matching_spec k m alloc m' alloc' :
  take_matching k m alloc = (m', alloc') →
  m ++ alloc ≡ₚ m' ++ alloc' ∧ (length alloc <= length alloc' <= length alloc + k)%nat.
Proof.
  revert m alloc. induction k as [|k IH]; intros m alloc E; cbn in E; [simplify_eq; split; [done|lia]|].
  destruct (py_pop m) as [[b rest]|e] eqn:Hp; [|simplify_eq; split; [done|lia]].
  apply py_pop_Ok in Hp as ->. apply IH in E as [Hperm Hl]. rewrite length_app in Hl. cbn in Hl.
  split; [|lia]. rewrite <- Hperm. solve_Permutation.
Qed.

Lemma fill_allocation_spec k rem alloc :
  (k <= length rem)%nat →
  ∃ rem' alloc', fill_allocation k rem alloc = Ok (rem', alloc') ∧
    rem ++ alloc ≡ₚ rem' ++ alloc' ∧ length alloc' = (length alloc + k)%nat.
Proof.
  revert rem alloc. induction k as [|k IH]; intros rem alloc Hk; cbn.
  { exists rem, alloc. split_and!; [done|done|lia]. }
  destruct (py_pop_total rem) as (b & rem' & -> & ->); [by destruct rem; [cbn in Hk; lia|]|].
  rewrite length_app in Hk. cbn in *.
  destruct (IH rem' (alloc ++ [b])) as (rem2 & alloc2 & E & Hp & Hl); [lia|].
  exists rem2, alloc2. split_and!; [done| |rewrite length_app in Hl; cbn in Hl; lia].
  rewrite <- Hp. solve_Permutation.
Qed.

Lemma concat_dset {K} `{EqDecision K} (k : K) (v : list nat) (d : dict K (list nat)) :
  concat (dvalues (dset k v d)) ++ dget_def k [] d ≡ₚ concat (dvalues d) ++ v.
Proof.
  unfold dget_def, dvalues. induction d as [|[k' v'] d IH]; cbn; [by rewrite !app_nil_r|].
  case_decide; cbn; [solve_Permutation|]. rewrite <- !(assoc_L (++)). by f_equiv.
Qed.

Lemma dvalues_of_keys {K V} `{EqDecision K} (dflt : V) (d : dict K V) :
  dict_wf d → (λ k, dget_def k dflt d) <$> dkeys d = dvalues d.
Proof.
  unfold dict_wf, dkeys, dvalues. induction d as [|[k v] d IH]; cbn; [done|]. intros [Hk Hwf]%NoDup_cons.
  rewrite dget_def_cons, decide_True by done. f_equal. rewrite <- IH by done.
  apply list_fmap_ext. intros i k' Hk'. rewrite dget_def_cons, decide_False; [done|].
  intros ->. by apply Hk, list_elem_of_lookup_2 with i.
Qed.

Lemma by_node_perm (location : nat → option Node) blocks :
  concat (dvalues (build_block_refs_by_node_id location blocks)) ≡ₚ blocks.
Proof.
  unfold build_block_refs_by_node_id.
  assert (∀ d : dict (option Node) (list nat), concat (dvalues (fold_left
    (λ d b, dset (location b) (dget_def (location b) [] d ++ [b]) d) blocks d)) ≡ₚ
    concat (dvalues d) ++ blocks) as Hf; [|apply (Hf [])].
  induction blocks as [|b blocks IH]; intros d; cbn; [by rewrite app_nil_r|]. rewrite IH.
  pose proof (concat_dset (location b) (dget_def (location b) [] d ++ [b]) d) as Hp.
  set (v := dget_def (location b) [] d) in *. change (b :: blocks) with ([b] ++ blocks).
  rewrite (assoc_L (++) (concat (dvalues d))). f_equiv. apply (Permutation_app_inv_r v). etrans; [exact Hp|]. solve_Permutation.
Qed.

(** The expected numbers of blocks. *)
Definition share (num_blocks n : Z) (i : nat) : Z :=
  if Z.of_nat i <? num_blocks - num_blocks / n * n then num_blocks / n + 1 else num_blocks / n.

Lemma sum_shares num_blocks n (l : list Actor) j :
  sumZ (imap (λ i _, share num_blocks n (j + i)) l) =
    num_blocks / n * len l +
    Z.max 0 (Z.min (len l) (num_blocks - num_blocks / n * n - Z.of_nat j)).
Proof.
  revert j. induction l as [|a l IH]; intros j; [unfold sumZ, len; cbn; lia|].
  rewrite imap_cons, sumZ_cons, len_cons. unfold compose.
  rewrite (imap_ext _ (λ i _, share num_blocks n (S j + i))) by (intros; f_equal; lia).
  rewrite IH. unfold share. rewrite Nat.add_0_r. pose proof (len_nonneg l).
  destruct (Z.ltb_spec (Z.of_nat j) (num_blocks - num_blocks / n * n)); lia.
Qed.

Lemma size_map_spec num_blocks n hints :
  NoDup hints → len hints = n →
  build_allocation_size_map num_blocks n hints = imap (λ i a, (a, share num_blocks n i)) hints.
Proof.
  intros Hnd Hlen. unfold build_allocation_size_map. rewrite Hlen.
  assert (∀ (d : dict Actor Z) (e : nat → Z), (∀ a, a ∈ hints → a ∉ dkeys d) →
    fold_left (λ d '(i, actor), dset actor (e i) d) (imap (λ i a, (i, a)) hints) d =
    d ++ imap (λ i a, (a, e i)) hints) as Hf; [|apply (Hf [] (share num_blocks n)); intros a _ Ha;
      by apply elem_of_nil in Ha].
  clear Hlen. induction hints as [|a hints IH]; intros d e Hfresh; cbn; [by rewrite app_nil_r|].
  apply NoDup_cons in Hnd as [Ha Hnd].
  assert (dset a (e 0%nat) d = d ++ [(a, e 0%nat)]) as ->.
  { assert (a ∉ dkeys d) as Had by (apply Hfresh; left). clear -Had.
    unfold dkeys in Had. induction d as [|[k v] d IH]; cbn in *; [done|].
    apply not_elem_of_cons in Had as [Hak Had]. rewrite decide_False by done. by rewrite IH. }
  assert (∀ d0, fold_left (λ d '(i, actor), dset actor (e i) d) (imap ((λ i a, (i, a)) ∘ S) hints) d0 =
    fold_left (λ d '(i, actor), dset actor ((e ∘ S) i) d) (imap (λ i a, (i, a)) hints) d0) as ->.
  { clear. intros d0. generalize d0. clear d0.
    assert (imap ((λ i a, (i, a)) ∘ S) hints = (λ '(i, a), (S i, a)) <$> imap (λ i a, (i, a)) hints) as ->
      by (rewrite fmap_imap; by apply imap_ext).
    generalize (imap (λ i a, (i, a)) hints). induction l as [|[i x] l IH]; intros d0; cbn; [done|].
    apply IH. }
  rewrite (IH Hnd); [by rewrite <- (assoc_L (++))|].
  intros b Hb. unfold dkeys. rewrite fmap_app. cbn. intros [Hin|Hin]%elem_of_app.
  - apply (Hfresh b); [by right|done].
  - apply list_elem_of_singleton in Hin as ->. done.
Qed.

(** ** The two rounds *)

Section rounds.
Context (blocks : list nat) (expected : dict Actor Z).
Implicit Types (alloc : dict Actor (list nat)).

Definition quota (a : Actor) : Z := dget_def a 0 expected.

(** Every block is in [rest] or allocated, and nobody has too many. *)
Definition round_inv (rest : list nat) alloc : Prop :=
  rest ++ concat (dvalues alloc) ≡ₚ blocks ∧ dict_wf alloc ∧
  ∀ a l, dget a alloc = Some l → len l <= quota a.

Lemma dget_quota a : a ∈ dkeys expected → dget a expected = Some (quota a).
Proof.
  intros Ha. apply din_spec in Ha. unfold din, quota, dget_def in *.
  by destruct (dget a expected).
Qed.

Lemma first_rounds (node : Actor → option Node) hints by_node alloc :
  Forall (λ a, a ∈ dkeys expected ∧ 0 <= quota a) hints → NoDup hints →
  (∀ a, a ∈ hints → a ∉ dkeys alloc) → round_inv (concat (dvalues by_node)) alloc →
  ∃ by_node' alloc', foldM (first_round expected node) (by_node, alloc) hints = Ok (by_node', alloc') ∧
    round_inv (concat (dvalues by_node')) alloc' ∧ dkeys alloc' = dkeys alloc ++ hints.
Proof.
  intros Hq Hnd. revert by_node alloc.
  induction Hq as [|a hints [Ha Hqa] Hq IH]; intros by_node alloc Hfresh Hinv; cbn.
  { exists by_node, alloc. by rewrite app_nil_r. }
  apply NoDup_cons in Hnd as [Hna Hnd]. unfold dget_exn. rewrite (dget_quota a Ha). cbn.
  destruct (take_matching (Z.to_nat (quota a)) (dget_def (node a) [] by_node) []) as [m al] eqn:Ht.
  cbn. apply take_matching_spec in Ht as [Hp Hl]. rewrite app_nil_r in Hp.
  assert (a ∉ dkeys alloc) as Hfa by (apply Hfresh; left).
  assert (din a alloc = false) as Hdin by (destruct (din a alloc) eqn:E; [by apply din_spec in E|done]).
  destruct (IH Hnd (dset (node a) m by_node) (dset a al alloc)) as (bn & alc & E & Hinv' & Hk).
  - intros b Hb. rewrite elem_of_dkeys_dset. intros [->|Hin]; [done|].
    by apply (Hfresh b); [right|].
  - destruct Hinv as (Hperm & Hwf & Hcap). split_and!; [|by apply dset_wf|].
    + pose proof (concat_dset (node a) m by_node) as H1. pose proof (concat_dset a al alloc) as H2.
      rewrite (dget_def_not_in a []), app_nil_r in H2 by done. rewrite H2, <- Hperm.
      apply (Permutation_app_inv_r (dget_def (node a) [] by_node)).
      transitivity ((concat (dvalues (dset (node a) m by_node)) ++ dget_def (node a) [] by_node) ++
        concat (dvalues alloc) ++ al); [solve_Permutation|]. rewrite H1, Hp. solve_Permutation.
    + intros b l. rewrite dget_dset. case_decide; [intros [= <-]; subst|apply Hcap].
      cbn in Hl. unfold len. lia.
  - exists bn, alc. split_and!; [done|done|]. rewrite Hk, dkeys_dset, Hdin. by rewrite <- (assoc_L (++)).
Qed.

(** How many blocks are still to be given. *)
Definition missing alloc (l : list Actor) : Z :=
  sumZ ((λ a, quota a - len (dget_def a [] alloc)) <$> l).

Lemma missing_nonneg rest alloc l :
  round_inv rest alloc → (∀ a, a ∈ l → a ∈ dkeys alloc) → 0 <= missing alloc l.
Proof.
  intros (_ & _ & Hcap) Hl. unfold missing. induction l as [|a l IH]; [done|].
  cbn. rewrite sumZ_cons. assert (a ∈ dkeys alloc) as Ha by (apply Hl; left).
  apply din_spec in Ha. unfold din in Ha. unfold dget_def at 1.
  destruct (dget a alloc) as [x|] eqn:E; [|done]. apply Hcap in E. cbn.
  assert (0 <= missing alloc l) as H by (apply IH; intros; apply Hl; by right). unfold missing in H. lia.
Qed.

Lemma missing_dset a x alloc l : a ∉ l → missing (dset a x alloc) l = missing alloc l.
Proof.
  intros Ha. apply sumZ_fmap_ext. intros b Hb. rewrite dget_def_dset, decide_False; [done|].
  by intros ->.
Qed.

Lemma second_rounds hints rest alloc :
  Forall (λ a, a ∈ dkeys expected ∧ 0 <= quota a) hints → NoDup hints →
  (∀ a, a ∈ hints → a ∈ dkeys alloc) → round_inv rest alloc → len rest = missing alloc hints →
  ∃ alloc', foldM (second_round expected) (rest, alloc) hints = Ok ([], alloc') ∧
    round_inv [] alloc' ∧ dkeys alloc' = dkeys alloc ∧
    ∀ a, len (dget_def a [] alloc') =
      if decide (a ∈ hints) then quota a else len (dget_def a [] alloc).
Proof.
  intros Hq Hnd. revert rest alloc.
  induction Hq as [|a hints [Ha Hqa] Hq IH]; intros rest alloc Hin Hinv Hlen; cbn.
  { exists alloc. destruct rest; [|unfold len, missing, sumZ in Hlen; cbn in Hlen; lia].
    split_and!; [done|done|done|]. intros a. by rewrite decide_False by apply not_elem_of_nil. }
  apply NoDup_cons in Hnd as [Hna Hnd]. unfold dget_exn. rewrite (dget_quota a Ha). cbn.
  unfold missing in Hlen. cbn in Hlen. rewrite sumZ_cons in Hlen. fold (missing alloc hints) in Hlen.
  pose proof (missing_nonneg _ _ hints Hinv ltac:(intros; apply Hin; by right)) as Hnn.
  pose proof (missing_nonneg _ _ [a] Hinv ltac:(intros b ->%list_elem_of_singleton; apply Hin; left)) as Hna'.
  unfold missing in Hna'. cbn in Hna'. unfold sumZ in Hna'. cbn in Hna'.
  set (old := dget_def a [] alloc) in *.
  destruct (fill_allocation_spec (Z.to_nat (quota a - len old)) rest old)
    as (rest' & al & -> & Hp & Hal); [unfold len in *; lia|]. cbn.
  assert (din a alloc = true) as Hdin by (apply din_spec, Hin; left).
  assert (round_inv rest' (dset a al alloc)) as Hinv'.
  { destruct Hinv as (Hperm & Hwf & Hcap). split_and!; [|by apply dset_wf|].
    - pose proof (concat_dset a al alloc) as H2. fold old in H2. rewrite <- Hperm.
      apply (Permutation_app_inv_r old).
      rewrite <- (assoc_L (++)), H2. transitivity (concat (dvalues alloc) ++ (rest' ++ al));
        [solve_Permutation|]. rewrite <- Hp. solve_Permutation.
    - intros b l. rewrite dget_dset. case_decide; [intros [= <-]; subst|apply Hcap].
      unfold len in *. lia. }
  assert (length rest' + length al = length rest + length old)%nat as Hll.
  { apply Permutation_length in Hp. rewrite !length_app in Hp. lia. }
  destruct (IH Hnd rest' (dset a al alloc)) as (alc & E & Hinv2 & Hk & Hlens).
  - intros b Hb. apply elem_of_dkeys_dset. right. apply Hin. by right.
  - done.
  - rewrite missing_dset by done. unfold len in *. lia.
  - exists alc. split_and!; [done|done| |].
    + by rewrite Hk, dkeys_dset, Hdin.
    + intros b. rewrite Hlens. destruct (decide (b ∈ hints)) as [Hb|Hb].
      { rewrite decide_True; [done|by right]. }
      rewrite dget_def_dset. destruct (decide (b = a)) as [->|Hne].
      * rewrite decide_True by left. unfold len in *. lia.
      * rewrite decide_False; [done|]. by intros [|]%elem_of_cons.
Qed.
End rounds.

Lemma sum_lengths (alloc : dict Actor (list nat)) hints :
  dict_wf alloc → dkeys alloc = hints →
  sumZ ((λ a, len (dget_def a [] alloc)) <$> hints) = len (concat (dvalues alloc)).
Proof.
  intros Hwf <-. rewrite len_concat, <- (dvalues_of_keys [] alloc Hwf), <- list_fmap_compose. done.
Qed.

Lemma missing_all expected (alloc : dict Actor (list nat)) hints :
  dict_wf alloc → dkeys alloc = hints →
  missing expected alloc hints = sumZ (quota expected <$> hints) - len (concat (dvalues alloc)).
Proof.
  intros Hwf Hk. rewrite <- (sum_lengths _ _ Hwf Hk). unfold missing. clear.
  induction hints as [|a l IH]; [done|]. cbn. rewrite !sumZ_cons, IH. lia.
Qed.

Lemma size_map_quotas num_blocks n hints :
  NoDup hints → len hints = n → 0 < n → 0 <= num_blocks →
  let expected := build_allocation_size_map num_blocks n hints in
  dkeys expected = hints ∧ sumZ (quota expected <$> hints) = num_blocks ∧
  ∀ a, a ∈ hints → num_blocks / n <= quota expected a <= num_blocks / n + 1.
Proof.
  intros Hnd Hlen Hn Hb expected. unfold expected. rewrite size_map_spec by done.
  set (d := imap (λ i a, (a, share num_blocks n i)) hints).
  assert (dkeys d = hints) as Hk.
  { unfold d, dkeys. rewrite fmap_imap. unfold compose. cbn. clear.
    induction hints as [|a l IH]; cbn; [done|]. f_equal. exact IH. }
  assert (dict_wf d) as Hwf by (unfold dict_wf; by rewrite Hk).
  assert (dvalues d = imap (λ i _, share num_blocks n i) hints) as Hv.
  { unfold d, dvalues. by rewrite fmap_imap. }
  split_and!; [done| |].
  - unfold quota. rewrite <- Hk at 1. rewrite dvalues_of_keys, Hv by done.
    pose proof (sum_shares num_blocks n hints 0) as Hs. cbn in Hs. rewrite Hs, Hlen.
    pose proof (Z.mod_pos_bound num_blocks n Hn). rewrite Z.mod_eq in * by lia. lia.
  - intros a Ha. rewrite <- Hk in Ha. apply din_spec in Ha. unfold din, quota, dget_def in *.
    destruct (dget a d) as [v|] eqn:E; [|done]. cbn. apply dget_Some_elem in E.
    unfold d in E. apply elem_of_lookup_imap in E as (i & b & Heq & _). simplify_eq.
    unfold share. destruct (_ <? _); lia.
Qed.

(** With locality hints every block goes to exactly one actor, and each actor
    gets its fair number of blocks, wherever blocks and actors are. *)
Theorem locality_split_fair num_blocks n (location : nat → option Node)
    (node_id_by_actor : Actor → option Node) hints :
  NoDup hints → len hints = n → 0 < n →
  ∃ alloc, split_by_locality num_blocks n location node_id_by_actor hints = Ok alloc ∧
    length alloc = length hints ∧ concat alloc ≡ₚ seq 0 num_blocks ∧
    Forall (λ l, Z.of_nat num_blocks / n <= len l <= Z.of_nat num_blocks / n + 1) alloc.
Proof.
  intros Hnd Hlen Hn. unfold split_by_locality.
  rewrite (proj2 (Z.leb_gt n 0)) by lia. rewrite Hlen, Z.eqb_refl. cbn [negb]. cbv zeta.
  destruct (size_map_quotas (Z.of_nat num_blocks) n hints Hnd Hlen Hn ltac:(lia)) as (Hk & Hsum & Hq).
  set (expected := build_allocation_size_map (Z.of_nat num_blocks) n hints) in *.
  assert (Forall (λ a, a ∈ dkeys expected ∧ 0 <= quota expected a) hints) as Hall.
  { apply Forall_forall. intros a Ha. rewrite Hk. split; [done|].
    pose proof (Z.div_pos (Z.of_nat num_blocks) n ltac:(lia) Hn). specialize (Hq a Ha). lia. }
  set (bn := build_block_refs_by_node_id location (seq 0 num_blocks)).
  destruct (first_rounds (seq 0 num_blocks) expected node_id_by_actor hints bn [] Hall Hnd)
    as (bn' & al & E1 & Hinv & Hkeys).
  { intros a _. apply not_elem_of_nil. }
  { split_and!; [|constructor|done]. cbn. rewrite app_nil_r. apply by_node_perm. }
  match goal with |- context [foldM ?f ?x hints] =>
    replace (foldM f x hints) with (Ok (bn', al)) by exact (eq_sym E1) end.
  cbn [mbind result_bind]. change (dkeys al = hints) in Hkeys. pose proof Hinv as (Hperm & Hwf & _).
  destruct (second_rounds (seq 0 num_blocks) expected hints (concat (dvalues bn')) al Hall Hnd)
    as (al2 & -> & (Hperm2 & Hwf2 & _) & Hk2 & Hlens).
  { intros a Ha. by rewrite Hkeys. }
  { done. }
  { rewrite (missing_all _ _ _ Hwf Hkeys), Hsum. apply Permutation_length in Hperm.
    rewrite length_app, length_seq in Hperm. unfold len. lia. }
  cbn [mbind result_bind py_assert length Nat.eqb].
  exists ((λ a, dget_def a [] al2) <$> hints). split_and!; [done|by rewrite length_fmap| |].
  - rewrite <- Hkeys, <- Hk2, dvalues_of_keys by done. exact Hperm2.
  - apply Forall_fmap, Forall_forall. intros a Ha. unfold compose.
    rewrite Hlens, decide_True by done. by apply Hq.
Qed.
End locality_proofs.

Lemma locality_split_fair_witness :
  ∃ alloc, split_by_locality 5 2 (λ b, Some (b mod 2)%nat) (λ a, Some a) [1; 0]%nat = Ok alloc ∧
    length alloc = 2%nat ∧ concat alloc ≡ₚ seq 0 5 ∧ Forall (λ l, 5 / 2 <= len l <= 5 / 2 + 1) alloc.
Proof.
  apply (locality_split_fair 5 2 (λ b, Some (b mod 2)%nat) (λ a, Some a) [1; 0]%nat);
    [repeat constructor; set_solver|reflexivity|lia].
Defined.
