(* ===== verification/DataBatcher.v ===== *)
(** * Batches of a dataset (data/_internal/batcher.py, block_batching.py)

    A batcher buffers blocks and hands out batches of rows; [batch_blocks] feeds it
    the blocks of a dataset, through a sliding window of blocks that are prefetched.
    A block is a list of rows (simple_block.py).  Blocks live in an object store
    under references, from which [clear_block_after_read] frees them.  A generator
    is the list of what it yields with its outcome ([gen]). *)
From S2P Require Import Prelude PyLists.
From stdpp Require Import base tactics list gmap strings.

#[local] Open Scope Z_scope.

(** ** Generators *)

(** What a generator yields, and how it ends. *)
Definition gen (A S : Type) : Type := list A * result S.

Definition gbind {A S T} (g : gen A S) (k : S → gen A T) : gen A T :=
  match g.2 with
  | Ok s => (g.1 ++ (k s).1, (k s).2)
  | Err e => (g.1, Err e)
  end.

Definition greturn {A S} (s : S) : gen A S := ([], Ok s).
Definition gyield {A S} (a : A) (s : S) : gen A S := ([a], Ok s).
Definition glift {A S} (r : result S) : gen A S := ([], r).

(** ** The interface of the batchers *)

Class BatcherInterface (B R : Type) := {
  add : B → list R → result B;
  can_add : B → bool;
  done_adding : B → B;
  has_batch : B → bool;
  has_any : B → bool;
  next_batch : B → result (list R * B);
}.

(** ** Block builders *)

(** The rows of the underlying builder, once there is one, and the last empty
    block. *)
Record DelegatingBlockBuilder (R : Type) := {
  _builder : option (list R);
  _empty_block : option (list R);
}.
Arguments _builder {R} _.
Arguments _empty_block {R} _.

Section builder.
Context {R : Type}.
Implicit Types b : DelegatingBlockBuilder R.

Definition builder_init : DelegatingBlockBuilder R := {| _builder := None; _empty_block := None |}.

Definition add_block b (block : list R) : DelegatingBlockBuilder R :=
  if len block =? 0 then {| _builder := _builder b; _empty_block := Some block |}
  else {| _builder := Some (default [] (_builder b) ++ block); _empty_block := _empty_block b |}.

Definition build b : list R := default [] (_builder b).

Definition builder_num_rows b : Z :=
  match _builder b with Some rows => len rows | None => 0 end.
End builder.

(** [SimpleBlockAccessor.take] *)
Fixpoint take_rows {R} (items : list R) (indices : list Z) : result (list R) :=
  match indices with
  | [] => Ok []
  | i :: indices => r ← py_nth items i; rs ← take_rows items indices; Ok (r :: rs)
  end.

(** ** The plain batcher *)

Module Batcher.
Record Batcher (R : Type) := {
  _batch_size : option Z;
  _buffer : list (list R);
  _buffer_size : Z;
  _done_adding : bool;
}.
Arguments _batch_size {R} _.
Arguments _buffer {R} _.
Arguments _buffer_size {R} _.
Arguments _done_adding {R} _.

Section batcher.
Context {R : Type}.
Implicit Types (b : Batcher R) (block : list R).

Definition batcher_init (batch_size : option Z) : Batcher R :=
  {| _batch_size := batch_size; _buffer := []; _buffer_size := 0; _done_adding := false |}.

Definition b_can_add b : bool := negb (_done_adding b).

Definition b_add b block : result (Batcher R) :=
  _ ← py_assert (b_can_add b);
  Ok {| _batch_size := _batch_size b; _buffer := _buffer b ++ [block];
        _buffer_size := _buffer_size b + len block; _done_adding := _done_adding b |}.

Definition b_done_adding b : Batcher R :=
  {| _batch_size := _batch_size b; _buffer := _buffer b; _buffer_size := _buffer_size b;
     _done_adding := true |}.

Definition b_has_batch b : bool :=
  match _buffer b with
  | [] => false
  | _ => match _batch_size b with None => true | Some n => n <=? _buffer_size b end
  end.

Definition b_has_any b : bool := 0 <? _buffer_size b.

(** One iteration of the loop over the buffer: what the batch still needs, the
    batch so far and the leftovers. *)
Definition fill_step (s : Z * DelegatingBlockBuilder R * list (list R)) (block : list R) :
    Z * DelegatingBlockBuilder R * list (list R) :=
  let '(needed, output, leftover) := s in
  if needed <=? 0 then (needed, output, leftover ++ [block])
  else if len block <=? needed then
    (needed - len block, add_block output (py_slice 0 (Some (len block)) block), leftover)
  else
    (0, add_block output (py_slice 0 (Some needed) block),
     leftover ++ [py_slice needed (Some (len block)) block]).

Definition b_next_batch b : result (list R * Batcher R) :=
  _ ← py_assert (b_has_batch b || (_done_adding b && b_has_any b));
  match _batch_size b with
  | None =>
      _ ← py_assert (length (_buffer b) =? 1)%nat;
      block ← of_option IndexError (_buffer b !! 0%nat);
      Ok (block, {| _batch_size := None; _buffer := []; _buffer_size := 0;
                    _done_adding := _done_adding b |})
  | Some batch_size =>
      let '(_, output, leftover) := fold_left fill_step (_buffer b) (batch_size, builder_init, []) in
      Ok (build output,
          {| _batch_size := Some batch_size; _buffer := leftover;
             _buffer_size := _buffer_size b - batch_size; _done_adding := _done_adding b |})
  end.

#[export] Instance batcher_interface : BatcherInterface (Batcher R) R := {|
  add := b_add; can_add := b_can_add; done_adding := b_done_adding;
  has_batch := b_has_batch; has_any := b_has_any; next_batch := b_next_batch |}.
End batcher.
End Batcher.

(** ** The shuffling batcher *)

(** The module [random]: its state [S], [random.seed] and [random.shuffle]. *)
Class RandomModule (S : Type) := {
  seed : Z → S;
  shuffle : S → list Z → list Z * S;
}.

Module Shuffling.
(** [_random] is the state of the module [random]. *)
Record ShufflingBatcher (S R : Type) := {
  s_batch_size : Z;
  _buffer_capacity : Z;
  _buffer_min_size : Z;
  s_builder : DelegatingBlockBuilder R;
  _shuffle_buffer : option (list R);
  _shuffle_indices : option (list Z);
  _batch_head : Z;
  s_done_adding : bool;
  _random : S;
}.
Arguments s_batch_size {S R} _.
Arguments _buffer_capacity {S R} _.
Arguments _buffer_min_size {S R} _.
Arguments s_builder {S R} _.
Arguments _shuffle_buffer {S R} _.
Arguments _shuffle_indices {S R} _.
Arguments _batch_head {S R} _.
Arguments s_done_adding {S R} _.
Arguments _random {S R} _.

Section shuffling.
Context {S R : Type} `{RandomModule S}.
Implicit Types (b : ShufflingBatcher S R) (block : list R).

Definition s_init (batch_size : option Z) (shuffle_buffer_min_size : Z)
    (shuffle_seed : option Z) (random : S) : result (ShufflingBatcher S R) :=
  match batch_size with
  | None => Err ValueError
  | Some batch_size =>
      let min_size :=
        if shuffle_buffer_min_size <? batch_size then batch_size else shuffle_buffer_min_size in
      Ok {| s_batch_size := batch_size;
            _buffer_capacity := Z.max (2 * min_size) (min_size + batch_size);
            _buffer_min_size := min_size;
            s_builder := builder_init; _shuffle_buffer := None; _shuffle_indices := None;
            _batch_head := 0; s_done_adding := false;
            _random := match shuffle_seed with Some s => seed s | None => random end |}
  end.

Definition s_buffer_size b : Z :=
  let buffer_size := builder_num_rows (s_builder b) in
  match _shuffle_buffer b with
  | Some buf => buffer_size + (len buf - _batch_head b)
  | None => buffer_size
  end.

Definition s_can_add b : bool :=
  (s_buffer_size b <=? _buffer_capacity b) && negb (s_done_adding b).

Definition with_buffer b (bld : DelegatingBlockBuilder R) (buf : option (list R))
    (idx : option (list Z)) (head : Z) (rnd : S) : ShufflingBatcher S R :=
  {| s_batch_size := s_batch_size b; _buffer_capacity := _buffer_capacity b;
     _buffer_min_size := _buffer_min_size b; s_builder := bld; _shuffle_buffer := buf;
     _shuffle_indices := idx; _batch_head := head; s_done_adding := s_done_adding b;
     _random := rnd |}.

Definition s_add b block : result (ShufflingBatcher S R) :=
  _ ← py_assert (s_can_add b);
  Ok (with_buffer b (add_block (s_builder b) block) (_shuffle_buffer b) (_shuffle_indices b)
        (_batch_head b) (_random b)).

Definition s_done b : ShufflingBatcher S R :=
  {| s_batch_size := s_batch_size b; _buffer_capacity := _buffer_capacity b;
     _buffer_min_size := _buffer_min_size b; s_builder := s_builder b;
     _shuffle_buffer := _shuffle_buffer b; _shuffle_indices := _shuffle_indices b;
     _batch_head := _batch_head b; s_done_adding := true; _random := _random b |}.

Definition s_has_any b : bool := 0 <? s_buffer_size b.

Definition s_has_batch b : bool :=
  let buffer_size := s_buffer_size b in
  (_buffer_min_size b <=? buffer_size - s_batch_size b)
  || (s_done_adding b && (s_batch_size b <=? buffer_size)).

(** [take(self._shuffle_indices[self._batch_head:])]: slicing [None] raises. *)
Definition unyielded (idx : option (list Z)) (head : Z) (buf : list R) : result (list R) :=
  indices ← of_option TypeError idx; take_rows buf (py_slice head None indices).

(** The first part of [next_batch]: the rows in the builder join the shuffle
    buffer. *)
Definition materialize b : result (ShufflingBatcher S R) :=
  if 0 <? builder_num_rows (s_builder b) then
    bld ← match _shuffle_buffer b with
          | Some buf =>
              buf ← (if 0 <? _batch_head b
                     then unyielded (_shuffle_indices b) (_batch_head b) buf else Ok buf);
              Ok (add_block (s_builder b) buf)
          | None => Ok (s_builder b)
          end;
    Ok (with_buffer b builder_init (Some (build bld)) None 0 (_random b))
  else Ok b.

(** [list(range(n))] *)
Definition range (n : Z) : list Z := Z.of_nat <$> seq 0 (Z.to_nat n).

Definition s_next_batch b : result (list R * ShufflingBatcher S R) :=
  _ ← py_assert (s_has_batch b || (s_done_adding b && s_has_any b));
  b ← materialize b;
  buf ← of_option AssertionError (_shuffle_buffer b);
  let buffer_size := len buf in
  let batch_size := Z.min (s_batch_size b) buffer_size in
  let '(indices, rnd) :=
    match _shuffle_indices b with
    | Some indices => (indices, _random b)
    | None => shuffle (_random b) (range buffer_size)
    end in
  let batch_indices := py_slice (_batch_head b) (Some (_batch_head b + batch_size)) indices in
  batch ← take_rows buf batch_indices;
  Ok (batch, with_buffer b (s_builder b) (Some buf) (Some indices) (_batch_head b + batch_size) rnd).

#[export] Instance shuffling_interface : BatcherInterface (ShufflingBatcher S R) R := {|
  add := s_add; can_add := s_can_add; done_adding := s_done;
  has_batch := s_has_batch; has_any := s_has_any; next_batch := s_next_batch |}.
End shuffling.
End Shuffling.
Export Batcher Shuffling.

(** ** Batching the blocks of a dataset *)

(** What a block converts to: [to_native] returns the block, the others are those
    of pandas, pyarrow and numpy. *)
Class BatchFormats (R T : Type) := {
  to_native : list R → T;
  to_pandas : list R → result T;
  to_arrow : list R → result T;
  to_numpy : list R → result T;
}.

Definition _format_batch {R T} `{BatchFormats R T} (batch : list R) (batch_format : string) :
    result T :=
  if decide (batch_format = "native"%string) then Ok (to_native batch)
  else if decide (batch_format = "pandas"%string) then to_pandas batch
  else if decide (batch_format = "pyarrow"%string) then to_arrow batch
  else if decide (batch_format = "numpy"%string) then to_numpy batch
  else Err ValueError.

(** References to blocks, and the blocks in the object store. *)
Abbreviation ref := Z.
Abbreviation store R := (gmap Z (list R)).

(** [ray.get]; an object that was freed is not there. *)
Definition get_object {R} (st : store R) (r : ref) : result (list R) := of_option RayError (st !! r).

(** What [ray.wait] checks of its arguments. *)
Definition ray_wait (refs : list ref) (num_returns : Z) : result unit :=
  if len refs =? 0 then Ok tt
  else if negb (bool_decide (NoDup refs)) then Err ValueError
  else if num_returns <=? 0 then Err ValueError
  else if len refs <? num_returns then Err ValueError
  else Ok tt.

Inductive BlockPrefetcher := WaitBlockPrefetcher | ActorBlockPrefetcher.

Definition prefetch (p : BlockPrefetcher) (refs : list ref) : result unit :=
  match p with WaitBlockPrefetcher => ray_wait refs 1 | ActorBlockPrefetcher => Ok tt end.

Section batching.
Context {B R T : Type} `{BatcherInterface B R} `{BatchFormats R T}.
Context (batch_format : string) (drop_last : bool).
Context (fuel : nat).

(** One batch, formatted and yielded. *)
Definition yield_batch (b : B) : gen T B :=
  match next_batch b with
  | Ok (batch, b) => match _format_batch batch batch_format with
                     | Ok t => gyield t b
                     | Err e => glift (Err e)
                     end
  | Err e => glift (Err e)
  end.

(** [while batcher.has_batch()] *)
Fixpoint drain_batches (fuel : nat) (b : B) : gen T B :=
  if has_batch b then
    match fuel with
    | O => glift (Err OutOfFuel)
    | S fuel => gbind (yield_batch b) (drain_batches fuel)
    end
  else greturn b.

(** [get_batches(block)] *)
Definition get_batches_block (st : store R) (block : ref) (b : B) : gen T B :=
  gbind (glift (blk ← get_object st block; add b blk)) (drain_batches fuel).

(** [get_batches()] *)
Definition get_batches_rest (b : B) : gen T B :=
  gbind (drain_batches fuel (done_adding b)) (λ b,
  if negb drop_last && has_any b then yield_batch b else greturn b).

(** The body of the loop over the windows. *)
Definition consume_window (p : BlockPrefetcher) (window : list ref) (s : store R * B) :
    gen T (store R * B) :=
  gbind (glift (_ ← prefetch p window; of_option IndexError (window !! 0%nat))) (λ r,
  gbind (get_batches_block s.1 r s.2) (λ b, greturn (s.1, b))).

(** [ray._private.internal_api.free] *)
Definition free (r : ref) (st : store R) : store R := delete r st.

(** [for elem in it] of [_sliding_window], with the consumer of each window. *)
Fixpoint slide (p : BlockPrefetcher) (clear_block_after_read : bool) (it : list ref)
    (window : list ref) (s : store R * B) : gen T (list ref * (store R * B)) :=
  match it with
  | [] => greturn (window, s)
  | elem :: it =>
      match window with
      | [] => glift (Err IndexError)
      | block_ref :: window =>
          let st := if clear_block_after_read then free block_ref s.1 else s.1 in
          let window := window ++ [elem] in
          gbind (consume_window p window (st, s.2)) (slide p clear_block_after_read it window)
      end
  end.

(** [for block_window in _sliding_window(blocks, n, clear_block_after_read)]; the
    last window is what the loop variable holds afterwards. *)
Definition sliding_window (p : BlockPrefetcher) (blocks : list ref) (n : Z)
    (clear_block_after_read : bool) (s : store R * B) : gen T (list ref * (store R * B)) :=
  if n <? 0 then glift (Err ValueError)
  else
    let window := take (Z.to_nat n) blocks in
    gbind (if 0 <? len window then consume_window p window s else greturn s)
          (slide p clear_block_after_read (drop (Z.to_nat n) blocks) window).

(** [for block in block_window[1:]] *)
Fixpoint consume_rest (window : list ref) (s : store R * B) : gen T (store R * B) :=
  match window with
  | [] => greturn s
  | r :: window => gbind (get_batches_block s.1 r s.2) (λ b, consume_rest window (s.1, b))
  end.

(** [batch_blocks], once the batcher is made. *)
Definition batch_blocks (actor_prefetcher_enabled client_connected : bool) (blocks : list ref)
    (prefetch_blocks : Z) (clear_block_after_read : bool) (st : store R) (batcher : B) :
    gen T (store R * B) :=
  let prefetcher :=
    if (0 <? prefetch_blocks) && actor_prefetcher_enabled && negb client_connected
    then ActorBlockPrefetcher else WaitBlockPrefetcher in
  gbind (sliding_window prefetcher blocks (prefetch_blocks + 1) clear_block_after_read (st, batcher))
    (λ '(block_window, s),
  gbind (consume_rest (drop 1 block_window) s) (λ s,
  gbind (get_batches_rest s.2) (λ b, greturn (s.1, b)))).
End batching.

(** The batchers that [batch_blocks] makes. *)
Definition batch_blocks_plain {R T} `{BatchFormats R T} (batch_format : string) (drop_last : bool)
    (fuel : nat) (enabled connected : bool) (blocks : list ref) (prefetch_blocks : Z)
    (clear_block_after_read : bool) (st : store R) (batch_size : option Z) :
    gen T (store R * Batcher R) :=
  batch_blocks batch_format drop_last fuel enabled connected blocks prefetch_blocks
    clear_block_after_read st (batcher_init batch_size).

Definition batch_blocks_shuffled {S R T} `{RandomModule S} `{BatchFormats R T}
    (batch_format : string) (drop_last : bool) (fuel : nat) (enabled connected : bool)
    (blocks : list ref) (prefetch_blocks : Z) (clear_block_after_read : bool) (st : store R)
    (batch_size : option Z) (shuffle_buffer_min_size : Z) (shuffle_seed : option Z) (random : S) :
    gen T (store R * ShufflingBatcher S R) :=
  match s_init batch_size shuffle_buffer_min_size shuffle_seed random with
  | Ok batcher =>
      batch_blocks batch_format drop_last fuel enabled connected blocks prefetch_blocks
        clear_block_after_read st batcher
  | Err e => glift (Err e)
  end.
