(* ===== verification/DataBatcherProofs.v ===== *)
(** * Batches: proofs

    The laws of a batcher ([BatcherLaws]) speak of the rows it holds, up to a
    relation on rows: equality for the plain batcher, permutation for the shuffling
    one.  [batch_blocks] is proved once, against the laws; the batchers discharge
    them. *)
From S2P Require Import Prelude PyLists DataBatcher.
From stdpp Require Import base tactics list gmap strings sorting.

#[local] Open Scope Z_scope.

(** The batches made of [rows], up to [rel]: all full but the last, which is
    missing rather than incomplete when [drop_last] holds. *)
Definition batched {R} (rel : relation (list R)) (bs : Z) (drop_last : bool) (rows : list R)
    (batches : list (list R)) : Prop :=
  ∃ full rest dropped,
    batches = full ++ rest ∧ Forall (λ l, len l = bs) full ∧
    rel rows (concat batches ++ dropped) ∧
    if drop_last then rest = [] ∧ len dropped < bs
    else dropped = [] ∧ (rest = [] ∨ ∃ l, rest = [l] ∧ 0 < len l < bs).

Lemma gbind_lift {A S U} (s : S) (k : S → gen A U) : gbind (glift (Ok s)) k = k s.
Proof. unfold gbind. cbn. by destruct (k s). Qed.

(** ** The laws *)

Class BatcherLaws (B R : Type) `{BatcherInterface B R} (bs : Z) (rel : relation (list R)) := {
  rel_equiv :: Equivalence rel;
  rel_app :: Proper (rel ==> rel ==> rel) app;
  rel_len :: Proper (rel ==> eq) len;
  batch_pos : 0 < bs;
  inv : B → Prop;
  pending : B → list R;
  finished : B → bool;
  can_add_spec b : inv b → finished b = false → has_batch b = false → can_add b = true;
  add_spec b blk : inv b → can_add b = true →
    ∃ b', add b blk = Ok b' ∧ inv b' ∧ finished b' = finished b ∧
          rel (pending b ++ blk) (pending b');
  done_spec b : inv b →
    inv (done_adding b) ∧ finished (done_adding b) = true ∧ pending (done_adding b) = pending b;
  has_batch_size b : inv b → has_batch b = true → bs <= len (pending b);
  has_batch_done b : inv b → finished b = true → bs <= len (pending b) → has_batch b = true;
  has_any_spec b : inv b → has_any b = (0 <? len (pending b));
  next_spec b : inv b → has_batch b = true ∨ (finished b = true ∧ 0 < len (pending b)) →
    ∃ out b', next_batch b = Ok (out, b') ∧ inv b' ∧ finished b' = finished b ∧
              rel (pending b) (out ++ pending b') ∧ len out = Z.min bs (len (pending b));
}.

(** ** Feeding a lawful batcher *)

Section batching.
Context {B R T : Type} `{BatcherInterface B R, BatchFormats R T}.
Context (bs : Z) (rel : relation (list R)) `{!BatcherLaws B R bs rel}.
Context (batch_format : string) (drop_last : bool) (fuel : nat).
Context (conv : list R → T).
Hypothesis format_ok : ∀ l, _format_batch l batch_format = Ok (conv l).

(** A generator that yields converted batches and returns, such that [Q]. *)
Definition gpost {S} (g : gen T S) (Q : list (list R) → S → Prop) : Prop :=
  ∃ batches s, g = (conv <$> batches, Ok s) ∧ Q batches s.

Lemma gpost_bind {S U} (g : gen T S) (k : S → gen T U) Q Q' :
  gpost g Q → (∀ l s, Q l s → gpost (k s) (λ l', Q' (l ++ l'))) → gpost (gbind g k) Q'.
Proof.
  intros (l & s & -> & Hq) Hk. destruct (Hk l s Hq) as (l' & u & Hr & Hq').
  exists (l ++ l'), u. split; [|done]. unfold gbind. cbn. rewrite Hr. cbn.
  by rewrite fmap_app.
Qed.

Lemma gpost_return {S} (s : S) (Q : list (list R) → S → Prop) : Q [] s → gpost (greturn s) Q.
Proof. intros. by exists [], s. Qed.

Lemma gpost_lift {S} (r : result S) s (Q : list (list R) → S → Prop) :
  r = Ok s → Q [] s → gpost (glift r) Q.
Proof. intros ->. by exists [], s. Qed.

Lemma gpost_mono {S} (g : gen T S) (Q Q' : list (list R) → S → Prop) :
  gpost g Q → (∀ l s, Q l s → Q' l s) → gpost g Q'.
Proof. intros (l & s & -> & Hq) HQ. exists l, s. auto. Qed.

(** [b] is given [new] rows, yields [batches] and becomes [b']. *)
Definition feeds (b : B) (new : list R) (batches : list (list R)) (b' : B) : Prop :=
  inv b' ∧ finished b' = finished b ∧ has_batch b' = false ∧
  rel (pending b ++ new) (concat batches ++ pending b') ∧ Forall (λ l, len l = bs) batches.

Lemma feeds_nil b : inv b → has_batch b = false → feeds b [] [] b.
Proof. intros. repeat split; auto. by rewrite app_nil_r. Qed.

Lemma feeds_app b n1 l1 b1 n2 l2 b2 :
  feeds b n1 l1 b1 → feeds b1 n2 l2 b2 → feeds b (n1 ++ n2) (l1 ++ l2) b2.
Proof.
  intros (I1 & F1 & H1 & R1 & S1) (I2 & F2 & H2 & R2 & S2).
  repeat split; [done|congruence|done| |by apply Forall_app].
  rewrite concat_app. etrans; [|by rewrite <- app_assoc, <- R2].
  rewrite !app_assoc. by rewrite R1.
Qed.

Lemma feeds_len b new l b' : feeds b new l b' → len (pending b') <= len (pending b) + len new.
Proof.
  intros (_ & _ & _ & Hr & _). apply rel_len in Hr. rewrite !len_app in Hr.
  pose proof (len_nonneg (concat l)). lia.
Qed.

Lemma yield_batch_spec b :
  inv b → has_batch b = true ∨ (finished b = true ∧ 0 < len (pending b)) →
  gpost (yield_batch batch_format b) (λ l b', ∃ out, l = [out] ∧ inv b' ∧
    finished b' = finished b ∧ rel (pending b) (out ++ pending b') ∧
    len out = Z.min bs (len (pending b))).
Proof.
  intros Hi Hb. destruct (next_spec b Hi Hb) as (out & b' & Hn & Hrest).
  exists [out], b'. unfold yield_batch. rewrite Hn, format_ok. split; [done|].
  by exists out.
Qed.

(** The loop over the full batches ends. *)
Lemma drain_spec f b :
  inv b → len (pending b) <= Z.of_nat f → gpost (drain_batches batch_format f b) (feeds b []).
Proof.
  revert b. pose proof batch_pos.
  induction f as [|f IH]; intros b Hi Hf; cbn [drain_batches]; destruct (has_batch b) eqn:Hb.
  - pose proof (has_batch_size b Hi Hb). lia.
  - apply gpost_return, feeds_nil; done.
  - pose proof (has_batch_size b Hi Hb) as Hsz.
    eapply gpost_bind; [apply yield_batch_spec; auto|]. cbn.
    intros l b' (out & -> & Hi' & Hf' & Hr & Hl). rewrite Z.min_l in Hl by lia.
    pose proof (rel_len _ _ Hr) as Hrl. rewrite len_app in Hrl.
    eapply gpost_mono; [apply IH; [done|lia]|].
    intros l' b2 (I2 & F2 & H2 & R2 & S2). repeat split; [done|congruence|done| |by constructor].
    rewrite app_nil_r in *. cbn. by rewrite <- app_assoc, <- R2.
  - apply gpost_return, feeds_nil; done.
Qed.

(** *** One block *)

Lemma get_batches_block_spec st r blk b :
  inv b → finished b = false → has_batch b = false → st !! r = Some blk →
  len (pending b) + len blk <= Z.of_nat fuel →
  gpost (get_batches_block batch_format fuel st r b) (feeds b blk).
Proof.
  intros Hi Hf Hb Hr Hfuel.
  destruct (add_spec b blk Hi (can_add_spec b Hi Hf Hb)) as (b1 & Ha & Hi1 & Hf1 & Hr1).
  pose proof (rel_len _ _ Hr1) as Hl. rewrite len_app in Hl.
  eapply (gpost_bind _ _ (λ l b', l = [] ∧ b' = b1)).
  - eapply gpost_lift; [|done]. unfold get_object. rewrite Hr. exact Ha.
  - intros ? ? [-> ->]. eapply gpost_mono; [apply drain_spec; [done|lia]|].
    intros l b2 (I2 & F2 & H2 & R2 & S2). repeat split; [done|congruence|done| |done].
    rewrite app_nil_r in R2. cbn. by rewrite Hr1.
Qed.

(** The state of the batcher between blocks. *)
Definition ready (b : B) : Prop := inv b ∧ finished b = false ∧ has_batch b = false.

Lemma feeds_ready b new l b' : ready b → feeds b new l b' → ready b'.
Proof. intros (_ & Hf & _) (I & F & Hb & _). repeat split; congruence. Qed.

(** *** The remaining blocks of the last window *)

(** The references [rs] hold the blocks [blk]. *)
Definition holds (st : store R) (blk : ref → list R) (rs : list ref) : Prop :=
  Forall (λ r, st !! r = Some (blk r)) rs.

Definition rows_of (blk : ref → list R) (rs : list ref) : list R := concat (blk <$> rs).

Lemma rows_of_app blk l1 l2 : rows_of blk (l1 ++ l2) = rows_of blk l1 ++ rows_of blk l2.
Proof. unfold rows_of. by rewrite fmap_app, concat_app. Qed.

Lemma len_rows_of_cons blk r rs :
  len (rows_of blk (r :: rs)) = len (blk r) + len (rows_of blk rs).
Proof. unfold rows_of. cbn. apply len_app. Qed.

Lemma consume_rest_spec blk st rs b :
  ready b → holds st blk rs → len (pending b) + len (rows_of blk rs) <= Z.of_nat fuel →
  gpost (consume_rest batch_format fuel rs (st, b)) (λ l s, s.1 = st ∧ feeds b (rows_of blk rs) l s.2).
Proof.
  revert b; induction rs as [|r rs IH]; intros b Hrdy Hst Hfuel; cbn [consume_rest].
  - apply gpost_return. split; [done|]. apply feeds_nil; apply Hrdy.
  - inversion_clear Hst as [|?? Hr Hst']. rewrite len_rows_of_cons in Hfuel.
    pose proof (len_nonneg (rows_of blk rs)).
    destruct Hrdy as (Hi & Hfin & Hb).
    eapply gpost_bind; [apply (get_batches_block_spec _ _ (blk r)); cbn; auto; lia|]. cbn.
    intros l b1 Hfd. pose proof (feeds_len _ _ _ _ Hfd).
    eapply gpost_mono; [apply IH; [by eapply feeds_ready|done|lia]|].
    intros l' s [-> Hfd']. split; [done|]. by eapply (feeds_app _ (blk r)).
Qed.

(** *** The windows *)

Lemma prefetch_ok p rs : NoDup rs → rs ≠ [] → prefetch p rs = Ok tt.
Proof.
  intros Hnd Hne. destruct p; [|done]. cbn. unfold ray_wait.
  assert (1 <= len rs) by (destruct rs; [done|]; rewrite len_cons; pose proof (len_nonneg rs); lia).
  rewrite bool_decide_true by done. rewrite (proj2 (Z.eqb_neq _ _)) by lia. cbn.
  by rewrite (proj2 (Z.ltb_ge _ _)) by lia.
Qed.

Lemma consume_window_spec p blk st r window b :
  ready b → NoDup (r :: window) → st !! r = Some (blk r) →
  len (pending b) + len (blk r) <= Z.of_nat fuel →
  gpost (consume_window batch_format fuel p (r :: window) (st, b))
        (λ l s, s.1 = st ∧ feeds b (blk r) l s.2).
Proof.
  intros (Hi & Hfin & Hb) Hnd Hr Hfuel.
  eapply (gpost_bind _ _ (λ l r', l = [] ∧ r' = r)).
  - eapply gpost_lift; [|done]. by rewrite prefetch_ok.
  - intros ? ? [-> ->]. eapply gpost_bind; [by apply (get_batches_block_spec _ _ (blk r))|].
    cbn. intros l b' Hfd. apply gpost_return. by rewrite app_nil_r.
Qed.

(** What is read after the head of the window: every reference of [rs] but those
    of the last window's tail, which are still in the store. *)
Lemma slide_spec p clear blk it r window st b :
  ready b → NoDup (r :: window ++ it) → holds st blk (window ++ it) →
  len (pending b) + len (rows_of blk (window ++ it)) <= Z.of_nat fuel →
  gpost (slide batch_format fuel p clear it (r :: window) (st, b)) (λ l '(win, s),
    ∃ read x tl, win = x :: tl ∧ window ++ it = read ++ tl ∧ holds s.1 blk tl ∧
                 feeds b (rows_of blk read) l s.2).
Proof.
  revert r window st b; induction it as [|e it IH]; intros r window st b Hrdy Hnd Hst Hfuel;
    cbn [slide].
  - apply gpost_return. exists [], r, window. rewrite app_nil_r in *.
    split_and!; [done..|]. apply feeds_nil; apply Hrdy.
  - assert (∃ r1 w1, window ++ [e] = r1 :: w1) as (r1 & w1 & Hw1)
      by (destruct window; cbn; eauto).
    assert (window ++ e :: it = r1 :: w1 ++ it) as Hall
      by (change (e :: it) with ([e] ++ it); by rewrite app_assoc, Hw1).
    rewrite Hall in *. rewrite Hw1.
    set (st1 := if clear then free r st else st).
    apply NoDup_cons in Hnd as [Hr Hnd].
    assert (holds st1 blk (r1 :: w1 ++ it)) as Hst1.
    { unfold st1. destruct clear; [|done]. apply Forall_forall. intros x Hx.
      unfold free. rewrite lookup_delete_ne by (intros ->; done).
      eapply Forall_forall in Hst; done. }
    inversion_clear Hst1 as [|?? Hr1 Hrest].
    rewrite len_rows_of_cons in Hfuel. pose proof (len_nonneg (rows_of blk (w1 ++ it))).
    eapply gpost_bind; [apply (consume_window_spec p blk); [done| |done|cbn; lia]|].
    { rewrite app_comm_cons in Hnd. by apply NoDup_app in Hnd as (? & _ & _). }
    cbn. intros l [st2 b1] [Hs Hfd]. cbn in Hs, Hfd. rewrite Hs. clear st2 Hs. pose proof (feeds_len _ _ _ _ Hfd).
    eapply gpost_mono; [apply IH; [by eapply feeds_ready|done|done|lia]|].
    intros l' [win s] (read & x & tl & -> & Heq & Hh & Hfd').
    exists (r1 :: read), x, tl. rewrite Heq. split_and!; [done..|].
    change (r1 :: read) with ([r1] ++ read). rewrite rows_of_app.
    eapply feeds_app; [|done]. unfold rows_of. cbn. by rewrite app_nil_r.
Qed.

(** Every reference is read in order, up to the tail of the last window. *)
Lemma sliding_window_spec p clear blk rs n st b :
  ready b → NoDup rs → holds st blk rs → 0 < n →
  len (pending b) + len (rows_of blk rs) <= Z.of_nat fuel →
  gpost (sliding_window batch_format fuel p rs n clear (st, b)) (λ l '(win, s),
    ∃ read, rs = read ++ drop 1 win ∧ holds s.1 blk (drop 1 win) ∧
            feeds b (rows_of blk read) l s.2).
Proof.
  intros Hrdy Hnd Hst Hn Hfuel. unfold sliding_window.
  rewrite (proj2 (Z.ltb_ge _ _)) by lia. destruct rs as [|r rs].
  { rewrite take_nil, drop_nil. cbn. eapply gpost_bind; [by apply gpost_return with (Q := λ l s, l = [] ∧ s = (st, b))|].
    intros ? ? [-> ->]. apply gpost_return. exists []. split_and!; [done..|]. by apply feeds_nil; apply Hrdy. }
  destruct (Z.to_nat n) as [|k] eqn:Hk; [lia|]. cbn [take drop].
  rewrite len_cons, (proj2 (Z.ltb_lt _ _)) by (pose proof (len_nonneg (take k rs)); lia).
  assert (r :: rs = r :: take k rs ++ drop k rs) as Hrs by (by rewrite take_drop).
  inversion_clear Hst as [|?? Hr Hrest].
  rewrite len_rows_of_cons in Hfuel.
  pose proof (len_nonneg (rows_of blk rs)).
  eapply gpost_bind; [apply (consume_window_spec p blk); [done| |done|cbn; lia]|].
  { rewrite Hrs, app_comm_cons in Hnd. by apply NoDup_app in Hnd as (? & _ & _). }
  cbn. intros l [st2 b1] [Hs Hfd]. cbn in Hs, Hfd. rewrite Hs. clear st2 Hs. pose proof (feeds_len _ _ _ _ Hfd).
  eapply gpost_mono; [apply (slide_spec p clear blk); rewrite ?take_drop;
    [by eapply feeds_ready|done|done|lia]|].
  intros l' [win s] (read & x & tl & -> & Heq & Hh & Hfd').
  exists (r :: read). rewrite take_drop in Heq. rewrite Heq. cbn. split_and!; [done..|].
  change (rows_of blk (r :: read)) with (blk r ++ rows_of blk read). by eapply feeds_app.
Qed.

(** *** The remaining rows *)

Lemma get_batches_rest_spec b rows l0 b0 :
  ready b0 → feeds b0 rows l0 b → pending b0 = [] → len (pending b) <= Z.of_nat fuel →
  gpost (get_batches_rest batch_format drop_last fuel b)
        (λ l _, batched rel bs drop_last rows (l0 ++ l)).
Proof.
  intros Hrdy Hfd Hp0 Hfuel. pose proof (feeds_ready _ _ _ _ Hrdy Hfd) as (Hi & _ & _).
  destruct Hfd as (_ & _ & _ & Hrel & Hsz). rewrite Hp0 in Hrel. cbn in Hrel.
  destruct (done_spec b Hi) as (Hid & Hfd & Hpd). unfold get_batches_rest.
  eapply gpost_bind; [apply drain_spec; [done|by rewrite Hpd]|]. cbn.
  intros l b' (I2 & F2 & H2 & R2 & S2). rewrite app_nil_r, Hpd in R2. rewrite Hfd in F2.
  assert (len (pending b') < bs) as Hlt.
  { destruct (Z_lt_ge_dec (len (pending b')) bs); [done|].
    rewrite has_batch_done in H2 by (done || lia). done. }
  assert (rel rows (concat (l0 ++ l) ++ pending b')) as Hall
    by (rewrite concat_app, <- app_assoc, <- R2; exact Hrel).
  assert (Forall (λ l, len l = bs) (l0 ++ l)) as Hfull by (by apply Forall_app).
  rewrite has_any_spec by done. destruct drop_last; cbn.
  - apply gpost_return. rewrite app_nil_r. exists (l0 ++ l), [], (pending b').
    by rewrite app_nil_r.
  - destruct (0 <? len (pending b')) eqn:Hany; [apply Z.ltb_lt in Hany|apply Z.ltb_ge in Hany].
    + eapply gpost_mono; [apply yield_batch_spec; auto|]. cbn.
      intros l' b2 (out & -> & I3 & F3 & R3 & S3). rewrite Z.min_r in S3 by lia.
      assert (pending b2 = []) as Hnil.
      { apply rel_len in R3. rewrite len_app in R3. apply nil_length_inv. unfold len in *. lia. }
      rewrite Hnil, app_nil_r in R3. exists (l0 ++ l), [out], []. rewrite !app_assoc.
      split_and!; [done|done| |done|right; exists out; split; [done|lia]].
      rewrite concat_app. cbn. rewrite !app_nil_r, <- R3. exact Hall.
    + assert (pending b' = []) as Hnil.
      { apply nil_length_inv. unfold len in *. lia. }
      apply gpost_return. rewrite app_nil_r. exists (l0 ++ l), [], (pending b').
      rewrite (app_nil_r (l0 ++ l)). split_and!; auto.
Qed.

(** *** Together *)

Lemma batch_blocks_spec enabled connected clear blk rs prefetch_blocks st b :
  ready b → pending b = [] → NoDup rs → holds st blk rs → 0 <= prefetch_blocks →
  len (rows_of blk rs) <= Z.of_nat fuel →
  gpost (batch_blocks batch_format drop_last fuel enabled connected rs prefetch_blocks clear st b)
        (λ l _, batched rel bs drop_last (rows_of blk rs) l).
Proof.
  intros Hrdy Hp Hnd Hst Hpf Hfuel. unfold batch_blocks.
  eapply gpost_bind; [apply (sliding_window_spec _ clear blk); [done..|lia|by rewrite Hp]|].
  intros l [win [st1 b1]] (read & Hrs & Hh & Hfd). cbn in Hh, Hfd.
  pose proof (feeds_len _ _ _ _ Hfd) as Hl1. rewrite Hp in Hl1.
  rewrite Hrs, rows_of_app, len_app in Hfuel. change (len (@nil R)) with 0 in Hl1.
  eapply gpost_bind; [apply (consume_rest_spec blk); [by eapply feeds_ready|done|lia]|].
  cbn. intros l' [st2 b2] [Hs Hfd']. cbn in Hs, Hfd'. rewrite Hs. clear st2 Hs.
  pose proof (feeds_len _ _ _ _ Hfd').
  pose proof (feeds_app _ _ _ _ _ _ _ Hfd Hfd') as Hboth. rewrite <- rows_of_app, <- Hrs in Hboth.
  cbn. eapply gpost_bind; [apply (get_batches_rest_spec _ (rows_of blk rs) (l ++ l') b); [done|done|done|lia]|].
  cbn. intros l2 b3 Hb. apply gpost_return. rewrite app_nil_r, app_assoc. exact Hb.
Qed.
End batching.

(** ** The plain batcher *)

Section builder.
Context {R : Type}.
Implicit Types (o : DelegatingBlockBuilder R) (blk : list R).

Lemma build_add_block o blk : build (add_block o blk) = build o ++ blk.
Proof.
  unfold add_block, build. destruct (len blk =? 0) eqn:E; cbn; [|done].
  apply Z.eqb_eq in E. destruct blk; [by rewrite app_nil_r|].
  rewrite len_cons in E. pose proof (len_nonneg blk). lia.
Qed.

Lemma builder_num_rows_build o : builder_num_rows o = len (build o).
Proof. unfold builder_num_rows, build. by destruct (_builder o). Qed.
End builder.

Section plain.
Context {R : Type} (bs : Z).
Hypothesis bs_pos : 0 < bs.
Implicit Types b : Batcher R.

(** Once the batch is full every block is a leftover. *)
Lemma fill_done bufs (o : DelegatingBlockBuilder R) left :
  fold_left fill_step bufs (0, o, left) = (0, o, left ++ bufs).
Proof.
  revert left; induction bufs as [|blk bufs IH]; intros left; cbn; [by rewrite app_nil_r|].
  by rewrite IH, <- app_assoc.
Qed.

(** The loop cuts the rows of the buffer after [needed] of them. *)
Lemma fill_spec bufs (o : DelegatingBlockBuilder R) needed n' o' left' :
  0 <= needed → fold_left fill_step bufs (needed, o, []) = (n', o', left') →
  build o' = build o ++ take (Z.to_nat needed) (concat bufs) ∧
  concat left' = drop (Z.to_nat needed) (concat bufs).
Proof.
  revert o needed; induction bufs as [|blk bufs IH]; intros o needed Hn.
  { cbn. intros [= <- <- <-]. by rewrite take_nil, drop_nil, app_nil_r. }
  destruct (decide (needed = 0)) as [->|Hne].
  { rewrite fill_done. intros [= <- <- <-]. cbn. by rewrite app_nil_r. }
  cbn. rewrite (proj2 (Z.leb_gt _ _)) by lia.
  assert (length blk = Z.to_nat (len blk)) as Hlen by (unfold len; lia).
  pose proof (len_nonneg blk).
  destruct (len blk <=? needed) eqn:E; [apply Z.leb_le in E|apply Z.leb_gt in E].
  - intros Hf. apply IH in Hf as [Ho Hl]; [|lia]. rewrite Ho, Hl, build_add_block, py_slice_all.
    rewrite take_app_ge, drop_app_ge, <- app_assoc by lia.
    by replace (Z.to_nat needed - length blk)%nat with (Z.to_nat (needed - len blk)) by lia.
  - rewrite fill_done. intros [= <- <- <-]. rewrite build_add_block, py_slice_take by lia.
    rewrite take_app_le, drop_app_le by lia. split; [done|]. cbn. f_equal.
    rewrite py_slice_range by lia. apply take_ge. rewrite length_drop. lia.
Qed.

Definition plain_inv b : Prop :=
  _batch_size b = Some bs ∧
  (_buffer_size b = len (concat (_buffer b)) ∨
   (_done_adding b = true ∧ concat (_buffer b) = [] ∧ _buffer_size b <= 0)).

Lemma plain_has_batch b :
  plain_inv b → b_has_batch b = (bs <=? len (concat (_buffer b))).
Proof.
  intros [Hbs [Hsz|(_ & Hb & Hs)]]; unfold b_has_batch.
  - rewrite Hbs, Hsz. destruct (_buffer b); [|done]. symmetry. apply Z.leb_gt. cbn. unfold len. cbn. lia.
  - rewrite Hb, Hbs. change (len []) with 0. rewrite !(proj2 (Z.leb_gt bs _)) by lia.
    by destruct (_buffer b).
Qed.

Lemma plain_next b :
  plain_inv b → b_has_batch b = true ∨ (_done_adding b = true ∧ 0 < len (concat (_buffer b))) →
  ∃ out b', b_next_batch b = Ok (out, b') ∧ plain_inv b' ∧ _done_adding b' = _done_adding b ∧
            concat (_buffer b) = out ++ concat (_buffer b') ∧
            len out = Z.min bs (len (concat (_buffer b))).
Proof.
  intros Hi Hb. pose proof (plain_has_batch b Hi) as Hhb. destruct Hi as [Hbs Hsz].
  assert (_buffer_size b = len (concat (_buffer b))) as Hsize.
  { destruct Hsz as [?|(_ & Hnil & _)]; [done|]. rewrite Hhb, Hnil in Hb.
    exfalso. destruct Hb as [Hb|[_ Hb]]; [apply Z.leb_le in Hb|]; unfold len in *; cbn in *; lia. }
  clear Hsz. unfold b_next_batch.
  assert (b_has_batch b || (_done_adding b && b_has_any b) = true) as ->.
  { unfold b_has_any. rewrite Hsize. destruct Hb as [->|[-> Hb]]; [done|].
    rewrite (proj2 (Z.ltb_lt _ _)) by done. by rewrite orb_true_r. }
  cbn. rewrite Hbs.
  destruct (fold_left fill_step _ _) as [[n' o'] left'] eqn:Hf.
  destruct (fill_spec _ _ _ _ _ _ (Z.lt_le_incl _ _ bs_pos) Hf) as [Ho Hl]. cbn in Ho.
  eexists _, _. split; [done|]. cbn. rewrite Ho, Hl. rewrite take_drop.
  assert (len (take (Z.to_nat bs) (concat (_buffer b))) = Z.min bs (len (concat (_buffer b)))) as Hlt
    by (unfold len; rewrite length_take; lia).
  split_and!; [|done|done|exact Hlt]. split; [done|]. cbn. rewrite Hsize.
  destruct (Z_le_gt_dec bs (len (concat (_buffer b)))) as [Hle|Hgt].
  - left. rewrite Hl. unfold len in *. rewrite length_drop. lia.
  - rewrite Hhb in Hb. right. destruct Hb as [Hb|[Hd Hb]]; [apply Z.leb_le in Hb; lia|].
    split_and!; [done| |lia]. rewrite Hl.
    apply drop_ge. unfold len in *. lia.
Qed.

#[export, refine] Instance plain_laws : BatcherLaws (Batcher R) R bs eq :=
  {| inv := plain_inv; pending b := concat (_buffer b); finished := _done_adding |}.
Proof.
  all: cbn.
  - exact bs_pos.
  - intros b _ Hf _. unfold b_can_add. by rewrite Hf.
  - intros b blk [Hbs Hsz] Hc. unfold b_add. rewrite Hc. eexists; split; [done|]. cbn.
    rewrite concat_app. cbn. rewrite app_nil_r. split_and!; [|done..]. split; [done|]. cbn.
    left. rewrite concat_app, len_app. cbn. rewrite app_nil_r.
    destruct Hsz as [->|(Hd & _)]; [done|]. unfold b_can_add in Hc. by rewrite Hd in Hc.
  - intros b [Hbs Hsz]. split_and!; [|done..]. split; [done|]. cbn. destruct Hsz; naive_solver.
  - intros b Hi. rewrite plain_has_batch by done. apply Z.leb_le.
  - intros b Hi _ Hle. rewrite plain_has_batch by done. by apply Z.leb_le.
  - intros b [_ [Hs|(_ & Hn & Hs)]]; unfold b_has_any; [by rewrite Hs|].
    rewrite Hn. by rewrite (proj2 (Z.ltb_ge _ _)).
  - apply plain_next.
Defined.
End plain.

(** ** The shuffling batcher *)

Section rows_by_index.
Context {R : Type}.
Implicit Types (buf : list R) (idx : list Z).

(** The rows at the indices that exist. *)
Definition pick buf idx : list R := omap (λ i, buf !! Z.to_nat i) idx.

Lemma take_rows_pick buf idx :
  Forall (λ i, 0 <= i < len buf) idx → take_rows buf idx = Ok (pick buf idx) ∧
  len (pick buf idx) = len idx.
Proof.
  induction 1 as [|i idx Hi Hall [IH1 IH2]]; [done|]. unfold pick in *. cbn.
  assert (is_Some (buf !! Z.to_nat i)) as [r Hr]
    by (apply lookup_lt_is_Some_2; unfold len in Hi; lia).
  unfold py_nth. rewrite (proj2 (Z.ltb_ge i 0)) by lia.
  rewrite (proj2 (Z.ltb_ge i 0)), (proj2 (Z.leb_gt _ _)) by lia. cbn.
  rewrite Hr. cbn. rewrite IH1. cbn. by rewrite !len_cons, IH2.
Qed.

Lemma range_bounds n : Forall (λ i, 0 <= i < n) (range n).
Proof.
  apply Forall_forall. intros i Hi. unfold range in Hi.
  apply list_elem_of_fmap in Hi as (k & -> & Hk%elem_of_seq). lia.
Qed.

Lemma pick_seq pre buf :
  pick (pre ++ buf) (Z.of_nat <$> seq (length pre) (length buf)) = buf.
Proof.
  unfold pick. revert pre; induction buf as [|r buf IH]; intros pre; [done|]. cbn.
  rewrite Nat2Z.id, list_lookup_middle by done. cbn. f_equal.
  specialize (IH (pre ++ [r])). rewrite length_app, <- app_assoc, Nat.add_1_r in IH. exact IH.
Qed.

Lemma pick_range buf : pick buf (range (len buf)) = buf.
Proof. unfold range, len. rewrite Nat2Z.id. apply (pick_seq []). Qed.
End rows_by_index.

(** [random.shuffle] permutes. *)
Class RandomLaws (S : Type) `{RandomModule S} := {
  shuffle_perm s l : (shuffle s l).1 ≡ₚ l;
}.

Section shuffling.
Context {S R : Type} `{RandomLaws S} (bs : Z).
Hypothesis bs_pos : 0 < bs.
Implicit Types b : ShufflingBatcher S R.

(** The rows of the materialised buffer that are not yielded yet. *)
Definition unyielded_rows b : list R :=
  match _shuffle_buffer b, _shuffle_indices b with
  | None, _ => []
  | Some buf, None => buf
  | Some buf, Some idx => pick buf (drop (Z.to_nat (_batch_head b)) idx)
  end.

Definition shuffle_rows b : list R := build (s_builder b) ++ unyielded_rows b.

(** The head is within the buffer, but for the last batch, which may be short. *)
Definition head_ok b (buf : list R) : Prop :=
  0 <= _batch_head b ∧
  (_batch_head b <= len buf ∨ (s_done_adding b = true ∧ build (s_builder b) = [])).

Definition buffer_ok b : Prop :=
  match _shuffle_buffer b, _shuffle_indices b with
  | None, idx => idx = None ∧ _batch_head b = 0
  | Some buf, None => _batch_head b = 0
  | Some buf, Some idx => idx ≡ₚ range (len buf) ∧ head_ok b buf
  end.

Definition shuffle_inv b : Prop :=
  s_batch_size b = bs ∧ bs <= _buffer_min_size b ∧
  _buffer_min_size b + bs <= _buffer_capacity b ∧ buffer_ok b.

Lemma range_len n : 0 <= n → len (range n) = n.
Proof. intros. unfold range. rewrite len_fmap. unfold len. rewrite length_seq. lia. Qed.

Lemma pick_len (buf : list R) idx k :
  idx ≡ₚ range (len buf) → len (pick buf (drop k idx)) = Z.max 0 (len buf - Z.of_nat k).
Proof.
  intros Hp. pose proof (range_bounds (len buf)) as Hb. rewrite <- Hp in Hb.
  rewrite (proj2 (take_rows_pick buf _ (Forall_drop _ _ _ Hb))).
  pose proof (range_len (len buf) (len_nonneg buf)) as Hl. rewrite <- Hp in Hl.
  unfold len in *. rewrite length_drop. lia.
Qed.

(** [_buffer_size] counts the rows, and is not positive when there are none. *)
Lemma buffer_size_spec b :
  shuffle_inv b →
  s_buffer_size b = len (shuffle_rows b) ∨
  (s_buffer_size b < 0 ∧ shuffle_rows b = []).
Proof.
  intros (_ & _ & _ & Hok). unfold s_buffer_size, shuffle_rows, unyielded_rows, buffer_ok in *.
  rewrite builder_num_rows_build, len_app.
  destruct (_shuffle_buffer b) as [buf|]; [|left; unfold len at 3; cbn; lia].
  destruct (_shuffle_indices b) as [idx|]; [|left; rewrite Hok; lia].
  destruct Hok as [Hp [Hh0 Hh]]. rewrite pick_len by done. rewrite Z2Nat.id by lia.
  destruct (Z_le_gt_dec (_batch_head b) (len buf)); [left; lia|].
  destruct Hh as [?|[_ Hbd]]; [lia|]. right. rewrite Hbd. change (len (@nil R)) with 0.
  split; [lia|]. cbn. apply nil_length_inv.
  pose proof (pick_len buf idx (Z.to_nat (_batch_head b)) Hp) as Hl. unfold len in *. lia.
Qed.

(** The unyielded rows by [take]. *)
Lemma unyielded_spec (buf : list R) idx head :
  idx ≡ₚ range (len buf) → 0 <= head <= len buf →
  unyielded (Some idx) head buf = Ok (pick buf (drop (Z.to_nat head) idx)).
Proof.
  intros Hp Hh. unfold unyielded. cbn.
  pose proof (range_len (len buf) (len_nonneg buf)) as Hl. rewrite <- Hp in Hl.
  pose proof (range_bounds (len buf)) as Hb. rewrite <- Hp in Hb.
  assert (py_slice head None idx = drop (Z.to_nat head) idx) as ->.
  { unfold py_slice, slice_index. rewrite (proj2 (Z.ltb_ge _ _)), Z.min_l by lia.
    apply take_ge. rewrite length_drop. unfold len in *. lia. }
  by apply take_rows_pick, Forall_drop.
Qed.

(** Afterwards the builder is empty and the buffer holds the same rows. *)
Lemma materialize_spec b :
  shuffle_inv b → ∃ b1, materialize b = Ok b1 ∧ shuffle_inv b1 ∧
    s_done_adding b1 = s_done_adding b ∧ build (s_builder b1) = [] ∧
    shuffle_rows b ≡ₚ unyielded_rows b1 ∧ _buffer_min_size b1 = _buffer_min_size b.
Proof.
  intros Hi. pose proof Hi as (Hbs & Hmin & Hcap & Hok). unfold materialize.
  rewrite builder_num_rows_build. destruct (0 <? len (build (s_builder b))) eqn:Hn; cycle 1.
  { apply Z.ltb_ge in Hn. exists b. assert (build (s_builder b) = []) as Hnil
      by (apply nil_length_inv; unfold len in Hn; lia).
    split_and!; try done. unfold shuffle_rows. by rewrite Hnil. }
  apply Z.ltb_lt in Hn.
  assert (∃ bld, match _shuffle_buffer b with
          | Some buf =>
              buf ← (if 0 <? _batch_head b
                     then unyielded (_shuffle_indices b) (_batch_head b) buf else Ok buf);
              Ok (add_block (s_builder b) buf)
          | None => Ok (s_builder b)
          end = Ok bld ∧ shuffle_rows b ≡ₚ build bld) as (bld & -> & Hbld).
  { unfold shuffle_rows, unyielded_rows, buffer_ok in *.
    destruct (_shuffle_buffer b) as [buf|]; [|eexists; split; [done|by rewrite app_nil_r]].
    destruct (_shuffle_indices b) as [idx|].
    - destruct Hok as [Hp [Hh0 Hh]].
      assert (_batch_head b <= len buf) as Hle
        by (destruct Hh as [?|[_ Hnil]]; [done|]; rewrite Hnil in Hn; by change (len []) with 0 in Hn).
      destruct (0 <? _batch_head b) eqn:Hh1.
      + rewrite unyielded_spec by done. cbn. eexists; split; [done|]. by rewrite build_add_block.
      + apply Z.ltb_ge in Hh1. replace (_batch_head b) with 0 by lia.
        eexists; split; [done|]. rewrite build_add_block, drop_0. f_equiv. unfold pick.
        rewrite Hp. change (pick buf (range (len buf)) ≡ₚ buf). by rewrite pick_range.
    - rewrite Hok. eexists; split; [done|]. by rewrite build_add_block. }
  cbn. eexists; split; [done|]. split_and!; try done; by split_and!.
Qed.

(** The rows at the next [batch_size] indices. *)
Lemma draw_spec (buf : list R) idx head :
  idx ≡ₚ range (len buf) → 0 <= head →
  let n := Z.min bs (len buf) in
  ∃ out, take_rows buf (py_slice head (Some (head + n)) idx) = Ok out ∧
    pick buf (drop (Z.to_nat head) idx) = out ++ pick buf (drop (Z.to_nat (head + n)) idx) ∧
    len out = Z.min bs (len (pick buf (drop (Z.to_nat head) idx))).
Proof.
  intros Hp Hh n. pose proof (len_nonneg buf). assert (0 <= n) by lia.
  pose proof (range_bounds (len buf)) as Hb. rewrite <- Hp in Hb.
  pose proof (range_len (len buf) (len_nonneg buf)) as Hl. rewrite <- Hp in Hl.
  rewrite py_slice_range by lia. replace (head + n - head) with n by lia.
  destruct (take_rows_pick buf (take (Z.to_nat n) (drop (Z.to_nat head) idx))) as [Ht Hlen];
    [by apply Forall_take, Forall_drop|].
  eexists; split; [exact Ht|]. split.
  - unfold pick. rewrite <- omap_app. f_equal.
    rewrite <- (take_drop (Z.to_nat n) (drop (Z.to_nat head) idx)) at 1. f_equal.
    rewrite drop_drop. f_equal. lia.
  - rewrite Hlen, pick_len by done. unfold len in *. rewrite length_take, length_drop. lia.
Qed.

Lemma shuffle_next b :
  shuffle_inv b → s_has_batch b = true ∨ (s_done_adding b = true ∧ 0 < len (shuffle_rows b)) →
  ∃ out b', s_next_batch b = Ok (out, b') ∧ shuffle_inv b' ∧ s_done_adding b' = s_done_adding b ∧
            shuffle_rows b ≡ₚ out ++ shuffle_rows b' ∧
            len out = Z.min bs (len (shuffle_rows b)).
Proof.
  intros Hi Hb. pose proof (buffer_size_spec b Hi) as Hsz. pose proof (len_nonneg (shuffle_rows b)).
  unfold s_next_batch.
  assert (s_has_batch b || (s_done_adding b && s_has_any b) = true) as ->.
  { unfold s_has_any. destruct Hb as [->|[-> Hb]]; [done|].
    destruct Hsz as [->|[_ Hnil]]; [|rewrite Hnil in Hb; by change (len []) with 0 in Hb].
    rewrite (proj2 (Z.ltb_lt _ _)) by done. by rewrite orb_true_r. }
  assert (0 < len (shuffle_rows b) ∧
    (s_done_adding b = true ∨ bs <= len (shuffle_rows b))) as [Hpos Hend].
  { destruct Hi as (Hbs & Hmin & _). destruct Hb as [Hb|[? ?]]; [|by auto].
    unfold s_has_batch in Hb. rewrite Hbs in Hb.
    apply orb_true_iff in Hb as [Hb|[_ Hb]%andb_true_iff]; apply Z.leb_le in Hb; split; try right;
      destruct Hsz as [Hsz|[Hsz _]]; lia. }
  cbn. destruct (materialize_spec b Hi) as (b1 & -> & Hi1 & Hd1 & Hbld & Hrows & _). cbn.
  pose proof (len_Permutation _ _ _ Hrows) as Hlr. rewrite Hlr in Hpos, Hend |- *.
  rewrite <- Hd1 in Hend |- *.
  destruct Hi1 as (Hbs & Hmin & Hcap & Hok). unfold buffer_ok in Hok.
  destruct (_shuffle_buffer b1) as [buf|] eqn:Hbuf;
    [|unfold unyielded_rows in Hpos; rewrite Hbuf in Hpos; by change (len []) with 0 in Hpos].
  cbn. set (p := match _shuffle_indices b1 with Some i => (i, _random b1) | None => _ end).
  assert (p.1 ≡ₚ range (len buf) ∧ 0 <= _batch_head b1 ∧
          unyielded_rows b1 ≡ₚ pick buf (drop (Z.to_nat (_batch_head b1)) p.1)) as (Hp & Hh & Hun).
  { unfold p, unyielded_rows. rewrite Hbuf. destruct (_shuffle_indices b1) as [idx|] eqn:Hidx.
    - destruct Hok as [? [? _]]. done.
    - rewrite Hok. cbn. rewrite drop_0. split_and!; [apply shuffle_perm|done|].
      unfold pick. rewrite shuffle_perm. change (buf ≡ₚ pick buf (range (len buf))).
      by rewrite pick_range. }
  clearbody p. destruct p as [idx rnd]. cbn in Hp, Hun. rewrite Hbs.
  destruct (draw_spec buf idx (_batch_head b1) Hp Hh) as (out & -> & Happ & Hlen). cbn.
  pose proof (len_Permutation _ _ _ Hun) as Hlu. rewrite <- Hlu in Hlen.
  pose proof (len_nonneg buf).
  eexists _, _; split; [done|]. split_and!; [|done| |done].
  - split_and!; [done..|]. split; [done|]. unfold head_ok. cbn. split; [lia|].
    rewrite pick_len in Hlu by done. rewrite Z2Nat.id in Hlu by lia. rewrite Hbld.
    destruct Hend as [?|?]; [auto|left; lia].
  - rewrite Hrows, Hun, Happ. unfold shuffle_rows, unyielded_rows. cbn. by rewrite Hbld.
Qed.

#[export, refine] Instance shuffling_laws : BatcherLaws (ShufflingBatcher S R) R bs (≡ₚ) :=
  {| inv := shuffle_inv; pending := shuffle_rows; finished := s_done_adding |}.
Proof.
  all: cbn.
  - exact bs_pos.
  - intros b Hi Hf Hb. unfold s_can_add, s_has_batch in *. rewrite Hf in *. cbn in Hb.
    destruct Hi as (Hbs & Hmin & Hcap & _). rewrite orb_false_r, Hbs in Hb.
    apply Z.leb_gt in Hb. rewrite (proj2 (Z.leb_le _ _)) by lia. done.
  - intros b blk (Hbs & Hmin & Hcap & Hok) Hc. unfold s_add. rewrite Hc.
    apply andb_true_iff in Hc as [_ Hc%negb_true_iff]. eexists; split; [done|]. cbn.
    split_and!; [|done|].
    + split_and!; [done..|]. unfold buffer_ok, head_ok in *. cbn. rewrite Hc in *.
      destruct (_shuffle_buffer b), (_shuffle_indices b); naive_solver.
    + unfold shuffle_rows, unyielded_rows. cbn. rewrite build_add_block. solve_Permutation.
  - intros b (Hbs & Hmin & Hcap & Hok). split_and!; [|done..]. split_and!; [done..|].
    unfold buffer_ok, head_ok in *. cbn. destruct (_shuffle_buffer b), (_shuffle_indices b); naive_solver.
  - intros b Hi Hb. pose proof (buffer_size_spec b Hi). destruct Hi as (Hbs & Hmin & _).
    unfold s_has_batch in Hb. rewrite Hbs in Hb.
    apply orb_true_iff in Hb as [Hb|[_ Hb]%andb_true_iff]; apply Z.leb_le in Hb; lia.
  - intros b Hi Hf Hle. pose proof (buffer_size_spec b Hi) as Hs. destruct Hi as (Hbs & Hmin & _).
    unfold s_has_batch. rewrite Hf, Hbs. cbn. apply orb_true_iff. right. apply Z.leb_le.
    destruct Hs as [?|[_ Hnil]]; [lia|]. rewrite Hnil in Hle. change (len []) with 0 in Hle. lia.
  - intros b Hi. unfold s_has_any. destruct (buffer_size_spec b Hi) as [->|[Hs ->]]; [done|].
    by rewrite (proj2 (Z.ltb_ge _ _)) by lia.
  - apply shuffle_next.
Defined.
End shuffling.

(** ** The batches of a dataset *)

Section claims.
Context {R T : Type} `{BatchFormats R T}.
Context (batch_format : string) (conv : list R → T).
Context (enabled connected drop_last clear : bool) (fuel : nat).
Context (blocks : list ref) (blk : ref → list R) (st : store R) (prefetch_blocks : Z).

(** C17: with a positive batch size and no shuffling, iterating over the batches of a
    dataset ends without an exception and yields the rows in order: every batch has
    the batch size, but for the last one, which holds the remaining rows, or is
    dropped, with its rows, if [drop_last] is set. The references of the blocks are
    distinct and can be read, the number of prefetched blocks is not negative, and
    formatting a batch does not raise; it does not matter how many blocks are
    prefetched, how the rows are spread over blocks (empty ones included), or whether
    the blocks that were read are freed meanwhile. *)
Theorem batch_blocks_in_order (bs : Z) :
  (∀ l, _format_batch l batch_format = Ok (conv l)) →
  0 < bs → 0 <= prefetch_blocks → NoDup blocks → holds st blk blocks →
  len (rows_of blk blocks) <= Z.of_nat fuel →
  ∃ batches s,
    batch_blocks_plain batch_format drop_last fuel enabled connected blocks prefetch_blocks clear
      st (Some bs) = (conv <$> batches, Ok s) ∧
    batched eq bs drop_last (rows_of blk blocks) batches.
Proof.
  intros Hfmt Hbs Hpf Hnd Hst Hfuel. pose proof (plain_laws (R := R) bs Hbs) as Hlaws.
  refine (batch_blocks_spec (T := T) (BatcherLaws0 := plain_laws bs Hbs) bs eq _ drop_last fuel conv
    Hfmt enabled connected clear blk blocks prefetch_blocks st _ _ _ Hnd Hst Hpf Hfuel); [|done].
  repeat split. by left.
Qed.

(** With a local shuffle, iterating over the batches of a dataset ends without an
    exception and yields every row exactly once, in batches of the batch size (but
    for the last one), whatever permutations the random module makes and however
    large the shuffle buffer is.  With [drop_last], fewer rows than a batch are
    lost. *)
Theorem batch_blocks_shuffled_perm {S} `{RandomLaws S} (bs min_size : Z) (sd : option Z) (rnd : S) :
  (∀ l, _format_batch l batch_format = Ok (conv l)) →
  0 < bs → 0 <= prefetch_blocks → NoDup blocks → holds st blk blocks →
  len (rows_of blk blocks) <= Z.of_nat fuel →
  ∃ batches s,
    batch_blocks_shuffled batch_format drop_last fuel enabled connected blocks prefetch_blocks
      clear st (Some bs) min_size sd rnd = (conv <$> batches, Ok s) ∧
    batched (≡ₚ) bs drop_last (rows_of blk blocks) batches.
Proof.
  intros Hfmt Hbs Hpf Hnd Hst Hfuel. unfold batch_blocks_shuffled. cbn [s_init].
  refine (batch_blocks_spec (T := T) (BatcherLaws0 := shuffling_laws bs Hbs) bs (≡ₚ) _ drop_last fuel
    conv Hfmt enabled connected clear blk blocks prefetch_blocks st _ _ _ Hnd Hst Hpf Hfuel); [|done].
  assert (bs <= if min_size <? bs then bs else min_size) by (destruct (Z.ltb_spec min_size bs); lia).
  split_and!; [|done|].
  - split_and!; cbn; [done|done|lia|done].
  - cbn. unfold s_has_batch. cbn. rewrite orb_false_r. apply Z.leb_gt.
    unfold s_buffer_size. cbn. lia.
Qed.
End claims.

(** A batch size of zero: the loop over the full batches yields empty batches for
    ever. *)
Theorem zero_batch_size_never_ends {R T} `{BatchFormats R T} fmt conv fuel st r blk :
  (∀ l, _format_batch l fmt = Ok (conv l)) → st !! r = Some blk →
  batch_blocks_plain fmt false fuel false false [r] 0 false st (Some 0)
    = (replicate fuel (conv []), @Err (store R * Batcher R) OutOfFuel).
Proof.
  intros Hfmt Hr. set (b0 := batcher_init (R := R) (Some 0)).
  set (b := {| _batch_size := Some 0; _buffer := [blk]; _buffer_size := 0 + len blk;
               _done_adding := false |}).
  assert (b_has_batch b = true) as Hb by (apply Z.leb_le; cbn; pose proof (len_nonneg blk); lia).
  assert (next_batch b = Ok ([], b)) as Hn.
  { change (next_batch b) with (b_next_batch b). unfold b_next_batch. rewrite Hb. cbn.
    by rewrite Z.sub_0_r. }
  assert (∀ f, drain_batches fmt f b = (replicate f (conv []), Err OutOfFuel)) as Hdrain.
  { induction f as [|f IH]; cbn [drain_batches]; change (has_batch b) with (b_has_batch b); rewrite Hb;
      [done|]. unfold yield_batch. rewrite Hn, Hfmt. unfold gbind. cbn [fst snd gyield].
    by rewrite IH. }
  assert (consume_window fmt fuel WaitBlockPrefetcher [r] (st, b0)
            = (replicate fuel (conv []), Err OutOfFuel)) as Hw.
  { unfold consume_window. rewrite (prefetch_ok WaitBlockPrefetcher [r] (NoDup_singleton r)) by done.
    cbn [mbind result_bind lookup list_lookup of_option]. rewrite gbind_lift.
    unfold get_batches_block, get_object. cbn [fst snd]. rewrite Hr.
    cbn [mbind result_bind of_option]. change (add b0 blk) with (Ok b).
    by rewrite gbind_lift, Hdrain. }
  unfold batch_blocks_plain, batch_blocks, sliding_window. change (0 + 1) with 1.
  change (take (Z.to_nat 1) [r]) with [r]. change (1 <? 0) with false.
  change (0 <? len [r]) with true. cbv iota. cbn [andb]. fold b0. change (0 <? 0) with false.
  cbn [andb]. by rewrite Hw.
Qed.

Module BatchExamples.
#[local] Instance plain_formats : BatchFormats Z (list Z) := {|
  to_native := id; to_pandas := Ok; to_arrow := Ok; to_numpy := Ok |}.

#[local] Instance reversing : RandomModule unit := {|
  seed _ := tt; shuffle _ l := (rev l, tt) |}.

#[local] Instance reversing_laws : RandomLaws unit.
Proof. constructor. intros [] l. cbn. symmetry. apply Permutation_rev. Defined.

Definition objects : store Z := {[ 0 := [1; 2; 3]; 1 := []; 2 := [4; 5] ]}.
Definition blk (r : ref) : list Z := default [] (objects !! r).

Lemma objects_hold : holds objects blk [0; 1; 2].
Proof. repeat constructor. Defined.

Lemma native_ok : ∀ l : list Z, _format_batch l "native" = Ok l.
Proof. done. Defined.

Example batches_of_two :
  (batch_blocks_plain "native" false 5 false false [0; 1; 2] 1 true objects (Some 2)).1
    = [[1; 2]; [3; 4]; [5]].
Proof. vm_compute. reflexivity. Qed.

Example shuffled_batches_of_two :
  (batch_blocks_shuffled "native" false 5 false false [0; 1; 2] 1 true objects (Some 2) 2 None ()).1
    = [[5; 4]; [3; 2]; [1]].
Proof. vm_compute. reflexivity. Qed.

Lemma batch_blocks_in_order_witness :
  ∃ batches s, batch_blocks_plain "native" true 5 false false [0; 1; 2] 1 true objects (Some 2)
                 = (id <$> batches, Ok s) ∧
               batched eq 2 true (rows_of blk [0; 1; 2]) batches.
Proof.
  apply (batch_blocks_in_order "native" id false false true true 5 [0; 1; 2] blk objects 1 2).
  - exact native_ok.
  - lia.
  - lia.
  - by apply (bool_decide_unpack _).
  - exact objects_hold.
  - vm_compute. congruence.
Defined.

Lemma batch_blocks_shuffled_perm_witness :
  ∃ batches s, batch_blocks_shuffled "native" false 5 false false [0; 1; 2] 0 true objects (Some 2)
                 4 (Some 7) () = (id <$> batches, Ok s) ∧
               batched (≡ₚ) 2 false (rows_of blk [0; 1; 2]) batches.
Proof.
  apply (batch_blocks_shuffled_perm "native" id false false false true 5 [0; 1; 2] blk objects 0 2 4
           (Some 7) ()).
  - exact native_ok.
  - lia.
  - lia.
  - by apply (bool_decide_unpack _).
  - exact objects_hold.
  - vm_compute. congruence.
Defined.
End BatchExamples.
