(* ===== verification/DataShuffle.v ===== *)
(** * Shuffles

    [data/_internal/shuffle.py] and [push_based_shuffle.py]: an all-to-all exchange of
    blocks by map and reduce tasks, in one step, or with rounds of merge tasks between
    them that run while the next map tasks do.

    A reference to a block is the block, and a remote task the value it returns; a task
    that fails fails the shuffle.  The map and the reduce function are parameters. *)
From S2P Require Import Prelude PyLists.
From stdpp Require Import base tactics list strings.

#[local] Open Scope Z_scope.

(** ** The schedule of merge tasks *)

Record _MergeTaskSchedule := mkSchedule {
  output_num_blocks : Z;
  num_merge_tasks_per_round : Z;
  merge_partition_size : Z;
  _partitions_with_extra_task : Z
}.

(** [_MergeTaskSchedule(output_num_blocks, num_merge_tasks_per_round)] *)
Definition new_schedule (output_num_blocks num_merge_tasks_per_round : Z) : result _MergeTaskSchedule :=
  if num_merge_tasks_per_round =? 0 then Err ZeroDivisionError
  else Ok (mkSchedule output_num_blocks num_merge_tasks_per_round
             (output_num_blocks / num_merge_tasks_per_round)
             (output_num_blocks mod num_merge_tasks_per_round)).

(** [get_num_reducers_per_merge_idx] *)
Definition get_num_reducers_per_merge_idx (self : _MergeTaskSchedule) (merge_idx : Z) : result Z :=
  if merge_idx <? num_merge_tasks_per_round self then
    Ok (if merge_idx <? _partitions_with_extra_task self then merge_partition_size self + 1
        else merge_partition_size self)
  else Err AssertionError.

(** [get_merge_idx_for_reducer_idx] *)
Definition get_merge_idx_for_reducer_idx (self : _MergeTaskSchedule) (reducer_idx : Z) : result Z :=
  merge_idx ←
    (if reducer_idx <? merge_partition_size self * _partitions_with_extra_task self then
       Ok (reducer_idx / (merge_partition_size self + 1))
     else
       let reducer_idx :=
         reducer_idx - (merge_partition_size self + 1) * _partitions_with_extra_task self in
       if merge_partition_size self =? 0 then Err ZeroDivisionError
       else Ok (_partitions_with_extra_task self + reducer_idx / merge_partition_size self));
  if merge_idx <? num_merge_tasks_per_round self then Ok merge_idx else Err AssertionError.

(** One iteration of the inner loop of [round_robin_reduce_idx_iterator]: what it yields. *)
Definition reduce_idx_of (self : _MergeTaskSchedule) (round_idx merge_idx : Z) : option Z :=
  let '(reduce_idx, partition_size) :=
    if merge_idx <? _partitions_with_extra_task self then
      (merge_idx * (merge_partition_size self + 1), merge_partition_size self + 1)
    else
      (_partitions_with_extra_task self * (merge_partition_size self + 1) +
       (merge_idx - _partitions_with_extra_task self) * merge_partition_size self,
       merge_partition_size self) in
  if partition_size <=? round_idx then None else Some (reduce_idx + round_idx).

Definition reduce_idx_row (self : _MergeTaskSchedule) (round_idx : Z) : list Z :=
  omap (reduce_idx_of self round_idx) (seqZ 0 (num_merge_tasks_per_round self)).

Fixpoint reduce_idx_rows (fuel : nat) (self : _MergeTaskSchedule) (idx round_idx : Z) : result (list Z) :=
  if idx <? output_num_blocks self then
    match fuel with
    | O => Err OutOfFuel
    | S fuel =>
        let row := reduce_idx_row self round_idx in
        rest ← reduce_idx_rows fuel self (idx + len row) (round_idx + 1);
        Ok (row ++ rest)
    end
  else Ok [].

(** [round_robin_reduce_idx_iterator]; the largest partition has as many rounds as it has
    reducers. *)
Definition round_robin_reduce_idx_iterator (self : _MergeTaskSchedule) : result (list Z) :=
  reduce_idx_rows (Z.to_nat (merge_partition_size self + 1)) self 0 0.

Record _PushBasedShuffleStage := mkStage {
  num_rounds : Z;
  num_map_tasks_per_round : Z;
  merge_task_placement : list string;
  merge_schedule : _MergeTaskSchedule
}.

(** [get_merge_task_options]: the node of a merge task. *)
Definition get_merge_task_options (stage : _PushBasedShuffleStage) (merge_idx : Z) : result string :=
  py_nth (merge_task_placement stage) merge_idx.

(** ** The plan *)

(** One node of [_compute_shuffle_schedule]. *)
Definition place_merge_tasks (num_input_blocks num_nodes num_tasks_per_map_merge_group : Z)
    (acc : list string * Z) (p : string * Z) : list string * Z :=
  let '(placement, leftover_cpus) := acc in
  let '(node, num_cpus) := p in
  let node_parallelism := Z.min num_cpus (num_input_blocks / num_nodes) in
  let num_merge_tasks := node_parallelism / num_tasks_per_map_merge_group in
  let placement := placement ++ replicate (Z.to_nat num_merge_tasks) node in
  let leftover_cpus := leftover_cpus + node_parallelism mod num_tasks_per_map_merge_group in
  if (num_merge_tasks =? 0) && (num_tasks_per_map_merge_group <? leftover_cpus) then
    (placement ++ [node], leftover_cpus - num_tasks_per_map_merge_group)
  else (placement, leftover_cpus).

(** [math.ceil(a / b)] *)
Definition ceil_div (a b : Z) : Z := - ((- a) / b).

(** [_compute_shuffle_schedule] *)
Definition _compute_shuffle_schedule (num_cpus_per_node_map : dict string Z)
    (num_input_blocks merge_factor num_output_blocks : Z) : result _PushBasedShuffleStage :=
  let num_cpus_total := sumZ (dvalues num_cpus_per_node_map) in
  let task_parallelism := Z.min num_cpus_total num_input_blocks in
  let group := merge_factor + 1 in
  if (group =? 0) && bool_decide (num_cpus_per_node_map ≠ []) then Err ZeroDivisionError else
  let placement :=
    (fold_left (place_merge_tasks num_input_blocks (len num_cpus_per_node_map) group)
       num_cpus_per_node_map ([], 0)).1 in
  placement ←
    (if len placement =? 0 then node ← py_nth (dkeys num_cpus_per_node_map) 0; Ok [node] else Ok placement);
  let num_map_tasks_per_round := Z.max (task_parallelism - len placement) 1 in
  schedule ← new_schedule num_output_blocks (len placement);
  Ok (mkStage (ceil_div num_input_blocks num_map_tasks_per_round) num_map_tasks_per_round placement schedule).

(** ** Rounds of tasks *)

Record _PipelinedStageExecutor (M : Type) := mkExecutor {
  _num_tasks_per_round : Z;
  _max_concurrent_rounds : Z;
  _rounds : list (list M)
}.
Arguments mkExecutor {M}.
Arguments _num_tasks_per_round {M}.
Arguments _max_concurrent_rounds {M}.
Arguments _rounds {M}.

Section executor.
(** The iterator of a stage: [None] is [StopIteration]. *)
Context {T M : Type} (next : ST T (option M)).

Fixpoint submit_tasks (n : nat) : ST T (list M) :=
  match n with
  | O => mret []
  | S n =>
      r ← next;
      match r with
      | None => mret []
      | Some m => ms ← submit_tasks n; mret (m :: ms)
      end
  end.

(** [_submit_round] *)
Definition _submit_round (self : _PipelinedStageExecutor M) : ST T (_PipelinedStageExecutor M) :=
  _ ← st_lift (py_assert (len (_rounds self) <? _max_concurrent_rounds self));
  task_round ← submit_tasks (Z.to_nat (_num_tasks_per_round self));
  mret (mkExecutor (_num_tasks_per_round self) (_max_concurrent_rounds self) (_rounds self ++ [task_round])).

(** [_PipelinedStageExecutor(stage_iter, num_tasks_per_round, max_concurrent_rounds)] *)
Definition new_executor (num_tasks_per_round max_concurrent_rounds : Z) : ST T (_PipelinedStageExecutor M) :=
  _submit_round (mkExecutor num_tasks_per_round max_concurrent_rounds []).

(** [__next__] *)
Definition next_round (self : _PipelinedStageExecutor M) :
    ST T (option (list M) * _PipelinedStageExecutor M) :=
  if forallb (λ r, len r =? 0) (_rounds self) then mret (None, self) else
  '(prev_metadata, rounds) ←
    (if _max_concurrent_rounds self <=? len (_rounds self) then
       match _rounds self with
       | r :: rounds => mret (r, rounds)
       | [] => st_raise IndexError
       end
     else mret ([], _rounds self));
  self ← _submit_round (mkExecutor (_num_tasks_per_round self) (_max_concurrent_rounds self) rounds);
  mret (Some prev_metadata, self).
End executor.

(** ** Stages *)

Section shuffle.
(** The input blocks, the blocks between map and reduce, and the output blocks. *)
Context {Inp Block Out Metadata : Type}.
(** [map]: the blocks for each output, and the metadata. *)
Context (map_fn : Z → Inp → Z → list Block * Metadata).
(** [reduce] with [partial_reduce=True], and without. *)
Context (partial_fn : list Block → Block * Metadata) (reduce_fn : list Block → Out * Metadata).
(** The metadata of a merge task. *)
Context (merge_metadata : list Block → Metadata).

(** [SimpleShufflePlan.execute]: the output blocks.  Unpacking no results at all raises. *)
Definition simple_execute (input_blocks : list Inp) (output_num_blocks : Z) : result (list Out) :=
  let shuffle_map_out := imap (λ i block, (map_fn (Z.of_nat i) block output_num_blocks).1) input_blocks in
  shuffle_reduce_out ←
    mapM (λ j, blocks ← mapM (λ refs, py_nth refs j) shuffle_map_out; Ok (reduce_fn blocks).1)
      (seqZ 0 output_num_blocks);
  match shuffle_reduce_out with
  | [] => Err ValueError
  | new_blocks => Ok new_blocks
  end.

(** The loop of [_map_partition]; it counts the merge tasks, so it has as many turns as
    there are, and one more. *)
Fixpoint partition_outputs (fuel : nat) (schedule : _MergeTaskSchedule) (merge_idx : Z)
    (mapper_outputs : list Block) : result (list (list Block)) :=
  match mapper_outputs with
  | [] => Ok []
  | _ =>
      match fuel with
      | O => Err OutOfFuel
      | S fuel =>
          partition_size ← get_num_reducers_per_merge_idx schedule merge_idx;
          parts ← partition_outputs fuel schedule (merge_idx + 1)
                    (py_slice partition_size None mapper_outputs);
          Ok (py_slice 0 (Some partition_size) mapper_outputs :: parts)
      end
  end.

(** [_map_partition] *)
Definition _map_partition (idx : Z) (block : Inp) (output_num_blocks : Z)
    (schedule : _MergeTaskSchedule) : result (list (list Block) * Metadata) :=
  let '(mapper_outputs, meta) := map_fn idx block output_num_blocks in
  parts ← partition_outputs (S (Z.to_nat (num_merge_tasks_per_round schedule))) schedule 0 mapper_outputs;
  if len parts =? num_merge_tasks_per_round schedule then Ok (parts, meta) else Err AssertionError.

(** [zip( *lists )] of lists of length [n]. *)
Definition zip_star {A} (n : nat) (lists : list (list A)) : list (list A) :=
  (λ j, omap (λ l : list A, l !! j) lists) <$> seq 0 n.

(** [_merge] *)
Definition _merge (all_mapper_outputs : list (list Block)) : result (list Block * Metadata) :=
  match all_mapper_outputs with
  | [] => Err AssertionError
  | l :: ls =>
      if forallb (λ l', len l' =? len l) ls then
        let blocks := (λ outputs, (partial_fn outputs).1) <$> zip_star (length l) all_mapper_outputs in
        Ok (blocks, merge_metadata blocks)
      else Err AssertionError
  end.

(** The state of the three stages. *)
Record stages := mkStages {
  _input_blocks_list : list Inp;
  _mapper_idx : Z;
  _map_results : list (list (list Block));
  _merge_idx : Z;
  _map_result_buffer : list (list (list Block));
  _all_merge_results : list (list (list Block));
  _reduce_arg_blocks : list (Z * list Block);
  _reduce_results : list (Z * Out)
}.

Context (stage : _PushBasedShuffleStage).

(** [_MapStageIterator.__next__] *)
Definition map_next : ST stages (option Metadata) :=
  let schedule := merge_schedule stage in
  y ← st_get;
  match _input_blocks_list y with
  | [] => mret None
  | block :: blocks =>
      '(parts, metadata) ← st_lift (_map_partition (_mapper_idx y) block (output_num_blocks schedule) schedule);
      _ ← st_modify (λ y, mkStages blocks (_mapper_idx y + 1) (_map_results y ++ [parts]) (_merge_idx y)
                            (_map_result_buffer y) (_all_merge_results y) (_reduce_arg_blocks y)
                            (_reduce_results y));
      mret (Some metadata)
  end.

(** [[l.pop(0) for l in lists]]: the heads, and what is left. *)
Definition pop_heads {A} (lists : list (list A)) : result (list A * list (list A)) :=
  heads ← mapM (λ l, of_option IndexError (head l)) lists;
  Ok (heads, tail <$> lists).

(** [pop_map_results], when the merge stage needs it. *)
Definition refill : ST stages unit :=
  y ← st_get;
  match _map_result_buffer y with
  | (_ :: _) :: _ => mret tt
  | _ =>
      _ ← st_lift (py_assert (_merge_idx y =? 0));
      st_modify (λ y, mkStages (_input_blocks_list y) (_mapper_idx y) [] (_merge_idx y) (_map_results y)
                        (_all_merge_results y) (_reduce_arg_blocks y) (_reduce_results y))
  end.

(** [_MergeStageIterator.__next__] *)
Definition merge_next : ST stages (option Metadata) :=
  let schedule := merge_schedule stage in
  _ ← refill;
  y ← st_get;
  match _map_result_buffer y with
  | [] => mret None
  | _ =>
      '(merge_args, buffer) ← st_lift (pop_heads (_map_result_buffer y));
      _ ← st_lift (get_num_reducers_per_merge_idx schedule (_merge_idx y));
      _ ← st_lift (get_merge_task_options stage (_merge_idx y));
      '(merge_result, metadata) ← st_lift (_merge merge_args);
      results ← st_lift (py_nth (_all_merge_results y) (_merge_idx y));
      _ ← st_modify (λ y, mkStages (_input_blocks_list y) (_mapper_idx y) (_map_results y)
            ((_merge_idx y + 1) mod num_merge_tasks_per_round schedule) buffer
            (<[Z.to_nat (_merge_idx y) := results ++ [merge_result]]> (_all_merge_results y))
            (_reduce_arg_blocks y) (_reduce_results y));
      mret (Some metadata)
  end.

(** The arguments of the reduce tasks: the first loop of [_ReduceStageIterator]. *)
Fixpoint reduce_args (schedule : _MergeTaskSchedule) (idxs : list Z)
    (all_merge_results : list (list (list Block))) :
    result (list (Z * list Block) * list (list (list Block))) :=
  match idxs with
  | [] => Ok ([], all_merge_results)
  | reduce_idx :: idxs =>
      merge_idx ← get_merge_idx_for_reducer_idx schedule reduce_idx;
      merge_results ← py_nth all_merge_results merge_idx;
      '(blocks, rest) ← pop_heads merge_results;
      '(args, all_merge_results) ←
        reduce_args schedule idxs (<[Z.to_nat merge_idx := rest]> all_merge_results);
      Ok ((reduce_idx, blocks) :: args, all_merge_results)
  end.

(** [_ReduceStageIterator(stage, shuffle_reduce, all_merge_results, ...)] *)
Definition new_reduce_stage : ST stages unit :=
  let schedule := merge_schedule stage in
  y ← st_get;
  idxs ← st_lift (round_robin_reduce_idx_iterator schedule);
  '(args, rest) ← st_lift (reduce_args schedule idxs (_all_merge_results y));
  _ ← st_lift (py_assert (len args =? output_num_blocks schedule));
  _ ← st_lift (py_assert (forallb (forallb (λ r, len r =? 0)) rest));
  st_modify (λ y, mkStages (_input_blocks_list y) (_mapper_idx y) (_map_results y) (_merge_idx y)
                    (_map_result_buffer y) [] args []).

(** [_ReduceStageIterator.__next__] *)
Definition reduce_next : ST stages (option Metadata) :=
  let schedule := merge_schedule stage in
  y ← st_get;
  match _reduce_arg_blocks y with
  | [] => mret None
  | (reduce_idx, blocks) :: rest =>
      merge_idx ← st_lift (get_merge_idx_for_reducer_idx schedule reduce_idx);
      _ ← st_lift (get_merge_task_options stage merge_idx);
      let '(block, meta) := reduce_fn blocks in
      _ ← st_modify (λ y, mkStages (_input_blocks_list y) (_mapper_idx y) (_map_results y) (_merge_idx y)
                            (_map_result_buffer y) (_all_merge_results y) rest
                            (_reduce_results y ++ [(reduce_idx, block)]));
      mret (Some meta)
  end.

(** ** [PushBasedShufflePlan.execute] *)

(** The map-merge stage; each round but the last of the map tasks has a task. *)
Fixpoint map_merge_loop (fuel : nat) (map_stage merge_stage : _PipelinedStageExecutor Metadata) :
    ST stages (list Metadata * list Metadata) :=
  match fuel with
  | O => st_raise OutOfFuel
  | S fuel =>
      '(r, map_stage) ← next_round map_next map_stage;
      match r with
      | None => mret ([], [])
      | Some map_metadata =>
          '(r, merge_stage) ← next_round merge_next merge_stage;
          match r with
          | None => mret (map_metadata, [])
          | Some merge_metadata =>
              '(ms, gs) ← map_merge_loop fuel map_stage merge_stage;
              mret (map_metadata ++ ms, merge_metadata ++ gs)
          end
      end
  end.

Fixpoint reduce_loop (fuel : nat) (reduce_stage : _PipelinedStageExecutor Metadata) : ST stages (list Metadata) :=
  match fuel with
  | O => st_raise OutOfFuel
  | S fuel =>
      '(r, reduce_stage) ← next_round reduce_next reduce_stage;
      match r with
      | None => mret []
      | Some metadata => ms ← reduce_loop fuel reduce_stage; mret (metadata ++ ms)
      end
  end.

Record shuffle_stats := mkStats {
  stats_map : list Metadata;
  stats_merge : list Metadata;
  stats_reduce : list Metadata
}.

(** The blocks with their metadata, in the order of their indices. *)
Definition sort_results (results : list (Z * Out)) (metadata : list Metadata) :
    result (list (Z * Out * Metadata)) :=
  sorted_blocks ← mapM (λ p : nat * (Z * Out), meta ← py_nth metadata (Z.of_nat p.1); Ok (p.2, meta))
                    (zip (seq 0 (length results)) results);
  Ok (py_sorted Z.compare (λ p : Z * Out * Metadata, p.1.1) sorted_blocks).

(** The reduce stage, and the results in order. *)
Definition reduce_stage (max_reduce_tasks_in_flight : Z) : ST stages (list (Z * Out * Metadata)) :=
  _ ← new_reduce_stage;
  executor ← new_executor reduce_next max_reduce_tasks_in_flight 2;
  reduce_metadata ← reduce_loop (3 + Z.to_nat (output_num_blocks (merge_schedule stage))) executor;
  y ← st_get;
  st_lift (sort_results (_reduce_results y) reduce_metadata).

(** After the schedule is computed; [pipelined] bounds the reduce tasks in flight. *)
Definition push_based_execute (input_blocks : list Inp) (pipelined : option Z) :
    ST stages (list Out * shuffle_stats) :=
  let schedule := merge_schedule stage in
  map_stage ← new_executor map_next (num_map_tasks_per_round stage) 1;
  merge_stage ← new_executor merge_next (num_merge_tasks_per_round schedule) 2;
  '(map_metadata, merge_metadata) ← map_merge_loop (2 + length input_blocks) map_stage merge_stage;
  let max_reduce_tasks_in_flight :=
    match pipelined with
    | Some num_cpus => Z.min (output_num_blocks schedule) num_cpus
    | None => output_num_blocks schedule
    end in
  sorted_blocks ← reduce_stage max_reduce_tasks_in_flight;
  if len sorted_blocks =? 0 then st_raise ValueError else
  let new_blocks := (λ p : Z * Out * Metadata, p.1.2) <$> sorted_blocks in
  _ ← st_lift (py_assert (len new_blocks =? output_num_blocks schedule));
  mret (new_blocks, mkStats map_metadata merge_metadata (snd <$> sorted_blocks)).

(** The stages before the first task. *)
Definition initial_stages (input_blocks : list Inp) : stages :=
  mkStages input_blocks 0 [] 0 []
    (replicate (Z.to_nat (num_merge_tasks_per_round (merge_schedule stage))) []) [] [].
End shuffle.

Arguments stages : clear implicits.
Arguments shuffle_stats : clear implicits.
Arguments mkStages {Inp Block Out}.
Arguments mkStats {Metadata}.

(** The whole of [PushBasedShufflePlan.execute]. *)
Definition execute {Inp Block Out Metadata} (map_fn : Z → Inp → Z → list Block * Metadata)
    (partial_fn : list Block → Block * Metadata) (reduce_fn : list Block → Out * Metadata)
    (merge_metadata : list Block → Metadata)
    (num_cpus_per_node_map : dict string Z) (merge_factor : Z) (pipeline : bool)
    (input_blocks : list Inp) (output_num_blocks : Z) : result (list Out * shuffle_stats Metadata) :=
  stage ← _compute_shuffle_schedule num_cpus_per_node_map (len input_blocks) merge_factor output_num_blocks;
  (push_based_execute map_fn partial_fn reduce_fn merge_metadata stage input_blocks
     (if pipeline then Some (sumZ (dvalues num_cpus_per_node_map)) else None)
     (initial_stages stage input_blocks)).2.
