(* ===== verification/DataShuffleProofs.v ===== *)
(** * What shuffles promise

    The partition of the reducers among the merge tasks, the schedule, and the equivalence
    of the push-based shuffle with the simple one.  The merge task that a reducer is
    looked up at is the right one only if no more partitions have an extra reducer than
    a partition has reducers. *)
From S2P Require Import Prelude PyLists DataShuffle.
From stdpp Require Import base tactics list strings sorting.

#[local] Open Scope Z_scope.

Lemma len_omap_all {A B} (f : A → option B) l : (∀ a, a ∈ l → is_Some (f a)) → len (omap f l) = len l.
Proof.
  induction l as [|a l IH]; intros Hf; [done|]. cbn. destruct (Hf a ltac:(left)) as [b ->].
  rewrite !len_cons, IH; [done|]. intros. apply Hf. by right.
Qed.

Lemma omap_none {A B} (f : A → option B) l : (∀ a, a ∈ l → f a = None) → omap f l = [].
Proof.
  induction l as [|a l IH]; intros Hf; [done|]. cbn. rewrite (Hf a ltac:(left)).
  apply IH. intros. apply Hf. by right.
Qed.

Lemma list_elem_of_concat {A} (x : A) ls : x ∈ concat ls ↔ ∃ l, x ∈ l ∧ l ∈ ls.
Proof. rewrite list_elem_of_In, in_concat. setoid_rewrite list_elem_of_In. naive_solver. Qed.

Lemma NoDup_omap_inj {A B} (f : A → option B) l :
  (∀ a1 a2 b, f a1 = Some b → f a2 = Some b → a1 = a2) → NoDup l → NoDup (omap f l).
Proof.
  intros Hf. induction 1 as [|a l Ha Hnd IH]; cbn; [constructor|]. destruct (f a) as [b|] eqn:Hb; [|done].
  constructor; [|done]. intros (a' & Ha' & Hb')%list_elem_of_omap. by rewrite (Hf a a' b) in Ha.
Qed.

(** ** Partitions of reducers *)

(** Of [out = q * n + e] reducers, the first [e] merge tasks have [q + 1], the others [q]. *)
Record schedule_ok (s : _MergeTaskSchedule) : Prop := {
  so_out : output_num_blocks s =
    merge_partition_size s * num_merge_tasks_per_round s + _partitions_with_extra_task s;
  so_extra : 0 ≤ _partitions_with_extra_task s < num_merge_tasks_per_round s;
  so_size : 0 ≤ merge_partition_size s
}.

Lemma new_schedule_ok out n s : 0 ≤ out → 0 < n → new_schedule out n = Ok s → schedule_ok s.
Proof.
  intros Hout Hn. unfold new_schedule. rewrite (proj2 (Z.eqb_neq n 0)) by lia. intros [= <-]. split; cbn.
  - pose proof (Z.div_mod out n ltac:(lia)). lia.
  - apply Z.mod_pos_bound. lia.
  - apply Z.div_pos; lia.
Qed.

(** The number of reducers of a merge task, and the first of them. *)
Definition psize (s : _MergeTaskSchedule) (m : Z) : Z :=
  if m <? _partitions_with_extra_task s then merge_partition_size s + 1 else merge_partition_size s.

Definition base (s : _MergeTaskSchedule) (m : Z) : Z :=
  if m <? _partitions_with_extra_task s then m * (merge_partition_size s + 1)
  else _partitions_with_extra_task s * (merge_partition_size s + 1) +
       (m - _partitions_with_extra_task s) * merge_partition_size s.

Section schedule.
Context (s : _MergeTaskSchedule) (Hs : schedule_ok s).
Let n := num_merge_tasks_per_round s.

Lemma psize_nonneg m : 0 ≤ psize s m.
Proof using Hs. destruct Hs. unfold psize. destruct (Z.ltb_spec m (_partitions_with_extra_task s)); lia. Qed.

Lemma base_0 : base s 0 = 0.
Proof using Hs. destruct Hs. unfold base. destruct (Z.ltb_spec 0 (_partitions_with_extra_task s)); nia. Qed.

Lemma base_succ m : base s (m + 1) = base s m + psize s m.
Proof.
  unfold base, psize. destruct (Z.ltb_spec (m + 1) (_partitions_with_extra_task s)),
    (Z.ltb_spec m (_partitions_with_extra_task s)); try nia.
Qed.

Lemma base_end : base s n = output_num_blocks s.
Proof using Hs.
  destruct Hs as [Hout He Hq]. unfold base, n. rewrite (proj2 (Z.ltb_ge _ _)) by lia. nia.
Qed.

Lemma base_mono m m' : m ≤ m' → base s m ≤ base s m'.
Proof using Hs.
  intros Hm. replace m' with (m + Z.of_nat (Z.to_nat (m' - m))) by lia.
  induction (Z.to_nat (m' - m)) as [|k IH]; [by rewrite Z.add_0_r|].
  replace (m + Z.of_nat (S k)) with (m + Z.of_nat k + 1) by lia. rewrite base_succ.
  pose proof (psize_nonneg (m + Z.of_nat k)). lia.
Qed.

(** A reducer is in one partition. *)
Lemma base_unique m k m' k' :
  0 ≤ k < psize s m → 0 ≤ k' < psize s m' → base s m + k = base s m' + k' → m = m' ∧ k = k'.
Proof using Hs.
  intros Hk Hk' Heq. assert (m = m') as ->; [|lia].
  destruct (Z.lt_trichotomy m m') as [Hlt|[?|Hlt]]; [|done|]; exfalso.
  - pose proof (base_mono (m + 1) m' ltac:(lia)). rewrite base_succ in *. lia.
  - pose proof (base_mono (m' + 1) m ltac:(lia)). rewrite base_succ in *. lia.
Qed.

Lemma base_bounds m k : 0 ≤ m < n → 0 ≤ k < psize s m → 0 ≤ base s m + k < output_num_blocks s.
Proof using Hs.
  intros Hm Hk. rewrite <- base_end. pose proof (base_mono 0 m ltac:(lia)). rewrite base_0 in *.
  pose proof (base_mono (m + 1) n ltac:(lia)). rewrite base_succ in *. lia.
Qed.

(** Every reducer is in a partition. *)
Lemma base_onto r : 0 ≤ r < output_num_blocks s → ∃ m k, 0 ≤ m < n ∧ 0 ≤ k < psize s m ∧ r = base s m + k.
Proof using Hs.
  intros Hr.
  assert (∀ j : nat, r < base s (Z.of_nat j) → ∃ m k, 0 ≤ m < Z.of_nat j ∧ 0 ≤ k < psize s m ∧ r = base s m + k) as Hall.
  { intros j. induction j as [|j IH]; [change (Z.of_nat 0) with 0; rewrite base_0; lia|].
    replace (Z.of_nat (S j)) with (Z.of_nat j + 1) by lia. rewrite base_succ. intros Hj.
    destruct (Z.ltb_spec r (base s (Z.of_nat j))) as [Hlt|Hge].
    - destruct (IH Hlt) as (m & k & ? & ? & ?). exists m, k. split_and!; lia.
    - exists (Z.of_nat j), (r - base s (Z.of_nat j)). split_and!; lia. }
  destruct Hs as [_ He _]. destruct (Hall (Z.to_nat n)) as (m & k & ? & ? & ?).
  { rewrite Z2Nat.id by (unfold n; lia). rewrite base_end. lia. }
  exists m, k. split_and!; [lia..|done].
Qed.

Lemma num_reducers_eq m : m < n → get_num_reducers_per_merge_idx s m = Ok (psize s m).
Proof. intros Hm. unfold get_num_reducers_per_merge_idx. fold n. rewrite (proj2 (Z.ltb_lt m n)) by done. done. Qed.

(** The look-up is right when no more partitions have an extra reducer than a partition has. *)
Lemma merge_idx_right m k :
  0 < merge_partition_size s → _partitions_with_extra_task s ≤ merge_partition_size s →
  0 ≤ m < n → 0 ≤ k < psize s m → get_merge_idx_for_reducer_idx s (base s m + k) = Ok m.
Proof.
  unfold get_merge_idx_for_reducer_idx, base, psize. fold n.
  set (q := merge_partition_size s). set (e := _partitions_with_extra_task s). intros Hq Heq Hm.
  rewrite (proj2 (Z.eqb_neq q 0)) by lia.
  assert (∀ i, i = m → (if i <? n then Ok i else Err AssertionError) = Ok m) as Hend.
  { intros i ->. by rewrite (proj2 (Z.ltb_lt m n)) by lia. }
  destruct (Z.ltb_spec m e) as [Hme|Hme]; intros Hk; cbn.
  - destruct (Z.ltb_spec (m * (q + 1) + k) (q * e)) as [Hr|Hr]; cbn; apply Hend.
    + symmetry. apply (Z.div_unique _ _ m k); lia.
    + assert (m = e - 1) as Hm1 by nia.
      enough ((m * (q + 1) + k - (q + 1) * e) / q = -1) by lia.
      symmetry. apply (Z.div_unique _ _ (-1) (q + (m * (q + 1) + k - (q + 1) * e))); nia.
  - rewrite (proj2 (Z.ltb_ge _ _)) by nia. cbn. apply Hend.
    enough ((e * (q + 1) + (m - e) * q + k - (q + 1) * e) / q = m - e) by lia.
    symmetry. apply (Z.div_unique _ _ (m - e) k); lia.
Qed.

(** Otherwise the first reducer of the last partition with an extra one is looked up at the
    partition before it. *)
Lemma merge_idx_wrong :
  0 < merge_partition_size s → merge_partition_size s < _partitions_with_extra_task s →
  get_merge_idx_for_reducer_idx s (base s (_partitions_with_extra_task s - 1)) =
    Ok (_partitions_with_extra_task s - 2).
Proof using Hs.
  intros Hq He. destruct Hs as [_ Hen _]. unfold get_merge_idx_for_reducer_idx, base.
  set (q := merge_partition_size s) in *. set (e := _partitions_with_extra_task s) in *.
  rewrite (proj2 (Z.ltb_lt (e - 1) e)), (proj2 (Z.ltb_ge _ _)), (proj2 (Z.eqb_neq q 0)) by nia. cbn.
  replace ((e - 1) * (q + 1) - (q + 1) * e) with (- (q + 1)) by lia.
  assert (- (q + 1) / q = -2) as ->.
  { destruct (Z.eq_dec q 1) as [->|Hq1]; [done|]. symmetry. apply (Z.div_unique _ _ (-2) (q - 1)); lia. }
  rewrite (proj2 (Z.ltb_lt _ _)) by lia. f_equal.
Qed.

(** ** The order of the reduce tasks *)

Lemma reduce_idx_of_eq k m : reduce_idx_of s k m = if psize s m <=? k then None else Some (base s m + k).
Proof. unfold reduce_idx_of, psize, base. by destruct (m <? _). Qed.

Lemma elem_of_row k r :
  r ∈ reduce_idx_row s k ↔ ∃ m, 0 ≤ m < n ∧ k < psize s m ∧ r = base s m + k.
Proof.
  unfold reduce_idx_row. rewrite list_elem_of_omap. setoid_rewrite elem_of_seqZ. fold n. setoid_rewrite reduce_idx_of_eq.
  split.
  - intros (m & Hm & Hr). destruct (Z.leb_spec (psize s m) k); [done|]. injection Hr as <-. exists m. split_and!; lia.
  - intros (m & Hm & Hk & ->). exists m. split; [lia|]. by rewrite (proj2 (Z.leb_gt _ _)).
Qed.

Lemma len_row k :
  0 ≤ k ≤ merge_partition_size s →
  len (reduce_idx_row s k) = if k <? merge_partition_size s then n else _partitions_with_extra_task s.
Proof using Hs.
  intros Hk. destruct Hs as [_ He _]. unfold reduce_idx_row. fold n.
  destruct (Z.ltb_spec k (merge_partition_size s)) as [Hlt|Hge].
  - rewrite len_omap_all; [unfold len; rewrite length_seqZ; lia|].
    intros m _. rewrite reduce_idx_of_eq. unfold psize. destruct (m <? _); rewrite (proj2 (Z.leb_gt _ _)) by lia; done.
  - replace (seqZ 0 n) with (seqZ 0 (_partitions_with_extra_task s) ++
      seqZ (0 + _partitions_with_extra_task s) (n - _partitions_with_extra_task s)).
    2: { rewrite <- seqZ_app by (unfold n; lia). f_equal; lia. }
    rewrite omap_app, len_app, len_omap_all, omap_none.
    + unfold len. cbn. rewrite length_seqZ. lia.
    + intros m [Hm _]%elem_of_seqZ. rewrite reduce_idx_of_eq. unfold psize.
      rewrite (proj2 (Z.ltb_ge _ _)) by lia. by rewrite (proj2 (Z.leb_le _ _)) by lia.
    + intros m [_ Hm]%elem_of_seqZ. rewrite reduce_idx_of_eq. unfold psize.
      rewrite (proj2 (Z.ltb_lt _ _)) by lia. by rewrite (proj2 (Z.leb_gt _ _)) by lia.
Qed.

Lemma reduce_idx_rows_eq fuel k :
  0 ≤ k → k + Z.of_nat fuel = merge_partition_size s + 1 →
  reduce_idx_rows fuel s (Z.min (n * k) (output_num_blocks s)) k =
    Ok (concat (reduce_idx_row s <$> seqZ k (Z.of_nat fuel))).
Proof using Hs.
  pose proof Hs as [Hout He Hq]. fold n in Hout, He. revert k. induction fuel as [|fuel IH]; intros k Hk Hf.
  { cbn. rewrite (proj2 (Z.ltb_ge _ _)); [done|]. rewrite Z.min_r; nia. }
  cbn [reduce_idx_rows]. rewrite Z.min_l by nia.
  replace (seqZ k (Z.of_nat (S fuel))) with (k :: seqZ (k + 1) (Z.of_nat fuel)).
  2: { rewrite (seqZ_cons k (Z.of_nat (S fuel))) by lia. do 2 f_equal; lia. }
  rewrite fmap_cons. cbn [concat]. pose proof (len_row k ltac:(lia)) as Hlen.
  destruct (Z.ltb_spec (n * k) (output_num_blocks s)) as [Hlt|Hge].
  - replace (n * k + len (reduce_idx_row s k)) with (Z.min (n * (k + 1)) (output_num_blocks s)).
    { rewrite IH by lia. done. }
    rewrite Hlen. destruct (Z.ltb_spec k (merge_partition_size s)); nia.
  - assert (fuel = 0%nat ∧ k = merge_partition_size s ∧ _partitions_with_extra_task s = 0) as (-> & -> & He0) by nia.
    rewrite Z.ltb_irrefl, He0 in Hlen. destruct (reduce_idx_row s _); [done|]. rewrite len_cons in Hlen.
    pose proof (len_nonneg l). lia.
Qed.

Definition reduce_order : list Z := concat (reduce_idx_row s <$> seqZ 0 (merge_partition_size s + 1)).

Lemma round_robin_eq : round_robin_reduce_idx_iterator s = Ok reduce_order.
Proof using Hs.
  pose proof Hs as [Hout He Hq]. fold n in Hout, He. unfold round_robin_reduce_idx_iterator, reduce_order.
  replace (merge_partition_size s + 1) with (Z.of_nat (Z.to_nat (merge_partition_size s + 1))) at 2 by lia.
  rewrite <- reduce_idx_rows_eq by lia. f_equal. nia.
Qed.

Lemma elem_of_order r : r ∈ reduce_order ↔ 0 ≤ r < output_num_blocks s.
Proof using Hs.
  unfold reduce_order. rewrite list_elem_of_concat. setoid_rewrite list_elem_of_fmap. setoid_rewrite elem_of_seqZ. split.
  - intros (l & Hr & k & -> & Hk). apply elem_of_row in Hr as (m & Hm & Hkm & ->). apply base_bounds; lia.
  - intros Hr. destruct (base_onto r Hr) as (m & k & Hm & Hk & ->). exists (reduce_idx_row s k).
    split; [apply elem_of_row; exists m; split_and!; lia|]. exists k. split; [done|].
    unfold psize in Hk. destruct (m <? _); lia.
Qed.

Lemma order_NoDup : NoDup reduce_order.
Proof using Hs.
  unfold reduce_order. generalize (merge_partition_size s + 1). intros z.
  assert (∀ l : list Z, Forall (λ k, 0 ≤ k) l → NoDup l → NoDup (concat (reduce_idx_row s <$> l))) as Hall.
  { induction l as [|k l IH]; intros Hpos Hnd; [constructor|]. apply Forall_cons in Hpos as [Hk Hpos].
    apply NoDup_cons in Hnd as [Hkl Hnd]. rewrite fmap_cons. cbn [concat]. apply NoDup_app. split_and!; [| |by apply IH].
    - unfold reduce_idx_row. apply (NoDup_omap_inj (reduce_idx_of s k)); [|apply NoDup_seqZ].
      intros m1 m2 r. rewrite !reduce_idx_of_eq.
      destruct (Z.leb_spec (psize s m1) k), (Z.leb_spec (psize s m2) k); try done. intros [= H1] [= H2].
      by destruct (base_unique m1 k m2 k); [lia..|].
    - intros r Hr (l' & Hr' & (k' & -> & Hk')%list_elem_of_fmap)%list_elem_of_concat.
      apply elem_of_row in Hr as (m & Hm & Hkm & ->). apply elem_of_row in Hr' as (m' & Hm' & Hkm' & Heq).
      rewrite Forall_forall in Hpos. pose proof (Hpos k' Hk'). destruct (base_unique m k m' k'); [lia..|]. by subst. }
  apply Hall; [|apply NoDup_seqZ]. apply Forall_forall. intros k [? _]%elem_of_seqZ. done.
Qed.

Lemma order_perm : reduce_order ≡ₚ seqZ 0 (output_num_blocks s).
Proof using Hs.
  apply NoDup_Permutation; [apply order_NoDup|apply NoDup_seqZ|]. intros r. rewrite elem_of_order, elem_of_seqZ. lia.
Qed.
End schedule.

(** ** Map and merge tasks *)

Lemma py_slice_from {A} a (l : list A) : 0 ≤ a → py_slice a None l = drop (Z.to_nat a) l.
Proof.
  intros Ha. unfold py_slice, slice_index. rewrite (proj2 (Z.ltb_ge a 0)) by lia. unfold len.
  destruct (Z.le_ge_cases a (Z.of_nat (length l))).
  - rewrite Z.min_l by lia. rewrite take_ge; [done|]. rewrite length_drop. lia.
  - rewrite Z.min_r by lia. rewrite Z.sub_diag, (drop_ge l (Z.to_nat a)) by lia. done.
Qed.

Lemma py_nth_nat {A} (l : list A) i a : 0 ≤ i → l !! Z.to_nat i = Some a → py_nth l i = Ok a.
Proof.
  intros Hi Ha. unfold py_nth. rewrite (proj2 (Z.ltb_ge i 0)) by lia. rewrite (proj2 (Z.ltb_ge i 0)) by lia. cbn.
  apply lookup_lt_Some in Ha as Hlt. rewrite (proj2 (Z.leb_gt _ _)) by (unfold len; lia). by rewrite Ha.
Qed.

(** Rounds of an executor. *)
Section rounds.
Context {T M : Type} (next : ST T (option M)) (N K : Z).

Lemma submit_round_eq rounds y y' ms :
  len rounds < K → submit_tasks next (Z.to_nat N) y = (y', Ok ms) →
  _submit_round next (mkExecutor N K rounds) y = (y', Ok (mkExecutor N K (rounds ++ [ms]))).
Proof.
  intros HK Hsub. unfold _submit_round, mbind, st_bind, st_lift.
  cbn [_rounds _max_concurrent_rounds _num_tasks_per_round]. rewrite (proj2 (Z.ltb_lt _ _)) by done. cbn.
  by rewrite Hsub.
Qed.

Lemma next_round_keep rounds y y' ms :
  forallb (λ r, len r =? 0) rounds = false → len rounds < K →
  submit_tasks next (Z.to_nat N) y = (y', Ok ms) →
  next_round next (mkExecutor N K rounds) y = (y', Ok (Some [], mkExecutor N K (rounds ++ [ms]))).
Proof.
  intros Hall HK Hsub. unfold next_round. cbn [_rounds _max_concurrent_rounds _num_tasks_per_round].
  rewrite Hall, (proj2 (Z.leb_gt _ _)) by done. unfold mbind, st_bind, mret, st_ret.
  by rewrite (submit_round_eq _ _ _ _ HK Hsub).
Qed.

Lemma next_round_pop r rounds y y' ms :
  forallb (λ r, len r =? 0) (r :: rounds) = false → len (r :: rounds) = K →
  submit_tasks next (Z.to_nat N) y = (y', Ok ms) →
  next_round next (mkExecutor N K (r :: rounds)) y = (y', Ok (Some r, mkExecutor N K (rounds ++ [ms]))).
Proof.
  intros Hall HK Hsub. unfold next_round. cbn [_rounds _max_concurrent_rounds _num_tasks_per_round].
  rewrite Hall, (proj2 (Z.leb_le _ _)) by lia. unfold mbind, st_bind, mret, st_ret.
  rewrite len_cons in HK. rewrite (submit_round_eq rounds y y' ms); [done|lia|done].
Qed.

Lemma some_round (rounds : list (list M)) x :
  x ∈ rounds → x ≠ [] → forallb (λ r, len r =? 0) rounds = false.
Proof.
  intros Hx Hne. apply not_true_iff_false. rewrite forallb_forall. intros Hall.
  apply list_elem_of_In, Hall in Hx. destruct x; [done|]. rewrite len_cons in Hx. pose proof (len_nonneg x). lia.
Qed.
End rounds.

(** ** Results in order *)

Lemma seqZ_sorted a z : StronglySorted Z.le (seqZ a z).
Proof.
  destruct (Z.le_ge_cases z 0); [rewrite seqZ_nil by done; constructor|].
  replace z with (Z.of_nat (Z.to_nat z)) by lia. revert a. induction (Z.to_nat z) as [|k IH]; intros a; [constructor|].
  rewrite seqZ_cons by lia. replace (Z.pred (Z.of_nat (S k))) with (Z.of_nat k) by lia. constructor; [apply IH|].
  apply Forall_forall. intros x [? _]%elem_of_seqZ. lia.
Qed.

(** Sorting elements by their distinct keys. *)
Lemma py_sorted_keys {A} (key : A → Z) (g : Z → A) (l : list Z) z :
  (∀ r, key (g r) = r) → l ≡ₚ seqZ 0 z → py_sorted Z.compare key (g <$> l) = g <$> seqZ 0 z.
Proof.
  intros Hkey Hl. set (l' := py_sorted Z.compare key (g <$> l)).
  assert (l' ≡ₚ g <$> l) as Hp by apply py_sorted_perm.
  assert (StronglySorted Z.le (key <$> l')) as Hsort.
  { assert (StronglySorted (λ x y, match key x ?= key y with Gt => false | _ => true end = true) l') as Hss.
    { apply stable_sort_sorted.
      - intros x y. destruct (Z.compare_spec (key x) (key y)), (Z.compare_spec (key y) (key x)); done || lia.
      - intros x y w. destruct (Z.compare_spec (key x) (key y)), (Z.compare_spec (key y) (key w)),
          (Z.compare_spec (key x) (key w)); done || lia. }
    clear -Hss. clearbody l'. induction Hss as [|x l0 Hss IH Hx]; [constructor|]. cbn. constructor; [done|]. apply Forall_fmap. eapply Forall_impl; [exact Hx|].
    cbn. intros y. destruct (Z.compare_spec (key x) (key y)); done || lia. }
  assert (key <$> l' = seqZ 0 z) as Hkeys.
  { apply (StronglySorted_unique Z.le); [done|apply seqZ_sorted|]. rewrite Hp, <- list_fmap_compose, <- Hl.
    rewrite (list_fmap_ext _ id); [by rewrite list_fmap_id|]. intros i r _. apply Hkey. }
  rewrite <- Hkeys, <- list_fmap_compose. rewrite <- (list_fmap_id l') at 1. apply list_fmap_ext. intros i x Hx. cbn.
  apply list_elem_of_lookup_2 in Hx. rewrite Hp in Hx. apply list_elem_of_fmap in Hx as (r & -> & _). by rewrite Hkey.
Qed.

Lemma zip_results {Block Metadata} (f : Z → Z * Block) (g : Z → Metadata) l1 l2 :
  mapM (λ p : nat * (Z * Block), meta ← py_nth (g <$> (l1 ++ l2)) (Z.of_nat p.1); Ok (p.2, meta))
    (zip (seq (length l1) (length l2)) (f <$> l2)) = Ok ((λ r, (f r, g r)) <$> l2).
Proof.
  revert l1. induction l2 as [|r l2 IH]; intros l1; [done|]. cbn [length seq zip zip_with fmap list_fmap mapM]. cbn [fst snd].
  rewrite (py_nth_nat _ _ (g r)); [|lia|].
  - cbn. specialize (IH (l1 ++ [r])). rewrite length_app, <- app_assoc in IH. cbn in IH.
    rewrite Nat.add_1_r in IH. by rewrite IH.
  - rewrite Nat2Z.id, list_lookup_fmap, lookup_app_r, Nat.sub_diag by lia. done.
Qed.

Lemma sort_results_eq {Block Metadata} (h : Z → Block) (g : Z → Metadata) l z :
  l ≡ₚ seqZ 0 z →
  sort_results ((λ r, (r, h r)) <$> l) (g <$> l) = Ok ((λ r, (r, h r, g r)) <$> seqZ 0 z).
Proof.
  intros Hl. unfold sort_results. rewrite length_fmap. pose proof (zip_results (λ r, (r, h r)) g [] l) as Hz.
  cbn [app length] in Hz. rewrite Hz. cbn. f_equal. by apply (py_sorted_keys _ (λ r, (r, h r, g r))).
Qed.

Lemma partition_outputs_S {Block} s fuel m (l : list Block) :
  l ≠ [] → partition_outputs (S fuel) s m l =
    (partition_size ← get_num_reducers_per_merge_idx s m;
     parts ← partition_outputs fuel s (m + 1) (py_slice partition_size None l);
     Ok (py_slice 0 (Some partition_size) l :: parts)).
Proof. by destruct l. Qed.

(** The blocks of reducer [r]. *)
Definition column {Block} (r : Z) (outs : list (list Block)) : list Block :=
  omap (λ l : list Block, l !! Z.to_nat r) outs.

Section stages.
Context {Inp Block Out Metadata : Type}.
Context (map_fn : Z → Inp → Z → list Block * Metadata).
Context (partial_fn : list Block → Block * Metadata) (reduce_fn : list Block → Out * Metadata).
Context (merge_metadata : list Block → Metadata).
Context (stage : _PushBasedShuffleStage).
Let s := merge_schedule stage.
Let n := num_merge_tasks_per_round s.
Let out := output_num_blocks s.
Context (Hs : schedule_ok s) (Hq : 0 < merge_partition_size s).
Context (Hplace : len (merge_task_placement stage) = n).
Context (Hmap : ∀ i b, len (map_fn i b out).1 = out).

(** What a mapper gives a merge task. *)
Definition part (l : list Block) (m : Z) : list Block :=
  take (Z.to_nat (psize s m)) (drop (Z.to_nat (base s m)) l).
Definition parts (l : list Block) : list (list Block) := part l <$> seqZ 0 n.

Lemma base_pos m : 0 ≤ m → 0 ≤ base s m.
Proof using Hs. intros Hm. pose proof (base_mono s Hs 0 m Hm). by rewrite (base_0 s Hs) in *. Qed.

Lemma psize_pos m : 0 < psize s m.
Proof using Hq. unfold psize. destruct (m <? _); lia. Qed.

Lemma part_lookup l m k :
  0 ≤ m → 0 ≤ k < psize s m → part l m !! Z.to_nat k = l !! Z.to_nat (base s m + k).
Proof using Hs.
  intros Hm Hk. pose proof (base_pos m Hm). unfold part.
  rewrite lookup_take_lt, lookup_drop by lia. f_equal. lia.
Qed.

Lemma len_part l m : 0 ≤ m < n → len l = out → len (part l m) = psize s m.
Proof using Hs.
  intros Hm Hl. unfold len, part in *. rewrite length_take, length_drop.
  pose proof (base_pos m ltac:(lia)). pose proof (psize_nonneg s Hs m).
  destruct (decide (psize s m = 0)); [lia|].
  pose proof (base_bounds s Hs m (psize s m - 1) ltac:(done) ltac:(lia)) as Hb. fold out in Hb. lia.
Qed.

Lemma partition_outputs_from l (j : nat) m :
  len l = out → 0 ≤ m → m + Z.of_nat j = n →
  partition_outputs (S j) s m (drop (Z.to_nat (base s m)) l) = Ok (part l <$> seqZ m (Z.of_nat j)).
Proof using Hs Hq.
  intros Hl. revert m. induction j as [|j IH]; intros m Hm Hj.
  { replace m with n by lia. pose proof (base_end s Hs) as He. fold n out in He. rewrite He, <- Hl, drop_ge by (unfold len; lia). done. }
  pose proof (base_bounds s Hs m 0 ltac:(lia) ltac:(pose proof (psize_pos m); lia)) as Hb. fold out in Hb.
  assert (drop (Z.to_nat (base s m)) l ≠ []) as Hne.
  { intros Hnil%(f_equal length). rewrite length_drop in Hnil. unfold len in Hl. cbn in Hnil. lia. }
  pose proof (psize_pos m) as Hps.
  rewrite seqZ_cons by lia. rewrite fmap_cons. replace (Z.pred (Z.of_nat (S j))) with (Z.of_nat j) by lia.
  rewrite partition_outputs_S by done.
  rewrite (num_reducers_eq s m) by (fold n; lia). cbn [mbind result_bind].
  rewrite py_slice_from, drop_drop, py_slice_take by lia. rewrite <- Z2Nat.inj_add by lia. rewrite <- base_succ.
  change (Z.succ m) with (m + 1). specialize (IH (m + 1) ltac:(lia) ltac:(lia)). cbn [mbind result_bind]. rewrite IH.
  done.
Qed.

Lemma map_partition_eq i b :
  _map_partition map_fn i b out s = Ok (parts (map_fn i b out).1, (map_fn i b out).2).
Proof using Hs Hq Hmap.
  unfold _map_partition. specialize (Hmap i b). destruct (map_fn i b out) as [l meta]. cbn in Hmap. cbn [fst snd].
  pose proof (so_extra s Hs) as Hn. fold n in Hn.
  pose proof (partition_outputs_from l (Z.to_nat n) 0 Hmap ltac:(lia) ltac:(lia)) as Hp.
  rewrite (base_0 s Hs) in Hp. change (drop (Z.to_nat 0) l) with l in Hp. fold n. rewrite Hp. rewrite Z2Nat.id by lia. fold (parts l). cbn.
  unfold parts at 1. rewrite len_fmap. unfold len. rewrite length_seqZ, Z2Nat.id by lia.
  by rewrite Z.eqb_refl.
Qed.

(** The outputs and the metadata of map tasks. *)
Fixpoint map_outs (i : Z) (bs : list Inp) : list (list Block) :=
  match bs with [] => [] | b :: bs => (map_fn i b out).1 :: map_outs (i + 1) bs end.
Fixpoint map_metas (i : Z) (bs : list Inp) : list Metadata :=
  match bs with [] => [] | b :: bs => (map_fn i b out).2 :: map_metas (i + 1) bs end.

Lemma map_submit k (bs : list Inp) i R mi buf A ra (rr : list (Z * Out)) :
  submit_tasks (map_next map_fn stage) k (mkStages bs i R mi buf A ra rr) =
  (mkStages (drop k bs) (i + len (take k bs)) (R ++ (parts <$> map_outs i (take k bs))) mi buf A ra rr,
   Ok (map_metas i (take k bs))).
Proof using Hs Hq Hmap.
  revert bs i R. induction k as [|k IH]; intros bs i R.
  { cbn. by rewrite Z.add_0_r, app_nil_r. }
  destruct bs as [|b bs]; [cbn; by rewrite Z.add_0_r, app_nil_r|].
  cbn [submit_tasks]. unfold mbind, st_bind. unfold map_next at 1. unfold mbind, st_bind, st_get, st_lift, st_modify.
  cbn [_input_blocks_list _mapper_idx]. fold s. fold out. rewrite map_partition_eq. cbn.
  rewrite IH, len_cons, <- app_assoc. by replace (i + 1 + len (take k bs)) with (i + (len (take k bs) + 1)) by lia.
Qed.

Lemma map_outs_app i bs1 bs2 : map_outs i (bs1 ++ bs2) = map_outs i bs1 ++ map_outs (i + len bs1) bs2.
Proof.
  revert i. induction bs1 as [|b bs1 IH]; intros i; cbn; [by rewrite Z.add_0_r|]. rewrite IH, len_cons. do 3 f_equal. lia.
Qed.

Lemma map_outs_len i bs : Forall (λ l, len l = out) (map_outs i bs).
Proof using Hmap. revert i. induction bs; intros i; cbn; constructor; auto. Qed.

(** What merge task [m] makes of a round. *)
Definition merged (outs : list (list Block)) (m : Z) : list Block :=
  (λ k, (partial_fn (column (base s m + k) outs)).1) <$> seqZ 0 (psize s m).

Lemma zip_star_parts outs m :
  0 ≤ m → zip_star (Z.to_nat (psize s m)) ((λ l, part l m) <$> outs) =
    (λ k, column (base s m + k) outs) <$> seqZ 0 (psize s m).
Proof using Hs.
  intros Hm. unfold zip_star, seqZ. rewrite <- list_fmap_compose. apply list_fmap_ext. intros j k Hk.
  apply lookup_seq in Hk as [-> Hj]. cbn. rewrite Z.add_0_r. unfold column.
  induction outs as [|l outs IH]; [done|]. cbn.
  pose proof (part_lookup l m (Z.of_nat j) Hm ltac:(lia)) as Hl. rewrite Nat2Z.id in Hl. rewrite Hl.
  destruct (l !! _); by rewrite IH.
Qed.

Lemma merge_eq outs m :
  outs ≠ [] → Forall (λ l, len l = out) outs → 0 ≤ m < n →
  ∃ meta, _merge partial_fn merge_metadata ((λ l, part l m) <$> outs) = Ok (merged outs m, meta).
Proof using Hs.
  intros Hne Hlen Hm. destruct outs as [|l outs]; [done|]. rewrite fmap_cons. unfold _merge.
  rewrite (proj2 (forallb_forall _ _)).
  - eexists. apply Forall_cons in Hlen as [Hl _].
    pose proof (len_part l m Hm Hl) as Hp. pose proof (zip_star_parts (l :: outs) m ltac:(lia)) as Hz.
    unfold len in Hp. rewrite fmap_cons in Hz. rewrite <- Hp, Nat2Z.id in Hz. rewrite Hz, Hp.
    rewrite <- list_fmap_compose. reflexivity.
  - intros l' (l0 & -> & Hl0)%list_elem_of_In%list_elem_of_fmap. apply Forall_cons in Hlen as [Hl Hlen].
    rewrite Forall_forall in Hlen. rewrite !len_part by auto. apply Z.eqb_refl.
Qed.

(** ** Rounds of merge tasks *)

(** The merge results, by merge task. *)
Definition holds (A : list (list (list Block))) (f : Z → list (list Block)) : Prop :=
  len A = n ∧ ∀ m, 0 ≤ m < n → A !! Z.to_nat m = Some (f m).

Lemma holds_insert A f j x :
  holds A f → 0 ≤ j < n → holds (<[Z.to_nat j := x]> A) (λ m, if decide (m = j) then x else f m).
Proof.
  intros [Hlen HA] Hj. split; [unfold len in *; by rewrite length_insert|]. intros m Hm. case_decide as Hmj.
  - subst. rewrite list_lookup_insert_eq; [done|]. unfold len in Hlen. lia.
  - rewrite list_lookup_insert_ne by lia. by apply HA.
Qed.

Lemma parts_lookup l j : 0 ≤ j < n → parts l !! Z.to_nat j = Some (part l j).
Proof.
  intros Hj. unfold parts. rewrite list_lookup_fmap, lookup_seqZ_lt by lia. cbn. do 2 f_equal. lia.
Qed.

Lemma drop_parts l j :
  0 ≤ j < n → drop (Z.to_nat j) (parts l) = part l j :: drop (Z.to_nat (j + 1)) (parts l).
Proof.
  intros Hj. rewrite (drop_S _ (part l j)) by by apply parts_lookup. do 2 f_equal. lia.
Qed.

Lemma pop_parts outs j :
  0 ≤ j < n → pop_heads (drop (Z.to_nat j) <$> (parts <$> outs)) =
    Ok ((λ l, part l j) <$> outs, drop (Z.to_nat (j + 1)) <$> (parts <$> outs)).
Proof.
  intros Hj. unfold pop_heads. induction outs as [|l outs IH]; [done|]. rewrite !fmap_cons. cbn [mapM].
  rewrite drop_parts by done. cbn [head of_option mbind result_bind mret result_ret].
  destruct (mapM _ (drop (Z.to_nat j) <$> (parts <$> outs))) as [hs|e]; cbn in *; [|done].
  injection IH as -> ->. done.
Qed.

Lemma merge_next_eq (bs : list Inp) i R j outs A f ra (rr : list (Z * Out)) :
  outs ≠ [] → Forall (λ l, len l = out) outs → 0 ≤ j < n → holds A f →
  ∃ A' meta,
    merge_next partial_fn merge_metadata stage
      (mkStages bs i R j (drop (Z.to_nat j) <$> (parts <$> outs)) A ra rr) =
      (mkStages bs i R ((j + 1) mod n) (drop (Z.to_nat (j + 1)) <$> (parts <$> outs)) A' ra rr, Ok (Some meta)) ∧
    holds A' (λ m, if decide (m = j) then f j ++ [merged outs j] else f m).
Proof using Hs Hplace.
  intros Hne Hlen Hj HA. destruct (merge_eq outs j Hne Hlen Hj) as [meta Hmerge].
  exists (<[Z.to_nat j := f j ++ [merged outs j]]> A), meta. split; [|by apply holds_insert].
  destruct outs as [|l outs]; [done|]. pose proof (pop_parts (l :: outs) j Hj) as Hpop.
  rewrite !fmap_cons in *. rewrite (drop_parts l j Hj) in *.
  set (buf := (part l j :: _) :: _) in *. set (y := mkStages bs i R j buf A ra rr).
  assert (refill y = (y, Ok tt)) as Hrefill by reflexivity.
  unfold merge_next, mbind, st_bind. rewrite Hrefill. unfold st_get, st_lift, st_modify. cbn [_map_result_buffer y].
  unfold buf at 1. rewrite Hpop. cbn [_merge_idx y]. fold s. rewrite (num_reducers_eq s j) by (fold n; lia).
  unfold get_merge_task_options.
  destruct (merge_task_placement stage !! Z.to_nat j) as [node|] eqn:Hnode; cycle 1.
  { apply lookup_ge_None in Hnode. unfold len in Hplace. lia. }
  rewrite (py_nth_nat _ _ node) by (done || lia). rewrite Hmerge.
  cbn [_all_merge_results]. rewrite (py_nth_nat _ _ (f j)) by (lia || by apply HA). reflexivity.
Qed.

Lemma merge_submit (bs : list Inp) i R outs (c : nat) j A f ra (rr : list (Z * Out)) :
  outs ≠ [] → Forall (λ l, len l = out) outs → 0 ≤ j → j + Z.of_nat c = n → holds A f →
  ∃ A' metas,
    submit_tasks (merge_next partial_fn merge_metadata stage) c
      (mkStages bs i R (j mod n) (drop (Z.to_nat j) <$> (parts <$> outs)) A ra rr) =
      (mkStages bs i R 0 ((λ _, []) <$> outs) A' ra rr, Ok metas) ∧
    length metas = c ∧ holds A' (λ m, if j <=? m then f m ++ [merged outs m] else f m).
Proof using Hs Hplace.
  intros Hne Hlen Hj. revert j A f Hj. induction c as [|c IH]; intros j A f Hj Hc HA.
  - exists A, []. assert (j = n) as -> by lia. cbn [submit_tasks]. rewrite Z.mod_same by (destruct (so_extra s Hs); fold n; lia).
    split_and!; [|done|].
    + unfold mret, st_ret. do 2 f_equal. rewrite <- list_fmap_compose. apply list_fmap_ext. intros k l _. cbn.
      apply drop_ge. unfold parts. rewrite length_fmap, length_seqZ. lia.
    + destruct HA as [HAl HA]. split; [done|]. intros m Hm. rewrite (proj2 (Z.leb_gt _ _)) by lia. auto.
  - rewrite (Z.mod_small j) by lia.
    destruct (merge_next_eq bs i R j outs A f ra rr Hne Hlen ltac:(lia) HA) as (A1 & meta & Hnext & HA1).
    destruct (IH (j + 1) A1 _ ltac:(lia) ltac:(lia) HA1) as (A2 & metas & Hrest & Hl & HA2).
    exists A2, (meta :: metas). split_and!; [|cbn; by rewrite Hl|].
    + cbn [submit_tasks]. unfold mbind at 1. unfold st_bind at 1. rewrite Hnext. unfold mbind, st_bind. by rewrite Hrest.
    + destruct HA2 as [HAl HA2]. split; [done|]. intros m Hm. rewrite HA2 by done.
      destruct (Z.leb_spec (j + 1) m), (Z.leb_spec j m), (decide (m = j)); try lia; by subst.
Qed.

(** A round of merge tasks, after a round of map tasks. *)
Lemma merge_round (bs : list Inp) i outs buf A f ra (rr : list (Z * Out)) :
  Forall (λ l, len l = out) outs → Forall (λ l, l = []) buf → holds A f →
  ∃ buf' A' metas,
    submit_tasks (merge_next partial_fn merge_metadata stage) (Z.to_nat n)
      (mkStages bs i (parts <$> outs) 0 buf A ra rr) = (mkStages bs i [] 0 buf' A' ra rr, Ok metas) ∧
    Forall (λ l, l = []) buf' ∧ (outs = [] → metas = []) ∧ (outs ≠ [] → metas ≠ []) ∧
    holds A' (λ m, f m ++ if decide (outs = []) then [] else [merged outs m]).
Proof using Hs Hplace.
  intros Hlen Hbuf HA. pose proof (so_extra s Hs) as Hn. fold n in Hn.
  assert (merge_next partial_fn merge_metadata stage (mkStages bs i (parts <$> outs) 0 buf A ra rr) =
    merge_next partial_fn merge_metadata stage (mkStages bs i [] 0 (parts <$> outs) A ra rr)) as Hrefill.
  { assert (refill (mkStages bs i (parts <$> outs) 0 buf A ra rr) =
      (mkStages bs i [] 0 (parts <$> outs) A ra rr, Ok tt)) as Hr1.
    { unfold refill. destruct Hbuf as [|l buf -> _]; reflexivity. }
    assert (refill (mkStages bs i [] 0 (parts <$> outs) A ra rr) =
      (mkStages bs i [] 0 (parts <$> outs) A ra rr, Ok tt)) as Hr2;
      [|unfold merge_next, mbind, st_bind; by rewrite Hr1, Hr2].
    unfold refill. destruct outs as [|l outs]; [reflexivity|]. rewrite fmap_cons.
    pose proof (drop_parts l 0 ltac:(lia)) as Hd. change (drop (Z.to_nat 0) (parts l)) with (parts l) in Hd.
    rewrite Hd. reflexivity. }
  replace (Z.to_nat n) with (S (Z.to_nat (n - 1))) by lia.
  destruct (decide (outs = [])) as [->|Hne].
  - exists [], A, []. split_and!; [|done..|].
    + cbn [submit_tasks]. unfold mbind, st_bind. rewrite Hrefill. reflexivity.
    + destruct HA as [? HA]. split; [done|]. intros m Hm. rewrite app_nil_r. auto.
  - destruct (merge_submit bs i [] outs (S (Z.to_nat (n - 1))) 0 A f ra rr) as (A' & metas & Hsub & Hl & HA'); [done..|lia|lia|done|].
    change (drop (Z.to_nat 0) <$> (parts <$> outs)) with ((λ l, l) <$> (parts <$> outs)) in Hsub.
    rewrite Z.mod_small, list_fmap_id in Hsub by lia.
    exists ((λ _, []) <$> outs), A', metas. split_and!; [|by apply Forall_fmap, Forall_forall|done|by destruct metas|].
    + cbn [submit_tasks] in *. unfold mbind, st_bind in *. by rewrite Hrefill.
    + destruct HA' as [? HA']. split; [done|]. intros m Hm. rewrite HA' by done. by rewrite (proj2 (Z.leb_le _ _)) by lia.
Qed.

(** ** The map-merge stage *)

Lemma merge_next_round (bs : list Inp) i outs buf A f ra (rr : list (Z * Out)) rounds x :
  last rounds = Some x → x ≠ [] → (length rounds = 1 ∨ length rounds = 2)%nat →
  Forall (λ l, len l = out) outs → Forall (λ l, l = []) buf → holds A f →
  ∃ buf' A' prev metas rounds',
    next_round (merge_next partial_fn merge_metadata stage) (mkExecutor n 2 rounds)
      (mkStages bs i (parts <$> outs) 0 buf A ra rr) =
      (mkStages bs i [] 0 buf' A' ra rr, Ok (Some prev, mkExecutor n 2 (rounds' ++ [metas]))) ∧
    (length rounds' = 0 ∨ length rounds' = 1)%nat ∧
    Forall (λ l, l = []) buf' ∧ (outs ≠ [] → metas ≠ []) ∧
    holds A' (λ m, f m ++ if decide (outs = []) then [] else [merged outs m]).
Proof using Hs Hplace.
  intros Hlast Hx Hlen Houts Hbuf HA.
  destruct (merge_round bs i outs buf A f ra rr Houts Hbuf HA) as (buf' & A' & metas & Hsub & Hb & _ & Hm & HA').
  pose proof (some_round rounds x (last_Some_elem_of _ _ Hlast) Hx) as Hsome.
  destruct rounds as [|r1 [|r2 [|]]]; cbn in Hlen; try lia.
  - exists buf', A', [], metas, [r1]. split; [by apply next_round_keep|split_and!; [by right|done..]].
  - exists buf', A', r1, metas, [r2]. split; [by apply next_round_pop|split_and!; [by right|done..]].
Qed.

Lemma map_merge_loop_eq fuel M (bs : list Inp) i r rounds buf A f ra (rr : list (Z * Out)) :
  1 ≤ M → (r = [] → bs = []) → (r ≠ [] → ∃ x, last rounds = Some x ∧ x ≠ []) →
  (length rounds = 1 ∨ length rounds = 2)%nat → Forall (λ l, l = []) buf → holds A f →
  (1 ≤ fuel)%nat → (r ≠ [] → length bs + 2 ≤ fuel)%nat →
  ∃ metas chunks i' buf' A',
    map_merge_loop map_fn partial_fn merge_metadata stage fuel (mkExecutor M 1 [r]) (mkExecutor n 2 rounds)
      (mkStages bs i [] 0 buf A ra rr) = (mkStages [] i' [] 0 buf' A' ra rr, Ok metas) ∧
    concat chunks = map_outs i bs ∧ Forall (λ c, c ≠ []) chunks ∧
    holds A' (λ m, f m ++ ((λ c, merged c m) <$> chunks)).
Proof using Hs Hq Hplace Hmap.
  intros HM. revert bs i r rounds buf A f. induction fuel as [|fuel IH]; 
    intros bs i r rounds buf A f Hr Hlast Hlen Hbuf HA Hfuel1 Hfuel; [lia|].
  cbn [map_merge_loop]. destruct (decide (r = [])) as [Hnil|Hne].
  { rewrite (Hr Hnil). exists ([], []), [], i, buf, A. rewrite Hnil. split_and!; [reflexivity|done|constructor|].
    destruct HA as [? HA]. split; [done|]. intros m Hm. cbn. rewrite app_nil_r. auto. }
  assert (next_round (map_next map_fn stage) (mkExecutor M 1 [r]) (mkStages bs i [] 0 buf A ra rr) =
    (mkStages (drop (Z.to_nat M) bs) (i + len (take (Z.to_nat M) bs)) (parts <$> map_outs i (take (Z.to_nat M) bs)) 0 buf A ra rr,
     Ok (Some r, mkExecutor M 1 [map_metas i (take (Z.to_nat M) bs)]))) as Hnext.
  { refine (next_round_pop (map_next map_fn stage) M 1 r [] _ _ _ _ eq_refl (map_submit _ _ _ [] _ _ _ _ _)).
    by apply (some_round _ r); [left|]. }
  unfold mbind at 1. unfold st_bind at 1. rewrite Hnext. clear Hnext.
  set (outs := map_outs i (take (Z.to_nat M) bs)).
  destruct (Hlast Hne) as (x & Hx & Hxne).
  destruct (merge_next_round (drop (Z.to_nat M) bs) (i + len (take (Z.to_nat M) bs)) outs buf A f ra rr rounds x)
    as (buf' & A' & prev & metas & rounds' & Hmerge & Hlen' & Hb & Hm & HA'); [done..|apply map_outs_len|done|done|].
  unfold mbind at 1. unfold st_bind at 1. rewrite Hmerge.
  assert (outs = [] ↔ bs = []) as Houts.
  { unfold outs. destruct bs; [by rewrite take_nil|]. replace (Z.to_nat M) with (S (Z.to_nat (M - 1))) by lia. done. }
  destruct (IH (drop (Z.to_nat M) bs) (i + len (take (Z.to_nat M) bs)) (map_metas i (take (Z.to_nat M) bs))
    (rounds' ++ [metas]) buf' A' (λ m, f m ++ if decide (outs = []) then [] else [merged outs m])) as (ms & chunks & i' & buf2 & A2 & Hloop & Hconcat & Hchunks & HA2);
    [| | |exact Hb|exact HA'| | |].
  - intros Hmt. assert (bs = []) as ->; [|apply drop_nil].
    destruct bs; [done|]. replace (Z.to_nat M) with (S (Z.to_nat (M - 1))) in Hmt by lia. done.
  - intros Hmt. exists metas. split; [apply last_snoc|]. apply Hm. rewrite Houts. intros ->. by rewrite take_nil in Hmt.
  - rewrite length_app. cbn. lia.
  - specialize (Hfuel Hne). lia.
  - intros Hmt. specialize (Hfuel Hne). rewrite length_drop. destruct bs; [by rewrite take_nil in Hmt|]. cbn in *. lia.
  - exists (r ++ ms.1, prev ++ ms.2), ((if decide (outs = []) then [] else [outs]) ++ chunks), i', buf2, A2.
    split_and!.
    + unfold mbind, st_bind. rewrite Hloop. by destruct ms.
    + rewrite concat_app, Hconcat. replace (concat (if decide (outs = []) then [] else [outs])) with outs.
      * unfold outs. rewrite <- map_outs_app, take_drop. done.
      * case_decide as Ho; cbn; [done|by rewrite app_nil_r].
    + apply Forall_app. split; [|done]. case_decide; [constructor|by apply Forall_singleton].
    + destruct HA2 as [? HA2]. split; [done|]. intros m Hmn. rewrite HA2 by done. rewrite fmap_app, <- app_assoc.
      do 2 f_equal. by case_decide.
Qed.

(** ** The arguments of the reduce tasks *)

Section reduce.
Context (Hright : _partitions_with_extra_task s ≤ merge_partition_size s).
Context (chunks : list (list (list Block))).

(** What is left of the results of merge task [m] after [k] reducers of it. *)
Definition left_after (k m : Z) : list (list Block) :=
  (λ c, drop (Z.to_nat (Z.min k (psize s m))) (merged c m)) <$> chunks.

(** The arguments of reducer [r]. *)
Definition reduce_arg (r : Z) : list Block := (λ c, (partial_fn (column r c)).1) <$> chunks.

Lemma drop_merged c m k :
  0 ≤ m → 0 ≤ k < psize s m →
  drop (Z.to_nat (Z.min k (psize s m))) (merged c m) =
    (partial_fn (column (base s m + k) c)).1 :: drop (Z.to_nat (Z.min (k + 1) (psize s m))) (merged c m).
Proof.
  intros Hm Hk. rewrite !Z.min_l by lia.
  rewrite (drop_S _ (partial_fn (column (base s m + k) c)).1).
  - do 2 f_equal. lia.
  - unfold merged. rewrite list_lookup_fmap, lookup_seqZ_lt by lia. cbn. do 5 f_equal. lia.
Qed.

Lemma pop_left m k :
  0 ≤ m → 0 ≤ k < psize s m →
  pop_heads (left_after k m) = Ok (reduce_arg (base s m + k), left_after (k + 1) m).
Proof.
  intros Hm Hk. unfold pop_heads, left_after, reduce_arg. induction chunks as [|c cs IH]; [done|].
  rewrite !fmap_cons. cbn [mapM]. rewrite drop_merged by done. cbn [head of_option mbind result_bind mret result_ret].
  destruct (mapM _ _) as [hs|e]; cbn in *; [|done]. injection IH as -> ->. done.
Qed.

Lemma left_after_end m k : psize s m ≤ k → left_after (k + 1) m = left_after k m.
Proof. intros Hk. unfold left_after. by rewrite !Z.min_r by lia. Qed.

Definition with_arg (r : Z) : Z * list Block := (r, reduce_arg r).

Lemma reduce_args_row k (c : nat) j idxs A :
  0 ≤ k → 0 ≤ j → j + Z.of_nat c = n → holds A (λ m, left_after (if m <? j then k + 1 else k) m) →
  ∃ A', holds A' (left_after (k + 1)) ∧
    reduce_args s (omap (reduce_idx_of s k) (seqZ j (Z.of_nat c)) ++ idxs) A =
      ('(args, B) ← reduce_args s idxs A';
       Ok ((with_arg <$> omap (reduce_idx_of s k) (seqZ j (Z.of_nat c))) ++ args, B)).
Proof using Hs Hq Hright.
  intros Hk. revert j A. induction c as [|c IH]; intros j A Hj Hc HA.
  { exists A. split.
    - destruct HA as [? HA]. split; [done|]. intros m Hm. rewrite HA by done. by rewrite (proj2 (Z.ltb_lt _ _)) by lia.
    - change (seqZ j (Z.of_nat 0)) with (@nil Z). cbn. by destruct (reduce_args s idxs A) as [[]|]. }
  rewrite seqZ_cons by lia. replace (Z.pred (Z.of_nat (S c))) with (Z.of_nat c) by lia. change (Z.succ j) with (j + 1).
  cbn [omap list_omap]. rewrite (reduce_idx_of_eq s k j). destruct (Z.leb_spec (psize s j) k) as [Hps|Hps].
  - apply IH; [lia..|]. destruct HA as [? HA]. split; [done|]. intros m Hm. rewrite HA by done. f_equal.
    destruct (Z.ltb_spec m j), (Z.ltb_spec m (j + 1)); try lia; try done.
    replace m with j by lia. by rewrite left_after_end.
  - cbn [app reduce_args]. rewrite (merge_idx_right s j k) by (done || fold n; lia). cbn [mbind result_bind].
    pose proof HA as [_ HAj]. specialize (HAj j ltac:(lia)). rewrite Z.ltb_irrefl in HAj.
    rewrite (py_nth_nat _ _ (left_after k j)) by (done || lia). cbn [mbind result_bind].
    rewrite pop_left by lia. cbn [mbind result_bind].
    destruct (IH (j + 1) (<[Z.to_nat j := left_after (k + 1) j]> A)) as (A' & HA' & Hrest); [lia..| |].
    { apply (holds_insert _ _ j (left_after (k + 1) j)) in HA as [? HA]; [|lia]. split; [done|]. intros m Hm.
      rewrite HA by done. f_equal. case_decide; destruct (Z.ltb_spec m j), (Z.ltb_spec m (j + 1)); try lia; by subst. }
    exists A'. split; [done|]. rewrite Hrest. by destruct (reduce_args s idxs A') as [[]|].
Qed.

Lemma reduce_args_rows k (c : nat) A :
  0 ≤ k → holds A (left_after k) →
  ∃ A', holds A' (left_after (k + Z.of_nat c)) ∧
    reduce_args s (concat (reduce_idx_row s <$> seqZ k (Z.of_nat c))) A =
      Ok (with_arg <$> concat (reduce_idx_row s <$> seqZ k (Z.of_nat c)), A').
Proof using Hs Hq Hright.
  revert k A. induction c as [|c IH]; intros k A Hk HA.
  { exists A. by rewrite Z.add_0_r. }
  rewrite seqZ_cons by lia. replace (Z.pred (Z.of_nat (S c))) with (Z.of_nat c) by lia. change (Z.succ k) with (k + 1).
  rewrite !fmap_cons. cbn [concat]. pose proof (so_extra s Hs) as Hn. fold n in Hn.
  destruct (reduce_args_row k (Z.to_nat n) 0 (concat (reduce_idx_row s <$> seqZ (k + 1) (Z.of_nat c))) A)
    as (A1 & HA1 & Hrow); [lia..| |].
  { destruct HA as [? HA]. split; [done|]. intros m Hm. rewrite HA by done. by rewrite (proj2 (Z.ltb_ge _ _)) by lia. }
  rewrite Z2Nat.id in Hrow by lia. change (omap (reduce_idx_of s k) (seqZ 0 n)) with (reduce_idx_row s k) in Hrow.
  destruct (IH (k + 1) A1 ltac:(lia) HA1) as (A2 & HA2 & Hrows). exists A2.
  replace (k + Z.of_nat (S c)) with (k + 1 + Z.of_nat c) by lia. split; [done|].
  rewrite Hrow, Hrows. cbn. by rewrite fmap_app.
Qed.

Lemma new_reduce_stage_eq (bs : list Inp) i R mi buf A ra (rr : list (Z * Out)) :
  holds A (λ m, (λ c, merged c m) <$> chunks) →
  new_reduce_stage stage (mkStages bs i R mi buf A ra rr) =
    (mkStages bs i R mi buf [] (with_arg <$> reduce_order s) [], Ok tt).
Proof using Hs Hq Hright.
  intros HA. destruct (reduce_args_rows 0 (Z.to_nat (merge_partition_size s + 1)) A) as (A' & HA' & Hargs); [lia| |].
  { destruct HA as [? HA]. split; [done|]. intros m Hm. rewrite HA by done. unfold left_after.
    rewrite Z.min_l by (apply psize_nonneg, Hs). done. }
  rewrite Z2Nat.id in HA', Hargs by lia. fold (reduce_order s) in Hargs.
  unfold new_reduce_stage, mbind, st_bind, st_get, st_lift, st_modify. fold s. rewrite (round_robin_eq s Hs).
  cbn [_all_merge_results]. rewrite Hargs, len_fmap.
  assert (len (reduce_order s) = output_num_blocks s) as ->.
  { unfold len. rewrite (order_perm s Hs), length_seqZ.
    pose proof (so_out s Hs). pose proof (so_extra s Hs). nia. }
  rewrite Z.eqb_refl. cbn [py_assert].
  rewrite (proj2 (forallb_forall _ A')); [done|]. intros rs Hrs. apply forallb_forall. intros l Hl.
  apply list_elem_of_In, list_elem_of_lookup in Hrs as [m Hm]. destruct HA' as [HlA HA'].
  apply lookup_lt_Some in Hm as Hlt. unfold len in HlA.
  specialize (HA' (Z.of_nat m) ltac:(lia)). rewrite Nat2Z.id, Hm in HA'. injection HA' as ->.
  apply list_elem_of_In, list_elem_of_fmap in Hl as (c & -> & _). rewrite drop_ge; [done|].
  unfold merged. rewrite length_fmap, length_seqZ. unfold psize. destruct (_ <? _); lia.
Qed.

(** ** The reduce stage *)

Definition reduce_block (r : Z) : Z * Out := (r, (reduce_fn (reduce_arg r)).1).
Definition reduce_meta (r : Z) : Metadata := (reduce_fn (reduce_arg r)).2.

Lemma reduce_next_eq (bs : list Inp) i R mi buf A r ra (rr : list (Z * Out)) :
  0 ≤ r < out →
  reduce_next reduce_fn stage (mkStages bs i R mi buf A (with_arg r :: ra) rr) =
    (mkStages bs i R mi buf A ra (rr ++ [reduce_block r]), Ok (Some (reduce_meta r))).
Proof using Hs Hq Hright Hplace.
  intros Hr. destruct (base_onto s Hs r Hr) as (m & k & Hm & Hk & Heq). fold n in Hm.
  unfold reduce_next, mbind, st_bind, st_get, st_lift, st_modify. cbn [_reduce_arg_blocks with_arg]. fold s.
  rewrite Heq at 1. rewrite (merge_idx_right s m k) by done. unfold get_merge_task_options.
  destruct (merge_task_placement stage !! Z.to_nat m) as [node|] eqn:Hnode; cycle 1.
  { apply lookup_ge_None in Hnode. unfold len in Hplace. lia. }
  rewrite (py_nth_nat _ _ node) by (done || lia). unfold reduce_block, reduce_meta.
  by destruct (reduce_fn (reduce_arg r)).
Qed.

Lemma reduce_submit k (bs : list Inp) i R mi buf A idxs (rr : list (Z * Out)) :
  Forall (λ r, 0 ≤ r < out) idxs →
  submit_tasks (reduce_next reduce_fn stage) k (mkStages bs i R mi buf A (with_arg <$> idxs) rr) =
    (mkStages bs i R mi buf A (with_arg <$> drop k idxs) (rr ++ (reduce_block <$> take k idxs)),
     Ok (reduce_meta <$> take k idxs)).
Proof using Hs Hq Hright Hplace.
  revert idxs rr. induction k as [|k IH]; intros idxs rr Hidx; [cbn; by rewrite app_nil_r|].
  destruct Hidx as [|r idxs Hr Hidx]; [cbn; by rewrite app_nil_r|].
  cbn [submit_tasks]. rewrite fmap_cons. unfold mbind at 1. unfold st_bind at 1. rewrite reduce_next_eq by done.
  unfold mbind, st_bind. rewrite IH by done. cbn. by rewrite <- app_assoc.
Qed.

(** How many more rounds it takes to see that the tasks of the last rounds are done. *)
Definition rounds_left (rounds : list (list Metadata)) : nat :=
  match rounds with
  | [a] => if decide (length a = 0%nat) then 1 else 3
  | [a; b] => if decide (length b = 0%nat) then if decide (length a = 0%nat) then 1 else 2 else 3
  | _ => 0
  end.

Lemma reduce_loop_eq fuel w (bs : list Inp) i R mi buf A idxs (rr : list (Z * Out)) rounds :
  1 ≤ w → Forall (λ r, 0 ≤ r < out) idxs → (0 < rounds_left rounds)%nat →
  (idxs ≠ [] → ∃ x, last rounds = Some x ∧ x ≠ []) →
  (rounds_left rounds ≤ fuel)%nat → (idxs ≠ [] → length idxs + 3 ≤ fuel)%nat →
  reduce_loop reduce_fn stage fuel (mkExecutor w 2 rounds) (mkStages bs i R mi buf A (with_arg <$> idxs) rr) =
    (mkStages bs i R mi buf A [] (rr ++ (reduce_block <$> idxs)), Ok (concat rounds ++ (reduce_meta <$> idxs))).
Proof using Hs Hq Hright Hplace.
  intros Hw. revert idxs rr rounds. induction fuel as [|fuel IH]; intros idxs rr rounds Hidx Hpos Hlast Hf1 Hf2; [lia|].
  destruct (forallb (λ r, len r =? 0) rounds) eqn:Hall.
  { destruct idxs as [|r idxs]; cycle 1.
    { destruct (Hlast ltac:(done)) as (x & Hx & Hne). by rewrite (some_round rounds x (last_Some_elem_of _ _ Hx) Hne) in Hall. }
    cbn [reduce_loop]. unfold next_round. cbn [_rounds]. rewrite Hall. cbn.
    assert (concat rounds = []) as ->; [|by rewrite app_nil_r].
    clear -Hall. induction rounds as [|r rounds IH]; [done|]. cbn in *. apply andb_true_iff in Hall as [Hr Hall].
    destruct r; [auto|]. apply Z.eqb_eq in Hr. rewrite len_cons in Hr. pose proof (len_nonneg r). lia. }
  pose proof (reduce_submit (Z.to_nat w) bs i R mi buf A idxs rr Hidx) as Hsub.
  cbn [reduce_loop].
  assert (∀ prev rounds', next_round (reduce_next reduce_fn stage) (mkExecutor w 2 rounds)
      (mkStages bs i R mi buf A (with_arg <$> idxs) rr) =
      (mkStages bs i R mi buf A (with_arg <$> drop (Z.to_nat w) idxs) (rr ++ (reduce_block <$> take (Z.to_nat w) idxs)),
       Ok (Some prev, mkExecutor w 2 (rounds' ++ [reduce_meta <$> take (Z.to_nat w) idxs]))) →
    concat rounds = prev ++ concat rounds' →
    (0 < rounds_left (rounds' ++ [reduce_meta <$> take (Z.to_nat w) idxs]) ≤ 3)%nat →
    (idxs = [] → rounds_left (rounds' ++ [reduce_meta <$> take (Z.to_nat w) idxs]) < rounds_left rounds)%nat →
    ('(r, reduce_stage) ← next_round (reduce_next reduce_fn stage) (mkExecutor w 2 rounds);
      match r with
      | None => mret []
      | Some metadata => ms ← reduce_loop reduce_fn stage fuel reduce_stage; mret (metadata ++ ms)
      end) (mkStages bs i R mi buf A (with_arg <$> idxs) rr) =
    (mkStages bs i R mi buf A [] (rr ++ (reduce_block <$> idxs)), Ok (concat rounds ++ (reduce_meta <$> idxs)))) as Hstep.
  { intros prev rounds' Hnext Hconcat Hleft Hdec. unfold mbind at 1. unfold st_bind at 1. rewrite Hnext.
    unfold mbind, st_bind. rewrite IH.
    - cbn. rewrite concat_app, Hconcat. cbn. rewrite app_nil_r, <- !app_assoc, <- !fmap_app, take_drop. done.
    - by apply Forall_drop.
    - lia.
    - intros Hd. eexists. split; [apply last_snoc|]. destruct idxs; [by rewrite drop_nil in Hd|].
      replace (Z.to_nat w) with (S (Z.to_nat (w - 1))) by lia. done.
    - destruct (decide (idxs = [])) as [->|Hne]; [specialize (Hdec eq_refl); lia|specialize (Hf2 Hne); destruct idxs; cbn in *; [done|lia]].
    - intros Hd. destruct (decide (idxs = [])) as [->|Hne]; [by rewrite drop_nil in Hd|]. specialize (Hf2 Hne).
      rewrite length_drop. destruct idxs; [done|]. cbn in *. lia. }
  assert (idxs ≠ [] → length (reduce_meta <$> take (Z.to_nat w) idxs) ≠ 0%nat) as Htake.
  { intros Hne. destruct idxs; [done|]. replace (Z.to_nat w) with (S (Z.to_nat (w - 1))) by lia. done. }
  assert (idxs = [] → length (reduce_meta <$> take (Z.to_nat w) idxs) = 0%nat) as Htake0 by (intros ->; by rewrite take_nil).
  destruct rounds as [|a [|b [|]]]; cbn in Hpos; try lia.
  - apply (Hstep [] [a]); [by apply next_round_keep|done| |]; cbn.
    + repeat case_decide; lia.
    + intros Hnil. specialize (Htake0 Hnil). cbn in Hall. unfold len in Hall. repeat case_decide; (lia || by destruct a).
  - apply (Hstep a [b]); [by apply next_round_pop|cbn; by rewrite app_nil_r| |]; cbn.
    + repeat case_decide; lia.
    + intros Hnil. specialize (Htake0 Hnil). cbn in Hall. unfold len in Hall. repeat case_decide; (lia || by destruct a, b).
Qed.

Lemma reduce_stage_eq w (bs : list Inp) i R mi buf A ra (rr : list (Z * Out)) :
  1 ≤ w → holds A (λ m, (λ c, merged c m) <$> chunks) →
  (reduce_stage reduce_fn stage w (mkStages bs i R mi buf A ra rr)).2 =
    Ok ((λ r, (reduce_block r, reduce_meta r)) <$> seqZ 0 out).
Proof using Hs Hq Hright Hplace.
  intros Hw HA. unfold reduce_stage. unfold mbind at 1. unfold st_bind at 1.
  rewrite (new_reduce_stage_eq bs i R mi buf A ra rr HA).
  assert (Forall (λ r, 0 ≤ r < out) (reduce_order s)) as Horder.
  { apply Forall_forall. intros r Hr. by apply (elem_of_order s Hs). }
  assert (len (reduce_order s) = out) as Hlen.
  { unfold len. rewrite (order_perm s Hs), length_seqZ. fold out. pose proof (so_out s Hs). pose proof (so_extra s Hs). nia. }
  unfold mbind at 1. unfold st_bind at 1. unfold new_executor.
  rewrite (submit_round_eq _ w 2 [] _ _ _ ltac:(done) (reduce_submit (Z.to_nat w) bs i R mi buf [] (reduce_order s) [] Horder)).
  unfold mbind at 1. unfold st_bind at 1. cbn [app].
  rewrite reduce_loop_eq; [|done|by apply Forall_drop|..].
  - unfold mbind, st_bind, st_get, st_lift. cbn [_reduce_results concat app snd].
    rewrite app_nil_r, <- !fmap_app, take_drop. apply sort_results_eq. apply (order_perm s Hs).
  - cbn. case_decide; lia.
  - intros Hd. eexists. split; [reflexivity|]. destruct (reduce_order s); [by rewrite drop_nil in Hd|].
    replace (Z.to_nat w) with (S (Z.to_nat (w - 1))) by lia. done.
  - cbn [rounds_left]. case_decide; lia.
  - intros _. rewrite length_drop. unfold len in Hlen. fold s. fold out. lia.
Qed.
End reduce.

(** ** The whole shuffle *)

Lemma initial_holds (bs : list Inp) : holds (_all_merge_results (initial_stages (Out := Out) stage bs)) (λ _, []).
Proof using Hs.
  pose proof (so_extra s Hs) as Hn. fold n in Hn. unfold initial_stages. cbn [_all_merge_results]. fold s n. split.
  - unfold len. rewrite length_replicate. lia.
  - intros m Hm. apply lookup_replicate_2. lia.
Qed.

Lemma map_merge_eq bs M :
  1 ≤ M →
  ∃ metas chunks i' buf' A',
    (map_stage ← new_executor (map_next map_fn stage) M 1;
     merge_stage ← new_executor (merge_next partial_fn merge_metadata stage) n 2;
     map_merge_loop map_fn partial_fn merge_metadata stage (2 + length bs) map_stage merge_stage)
      (initial_stages (Out := Out) stage bs) = (mkStages [] i' [] 0 buf' A' [] [], Ok metas) ∧
    concat chunks = map_outs 0 bs ∧ Forall (λ c, c ≠ []) chunks ∧ holds A' (λ m, (λ c, merged c m) <$> chunks).
Proof using Hs Hq Hplace Hmap.
  intros HM. pose proof (initial_holds bs) as HA. unfold initial_stages in *. cbn [_all_merge_results] in HA. fold s n in HA |- *.
  unfold mbind at 1. unfold st_bind at 1. unfold new_executor at 1.
  rewrite (submit_round_eq _ M 1 [] _ _ _ ltac:(done) (map_submit (Z.to_nat M) bs 0 [] 0 [] _ [] [])).
  cbn [app]. set (outs := map_outs 0 (take (Z.to_nat M) bs)).
  destruct (merge_round (drop (Z.to_nat M) bs) (0 + len (take (Z.to_nat M) bs)) outs [] _ _ [] []
    ltac:(apply map_outs_len) ltac:(constructor) HA) as (buf' & A1 & metas & Hsub & Hbuf & _ & Hm & HA1).
  unfold mbind at 1. unfold st_bind at 1. unfold new_executor.
  rewrite (submit_round_eq _ n 2 [] _ _ _ ltac:(done) Hsub). cbn [app].
  assert (outs = [] ↔ bs = []) as Houts.
  { unfold outs. destruct bs; [by rewrite take_nil|]. replace (Z.to_nat M) with (S (Z.to_nat (M - 1))) by lia. done. }
  destruct (map_merge_loop_eq (2 + length bs) M (drop (Z.to_nat M) bs) (0 + len (take (Z.to_nat M) bs))
    (map_metas 0 (take (Z.to_nat M) bs)) [metas] buf' A1 (λ m, [] ++ if decide (outs = []) then [] else [merged outs m]) [] [])
    as (ms & chunks & i' & buf2 & A2 & Hloop & Hconcat & Hchunks & HA2); [done|..|].
  - intros Hmt. assert (bs = []) as ->; [|apply drop_nil].
    destruct bs; [done|]. replace (Z.to_nat M) with (S (Z.to_nat (M - 1))) in Hmt by lia. done.
  - intros Hmt. exists metas. split; [done|]. apply Hm. rewrite Houts. intros ->. by rewrite take_nil in Hmt.
  - by left.
  - exact Hbuf.
  - exact HA1.
  - lia.
  - intros _. rewrite length_drop. lia.
  - exists ms, ((if decide (outs = []) then [] else [outs]) ++ chunks), i', buf2, A2. split_and!; [exact Hloop|..].
    + rewrite concat_app, Hconcat. replace (concat (if decide (outs = []) then [] else [outs])) with outs.
      * unfold outs. by rewrite <- map_outs_app, take_drop.
      * case_decide as Ho; cbn; [done|by rewrite app_nil_r].
    + apply Forall_app. split; [|done]. case_decide; [constructor|by apply Forall_singleton].
    + destruct HA2 as [? HA2]. split; [done|]. intros m Hmn. rewrite HA2 by done. rewrite fmap_app. do 2 f_equal. by case_decide.
Qed.

(** The simple shuffle. *)
Lemma map_outs_imap i bs :
  map_outs i bs = imap (λ j b, (map_fn (i + Z.of_nat j) b out).1) bs.
Proof.
  revert i. induction bs as [|b bs IH]; intros i; [done|]. cbn. rewrite Z.add_0_r. f_equal. rewrite IH.
  apply imap_ext. intros j b' _. cbn. do 2 f_equal. lia.
Qed.

Lemma column_eq (outs : list (list Block)) j :
  Forall (λ l, len l = out) outs → 0 ≤ j < out → mapM (λ refs : list Block, py_nth refs j) outs = Ok (column j outs).
Proof.
  intros Hl Hj. induction Hl as [|l outs Hl Hls IH]; [done|]. cbn [mapM]. unfold column. cbn [omap list_omap].
  destruct (l !! Z.to_nat j) as [x|] eqn:Hx; [|apply lookup_ge_None in Hx; unfold len in Hl; lia].
  rewrite (py_nth_nat l j x) by (done || lia). cbn. by rewrite IH.
Qed.

Lemma simple_eq bs :
  0 < out →
  simple_execute map_fn reduce_fn bs out = Ok ((λ j, (reduce_fn (column j (map_outs 0 bs))).1) <$> seqZ 0 out).
Proof using Hmap.
  intros Hout. unfold simple_execute. pose proof (map_outs_len 0 bs) as Hlen. rewrite map_outs_imap in *.
  erewrite mapM_total.
  - cbn [mbind result_bind]. rewrite (seqZ_cons 0 out) by lia. rewrite fmap_cons. reflexivity.
  - intros j [? ?]%elem_of_seqZ. cbn in *. rewrite column_eq; [done|done|lia].
Qed.

Lemma column_concat j (cs : list (list (list Block))) : column j (concat cs) = concat (column j <$> cs).
Proof. induction cs as [|c cs IH]; [done|]. cbn. rewrite omap_app. by f_equal. Qed.

(** The blocks that map tasks make for an output. *)
Definition mapped (b : Block) : Prop := ∃ i inp n j, (map_fn i inp n).1 !! j = Some b.

(** Blocks of map tasks may be reduced in parts. *)
Definition reduce_assoc : Prop :=
  ∀ cs, Forall (λ c, c ≠ []) cs → Forall mapped (concat cs) →
    (reduce_fn ((λ c, (partial_fn c).1) <$> cs)).1 = (reduce_fn (concat cs)).1.

Lemma mapped_column j i bs : Forall mapped (column j (map_outs i bs)).
Proof.
  revert i. induction bs as [|b bs IH]; intros i; [constructor|]. unfold column. cbn [map_outs omap list_omap].
  destruct ((map_fn i b out).1 !! Z.to_nat j) eqn:Hb; [|apply IH]. constructor; [|apply IH]. by exists i, b, out, (Z.to_nat j).
Qed.

Lemma push_based_eq bs pipelined :
  _partitions_with_extra_task s ≤ merge_partition_size s → 1 ≤ num_map_tasks_per_round stage →
  match pipelined with Some c => 1 ≤ c | None => True end → reduce_assoc →
  ∃ outs stats,
    (push_based_execute map_fn partial_fn reduce_fn merge_metadata stage bs pipelined (initial_stages stage bs)).2 = Ok (outs, stats) ∧
    simple_execute map_fn reduce_fn bs out = Ok outs.
Proof using Hs Hq Hplace Hmap.
  intros Hright HM Hpipe Hassoc.
  destruct (map_merge_eq bs (num_map_tasks_per_round stage) HM) as (metas & chunks & i' & buf' & A' & Hmm & Hconcat & Hne & HA').
  assert (0 < out) as Hout by (pose proof (so_out s Hs); pose proof (so_extra s Hs); unfold out; nia).
  set (w := match pipelined with Some c => Z.min out c | None => out end).
  assert (1 ≤ w) as Hw by (unfold w; destruct pipelined; lia).
  pose proof (reduce_stage_eq Hright chunks w [] i' [] 0 buf' A' [] [] Hw HA') as Hred.
  rewrite simple_eq by done. destruct metas as [map_metadata merge_metas].
  exists ((λ r, (reduce_fn (reduce_arg chunks r)).1) <$> seqZ 0 out),
    (mkStats map_metadata merge_metas (reduce_meta chunks <$> seqZ 0 out)). split.
  - unfold push_based_execute. unfold mbind, st_bind in *. fold s n in Hmm |- *.
    destruct (new_executor (map_next map_fn stage) _ _ _) as [y1 [map_stage|e]]; [|done].
    destruct (new_executor (merge_next partial_fn merge_metadata stage) _ _ _) as [y2 [merge_stage|e]]; [|done].
    rewrite Hmm. fold s out w.
    destruct (reduce_stage reduce_fn stage w _) as [y3 r]. cbn in Hred. subst r.
    rewrite !len_fmap. unfold len. rewrite length_seqZ, Z2Nat.id by lia.
    rewrite (proj2 (Z.eqb_neq out 0)), Z.eqb_refl by lia. cbn. by rewrite <- !list_fmap_compose.
  - f_equal. apply list_fmap_ext. intros k j [Hj Hk]%lookup_seqZ. rewrite <- Hconcat, column_concat. unfold reduce_arg.
    rewrite <- (Hassoc (column j <$> chunks)); [by rewrite <- list_fmap_compose| |].
    2:{ rewrite <- column_concat, Hconcat. apply mapped_column. }
    apply Forall_fmap, Forall_forall. intros c Hc. cbn. rewrite Forall_forall in Hne. specialize (Hne c Hc).
    destruct c as [|l c]; [done|]. pose proof (map_outs_len 0 bs) as Hlen. rewrite <- Hconcat, Forall_forall in Hlen.
    specialize (Hlen l). unfold column. cbn. destruct (l !! Z.to_nat j) eqn:Hx; [done|].
    apply lookup_ge_None in Hx. unfold len in Hlen.
    assert (Z.of_nat (length l) = out); [|lia]. apply Hlen, list_elem_of_concat. exists (l :: c). split; [left|done].
Qed.
End stages.

(** ** The schedule *)

Lemma place_merge_tasks_ok inputs nodes g acc p :
  0 < g → 0 ≤ p.2 → 0 ≤ inputs → 0 < nodes → 0 ≤ acc.2 →
  let acc' := place_merge_tasks inputs nodes g acc p in
  g * len acc'.1 + acc'.2 = g * len acc.1 + acc.2 + Z.min p.2 (inputs / nodes) ∧ 0 ≤ acc'.2 ∧
  (∀ node, node ∈ acc'.1 → node ∈ acc.1 ∨ node = p.1).
Proof.
  destruct acc as [pl left], p as [node c]. cbn. intros Hg Hc Hi Hn Hl.
  assert (0 ≤ inputs / nodes) by (apply Z.div_pos; lia).
  set (par := Z.min c (inputs / nodes)).
  pose proof (Z.div_mod par g ltac:(lia)). pose proof (Z.mod_pos_bound par g Hg).
  assert (0 ≤ par / g) by (apply Z.div_pos; lia).
  assert (len (pl ++ replicate (Z.to_nat (par / g)) node) = len pl + par / g) as Hlen
    by (rewrite len_app; unfold len; rewrite length_replicate; lia).
  destruct (Z.eqb_spec (par / g) 0); cbn; [destruct (Z.ltb_spec g (left + par mod g))|]; cbn; split_and!;
    rewrite ?len_app, ?Hlen; try (unfold len in *; cbn in *; rewrite ?length_app, ?length_replicate in *; cbn in *; nia); try lia.
  all: intros x; rewrite ?elem_of_app, ?list_elem_of_singleton, ?elem_of_replicate; tauto.
Qed.

Lemma place_all_ok inputs nodes g (l : list (string * Z)) acc :
  0 < g → 0 ≤ inputs → 0 < nodes → Forall (λ p, 0 < p.2) l → 0 ≤ acc.2 →
  let acc' := fold_left (place_merge_tasks inputs nodes g) l acc in
  g * len acc'.1 + acc'.2 = g * len acc.1 + acc.2 + sumZ ((λ p : string * Z, Z.min p.2 (inputs / nodes)) <$> l) ∧
  0 ≤ acc'.2 ∧ ∀ node, node ∈ acc'.1 → node ∈ acc.1 ∨ node ∈ l.*1.
Proof.
  intros Hg Hi Hn Hl. revert acc. induction Hl as [|p l Hp Hl IH]; intros acc Hacc.
  { cbn. change (sumZ []) with 0. split_and!; [lia|done|auto]. }
  cbn [fold_left]. destruct (place_merge_tasks_ok inputs nodes g acc p) as (Heq & Hpos & Hin); [lia..|].
  destruct (IH (place_merge_tasks inputs nodes g acc p) Hpos) as (Heq' & Hpos' & Hin').
  split_and!; [|done|].
  - rewrite Heq', Heq, fmap_cons, sumZ_cons. lia.
  - intros node Hnode. cbn. destruct (Hin' node Hnode) as [Ho|]; [|right; by right].
    destruct (Hin node Ho) as [| ->]; [by left|]. right. by left.
Qed.

Lemma sum_min_le inputs (l : list (string * Z)) :
  0 ≤ inputs → l ≠ [] → Forall (λ p, 0 < p.2) l →
  sumZ ((λ p : string * Z, Z.min p.2 (inputs / len l)) <$> l) ≤ Z.min (sumZ (dvalues l)) inputs.
Proof.
  intros Hi Hne Hl. set (k := inputs / len l).
  assert (0 ≤ k) as Hk by (apply Z.div_pos; [done|destruct l; [done|]; rewrite len_cons; pose proof (len_nonneg l); lia]).
  assert (∀ l' : list (string * Z), Forall (λ p, 0 < p.2) l' →
    sumZ ((λ p : string * Z, Z.min p.2 k) <$> l') ≤ sumZ (dvalues l') ∧
    sumZ ((λ p : string * Z, Z.min p.2 k) <$> l') ≤ len l' * k) as Hsum.
  { induction 1 as [|p l' Hp Hl' IH]; [unfold dvalues; cbn; change (sumZ []) with 0; unfold len; cbn; lia|].
    unfold dvalues in *. rewrite !fmap_cons, !sumZ_cons, len_cons. lia. }
  destruct (Hsum l Hl) as [H1 H2]. pose proof (Z.mul_div_le inputs (len l)) as Hd.
  assert (0 < len l) by (destruct l; [done|]; rewrite len_cons; pose proof (len_nonneg l); lia). unfold k in *. nia.
Qed.

Lemma ceil_div_covers a b : 0 < b → a ≤ ceil_div a b * b.
Proof. intros Hb. unfold ceil_div. pose proof (Z.mul_div_le (- a) b Hb). lia. Qed.

(** What a schedule of a shuffle is. *)
Record stage_ok (cpus : dict string Z) (inputs merge_factor out : Z) (stage : _PushBasedShuffleStage) : Prop := {
  st_schedule : schedule_ok (merge_schedule stage);
  st_out : output_num_blocks (merge_schedule stage) = out;
  st_placed : len (merge_task_placement stage) = num_merge_tasks_per_round (merge_schedule stage);
  st_nodes : Forall (λ node, node ∈ dkeys cpus) (merge_task_placement stage);
  st_map : 1 ≤ num_map_tasks_per_round stage;
  st_merge : num_merge_tasks_per_round (merge_schedule stage) = 1 ∨
    (merge_factor + 1) * num_merge_tasks_per_round (merge_schedule stage) ≤ Z.min (sumZ (dvalues cpus)) inputs;
  st_cpus : num_map_tasks_per_round stage + num_merge_tasks_per_round (merge_schedule stage) ≤ Z.max (sumZ (dvalues cpus)) 2;
  st_rounds : inputs ≤ num_rounds stage * num_map_tasks_per_round stage
}.

Lemma compute_stage_ok cpus inputs merge_factor out :
  cpus ≠ [] → Forall (λ p, 0 < p.2) cpus → 1 ≤ merge_factor → 0 ≤ inputs → 0 ≤ out →
  ∃ stage, _compute_shuffle_schedule cpus inputs merge_factor out = Ok stage ∧ stage_ok cpus inputs merge_factor out stage.
Proof.
  intros Hne Hpos Hmf Hi Ho.
  assert (0 < len cpus) as Hlen by (destruct cpus; [done|]; rewrite len_cons; pose proof (len_nonneg cpus); lia).
  destruct (place_all_ok inputs (len cpus) (merge_factor + 1) cpus ([], 0)) as (Heq & Hleft & Hin); [lia..|done|cbn; lia|].
  pose proof (sum_min_le inputs cpus Hi Hne Hpos) as Hsum.
  unfold _compute_shuffle_schedule. rewrite (proj2 (Z.eqb_neq (merge_factor + 1) 0)) by lia. cbn [andb].
  set (acc := fold_left _ _ _) in *. cbn in Heq. unfold len at 2 in Heq. cbn in Heq.
  assert (∃ pl, (if len acc.1 =? 0 then node ← py_nth (dkeys cpus) 0; Ok [node] else Ok acc.1) = Ok pl ∧
    Forall (λ node, node ∈ dkeys cpus) pl ∧ 1 ≤ len pl ∧
    (len pl = 1 ∨ (merge_factor + 1) * len pl ≤ Z.min (sumZ (dvalues cpus)) inputs)) as (pl & -> & Hnodes & Hpl & Hbound).
  { destruct (Z.eqb_spec (len acc.1) 0) as [Hz|Hz].
    - destruct cpus as [|[node c] cpus]; [done|]. exists [node]. split; [done|]. split_and!; [|unfold len; cbn; lia|by left].
      apply Forall_singleton. by left.
    - exists acc.1. pose proof (len_nonneg acc.1). split_and!; [done| |lia|right; lia].
      apply Forall_forall. intros node Hnode. destruct (Hin node Hnode) as [Hno|]; [by apply not_elem_of_nil in Hno|done]. }
  cbn [mbind result_bind]. unfold new_schedule. rewrite (proj2 (Z.eqb_neq (len pl) 0)) by lia. cbn.
  eexists. split; [reflexivity|]. split; cbn; try done.
  - apply (new_schedule_ok out (len pl)); [done|lia|]. unfold new_schedule. by rewrite (proj2 (Z.eqb_neq (len pl) 0)) by lia.
  - lia.
  - nia.
  - apply ceil_div_covers. lia.
Qed.

(** ** The properties *)

(** The schedule of a push-based shuffle: for any nodes with CPUs there is one; its rounds
    of map tasks take all input blocks, a round of map and merge tasks does not need more than
    the CPUs of the cluster (or two), each merge task has its share of map tasks unless there is
    only one, and merge tasks are placed on nodes of the cluster.  The reduce tasks are
    submitted in an order that has each of them once. *)
Theorem shuffle_schedule_sound cpus inputs merge_factor out :
  cpus ≠ [] → Forall (λ p, 0 < p.2) cpus → 1 ≤ merge_factor → 0 ≤ inputs → 0 ≤ out →
  ∃ stage order, _compute_shuffle_schedule cpus inputs merge_factor out = Ok stage ∧
    let n := num_merge_tasks_per_round (merge_schedule stage) in
    inputs ≤ num_rounds stage * num_map_tasks_per_round stage ∧
    num_map_tasks_per_round stage + n ≤ Z.max (sumZ (dvalues cpus)) 2 ∧
    (n = 1 ∨ (merge_factor + 1) * n ≤ Z.min (sumZ (dvalues cpus)) inputs) ∧
    Forall (λ node, node ∈ dkeys cpus) (merge_task_placement stage) ∧
    round_robin_reduce_idx_iterator (merge_schedule stage) = Ok order ∧ order ≡ₚ seqZ 0 out.
Proof.
  intros Hne Hpos Hmf Hi Ho. destruct (compute_stage_ok cpus inputs merge_factor out) as (stage & Hst & []); [done..|].
  exists stage, (reduce_order (merge_schedule stage)). split; [done|]. split_and!; try done.
  - by apply round_robin_eq.
  - rewrite <- st_out0. by apply order_perm.
Qed.

Lemma execute_is_simple {Inp Block Out Metadata} (map_fn : Z → Inp → Z → list Block * Metadata)
    (partial_fn : list Block → Block * Metadata) (reduce_fn : list Block → Out * Metadata) (merge_metadata : list Block → Metadata)
    cpus merge_factor pipeline bs out stage :
  cpus ≠ [] → Forall (λ p, 0 < p.2) cpus → 1 ≤ merge_factor →
  (∀ i b, len (map_fn i b out).1 = out) → reduce_assoc map_fn partial_fn reduce_fn →
  _compute_shuffle_schedule cpus (len bs) merge_factor out = Ok stage →
  num_merge_tasks_per_round (merge_schedule stage) ≤ out →
  _partitions_with_extra_task (merge_schedule stage) ≤ merge_partition_size (merge_schedule stage) →
  ∃ blocks stats,
    execute map_fn partial_fn reduce_fn merge_metadata cpus merge_factor pipeline bs out = Ok (blocks, stats) ∧
    simple_execute map_fn reduce_fn bs out = Ok blocks.
Proof.
  intros Hne Hpos Hmf Hmap Hassoc Hst Hn Hright.
  assert (0 ≤ out) as Hout.
  { destruct bs as [|b bs]; [|rewrite <- (Hmap 0 b); apply len_nonneg].
    revert Hst Hn. unfold _compute_shuffle_schedule. destruct (_ && _); [done|].
    destruct (if _ =? 0 then _ else _) as [pl|]; [|done]. cbn. unfold new_schedule. destruct (len pl =? 0); [done|]. cbn.
    intros [= <-]. cbn. pose proof (len_nonneg pl). lia. }
  destruct (compute_stage_ok cpus (len bs) merge_factor out) as (stage' & Hst' & Hok); [done..|apply len_nonneg|done|].
  rewrite Hst in Hst'. injection Hst' as <-. destruct Hok as [Hs Ho Hp _ HM _ _ _].
  unfold execute. rewrite Hst. cbn [mbind result_bind]. subst out.
  apply push_based_eq; try done.
  - pose proof (so_out _ Hs). pose proof (so_extra _ Hs). nia.
  - destruct pipeline; [|done]. destruct cpus as [|p cpus]; [done|]. apply Forall_cons in Hpos as [Hp0 Hpos].
    unfold dvalues. rewrite fmap_cons, sumZ_cons. enough (0 ≤ sumZ cpus.*2) by lia.
    clear -Hpos. induction Hpos as [|q l Hq Hl IH]; [done|]. rewrite fmap_cons, sumZ_cons. lia.
Qed.

(** C19: The push-based shuffle is the simple shuffle.  When no more partitions have an extra
    reducer than a partition has reducers, and there are not more merge tasks than outputs, it
    returns, and the blocks it returns are those of the simple shuffle, for any map function
    with a block for each output and any reduce function that may be applied in parts, with or
    without a bound on the reduce tasks in flight. *)
Theorem push_based_is_simple {Inp Block Out Metadata} (map_fn : Z → Inp → Z → list Block * Metadata)
    (partial_fn : list Block → Block * Metadata) (reduce_fn : list Block → Out * Metadata) (merge_metadata : list Block → Metadata)
    cpus merge_factor pipeline bs out stage :
  cpus ≠ [] → Forall (λ p, 0 < p.2) cpus → 1 ≤ merge_factor →
  (∀ i b, len (map_fn i b out).1 = out) → reduce_assoc map_fn partial_fn reduce_fn →
  _compute_shuffle_schedule cpus (len bs) merge_factor out = Ok stage →
  num_merge_tasks_per_round (merge_schedule stage) ≤ out →
  _partitions_with_extra_task (merge_schedule stage) ≤ merge_partition_size (merge_schedule stage) →
  ∃ blocks stats,
    execute map_fn partial_fn reduce_fn merge_metadata cpus merge_factor pipeline bs out = Ok (blocks, stats) ∧
    simple_execute map_fn reduce_fn bs out = Ok blocks.
Proof. apply execute_is_simple. Qed.

(** The merge task of a reducer is looked up rightly for all reducers exactly if no more
    partitions have an extra reducer than a partition has reducers. *)
Theorem merge_lookup_right_iff out n s :
  0 < n ≤ out → new_schedule out n = Ok s →
  (∀ m k, 0 ≤ m < n → 0 ≤ k < psize s m → get_merge_idx_for_reducer_idx s (base s m + k) = Ok m) ↔
  out mod n ≤ out / n.
Proof.
  intros Hn Hnew. pose proof (new_schedule_ok out n s ltac:(lia) ltac:(lia) Hnew) as Hs.
  unfold new_schedule in Hnew. rewrite (proj2 (Z.eqb_neq n 0)) in Hnew by lia. injection Hnew as <-. cbn in *.
  assert (0 < out / n) as Hq by (apply Z.div_str_pos; lia). split.
  - intros Hall. apply Z.le_ngt. intros Hlt. pose proof (Z.mod_pos_bound out n ltac:(lia)).
    pose proof (merge_idx_wrong _ Hs Hq Hlt) as Hwrong. cbn in Hwrong.
    specialize (Hall (out mod n - 1) 0 ltac:(lia)). unfold psize in Hall. cbn in Hall.
    rewrite (proj2 (Z.ltb_lt _ _)), Z.add_0_r in Hall by lia. rewrite Hall in Hwrong by lia. injection Hwrong. lia.
  - intros Hle m k Hm Hk. by apply merge_idx_right.
Qed.

(** ** Fewer outputs than merge tasks *)

Lemma partition_few {Block} s (l : list Block) m fuel :
  schedule_ok s → merge_partition_size s = 0 → 0 ≤ m → m + len l = _partitions_with_extra_task s →
  (length l ≤ fuel)%nat → ∃ parts, partition_outputs fuel s m l = Ok parts ∧ len parts = len l.
Proof.
  intros Hs Hq. revert m fuel. induction l as [|x l IH]; intros m fuel Hm Hl Hf.
  { exists []. by destruct fuel. }
  destruct fuel as [|fuel]; [cbn in Hf; lia|]. rewrite partition_outputs_S by done. rewrite len_cons in Hl.
  pose proof (len_nonneg l). pose proof (so_extra s Hs).
  rewrite (num_reducers_eq s m) by lia. unfold psize. rewrite (proj2 (Z.ltb_lt _ _)), Hq by lia.
  cbn [mbind result_bind]. rewrite py_slice_from by lia. change (drop (Z.to_nat (0 + 1)) (x :: l)) with l.
  destruct (IH (m + 1) fuel) as (parts & Hp & Hlen); [lia|lia|cbn in Hf; lia|]. rewrite Hp. cbn [mbind result_bind].
  eexists. split; [done|]. by rewrite !len_cons, Hlen.
Qed.

(** With fewer outputs than merge tasks, a shuffle of any blocks fails. *)
Theorem few_outputs_fail {Inp Block Out Metadata} (map_fn : Z → Inp → Z → list Block * Metadata)
    (partial_fn : list Block → Block * Metadata) (reduce_fn : list Block → Out * Metadata) (merge_metadata : list Block → Metadata)
    cpus merge_factor pipeline b bs out stage :
  cpus ≠ [] → Forall (λ p, 0 < p.2) cpus → 1 ≤ merge_factor → (∀ i b, len (map_fn i b out).1 = out) →
  _compute_shuffle_schedule cpus (len (b :: bs)) merge_factor out = Ok stage →
  out < num_merge_tasks_per_round (merge_schedule stage) →
  execute map_fn partial_fn reduce_fn merge_metadata cpus merge_factor pipeline (b :: bs) out = Err AssertionError.
Proof.
  intros Hne Hpos Hmf Hmap Hst Hn.
  assert (0 ≤ out) as Hout by (rewrite <- (Hmap 0 b); apply len_nonneg).
  destruct (compute_stage_ok cpus (len (b :: bs)) merge_factor out) as (stage' & Hst' & Hok); [done..|apply len_nonneg|done|].
  rewrite Hst in Hst'. injection Hst' as <-. destruct Hok as [Hs Ho Hp _ HM _ _ _].
  unfold execute. rewrite Hst. cbn [mbind result_bind]. unfold push_based_execute, new_executor, _submit_round.
  cbn [_num_tasks_per_round]. replace (Z.to_nat (num_map_tasks_per_round stage)) with (S (Z.to_nat (num_map_tasks_per_round stage - 1))) by lia.
  cbn [submit_tasks]. unfold map_next, mbind, st_bind, st_lift, st_get. cbn [_rounds _max_concurrent_rounds py_assert].
  unfold initial_stages. cbn. rewrite Ho. unfold _map_partition. specialize (Hmap 0 b). destruct (map_fn 0 b out) as [l meta]. cbn in Hmap.
  pose proof (so_out _ Hs). pose proof (so_extra _ Hs). pose proof (so_size _ Hs).
  assert (merge_partition_size (merge_schedule stage) = 0) as Hq by nia.
  destruct (partition_few (merge_schedule stage) l 0 (S (Z.to_nat (num_merge_tasks_per_round (merge_schedule stage)))))
    as (parts & -> & Hlen); [done|done|lia|lia|unfold len in *; lia|].
  cbn. rewrite (proj2 (Z.eqb_neq _ _)) by lia. done.
Qed.

(** ** Examples *)

(** Numbers by their remainder. *)
Definition mod_map (i : Z) (b : list Z) (out : Z) : list (list Z) * Z :=
  ((λ j, filter (λ x, x mod out = j) b) <$> seqZ 0 out, i).
Definition concat_reduce (blocks : list (list Z)) : list Z * Z := (concat blocks, len blocks).
Definition number_blocks (n : nat) : list (list Z) :=
  (λ i, (λ k, 10 * Z.of_nat i + Z.of_nat k) <$> seq 0 8) <$> seq 0 n.

Lemma mod_map_len out i b : 0 ≤ out → len (mod_map i b out).1 = out.
Proof. intros Hout. cbn. unfold len. rewrite length_fmap, length_seqZ. lia. Qed.

Lemma concat_reduce_assoc : reduce_assoc mod_map concat_reduce concat_reduce.
Proof. intros cs _ _. cbn. induction cs as [|c cs IH]; [done|]. cbn. by rewrite IH, concat_app. Qed.

Lemma push_based_is_simple_witness :
  ∃ blocks stats,
    execute mod_map concat_reduce concat_reduce len [("node1"%string, 6); ("node2"%string, 6)] 2 true (number_blocks 13) 10 = Ok (blocks, stats) ∧
    simple_execute mod_map concat_reduce (number_blocks 13) 10 = Ok blocks.
Proof.
  destruct (_compute_shuffle_schedule [("node1"%string, 6); ("node2"%string, 6)] (len (number_blocks 13)) 2 10)
    as [stage|] eqn:Hst; [|by vm_compute in Hst].
  apply (push_based_is_simple mod_map concat_reduce concat_reduce len [("node1"%string, 6); ("node2"%string, 6)] 2 true (number_blocks 13) 10 stage);
    [done|by repeat constructor|lia|intros; by apply mod_map_len|exact concat_reduce_assoc|exact Hst|..];
    vm_compute in Hst; injection Hst as <-; vm_compute; congruence.
Defined.

Lemma shuffle_schedule_sound_witness :
  ∃ stage order, _compute_shuffle_schedule [("node1"%string, 16)] 19 2 19 = Ok stage ∧
    num_map_tasks_per_round stage + num_merge_tasks_per_round (merge_schedule stage) ≤ 16 ∧
    round_robin_reduce_idx_iterator (merge_schedule stage) = Ok order ∧ order ≡ₚ seqZ 0 19.
Proof.
  destruct (shuffle_schedule_sound [("node1"%string, 16)] 19 2 19) as (stage & order & Hst & _ & Hcpu & _ & _ & Hrr & Hperm);
    [done|by repeat constructor|lia|lia|lia|].
  exists stage, order. split; [exact Hst|]. split; [exact Hcpu|]. split; [exact Hrr|exact Hperm].
Defined.

Lemma merge_lookup_right_iff_witness :
  ∃ s, new_schedule 19 5 = Ok s ∧
    ¬ (∀ m k, 0 ≤ m < 5 → 0 ≤ k < psize s m → get_merge_idx_for_reducer_idx s (base s m + k) = Ok m).
Proof.
  destruct (new_schedule 19 5) as [s|] eqn:Hs; [|done]. exists s. split; [reflexivity|].
  rewrite (merge_lookup_right_iff 19 5 s); [by vm_compute|lia|exact Hs].
Defined.

(** 19 blocks on a node of 16 CPUs: five merge tasks, four of them with an extra reducer to the
    three of the others.  The reducers find the results of a merge task used up. *)
Example shuffle_of_19_blocks_fails :
  execute mod_map concat_reduce concat_reduce len [("node1"%string, 16)] 2 false (number_blocks 19) 19 = Err IndexError.
Proof. vm_compute. reflexivity. Qed.

(** One output block, as for a repartition into one, and two merge tasks. *)
Example shuffle_into_one_fails :
  execute mod_map concat_reduce concat_reduce len [("node1"%string, 6)] 2 false (number_blocks 6) 1 = Err AssertionError.
Proof. vm_compute. reflexivity. Qed.

(** The statistics of the last round of merge tasks are not collected: of four merge tasks in two
    rounds two are reported. *)
Example merge_stats_missing :
  (λ r : list (list Z) * shuffle_stats Z, (stats_map r.2, stats_merge r.2)) <$>
    execute mod_map concat_reduce concat_reduce len [("node1"%string, 6)] 2 false (number_blocks 7) 7 =
  Ok ([0; 1; 2; 3; 4; 5; 6], [4; 3]).
Proof. vm_compute. reflexivity. Qed.
