(* ===== verification/DataSort.v ===== *)
(** * Sorting a dataset

    [data/_internal/sort.py] on the blocks of [simple_block.py], which are Python lists: sample
    the blocks for boundaries, sort each block and cut it at the boundaries, exchange the
    pieces by a shuffle, and merge the pieces of each range.

    Items are compared by an integer key.  Sampling is random and the quantiles are numpy's:
    both are parameters. *)
From S2P Require Import Prelude PyLists DataShuffle.
From stdpp Require Import base tactics list strings.

#[local] Open Scope Z_scope.

Section sort.
Context {A : Type}.
(** The key function. *)
Context (key : A → Z).

(** [sorted(items, key=key, reverse=descending)] *)
Definition sorted_items (descending : bool) : list A → list A :=
  if descending then py_sorted_rev Z.compare key else py_sorted Z.compare key.

(** [comp_fn]; a boundary of an empty dataset is [None]. *)
Definition comp_fn (descending : bool) (x : A) (b : option Z) : result bool :=
  match b with
  | Some b => Ok (if descending then b <? key x else key x <? b)
  | None => Err TypeError
  end.

(** The inner loop of the scan: how many boundaries [x] has passed, and the others. *)
Fixpoint pop_passed (descending : bool) (x : A) (remaining : list (option Z)) :
    result (nat * list (option Z)) :=
  match remaining with
  | [] => Ok (0%nat, [])
  | b :: rest =>
      below ← comp_fn descending x b;
      if below : bool then Ok (0%nat, remaining)
      else '(n, rest) ← pop_passed descending x rest; Ok (S n, rest)
  end.

(** The boundary indices. *)
Fixpoint boundary_indices (descending : bool) (i : Z) (items : list A) (remaining : list (option Z)) :
    result (list Z) :=
  match items with
  | [] => Ok (replicate (length remaining) i)
  | x :: items =>
      '(n, remaining) ← pop_passed descending x remaining;
      indices ← boundary_indices descending (i + 1) items remaining;
      Ok (replicate n i ++ indices)
  end.

(** The slices between the indices. *)
Fixpoint slices (prev_i : Z) (indices : list Z) (items : list A) : list (list A) :=
  match indices with
  | [] => [py_slice prev_i None items]
  | i :: indices => py_slice prev_i (Some i) items :: slices i indices items
  end.

(** [sort_and_partition] *)
Definition sort_and_partition (boundaries : list (option Z)) (descending : bool) (items : list A) :
    result (list (list A)) :=
  let items := sorted_items descending items in
  match boundaries with
  | [] => Ok [items]
  | _ =>
      indices ← boundary_indices descending 0 items boundaries;
      _ ← py_assert (len indices =? len boundaries);
      Ok (slices 0 indices items)
  end.

(** [merge_sorted_blocks] *)
Definition merge_sorted_blocks (descending : bool) (blocks : list (list A)) : list A :=
  sorted_items descending (concat blocks).

(** [_SortOp.map]; the metadata is the number of rows.  A block that cannot be cut fails the
    sort before this is used, see [sort_impl]. *)
Definition sort_map (boundaries : list (option Z)) (descending : bool) (idx : Z) (block : list A)
    (output_num_blocks : Z) : list (list A) * Z :=
  (match sort_and_partition boundaries descending block with
   | Ok pieces => pieces
   | Err _ => replicate (Z.to_nat output_num_blocks) []
   end, len block).

(** [_SortOp.reduce]; its flag [partial_reduce] makes no difference. *)
Definition sort_reduce (descending : bool) (mapper_outputs : list (list A)) : list A * Z :=
  let block := merge_sorted_blocks descending mapper_outputs in (block, len block).

Section sampling.
(** [random.sample(items, k)], and [np.quantile(items, q, interpolation="nearest")] for [q] in
    [np.linspace(0, 1, num_reducers)]. *)
Context (random_sample : list A → Z → list A) (quantiles : list Z → Z → list Z).

(** [SimpleBlockAccessor.sample], of [_sample_block]. *)
Definition sample (n_samples : Z) (items : list A) : list Z :=
  key <$> random_sample items (Z.min n_samples (len items)).

(** [sample_boundaries] *)
Definition sample_boundaries (blocks : list (list A)) (num_reducers : Z) : result (list (option Z)) :=
  if len blocks =? 0 then Err ZeroDivisionError else
  let n_samples := num_reducers * 10 / len blocks in
  let samples := filter (λ s, s ≠ []) (sample n_samples <$> blocks) in
  match samples with
  | [] => Ok (replicate (Z.to_nat (num_reducers - 1)) None)
  | _ => Ok (Some <$> tail (quantiles (py_sorted Z.compare id (concat samples)) num_reducers))
  end.

(** [sort_impl]; [push_based] has the CPUs of the nodes, and whether reduce tasks are bounded,
    when the context says to use the push-based shuffle.  A map task that fails fails the sort. *)
Definition sort_impl (blocks : list (list A)) (descending : bool)
    (push_based : option (dict string Z * bool)) : result (list (list A)) :=
  match blocks with
  | [] => Ok []
  | _ =>
      let num_reducers := len blocks in
      boundaries ← sample_boundaries blocks num_reducers;
      let boundaries := if descending then rev boundaries else boundaries in
      _ ← mapM (sort_and_partition boundaries descending) blocks;
      match push_based with
      | None => simple_execute (sort_map boundaries descending) (sort_reduce descending) blocks num_reducers
      | Some (cpus, pipeline) =>
          r ← execute (sort_map boundaries descending) (sort_reduce descending) (sort_reduce descending) (λ bs, sumZ (len <$> bs))
                cpus 2 pipeline blocks num_reducers;
          Ok r.1
      end
  end.
End sampling.
End sort.
