(* ===== verification/DataSortProofs.v ===== *)
(** * Sorting a dataset, proved

    The pieces a block is cut into are those of a plain partition by the boundaries; merging
    the pieces of each range gives the ranges of the sorted dataset, so that the blocks in
    order are the whole dataset, sorted as one list would be.  The shuffle between is the simple
    one or, by the theorem of [DataShuffleProofs], the push-based one. *)
From S2P Require Import Prelude PyLists DataShuffle DataShuffleProofs DataSort.
From stdpp Require Import base tactics list strings sorting.

#[local] Open Scope Z_scope.

(** ** Stable sorting by an integer key *)

Lemma stable_sort_ext {A} (f g : A → A → bool) (l : list A) :
  (∀ x y, f x y = g x y) → stable_sort f l = stable_sort g l.
Proof.
  intros Hfg. assert (∀ x l, sort_insert f x l = sort_insert g x l) as Hins.
  { intros x l'. induction l' as [|y l' IH]; [done|]. cbn. by rewrite Hfg, IH. }
  induction l as [|x l IH]; [done|]. cbn. unfold stable_sort in IH. by rewrite IH, Hins.
Qed.

Section stable.
Context {A : Type} (k : A → Z).

Definition before (x y : A) : bool := k x <=? k y.

Lemma before_sorted l : StronglySorted (λ x y, before x y = true) (stable_sort before l).
Proof.
  apply stable_sort_sorted; unfold before.
  - intros x y. rewrite Z.leb_gt, Z.leb_le. lia.
  - intros x y z. rewrite !Z.leb_le. lia.
Qed.

Lemma sort_insert_comm x y (l : list A) :
  before x y = false →
  sort_insert before y (sort_insert before x l) = sort_insert before x (sort_insert before y l).
Proof.
  unfold before. intros Hxy%Z.leb_gt. induction l as [|z l IH]; cbn.
  { rewrite (proj2 (Z.leb_le (k y) (k x))), (proj2 (Z.leb_gt (k x) (k y))) by lia. done. }
  destruct (Z.leb_spec (k x) (k z)), (Z.leb_spec (k y) (k z)); cbn; try lia;
    repeat match goal with |- context [?a <=? ?b] => destruct (Z.leb_spec a b); try lia end; cbn; congruence.
Qed.

Lemma foldr_insert x s F :
  foldr (sort_insert before) F (sort_insert before x s) = sort_insert before x (foldr (sort_insert before) F s).
Proof.
  induction s as [|y s IH]; [done|]. cbn. destruct (before x y) eqn:Hxy; [done|]. cbn.
  rewrite IH. by apply sort_insert_comm.
Qed.

(** Lists that are sorted already may be sorted again with what follows them. *)
Lemma sort_sort_app l1 l2 : stable_sort before (stable_sort before l1 ++ l2) = stable_sort before (l1 ++ l2).
Proof.
  unfold stable_sort. rewrite !foldr_app. set (F := foldr _ _ l2).
  induction l1 as [|x l1 IH]; [done|]. cbn. by rewrite foldr_insert, IH.
Qed.

Lemma sort_app_sort l1 l2 : stable_sort before (l1 ++ stable_sort before l2) = stable_sort before (l1 ++ l2).
Proof.
  unfold stable_sort at 1 3. rewrite !foldr_app. f_equal. fold (stable_sort before (stable_sort before l2)).
  fold (stable_sort before l2). pose proof (sort_sort_app l2 []) as H. by rewrite !app_nil_r in H.
Qed.

Lemma sort_concat_sort (ls : list (list A)) :
  stable_sort before (concat (stable_sort before <$> ls)) = stable_sort before (concat ls).
Proof.
  induction ls as [|l ls IH]; [done|]. cbn [fmap list_fmap concat].
  by rewrite sort_sort_app, <- sort_app_sort, IH, sort_app_sort.
Qed.

(** Sorting commutes with filtering. *)
Lemma filter_insert (P : A → Prop) `{!∀ x, Decision (P x)} x l :
  StronglySorted (λ x y, before x y = true) l →
  filter P (sort_insert before x l) =
    if decide (P x) then sort_insert before x (filter P l) else filter P l.
Proof.
  induction 1 as [|y l Hl IH Hy]; cbn [sort_insert].
  { rewrite filter_cons. by case_decide. }
  assert (∀ l' : list A, Forall (λ z, before x z = true) l' → sort_insert before x l' = x :: l') as Hfirst.
  { intros l' Hl'. destruct Hl' as [|z l' Hz Hl']; [done|]. cbn. by rewrite Hz. }
  destruct (before x y) eqn:Hxy.
  - rewrite (filter_cons P x). destruct (decide (P x)) as [Hx|Hx]; [|done]. rewrite Hfirst; [done|].
    apply Forall_forall. intros z [_ Hz]%list_elem_of_filter. unfold before in *. apply Z.leb_le in Hxy. apply Z.leb_le.
    apply elem_of_cons in Hz as [->|Hz]; [done|]. rewrite Forall_forall in Hy. apply Hy, Z.leb_le in Hz. lia.
  - rewrite !(filter_cons P y), IH. repeat case_decide; cbn [sort_insert]; rewrite ?Hxy; done.
Qed.

Lemma filter_sort (P : A → Prop) `{!∀ x, Decision (P x)} l :
  filter P (stable_sort before l) = stable_sort before (filter P l).
Proof.
  induction l as [|x l IH]; [done|]. change (stable_sort before (x :: l)) with (sort_insert before x (stable_sort before l)).
  rewrite filter_insert by apply before_sorted. rewrite filter_cons, IH. by case_decide.
Qed.

(** A sorted list is cut by a bound. *)
Lemma sorted_split b l :
  StronglySorted (λ x y, before x y = true) l →
  filter (λ x, k x < b) l ++ filter (λ x, b ≤ k x) l = l.
Proof.
  induction 1 as [|y l Hl IH Hy]; [done|]. rewrite !filter_cons.
  destruct (decide (k y < b)) as [Hyb|Hyb].
  - rewrite decide_False by lia. cbn. by rewrite IH.
  - rewrite decide_True by lia. rewrite filter_none, filter_all; [done|..];
      (eapply Forall_impl; [exact Hy|]); unfold before; intros x Hx; apply Z.leb_le in Hx; lia.
Qed.

(** ** The partition by boundaries *)

(** The items below the first boundary, then the others by the other boundaries. *)
Fixpoint cut (bounds : list Z) (l : list A) : list (list A) :=
  match bounds with
  | [] => [l]
  | b :: bounds => filter (λ x, k x < b) l :: cut bounds (filter (λ x, b ≤ k x) l)
  end.

Lemma cut_length bounds l : length (cut bounds l) = S (length bounds).
Proof. revert l. induction bounds as [|b bs IH]; intros l; [done|]. cbn. by rewrite IH. Qed.

Lemma cut_app bounds l1 l2 : cut bounds (l1 ++ l2) = zip_with (++) (cut bounds l1) (cut bounds l2).
Proof.
  revert l1 l2. induction bounds as [|b bs IH]; intros l1 l2; [done|]. cbn. by rewrite !filter_app, IH.
Qed.

Lemma cut_nil bounds : cut bounds [] = replicate (S (length bounds)) [].
Proof. induction bounds as [|b bs IH]; [done|]. cbn in *. by rewrite IH. Qed.

(** Sorting the ranges sorts the list. *)
Lemma sort_cut bounds l : concat (stable_sort before <$> cut bounds l) = stable_sort before l.
Proof.
  revert l. induction bounds as [|b bs IH]; intros l; [cbn; by rewrite app_nil_r|].
  cbn [cut fmap list_fmap concat]. rewrite IH, <- !filter_sort. apply sorted_split, before_sorted.
Qed.

(** Items with the same key are in the same range. *)
Lemma cut_same_key bounds l i j x y p q :
  cut bounds l !! i = Some p → cut bounds l !! j = Some q → x ∈ p → y ∈ q → k x = k y → i = j.
Proof.
  revert l i j. induction bounds as [|b bs IH]; intros l i j Hi Hj Hx Hy Hxy.
  { by destruct i, j. }
  assert (∀ i p x l, cut bs (filter (λ x, b ≤ k x) l) !! i = Some p → x ∈ p → b ≤ k x) as Hge.
  { clear. induction bs as [|b' bs IH]; intros i p x l.
    - destruct i; [|done]. cbn. intros [= <-]. by intros []%list_elem_of_filter.
    - destruct i; cbn.
      + intros [= <-]. by intros [_ []%list_elem_of_filter]%list_elem_of_filter.
      + rewrite list_filter_filter. intros Hi Hx.
        rewrite (list_filter_iff _ (λ x, b ≤ k x ∧ b' ≤ k x)), <- list_filter_filter in Hi by tauto.
        revert Hi. generalize (filter (λ x, b' ≤ k x) l). intros l' Hi. exact (IH i p x l' Hi Hx). }
  destruct i as [|i], j as [|j]; cbn in Hi, Hj.
  - done.
  - injection Hi as <-. apply list_elem_of_filter in Hx as [Hx _]. specialize (Hge _ _ _ _ Hj Hy). lia.
  - injection Hj as <-. apply list_elem_of_filter in Hy as [Hy _]. specialize (Hge _ _ _ _ Hi Hx). lia.
  - f_equal. exact (IH _ _ _ Hi Hj Hx Hy Hxy).
Qed.

(** The pieces of range [j] of several lists are range [j] of their concatenation. *)
Lemma column_cut bounds (ls : list (list A)) (j : Z) :
  0 ≤ j < Z.of_nat (S (length bounds)) →
  cut bounds (concat ls) !! Z.to_nat j = Some (concat (column j (cut bounds <$> ls))).
Proof.
  intros Hj. induction ls as [|l ls IH]; cbn [fmap list_fmap concat].
  { rewrite cut_nil. apply lookup_replicate. split; [done|]. lia. }
  rewrite cut_app, lookup_zip_with, IH. unfold column. cbn [omap list_omap].
  destruct (cut bounds l !! Z.to_nat j) as [p|] eqn:Hp; [done|].
  apply lookup_ge_None in Hp. rewrite cut_length in Hp. lia.
Qed.
End stable.

(** ** Cutting a block *)

Section sort.
Context {A : Type} (key : A → Z) (descending : bool).

(** Descending order is ascending order of the opposite. *)
Definition signed (z : Z) : Z := if descending then - z else z.
Definition okey (x : A) : Z := signed (key x).
#[local] Abbreviation sorted_by := (StronglySorted (λ x y, before okey x y = true)).

Lemma sorted_items_eq (l : list A) : sorted_items key descending l = stable_sort (before okey) l.
Proof.
  unfold sorted_items, py_sorted_rev, py_sorted, before, okey, signed.
  destruct descending; apply stable_sort_ext; intros x y; destruct (Z.compare_spec (key x) (key y)), (Z.leb_spec (- key x) (- key y)),
    (Z.leb_spec (key x) (key y)); (done || lia).
Qed.

Lemma comp_fn_eq x b : comp_fn key descending x (Some b) = Ok (okey x <? signed b).
Proof.
  unfold comp_fn, okey, signed. destruct descending; [|done]. f_equal.
  destruct (Z.ltb_spec b (key x)), (Z.ltb_spec (- key x) (- b)); lia || done.
Qed.

Lemma pop_passed_eq x bs :
  ∃ p s, bs = p ++ s ∧ Forall (λ b, signed b ≤ okey x) p ∧ (∀ b s', s = b :: s' → okey x < signed b) ∧
    pop_passed key descending x (Some <$> bs) = Ok (length p, Some <$> s).
Proof.
  induction bs as [|b bs (p & s & -> & Hp & Hs & IH)]; [by exists [], []|].
  rewrite fmap_cons. cbn [pop_passed]. rewrite comp_fn_eq. cbn [mbind result_bind].
  destruct (Z.ltb_spec (okey x) (signed b)).
  - exists [], (b :: p ++ s). split_and!; [done|done|by intros ? ? [= <-]|done].
  - exists (b :: p), s. rewrite IH. split_and!; [done|by constructor|done|done].
Qed.

(** The index of a boundary is the number of items below it. *)
Lemma boundary_indices_eq i l bs :
  sorted_by l → StronglySorted Z.le (signed <$> bs) →
  boundary_indices key descending i l (Some <$> bs) =
    Ok ((λ b, i + len (filter (λ x, okey x < signed b) l)) <$> bs).
Proof.
  intros Hl. revert i bs. induction Hl as [|x l Hl IH Hx]; intros i bs Hbs; cbn [boundary_indices].
  { f_equal. rewrite length_fmap. clear. induction bs as [|b bs IH]; [done|]. cbn. rewrite IH. f_equal. unfold len. cbn. lia. }
  destruct (pop_passed_eq x bs) as (p & s & -> & Hp & Hs & ->). cbn [mbind result_bind].
  rewrite fmap_app in Hbs. pose proof (StronglySorted_app_1_r _ _ _ Hbs) as Hs'.
  rewrite IH by done. cbn [mbind result_bind]. rewrite fmap_app. f_equal. f_equal.
  - rewrite <- (const_fmap (λ _, i) p) by done. apply list_fmap_ext. intros j b Hb.
    rewrite filter_none; [change (len []) with 0; lia|]. rewrite Forall_lookup in Hp. specialize (Hp j b Hb). cbn in Hp.
    constructor; [lia|]. eapply Forall_impl; [exact Hx|]. unfold before. intros y Hy. apply Z.leb_le in Hy. lia.
  - apply list_fmap_ext. intros j b Hb. rewrite filter_cons_True; [rewrite len_cons; lia|].
    destruct s as [|b0 s]; [done|]. specialize (Hs b0 s eq_refl). destruct j as [|j]; [by injection Hb as <-|].
    rewrite fmap_cons in Hs'. apply StronglySorted_inv in Hs' as [_ Hall]. rewrite Forall_lookup in Hall.
    specialize (Hall j (signed b)). change ((b0 :: s) !! S j) with (s !! j) in Hb. rewrite list_lookup_fmap, Hb in Hall.
    specialize (Hall eq_refl). lia.
Qed.

Lemma filter_lt_all b (l : list A) : Forall (λ x, okey x < b) (filter (λ x, okey x < b) l).
Proof. apply Forall_forall. by intros x [Hx _]%list_elem_of_filter. Qed.

Lemma slices_eq pre rest cs :
  sorted_by rest → StronglySorted Z.le cs →
  slices (len pre) ((λ b, len pre + len (filter (λ x, okey x < b) rest)) <$> cs) (pre ++ rest) = cut okey cs rest.
Proof.
  intros Hrest Hcs. revert pre rest Hrest. induction Hcs as [|b cs Hcs IH Hb]; intros pre rest Hrest; cbn [slices fmap list_fmap cut].
  { rewrite py_slice_from by apply len_nonneg. unfold len. by rewrite Nat2Z.id, drop_app_length. }
  pose proof (sorted_split okey b rest Hrest) as Hsplit. revert Hsplit.
  generalize (filter_lt_all b rest). generalize (filter (λ x, okey x < b) rest), (filter (λ x, b ≤ okey x) rest).
  intros f r Hf <-. f_equal.
  - apply py_slice_mid.
  - rewrite (app_assoc pre), <- len_app. rewrite <- (IH (pre ++ f) r).
    + f_equal. apply list_fmap_ext. intros j b' Hb'. rewrite filter_app, !len_app.
      rewrite (filter_all (λ x, okey x < b') f); [lia|]. rewrite Forall_lookup in Hb. specialize (Hb j b' Hb').
      eapply Forall_impl; [exact Hf|]. cbn. lia.
    + by apply StronglySorted_app_1_r in Hrest.
Qed.

Lemma sort_and_partition_eq bs l :
  StronglySorted Z.le (signed <$> bs) →
  sort_and_partition key (Some <$> bs) descending l =
    Ok (cut okey (signed <$> bs) (stable_sort (before okey) l)).
Proof.
  intros Hbs. unfold sort_and_partition. rewrite sorted_items_eq.
  assert (∀ T (o : list (option Z)) (x y : T), o ≠ [] → match o with [] => x | _ => y end = y) as Hmatch by (by intros ? []).
  destruct (decide (bs = [])) as [->|Hne]; [done|]. rewrite Hmatch by (intros ?%fmap_nil_inv; done).
  rewrite boundary_indices_eq by (done || apply before_sorted). cbn [mbind result_bind].
  rewrite !len_fmap, Z.eqb_refl. cbn [py_assert mbind result_bind]. f_equal.
  rewrite <- (slices_eq [] (stable_sort (before okey) l)) by (done || apply before_sorted).
  by rewrite <- list_fmap_compose.
Qed.

Lemma slices_length i ixs (l : list A) : length (slices i ixs l) = S (length ixs).
Proof. revert i. induction ixs as [|j ixs IH]; intros i; [done|]. cbn. by rewrite IH. Qed.

Lemma sort_and_partition_len bs l ps :
  sort_and_partition key bs descending l = Ok ps → length ps = S (length bs).
Proof.
  unfold sort_and_partition. destruct bs as [|b bs]; [by intros [= <-]|].
  destruct (boundary_indices _ _ _ _ _) as [ixs|]; [|done]. cbn [mbind result_bind].
  unfold py_assert. destruct (Z.eqb_spec (len ixs) (len (b :: bs))) as [Hlen|]; [|done]. cbn [mbind result_bind].
  intros [= <-]. rewrite slices_length. unfold len in Hlen. lia.
Qed.

(** An empty block is cut anywhere. *)
Lemma sort_and_partition_nil bs :
  sort_and_partition key bs descending [] = Ok (replicate (S (length bs)) []).
Proof.
  unfold sort_and_partition. rewrite sorted_items_eq. change (stable_sort (before okey) []) with (@nil A).
  assert (∀ n, slices 0 (replicate n 0) (@nil A) = replicate (S n) []) as Hsl.
  { induction n as [|n IH]; [done|]. cbn [slices replicate] in *. by rewrite IH. }
  destruct bs as [|b bs]; [done|]. cbn [boundary_indices mbind result_bind].
  unfold len at 1. rewrite length_replicate. fold (len (b :: bs)). rewrite Z.eqb_refl. cbn [py_assert mbind result_bind].
  by rewrite Hsl.
Qed.

(** ** The shuffle *)

Lemma sort_reduce_assoc map_fn : reduce_assoc (Inp := list A) map_fn (sort_reduce key descending) (sort_reduce key descending).
Proof.
  intros cs _ _. unfold sort_reduce, merge_sorted_blocks. cbn. rewrite !sorted_items_eq.
  transitivity (stable_sort (before okey) (concat (stable_sort (before okey) <$> ((λ c, concat c) <$> cs)))).
  { do 2 f_equal. rewrite <- list_fmap_compose. apply list_fmap_ext. intros i c _. apply sorted_items_eq. }
  rewrite sort_concat_sort. f_equal. induction cs as [|c cs IH]; [done|]. cbn. by rewrite IH, concat_app.
Qed.

Lemma sort_map_len bs out i b :
  length bs = Z.to_nat (out - 1) → 0 < out → len (sort_map key bs descending i b out).1 = out.
Proof.
  intros Hbs Hout. cbn. unfold len. destruct (sort_and_partition _ _ _ _) as [ps|] eqn:Hp.
  - rewrite (sort_and_partition_len _ _ _ Hp). lia.
  - rewrite length_replicate. lia.
Qed.

(** With blocks cut by [cs], the outputs are the sorted ranges. *)
Lemma simple_sort_eq bs cs blocks out :
  length bs = Z.to_nat (out - 1) → length cs = length bs → 0 < out →
  (∀ b, b ∈ blocks → sort_and_partition key bs descending b = Ok (cut okey cs (stable_sort (before okey) b))) →
  simple_execute (sort_map key bs descending) (sort_reduce key descending) blocks out =
    Ok (stable_sort (before okey) <$> cut okey cs (concat (stable_sort (before okey) <$> blocks))).
Proof.
  intros Hbs Hcs Hout Hcut.
  pose (stage := mkStage 0 0 [] (mkSchedule out 0 0 0)).
  etransitivity; [apply (simple_eq _ _ stage); [intros; by apply sort_map_len|done]|]. f_equal.
  change (output_num_blocks (merge_schedule stage)) with out.
  assert (∀ i bl, (∀ b, b ∈ bl → b ∈ blocks) →
    map_outs (sort_map key bs descending) stage i bl = cut okey cs <$> (stable_sort (before okey) <$> bl)) as Hmap.
  { intros i bl. revert i. induction bl as [|b bl IH]; intros i Hbl; [done|].
    cbn [map_outs fmap list_fmap]. rewrite IH by (intros; apply Hbl; by right). f_equal.
    unfold sort_map. rewrite Hcut by (apply Hbl; by left). done. }
  rewrite Hmap by done. apply list_eq. intros j. rewrite !list_lookup_fmap.
  destruct (decide (Z.of_nat j < out)).
  - rewrite lookup_seqZ_lt by lia. cbn [fmap option_fmap option_map].
    rewrite <- (Nat2Z.id j) at 2. rewrite column_cut by lia. cbn [fmap option_fmap option_map]. f_equal.
    unfold sort_reduce, merge_sorted_blocks. cbn [fst]. by rewrite sorted_items_eq.
  - rewrite lookup_seqZ_ge by lia. rewrite lookup_ge_None_2; [done|]. rewrite cut_length. lia.
Qed.

(** ** The boundaries *)

Lemma signed_sorted qs :
  StronglySorted Z.le qs → StronglySorted Z.le (signed <$> (if descending then rev qs else qs)).
Proof.
  intros Hqs. unfold signed. destruct descending; [|by rewrite list_fmap_id].
  induction Hqs as [|q qs Hqs IH Hq]; [constructor|]. cbn [rev]. rewrite fmap_app. apply StronglySorted_app_2; [|done|by repeat constructor].
  intros x y Hx Hy. apply list_elem_of_fmap in Hx as (x' & -> & Hx). apply list_elem_of_singleton in Hy as ->.
  rewrite rev_alt in Hx. apply (elem_of_reverse x' qs) in Hx. rewrite Forall_forall in Hq. specialize (Hq x' Hx). lia.
Qed.

Section sampling.
Context (random_sample : list A → Z → list A) (quantiles : list Z → Z → list Z).

(** A sample has the size that was asked for. *)
Definition sample_sized : Prop := ∀ l n, 0 ≤ n ≤ len l → len (random_sample l n) = n.

(** The quantiles of a list that is not empty are one per point, in order. *)
Definition quantiles_ordered : Prop :=
  ∀ l n, l ≠ [] → 0 ≤ n → len (quantiles l n) = n ∧ StronglySorted Z.le (quantiles l n).

Context (Hsample : sample_sized) (Hquant : quantiles_ordered).

(** The boundaries, in the direction of the sort, cut the blocks into as many ranges. *)
Lemma boundaries_eq blocks :
  blocks ≠ [] →
  ∃ bs cs, sample_boundaries key random_sample quantiles blocks (len blocks) = Ok bs ∧
    length bs = Z.to_nat (len blocks - 1) ∧ length cs = length bs ∧
    ∀ b, b ∈ blocks → sort_and_partition key (if descending then rev bs else bs) descending b =
      Ok (cut okey cs (stable_sort (before okey) b)).
Proof using Hsample Hquant.
  intros Hne. pose proof (len_nonneg blocks).
  assert (0 < len blocks) as Hlen by (destruct blocks; [done|rewrite len_cons; pose proof (len_nonneg blocks); lia]).
  unfold sample_boundaries. rewrite (proj2 (Z.eqb_neq (len blocks) 0)), Z.mul_comm, Z.div_mul by lia.
  destruct (filter (λ s, s ≠ []) (sample key random_sample 10 <$> blocks)) as [|s ss] eqn:Hs.
  - exists (replicate (Z.to_nat (len blocks - 1)) None), (replicate (Z.to_nat (len blocks - 1)) 0).
    rewrite !length_replicate. split_and!; [done..|]. intros b Hb. assert (b = []) as ->.
    { assert (sample key random_sample 10 b = []) as Hsb.
      { destruct (decide (sample key random_sample 10 b = [])) as [|Hn]; [done|].
        exfalso. apply (not_elem_of_nil (sample key random_sample 10 b)). rewrite <- Hs. apply list_elem_of_filter.
        split; [done|]. apply list_elem_of_fmap. by exists b. }
      unfold sample in Hsb. apply fmap_nil_inv in Hsb. pose proof (len_nonneg b).
      pose proof (Hsample b (Z.min 10 (len b)) ltac:(lia)) as Hl. rewrite Hsb in Hl. change (len []) with 0 in Hl.
      destruct b; [done|]. rewrite len_cons in *. pose proof (len_nonneg b). lia. }
    rewrite sort_and_partition_nil. change (stable_sort (before okey) []) with (@nil A). rewrite cut_nil.
    destruct descending; by rewrite ?length_rev, !length_replicate.
  - destruct (Hquant (py_sorted Z.compare id (concat (s :: ss))) (len blocks)) as [Hl Hqs]; [|lia|].
    { intros Hnil. assert (s ≠ []) as Hsn.
      { assert (s ∈ s :: ss) as Hin by (by left). rewrite <- Hs in Hin. by apply list_elem_of_filter in Hin as []. }
      apply (f_equal length) in Hnil. rewrite py_sorted_perm in Hnil. destruct s; [done|]. cbn in Hnil. done. }
    set (qs := quantiles _ _) in *. assert (StronglySorted Z.le (tail qs)) as Htail.
    { destruct Hqs; [constructor|done]. }
    exists (Some <$> tail qs), (signed <$> (if descending then rev (tail qs) else tail qs)).
    assert (length (tail qs) = Z.to_nat (len blocks - 1)) as Hlt.
    { unfold len in *. destruct qs; cbn in *; lia. }
    split_and!; [done|by rewrite length_fmap|destruct descending; by rewrite !length_fmap, ?length_rev|]. intros b _.
    rewrite <- sort_and_partition_eq by by apply signed_sorted. f_equal.
    destruct descending; [|done]. rewrite !rev_alt. symmetry. apply fmap_reverse.
Qed.
End sampling.
End sort.

(** ** The sort *)

(** The nodes of a push-based shuffle of [n] blocks into [n] have CPUs, and its schedule has no
    more partitions with an extra reducer than a partition has reducers. *)
Definition schedulable (n : Z) (push_based : option (dict string Z * bool)) : Prop :=
  match push_based with
  | None => True
  | Some (cpus, _) =>
      cpus ≠ [] ∧ Forall (λ p, 0 < p.2) cpus ∧
      ∀ stage, _compute_shuffle_schedule cpus n 2 n = Ok stage →
        _partitions_with_extra_task (merge_schedule stage) ≤ merge_partition_size (merge_schedule stage)
  end.

(** The outputs are the sorted ranges of the dataset between some boundaries. *)
Lemma sort_impl_eq {A} (key : A → Z) random_sample quantiles (blocks : list (list A)) descending push_based :
  blocks ≠ [] →
  sample_sized random_sample → quantiles_ordered quantiles → schedulable (len blocks) push_based →
  ∃ cs, length cs = Z.to_nat (len blocks - 1) ∧
    sort_impl key random_sample quantiles blocks descending push_based =
      Ok (stable_sort (before (okey key descending)) <$>
            cut (okey key descending) cs (concat (stable_sort (before (okey key descending)) <$> blocks))).
Proof.
  intros Hne Hsample Hquant Hsched.
  destruct (boundaries_eq key descending random_sample quantiles Hsample Hquant blocks Hne) as (bs & cs & Hbs & Hlb & Hlc & Hcut).
  assert (0 < len blocks) as Hlen by (destruct blocks; [done|rewrite len_cons; pose proof (len_nonneg blocks); lia]).
  set (bs' := if descending then rev bs else bs) in *.
  assert (length bs' = Z.to_nat (len blocks - 1)) as Hlb' by (unfold bs'; destruct descending; by rewrite ?length_rev).
  pose proof (simple_sort_eq key descending bs' cs blocks (len blocks) Hlb' ltac:(lia) Hlen Hcut) as Hsimple.
  exists cs. split; [lia|].
  unfold sort_impl. destruct blocks as [|b blocks]; [done|]. set (blks := b :: blocks) in *.
  rewrite Hbs. cbn [mbind result_bind]. fold bs'. rewrite (mapM_total _ _ _ Hcut). cbn [mbind result_bind].
  destruct push_based as [[cpus pipeline]|]; [|exact Hsimple]. destruct Hsched as (Hcpu & Hpos & Hsched).
  destruct (compute_stage_ok cpus (len blks) 2 (len blks)) as (stage & Hst & Hok); [done..|lia|lia|lia|].
  destruct (execute_is_simple (sort_map key bs' descending) (sort_reduce key descending) (sort_reduce key descending) (λ bs, sumZ (len <$> bs))
              cpus 2 pipeline blks (len blks) stage) as (res & stats & Hex & Hres); [done|done|lia| | |done| |by apply Hsched|].
  - intros. by apply sort_map_len.
  - apply sort_reduce_assoc.
  - destruct Hok as [_ _ _ _ _ [-> |Hm] _ _]; lia.
  - rewrite Hex. cbn. rewrite Hsimple in Hres. by injection Hres as <-.
Qed.

(** C18: A sort sorts.  For any dataset of lists, any samples of the size asked for and any
    ordered quantiles of them, ascending or descending, by the simple or by the push-based
    shuffle where that has a good schedule: it returns as many blocks as the dataset has, the
    blocks in order are the whole dataset sorted as Python's [sorted] sorts one list, also in
    the order of items with the same key, and items with the same key are in the same block. *)
Theorem sort_correct {A} (key : A → Z) random_sample quantiles (blocks : list (list A)) descending push_based :
  sample_sized random_sample → quantiles_ordered quantiles → schedulable (len blocks) push_based →
  ∃ outs, sort_impl key random_sample quantiles blocks descending push_based = Ok outs ∧
    len outs = len blocks ∧
    concat outs = sorted_items key descending (concat blocks) ∧
    ∀ i j p q x y, outs !! i = Some p → outs !! j = Some q → x ∈ p → y ∈ q → key x = key y → i = j.
Proof.
  intros Hsample Hquant Hsched. destruct (decide (blocks = [])) as [->|Hne].
  { exists []. split_and!; [done..|by rewrite sorted_items_eq|done]. }
  destruct (sort_impl_eq key random_sample quantiles blocks descending push_based) as (cs & Hcs & ->); [done..|].
  eexists. split; [reflexivity|]. split_and!.
  - rewrite len_fmap. unfold len at 1. rewrite cut_length.
    destruct blocks; [done|]. rewrite len_cons in *. pose proof (len_nonneg blocks). lia.
  - by rewrite sort_cut, sort_concat_sort, sorted_items_eq.
  - intros i j p q x y. rewrite !list_lookup_fmap. intros (p' & Hp & ->)%fmap_Some (q' & Hq & ->)%fmap_Some.
    rewrite !elem_of_stable_sort. intros Hx Hy Hxy. apply (cut_same_key _ _ _ _ _ _ _ _ _ Hp Hq Hx Hy).
    unfold okey. by rewrite Hxy.
Qed.

(** ** Examples *)

(** The first items as the sample. *)
Definition first_items {A} (l : list A) (n : Z) : list A := take (Z.to_nat n) l.

(** The nearest ranks below the quantiles. *)
Definition ranks (l : list Z) (n : Z) : list Z :=
  (λ i, default 0 (py_sorted Z.compare id l !! Z.to_nat (i * (len l - 1) / (n - 1)))) <$> seqZ 0 n.

Lemma first_items_sized {A} : sample_sized (@first_items A).
Proof. intros l n Hn. unfold first_items, len in *. rewrite length_take. lia. Qed.

Lemma sorted_lookup (l : list Z) (i j : nat) :
  StronglySorted Z.le l → (i ≤ j < length l)%nat → default 0 (l !! i) ≤ default 0 (l !! j).
Proof.
  intros Hl. revert i j. induction Hl as [|x l Hl IH Hx]; intros i j Hij; cbn in Hij; [lia|].
  destruct j as [|j]; [by replace i with 0%nat by lia|]. destruct i as [|i]; [|apply (IH i j); lia].
  change ((x :: l) !! S j) with (l !! j). change (default 0 ((x :: l) !! 0%nat)) with x.
  destruct (lookup_lt_is_Some_2 l j ltac:(lia)) as [y Hy]. rewrite Hy. cbn. rewrite Forall_lookup in Hx. by apply (Hx j).
Qed.

Lemma ranks_ordered : quantiles_ordered ranks.
Proof.
  intros l n Hne Hn. unfold ranks. split; [unfold len; rewrite length_fmap, length_seqZ; lia|].
  assert (StronglySorted Z.le (py_sorted Z.compare id l)) as Hl.
  { pose proof (sorted_items_eq id false l) as Heq. cbn in Heq. rewrite Heq. pose proof (before_sorted (okey id false) l) as Hs.
    clear Heq. induction Hs as [|x s Hs IH Hx]; [constructor|]. constructor; [done|]. eapply Forall_impl; [exact Hx|]. intros y Hy%Z.leb_le. exact Hy. }
  assert (0 < len l) by (destruct l; [done|]; rewrite len_cons; pose proof (len_nonneg l); lia).
  assert (length (py_sorted Z.compare id l) = Z.to_nat (len l)) as Hll by (rewrite py_sorted_perm; unfold len; lia).
  revert Hl Hll. generalize (py_sorted Z.compare id l). intros sl Hl Hll.
  assert (∀ i (m : nat), 0 ≤ i → i + Z.of_nat m = n → StronglySorted Z.le
    ((λ i, default 0 (sl !! Z.to_nat (i * (len l - 1) / (n - 1)))) <$> seqZ i (Z.of_nat m))) as Hgen.
  { intros i m. revert i. induction m as [|m IH]; intros i Hi Hm; [constructor|].
    rewrite seqZ_cons by lia. rewrite fmap_cons. replace (Z.pred (Z.of_nat (S m))) with (Z.of_nat m) by lia.
    constructor; [apply IH; lia|]. apply Forall_fmap, Forall_forall. intros j [Hj1 Hj2]%elem_of_seqZ. cbn.
    assert (0 ≤ i * (len l - 1) / (n - 1)) by (apply Z.div_pos; nia).
    assert (i * (len l - 1) / (n - 1) ≤ j * (len l - 1) / (n - 1)) by (apply Z.div_le_mono; nia).
    assert (j * (len l - 1) / (n - 1) ≤ len l - 1) by (apply Z.div_le_upper_bound; nia).
    apply sorted_lookup; [done|]. lia. }
  specialize (Hgen 0 (Z.to_nat n) ltac:(lia) ltac:(lia)). by rewrite Z2Nat.id in Hgen by lia.
Qed.

(** Records with a key and a name. *)
Definition records : list (list (Z * string)) :=
  [[(3, "a"%string); (1, "b"%string); (2, "c"%string)]; [];
   [(2, "d"%string); (5, "e"%string); (1, "f"%string); (9, "g"%string)]; [(2, "h"%string)]].

Lemma sort_correct_witness :
  ∃ outs, sort_impl fst first_items ranks records true (Some ([("node1"%string, 4); ("node2"%string, 4)], true)) = Ok outs ∧
    concat outs = [(9, "g"%string); (5, "e"%string); (3, "a"%string); (2, "c"%string); (2, "d"%string); (2, "h"%string);
                   (1, "b"%string); (1, "f"%string)].
Proof.
  destruct (sort_correct fst first_items ranks records true (Some ([("node1"%string, 4); ("node2"%string, 4)], true)))
    as (outs & Hsort & _ & Hconcat & _).
  - exact first_items_sized.
  - exact ranks_ordered.
  - split; [done|]. split; [by repeat constructor|]. intros stage Hst. vm_compute in Hst. injection Hst as <-. vm_compute. congruence.
  - exists outs. split; [exact Hsort|]. rewrite Hconcat. vm_compute. reflexivity.
Defined.

(** The blocks of the ascending sort. *)
Example sort_records :
  sort_impl fst first_items ranks records false None =
    Ok [[(1, "b"%string); (1, "f"%string)]; [];
        [(2, "c"%string); (2, "d"%string); (2, "h"%string); (3, "a"%string); (5, "e"%string)]; [(9, "g"%string)]].
Proof. vm_compute. reflexivity. Qed.

(** The last boundary is the largest of the sample: of two blocks, the second gets no more. *)
Example sort_two_blocks :
  sort_impl id first_items ranks [[4; 7; 1; 6]; [2; 8; 3; 5]] false None = Ok [[1; 2; 3; 4; 5; 6; 7]; [8]].
Proof. vm_compute. reflexivity. Qed.
