(* ===== verification/DataAggregate.v ===== *)
(** * Aggregations

    [data/aggregate.py], with the null handling of [data/_internal/null_aggregate.py] and the
    aggregations of a block of [simple_block.py].

    A row is anything; [on] takes the number to aggregate from it, or [None] for a null.  Numbers
    are exact rationals in lowest terms, so that equal numbers are equal; there is no NaN. *)
From S2P Require Import Prelude PyLists.
From stdpp Require Import base tactics list.
From Stdlib Require Import QArith Qcanon.

#[local] Open Scope Z_scope.

(** ** Numbers *)

(** An integer as a number. *)
Definition qnum (z : Z) : Qc := Q2Qc (inject_Z z).

Definition Qcltb (a b : Qc) : bool := match Qccompare a b with Lt => true | _ => false end.

(** Numbers with the infinities. *)
Inductive float := NegInf | Fin (q : Qc) | PosInf.

Definition float_lt (a b : float) : bool :=
  match a, b with
  | NegInf, NegInf => false
  | NegInf, _ => true
  | Fin p, Fin q => Qcltb p q
  | Fin _, PosInf => true
  | _, _ => false
  end.

(** [min(a, b)], [max(a, b)]: the first of equals. *)
Definition py_min (a b : float) : float := if float_lt b a then b else a.
Definition py_max (a b : float) : float := if float_lt a b then b else a.

(** ** [AggregateFn] *)

(** The key is [None] for an aggregation of the whole dataset. *)
Record AggregateFn (Row Acc U : Type) := mkAggregateFn {
  agg_init : option Z → Acc;
  agg_merge : Acc → Acc → Acc;
  agg_accumulate_block : Acc → list Row → Acc;
  agg_finalize : Acc → U
}.
Arguments mkAggregateFn {Row Acc U}.
Arguments agg_init {Row Acc U}.
Arguments agg_merge {Row Acc U}.
Arguments agg_accumulate_block {Row Acc U}.
Arguments agg_finalize {Row Acc U}.

(** [AggregateFn(init, merge, accumulate_row, accumulate_block, finalize)] *)
Definition aggregate_fn {Row Acc U} (init : option Z → Acc) (merge : Acc → Acc → Acc)
    (accumulate_row : option (Acc → Row → Acc)) (accumulate_block : option (Acc → list Row → Acc))
    (finalize : Acc → U) : result (AggregateFn Row Acc U) :=
  match accumulate_row, accumulate_block with
  | None, None => Err ValueError
  | Some _, Some _ => Err ValueError
  | Some accumulate_row, None =>
      Ok (mkAggregateFn init merge (λ a block, fold_left accumulate_row block a) finalize)
  | None, Some accumulate_block => Ok (mkAggregateFn init merge accumulate_block finalize)
  end.

(** ** Nulls *)

(** An accumulation that may be null, with the flag that it has data at the end of its list. *)
Definition WrappedAggType (A : Type) : Type := option (A * bool).

Section null.
Context {Row A U : Type}.

(** [_null_wrap_init] *)
Definition _null_wrap_init (init : option Z → A) (k : option Z) : WrappedAggType A := Some (init k, false).

(** [_null_wrap_merge] *)
Definition _null_wrap_merge (ignore_nulls : bool) (merge : A → A → A) (a1 a2 : WrappedAggType A) :
    WrappedAggType A :=
  match a1 with
  | None => if ignore_nulls then a2 else None
  | Some (unwrapped_a1, a1_has_data) =>
      if negb a1_has_data then a2 else
      match a2 with
      | None => if ignore_nulls then a1 else None
      | Some (unwrapped_a2, a2_has_data) =>
          if negb a2_has_data then a1 else Some (merge unwrapped_a1 unwrapped_a2, true)
      end
  end.

(** [_null_wrap_accumulate_row] *)
Definition _null_wrap_accumulate_row {V} (ignore_nulls : bool) (on_fn : Row → option V) (accum : A → V → A)
    (a : WrappedAggType A) (r : Row) : WrappedAggType A :=
  match on_fn r with
  | None => if ignore_nulls then a else None
  | Some v =>
      match a with
      | None => None
      | Some (a, _) => Some (accum a v, true)
      end
  end.

(** [_null_wrap_accumulate_block] *)
Definition _null_wrap_accumulate_block (ignore_nulls : bool) (accum_block : list Row → option A)
    (null_merge : WrappedAggType A → WrappedAggType A → WrappedAggType A) (a : WrappedAggType A)
    (block : list Row) : WrappedAggType A :=
  let ret :=
    match accum_block block with
    | Some ret => Some (ret, true)
    | None => if ignore_nulls then a else None
    end in
  null_merge a ret.

(** [_null_wrap_finalize] *)
Definition _null_wrap_finalize (finalize : A → U) (a : WrappedAggType A) : option U :=
  match a with
  | None => None
  | Some (a, has_data) => if negb has_data then None else Some (finalize a)
  end.
End null.

(** ** Aggregations of a simple block *)

Section block.
Context {Row V : Type} (on : Row → option V).

(** [SimpleBlockAccessor.count] *)
Definition block_count (block : list Row) : option Z :=
  if len block =? 0 then None
  else Some (fold_left (λ count r, match on r with Some _ => count + 1 | None => count end) block 0).

(** The loop of [_apply_accum]. *)
Fixpoint accum_rows {A} (ignore_nulls : bool) (accum : A → V → A) (has_data : bool) (a : A) (rows : list Row) :
    option A :=
  match rows with
  | [] => if has_data then Some a else None
  | r :: rows =>
      match on r with
      | None => if ignore_nulls then accum_rows ignore_nulls accum has_data a rows else None
      | Some v => accum_rows ignore_nulls accum true (accum a v) rows
      end
  end.

(** [_apply_accum] *)
Definition _apply_accum {A} (init : A) (accum : A → V → A) (ignore_nulls : bool) (block : list Row) : option A :=
  if len block =? 0 then None else accum_rows ignore_nulls accum false init block.
End block.

Section aggregations.
Context {Row : Type} (on : Row → option Qc) (ignore_nulls : bool).

(** [SimpleBlockAccessor.sum], [min], [max], [sum_of_squared_diffs_from_mean] with a mean. *)
Definition block_sum : list Row → option Qc := _apply_accum on (qnum 0) Qcplus ignore_nulls.
Definition block_min : list Row → option float :=
  _apply_accum on PosInf (λ a r, py_min a (Fin r)) ignore_nulls.
Definition block_max : list Row → option float :=
  _apply_accum on NegInf (λ a r, py_max a (Fin r)) ignore_nulls.
Definition sum_of_squared_diffs_from_mean (mean : Qc) : list Row → option Qc :=
  _apply_accum on (qnum 0) (λ a r, a + (r - mean) * (r - mean))%Qc ignore_nulls.

(** [Count()] *)
Definition Count : AggregateFn Row Z Z :=
  mkAggregateFn (λ _, 0) Z.add (λ a block, a + len block) id.

(** An aggregation of blocks with nulls handled: the four classes that follow. *)
Definition null_aggregate {A U} (init : A) (merge : A → A → A) (accum_block : list Row → option A)
    (finalize : A → U) : AggregateFn Row (WrappedAggType A) (option U) :=
  let null_merge := _null_wrap_merge ignore_nulls merge in
  mkAggregateFn (_null_wrap_init (λ _, init)) null_merge
    (_null_wrap_accumulate_block ignore_nulls accum_block null_merge) (_null_wrap_finalize finalize).

(** [Sum(on, ignore_nulls)], [Min(on, ignore_nulls)], [Max(on, ignore_nulls)] *)
Definition Sum : AggregateFn Row (WrappedAggType Qc) (option Qc) :=
  null_aggregate (qnum 0) Qcplus block_sum id.
Definition Min : AggregateFn Row (WrappedAggType float) (option float) :=
  null_aggregate PosInf py_min block_min id.
Definition Max : AggregateFn Row (WrappedAggType float) (option float) :=
  null_aggregate NegInf py_max block_max id.

(** [vectorized_mean] *)
Definition vectorized_mean (block : list Row) : option (Qc * Z) :=
  match block_count on block with
  | None => None
  | Some count =>
      if count =? 0 then None else
      match block_sum block with
      | None => None
      | Some sum_ => Some (sum_, count)
      end
  end.

(** [Mean(on, ignore_nulls)] *)
Definition Mean : AggregateFn Row (WrappedAggType (Qc * Z)) (option Qc) :=
  null_aggregate (qnum 0, 0) (λ a1 a2, ((a1.1 + a2.1)%Qc, a1.2 + a2.2)) vectorized_mean
    (λ a, (a.1 / qnum a.2)%Qc).

(** [M2, mean, count] *)
Definition Moments : Type := Qc * Qc * Z.

(** [merge] of [Std] *)
Definition std_merge (a b : Moments) : Moments :=
  let '(M2_a, mean_a, count_a) := a in
  let '(M2_b, mean_b, count_b) := b in
  let delta := (mean_b - mean_a)%Qc in
  let count := count_a + count_b in
  let mean := ((mean_a * qnum count_a + mean_b * qnum count_b) / qnum count)%Qc in
  let M2 := (M2_a + M2_b + delta * delta * qnum count_a * qnum count_b / qnum count)%Qc in
  (M2, mean, count).

(** [vectorized_std] *)
Definition vectorized_std (block : list Row) : option Moments :=
  match block_count on block with
  | None => None
  | Some count =>
      if count =? 0 then None else
      match block_sum block with
      | None => None
      | Some sum_ =>
          let mean := (sum_ / qnum count)%Qc in
          match sum_of_squared_diffs_from_mean mean block with
          | None => None
          | Some M2 => Some (M2, mean, count)
          end
      end
  end.

(** [finalize] of [Std]; the root is [math.sqrt], of the variance it is given. *)
Definition std_finalize (sqrt : Qc → Qc) (ddof : Z) (a : Moments) : result Qc :=
  let '(M2, mean, count) := a in
  if count <? 2 then Ok (qnum 0)
  else if count - ddof =? 0 then Err ZeroDivisionError
  else if Qcltb (M2 / qnum (count - ddof))%Qc (qnum 0) then Err ValueError
  else Ok (sqrt (M2 / qnum (count - ddof))%Qc).

(** [Std(on, ddof, ignore_nulls)]; a result of [finalize] that is an error fails the task. *)
Definition Std (sqrt : Qc → Qc) (ddof : Z) : AggregateFn Row (WrappedAggType Moments) (option (result Qc)) :=
  null_aggregate (qnum 0, qnum 0, 0) std_merge vectorized_std (std_finalize sqrt ddof).

Definition Qcabs (q : Qc) : Qc := if Qcltb q (qnum 0) then (- q)%Qc else q.
Definition Qcmax (a b : Qc) : Qc := if Qcltb a b then b else a.

(** [AbsMax(on, ignore_nulls)] *)
Definition AbsMax : AggregateFn Row (WrappedAggType Qc) (option Qc) :=
  let accumulate_row := _null_wrap_accumulate_row ignore_nulls on (λ a r, Qcmax a (Qcabs r)) in
  mkAggregateFn (_null_wrap_init (λ _, qnum 0)) (_null_wrap_merge ignore_nulls Qcmax)
    (λ a block, fold_left accumulate_row block a) (_null_wrap_finalize id).
End aggregations.
