(* ===== verification/DataAggregateProofs.v ===== *)
(** * Aggregations, proved

    What an aggregation promises to a grouping: it may be accumulated in parts.  The aggregations
    of [aggregate.py] do, and treat nulls by the policy that [null_aggregate.py] states: the
    result is that of the values without the nulls, or null, if there are only nulls, or if
    there is a null and nulls are not ignored. *)
From S2P Require Import Prelude PyLists DataAggregate.
From stdpp Require Import base tactics list.
From Stdlib Require Import QArith Qcanon.

#[local] Open Scope Z_scope.

(** ** The interface *)

Class AggregateLaws {Row Acc U} (agg : AggregateFn Row Acc U) : Prop := {
  accumulate_app : ∀ k l1 l2, l1 ≠ [] → l2 ≠ [] →
    agg_accumulate_block agg (agg_init agg k) (l1 ++ l2) =
    agg_merge agg (agg_accumulate_block agg (agg_init agg k) l1) (agg_accumulate_block agg (agg_init agg k) l2)
}.

#[export] Instance Count_laws {Row} : AggregateLaws (@Count Row).
Proof. split. intros k l1 l2 _ _. cbn. rewrite len_app. lia. Qed.

(** ** The policy for nulls *)

Section policy.
Context {Row V : Type} (on : Row → option V) (ignore_nulls : bool).

(** Nulls that make the result null. *)
Definition spoilt (l : list Row) : bool := negb ignore_nulls && bool_decide (Exists (λ r, on r = None) l).

(** The policy, for an aggregation [f] of values. *)
Definition policy {A} (f : list V → A) (l : list Row) : option A :=
  if spoilt l then None else match omap on l with [] => None | vs => Some (f vs) end.

Lemma spoilt_cons r l : spoilt (r :: l) = negb ignore_nulls && bool_decide (on r = None) || spoilt l.
Proof.
  unfold spoilt. destruct ignore_nulls; [done|]. cbn. rewrite (bool_decide_ext _ _ (Exists_cons _ r l)).
  by rewrite bool_decide_or.
Qed.

Lemma spoilt_app l1 l2 : spoilt (l1 ++ l2) = spoilt l1 || spoilt l2.
Proof.
  induction l1 as [|r l1 IH]; [unfold spoilt at 2; cbn; by rewrite andb_false_r|].
  cbn [app]. by rewrite !spoilt_cons, IH, orb_assoc.
Qed.

Lemma accum_rows_eq {A} (accum : A → V → A) has_data a l :
  accum_rows on ignore_nulls accum has_data a l =
    if spoilt l then None else
    if has_data || negb (bool_decide (omap on l = [])) then Some (fold_left accum (omap on l) a) else None.
Proof.
  revert has_data a. induction l as [|r l IH]; intros has_data a.
  { unfold spoilt. cbn. by rewrite andb_false_r, orb_false_r. }
  rewrite spoilt_cons. cbn [accum_rows omap list_omap]. destruct (on r) as [v|].
  - rewrite IH. cbn. rewrite andb_false_r, orb_true_r. by destruct (spoilt l).
  - destruct ignore_nulls eqn:Hi; cbn; [|done]. by rewrite IH.
Qed.

Lemma apply_accum_policy {A} (init : A) (accum : A → V → A) l :
  _apply_accum on init accum ignore_nulls l = policy (λ vs, fold_left accum vs init) l.
Proof.
  unfold _apply_accum, policy. destruct l as [|r l]; [cbn; by destruct (spoilt [])|].
  rewrite len_cons, (proj2 (Z.eqb_neq _ _)) by (pose proof (len_nonneg l); lia). rewrite accum_rows_eq.
  destruct (spoilt (r :: l)); [done|]. cbn [orb]. by destruct (omap on (r :: l)).
Qed.

(** A list that is not empty and not spoilt has values, unless nulls are ignored. *)
Lemma values_of l : l ≠ [] → spoilt l = false → ignore_nulls = false → omap on l ≠ [].
Proof.
  unfold spoilt. intros Hne Hs Hi. rewrite Hi in Hs. cbn in Hs. apply bool_decide_eq_false in Hs.
  destruct l as [|r l]; [done|]. cbn. destruct (on r) eqn:Hr; [done|]. exfalso. apply Hs. by left.
Qed.

(** ** Aggregations with nulls handled *)

Section null_aggregate.
Context {A U : Type} (init : A) (merge : A → A → A) (accum_block : list Row → option A) (finalize : A → U).
Context (f : list V → A).
Context (Hblock : ∀ l, accum_block l = policy f l).
Context (Hmerge : ∀ vs1 vs2, vs1 ≠ [] → vs2 ≠ [] → merge (f vs1) (f vs2) = f (vs1 ++ vs2)).
#[local] Abbreviation agg := (null_aggregate ignore_nulls init merge accum_block finalize).

Lemma accumulate_null k l :
  agg_accumulate_block agg (agg_init agg k) l =
    match policy f l with
    | Some a => Some (a, true)
    | None => if ignore_nulls then Some (init, false) else None
    end.
Proof using Hblock.
  cbn. unfold _null_wrap_accumulate_block, _null_wrap_init. rewrite Hblock. by destruct (policy f l), ignore_nulls.
Qed.

(** Parts may be merged, empty ones too if nulls are ignored. *)
Lemma accumulate_null_app k l1 l2 :
  ignore_nulls = true ∨ l1 ≠ [] ∧ l2 ≠ [] →
  agg_accumulate_block agg (agg_init agg k) (l1 ++ l2) =
  agg_merge agg (agg_accumulate_block agg (agg_init agg k) l1) (agg_accumulate_block agg (agg_init agg k) l2).
Proof using Hblock Hmerge.
  intros Hne. rewrite !accumulate_null. unfold policy. rewrite spoilt_app, omap_app.
  destruct (spoilt l1) eqn:Hs1.
  { cbn. assert (ignore_nulls = false) as -> by (unfold spoilt in Hs1; by destruct ignore_nulls). done. }
  destruct (spoilt l2) eqn:Hs2.
  { assert (ignore_nulls = false) as Hi by (unfold spoilt in Hs2; by destruct ignore_nulls). rewrite Hi in *.
    cbn. destruct (omap on l1); [done|]. done. }
  cbn [orb]. destruct (omap on l1) as [|v1 vs1] eqn:H1, (omap on l2) as [|v2 vs2] eqn:H2.
  - destruct ignore_nulls eqn:Hi; [done|]. done.
  - destruct ignore_nulls eqn:Hi; [done|]. destruct Hne as [|[Hn1 _]]; [done|]. by destruct (values_of l1 Hn1 Hs1 Hi).
  - rewrite app_nil_r. destruct ignore_nulls eqn:Hi; [done|]. destruct Hne as [|[_ Hn2]]; [done|]. by destruct (values_of l2 Hn2 Hs2 Hi).
  - cbn. by rewrite Hmerge.
Qed.

Lemma null_aggregate_laws : AggregateLaws agg.
Proof using Hblock Hmerge. split. intros k l1 l2 H1 H2. apply accumulate_null_app. by right. Qed.

Lemma null_aggregate_policy k l :
  agg_finalize agg (agg_accumulate_block agg (agg_init agg k) l) = finalize <$> policy f l.
Proof using Hblock. rewrite accumulate_null. destruct (policy f l); [done|]. by destruct ignore_nulls. Qed.
End null_aggregate.
End policy.

(** ** Numbers *)

Lemma Qcltb_lt a b : Qcltb a b = true ↔ (a < b)%Qc.
Proof. unfold Qcltb. rewrite Qclt_alt. by destruct (a ?= b)%Qc. Qed.

Lemma Qcltb_ge a b : Qcltb a b = false ↔ (b ≤ a)%Qc.
Proof.
  destruct (Qcltb a b) eqn:H; split; try done.
  - apply Qcltb_lt in H. intros Hle. by apply Qclt_not_le in H.
  - intros _. apply Qcnot_lt_le. intros Hlt%Qcltb_lt. congruence.
Qed.

Lemma float_lt_trans a b c : float_lt a b = true → float_lt b c = true → float_lt a c = true.
Proof. destruct a, b, c; cbn; try done. rewrite !Qcltb_lt. apply Qclt_trans. Qed.

Lemma float_lt_asym a b : float_lt a b = true → float_lt b a = false.
Proof. destruct a, b; cbn; try done. rewrite Qcltb_lt, Qcltb_ge. apply Qclt_le_weak. Qed.

Lemma float_lt_eq a b : float_lt a b = false → float_lt b a = false → a = b.
Proof. destruct a, b; cbn; try done. rewrite !Qcltb_ge. intros. f_equal. by apply Qcle_antisym. Qed.

Lemma float_ge_trans a b c : float_lt a b = false → float_lt b c = false → float_lt a c = false.
Proof.
  intros Hab Hbc. destruct (float_lt a c) eqn:Hac; [|done]. destruct (float_lt b a) eqn:Hba.
  - by rewrite (float_lt_trans _ _ _ Hba Hac) in Hbc.
  - rewrite (float_lt_eq a b Hab Hba) in Hac. congruence.
Qed.

Lemma py_min_assoc a b c : py_min a (py_min b c) = py_min (py_min a b) c.
Proof.
  unfold py_min. destruct (float_lt c b) eqn:Hcb, (float_lt b a) eqn:Hba; rewrite ?Hcb, ?Hba; try done.
  - by rewrite (float_lt_trans _ _ _ Hcb Hba).
  - by rewrite (float_ge_trans _ _ _ Hcb Hba).
Qed.

Lemma py_max_assoc a b c : py_max a (py_max b c) = py_max (py_max a b) c.
Proof.
  unfold py_max. destruct (float_lt b c) eqn:Hbc, (float_lt a b) eqn:Hab; rewrite ?Hbc, ?Hab; try done.
  - by rewrite (float_lt_trans _ _ _ Hab Hbc).
  - by rewrite (float_ge_trans _ _ _ Hab Hbc).
Qed.

Lemma Qcmax_fin a b : Fin (Qcmax a b) = py_max (Fin a) (Fin b).
Proof. unfold Qcmax, py_max. cbn. by destruct (Qcltb a b). Qed.

Lemma Qcmax_assoc a b c : Qcmax a (Qcmax b c) = Qcmax (Qcmax a b) c.
Proof.
  assert (Fin (Qcmax a (Qcmax b c)) = Fin (Qcmax (Qcmax a b) c)) as [=]; [|done].
  rewrite !Qcmax_fin. apply py_max_assoc.
Qed.

Lemma qnum_add a b : qnum (a + b) = (qnum a + qnum b)%Qc.
Proof. apply Qc_is_canon. cbn. rewrite !Qred_correct. unfold Qeq. cbn. lia. Qed.

Lemma qnum_pos z : 0 < z → qnum z ≠ qnum 0.
Proof. intros Hz Heq. apply (f_equal this) in Heq. apply Qred_eq_iff in Heq. unfold Qeq in Heq. cbn in Heq. lia. Qed.

(** Folding an associative operation. *)
Lemma fold_monoid {A V} (op : A → A → A) (inj : V → A) (e : A) vs a :
  (∀ a b c, op a (op b c) = op (op a b) c) → (∀ v, op e (inj v) = inj v) → (∀ a, op a e = a) →
  fold_left (λ a v, op a (inj v)) vs a = op a (fold_left (λ a v, op a (inj v)) vs e).
Proof.
  intros Hassoc Hl Hr. revert a. induction vs as [|v vs IH]; intros a; cbn; [by rewrite Hr|].
  rewrite IH, (IH (op e (inj v))), Hl. symmetry. apply Hassoc.
Qed.

Lemma fold_monoid_app {A V} (op : A → A → A) (inj : V → A) (e : A) vs1 vs2 :
  (∀ a b c, op a (op b c) = op (op a b) c) → (∀ v, op e (inj v) = inj v) → (∀ a, op a e = a) →
  op (fold_left (λ a v, op a (inj v)) vs1 e) (fold_left (λ a v, op a (inj v)) vs2 e) =
  fold_left (λ a v, op a (inj v)) (vs1 ++ vs2) e.
Proof. intros. rewrite fold_left_app. symmetry. by apply fold_monoid. Qed.

(** ** The aggregations of values *)

Definition qsum (vs : list Qc) : Qc := fold_left Qcplus vs (qnum 0).
Definition lowest (vs : list Qc) : float := fold_left (λ a v, py_min a (Fin v)) vs PosInf.
Definition highest (vs : list Qc) : float := fold_left (λ a v, py_max a (Fin v)) vs NegInf.
Definition average (vs : list Qc) : Qc := (qsum vs / qnum (len vs))%Qc.
Definition squares (m : Qc) (vs : list Qc) : Qc := fold_left (λ a v, a + (v - m) * (v - m))%Qc vs (qnum 0).
Definition moments (vs : list Qc) : Moments := (squares (average vs) vs, average vs, len vs).

Lemma num0_l a : (qnum 0 + a)%Qc = a.
Proof. apply Qcplus_0_l. Qed.
Lemma num0_r a : (a + qnum 0)%Qc = a.
Proof. apply Qcplus_0_r. Qed.

Lemma qsum_app vs1 vs2 : (qsum vs1 + qsum vs2)%Qc = qsum (vs1 ++ vs2).
Proof. apply (fold_monoid_app Qcplus id); [apply Qcplus_assoc|apply num0_l|apply num0_r]. Qed.

Lemma squares_app m vs1 vs2 : (squares m vs1 + squares m vs2)%Qc = squares m (vs1 ++ vs2).
Proof. apply (fold_monoid_app Qcplus (λ v, (v - m) * (v - m))%Qc); [apply Qcplus_assoc|intros; apply num0_l|apply num0_r]. Qed.

Lemma lowest_app vs1 vs2 : py_min (lowest vs1) (lowest vs2) = lowest (vs1 ++ vs2).
Proof. apply (fold_monoid_app py_min Fin); [apply py_min_assoc|done|by intros []]. Qed.

Lemma highest_app vs1 vs2 : py_max (highest vs1) (highest vs2) = highest (vs1 ++ vs2).
Proof. apply (fold_monoid_app py_max Fin); [apply py_max_assoc|done|by intros []]. Qed.

(** The squares about a mean from those about another number. *)
Lemma squares_shift m c vs :
  squares m vs = (squares c vs + (c - m) * (qnum 2 * (qsum vs - qnum (len vs) * c) + qnum (len vs) * (c - m)))%Qc.
Proof.
  induction vs as [|v vs IH].
  { unfold squares, qsum. cbn. change (qnum (len [])) with (qnum 0). change (qnum 0) with 0%Qc. ring. }
  pose proof (squares_app m [v] vs) as H1. pose proof (squares_app c [v] vs) as H2. pose proof (qsum_app [v] vs) as H3.
  cbn [app] in H1, H2, H3. rewrite <- H1, <- H2, <- H3, IH, len_cons, qnum_add. unfold squares, qsum. cbn [fold_left].
  change (qnum 0) with 0%Qc. change (qnum 1) with 1%Qc. change (qnum 2) with (1 + 1)%Qc. ring.
Qed.

Lemma average_qsum vs : vs ≠ [] → (average vs * qnum (len vs))%Qc = qsum vs.
Proof.
  intros Hne. unfold average. field. apply qnum_pos. destruct vs; [done|]. rewrite len_cons. pose proof (len_nonneg vs). lia.
Qed.

(** The squares about any number, from those about the average. *)
Lemma squares_average m vs :
  vs ≠ [] →
  squares m vs = (squares (average vs) vs + qnum (len vs) * ((average vs - m) * (average vs - m)))%Qc.
Proof.
  intros Hne. rewrite (squares_shift m (average vs)). rewrite <- (average_qsum vs Hne).
  ring.
Qed.

(** The merge of Welford's method. *)
Lemma moments_app vs1 vs2 : vs1 ≠ [] → vs2 ≠ [] → std_merge (moments vs1) (moments vs2) = moments (vs1 ++ vs2).
Proof.
  intros H1 H2. unfold std_merge, moments.
  assert (∀ vs : list Qc, vs ≠ [] → 0 < len vs) as Hpos.
  { intros vs Hvs. destruct vs; [done|]. rewrite len_cons. pose proof (len_nonneg vs). lia. }
  pose proof (Hpos vs1 H1). pose proof (Hpos vs2 H2).
  assert (average (vs1 ++ vs2) = (average vs1 * qnum (len vs1) + average vs2 * qnum (len vs2)) / qnum (len vs1 + len vs2))%Qc as Hm.
  { rewrite !average_qsum, qsum_app by done. unfold average. by rewrite len_app. }
  rewrite <- Hm, len_app. do 2 f_equal.
  rewrite <- squares_app, (squares_average (average (vs1 ++ vs2)) vs1),
    (squares_average (average (vs1 ++ vs2)) vs2) by done. rewrite Hm, qnum_add.
  pose proof (qnum_pos (len vs1 + len vs2) ltac:(lia)) as Hne. rewrite qnum_add in Hne.
  change (qnum 0) with 0%Qc in Hne. field. exact Hne.
Qed.

(** ** The aggregations of [aggregate.py] *)

Section aggregations.
Context {Row : Type} (on : Row → option Qc) (ignore_nulls : bool).

Lemma block_count_eq l : block_count on l = match l with [] => None | _ => Some (len (omap on l)) end.
Proof.
  unfold block_count. destruct l as [|r l]; [done|].
  rewrite len_cons, (proj2 (Z.eqb_neq _ _)) by (pose proof (len_nonneg l); lia). f_equal.
  assert (∀ l' c, fold_left (λ count r, match on r with Some _ => count + 1 | None => count end) l' c = c + len (omap on l')) as Hgen.
  { induction l' as [|r' l' IH]; intros c; cbn; [change (len []) with 0; lia|]. rewrite IH. destruct (on r'); [rewrite len_cons|]; lia. }
  apply Hgen.
Qed.

Lemma block_sum_policy l : block_sum on ignore_nulls l = policy on ignore_nulls qsum l.
Proof. apply apply_accum_policy. Qed.

Lemma vectorized_mean_policy l :
  vectorized_mean on ignore_nulls l = policy on ignore_nulls (λ vs, (qsum vs, len vs)) l.
Proof.
  unfold vectorized_mean. rewrite block_count_eq, block_sum_policy. unfold policy.
  destruct l as [|r l]; [by destruct (spoilt _ _ [])|]. destruct (omap on (r :: l)) as [|v vs]; [by destruct (spoilt _ _ _)|].
  rewrite (proj2 (Z.eqb_neq _ _)) by (rewrite len_cons; pose proof (len_nonneg vs); lia). by destruct (spoilt _ _ _).
Qed.

Lemma vectorized_std_policy l : vectorized_std on ignore_nulls l = policy on ignore_nulls moments l.
Proof.
  unfold vectorized_std, sum_of_squared_diffs_from_mean. rewrite block_count_eq, block_sum_policy.
  destruct l as [|r l]; [unfold policy; by destruct (spoilt _ _ [])|].
  unfold policy. destruct (omap on (r :: l)) as [|v vs] eqn:Hvs; [by destruct (spoilt _ _ _)|].
  rewrite (proj2 (Z.eqb_neq _ _)) by (rewrite len_cons; pose proof (len_nonneg vs); lia).
  destruct (spoilt on ignore_nulls (r :: l)) eqn:Hs; [done|]. rewrite apply_accum_policy. unfold policy. by rewrite Hs, Hvs.
Qed.

#[export] Instance Sum_laws : AggregateLaws (Sum on ignore_nulls).
Proof. apply (null_aggregate_laws on ignore_nulls _ _ _ _ qsum); [apply block_sum_policy|intros; apply qsum_app]. Qed.

#[export] Instance Min_laws : AggregateLaws (Min on ignore_nulls).
Proof. apply (null_aggregate_laws on ignore_nulls _ _ _ _ lowest); [apply apply_accum_policy|intros; apply lowest_app]. Qed.

#[export] Instance Max_laws : AggregateLaws (Max on ignore_nulls).
Proof. apply (null_aggregate_laws on ignore_nulls _ _ _ _ highest); [apply apply_accum_policy|intros; apply highest_app]. Qed.

Definition mean_parts (vs : list Qc) : Qc * Z := (qsum vs, len vs).

Lemma mean_parts_app vs1 vs2 :
  (((mean_parts vs1).1 + (mean_parts vs2).1)%Qc, (mean_parts vs1).2 + (mean_parts vs2).2) = mean_parts (vs1 ++ vs2).
Proof. unfold mean_parts. cbn. by rewrite qsum_app, len_app. Qed.

#[export] Instance Mean_laws : AggregateLaws (Mean on ignore_nulls).
Proof. apply (null_aggregate_laws on ignore_nulls _ _ _ _ mean_parts); [apply vectorized_mean_policy|intros; apply mean_parts_app]. Qed.

#[export] Instance Std_laws sqrt ddof : AggregateLaws (Std on ignore_nulls sqrt ddof).
Proof. apply (null_aggregate_laws on ignore_nulls _ _ _ _ moments); [apply vectorized_std_policy|apply moments_app]. Qed.

(** The largest absolute value, row by row. *)
Definition abs_highest (vs : list Qc) : Qc := fold_left (λ a v, Qcmax a (Qcabs v)) vs (qnum 0).

Lemma Qcabs_nonneg q : (qnum 0 ≤ Qcabs q)%Qc.
Proof.
  unfold Qcabs. destruct (Qcltb q (qnum 0)) eqn:Hq; [|by apply Qcltb_ge in Hq].
  apply Qcltb_lt, Qclt_le_weak in Hq. apply Qcopp_le_compat in Hq. exact Hq.
Qed.

Lemma Qcmax_0_l q : (qnum 0 ≤ q)%Qc → Qcmax (qnum 0) q = q.
Proof.
  unfold Qcmax. intros Hq. destruct (Qcltb (qnum 0) q) eqn:Hlt; [done|]. apply Qcltb_ge in Hlt. by apply Qcle_antisym.
Qed.

Lemma Qcmax_0_r q : (qnum 0 ≤ q)%Qc → Qcmax q (qnum 0) = q.
Proof. unfold Qcmax. intros Hq%Qcltb_ge. by rewrite Hq. Qed.

Lemma Qcmax_nonneg a b : (qnum 0 ≤ a)%Qc → (qnum 0 ≤ b)%Qc → (qnum 0 ≤ Qcmax a b)%Qc.
Proof. unfold Qcmax. by destruct (Qcltb a b). Qed.

Lemma abs_highest_app vs1 vs2 : Qcmax (abs_highest vs1) (abs_highest vs2) = abs_highest (vs1 ++ vs2).
Proof.
  assert (∀ vs a, (qnum 0 ≤ a)%Qc → fold_left (λ a v, Qcmax a (Qcabs v)) vs a = Qcmax a (abs_highest vs) ∧
    (qnum 0 ≤ fold_left (λ a v, Qcmax a (Qcabs v)) vs a)%Qc) as Hfold.
  { unfold abs_highest. induction vs as [|v vs IH]; intros a Ha; cbn; [by rewrite Qcmax_0_r|].
    destruct (IH (Qcmax a (Qcabs v))) as [-> Hpos]; [by apply Qcmax_nonneg, Qcabs_nonneg|].
    destruct (IH (Qcabs v) (Qcabs_nonneg v)) as [Hv _]. rewrite Qcmax_0_l by apply Qcabs_nonneg. rewrite Hv, Qcmax_assoc.
    split; [done|]. destruct (IH (Qcmax a (Qcabs v))) as [Heq Hpos']; [by apply Qcmax_nonneg, Qcabs_nonneg|]. by rewrite <- Heq. }
  unfold abs_highest at 3. rewrite fold_left_app. symmetry. apply Hfold. by apply (Hfold vs1 (qnum 0)).
Qed.

Lemma accumulate_rows_null f a has_data l :
  fold_left (_null_wrap_accumulate_row ignore_nulls on f) l (Some (a, has_data)) =
    if spoilt on ignore_nulls l then None
    else Some (fold_left f (omap on l) a : Qc, has_data || negb (bool_decide (omap on l = []))).
Proof.
  assert (∀ l, fold_left (_null_wrap_accumulate_row ignore_nulls on f) l None = None) as Hnone.
  { induction l0 as [|r l0 IH]; [done|]. cbn. unfold _null_wrap_accumulate_row at 2. by destruct (on r), ignore_nulls. }
  revert a has_data. induction l as [|r l IH]; intros a has_data.
  { unfold spoilt. cbn. by rewrite andb_false_r, orb_false_r. }
  rewrite spoilt_cons. cbn [fold_left omap list_omap]. unfold _null_wrap_accumulate_row at 2. destruct (on r) as [v|].
  - rewrite IH. cbn. by rewrite andb_false_r, orb_true_r.
  - destruct ignore_nulls eqn:Hi; cbn; [apply IH|apply Hnone].
Qed.

Lemma AbsMax_accumulate k l :
  agg_accumulate_block (AbsMax on ignore_nulls) (agg_init (AbsMax on ignore_nulls) k) l =
    if spoilt on ignore_nulls l then None else Some (abs_highest (omap on l), negb (bool_decide (omap on l = []))).
Proof. apply (accumulate_rows_null _ (qnum 0) false). Qed.

#[export] Instance AbsMax_laws : AggregateLaws (AbsMax on ignore_nulls).
Proof.
  split. intros k l1 l2 H1 H2. rewrite !AbsMax_accumulate, spoilt_app, omap_app.
  destruct (spoilt on ignore_nulls l1) eqn:Hs1.
  { cbn. assert (ignore_nulls = false) as -> by (unfold spoilt in Hs1; by destruct ignore_nulls). done. }
  destruct (spoilt on ignore_nulls l2) eqn:Hs2.
  { assert (ignore_nulls = false) as Hi by (unfold spoilt in Hs2; by destruct ignore_nulls).
    cbn. rewrite (bool_decide_eq_false_2 (omap on l1 = [])) by (by apply (values_of on ignore_nulls)). by rewrite Hi. }
  cbn [orb]. destruct (omap on l1) as [|v1 vs1], (omap on l2) as [|v2 vs2]; [done|done|by rewrite app_nil_r|].
  cbn -[abs_highest]. by rewrite abs_highest_app.
Qed.
End aggregations.
