(* ===== verification/DataGroup.v ===== *)
(** * Grouping and aggregating

    [GroupedDataset.aggregate] of [data/grouped_dataset.py] on the blocks of [simple_block.py]:
    cut each block by key as a sort does, combine the rows of each group into accumulators,
    exchange the pieces by a shuffle, and merge the accumulators of each key.

    Without a key the whole dataset is one group.  A row of a combined block is a tuple of the
    key, if there is one, and the accumulators. *)
From S2P Require Import Prelude PyLists DataShuffle DataSort DataAggregate.
From stdpp Require Import base tactics list strings.

#[local] Open Scope Z_scope.

(** ** [heapq.merge] *)

Section heapq.
Context {A : Type} (key : A → Z).

(** The smallest head, the first of equals, and the lists without it. *)
Fixpoint pop_smallest (lists : list (list A)) : option (A * list (list A)) :=
  match lists with
  | [] => None
  | [] :: lists => prod_map id (cons []) <$> pop_smallest lists
  | (x :: l) :: lists =>
      match pop_smallest lists with
      | Some (y, lists') => if key x <=? key y then Some (x, l :: lists) else Some (y, (x :: l) :: lists')
      | None => Some (x, l :: lists)
      end
  end.

Fixpoint merge_heads (n : nat) (lists : list (list A)) : list A :=
  match n with
  | O => []
  | S n =>
      match pop_smallest lists with
      | Some (x, lists) => x :: merge_heads n lists
      | None => []
      end
  end.

(** [heapq.merge]: as many turns as there are items. *)
Definition heapq_merge (lists : list (list A)) : list A := merge_heads (length (concat lists)) lists.
End heapq.

Section group.
Context {Row Acc U : Type}.
Context (key : option (Row → Z)) (aggs : list (AggregateFn Row Acc U)).

Definition combined_row : Type := option Z * list Acc.

(** ** [combine] *)

(** The loop of [iter_groups]: the group from [start] has the key [next_key] and goes on at least
    to [end_]. *)
Fixpoint groups_from (key : Row → Z) (items : list Row) (start end_ next_key : Z) (rows : list Row) :
    list (option Z * list Row) :=
  match rows with
  | [] => [(Some next_key, py_slice start (Some end_) items)]
  | next_row :: rows =>
      if key next_row =? next_key then groups_from key items start (end_ + 1) next_key rows
      else (Some next_key, py_slice start (Some end_) items)
             :: groups_from key items end_ (end_ + 1) (key next_row) rows
  end.

(** [iter_groups] *)
Definition iter_groups (items : list Row) : list (option Z * list Row) :=
  match key with
  | None => [(None, items)]
  | Some key =>
      match items with
      | [] => []
      | next_row :: rows => groups_from key items 0 1 (key next_row) rows
      end
  end.

(** [combine] *)
Definition combine_rows (items : list Row) : list combined_row :=
  (λ p : option Z * list Row,
     (p.1, (λ agg, agg_accumulate_block agg (agg_init agg p.1) p.2) <$> aggs)) <$> iter_groups items.

(** ** [aggregate_combined_blocks] *)

Definition key_fn (r : combined_row) : Z :=
  match key with Some _ => default 0 r.1 | None => 0 end.

Definition merge_row (accumulators : list Acc) (r : combined_row) : list Acc :=
  zip_with (λ agg p, agg_merge agg p.1 p.2) aggs (zip accumulators r.2).

(** The loop: the accumulators of the key [next_key] so far, and what it appends to [ret]. *)
Fixpoint aggregate_from {B} (emit : option Z → list Acc → B) (next_key : option Z) (accumulators : list Acc)
    (rows : list combined_row) : list B :=
  match rows with
  | [] => [emit next_key accumulators]
  | r :: rows =>
      if key_fn r =? default 0 next_key then aggregate_from emit next_key (merge_row accumulators r) rows
      else emit next_key accumulators :: aggregate_from emit r.1 (take (length aggs) r.2) rows
  end.

Definition aggregate_rows {B} (emit : option Z → list Acc → B) (rows : list combined_row) : list B :=
  match rows with
  | [] => []
  | r :: rows => aggregate_from emit r.1 (take (length aggs) r.2) rows
  end.

Definition finalize_row (k : option Z) (accumulators : list Acc) : option Z * list U :=
  (k, zip_with agg_finalize aggs accumulators).

(** [aggregate_combined_blocks] with [finalize=True], and with [finalize=False]. *)
Definition aggregate_combined_blocks (blocks : list (list combined_row)) : list (option Z * list U) :=
  aggregate_rows finalize_row (heapq_merge key_fn blocks).
Definition aggregate_partially (blocks : list (list combined_row)) : list combined_row :=
  aggregate_rows pair (heapq_merge key_fn blocks).

(** ** The shuffle *)

(** The partitions of a block that [_GroupbyOp.map] combines. *)
Definition group_partitions (boundaries : list (option Z)) (block : list Row) : result (list (list Row)) :=
  match key with
  | None => Ok [block]
  | Some key => sort_and_partition key boundaries false block
  end.

(** [_GroupbyOp.map]; a block that cannot be cut fails the aggregation before this is used. *)
Definition group_map (boundaries : list (option Z)) (idx : Z) (block : list Row) (output_num_blocks : Z) :
    list (list combined_row) * Z :=
  (combine_rows <$>
     match group_partitions boundaries block with
     | Ok partitions => partitions
     | Err _ => replicate (Z.to_nat output_num_blocks) []
     end, len block).

(** [_GroupbyOp.reduce], with [partial_reduce=True] and without. *)
Definition group_reduce_partial (mapper_outputs : list (list combined_row)) : list combined_row * Z :=
  let block := aggregate_partially mapper_outputs in (block, len block).
Definition group_reduce (mapper_outputs : list (list combined_row)) : list (option Z * list U) * Z :=
  let block := aggregate_combined_blocks mapper_outputs in (block, len block).

(** [GroupedDataset.aggregate]: [do_agg]; [push_based] as for a sort. *)
Definition do_agg (random_sample : list Row → Z → list Row) (quantiles : list Z → Z → list Z)
    (blocks : list (list Row)) (push_based : option (dict string Z * bool)) :
    result (list (list (option Z * list U))) :=
  match aggs, blocks with
  | [], _ => Err ValueError
  | _, [] => Ok []
  | _, _ =>
      '(num_reducers, boundaries) ←
        match key with
        | None => Ok (1, [])
        | Some key =>
            boundaries ← sample_boundaries key random_sample quantiles blocks (len blocks);
            Ok (len blocks, boundaries)
        end;
      _ ← mapM (group_partitions boundaries) blocks;
      match push_based with
      | None => simple_execute (group_map boundaries) group_reduce blocks num_reducers
      | Some (cpus, pipeline) =>
          r ← execute (group_map boundaries) group_reduce_partial group_reduce (λ bs, sumZ (len <$> bs))
                cpus 2 pipeline blocks num_reducers;
          Ok r.1
      end
  end.
End group.
Arguments combined_row : clear implicits.

(** ** [map_groups] *)

Section map_groups.
(** [is_none]: the row is the value [None], which a row of a list block can be. *)
Context {Row B : Type} (is_none : Row → bool) (key : Row → Z) (fn : list Row → list B).

(** The loop of [get_boundaries].  [pre] is [None] before the first row; [pre is not None]
    is also false of a row that is [None]. *)
Fixpoint boundaries_from (i : Z) (pre : option Row) (rows : list Row) : list Z :=
  match rows with
  | [] => []
  | item :: rows =>
      match pre with
      | Some pre => if negb (is_none pre) && negb (key pre =? key item) then [i] else []
      | None => []
      end ++ boundaries_from (i + 1) (Some item) rows
  end.

(** [get_boundaries] *)
Definition get_boundaries (block : list Row) : list Z :=
  boundaries_from 0 None block ++ (if 0 <? len block then [len block] else []).

(** The loop of [group_fn]. *)
Fixpoint apply_groups (batch : list Row) (start : Z) (boundaries : list Z) : list B :=
  match boundaries with
  | [] => []
  | end_ :: boundaries => fn (py_slice start (Some end_) batch) ++ apply_groups batch end_ boundaries
  end.

(** [group_fn] *)
Definition group_fn (batch : list Row) : list B := apply_groups batch 0 (get_boundaries batch).

(** [map_groups] of a dataset grouped by a key. *)
Definition map_groups (random_sample : list Row → Z → list Row) (quantiles : list Z → Z → list Z)
    (blocks : list (list Row)) (push_based : option (dict string Z * bool)) : result (list (list B)) :=
  sorted_blocks ← sort_impl key random_sample quantiles blocks false push_based;
  Ok (group_fn <$> (sorted_blocks : list (list Row))).
End map_groups.
