(* ===== verification/DataGroupProofs.v ===== *)
(** * Grouping and aggregating, proved

    The rows of each key are adjacent in a sorted block; merging combined blocks merges the
    accumulators of each key in the order of the blocks.  For aggregations that may be
    accumulated in parts the result is, for every key in ascending order, the aggregation of all
    rows of the dataset with that key. *)
From S2P Require Import Prelude PyLists DataShuffle DataShuffleProofs DataSort DataSortProofs DataAggregate DataAggregateProofs DataGroup.
From stdpp Require Import base tactics list strings sorting.
From Stdlib Require Import QArith Qcanon.

#[local] Open Scope Z_scope.

(** ** Distinct keys *)

Section keys.
Context {A : Type} (key : A → Z).

(** The keys in ascending order, and the items of a key. *)
Definition keys (l : list A) : list Z := merge_sort Z.le (remove_dups (key <$> l)).
Definition group (k : Z) (l : list A) : list A := filter (λ x, key x = k) l.

Lemma elem_of_keys k l : k ∈ keys l ↔ ∃ x, x ∈ l ∧ key x = k.
Proof.
  unfold keys. rewrite merge_sort_Permutation, elem_of_remove_dups, list_elem_of_fmap. naive_solver.
Qed.

Lemma keys_sorted l : StronglySorted Z.lt (keys l).
Proof.
  unfold keys. pose proof (StronglySorted_merge_sort Z.le (remove_dups (key <$> l))) as Hs.
  pose proof (NoDup_remove_dups (key <$> l)) as Hnd. rewrite <- (merge_sort_Permutation Z.le) in Hnd.
  revert Hs Hnd. generalize (merge_sort Z.le (remove_dups (key <$> l))). intros s Hs.
  induction Hs as [|x s Hs IH Hx]; [constructor|]. intros [Hnin Hnd]%NoDup_cons. constructor; [by apply IH|].
  rewrite Forall_forall in Hx. apply Forall_forall. intros y Hy. specialize (Hx y Hy).
  assert (x ≠ y) by (by intros ->). lia.
Qed.

(** A strictly sorted list is known by its elements. *)
Lemma sorted_keys_eq (l1 l2 : list Z) :
  StronglySorted Z.lt l1 → StronglySorted Z.lt l2 → (∀ k, k ∈ l1 ↔ k ∈ l2) → l1 = l2.
Proof.
  intros H1 H2 Heq.
  assert (∀ l, StronglySorted Z.lt l → NoDup l) as Hnd.
  { induction 1 as [|x l Hl IH Hx]; constructor; [|done]. intros Hin. rewrite Forall_forall in Hx. specialize (Hx x Hin). lia. }
  apply (StronglySorted_unique_strong Z.lt); [intros; lia|done|done|]. apply NoDup_Permutation; auto.
Qed.

Lemma keys_eq l ks : StronglySorted Z.lt ks → (∀ k, k ∈ ks ↔ ∃ x, x ∈ l ∧ key x = k) → keys l = ks.
Proof. intros Hs Hk. apply sorted_keys_eq; [apply keys_sorted|done|]. intros k. by rewrite elem_of_keys, Hk. Qed.

Lemma keys_perm l1 l2 : l1 ≡ₚ l2 → keys l1 = keys l2.
Proof.
  intros Hp. apply keys_eq; [apply keys_sorted|]. intros k. rewrite elem_of_keys. setoid_rewrite Hp. done.
Qed.

(** Items of the smallest key, before the others. *)
Lemma keys_first k cur rows :
  cur ≠ [] → Forall (λ x, key x = k) cur → Forall (λ x, k < key x) rows →
  keys (cur ++ rows) = k :: keys rows.
Proof.
  intros Hne Hcur Hrows. rewrite Forall_forall in Hcur, Hrows. apply keys_eq.
  - constructor; [apply keys_sorted|]. apply Forall_forall. intros k' (x & Hx & <-)%elem_of_keys. by apply Hrows.
  - intros k'. rewrite elem_of_cons, elem_of_keys. split.
    + intros [->|(x & Hx & <-)]; [|exists x; rewrite elem_of_app; tauto].
      destruct cur as [|x cur]; [done|]. exists x. split; [by left|]. apply Hcur. by left.
    + intros (x & [Hx|Hx]%elem_of_app & <-); [left; by apply Hcur|right; by exists x].
Qed.

(** Keys on the two sides of a bound. *)
Lemma keys_split b l : keys (filter (λ x, key x < b) l) ++ keys (filter (λ x, b ≤ key x) l) = keys l.
Proof.
  symmetry. apply keys_eq.
  - apply StronglySorted_app_2; [|apply keys_sorted..].
    intros k1 k2 (x & [Hx _]%list_elem_of_filter & <-)%elem_of_keys (y & [Hy _]%list_elem_of_filter & <-)%elem_of_keys. lia.
  - intros k. rewrite elem_of_app, !elem_of_keys. setoid_rewrite list_elem_of_filter. split; [naive_solver|].
    intros (x & Hx & <-). destruct (decide (key x < b)); [left; naive_solver|right]. exists x. split; [|done]. split; [lia|done].
Qed.

Lemma group_filter (P : A → Prop) `{!∀ x, Decision (P x)} k l :
  (∀ x, key x = k → P x) → group k (filter P l) = group k l.
Proof.
  intros HP. unfold group. rewrite list_filter_filter. apply list_filter_iff. naive_solver.
Qed.

Lemma sort_group k l : group k (stable_sort (before key) l) = group k l.
Proof.
  unfold group. rewrite filter_sort. assert (∀ s : list A, Forall (λ x, key x = k) s → stable_sort (before key) s = s) as Hsame.
  { induction 1 as [|x s Hx Hs IH]; [done|]. change (stable_sort (before key) (x :: s)) with (sort_insert (before key) x (stable_sort (before key) s)).
    rewrite IH. destruct Hs as [|y s Hy Hs]; [done|]. cbn. unfold before. by rewrite (proj2 (Z.leb_le _ _)) by lia. }
  apply Hsame, Forall_forall. by intros x [Hx _]%list_elem_of_filter.
Qed.

Lemma group_concat k (ls : list (list A)) : group k (concat ls) = concat (group k <$> ls).
Proof. unfold group. induction ls as [|l ls IH]; [done|]. cbn. by rewrite filter_app, IH. Qed.

(** ** Runs of equal keys *)

Fixpoint runs (k : Z) (cur rows : list A) : list (Z * list A) :=
  match rows with
  | [] => [(k, cur)]
  | r :: rows => if key r =? k then runs k (cur ++ [r]) rows else (k, cur) :: runs (key r) [r] rows
  end.

Lemma runs_eq k cur rows :
  cur ≠ [] → Forall (λ x, key x = k) cur → Forall (λ x, k ≤ key x) rows →
  StronglySorted (λ x y, before key x y = true) rows →
  runs k cur rows = (λ k, (k, group k (cur ++ rows))) <$> keys (cur ++ rows).
Proof.
  revert k cur. induction rows as [|r rows IH]; intros k cur Hne Hcur Hge Hs; cbn [runs].
  { rewrite (keys_first k cur []) by done. change (keys []) with (@nil Z). unfold group.
    rewrite app_nil_r, fmap_cons, filter_all by done. done. }
  apply Forall_cons in Hge as [Hr Hge]. apply StronglySorted_inv in Hs as [Hs Hrs].
  assert (Forall (λ x, key r ≤ key x) rows) as Hr'.
  { eapply Forall_impl; [exact Hrs|]. intros x Hx. by apply Z.leb_le. }
  destruct (Z.eqb_spec (key r) k) as [Hk|Hk].
  - rewrite IH; [by rewrite <- app_assoc|by destruct cur|apply Forall_app; split; [done|by repeat constructor]|done|done].
  - rewrite (keys_first k cur (r :: rows)); [|done|done|].
    + rewrite IH; [|done|by repeat constructor|done|done]. rewrite fmap_cons. cbn [app]. f_equal.
      * f_equal. unfold group. rewrite filter_app, filter_all by done. rewrite filter_none, app_nil_r; [done|].
        constructor; [done|]. eapply Forall_impl; [exact Hr'|]. cbn. lia.
      * apply list_fmap_ext. intros i k' Hk'%list_elem_of_lookup_2. apply elem_of_keys in Hk' as (x & Hx & <-).
        f_equal. unfold group. rewrite filter_app, (filter_none _ cur); [done|].
        eapply Forall_impl; [exact Hcur|]. cbn. intros y ->. apply elem_of_cons in Hx as [->|Hx]; [done|].
        rewrite Forall_forall in Hr'. specialize (Hr' x Hx). lia.
    + constructor; [lia|]. eapply Forall_impl; [exact Hr'|]. cbn. lia.
Qed.

(** ** Merging sorted lists *)

Lemma sorted_sort l : StronglySorted (λ x y, before key x y = true) l → stable_sort (before key) l = l.
Proof.
  induction 1 as [|x l Hl IH Hx]; [done|].
  change (stable_sort (before key) (x :: l)) with (sort_insert (before key) x (stable_sort (before key) l)). rewrite IH.
  destruct Hx as [|y l Hy Hx]; [done|]. cbn. by rewrite Hy.
Qed.

(** The first of the smallest comes first. *)
Lemma sort_smallest x p q :
  Forall (λ y, key x < key y) p → Forall (λ y, key x ≤ key y) q →
  stable_sort (before key) (p ++ x :: q) = x :: stable_sort (before key) (p ++ q).
Proof.
  intros Hp Hq. induction Hp as [|y p Hy Hp IH]; cbn [app].
  - change (stable_sort (before key) (x :: q)) with (sort_insert (before key) x (stable_sort (before key) q)).
    assert (Forall (λ y, key x ≤ key y) (stable_sort (before key) q)) as Hq' by (by rewrite stable_sort_perm).
    destruct Hq' as [|z s Hz Hs]; [done|]. cbn. unfold before. by rewrite (proj2 (Z.leb_le _ _)).
  - change (stable_sort (before key) (y :: p ++ x :: q)) with (sort_insert (before key) y (stable_sort (before key) (p ++ x :: q))).
    rewrite IH. cbn. unfold before at 1. by rewrite (proj2 (Z.leb_gt _ _)).
Qed.

Lemma pop_smallest_eq lists :
  Forall (StronglySorted (λ x y, before key x y = true)) lists →
  match pop_smallest key lists with
  | None => concat lists = []
  | Some (x, lists') =>
      Forall (StronglySorted (λ x y, before key x y = true)) lists' ∧
      ∃ p q, concat lists = p ++ x :: q ∧ concat lists' = p ++ q ∧
        Forall (λ y, key x < key y) p ∧ Forall (λ y, key x ≤ key y) q
  end.
Proof.
  induction 1 as [|l lists Hl Hls IH]; [done|]. destruct Hl as [|x l Hl Hx]; cbn [pop_smallest].
  { destruct (pop_smallest key lists) as [[y lists']|]; cbn; [|done]. destruct IH as (Hs & p & q & ?).
    split; [constructor; [constructor|done]|]. by exists p, q. }
  assert (Forall (λ y, key x ≤ key y) l) as Hx' by (eapply Forall_impl; [exact Hx|]; intros y Hy; by apply Z.leb_le).
  destruct (pop_smallest key lists) as [[y lists']|].
  - destruct IH as (Hs & p & q & Hc & Hc' & Hp & Hq). destruct (Z.leb_spec (key x) (key y)).
    + split; [by constructor|]. exists [], (l ++ concat lists). split_and!; [done|done|constructor|].
      apply Forall_app. split; [done|]. rewrite Hc. apply Forall_app. split; [|constructor; [lia|]].
      * eapply Forall_impl; [exact Hp|]. cbn. lia.
      * eapply Forall_impl; [exact Hq|]. cbn. lia.
    + split; [constructor; [by constructor|done]|]. exists ((x :: l) ++ p), q. cbn [concat]. rewrite Hc, Hc'.
      split_and!; [by rewrite <- app_assoc|by rewrite <- app_assoc| |done].
      apply Forall_app. split; [|done]. constructor; [lia|]. eapply Forall_impl; [exact Hx'|]. cbn. lia.
  - split; [by constructor|]. exists [], l. cbn [concat]. rewrite IH, !app_nil_r. by split_and!; [..|constructor|].
Qed.

Lemma heapq_merge_eq lists :
  Forall (StronglySorted (λ x y, before key x y = true)) lists →
  heapq_merge key lists = stable_sort (before key) (concat lists).
Proof.
  unfold heapq_merge. remember (length (concat lists)) as n eqn:Hn. revert lists Hn.
  induction n as [|n IH]; intros lists Hn Hls; cbn [merge_heads].
  { by destruct (concat lists). }
  pose proof (pop_smallest_eq lists Hls) as Hpop. destruct (pop_smallest key lists) as [[x lists']|].
  - destruct Hpop as (Hls' & p & q & Hc & Hc' & Hp & Hq). rewrite Hc, sort_smallest, <- Hc' by done. f_equal.
    apply IH; [|done]. rewrite Hc' , length_app. rewrite Hc, length_app in Hn. cbn in Hn. lia.
  - by rewrite Hpop in Hn.
Qed.
End keys.

Section group.
Context {Row Acc U : Type} (key : Row → Z) (aggs : list (AggregateFn Row Acc U)).

(** The accumulators of some rows. *)
Definition accs (k : option Z) (rows : list Row) : list Acc :=
  (λ agg, agg_accumulate_block agg (agg_init agg k) rows) <$> aggs.

(** The groups of a list of rows, combined. *)
Definition grouped (l : list Row) : list (combined_row Acc) :=
  (λ k, (Some k, accs (Some k) (group key k l))) <$> keys key l.

(** ** Combining *)

Lemma groups_from_eq items pre cur rows k :
  items = pre ++ cur ++ rows →
  groups_from key items (len pre) (len pre + len cur) k rows = (λ p, (Some p.1, p.2)) <$> runs key k cur rows.
Proof.
  revert pre cur k. induction rows as [|r rows IH]; intros pre cur k ->; cbn [groups_from runs].
  - by rewrite py_slice_mid.
  - destruct (key r =? k).
    + rewrite <- (IH pre (cur ++ [r]) k) by (by rewrite <- app_assoc). f_equal. rewrite len_app. unfold len. cbn. lia.
    + rewrite fmap_cons, py_slice_mid. cbn [fst snd]. f_equal.
      rewrite <- (IH (pre ++ cur) [r] (key r)) by (by rewrite <- app_assoc). rewrite len_app. done.
Qed.

Lemma combine_sorted s :
  StronglySorted (λ x y, before key x y = true) s → combine_rows (Some key) aggs s = grouped s.
Proof.
  unfold combine_rows, iter_groups, grouped. intros Hs. destruct Hs as [|r rows Hs Hr]; [done|].
  pose proof (groups_from_eq (r :: rows) [] [r] rows (key r) eq_refl) as Hg. change (len [] + len [r]) with 1 in Hg.
  change (len []) with 0 in Hg. rewrite Hg, runs_eq; [|done|by repeat constructor| |done].
  - by rewrite <- !list_fmap_compose.
  - eapply Forall_impl; [exact Hr|]. intros x Hx. by apply Z.leb_le.
Qed.

Lemma grouped_sort l : grouped (stable_sort (before key) l) = grouped l.
Proof.
  unfold grouped. rewrite (keys_perm key _ l) by apply stable_sort_perm. apply list_fmap_ext. intros i k _.
  by rewrite sort_group.
Qed.

Lemma combine_sort l : combine_rows (Some key) aggs (stable_sort (before key) l) = grouped l.
Proof. rewrite combine_sorted by apply before_sorted. apply grouped_sort. Qed.

(** ** Merging combined blocks *)

Context (Hlaws : Forall AggregateLaws aggs).
#[local] Abbreviation row_key := (key_fn (Some key) (Acc := Acc)).

(** The accumulators of rows of the same key. *)
Definition merge_all (rows : list (combined_row Acc)) : list Acc :=
  match rows with
  | [] => []
  | r :: rows => fold_left (merge_row aggs) rows (take (length aggs) r.2)
  end.

Lemma merge_all_snoc cur r : cur ≠ [] → merge_all (cur ++ [r]) = merge_row aggs (merge_all cur) r.
Proof. destruct cur as [|c cur]; [done|]. intros _. cbn. by rewrite fold_left_app. Qed.

Lemma aggregate_from_eq {B} (emit : option Z → list Acc → B) k cur rows :
  cur ≠ [] → Forall (λ r, is_Some r.1) rows →
  aggregate_from (Some key) aggs emit (Some k) (merge_all cur) rows =
    (λ p, emit (Some p.1) (merge_all p.2)) <$> runs row_key k cur rows.
Proof.
  intros Hne Hsome. revert k cur Hne. induction Hsome as [|[rk a] rows [k' Hk'] Hsome IH]; intros k cur Hne; [done|].
  cbn [aggregate_from runs]. cbn in Hk'. subst rk. change (row_key (Some k', a)) with k'. change (default 0 (Some k)) with k.
  destruct (k' =? k).
  - rewrite <- IH by (by destruct cur). by rewrite merge_all_snoc.
  - rewrite fmap_cons. f_equal. by rewrite <- IH.
Qed.

Lemma aggregate_sorted {B} (emit : option Z → list Acc → B) rows :
  StronglySorted (λ x y, before row_key x y = true) rows → Forall (λ r, is_Some r.1) rows →
  aggregate_rows (Some key) aggs emit rows =
    (λ k, emit (Some k) (merge_all (group row_key k rows))) <$> keys row_key rows.
Proof.
  intros Hs Hsome. unfold aggregate_rows. destruct Hs as [|r rows Hs Hr]; [done|].
  apply Forall_cons in Hsome as [[k Hk] Hsome]. destruct r as [rk a]. cbn in Hk. subst rk.
  change (take (length aggs) (Some k, a).2) with (merge_all [(Some k, a)]). cbn [fst].
  rewrite aggregate_from_eq by done. rewrite runs_eq; [|done|by repeat constructor| |done].
  - by rewrite <- list_fmap_compose.
  - eapply Forall_impl; [exact Hr|]. intros x Hx. by apply Z.leb_le in Hx.
Qed.

Lemma accs_take k l : take (length aggs) (accs k l) = accs k l.
Proof. apply take_ge. unfold accs. by rewrite length_fmap. Qed.

Lemma merge_row_accs k l1 l2 :
  l1 ≠ [] → l2 ≠ [] → merge_row aggs (accs k l1) (k, accs k l2) = accs k (l1 ++ l2).
Proof using Hlaws.
  intros H1 H2. unfold merge_row, accs. cbn [snd]. revert Hlaws. induction 1 as [|agg aggs' Hagg _ IH]; [done|].
  cbn. f_equal; [|exact IH]. symmetry. by apply accumulate_app.
Qed.

Lemma merge_all_accs k (gs : list (list Row)) :
  gs ≠ [] → Forall (λ g, g ≠ []) gs → merge_all ((λ g, (Some k, accs (Some k) g)) <$> gs) = accs (Some k) (concat gs).
Proof using Hlaws.
  intros Hne Hgs. induction gs as [|g gs IH] using rev_ind; [done|]. apply Forall_app in Hgs as [Hgs [Hg _]%Forall_cons].
  destruct (decide (gs = [])) as [->|Hne'].
  { cbn. by rewrite accs_take, app_nil_r. }
  rewrite fmap_app. change ((λ g, (Some k, accs (Some k) g)) <$> [g]) with [(Some k, accs (Some k) g)].
  rewrite merge_all_snoc by (by intros ?%fmap_nil_inv). rewrite IH by done. rewrite merge_row_accs; [|destruct gs as [|g' gs']; [done|]|done].
  - by rewrite concat_app; cbn; rewrite app_nil_r.
  - apply Forall_cons in Hgs as [Hg' _]. cbn. by destruct g'.
Qed.

(** One row for each key. *)
Lemma group_of_keys {B} (f : Z → B) (bkey : B → Z) k ks :
  (∀ k, bkey (f k) = k) → StronglySorted Z.lt ks →
  group bkey k (f <$> ks) = if decide (k ∈ ks) then [f k] else [].
Proof.
  intros Hf. induction 1 as [|k' ks Hks IH Hk']; [done|]. rewrite fmap_cons. unfold group in *. rewrite filter_cons, IH, Hf.
  rewrite Forall_forall in Hk'. destruct (decide (k' = k)) as [->|Hne].
  - rewrite decide_False; [|intros Hin; specialize (Hk' k Hin); lia]. by rewrite decide_True by left.
  - destruct (decide (k ∈ ks)); [by rewrite decide_True by (by right)|].
    rewrite decide_False; [done|]. intros [->|]%elem_of_cons; done.
Qed.

Lemma group_nonempty k l : group key k l ≠ [] ↔ k ∈ keys key l.
Proof.
  rewrite elem_of_keys. unfold group. split.
  - destruct (filter _ l) as [|x g] eqn:Hg; [done|]. intros _. exists x. assert (x ∈ x :: g) as Hx by (by left).
    rewrite <- Hg in Hx. apply list_elem_of_filter in Hx. tauto.
  - intros (x & Hx & Hk) Hnil. apply (not_elem_of_nil x). rewrite <- Hnil. by apply list_elem_of_filter.
Qed.

(** The combined rows of key [k] of several lists. *)
Lemma group_grouped k (ls : list (list Row)) :
  group row_key k (concat (grouped <$> ls)) =
    (λ g, (Some k, accs (Some k) g)) <$> filter (λ g, g ≠ []) (group key k <$> ls).
Proof.
  rewrite group_concat. induction ls as [|l ls IH]; [done|]. rewrite !fmap_cons. cbn [concat].
  rewrite filter_cons, IH. unfold grouped at 1. rewrite group_of_keys by (done || apply keys_sorted).
  destruct (decide (group key k l ≠ [])) as [Hg|Hg].
  - by rewrite decide_True by (by apply group_nonempty).
  - by rewrite decide_False by (by intros ?%group_nonempty).
Qed.

Lemma grouped_sorted l : StronglySorted (λ x y, before row_key x y = true) (grouped l).
Proof.
  unfold grouped. apply (StronglySorted_fmap _ Z.lt); [|apply keys_sorted]. intros k1 k2 Hk. apply Z.leb_le. cbn. lia.
Qed.

Lemma keys_grouped (ls : list (list Row)) : keys row_key (concat (grouped <$> ls)) = keys key (concat ls).
Proof.
  apply keys_eq; [apply keys_sorted|]. intros k. rewrite elem_of_keys. setoid_rewrite list_elem_of_concat. split.
  - intros (x & (l & Hx & Hl) & Hk). exists (Some k, accs (Some k) (group key k l)). split; [|done].
    exists (grouped l). split; [|by apply list_elem_of_fmap_2]. apply list_elem_of_fmap. exists k. split; [done|].
    apply elem_of_keys. by exists x.
  - intros (r & (g & Hr & (l & -> & Hl)%list_elem_of_fmap) & <-). apply list_elem_of_fmap in Hr as (k & -> & Hk).
    apply elem_of_keys in Hk as (x & Hx & <-). exists x. split; [|done]. by exists l.
Qed.

Lemma concat_nonempty (ls : list (list Row)) : concat (filter (λ g, g ≠ []) ls) = concat ls.
Proof. induction ls as [|l ls IH]; [done|]. rewrite filter_cons. destruct l; cbn; by rewrite <- IH. Qed.

Lemma aggregate_grouped {B} (emit : option Z → list Acc → B) (ls : list (list Row)) :
  aggregate_rows (Some key) aggs emit (heapq_merge row_key (grouped <$> ls)) =
    (λ k, emit (Some k) (accs (Some k) (group key k (concat ls)))) <$> keys key (concat ls).
Proof using Hlaws.
  rewrite heapq_merge_eq by (apply Forall_fmap, Forall_forall; intros; apply grouped_sorted).
  rewrite aggregate_sorted.
  - rewrite (keys_perm row_key _ (concat (grouped <$> ls))) by apply stable_sort_perm. rewrite keys_grouped.
    apply list_fmap_ext. intros i k Hk%list_elem_of_lookup_2. f_equal. rewrite sort_group, group_grouped.
    rewrite merge_all_accs.
    + by rewrite concat_nonempty, <- group_concat.
    + apply group_nonempty in Hk. rewrite group_concat, <- concat_nonempty in Hk. intros Hnil. by rewrite Hnil in Hk.
    + apply Forall_forall. by intros g [Hg _]%list_elem_of_filter.
  - apply before_sorted.
  - rewrite stable_sort_perm. apply Forall_forall. intros r (g & Hr & (l & -> & _)%list_elem_of_fmap)%list_elem_of_concat.
    by apply list_elem_of_fmap in Hr as (k & -> & _).
Qed.
End group.

(** ** The shuffle *)

(** What an aggregation by key is: for every key, in ascending order, the aggregations of all rows
    with that key. *)
Definition aggregate_by_key {Row Acc U} (key : Row → Z) (aggs : list (AggregateFn Row Acc U)) (l : list Row) :
    list (option Z * list U) :=
  (λ k, (Some k, (λ agg, agg_finalize agg (agg_accumulate_block agg (agg_init agg (Some k)) (group key k l))) <$> aggs))
    <$> keys key l.

Section shuffle.
Context {Row Acc U : Type} (key : Row → Z) (aggs : list (AggregateFn Row Acc U)).
Context (Hlaws : Forall AggregateLaws aggs).

Lemma finalize_accs k l :
  finalize_row aggs (Some k) (accs aggs (Some k) l) =
  (Some k, (λ agg, agg_finalize agg (agg_accumulate_block agg (agg_init agg (Some k)) l)) <$> aggs).
Proof using. unfold finalize_row, accs. f_equal. clear. induction aggs as [|agg aggs' IH]; [done|]. cbn. by rewrite IH. Qed.

Lemma reduce_grouped ls :
  (group_reduce (Some key) aggs (grouped key aggs <$> ls)).1 = aggregate_by_key key aggs (concat ls).
Proof using Hlaws.
  unfold group_reduce, aggregate_combined_blocks. cbn [fst]. rewrite aggregate_grouped by done.
  apply list_fmap_ext. intros i k _. apply finalize_accs.
Qed.

Lemma reduce_partial_grouped ls :
  (group_reduce_partial (Some key) aggs (grouped key aggs <$> ls)).1 = grouped key aggs (concat ls).
Proof using Hlaws. unfold group_reduce_partial, aggregate_partially. cbn [fst]. by rewrite aggregate_grouped. Qed.

Lemma sorted_drop n (l : list Row) :
  StronglySorted (λ x y, before key x y = true) l → StronglySorted (λ x y, before key x y = true) (drop n l).
Proof. intros Hl. rewrite <- (take_drop n l) in Hl. by apply StronglySorted_app_1_r in Hl. Qed.

Lemma sorted_take n (l : list Row) :
  StronglySorted (λ x y, before key x y = true) l → StronglySorted (λ x y, before key x y = true) (take n l).
Proof. intros Hl. rewrite <- (take_drop n l) in Hl. by apply StronglySorted_app_1_l in Hl. Qed.

(** Whatever a block is cut at, the pieces are sorted. *)
Lemma partitions_sorted bs l ps :
  sort_and_partition key bs false l = Ok ps → Forall (StronglySorted (λ x y, before key x y = true)) ps.
Proof.
  unfold sort_and_partition. rewrite sorted_items_eq. change (okey key false) with key.
  pose proof (before_sorted key l) as Hs. revert Hs. generalize (stable_sort (before key) l). intros s Hs.
  destruct bs as [|b bs]; [intros [= <-]; by repeat constructor|].
  destruct (boundary_indices _ _ _ _ _) as [ixs|]; [|done]. cbn [mbind result_bind].
  unfold py_assert. destruct (_ =? _); [|done]. cbn [mbind result_bind]. intros [= <-].
  generalize 0. induction ixs as [|i ixs IH]; intros j; cbn [slices]; constructor; try done.
  all: by apply sorted_take, sorted_drop.
Qed.

Lemma mapped_grouped bs b : mapped (group_map (Some key) aggs bs) b → ∃ l, b = grouped key aggs l.
Proof.
  intros (i & inp & n & j & Hb). unfold group_map in Hb. cbn [fst] in Hb. rewrite list_lookup_fmap in Hb.
  apply fmap_Some in Hb as (p & Hp & ->). exists p. unfold group_partitions in Hp.
  apply combine_sorted. destruct (sort_and_partition key bs false inp) as [ps|] eqn:Hps.
  - apply partitions_sorted in Hps. rewrite Forall_lookup in Hps. by apply Hps in Hp.
  - apply lookup_replicate in Hp as [-> _]. constructor.
Qed.

Lemma all_grouped bs c : Forall (mapped (group_map (Some key) aggs bs)) c → ∃ ls, c = grouped key aggs <$> ls.
Proof.
  induction 1 as [|b c Hb Hc [ls ->]]; [by exists []|]. destruct (mapped_grouped _ _ Hb) as [l ->]. by exists (l :: ls).
Qed.

Lemma group_reduce_assoc bs :
  reduce_assoc (group_map (Some key) aggs bs) (group_reduce_partial (Some key) aggs) (group_reduce (Some key) aggs).
Proof using Hlaws.
  intros cs _ Hcs. assert (∃ lss : list (list (list Row)), cs = (λ ls : list (list Row), (grouped key aggs <$> ls : list (list (combined_row Acc)))) <$> lss) as [lss ->].
  { clear Hlaws. induction cs as [|c cs IH]; [by exists []|]. cbn in Hcs. apply Forall_app in Hcs as [Hc Hcs].
    destruct (all_grouped _ _ Hc) as [ls ->]. destruct (IH Hcs) as [lss ->]. by exists (ls :: lss). }
  transitivity (aggregate_by_key key aggs (concat (concat lss))).
  - rewrite <- list_fmap_compose. transitivity ((group_reduce (Some key) aggs (grouped key aggs <$> ((λ c, concat c) <$> lss))).1).
    { do 2 f_equal. rewrite <- list_fmap_compose. apply list_fmap_ext. intros i ls _. apply reduce_partial_grouped. }
    rewrite reduce_grouped. f_equal. clear. induction lss as [|ls lss IH]; [done|]. cbn. by rewrite IH, concat_app.
  - rewrite <- reduce_grouped. do 2 f_equal. clear. induction lss as [|ls lss IH]; [done|]. cbn. by rewrite fmap_app, IH.
Qed.

Lemma group_map_len bs out i b :
  length bs = Z.to_nat (out - 1) → 0 < out → len (group_map (Some key) aggs bs i b out).1 = out.
Proof.
  intros Hbs Hout. cbn [group_map fst]. rewrite len_fmap. unfold len. cbn [group_partitions].
  destruct (sort_and_partition _ _ _ _) as [ps|] eqn:Hp.
  - rewrite (sort_and_partition_len _ _ _ _ _ Hp). lia.
  - rewrite length_replicate. lia.
Qed.

Lemma cut_sort cs l : cut key cs (stable_sort (before key) l) = stable_sort (before key) <$> cut key cs l.
Proof.
  revert l. induction cs as [|c cs IH]; intros l; [done|]. cbn [cut]. by rewrite !filter_sort, IH, fmap_cons.
Qed.

(** The groups of the ranges are the groups of the whole. *)
Lemma aggregate_cut cs l : concat (aggregate_by_key key aggs <$> cut key cs l) = aggregate_by_key key aggs l.
Proof.
  revert l. induction cs as [|c cs IH]; intros l; [cbn; by rewrite app_nil_r|].
  cbn [cut fmap list_fmap concat]. rewrite IH. unfold aggregate_by_key.
  rewrite <- (keys_split key c l), fmap_app. f_equal.
  all: apply list_fmap_ext; intros i k Hk%list_elem_of_lookup_2;
    apply elem_of_keys in Hk as (x & [Hx _]%list_elem_of_filter & <-); f_equal; rewrite group_filter; [done|]; intros y ->; done.
Qed.

(** With blocks cut by [cs], the outputs are the aggregated ranges. *)
Lemma simple_group_eq bs cs blocks out :
  length bs = Z.to_nat (out - 1) → length cs = length bs → 0 < out →
  (∀ b, b ∈ blocks → sort_and_partition key bs false b = Ok (cut key cs (stable_sort (before key) b))) →
  simple_execute (group_map (Some key) aggs bs) (group_reduce (Some key) aggs) blocks out =
    Ok (aggregate_by_key key aggs <$> cut key cs (concat blocks)).
Proof using Hlaws.
  intros Hbs Hcs Hout Hcut. pose (stage := mkStage 0 0 [] (mkSchedule out 0 0 0)).
  etransitivity; [apply (simple_eq _ _ stage); [intros; by apply group_map_len|done]|]. f_equal.
  change (output_num_blocks (merge_schedule stage)) with out.
  assert (∀ i bl, (∀ b, b ∈ bl → b ∈ blocks) →
    map_outs (group_map (Some key) aggs bs) stage i bl = (λ ls, grouped key aggs <$> ls) <$> (cut key cs <$> bl)) as Hmap.
  { intros i bl. revert i. induction bl as [|b bl IH]; intros i Hbl; [done|].
    cbn [map_outs]. rewrite !fmap_cons, IH by (intros; apply Hbl; by right). f_equal.
    unfold group_map. cbn [fst group_partitions]. rewrite Hcut by (apply Hbl; by left).
    rewrite cut_sort, <- list_fmap_compose. apply list_fmap_ext. intros j p _. apply combine_sort. }
  rewrite Hmap by done. apply list_eq. intros j. rewrite !list_lookup_fmap.
  destruct (decide (Z.of_nat j < out)).
  - rewrite lookup_seqZ_lt by lia. cbn [fmap option_fmap option_map].
    rewrite <- (Nat2Z.id j) at 2. rewrite column_cut by lia. cbn [fmap option_fmap option_map]. f_equal.
    rewrite <- reduce_grouped. do 2 f_equal. unfold column. rewrite Z.add_0_l. clear. induction blocks as [|b blocks IH]; [done|].
    rewrite !fmap_cons. cbn [omap list_omap]. rewrite list_lookup_fmap.
    destruct (cut key cs b !! Z.to_nat (Z.of_nat j)); cbn [fmap option_fmap option_map]; [rewrite fmap_cons; by f_equal|done].
  - rewrite lookup_seqZ_ge by lia. rewrite lookup_ge_None_2; [done|]. rewrite cut_length. lia.
Qed.
End shuffle.

(** ** The aggregation *)

(** C20: Grouping by key is right. For any dataset of lists, any samples of the size
    asked for and ordered quantiles of them, any non-empty list of aggregations that
    may be accumulated in parts, by the simple shuffle, or by the push-based shuffle
    if its schedule for that number of blocks is a good one ([schedulable]): the
    aggregation returns as many blocks as the dataset has, and in order they hold one
    row for each key of the dataset, in ascending order, with each aggregation of all
    rows with that key, in the order of the dataset. *)
Theorem groupby_correct {Row Acc U} (key : Row → Z) (aggs : list (AggregateFn Row Acc U)) random_sample quantiles
    (blocks : list (list Row)) push_based :
  aggs ≠ [] → Forall AggregateLaws aggs →
  sample_sized random_sample → quantiles_ordered quantiles → schedulable (len blocks) push_based →
  ∃ outs, do_agg (Some key) aggs random_sample quantiles blocks push_based = Ok outs ∧
    len outs = len blocks ∧ concat outs = aggregate_by_key key aggs (concat blocks).
Proof.
  intros Haggs Hlaws Hsample Hquant Hsched. destruct (decide (blocks = [])) as [->|Hne].
  { exists []. by destruct aggs. }
  destruct (boundaries_eq key false random_sample quantiles Hsample Hquant blocks Hne) as (bs & cs & Hbs & Hlb & Hlc & Hcut).
  change (okey key false) with key in Hcut.
  assert (0 < len blocks) as Hlen by (destruct blocks; [done|rewrite len_cons; pose proof (len_nonneg blocks); lia]).
  pose proof (simple_group_eq key aggs Hlaws bs cs blocks (len blocks) Hlb ltac:(lia) Hlen Hcut) as Hsimple.
  exists (aggregate_by_key key aggs <$> cut key cs (concat blocks)). split_and!.
  - unfold do_agg. destruct aggs as [|agg aggs']; [done|]. destruct blocks as [|b blocks]; [done|]. set (blks := b :: blocks) in *.
    rewrite Hbs. cbn [mbind result_bind]. change (group_partitions (Some key) bs) with (sort_and_partition key bs false).
    rewrite (mapM_total _ _ _ Hcut). cbn [mbind result_bind].
    destruct push_based as [[cpus pipeline]|]; [|exact Hsimple]. destruct Hsched as (Hcpu & Hpos & Hsched).
    destruct (compute_stage_ok cpus (len blks) 2 (len blks)) as (stage & Hst & Hok); [done..|lia|lia|lia|].
    destruct (execute_is_simple (group_map (Some key) (agg :: aggs') bs) (group_reduce_partial (Some key) (agg :: aggs'))
                (group_reduce (Some key) (agg :: aggs')) (λ bs, sumZ (len <$> bs)) cpus 2 pipeline blks (len blks) stage)
      as (res & stats & Hex & Hres); [done|done|lia| | |done| |by apply Hsched|].
    + intros. by apply group_map_len.
    + by apply group_reduce_assoc.
    + destruct Hok as [_ _ _ _ _ [-> |Hm] _ _]; lia.
    + rewrite Hex. cbn [mbind result_bind fst]. rewrite Hsimple in Hres. by injection Hres as <-.
  - rewrite len_fmap. unfold len at 1. rewrite cut_length. lia.
  - apply aggregate_cut.
Qed.

(** ** Mapping groups *)

Section map_groups.
Context {Row B : Type} (is_none : Row → bool) (key : Row → Z) (fn : list Row → list B).

Lemma apply_groups_eq batch pre cur rows x k :
  batch = pre ++ cur ++ rows → key x = k → is_none x = false → Forall (λ r, is_none r = false) rows →
  apply_groups fn batch (len pre) (boundaries_from is_none key (len pre + len cur) (Some x) rows ++ [len batch]) =
    concat ((λ p, fn p.2) <$> runs key k cur rows).
Proof.
  revert pre cur x k. induction rows as [|r rows IH]; intros pre cur x k -> Hx Hn Hnone; cbn [boundaries_from runs].
  - pose proof (py_slice_mid pre cur []) as Hslice. rewrite app_nil_r in *. rewrite len_app in *. cbn. by rewrite Hslice.
  - apply Forall_cons in Hnone as [Hnr Hnone].
    rewrite Hx, Hn, (Z.eqb_sym k). destruct (Z.eqb_spec (key r) k) as [Hr|Hr]; cbn [app negb andb].
    + rewrite <- (IH pre (cur ++ [r]) r k) by (done || by rewrite <- app_assoc).
      do 3 f_equal. rewrite len_app. unfold len. cbn. lia.
    + rewrite fmap_cons. cbn [apply_groups concat snd]. rewrite py_slice_mid. f_equal.
      rewrite <- (IH (pre ++ cur) [r] r (key r)) by (done || by rewrite <- app_assoc). by rewrite (len_app pre cur).
Qed.

Lemma group_fn_sorted s :
  StronglySorted (λ x y, before key x y = true) s → Forall (λ r, is_none r = false) s →
  group_fn is_none key fn s = concat ((λ k, fn (group key k s)) <$> keys key s).
Proof.
  intros Hs Hnone. unfold group_fn, get_boundaries. destruct Hs as [|r rows Hs Hr]; [done|].
  apply Forall_cons in Hnone as [Hnr Hnone].
  rewrite (proj2 (Z.ltb_lt 0 (len (r :: rows)))) by (rewrite len_cons; pose proof (len_nonneg rows); lia). cbn [boundaries_from app].
  pose proof (apply_groups_eq (r :: rows) [] [r] rows r (key r) eq_refl eq_refl Hnr Hnone) as Hg.
  change (len [] + len [r]) with (0 + 1) in Hg. change (len []) with 0 in Hg. rewrite Hg, runs_eq; [|done|by repeat constructor| |done].
  - by rewrite <- list_fmap_compose.
  - eapply Forall_impl; [exact Hr|]. intros x Hx. by apply Z.leb_le.
Qed.

Definition mapped_groups (l : list Row) : list B := concat ((λ k, fn (group key k l)) <$> keys key l).

Lemma group_fn_sort l :
  Forall (λ r, is_none r = false) l → group_fn is_none key fn (stable_sort (before key) l) = mapped_groups l.
Proof.
  intros Hnone. rewrite group_fn_sorted by (apply before_sorted || by rewrite stable_sort_perm). unfold mapped_groups. rewrite (keys_perm key _ l) by apply stable_sort_perm.
  f_equal. apply list_fmap_ext. intros i k _. by rewrite sort_group.
Qed.

Lemma mapped_groups_cut cs l : concat (mapped_groups <$> cut key cs l) = mapped_groups l.
Proof.
  revert l. induction cs as [|c cs IH]; intros l; [cbn; by rewrite app_nil_r|].
  cbn [cut fmap list_fmap concat]. rewrite IH. unfold mapped_groups.
  rewrite <- (keys_split key c l), fmap_app, concat_app. f_equal; f_equal.
  all: apply list_fmap_ext; intros i k Hk%list_elem_of_lookup_2;
    apply elem_of_keys in Hk as (x & [Hx _]%list_elem_of_filter & <-); f_equal; rewrite group_filter; [done|]; intros y ->; done.
Qed.

Lemma mapped_groups_sort (ls : list (list Row)) :
  mapped_groups (concat (stable_sort (before key) <$> ls)) = mapped_groups (concat ls).
Proof.
  unfold mapped_groups. rewrite (keys_perm key (concat (stable_sort (before key) <$> ls)) (concat ls)).
  - f_equal. apply list_fmap_ext. intros i k _. f_equal. rewrite !group_concat, <- list_fmap_compose. f_equal.
    apply list_fmap_ext. intros j l _. apply sort_group.
  - induction ls as [|l ls IH]; [done|]. cbn. by rewrite stable_sort_perm, IH.
Qed.
End map_groups.

Lemma cut_sub {Row} (key : Row → Z) cs (l piece : list Row) r : piece ∈ cut key cs l → r ∈ piece → r ∈ l.
Proof.
  revert l. induction cs as [|c cs IH]; intros l; cbn.
  - by intros ->%list_elem_of_singleton.
  - intros [->|Hin]%elem_of_cons Hr; [by apply list_elem_of_filter in Hr as [_ ?]|].
    by apply (IH _ Hin), list_elem_of_filter in Hr as [_ ?].
Qed.

(** C22: Mapping groups gives each group whole. For any dataset of lists none of whose
    rows is [None], any samples of the size asked for and ordered quantiles of them,
    by the simple shuffle, or by the push-based shuffle if its schedule for that
    number of blocks is a good one ([schedulable]): [map_groups] returns as many
    blocks as the dataset has, and in order they hold what the function returns for
    each key, in ascending order, on the list of all rows of the dataset with that
    key, in the order of the dataset. *)
Theorem map_groups_correct {Row B} (is_none : Row → bool) (key : Row → Z) (fn : list Row → list B)
    random_sample quantiles (blocks : list (list Row)) push_based :
  sample_sized random_sample → quantiles_ordered quantiles → schedulable (len blocks) push_based →
  Forall (λ r, is_none r = false) (concat blocks) →
  ∃ outs, map_groups is_none key fn random_sample quantiles blocks push_based = Ok outs ∧
    len outs = len blocks ∧
    concat outs = concat ((λ k, fn (group key k (concat blocks))) <$> keys key (concat blocks)).
Proof.
  intros Hsample Hquant Hsched Hnone. destruct (decide (blocks = [])) as [->|Hne]; [by exists []|].
  destruct (sort_impl_eq key random_sample quantiles blocks false push_based) as (cs & Hcs & Hsort); [done..|].
  unfold map_groups. rewrite Hsort. change (okey key false) with key. cbn [mbind result_bind]. eexists. split; [reflexivity|]. split.
  - rewrite !len_fmap. unfold len at 1. rewrite cut_length.
    destruct blocks; [done|]. rewrite len_cons in *. pose proof (len_nonneg blocks). lia.
  - rewrite <- list_fmap_compose. rewrite (list_fmap_ext _ (mapped_groups key fn)).
    2: { intros i l Hl%list_elem_of_lookup_2. apply group_fn_sort. apply Forall_forall. intros r Hr.
         apply (cut_sub key _ _ _ _ Hl), list_elem_of_concat in Hr as (s & Hr & (b & -> & Hb)%list_elem_of_fmap).
         rewrite stable_sort_perm in Hr. rewrite Forall_forall in Hnone. apply Hnone, list_elem_of_concat.
         by exists b. }
    rewrite mapped_groups_cut. apply mapped_groups_sort.
Qed.

(** ** Aggregating the whole dataset *)

Section whole.
Context {Row Acc U : Type} (agg : AggregateFn Row Acc U).

Definition accumulated (l : list Row) : Acc := agg_accumulate_block agg (agg_init agg None) l.

Definition whole_row (l : list Row) : combined_row Acc := (None, [accumulated l]).

Lemma aggregate_whole {B} (emit : option Z → list Acc → B) a (bs : list (list Row)) :
  aggregate_from (None : option (Row → Z)) [agg] emit None [a] (whole_row <$> bs) =
    [emit None [fold_left (λ a b, agg_merge agg a (accumulated b)) bs a]].
Proof. revert a. induction bs as [|b bs IH]; intros a; [done|]. cbn. apply IH. Qed.

Lemma reduce_whole b bs :
  (group_reduce (None : option (Row → Z)) [agg] ((λ b, [whole_row b]) <$> (b :: bs))).1 =
    [(None, [agg_finalize agg (fold_left (λ a b, agg_merge agg a (accumulated b)) bs (accumulated b))])].
Proof.
  unfold group_reduce, aggregate_combined_blocks. cbn [fst]. rewrite heapq_merge_eq, sorted_sort.
  - assert (∀ l, concat ((λ b, [whole_row b]) <$> l) = whole_row <$> l) as ->.
    { induction l as [|b' l IH]; [done|]. cbn. by rewrite IH. }
    cbn. by rewrite aggregate_whole.
  - generalize (concat ((λ b, [whole_row b]) <$> (b :: bs))).
    intros l. induction l as [|x l IH]; constructor; [done|]. by apply Forall_forall.
  - apply Forall_fmap, Forall_forall. intros. by repeat constructor.
Qed.

Lemma do_agg_whole random_sample quantiles b bs :
  do_agg None [agg] random_sample quantiles (b :: bs) None =
    Ok [[(None, [agg_finalize agg (fold_left (λ a b, agg_merge agg a (accumulated b)) bs (accumulated b))])]].
Proof.
  unfold do_agg. cbn [mbind result_bind]. rewrite (mapM_total _ (λ b, [b])) by done. cbn [mbind result_bind].
  pose (stage := mkStage 0 0 [] (mkSchedule 1 0 0 0)).
  etransitivity; [apply (simple_eq _ _ stage); done|]. f_equal.
  change (seqZ 0 (output_num_blocks (merge_schedule stage))) with [0]. rewrite fmap_cons. cbn [fmap list_fmap]. f_equal.
  assert (∀ i bl, column 0 (map_outs (group_map (None : option (Row → Z)) [agg] []) stage i bl) = (λ b, [whole_row b]) <$> bl) as Hmap.
  { intros i bl. revert i. unfold column. induction bl as [|b' bl IH]; intros i; [done|]. cbn. by rewrite IH. }
  rewrite Hmap. apply reduce_whole.
Qed.
End whole.

Section whole_null.
Context {Row V A U : Type} (on : Row → option V) (ignore_nulls : bool).
Context (init : A) (merge : A → A → A) (accum_block : list Row → option A) (finalize : A → U) (f : list V → A).
Context (Hblock : ∀ l, accum_block l = policy on ignore_nulls f l).
Context (Hmerge : ∀ vs1 vs2, vs1 ≠ [] → vs2 ≠ [] → merge (f vs1) (f vs2) = f (vs1 ++ vs2)).
#[local] Abbreviation agg := (null_aggregate ignore_nulls init merge accum_block finalize).

Lemma fold_accumulated b bs :
  ignore_nulls = true ∨ Forall (λ b, b ≠ []) (b :: bs) →
  fold_left (λ a b, agg_merge agg a (accumulated agg b)) bs (accumulated agg b) = accumulated agg (concat (b :: bs)).
Proof using Hblock Hmerge.
  revert b. induction bs as [|b' bs IH]; intros b Hne; [cbn [concat]; by rewrite app_nil_r|].
  cbn [fold_left]. assert (agg_merge agg (accumulated agg b) (accumulated agg b') = accumulated agg (b ++ b')) as ->.
  { symmetry. apply (accumulate_null_app on ignore_nulls init merge accum_block finalize f Hblock Hmerge).
    destruct Hne as [|Hne]; [by left|right]. by apply Forall_cons in Hne as [Hb [Hb' _]%Forall_cons]. }
  rewrite IH; [cbn [concat]; by rewrite app_assoc|].
  destruct Hne as [|Hne]; [by left|right]. apply Forall_cons in Hne as [Hb [Hb' Hne]%Forall_cons]. constructor; [by destruct b|done].
Qed.

(** The whole dataset is aggregated by the policy. *)
Lemma whole_null random_sample quantiles blocks :
  blocks ≠ [] → ignore_nulls = true ∨ Forall (λ b, b ≠ []) blocks →
  do_agg None [agg] random_sample quantiles blocks None =
    Ok [[(None, [finalize <$> policy on ignore_nulls f (concat blocks)])]].
Proof using Hblock Hmerge.
  destruct blocks as [|b bs]; [done|]. intros _ Hne. rewrite do_agg_whole, fold_accumulated by done. unfold accumulated.
  by rewrite (null_aggregate_policy on ignore_nulls init merge accum_block finalize f Hblock).
Qed.

(** An empty block makes the result null. *)
Lemma whole_empty_block random_sample quantiles blocks :
  ignore_nulls = false → [] ∈ blocks →
  do_agg None [agg] random_sample quantiles blocks None = Ok [[(None, [None])]].
Proof using Hblock.
  intros Hi Hin. destruct blocks as [|b bs]; [by apply not_elem_of_nil in Hin|]. rewrite do_agg_whole. do 5 f_equal.
  assert (∀ l, accumulated agg l = None ∨ ∃ a, accumulated agg l = Some (a, true)) as Hacc.
  { intros l. unfold accumulated. rewrite (accumulate_null on ignore_nulls init merge accum_block finalize f Hblock), Hi.
    destruct (policy on false f l); eauto. }
  assert (accumulated agg [] = None) as Hnil.
  { unfold accumulated. rewrite (accumulate_null on ignore_nulls init merge accum_block finalize f Hblock), Hi. done. }
  assert (∀ bs x, (x = None ∨ ∃ a, x = Some (a, true)) → x = None ∨ [] ∈ bs →
    fold_left (λ a b, agg_merge agg a (accumulated agg b)) bs x = None) as Hfold.
  { clear b bs Hin. induction bs as [|b bs IH]; intros x Hx Hin; cbn [fold_left].
    - destruct Hin as [->|Hin]; [done|]. by apply not_elem_of_nil in Hin.
    - assert (∀ a, agg_merge agg None a = None) as HN by (intros; cbn; by rewrite Hi).
      destruct Hx as [->|[a ->]].
      { rewrite HN. apply IH; by left. }
      destruct (Hacc b) as [Hb|[a' Hb]]; rewrite Hb.
      + assert (agg_merge agg (Some (a, true)) None = None) as -> by (cbn; by rewrite Hi). apply IH; by left.
      + change (agg_merge agg (Some (a, true)) (Some (a', true))) with (Some (merge a a', true)).
        apply IH; [right; by eexists|]. destruct Hin as [|[Hnb|]%elem_of_cons]; [done| |by right]. subst b. congruence. }
  rewrite Hfold; [done|apply Hacc|]. apply elem_of_cons in Hin as [<-|Hin]; [by left|by right].
Qed.
End whole_null.

Lemma policy_fmap {Row V A B} (on : Row → option V) ignore_nulls (f : list V → A) (g : A → B) l :
  g <$> policy on ignore_nulls f l = policy on ignore_nulls (λ vs, g (f vs)) l.
Proof. unfold policy. destruct (spoilt _ _ _); [done|]. by destruct (omap on l). Qed.

(** C21: Aggregating a whole dataset by the simple shuffle follows the policy for
    nulls. For a dataset of at least one block, if nulls are ignored or no block is
    empty, and whatever blocks the rows are in: the sum, minimum, maximum, mean and
    standard deviation (in exact arithmetic) are those of all values of the dataset,
    and null if there is no value, or if there is a null and nulls are not ignored;
    the count is that of all rows. *)
Theorem whole_aggregates_follow_policy {Row} (on : Row → option Qc) ignore_nulls sqrt ddof random_sample quantiles
    (blocks : list (list Row)) :
  blocks ≠ [] → ignore_nulls = true ∨ Forall (λ b, b ≠ []) blocks →
  let rows := concat blocks in
  do_agg None [Sum on ignore_nulls] random_sample quantiles blocks None =
    Ok [[(None, [policy on ignore_nulls qsum rows])]] ∧
  do_agg None [Min on ignore_nulls] random_sample quantiles blocks None =
    Ok [[(None, [policy on ignore_nulls lowest rows])]] ∧
  do_agg None [Max on ignore_nulls] random_sample quantiles blocks None =
    Ok [[(None, [policy on ignore_nulls highest rows])]] ∧
  do_agg None [Mean on ignore_nulls] random_sample quantiles blocks None =
    Ok [[(None, [policy on ignore_nulls average rows])]] ∧
  do_agg None [Std on ignore_nulls sqrt ddof] random_sample quantiles blocks None =
    Ok [[(None, [policy on ignore_nulls (λ vs, std_finalize sqrt ddof (moments vs)) rows])]] ∧
  do_agg None [Count] random_sample quantiles blocks None = Ok [[(None, [len rows])]].
Proof.
  intros Hne Hempty. cbn zeta. split_and!.
  - unfold Sum. erewrite whole_null; [by rewrite option_fmap_id|apply block_sum_policy|intros; apply qsum_app|done|done].
  - unfold Min. erewrite whole_null; [by rewrite option_fmap_id|apply apply_accum_policy|intros; apply lowest_app|done|done].
  - unfold Max. erewrite whole_null; [by rewrite option_fmap_id|apply apply_accum_policy|intros; apply highest_app|done|done].
  - unfold Mean. rewrite (whole_null on ignore_nulls _ _ _ _ mean_parts);
      [by rewrite policy_fmap|apply vectorized_mean_policy|intros; apply mean_parts_app|done|done].
  - unfold Std. erewrite whole_null; [by rewrite policy_fmap|apply vectorized_std_policy|apply moments_app|done|done].
  - destruct blocks as [|b bs]; [done|]. rewrite do_agg_whole. do 5 f_equal. unfold accumulated. cbn [concat]. cbn.
    assert (∀ z, fold_left (λ a b, a + len b) bs z = z + len (concat bs)) as Hfold.
    { clear. induction bs as [|b' bs IH]; intros z; cbn; [change (len []) with 0; lia|]. rewrite IH, len_app. lia. }
    unfold id. rewrite len_app. apply Hfold.
Qed.

(** With nulls not ignored, an empty block makes the sum, minimum, maximum, mean and standard
    deviation of a whole dataset null, whether or not there is a null in it. *)
Theorem empty_block_hides_aggregates {Row} (on : Row → option Qc) sqrt ddof random_sample quantiles (blocks : list (list Row)) :
  [] ∈ blocks →
  do_agg None [Sum on false] random_sample quantiles blocks None = Ok [[(None, [None])]] ∧
  do_agg None [Min on false] random_sample quantiles blocks None = Ok [[(None, [None])]] ∧
  do_agg None [Max on false] random_sample quantiles blocks None = Ok [[(None, [None])]] ∧
  do_agg None [Mean on false] random_sample quantiles blocks None = Ok [[(None, [None])]] ∧
  do_agg None [Std on false sqrt ddof] random_sample quantiles blocks None = Ok [[(None, [None])]].
Proof.
  intros Hin. split_and!; eapply (whole_empty_block on false); try done.
  - apply block_sum_policy.
  - apply apply_accum_policy.
  - apply apply_accum_policy.
  - apply vectorized_mean_policy.
  - apply vectorized_std_policy.
Qed.

(** ** Examples *)

(** The numbers of some blocks by their remainder, counted. *)
Definition number_lists : list (list Z) := [[7; 3; 5; 1]; []; [4; 4; 9]; [10; 2]].
Definition nodes_2 : dict string Z := [("node1"%string, 4); ("node2"%string, 4)].

Lemma groupby_correct_witness :
  ∃ outs, do_agg (Some (λ x, x mod 3)) [Count] first_items ranks number_lists (Some (nodes_2, true)) = Ok outs ∧
    concat outs = [(Some 0, [2]); (Some 1, [5]); (Some 2, [2])].
Proof.
  destruct (groupby_correct (λ x, x mod 3) [Count] first_items ranks number_lists (Some (nodes_2, true))) as (outs & Hagg & _ & Hconcat).
  - discriminate.
  - constructor; [exact Count_laws|constructor].
  - exact first_items_sized.
  - exact ranks_ordered.
  - split; [done|]. split; [by repeat constructor|]. intros stage Hst. vm_compute in Hst. injection Hst as <-. vm_compute. congruence.
  - exists outs. split; [exact Hagg|]. rewrite Hconcat. vm_compute. reflexivity.
Defined.

(** The numbers with each remainder, sorted. *)
Lemma map_groups_correct_witness :
  ∃ outs, map_groups (λ _, false) (λ x, x mod 3) (λ g, [(len g, py_sorted Z.compare id g)]) first_items ranks number_lists None = Ok outs ∧
    concat outs = [(2, [3; 9]); (5, [1; 4; 4; 7; 10]); (2, [2; 5])].
Proof.
  destruct (map_groups_correct (λ _, false) (λ x, x mod 3) (λ g, [(len g, py_sorted Z.compare id g)]) first_items ranks number_lists None)
    as (outs & Hmap & _ & Hconcat).
  - exact first_items_sized.
  - exact ranks_ordered.
  - exact I.
  - apply Forall_forall. reflexivity.
  - exists outs. split; [exact Hmap|]. rewrite Hconcat. vm_compute. reflexivity.
Defined.

(** A row that is [None], with a key of its own, loses the boundary after it: the two groups are
    given to the function as one. *)
Example none_row_merges_groups :
  map_groups (λ r : option Z, bool_decide (r = None)) (default 0) (λ g, [g]) first_items ranks
    [[Some 1; None]] None = Ok [[[None; Some 1]]].
Proof. vm_compute. reflexivity. Qed.

Lemma whole_aggregates_follow_policy_witness :
  do_agg None [Sum (λ x, Some (qnum x)) true] first_items ranks number_lists None =
    Ok [[(None, [policy (λ x, Some (qnum x)) true qsum [7; 3; 5; 1; 4; 4; 9; 10; 2]])]].
Proof.
  apply (whole_aggregates_follow_policy (λ x, Some (qnum x)) true id 1 first_items ranks number_lists); [discriminate|by left].
Defined.

Lemma empty_block_hides_aggregates_witness :
  do_agg None [Sum (λ x, Some (qnum x)) false] first_items ranks number_lists None = Ok [[(None, [None])]].
Proof.
  apply (empty_block_hides_aggregates (λ x, Some (qnum x)) id 1 first_items ranks number_lists). right. left.
Defined.

(** Without nulls, the policy has a value for those rows. *)
Example empty_block_policy : is_Some (policy (λ x, Some (qnum x)) false qsum (concat number_lists)).
Proof. vm_compute. by eexists. Qed.

(** A block of nulls doubles the accumulation it is accumulated into. *)
Example nulls_double :
  _null_wrap_accumulate_block true (λ _ : list Z, None) (_null_wrap_merge true Z.add) (Some (3, true)) [0] = Some (6, true).
Proof. reflexivity. Qed.

(** A push-based shuffle of six blocks into one has more merge tasks than outputs. *)
Example whole_push_based_fails :
  do_agg None [Count] first_items ranks (replicate 6 [1; 2]) (Some ([("node1"%string, 6)], false)) = Err AssertionError.
Proof. vm_compute. reflexivity. Qed.
