(* ===== verification/TuneStopping.v ===== *)
(** * Tune's early stopping (tune/schedulers/trial_scheduler.py,
    async_hyperband.py, median_stopping_rule.py)

    A trial scheduler gets the results of running trials and answers each with a
    decision.  Numbers of results are rationals; a field may hold [None].  The
    functions of numpy are parameters. *)
From S2P Require Import Prelude PyLists.
From stdpp Require Import base tactics list strings.
From Stdlib Require Import QArith.

#[local] Open Scope Z_scope.

(** ** Trials and schedulers *)

Inductive TrialStatus := PENDING | RUNNING | PAUSED | TERMINATED | ERROR.
Inductive SchedulerDecision := CONTINUE | PAUSE | STOP | NOOP.

#[global] Instance TrialStatus_eq_dec : EqDecision TrialStatus.
Proof. solve_decision. Defined.
#[global] Instance SchedulerDecision_eq_dec : EqDecision SchedulerDecision.
Proof. solve_decision. Defined.

Record Trial := { trial_id : string; status : TrialStatus }.

(** A result: its fields. *)
Abbreviation Result := (dict string (option Q)).

Definition DEFAULT_METRIC : string := "_metric".

(** [if s] of a string or [None]. *)
Definition truthy (o : option string) : bool :=
  match o with Some s => negb (bool_decide (s = ""%string)) | None => false end.

(** [FIFOScheduler.choose_trial_to_run]; [has_resources] is what the executor
    answers. *)
Definition fifo_choose_trial_to_run (has_resources : Trial → bool) (trials : list Trial) :
    option Trial :=
  let first (st : TrialStatus) :=
    head (filter (λ t, bool_decide (status t = st) && has_resources t) trials) in
  match first PENDING with Some t => Some t | None => first PAUSED end.

(** The sign of the metric. *)
Definition metric_op_of (mode : option string) (dflt : option Q) : option Q :=
  if bool_decide (mode = Some "max"%string) then Some 1%Q
  else if bool_decide (mode = Some "min"%string) then Some (-1)%Q else dflt.

(** ** Asynchronous successive halving *)

Section asha.
(** [np.nanpercentile], and [int(np.log(max_t / min_t) / np.log(rf) - s + 1)]. *)
Context (nanpercentile : list Q → Q → Q).
Context (max_rungs : Q → Q → Q → Z → Z).

(** Rungs: a milestone with the rewards recorded there, by trial. *)
Abbreviation rung := (Q * dict string Q)%type.

Record Bracket := { rf : Q; _rungs : list rung; b_stop_last_trials : bool }.

Definition bracket_init (min_t max_t : Q) (reduction_factor : Q) (s : Z) (stop_last : bool) : Bracket :=
  {| rf := reduction_factor;
     _rungs := (λ k, ((min_t * Qpower reduction_factor (Z.of_nat k + s))%Q, []))
                 <$> rev (seq 0 (Z.to_nat (max_rungs min_t max_t reduction_factor s)));
     b_stop_last_trials := stop_last |}.

Definition cutoff (rf : Q) (recorded : dict string Q) : option Q :=
  match recorded with
  | [] => None
  | _ => Some (nanpercentile (dvalues recorded) ((1 - 1 / rf) * 100)%Q)
  end.

(** The loop of [on_result] over the rungs. *)
Fixpoint on_result_loop (rf : Q) (stop_last : bool) (id : string) (cur_iter : Q)
    (cur_rew : option Q) (rungs : list rung) : result (list rung * SchedulerDecision) :=
  match rungs with
  | [] => Ok ([], CONTINUE)
  | (milestone, recorded) :: rest =>
      if Qle_bool milestone cur_iter && din id recorded && negb stop_last
      then Ok (rungs, CONTINUE)
      else if Qltb cur_iter milestone || din id recorded then
        p ← on_result_loop rf stop_last id cur_iter cur_rew rest;
        Ok ((milestone, recorded) :: p.1, p.2)
      else
        action ← match cutoff rf recorded with
                 | None => Ok CONTINUE
                 | Some c => rew ← of_option TypeError cur_rew;
                             Ok (if Qltb rew c then STOP else CONTINUE)
                 end;
        let recorded :=
          match cur_rew with None => recorded | Some rew => dset id rew recorded end in
        Ok ((milestone, recorded) :: rest, action)
  end.

Definition on_result (b : Bracket) (id : string) (cur_iter : Q) (cur_rew : option Q) :
    result (Bracket * SchedulerDecision) :=
  p ← on_result_loop (rf b) (b_stop_last_trials b) id cur_iter cur_rew (_rungs b);
  Ok ({| rf := rf b; _rungs := p.1; b_stop_last_trials := b_stop_last_trials b |}, p.2).

(** [_trial_info] maps a trial to its bracket, a reference into [_brackets]. *)
Record AsyncHyperBandScheduler := {
  _max_t : Q;
  _trial_info : dict string nat;
  _brackets : list Bracket;
  _num_stopped : Z;
  _metric : option string;
  _mode : option string;
  _metric_op : option Q;
  _time_attr : string;
  _stop_last_trials : bool;
}.

Definition asha_init (time_attr : string) (metric mode : option string)
    (max_t grace_period reduction_factor : Q) (brackets : Z) (stop_last_trials : bool) :
    result AsyncHyperBandScheduler :=
  _ ← py_assert (Qltb 0 max_t);
  _ ← py_assert (Qle_bool grace_period max_t);
  _ ← py_assert (Qltb 0 grace_period);
  _ ← py_assert (Qltb 1 reduction_factor);
  _ ← py_assert (0 <? brackets);
  _ ← (if truthy mode
       then py_assert (bool_decide (mode ∈ [Some "min"; Some "max"]%string)) else Ok tt);
  Ok {| _max_t := max_t; _trial_info := [];
        _brackets := (λ s, bracket_init grace_period max_t reduction_factor (Z.of_nat s)
                             stop_last_trials) <$> seq 0 (Z.to_nat brackets);
        _num_stopped := 0; _metric := metric; _mode := mode;
        _metric_op := metric_op_of mode None; _time_attr := time_attr;
        _stop_last_trials := stop_last_trials |}.

Definition with_state (s : AsyncHyperBandScheduler) (info : dict string nat) (bs : list Bracket)
    (stopped : Z) : AsyncHyperBandScheduler :=
  {| _max_t := _max_t s; _trial_info := info; _brackets := bs; _num_stopped := stopped;
     _metric := _metric s; _mode := _mode s; _metric_op := _metric_op s;
     _time_attr := _time_attr s; _stop_last_trials := _stop_last_trials s |}.

Definition asha_set_search_properties (metric mode : option string)
    (s : AsyncHyperBandScheduler) : AsyncHyperBandScheduler * bool :=
  if truthy (_metric s) && truthy metric then (s, false)
  else if truthy (_mode s) && truthy mode then (s, false)
  else
    let metric' := if truthy metric then metric else _metric s in
    let mode' := if truthy mode then mode else _mode s in
    let op := metric_op_of mode' (_metric_op s) in
    let metric'' :=
      match metric' with
      | None => if truthy mode' then Some DEFAULT_METRIC else None
      | Some m => Some m
      end in
    ({| _max_t := _max_t s; _trial_info := _trial_info s; _brackets := _brackets s;
        _num_stopped := _num_stopped s; _metric := metric''; _mode := mode'; _metric_op := op;
        _time_attr := _time_attr s; _stop_last_trials := _stop_last_trials s |}, true).

(** [idx] is what [np.random.choice] answers. *)
Definition asha_on_trial_add (idx : nat) (id : string) (s : AsyncHyperBandScheduler) :
    result AsyncHyperBandScheduler :=
  if negb (truthy (_metric s)) || bool_decide (_metric_op s = None) then Err ValueError
  else
    _ ← of_option IndexError (_brackets s !! idx);
    Ok (with_state s (dset id idx (_trial_info s)) (_brackets s) (_num_stopped s)).

(** [self._metric_op * result[self._metric]] *)
Definition signed (op : option Q) (v : option Q) : result Q :=
  op ← of_option TypeError op; v ← of_option TypeError v; Ok (op * v)%Q.

(** The bracket of a trial takes a result. *)
Definition bracket_result (id : string) (time metric_value : option Q)
    (s : AsyncHyperBandScheduler) : result (AsyncHyperBandScheduler * SchedulerDecision) :=
  idx ← dget_exn id (_trial_info s);
  b ← of_option IndexError (_brackets s !! idx);
  rew ← signed (_metric_op s) metric_value;
  t ← of_option TypeError time;
  p ← on_result b id t (Some rew);
  Ok (with_state s (_trial_info s) (<[idx:=p.1]> (_brackets s)) (_num_stopped s), p.2).

(** The fields of a result that the scheduler needs, if it has both. *)
Definition result_fields (s : AsyncHyperBandScheduler) (r : Result) : option (option Q * option Q) :=
  match dget (_time_attr s) r, _metric s ≫= λ m, dget m r with
  | Some t, Some v => Some (t, v)
  | _, _ => None
  end.

Definition asha_on_trial_result (id : string) (r : Result) (s : AsyncHyperBandScheduler) :
    result (AsyncHyperBandScheduler * SchedulerDecision) :=
  match result_fields s r with
  | None => Ok (s, CONTINUE)
  | Some (time, v) =>
      t ← of_option TypeError time;
      p ← (if Qle_bool (_max_t s) t && _stop_last_trials s then Ok (s, STOP)
           else bracket_result id time v s);
      let '(s, action) := p in
      if decide (action = STOP)
      then Ok (with_state s (_trial_info s) (_brackets s) (_num_stopped s + 1), action)
      else Ok (s, action)
  end.

Definition asha_on_trial_remove (id : string) (s : AsyncHyperBandScheduler) :
    result AsyncHyperBandScheduler :=
  _ ← dget_exn id (_trial_info s);
  Ok (with_state s (ddel id (_trial_info s)) (_brackets s) (_num_stopped s)).

Definition asha_on_trial_complete (id : string) (r : Result) (s : AsyncHyperBandScheduler) :
    result AsyncHyperBandScheduler :=
  match result_fields s r with
  | None => Ok s
  | Some (time, v) => p ← bracket_result id time v s; asha_on_trial_remove id p.1
  end.
End asha.

(** ** The median stopping rule *)

Section median.
(** [np.mean] and [np.median]; [None] is NaN. *)
Context (np_mean : list Q → option Q) (np_median : list (option Q) → option Q).

Inductive CompareOp := OpMax | OpMin.

(** [compare_op(median, best) != best]: [max(a, b)] is [a] unless [b > a], and
    comparing with NaN is false. *)
Definition not_best (op : CompareOp) (median : option Q) (best : Q) : bool :=
  match median with
  | None => true
  | Some m =>
      let v := match op with
               | OpMax => if Qltb m best then best else m
               | OpMin => if Qltb best m then best else m
               end in
      negb (Qeq_bool v best)
  end.

(** [max(l)] and [min(l)] *)
Definition op_list (op : CompareOp) (l : list Q) : result Q :=
  match l with
  | [] => Err ValueError
  | x :: l =>
      Ok (fold_left (λ acc y, match op with
                              | OpMax => if Qltb acc y then y else acc
                              | OpMin => if Qltb y acc then y else acc
                              end) l x)
  end.

Record MedianStoppingRule := {
  _stopped_trials : list string;
  _grace_period : Q;
  _min_samples_required : Z;
  _min_time_slice : Q;
  m_metric : option string;
  _compare_op : option CompareOp;
  m_mode : option string;
  m_time_attr : string;
  _hard_stop : bool;
  _last_pause : dict string Q;
  _results : dict string (list Result);
}.

Definition compare_op_of (mode : option string) : CompareOp :=
  if bool_decide (mode = Some "max"%string) then OpMax else OpMin.

Definition median_init (time_attr : string) (metric mode : option string) (grace_period : Q)
    (min_samples_required : Z) (min_time_slice : Q) (hard_stop : bool) : result MedianStoppingRule :=
  _ ← (if truthy mode
       then py_assert (bool_decide (mode ∈ [Some "min"; Some "max"]%string)) else Ok tt);
  Ok {| _stopped_trials := []; _grace_period := grace_period;
        _min_samples_required := min_samples_required; _min_time_slice := min_time_slice;
        m_metric := metric; _compare_op := if truthy mode then Some (compare_op_of mode) else None;
        m_mode := mode; m_time_attr := time_attr; _hard_stop := hard_stop;
        _last_pause := []; _results := [] |}.

Definition median_set_search_properties (metric mode : option string) (s : MedianStoppingRule) :
    MedianStoppingRule * bool :=
  if truthy (m_metric s) && truthy metric then (s, false)
  else if truthy (m_mode s) && truthy mode then (s, false)
  else
    let metric' := if truthy metric then metric else m_metric s in
    let mode' := if truthy mode then mode else m_mode s in
    let metric'' :=
      match metric' with
      | None => if truthy mode' then Some DEFAULT_METRIC else None
      | Some m => Some m
      end in
    ({| _stopped_trials := _stopped_trials s; _grace_period := _grace_period s;
        _min_samples_required := _min_samples_required s; _min_time_slice := _min_time_slice s;
        m_metric := metric''; _compare_op := Some (compare_op_of mode'); m_mode := mode';
        m_time_attr := m_time_attr s; _hard_stop := _hard_stop s;
        _last_pause := _last_pause s; _results := _results s |}, true).

Definition median_on_trial_add (s : MedianStoppingRule) : result unit :=
  if negb (truthy (m_metric s)) || match _compare_op s with None => true | _ => false end
  then Err ValueError else Ok tt.

Definition median_with (s : MedianStoppingRule) (stopped : list string) (pause : dict string Q)
    (results : dict string (list Result)) : MedianStoppingRule :=
  {| _stopped_trials := stopped; _grace_period := _grace_period s;
     _min_samples_required := _min_samples_required s; _min_time_slice := _min_time_slice s;
     m_metric := m_metric s; _compare_op := _compare_op s; m_mode := m_mode s;
     m_time_attr := m_time_attr s; _hard_stop := _hard_stop s;
     _last_pause := pause; _results := results |}.

(** [self._results[trial].append(result)] *)
Definition append_result (id : string) (r : Result) (s : MedianStoppingRule) : MedianStoppingRule :=
  median_with s (_stopped_trials s) (_last_pause s)
    (dset id (dget_def id [] (_results s) ++ [r]) (_results s)).

(** [r[attr]], a number *)
Definition field (attr : string) (r : Result) : result Q :=
  v ← dget_exn attr r; of_option TypeError v.

(** [r[self._metric]] *)
Definition metric_field (s : MedianStoppingRule) (r : Result) : result Q :=
  m ← of_option KeyError (m_metric s); field m r.

(** A list comprehension [[x for x in l if cond(x)]] whose condition may raise. *)
Fixpoint filterM {A} (cond : A → result bool) (l : list A) : result (list A) :=
  match l with
  | [] => Ok []
  | x :: l => c ← cond x; rest ← filterM cond l; Ok (if (c : bool) then x :: rest else rest)
  end.

Definition _trials_beyond_time (time : Q) (s : MedianStoppingRule) : result (list string) :=
  l ← filterM (λ p : string * list Result,
                 r ← of_option IndexError (last p.2); t ← field (m_time_attr s) r;
                 Ok (Qle_bool time t)) (_results s);
  Ok (dkeys l).

(** [trials.remove(trial)] *)
Fixpoint list_remove (id : string) (l : list string) : result (list string) :=
  match l with
  | [] => Err ValueError
  | x :: l => if decide (x = id) then Ok l else rest ← list_remove id l; Ok (x :: rest)
  end.

Definition _on_insufficient_samples (live_trials : list Trial) (id : string) (time : Q)
    (s : MedianStoppingRule) : SchedulerDecision :=
  let pause := match dget id (_last_pause s) with
               | None => true
               | Some t => Qltb (_min_time_slice s) (time - t)%Q
               end in
  let waiting := filter (λ t, status t = PENDING ∨ status t = PAUSED) live_trials in
  if pause && negb (bool_decide (waiting = [])) then PAUSE else CONTINUE.

Definition scoped_results (time : Q) (s : MedianStoppingRule) (results : list Result) :
    result (list Result) :=
  filterM (λ r, t ← field (m_time_attr s) r;
                Ok (Qle_bool (_grace_period s) t && Qle_bool t time)) results.

Definition _running_mean (time : Q) (s : MedianStoppingRule) (id : string) : result (option Q) :=
  scoped ← scoped_results time s (dget_def id [] (_results s));
  vs ← mapM (metric_field s) scoped; Ok (np_mean vs).

Definition _median_result (trials : list string) (time : Q) (s : MedianStoppingRule) :
    result (option Q) :=
  means ← mapM (_running_mean time s) trials; Ok (np_median means).

Definition _best_result (id : string) (s : MedianStoppingRule) : result Q :=
  vs ← mapM (metric_field s) (dget_def id [] (_results s));
  op ← of_option TypeError (_compare_op s); op_list op vs.

(** The time of a result that has the metric as well. *)
Definition median_time (s : MedianStoppingRule) (r : Result) : option (option Q) :=
  match dget (m_time_attr s) r, m_metric s ≫= λ m, dget m r with
  | Some time, Some _ => Some time
  | _, _ => None
  end.

(** [on_trial_result]; [live_trials] is what the trial runner answers.  The state
    survives an exception: the result has been appended. *)
Definition median_on_trial_result (live_trials : list Trial) (id : string) (r : Result) :
    ST MedianStoppingRule SchedulerDecision :=
  s ← st_get;
  match median_time s r with
  | Some time =>
      if bool_decide (id ∈ _stopped_trials s) then
        _ ← st_lift (py_assert (negb (_hard_stop s))); mret CONTINUE
      else
        _ ← st_modify (append_result id r);
        s ← st_get;
        time ← st_lift (of_option TypeError time);
        if Qltb time (_grace_period s) then mret CONTINUE
        else
          trials ← st_lift (_trials_beyond_time time s);
          trials ← st_lift (list_remove id trials);
          if len trials <? _min_samples_required s then
            let action := _on_insufficient_samples live_trials id time s in
            _ ← (if decide (action = PAUSE)
                 then st_modify (λ s, median_with s (_stopped_trials s)
                                        (dset id time (_last_pause s)) (_results s))
                 else mret tt);
            mret action
          else
            median_result ← st_lift (_median_result trials time s);
            best_result ← st_lift (_best_result id s);
            op ← st_lift (of_option TypeError (_compare_op s));
            if not_best op median_result best_result then
              _ ← st_modify (λ s, median_with s (_stopped_trials s ++ [id])
                                    (_last_pause s) (_results s));
              mret (if _hard_stop s then STOP else PAUSE)
            else mret CONTINUE
  | None => mret CONTINUE
  end.

Definition median_on_trial_complete (id : string) (r : Result) (s : MedianStoppingRule) :
    MedianStoppingRule := append_result id r s.
End median.
