(* ===== verification/TuneStoppingProofs.v ===== *)
(** * Early stopping: proofs *)
From S2P Require Import Prelude PyLists TuneStopping.
From stdpp Require Import base tactics list strings relations.
From Stdlib Require Import QArith Qpower Lqa.

#[local] Open Scope Z_scope.

(** ** Asynchronous successive halving *)

Section asha.
Context (nanpercentile : list Q → Q → Q).

Abbreviation on_result := (on_result nanpercentile).
Abbreviation asha_on_trial_result := (asha_on_trial_result nanpercentile).
Abbreviation asha_on_trial_complete := (asha_on_trial_complete nanpercentile).

(** *** A bracket takes a result *)

(** The loop changes at most one rung: the first one that is reached and has no
    reward of the trial. *)
Inductive rung_effect (rf : Q) (id : string) (t rew : Q) :
    list (Q * dict string Q) → list (Q * dict string Q) → SchedulerDecision → Prop :=
  | no_rung rungs : rung_effect rf id t rew rungs rungs CONTINUE
  | one_rung pre m rec post a :
      (m <= t)%Q → din id rec = false →
      Forall (λ r, (t < r.1)%Q ∨ din id r.2 = true) pre →
      a = match cutoff nanpercentile rf rec with
          | Some c => if Qltb rew c then STOP else CONTINUE
          | None => CONTINUE
          end →
      rung_effect rf id t rew (pre ++ (m, rec) :: post) (pre ++ (m, dset id rew rec) :: post) a.

Lemma on_result_loop_spec rf stop_last id t rew rungs :
  ∃ rungs' a, on_result_loop nanpercentile rf stop_last id t (Some rew) rungs = Ok (rungs', a) ∧
              rung_effect rf id t rew rungs rungs' a.
Proof.
  induction rungs as [|[m rec] rest (rungs' & a & IH & He)]; cbn.
  { eexists _, _. split; [done|constructor]. }
  destruct (Qle_bool m t && din id rec && negb stop_last); [eexists _, _; split; [done|constructor]|].
  destruct (Qltb t m || din id rec) eqn:Hskip.
  - rewrite IH. cbn. eexists _, _. split; [done|]. destruct He as [|pre m' rec' post a Hm Hd Hpre Ha].
    + constructor.
    + apply (one_rung rf id t rew ((m, rec) :: pre)); [done|done| |done]. constructor; [|done].
      apply orb_true_iff in Hskip as [Hs|Hs]; [left; by apply Qltb_true|by right].
  - apply orb_false_iff in Hskip as [Hlt Hd]. apply Qltb_false in Hlt.
    destruct (cutoff nanpercentile rf rec) as [c|] eqn:Hc; cbn; eexists _, _; (split; [done|]);
      apply (one_rung rf id t rew []); rewrite ?Hc; done.
Qed.

(** *** The scheduler's steps *)

(** What the trial runner calls. *)
Inductive asha_step : AsyncHyperBandScheduler → AsyncHyperBandScheduler → Prop :=
  | step_search s metric mode : asha_step s (asha_set_search_properties metric mode s).1
  | step_add s s' idx id : asha_on_trial_add idx id s = Ok s' → asha_step s s'
  | step_result s s' id r a : asha_on_trial_result id r s = Ok (s', a) → asha_step s s'
  | step_complete s s' id r : asha_on_trial_complete id r s = Ok s' → asha_step s s'
  | step_remove s s' id : asha_on_trial_remove id s = Ok s' → asha_step s s'.

(** Brackets change by results only. *)
Inductive brackets_step (bs : list Bracket) : list Bracket → Prop :=
  | same_brackets : brackets_step bs bs
  | one_bracket i b id t rew rungs a :
      bs !! i = Some b → rung_effect (rf b) id t rew (_rungs b) rungs a →
      brackets_step bs
        (<[i:={| rf := rf b; _rungs := rungs; b_stop_last_trials := b_stop_last_trials b |}]> bs).

Lemma bracket_result_spec id time v s s' a :
  bracket_result nanpercentile id time v s = Ok (s', a) →
  ∃ i b t rew rungs,
    dget id (_trial_info s) = Some i ∧ _brackets s !! i = Some b ∧ time = Some t ∧
    signed (_metric_op s) v = Ok rew ∧ rung_effect (rf b) id t rew (_rungs b) rungs a ∧
    s' = with_state s (_trial_info s)
           (<[i:={| rf := rf b; _rungs := rungs; b_stop_last_trials := b_stop_last_trials b |}]>
              (_brackets s)) (_num_stopped s).
Proof.
  unfold bracket_result, dget_exn, TuneStopping.on_result. intros Hr. inv_ok.
  destruct (on_result_loop_spec (rf x0) (b_stop_last_trials x0) id x2 x1 (_rungs x0))
    as (rungs & a & Hl & He). 
  rewrite Hl in *. inv_ok. naive_solver.
Qed.

Lemma asha_step_brackets s s' :
  asha_step s s' → brackets_step (_brackets s) (_brackets s') ∧ _max_t s' = _max_t s.
Proof.
  assert (∀ id time v s s' a, bracket_result nanpercentile id time v s = Ok (s', a) →
            brackets_step (_brackets s) (_brackets s') ∧ _max_t s' = _max_t s) as Hres.
  { intros id time v s1 s2 a (i & b & t & rew & rungs & _ & Hb & _ & _ & He & ->)%bracket_result_spec.
    split; [|done]. by econstructor. }
  destruct 1 as [s metric mode|s s' idx id Ha|s s' id r a Ha|s s' id r Ha|s s' id Ha].
  - unfold asha_set_search_properties. repeat case_match; (split; [constructor|done]).
  - unfold asha_on_trial_add in Ha. case_match; [done|]. inv_ok. split; [constructor|done].
  - unfold TuneStopping.asha_on_trial_result in Ha. case_match; [|inv_ok; split; [constructor|done]].
    case_match. inv_ok. destruct (Qle_bool _ _ && _); [|apply Hres in H2];
      case_match; inv_ok; try done; (split; [constructor|done]).
  - unfold TuneStopping.asha_on_trial_complete, asha_on_trial_remove in Ha.
    case_match; [|inv_ok; split; [constructor|done]]. case_match. inv_ok. destruct x as [s1 a].
    by apply Hres in H1.
  - unfold asha_on_trial_remove in Ha. inv_ok. split; [constructor|done].
Qed.

(** *** Rewards are written once *)

(** The reward of a trial at rung [j] of bracket [i]. *)
Definition reward_at (bs : list Bracket) (i j : nat) (id : string) : option Q :=
  match bs !! i with
  | Some b => match _rungs b !! j with Some r => dget id r.2 | None => None end
  | None => None
  end.

Lemma rung_effect_reward rf id t rew rungs rungs' a j r id' v :
  rung_effect rf id t rew rungs rungs' a → rungs !! j = Some r → dget id' r.2 = Some v →
  ∃ r', rungs' !! j = Some r' ∧ r'.1 = r.1 ∧ dget id' r'.2 = Some v.
Proof.
  destruct 1 as [|pre m rec post a Hm Hd Hpre Ha]; [by eauto|]. intros Hj Hv.
  destruct (decide (j < length pre)%nat) as [Hlt|Hge].
  { rewrite lookup_app_l in Hj by done. exists r. by rewrite lookup_app_l. }
  rewrite lookup_app_r in Hj |- * by lia. destruct (j - length pre)%nat as [|k]; cbn in *; [|by eauto].
  simplify_eq. eexists; split; [done|]. split; [done|]. cbn in *. rewrite dget_dset_ne; [done|].
  intros ->. unfold din in Hd. by rewrite Hv in Hd.
Qed.

Lemma brackets_step_reward bs bs' i j id v :
  brackets_step bs bs' → reward_at bs i j id = Some v → reward_at bs' i j id = Some v.
Proof.
  destruct 1 as [|i' b id' t rew rungs a Hb He]; [done|]. unfold reward_at. intros Hv.
  destruct (decide (i = i')) as [->|Hne]; [|by rewrite list_lookup_insert_ne].
  rewrite list_lookup_insert_eq by (by eapply lookup_lt_Some). cbn. rewrite Hb in Hv.
  destruct (_rungs b !! j) as [r|] eqn:Hj; [|done].
  destruct (rung_effect_reward _ _ _ _ _ _ _ _ _ _ _ He Hj Hv) as (r' & -> & _ & Hv'). done.
Qed.

(** The reward that ASHA records for a trial at a rung never changes, whatever
    results, completions and removals follow: the cutoffs of a rung are computed
    from the first result of each trial that reached it. *)
Theorem asha_rewards_written_once s s' i j id v :
  rtc asha_step s s' → reward_at (_brackets s) i j id = Some v →
  reward_at (_brackets s') i j id = Some v.
Proof.
  induction 1 as [|s s1 s' [Hstep _]%asha_step_brackets _ IH]; [done|].
  intros Hv. by apply IH, (brackets_step_reward _ _ _ _ _ _ Hstep).
Qed.

(** *** Who is stopped *)

Context (max_rungs : Q → Q → Q → Z → Z) (grace : Q).

Definition grace_ok (s : AsyncHyperBandScheduler) : Prop :=
  (grace <= _max_t s)%Q ∧ Forall (λ b, Forall (λ r, (grace <= r.1)%Q) (_rungs b)) (_brackets s).

(** The states of a scheduler made with a grace period. *)
Definition asha_reachable (s : AsyncHyperBandScheduler) : Prop :=
  ∃ time_attr metric mode max_t rf brackets stop_last s0,
    asha_init max_rungs time_attr metric mode max_t grace rf brackets stop_last = Ok s0 ∧
    rtc asha_step s0 s.

Lemma rung_effect_milestones rf id t rew rungs rungs' a :
  rung_effect rf id t rew rungs rungs' a → rungs'.*1 = rungs.*1.
Proof. destruct 1; [done|]. by rewrite !fmap_app. Qed.

Lemma bracket_init_grace max_t rf s stop_last :
  (0 < grace)%Q → (1 < rf)%Q → 0 <= s →
  Forall (λ r, (grace <= r.1)%Q) (_rungs (bracket_init max_rungs grace max_t rf s stop_last)).
Proof.
  intros Hg Hrf Hs. apply Forall_fmap, Forall_forall. intros k _. cbn.
  pose proof (Qpower_1_le rf (Z.of_nat k + s) ltac:(lra) ltac:(lia)). nra.
Qed.

Lemma asha_reachable_grace s : asha_reachable s → grace_ok s.
Proof.
  intros (ta & metric & mode & max_t & rf & brs & stop_last & s0 & Hinit & Hsteps).
  assert (grace_ok s0) as Hok.
  { unfold asha_init in Hinit. inv_ok. rewrite ?Qltb_true, ?Qle_bool_iff in *.
    split; [done|]. cbn. apply Forall_fmap, Forall_forall. intros k _.
    unfold compose. apply bracket_init_grace; [done|done|lia]. }
  clear Hinit. induction Hsteps as [|s s1 s' [Hb Hm]%asha_step_brackets _ IH]; [done|].
  apply IH. destruct Hok as [Hg Hall]. split; [by rewrite Hm|].
  destruct Hb as [|i b id t rew rungs a Hi He]; [done|]. apply Forall_insert; [done|].
  cbn. pose proof (Forall_lookup_1 _ _ _ _ Hall Hi) as Hbk. cbn in Hbk.
  assert (Forall (λ q, (grace <= q)%Q) rungs.*1) as Hf
    by (rewrite (rung_effect_milestones _ _ _ _ _ _ _ He); by apply Forall_fmap).
  exact (proj1 (Forall_fmap _ _ _) Hf).
Qed.

(** What is used of [np.nanpercentile]: it is at most what all the values are. *)
Hypothesis percentile_le : ∀ l p m, l ≠ [] → Forall (λ v, (v <= m)%Q) l → (nanpercentile l p <= m)%Q.

Lemma beaten_by_some rf rec rew :
  STOP = match cutoff nanpercentile rf rec with
         | Some c => if Qltb rew c then STOP else CONTINUE
         | None => CONTINUE
         end → ∃ other best, (other, best) ∈ rec ∧ (rew < best)%Q.
Proof.
  unfold cutoff. destruct rec as [|e rec]; [done|].
  destruct (Qltb rew _) eqn:Hlt; [intros _|done]. apply Qltb_true in Hlt.
  set (d := e :: rec) in *.
  destruct (Forall_Exists_dec (λ v, (v <= rew)%Q) (λ v, (rew < v)%Q)
    (λ v, match Qlt_le_dec rew v with left h => right h | right h => left h end) (dvalues d))
    as [Hle|Hex].
  - exfalso. apply (Qlt_not_le _ _ Hlt), percentile_le; [done|exact Hle].
  - apply Exists_exists in Hex as (best & ([k v] & -> & Hin)%list_elem_of_fmap & Hb).
    by exists k, v.
Qed.

(** C23: ASHA stops a trial only with cause.  In every reachable state, when a result
    is answered with STOP, the trial has reached [max_t] (and last trials are to be
    stopped), or it is at least as old as the grace period and another trial of the
    same bracket recorded a strictly better reward at a rung that this trial has
    reached: the best trial of a rung is never stopped early. *)
Theorem asha_stop_sound s s' id r :
  asha_reachable s → asha_on_trial_result id r s = Ok (s', STOP) →
  ∃ t, dget (_time_attr s) r = Some (Some t) ∧
    (((_max_t s <= t)%Q ∧ _stop_last_trials s = true) ∨
     ∃ i b milestone rec v rew other best,
       dget id (_trial_info s) = Some i ∧ _brackets s !! i = Some b ∧ (milestone, rec) ∈ _rungs b ∧
       (grace <= milestone <= t)%Q ∧ (_metric s ≫= λ m, dget m r) = Some v ∧
       signed (_metric_op s) v = Ok rew ∧
       other ≠ id ∧ (other, best) ∈ rec ∧ (rew < best)%Q).
Proof.
  intros [Hg Hall]%asha_reachable_grace Hr.
  unfold TuneStopping.asha_on_trial_result, result_fields in Hr.
  destruct (dget (_time_attr s) r) as [time|] eqn:Ht; [|done].
  destruct (_metric s ≫= λ m, dget m r) as [v|] eqn:Hv; [|done]. inv_ok.
  exists x. split; [done|]. destruct (Qle_bool _ _ && _) eqn:Hmax.
  { left. by apply andb_true_iff in Hmax as [?%Qle_bool_iff ?]. }
  right. assert (s0 = STOP) as -> by (case_decide; by inv_ok).
  apply bracket_result_spec in H0 as (i & b & t & rew & rungs & Hi & Hb & Heq & Hs & He & _).
  simplify_eq. inversion He as [|pre m rec post ? Hm Hd Hpre Ha Hrungs]. subst.
  assert ((m, rec) ∈ _rungs b) as Hin by (rewrite <- Hrungs; apply elem_of_app; right; left).
  pose proof (Forall_lookup_1 _ _ _ _ Hall Hb) as Hbk. cbn in Hbk.
  pose proof (proj1 (Forall_forall _ _) Hbk _ Hin) as Hgm. cbn in Hgm.
  destruct (beaten_by_some _ _ _ Ha) as (other & best & Hbest & Hlt).
  exists i, b, m, rec, v, rew, other, best. split_and!; try done.
  intros ->. rewrite (proj2 (din_spec id rec)) in Hd; [done|].
  apply list_elem_of_fmap. by exists (id, best).
Qed.
End asha.

(** ** The median stopping rule *)

Section median.
Context (np_mean : list Q → option Q) (np_median : list (option Q) → option Q).

Abbreviation median_on_trial_result := (median_on_trial_result np_mean np_median).

#[local] Arguments _trials_beyond_time : simpl never.
#[local] Arguments _median_result : simpl never.
#[local] Arguments _best_result : simpl never.
#[local] Arguments append_result : simpl never.
#[local] Arguments not_best : simpl never.

(** What is strictly better, under the mode. *)
Definition better (op : CompareOp) (x y : Q) : Prop :=
  match op with OpMax => (y < x)%Q | OpMin => (x < y)%Q end.

Definition no_better (op : CompareOp) (x y : Q) : Prop :=
  match op with OpMax => (x <= y)%Q | OpMin => (y <= x)%Q end.

Definition better_dec op x y : {better op x y} + {no_better op x y}.
Proof. destruct op; apply Qlt_le_dec. Defined.

Lemma not_best_spec op m best : not_best op (Some m) best = true → better op m best.
Proof.
  unfold not_best, better. intros Hn%negb_true_iff. destruct op.
  - destruct (Qltb m best) eqn:E; [by rewrite Qeq_bool_refl in Hn|].
    apply Qltb_false in E. apply Qeq_bool_neq in Hn. lra.
  - destruct (Qltb best m) eqn:E; [by rewrite Qeq_bool_refl in Hn|].
    apply Qltb_false in E. apply Qeq_bool_neq in Hn. lra.
Qed.

Lemma list_remove_spec id l l' :
  list_remove id l = Ok l' → NoDup l → ∀ x, x ∈ l' → x ∈ l ∧ x ≠ id.
Proof.
  revert l'; induction l as [|y l IH]; intros l'; cbn; [done|].
  intros Hr [Hy Hnd]%NoDup_cons x Hx. case_decide; inv_ok.
  - split; [by right|]. by intros ->.
  - apply elem_of_cons in Hx as [->|Hx]; [split; [left|done]|].
    destruct (IH _ H0 Hnd x Hx). split; [by right|done].
Qed.

Lemma filterM_spec {A} (c : A → result bool) l k :
  filterM c l = Ok k → sublist k l ∧ Forall (λ x, c x = Ok true) k.
Proof.
  revert k; induction l as [|x l IH]; intros k; cbn; intros Hf; [by inv_ok|].
  apply bind_Ok in Hf as (b & Hb & (k' & [Hs Ha]%IH & Hf)%bind_Ok).
  injection Hf as <-. destruct b; split; try done; by constructor.
Qed.

(** The trials that have got as far as [time]. *)
Lemma trials_beyond_time_spec time s l :
  _trials_beyond_time time s = Ok l → dict_wf (_results s) →
  NoDup l ∧ ∀ id, id ∈ l →
    ∃ rs r t, dget id (_results s) = Some rs ∧ last rs = Some r ∧
              field (m_time_attr s) r = Ok t ∧ (time <= t)%Q.
Proof.
  unfold _trials_beyond_time. intros Hl Hwf. inv_ok.
  destruct (filterM_spec _ _ _ H) as [Hsub Hall]. split.
  - eapply sublist_NoDup; [exact Hwf|]. by apply fmap_sublist.
  - intros id ([id' rs] & -> & Hin)%list_elem_of_fmap.
    pose proof (proj1 (Forall_forall _ _) Hall _ Hin) as Hc. cbn in Hc. inv_ok.
    exists rs, x0, x1. split_and!; [|done|done|by apply Qle_bool_iff].
    apply dget_elem; [done|]. by eapply elem_of_sublist.
Qed.

(** What is used of [np.median]: with no NaN it lies within the values. *)
Hypothesis median_within : ∀ op l b,
  l ≠ [] → Forall (λ o, ∃ v, o = Some v ∧ no_better op v b) l →
  ∃ m, np_median l = Some m ∧ no_better op m b.

Lemma mapM_Ok_Forall2 {A B} (f : A → result B) l k :
  mapM f l = Ok k → Forall2 (λ x y, f x = Ok y) l k.
Proof.
  revert k; induction l as [|x l IH]; intros k; cbn; intros Hm; inv_ok; [constructor|].
  constructor; [done|]. by apply IH.
Qed.

(** A median that beats [best] has a mean that does, or that is not a number. *)
Lemma median_beaten op means best :
  means ≠ [] → not_best op (np_median means) best = true →
  ∃ mean, mean ∈ means ∧ match mean with Some m => better op m best | None => True end.
Proof.
  intros Hne Hn.
  destruct (Forall_Exists_dec (λ o, ∃ v, o = Some v ∧ no_better op v best)
    (λ o, match o with Some m => better op m best | None => True end)) with (l := means) as [Ha|He].
  - intros [v|]; [|by right]. destruct (better_dec op v best); [by right|left; eauto].
  - destruct (median_within op means best Hne Ha) as (m & Hm & Hno). rewrite Hm in Hn.
    apply not_best_spec in Hn. destruct op; cbn in *; lra.
  - by apply Exists_exists in He.
Qed.

(** The median rule stops a trial only with cause.  When a result is answered
    with STOP, the rule is set to stop (not to pause), the trial is past the grace
    period, and some other trial that has got as far has a running mean of its
    results up to this time that is strictly better than the best result of the
    stopped trial, or that is not a number. *)
Theorem median_stop_sound live id r s s' :
  dict_wf (_results s) → 0 < _min_samples_required s →
  median_on_trial_result live id r s = (s', Ok STOP) →
  let s1 := append_result id r s in
  ∃ time op best other mean,
    median_time s r = Some (Some time) ∧ _hard_stop s = true ∧ (_grace_period s <= time)%Q ∧
    _compare_op s = Some op ∧ _best_result id s1 = Ok best ∧
    other ≠ id ∧
    (∃ rs l t, dget other (_results s) = Some rs ∧ last rs = Some l ∧
               field (m_time_attr s) l = Ok t ∧ (time <= t)%Q) ∧
    _running_mean np_mean time s1 other = Ok mean ∧
    match mean with Some m => better op m best | None => True end.
Proof.
  intros Hwf Hmin Hr s1. unfold TuneStopping.median_on_trial_result in Hr.
  unfold mbind, st_bind, st_get, st_lift, st_modify, mret, st_ret in Hr. cbv beta iota in Hr.
  destruct (median_time s r) as [time|] eqn:Ht; [|done].
  destruct (bool_decide _); [by destruct (negb _)|].
  cbv beta iota in Hr.
  pose proof (eq_refl : s1 = append_result id r s) as Hs1. clearbody s1. rewrite <- Hs1 in Hr.
  assert (_grace_period s1 = _grace_period s ∧ _compare_op s1 = _compare_op s ∧
          _hard_stop s1 = _hard_stop s ∧ m_time_attr s1 = m_time_attr s ∧
          _min_samples_required s1 = _min_samples_required s ∧ dict_wf (_results s1) ∧
          ∀ k, k ≠ id → dget k (_results s1) = dget k (_results s))
    as (Eg & Eo & Eh & Eta & Em & Ewf & Er).
  { rewrite Hs1. split_and!; try done; [by apply dset_wf|]. intros k Hk. by apply dget_dset_ne. }
  destruct time as [time|]; cbn in Hr; [|done].
  destruct (Qltb _ _) eqn:Hg; [done|]. apply Qltb_false in Hg. rewrite Eg in Hg.
  destruct (_trials_beyond_time time s1) as [l|e] eqn:Hl; [|done].
  destruct (list_remove id l) as [l'|e] eqn:Hrm; [|done].
  destruct (len l' <? _) eqn:Hlen.
  { exfalso. revert Hr. unfold _on_insufficient_samples. destruct (_ && _); cbn; by intros [=]. }
  destruct (_median_result np_mean np_median l' time s1) as [med|e] eqn:Hmed; [|done].
  destruct (_best_result id s1) as [best|e] eqn:Hbest; [|done].
  rewrite Eo, Eh in Hr. destruct (_compare_op s) as [op|] eqn:Hop; cbn in Hr; [|done].
  destruct (not_best op med best) eqn:Hnb; [|done].
  destruct (_hard_stop s) eqn:Hhs; [|done].
  destruct (trials_beyond_time_spec _ _ _ Hl) as [Hnd Hbeyond]; [done|].
  pose proof (list_remove_spec _ _ _ Hrm Hnd) as Hrem.
  unfold _median_result in Hmed. apply bind_Ok in Hmed as (means & Hmeans%mapM_Ok_Forall2 & Hmed).
  injection Hmed as <-. apply Z.ltb_ge in Hlen. rewrite Em in Hlen.
  destruct (median_beaten op means best) as (mean & Hin & Hbt); [|done|].
  { intros ->. apply Forall2_nil_inv_r in Hmeans. subst. change (len []) with 0 in Hlen. lia. }
  apply list_elem_of_lookup in Hin as [k Hk].
  destruct (Forall2_lookup_r _ _ _ _ _ Hmeans Hk) as (other & Ho & Hmean).
  apply list_elem_of_lookup_2 in Ho. destruct (Hrem other Ho) as [Hol Hne].
  exists time, op, best, other, mean. split_and!; try done.
  destruct (Hbeyond other Hol) as (rs & lst & t & Hrs & Hlast & Htime & Hle).
  exists rs, lst, t. rewrite Eta in Htime. by rewrite Er in Hrs.
Qed.

(** A comprehension raises when one of its conditions does. *)
Lemma filterM_raises {A} (c : A → result bool) l x :
  x ∈ l → (∃ e, c x = Err e) → ∃ e, filterM c l = Err e.
Proof.
  induction l as [|y l IH]; [by intros ?%not_elem_of_nil|].
  intros [->|Hx]%elem_of_cons [e He]; cbn; [rewrite He; by eexists|].
  destruct (c y) as [b|e']; [|by eexists]. cbn.
  destruct IH as [e' ->]; [done|by eexists|]. by eexists.
Qed.

(** A trial that completes with a result that lacks the time attribute (it is
    stopped before it reported, say) breaks the median rule: [on_trial_result] skips
    such results, [on_trial_complete] keeps them, and from then on every result of
    another trial past the grace period raises, because the rule looks up the time
    of the last result of every trial. *)
Theorem incomplete_completion_breaks_median live s id r0 other r time :
  let s1 := median_on_trial_complete id r0 s in
  dget (m_time_attr s) r0 = None →
  other ≠ id → other ∉ _stopped_trials s → median_time s r = Some (Some time) →
  (_grace_period s <= time)%Q →
  ∃ s2 e, median_on_trial_result live other r s1 = (s2, Err e).
Proof.
  intros s1 Hr0 Hne Hns Ht Hg. unfold TuneStopping.median_on_trial_result.
  unfold mbind, st_bind, st_get, st_lift, st_modify, mret, st_ret. cbv beta iota.
  change (median_time s1 r) with (median_time s r). rewrite Ht. cbv beta iota.
  rewrite bool_decide_false by done. cbn.
  change (_grace_period (append_result other r s1)) with (_grace_period s).
  rewrite (proj2 (Qltb_false _ _)) by done.
  assert (∃ e, _trials_beyond_time time (append_result other r s1) = Err e) as [e ->]; [|by eauto].
  assert (dget id (_results (append_result other r s1)) = Some (dget_def id [] (_results s) ++ [r0])) as Hid.
  { unfold append_result. cbn. rewrite dget_dset_ne by done. unfold s1, median_on_trial_complete.
    unfold append_result. cbn. apply dget_dset_eq. }
  unfold _trials_beyond_time.
  destruct (filterM_raises (λ p : string * list Result,
     r0 ← of_option IndexError (last p.2); t ← field (m_time_attr (append_result other r s1)) r0;
     Ok (Qle_bool time t)) _ _ (dget_Some_elem _ _ _ Hid)) as [e ->]; [|by eexists].
  cbn [snd]. rewrite last_snoc. cbn [of_option mbind result_bind]. unfold field, dget_exn.
  change (m_time_attr (append_result other r s1)) with (m_time_attr s). rewrite Hr0. by eexists.
Qed.
End median.

(** ** Examples *)

Module StoppingExamples.
#[local] Open Scope Q_scope.

(** numpy's percentile: linear interpolation between the closest ranks. *)
Definition sorted (l : list Q) : list Q := py_sorted Qcompare id l.
Definition rank (l : list Q) (k : nat) : Q := nth k (sorted l) (hd 0 l).

Definition percentile (l : list Q) (p : Q) : Q :=
  let h := inject_Z (len l - 1) * p / 100 in
  let f := h - inject_Z (Qround.Qfloor h) in
  rank l (Z.to_nat (Qround.Qfloor h)) * (1 - f) + rank l (Z.to_nat (Qround.Qceiling h)) * f.

Lemma rank_elem l k : l ≠ [] → rank l k ∈ l.
Proof.
  intros Hl. unfold rank. destruct (nth_in_or_default k (sorted l) (hd 0 l)) as [Hin| ->].
  - apply list_elem_of_In in Hin. by apply elem_of_stable_sort in Hin.
  - destruct l; [done|left].
Qed.

Lemma percentile_at_most l p m :
  l ≠ [] → Forall (λ v, v <= m) l → percentile l p <= m.
Proof.
  intros Hl Hall. unfold percentile.
  set (h := inject_Z (len l - 1) * p / 100).
  pose proof (Qround.Qfloor_le h). pose proof (Qround.Qlt_floor h) as Hfl.
  rewrite inject_Z_plus in Hfl. change (inject_Z 1) with 1 in Hfl.
  set (f := h - inject_Z (Qround.Qfloor h)). assert (0 <= f <= 1) by (unfold f; lra).
  pose proof (proj1 (Forall_forall _ _) Hall _ (rank_elem l (Z.to_nat (Qround.Qfloor h)) Hl)).
  pose proof (proj1 (Forall_forall _ _) Hall _ (rank_elem l (Z.to_nat (Qround.Qceiling h)) Hl)).
  cbn in *. nra.
Qed.

Definition rungs (_ _ _ : Q) (_ : Z) : Z := 4.

Definition result_of (t v : Q) : Result := [("t"%string, Some t); ("acc"%string, Some v)].

Definition get {A} (dflt : A) (r : result A) : A := match r with Ok a => a | Err _ => dflt end.

Definition asha_empty : AsyncHyperBandScheduler :=
  {| _max_t := 0; _trial_info := []; _brackets := []; _num_stopped := 0; _metric := None;
     _mode := None; _metric_op := None; _time_attr := ""; _stop_last_trials := true |}.

(** Two trials are added; the first reports an accuracy of 1/2 at time 1. *)
Definition asha_new : AsyncHyperBandScheduler :=
  get asha_empty (asha_init rungs "t" (Some "acc"%string) (Some "max"%string) 10 1 2 1 true).
Definition asha_a : AsyncHyperBandScheduler := get asha_empty (asha_on_trial_add 0 "a" asha_new).
Definition asha_ab : AsyncHyperBandScheduler := get asha_empty (asha_on_trial_add 0 "b" asha_a).
Definition asha_now : AsyncHyperBandScheduler :=
  get asha_empty (fst <$> asha_on_trial_result percentile "a" (result_of 1 (1 # 2)) asha_ab).
Definition asha_later : AsyncHyperBandScheduler :=
  get asha_empty (asha_on_trial_remove "a" asha_now).

Lemma asha_now_reachable : asha_reachable percentile rungs 1 asha_now.
Proof.
  exists "t"%string, (Some "acc"%string), (Some "max"%string), 10, 2, 1%Z, true, asha_new.
  split; [vm_compute; reflexivity|].
  apply (rtc_l _ _ asha_a); [apply (step_add _ _ _ 0 "a"); vm_compute; reflexivity|].
  apply (rtc_l _ _ asha_ab); [apply (step_add _ _ _ 0 "b"); vm_compute; reflexivity|].
  apply rtc_once, (step_result _ _ _ "a" (result_of 1 (1 # 2)) CONTINUE). vm_compute. reflexivity.
Defined.

Lemma asha_stop_sound_witness :
  ∃ t, dget (_time_attr asha_now) (result_of 1 (1 # 3)) = Some (Some t) ∧
    ((_max_t asha_now <= t ∧ _stop_last_trials asha_now = true) ∨
     ∃ i b milestone rec v rew other best,
       dget "b"%string (_trial_info asha_now) = Some i ∧ _brackets asha_now !! i = Some b ∧
       (milestone, rec) ∈ _rungs b ∧ 1 <= milestone <= t ∧
       (_metric asha_now ≫= λ m, dget m (result_of 1 (1 # 3))) = Some v ∧
       signed (_metric_op asha_now) v = Ok rew ∧
       other ≠ "b"%string ∧ (other, best) ∈ rec ∧ rew < best).
Proof.
  eapply (asha_stop_sound percentile rungs 1 percentile_at_most asha_now _ "b" (result_of 1 (1 # 3))).
  - exact asha_now_reachable.
  - vm_compute. reflexivity.
Defined.

Lemma asha_rewards_written_once_witness :
  reward_at (_brackets asha_later) 0 3 "a" = Some (1 # 2).
Proof.
  apply (asha_rewards_written_once percentile asha_now).
  - apply rtc_once, (step_remove _ _ _ "a"). vm_compute. reflexivity.
  - vm_compute. reflexivity.
Defined.

(** *** The median rule *)

Definition mean (l : list Q) : option Q :=
  match l with [] => None | _ => Some (sumQ l / inject_Z (len l)) end.

Definition median (l : list (option Q)) : option Q :=
  if existsb (λ o, match o with None => true | Some _ => false end) l then None
  else let vs := omap id l in
       Some ((rank vs (length vs / 2) + rank vs ((length vs - 1) / 2)) * (1 # 2)).

Lemma median_in_range op l b :
  l ≠ [] → Forall (λ o, ∃ v, o = Some v ∧ no_better op v b) l →
  ∃ m, median l = Some m ∧ no_better op m b.
Proof.
  intros Hl Hall. unfold median.
  assert (existsb (λ o : option Q, match o with None => true | Some _ => false end) l = false) as ->
    by (clear Hl; induction Hall as [|o l (v & -> & _) _ IH]; cbn; done).
  eexists; split; [done|]. set (vs := omap id l).
  assert (Forall (λ v, no_better op v b) vs ∧ vs ≠ []) as [Hvs Hne].
  { unfold vs. destruct Hall as [|o l (v & -> & Hv) Hall]; [done|]. cbn. split; [|done].
    constructor; [done|]. clear -Hall. induction Hall as [|o l (v & -> & Hv) Hall IH]; [done|].
    cbn. by constructor. }
  pose proof (proj1 (Forall_forall _ _) Hvs _ (rank_elem vs (length vs / 2) Hne)) as H1.
  pose proof (proj1 (Forall_forall _ _) Hvs _ (rank_elem vs ((length vs - 1) / 2) Hne)) as H2.
  destruct op; cbn in *; lra.
Qed.

Definition rule_with (results : dict string (list Result)) : MedianStoppingRule :=
  {| _stopped_trials := []; _grace_period := 5; _min_samples_required := 1; _min_time_slice := 0;
     m_metric := Some "acc"%string; _compare_op := Some OpMax; m_mode := Some "max"%string;
     m_time_attr := "t"; _hard_stop := true; _last_pause := []; _results := results |}.

Definition rule : MedianStoppingRule :=
  rule_with [("a"%string, [result_of 5 (1 # 2); result_of 7 (3 # 4)])].

Lemma median_stop_sound_witness :
  let s1 := append_result "b" (result_of 6 (1 # 3)) rule in
  ∃ time op best other mn,
    median_time rule (result_of 6 (1 # 3)) = Some (Some time) ∧ _hard_stop rule = true ∧
    _grace_period rule <= time ∧ _compare_op rule = Some op ∧ _best_result "b" s1 = Ok best ∧
    other ≠ "b"%string ∧
    (∃ rs l t, dget other (_results rule) = Some rs ∧ last rs = Some l ∧
               field (m_time_attr rule) l = Ok t ∧ time <= t) ∧
    _running_mean mean time s1 other = Ok mn ∧
    match mn with Some m => better op m best | None => True end.
Proof.
  eapply (median_stop_sound mean median median_in_range [] "b" (result_of 6 (1 # 3)) rule).
  - apply (bool_decide_unpack (NoDup _)). vm_compute. exact I.
  - done.
  - vm_compute. reflexivity.
Defined.

Lemma incomplete_completion_breaks_median_witness :
  ∃ s2 e, median_on_trial_result mean median [] "b" (result_of 6 (1 # 3))
            (median_on_trial_complete "c" [] rule) = (s2, Err e).
Proof.
  apply (incomplete_completion_breaks_median mean median [] rule "c" [] "b" (result_of 6 (1 # 3)) 6).
  - reflexivity.
  - done.
  - apply not_elem_of_nil.
  - reflexivity.
  - vm_compute. congruence.
Defined.

(** The median rule stops a trial for want of data.  The only other trial reports
    every ten time units; when this trial reports at time 6 an accuracy above all
    that the other one has reported, the other one has no result between the grace
    period and time 6, the mean of its results is NaN, and the trial is stopped. *)
Theorem median_stops_on_nan (np_mean : list Q → option Q) (np_median : list (option Q) → option Q) :
  np_mean [] = None → (∀ l, None ∈ l → np_median l = None) →
  (median_on_trial_result np_mean np_median [] "b" (result_of 6 (9 # 10))
     (rule_with [("a"%string, [result_of 10 (1 # 2)])])).2 = Ok STOP.
Proof.
  intros Hmean Hmedian. vm_compute. rewrite Hmean. rewrite Hmedian by left. reflexivity.
Qed.

Lemma median_stops_on_nan_witness :
  (median_on_trial_result mean median [] "b" (result_of 6 (9 # 10))
     (rule_with [("a"%string, [result_of 10 (1 # 2)])])).2 = Ok STOP.
Proof.
  apply (median_stops_on_nan mean median).
  - reflexivity.
  - intros l Hin. unfold median.
    rewrite (proj2 (existsb_exists _ l)); [done|]. exists None. split; [by apply list_elem_of_In|done].
Defined.
End StoppingExamples.
