(* ===== verification/TuneHyperBand.v ===== *)
(** * HyperBand (tune/schedulers/hyperband.py)

    Trials are put into brackets, brackets into bands.  A trial pauses at the
    milestone of its bracket; when all live trials of the bracket are there, the
    worse ones are stopped and the rest resumes, up to the next milestone.  The
    state of the trials is shared with the trial runner: stopping a trial calls the
    scheduler back ([stop_trial]), so the operations here are recursive, with the
    depth of the calls as fuel. *)
From S2P Require Import Prelude PyLists TuneStopping.
From stdpp Require Import base tactics list strings.
From Stdlib Require Import QArith Qround.

#[local] Open Scope Z_scope.

(** ** Brackets *)

Record HBracket := {
  _live_trials : dict string (option Result);
  _all_trials : list string;
  b_time_attr : string;
  _n : Z;
  _r : Z;
  b_max_t_attr : Z;
  _cumul_r : Z;
  b_eta : Q;
  _halves : Z;
  _total_work : Z;
  _completed_progress : Q;
  stop_last_trials : bool;
}.

Section bracket.
Implicit Types (b : HBracket) (id : string).

(** [int(np.ceil(n / eta))] *)
Definition shrink (n : Z) (eta : Q) : Z := Qceiling (inject_Z n / eta).

(** [int(min(r * eta, max_t - cumulative_r))] *)
Definition next_r (r : Z) (eta : Q) (max_t cumul_r : Z) : Z :=
  let m := inject_Z (max_t - cumul_r) in
  let x := (inject_Z r * eta)%Q in
  py_int (if Qltb m x then m else x).

(** The loop of [_calculate_total_work]. *)
Fixpoint total_work_loop (rounds : nat) (n r : Z) (eta : Q) (max_t cumul_r work : Z) : Z :=
  match rounds with
  | O => work
  | S rounds =>
      total_work_loop rounds (shrink n eta) (next_r r eta max_t cumul_r) eta max_t cumul_r
        (work + n * r)
  end.

Definition _calculate_total_work (n r s : Z) (eta : Q) (max_t : Z) : Z :=
  total_work_loop (Z.to_nat (s + 1)) n r eta max_t r 0.

Definition hb_bracket_init (time_attr : string) (max_trials init_t_attr max_t_attr : Z) (eta : Q)
    (s : Z) (stop_last : bool) : HBracket :=
  {| _live_trials := []; _all_trials := []; b_time_attr := time_attr; _n := max_trials;
     _r := init_t_attr; b_max_t_attr := max_t_attr; _cumul_r := init_t_attr; b_eta := eta;
     _halves := s; _total_work := _calculate_total_work max_trials init_t_attr s eta max_t_attr;
     _completed_progress := 0; stop_last_trials := stop_last |}.

(** The changes to the live trials and the progress. *)
Definition with_live b (live : dict string (option Result)) (all : list string) (progress : Q) :
    HBracket :=
  {| _live_trials := live; _all_trials := all; b_time_attr := b_time_attr b; _n := _n b;
     _r := _r b; b_max_t_attr := b_max_t_attr b; _cumul_r := _cumul_r b; b_eta := b_eta b;
     _halves := _halves b; _total_work := _total_work b; _completed_progress := progress;
     stop_last_trials := stop_last_trials b |}.

Definition filled b : bool := len (_live_trials b) =? _n b.

Definition add_trial id b : result HBracket :=
  _ ← py_assert (negb (filled b));
  Ok (with_live b (dset id None (_live_trials b)) (_all_trials b ++ [id]) (_completed_progress b)).

Definition _get_result_time b (r : option Result) : result Q :=
  match r with None => Ok 0%Q | Some r => field (b_time_attr b) r end.

(** [all(... for result in results)] *)
Fixpoint all_reached b (rs : list (option Result)) : result bool :=
  match rs with
  | [] => Ok true
  | r :: rs =>
      t ← _get_result_time b r;
      if Qle_bool (inject_Z (_cumul_r b)) t then all_reached b rs else Ok false
  end.

Definition cur_iter_done b : result bool := all_reached b (dvalues (_live_trials b)).

Definition finished b : result bool :=
  if negb (stop_last_trials b) then Ok false
  else if _halves b =? 0 then cur_iter_done b else Ok false.

Definition current_trials b : list string := dkeys (_live_trials b).

Definition continue_trial id b : result bool :=
  r ← dget_exn id (_live_trials b);
  if negb (stop_last_trials b) && (_halves b =? 0) then Ok true
  else t ← _get_result_time b r; Ok (Qltb t (inject_Z (_cumul_r b))).

(** [metric_op * self._live_trials[t][metric]] *)
Definition signed_metric (metric : option string) (op : option Q) b id : result Q :=
  r ← dget_exn id (_live_trials b);
  r ← of_option TypeError r;
  op ← of_option TypeError op;
  m ← of_option KeyError metric;
  v ← field m r;
  Ok (op * v)%Q.

(** The keys are computed once, before sorting. *)
Definition sort_trials (metric : option string) (op : option Q) b : result (list string) :=
  keyed ← mapM (λ id, k ← signed_metric metric op b id; Ok (id, k)) (current_trials b);
  Ok (fst <$> py_sorted Qcompare snd keyed).

(** What a halving changes before it sorts. *)
Definition halve b : HBracket :=
  let r := next_r (_r b) (b_eta b) (b_max_t_attr b) (_cumul_r b) in
  {| _live_trials := _live_trials b; _all_trials := _all_trials b;
     b_time_attr := b_time_attr b; _n := shrink (_n b) (b_eta b); _r := r;
     b_max_t_attr := b_max_t_attr b; _cumul_r := r; b_eta := b_eta b;
     _halves := _halves b - 1; _total_work := _total_work b;
     _completed_progress := _completed_progress b; stop_last_trials := stop_last_trials b |}.

Definition successive_halving (metric : option string) (op : option Q) :
    ST HBracket (list string * list string) :=
  b ← st_get;
  if (_halves b =? 0) && negb (stop_last_trials b) then mret (current_trials b, [])
  else
    _ ← st_lift (py_assert (0 <? _halves b));
    _ ← st_modify halve;
    b ← st_get;
    sorted_trials ← st_lift (sort_trials metric op b);
    mret (py_slice (- _n b) None sorted_trials, py_slice 0 (Some (- _n b)) sorted_trials).

Definition update_trial_stats id (r : Result) b : result HBracket :=
  last ← of_option AssertionError (dget id (_live_trials b));
  observed_time ← _get_result_time b (Some r);
  _ ← py_assert (Qle_bool 0 observed_time);
  last_observed ← _get_result_time b last;
  Ok (with_live b (dset id (Some r) (_live_trials b)) (_all_trials b)
        (_completed_progress b + (observed_time - last_observed))%Q).

Definition cleanup_trial id b : HBracket :=
  with_live b (ddel id (_live_trials b)) (_all_trials b) (_completed_progress b).

Definition completion_percentage b : result Q :=
  f ← finished b;
  if (f : bool) then Ok 1%Q
  else if _total_work b =? 0 then Err ZeroDivisionError
  else let p := (_completed_progress b / inject_Z (_total_work b))%Q in
       Ok (if Qltb 1 p then 1%Q else p).
End bracket.

(** ** The scheduler *)

(** A bracket is referred to by its band and its place there. *)
Abbreviation bref := (nat * nat)%type.

Record HyperBandScheduler := {
  _eta : Q;
  _s_max_1 : Z;
  _max_t_attr : Z;
  _hyperbands : list (list (option HBracket));
  hb_trial_info : dict string (bref * nat);
  state_bracket : option bref;
  state_band_idx : nat;
  hb_num_stopped : Z;
  hb_metric : option string;
  hb_mode : option string;
  hb_metric_op : option Q;
  hb_time_attr : string;
  hb_stop_last_trials : bool;
}.

(** The scheduler with the statuses of the trials, which the trial runner shares. *)
Record world := { sched : HyperBandScheduler; statuses : dict string TrialStatus }.

Section scheduler.
Implicit Types (h : HyperBandScheduler) (id : string) (w : world).

(** [s_max_1] is [int(np.round(np.log(max_t) / np.log(reduction_factor))) + 1]. *)
Definition hyperband_init (s_max_1 : Z) (time_attr : string) (metric mode : option string)
    (max_t : Z) (reduction_factor : Q) (stop_last : bool) : result HyperBandScheduler :=
  _ ← py_assert (0 <? max_t);
  _ ← (if truthy mode
       then py_assert (bool_decide (mode ∈ [Some "min"; Some "max"]%string)) else Ok tt);
  Ok {| _eta := reduction_factor; _s_max_1 := s_max_1; _max_t_attr := max_t;
        _hyperbands := [[]]; hb_trial_info := []; state_bracket := None; state_band_idx := 0;
        hb_num_stopped := 0; hb_metric := metric; hb_mode := mode;
        hb_metric_op := metric_op_of mode None; hb_time_attr := time_attr;
        hb_stop_last_trials := stop_last |}.

Definition _get_n0 h (s : Z) : Z :=
  Qceiling (inject_Z (_s_max_1 h) / inject_Z (s + 1) * Qpower (_eta h) s).

Definition _get_r0 h (s : Z) : Z := py_int (inject_Z (_max_t_attr h) * Qpower (_eta h) (- s)).

Definition hb_set_search_properties (metric mode : option string) h : HyperBandScheduler * bool :=
  if truthy (hb_metric h) && truthy metric then (h, false)
  else if truthy (hb_mode h) && truthy mode then (h, false)
  else
    let metric' := if truthy metric then metric else hb_metric h in
    let mode' := if truthy mode then mode else hb_mode h in
    let metric'' :=
      match metric' with
      | None => if truthy mode' then Some DEFAULT_METRIC else None
      | Some m => Some m
      end in
    ({| _eta := _eta h; _s_max_1 := _s_max_1 h; _max_t_attr := _max_t_attr h;
        _hyperbands := _hyperbands h; hb_trial_info := hb_trial_info h;
        state_bracket := state_bracket h; state_band_idx := state_band_idx h;
        hb_num_stopped := hb_num_stopped h; hb_metric := metric''; hb_mode := mode';
        hb_metric_op := metric_op_of mode' (hb_metric_op h); hb_time_attr := hb_time_attr h;
        hb_stop_last_trials := hb_stop_last_trials h |}, true).

Definition with_bands h (bands : list (list (option HBracket))) (info : dict string (bref * nat))
    (cur : option bref) (idx : nat) (stopped : Z) : HyperBandScheduler :=
  {| _eta := _eta h; _s_max_1 := _s_max_1 h; _max_t_attr := _max_t_attr h; _hyperbands := bands;
     hb_trial_info := info; state_bracket := cur; state_band_idx := idx; hb_num_stopped := stopped;
     hb_metric := hb_metric h; hb_mode := hb_mode h; hb_metric_op := hb_metric_op h;
     hb_time_attr := hb_time_attr h; hb_stop_last_trials := hb_stop_last_trials h |}.

Definition band (h : HyperBandScheduler) (i : nat) : result (list (option HBracket)) :=
  of_option IndexError (_hyperbands h !! i).

(** The bracket a reference points to. *)
Definition get_bracket h (r : bref) : result HBracket :=
  bd ← band h r.1; o ← of_option IndexError (bd !! r.2); of_option AttributeError o.

Definition set_bracket (r : bref) (b : HBracket) h : HyperBandScheduler :=
  with_bands h (alter (λ bd, <[r.2:=Some b]> bd) r.1 (_hyperbands h)) (hb_trial_info h)
    (state_bracket h) (state_band_idx h) (hb_num_stopped h).

Definition _create_bracket h (s : Z) : HBracket :=
  hb_bracket_init (hb_time_attr h) (_get_n0 h s) (_get_r0 h s) (_max_t_attr h) (_eta h) s
    (hb_stop_last_trials h).

Definition _cur_band_filled h : result bool :=
  cur_band ← band h (state_band_idx h); Ok (len cur_band =? _s_max_1 h).

(** The loop [while retry] of [on_trial_add]. *)
Fixpoint retry_loop (fuel : nat) h : result HyperBandScheduler :=
  match fuel with
  | O => Err OutOfFuel
  | S fuel =>
      full ← _cur_band_filled h;
      let h := if (full : bool)
               then with_bands h (_hyperbands h ++ [[]]) (hb_trial_info h) (state_bracket h)
                      (S (state_band_idx h)) (hb_num_stopped h)
               else h in
      cur_band ← band h (state_band_idx h);
      let s := len cur_band in
      _ ← py_assert (s <? _s_max_1 h);
      let append (o : option HBracket) (cur : option bref) :=
        with_bands h (alter (λ bd, bd ++ [o]) (state_band_idx h) (_hyperbands h)) (hb_trial_info h)
          cur (state_band_idx h) (hb_num_stopped h) in
      if _get_r0 h s =? 0 then retry_loop fuel (append None None)
      else Ok (append (Some (_create_bracket h s)) (Some (state_band_idx h, length cur_band)))
  end.

(** Whether a new bracket is needed. *)
Definition needs_bracket h : result bool :=
  match state_bracket h with
  | None => Ok true
  | Some r => b ← get_bracket h r; Ok (filled b)
  end.

Definition hb_on_trial_add (fuel : nat) id h : result HyperBandScheduler :=
  if negb (truthy (hb_metric h)) || match hb_metric_op h with None => true | _ => false end
  then Err ValueError
  else
    need ← needs_bracket h;
    h ← (if (need : bool) then retry_loop fuel h else Ok h);
    r ← of_option AttributeError (state_bracket h);
    b ← get_bracket h r;
    b ← add_trial id b;
    let h := set_bracket r b h in
    Ok (with_bands h (_hyperbands h) (dset id (r, state_band_idx h) (hb_trial_info h))
          (state_bracket h) (state_band_idx h) (hb_num_stopped h)).

(** *** Brackets make progress *)

Definition on_sched (f : HyperBandScheduler → HyperBandScheduler) : ST world unit :=
  st_modify (λ w, {| sched := f (sched w); statuses := statuses w |}).

Definition read_bracket (r : bref) : ST world HBracket :=
  w ← st_get; st_lift (get_bracket (sched w) r).

Definition write_bracket (r : bref) (b : HBracket) : ST world unit := on_sched (set_bracket r b).

Definition get_status id : ST world TrialStatus :=
  w ← st_get; st_lift (dget_exn id (statuses w)).

Definition set_trial_status id (st : TrialStatus) : ST world unit :=
  st_modify (λ w, {| sched := sched w; statuses := dset id st (statuses w) |}).

Definition add_num_stopped (n : Z) h : HyperBandScheduler :=
  with_bands h (_hyperbands h) (hb_trial_info h) (state_bracket h) (state_band_idx h)
    (hb_num_stopped h + n).

(** [_trial_info[trial]], the bracket *)
Definition info_bracket id : ST world bref :=
  w ← st_get; p ← st_lift (dget_exn id (hb_trial_info (sched w))); mret p.1.

Section callbacks.
(** [trial_runner.stop_trial] *)
Context (stop_trial : string → ST world unit).

(** The loop over the bad trials; the decision so far is returned. *)
Fixpoint kill_bad (r : bref) (bad : list string) (action : SchedulerDecision) :
    ST world SchedulerDecision :=
  match bad with
  | [] => mret action
  | t :: bad =>
      st ← get_status t;
      match st with
      | PAUSED => _ ← stop_trial t; kill_bad r bad action
      | RUNNING => b ← read_bracket r; _ ← write_bracket r (cleanup_trial t b); kill_bad r bad STOP
      | _ => st_raise TuneError
      end
  end.

(** The loop over the good trials. *)
Fixpoint ready_good (r : bref) (good : list string) (action : SchedulerDecision) :
    ST world SchedulerDecision :=
  match good with
  | [] => mret action
  | t :: good =>
      st ← get_status t;
      if bool_decide (st ∈ [PAUSED; RUNNING]) then
        b ← read_bracket r;
        c ← st_lift (continue_trial t b);
        if (c : bool) then
          match st with
          | PAUSED => _ ← set_trial_status t PENDING; ready_good r good action
          | _ => ready_good r good CONTINUE
          end
        else ready_good r good action
      else st_raise TuneError
  end.

Definition cleanup_full (b : HBracket) : ST world unit :=
  st_for (current_trials b) (λ t,
    st ← get_status t;
    if decide (st = PAUSED) then stop_trial t else mret tt).

Definition process_bracket_with (r : bref) : ST world SchedulerDecision :=
  b ← read_bracket r;
  done ← st_lift (cur_iter_done b);
  if (done : bool) then
    fin ← st_lift (finished b);
    if (fin : bool) then _ ← cleanup_full b; mret STOP
    else
      w ← st_get;
      let '(b, halves) := successive_halving (hb_metric (sched w)) (hb_metric_op (sched w)) b in
      _ ← write_bracket r b;
      p ← st_lift halves;
      _ ← on_sched (add_num_stopped (len p.2));
      action ← kill_bad r p.2 PAUSE;
      ready_good r p.1 action
  else mret PAUSE.
End callbacks.

(** [on_trial_remove]; [process] is [_process_bracket]. *)
Definition on_trial_remove_with (process : bref → ST world SchedulerDecision) id : ST world unit :=
  r ← info_bracket id;
  b ← read_bracket r;
  let b := cleanup_trial id b in
  _ ← write_bracket r b;
  fin ← st_lift (finished b);
  if (fin : bool) then mret tt else _ ← process r; mret tt.

(** [TrialRunner.stop_trial], its part in this: it tells the scheduler, and the
    executor stops the trial.  Exceptions are passed on, as with
    [fail_fast="raise"]. *)
Definition stop_trial_with (remove : string → ST world unit) id : ST world unit :=
  st ← get_status id;
  if bool_decide (st ∈ [ERROR; TERMINATED]) then mret tt
  else _ ← remove id; set_trial_status id TERMINATED.

Fixpoint _process_bracket (depth : nat) (r : bref) : ST world SchedulerDecision :=
  match depth with
  | O => st_raise OutOfFuel
  | S depth =>
      process_bracket_with (stop_trial_with (on_trial_remove_with (_process_bracket depth))) r
  end.

Definition hb_on_trial_remove (depth : nat) id : ST world unit :=
  on_trial_remove_with (_process_bracket depth) id.

(** [on_trial_complete] and [on_trial_error] *)
Definition hb_on_trial_complete (depth : nat) id (_ : Result) : ST world unit :=
  hb_on_trial_remove depth id.
Definition hb_on_trial_error (depth : nat) id : ST world unit := hb_on_trial_remove depth id.

Definition hb_on_trial_result (depth : nat) id (res : Result) : ST world SchedulerDecision :=
  r ← info_bracket id;
  b ← read_bracket r;
  b ← st_lift (update_trial_stats id res b);
  _ ← write_bracket r b;
  c ← st_lift (continue_trial id b);
  if (c : bool) then mret CONTINUE else _process_bracket depth r.

(** *** Choosing a trial *)

(** The first pending trial with resources. *)
Fixpoint first_pending (has_resources : string → bool) (sts : dict string TrialStatus)
    (ids : list string) : result (option string) :=
  match ids with
  | [] => Ok None
  | id :: ids =>
      st ← dget_exn id sts;
      if bool_decide (st = PENDING) && has_resources id then Ok (Some id)
      else first_pending has_resources sts ids
  end.

(** [sorted(brackets, key=completion_percentage)] *)
Definition sort_brackets (bs : list HBracket) : result (list HBracket) :=
  keyed ← mapM (λ b, k ← completion_percentage b; Ok (b, k)) bs;
  Ok (fst <$> py_sorted Qcompare snd keyed).

Fixpoint choose_in_brackets (has_resources : string → bool) (sts : dict string TrialStatus)
    (bs : list HBracket) : result (option string) :=
  match bs with
  | [] => Ok None
  | b :: bs =>
      o ← first_pending has_resources sts (current_trials b);
      match o with Some id => Ok (Some id) | None => choose_in_brackets has_resources sts bs end
  end.

Fixpoint choose_in_bands (has_resources : string → bool) (sts : dict string TrialStatus)
    (bands : list (list (option HBracket))) : result (option string) :=
  match bands with
  | [] => Ok None
  | bd :: bands =>
      bs ← sort_brackets (omap id bd);
      o ← choose_in_brackets has_resources sts bs;
      match o with Some id => Ok (Some id) | None => choose_in_bands has_resources sts bands end
  end.

Definition hb_choose_trial_to_run (has_resources : string → bool) w : result (option string) :=
  choose_in_bands has_resources (statuses w) (_hyperbands (sched w)).
End scheduler.
