(* ===== verification/TuneHyperBandProofs.v ===== *)
(** * HyperBand: proofs *)
From S2P Require Import Prelude PyLists TuneStopping TuneHyperBand.
From stdpp Require Import base tactics list strings sorting sets.
From Stdlib Require Import QArith Qround Qpower Lqa.

#[local] Open Scope Z_scope.

(** ** Milestones *)

Section milestones.

Lemma py_int_floor q : (0 <= q)%Q → py_int q = Qfloor q.
Proof.
  destruct q as [n d]. unfold py_int, Qle. cbn. intros Hq. rewrite Z.quot_div_nonneg by lia. done.
Qed.

Lemma py_int_ge k q : 0 <= k → (inject_Z k <= q)%Q → k <= py_int q.
Proof.
  intros Hk Hq. assert (0 <= inject_Z k)%Q by (by rewrite (Zle_Qle 0 k) in Hk).
  rewrite py_int_floor by lra. rewrite <- (Qfloor_Z k). by apply Qfloor_resp_le.
Qed.

Lemma py_int_le q : (0 <= q)%Q → (inject_Z (py_int q) <= q)%Q.
Proof. intros Hq. rewrite py_int_floor by done. apply Qfloor_le. Qed.

(** The next milestone, when there is room for it. *)
Lemma next_r_bounds r eta max_t :
  (2 < eta)%Q → 1 <= r → (inject_Z r * eta <= inject_Z max_t)%Q →
  r < next_r r eta max_t r ∧ next_r r eta max_t r <= max_t - r ∧
  (inject_Z (next_r r eta max_t r) <= inject_Z r * eta)%Q.
Proof.
  intros Heta Hr Hmax. unfold next_r.
  assert (1 <= inject_Z r)%Q by (by rewrite (Zle_Qle 1 r) in Hr).
  assert (2 * r < max_t) as Hroom.
  { rewrite Zlt_Qlt, inject_Z_mult. change (inject_Z 2) with 2%Q. nra. }
  assert (inject_Z (r + 1) <= inject_Z (max_t - r))%Q as Ha by (rewrite <- Zle_Qle; lia).
  assert (inject_Z (r + 1) <= inject_Z r * eta)%Q as Hb.
  { rewrite inject_Z_plus. change (inject_Z 1) with 1%Q. nra. }
  set (m := inject_Z (max_t - r)) in *. set (x := (inject_Z r * eta)%Q) in *.
  assert (0 <= inject_Z (r + 1))%Q as Hr1 by (change 0%Q with (inject_Z 0); rewrite <- Zle_Qle; lia).
  assert (0 <= m)%Q as Hm0 by exact (Qle_trans _ _ _ Hr1 Ha).
  assert (0 <= x)%Q as Hx0 by exact (Qle_trans _ _ _ Hr1 Hb).
  destruct (Qltb m x) eqn:E; [apply Qltb_true in E|apply Qltb_false in E].
  - pose proof (py_int_ge (r + 1) m ltac:(lia) Ha). pose proof (py_int_le m Hm0) as Hle.
    split_and!; [lia| |]; [|exact (Qle_trans _ _ _ Hle (Qlt_le_weak _ _ E))].
    unfold m in *. by rewrite py_int_floor, Qfloor_Z by done.
  - pose proof (py_int_ge (r + 1) x ltac:(lia) Hb). pose proof (py_int_le x Hx0) as Hle.
    split_and!; [lia| |done]. rewrite Zle_Qle. exact (Qle_trans _ _ _ Hle E).
Qed.

(** The milestone leaves room for the halvings that are left. *)
Definition room b : Prop :=
  1 <= _cumul_r b ∧ _r b = _cumul_r b ∧ 0 <= _halves b ∧
  (inject_Z (_cumul_r b) * b_eta b ^ _halves b <= inject_Z (b_max_t_attr b))%Q.

Lemma halve_room b :
  (2 < b_eta b)%Q → room b → 0 < _halves b →
  room (halve b) ∧ _cumul_r b < _cumul_r (halve b) <= b_max_t_attr b.
Proof.
  intros Heta (Hc & Hr & _ & Hroom) Hh. unfold room, halve. cbn. rewrite Hr.
  assert (inject_Z (_cumul_r b) * b_eta b <= inject_Z (b_max_t_attr b))%Q as Hmax.
  { eapply Qle_trans; [|exact Hroom]. rewrite !(Qmult_comm (inject_Z _)).
    apply Qmult_le_compat_r; [|change 0%Q with (inject_Z 0); rewrite <- Zle_Qle; lia].
    rewrite <- (Qpower_1_r (b_eta b)) at 1. apply Qpower_le_compat_l; [lia|lra]. }
  destruct (next_r_bounds _ _ _ Heta Hc Hmax) as (H1 & H2 & H3). split_and!; try lia.
  assert (b_eta b ^ _halves b == b_eta b * b_eta b ^ (_halves b - 1))%Q as Hpow.
  { rewrite <- (Qpower_1_r (b_eta b)) at 2. rewrite <- Qpower_plus by lra.
    by replace (1 + (_halves b - 1)) with (_halves b) by lia. }
  assert (0 <= b_eta b ^ (_halves b - 1))%Q by (apply Qpower_0_le; lra).
  eapply Qle_trans; [|exact Hroom]. rewrite Hpow, Qmult_assoc. by apply Qmult_le_compat_r.
Qed.

(** A new bracket has room. *)
Lemma create_bracket_room h s :
  (2 < _eta h)%Q → 0 <= s → 0 < _max_t_attr h → _get_r0 h s ≠ 0 → room (_create_bracket h s).
Proof.
  intros Heta Hs Ht Hr0. unfold room, _create_bracket. cbn.
  assert (0 < inject_Z (_max_t_attr h))%Q by (change 0%Q with (inject_Z 0); by rewrite <- Zlt_Qlt).
  assert (0 < _eta h ^ (- s))%Q as Hp by (apply Qpower_0_lt; lra).
  assert (0 <= inject_Z (_max_t_attr h) * _eta h ^ (- s))%Q as Hq by nra.
  pose proof (py_int_le _ Hq) as Hle. fold (_get_r0 h s) in Hle.
  assert (0 <= _get_r0 h s).
  { unfold _get_r0. apply py_int_ge; [lia|]. exact Hq. }
  split_and!; [lia|done|done|].
  assert (0 < _eta h ^ s)%Q as Hps by (apply Qpower_0_lt; lra).
  assert (_eta h ^ (- s) * _eta h ^ s == 1)%Q as Hinv.
  { rewrite <- Qpower_plus by lra. by rewrite Z.add_opp_diag_l. }
  eapply Qle_trans; [apply Qmult_le_compat_r; [exact Hle|lra]|].
  rewrite <- Qmult_assoc, Hinv, Qmult_1_r. apply Qle_refl.
Qed.

(** C25: the milestones of a HyperBand bracket grow.  With a reduction factor above 2 and
    a positive [max_t], each of the [s] halvings of a new bracket of index [s], if its
    first milestone is not 0 (brackets with that one are skipped), raises the milestone,
    and no milestone exceeds [max_t]: the surviving trials always have something to run
    for, and never run longer than allowed. *)
Theorem hyperband_milestones_grow h s k :
  (2 < _eta h)%Q → 0 <= s → 0 < _max_t_attr h → _get_r0 h s ≠ 0 → Z.of_nat k < s →
  let milestone j := _cumul_r (Nat.iter j halve (_create_bracket h s)) in
  milestone k < milestone (S k) <= _max_t_attr h.
Proof.
  intros Heta Hs Ht Hr0 Hk.
  assert (∀ j, Z.of_nat j <= s → let b := Nat.iter j halve (_create_bracket h s) in
            room b ∧ b_eta b = _eta h ∧ b_max_t_attr b = _max_t_attr h ∧ _halves b = s - Z.of_nat j)
    as Hinv.
  { induction j as [|j IH]; intros Hj b.
    - split_and!; try done; [by apply create_bracket_room|cbn; lia].
    - destruct IH as (Hroom & He & Hm & Hh); [lia|].
      change b with (halve (Nat.iter j halve (_create_bracket h s))).
      split_and!; [|done|done|cbn [halve _halves]; lia].
      apply halve_room; [by rewrite He|done|lia]. }
  destruct (Hinv k ltac:(lia)) as (Hroom & He & Hm & Hh).
  rewrite <- Hm. apply halve_room; [by rewrite He|done|lia].
Qed.
End milestones.

(** ** Halving *)

Section halving.
Implicit Types (b : HBracket) (w : world) (id : string).

(** The order by keys. *)
Abbreviation key_before := (λ x y : string * Q,
  match Qcompare x.2 y.2 with Gt => false | _ => true end).

Lemma key_before_spec x y : key_before x y = true ↔ (x.2 <= y.2)%Q.
Proof.
  cbn. unfold Qle. unfold Qcompare.
  destruct (Z.compare_spec (Qnum x.2 * Zpos (Qden y.2)) (Qnum y.2 * Zpos (Qden x.2))); split; lia || done.
Qed.

(** Sorting the live trials by score. *)
Lemma sort_trials_spec metric op b (score : string → Q) :
  (∀ id, id ∈ current_trials b → signed_metric metric op b id = Ok (score id)) →
  ∃ l, sort_trials metric op b = Ok l ∧ l ≡ₚ current_trials b ∧
       StronglySorted (λ x y, (score x <= score y)%Q) l.
Proof.
  intros Hs. unfold sort_trials.
  rewrite (mapM_total _ (λ id, (id, score id))) by (intros id Hid; by rewrite Hs).
  cbn. eexists; split; [done|]. split.
  - rewrite py_sorted_perm, <- list_fmap_compose. by rewrite list_fmap_id.
  - set (keyed := (λ id, (id, score id)) <$> current_trials b).
    assert (StronglySorted (λ x y, key_before x y = true) (py_sorted Qcompare snd keyed)) as Hsort.
    { apply (stable_sort_sorted key_before).
      - intros x y Hxy. apply key_before_spec. apply not_true_iff_false in Hxy.
        rewrite key_before_spec in Hxy. lra.
      - intros x y z Hx Hy. apply key_before_spec in Hx, Hy. apply key_before_spec. lra. }
    assert (Forall (λ x : string * Q, x.2 = score x.1) (py_sorted Qcompare snd keyed)) as Hkeys.
    { rewrite py_sorted_perm. by apply Forall_fmap, Forall_forall. }
    revert Hsort Hkeys. generalize (py_sorted Qcompare snd keyed).
    induction 1 as [|x l Hl IH Hx]; cbn; [constructor|].
    intros [Hkx Hk]%Forall_cons. constructor; [auto|]. apply Forall_fmap.
    apply Forall_forall. intros y Hy. cbn.
    rewrite <- Hkx, <- (proj1 (Forall_forall _ _) Hk y Hy). apply key_before_spec.
    by apply (proj1 (Forall_forall _ _) Hx).
Qed.

(** The better [n] trials are good. *)
Lemma split_good_bad (score : string → Q) (n : Z) l :
  0 < n → StronglySorted (λ x y, (score x <= score y)%Q) l →
  let good := py_slice (- n) None l in
  let bad := py_slice 0 (Some (- n)) l in
  good ++ bad ≡ₚ l ∧ len good = Z.min n (len l) ∧
  ∀ g x, g ∈ good → x ∈ bad → (score x <= score g)%Q.
Proof.
  intros Hn Hs good bad. unfold good, bad. destruct (py_slice_last n l Hn) as [-> ->].
  set (k := (length l - Z.to_nat n)%nat). split_and!.
  - rewrite <- (take_drop k l) at 3. apply Permutation_app_comm.
  - unfold len, k. rewrite length_drop. lia.
  - rewrite <- (take_drop k l) in Hs. intros g x Hg Hx.
    exact (StronglySorted_app_1_elem_of _ _ _ x g Hs Hx Hg).
Qed.

(** *** The shared state *)

Lemma get_set_bracket h r b b' :
  get_bracket h r = Ok b → get_bracket (set_bracket r b' h) r = Ok b'.
Proof.
  unfold get_bracket, band, set_bracket. intros Hg. inv_ok. cbn.
  rewrite list_lookup_alter, H, decide_True by done. cbn. rewrite list_lookup_insert_eq; [done|].
  by eapply lookup_lt_Some.
Qed.

Lemma wp_read_bracket r b (Q : HBracket → world → Prop) w :
  get_bracket (sched w) r = Ok b → Q b w → wp (read_bracket r) Q w.
Proof.
  intros Hb HQ. exists w, b. split; [|done].
  unfold read_bracket, mbind, st_bind, st_get, st_lift. by rewrite Hb.
Qed.

Lemma wp_get_status id st (Q : TrialStatus → world → Prop) w :
  dget id (statuses w) = Some st → Q st w → wp (get_status id) Q w.
Proof.
  intros Hs HQ. exists w, st. split; [|done].
  unfold get_status, mbind, st_bind, st_get, st_lift, dget_exn. by rewrite Hs.
Qed.

Lemma wp_info_bracket id r i (Q : bref → world → Prop) w :
  dget id (hb_trial_info (sched w)) = Some (r, i) → Q r w → wp (info_bracket id) Q w.
Proof.
  intros Hs HQ. exists w, r. split; [|done].
  unfold info_bracket, mbind, st_bind, st_get, st_lift, dget_exn. by rewrite Hs.
Qed.

(** *** Iterations that are not done *)

Lemma all_reached_false b (rs : list (option Result)) :
  (∀ v, v ∈ rs → ∃ t, _get_result_time b v = Ok t) →
  (∃ v t, v ∈ rs ∧ _get_result_time b v = Ok t ∧ (t < inject_Z (_cumul_r b))%Q) →
  all_reached b rs = Ok false.
Proof.
  induction rs as [|v rs IH]; intros Hall (v0 & t0 & Hin & Ht0 & Hlt);
    [by apply not_elem_of_nil in Hin|].
  cbn. destruct (Hall v) as [t Ht]; [left|]. rewrite Ht. cbn.
  destruct (Qle_bool _ t) eqn:Hle; [|done]. apply Qle_bool_iff in Hle.
  apply elem_of_cons in Hin as [->|Hin]; [rewrite Ht in Ht0; simplify_eq; lra|].
  apply IH; [|by eauto]. intros v' Hv'. apply Hall. by right.
Qed.

Lemma elem_of_dvalues (d : dict string (option Result)) v :
  dict_wf d → v ∈ dvalues d ↔ ∃ id, dget id d = Some v.
Proof.
  intros Hwf. unfold dvalues. rewrite list_elem_of_fmap. split.
  - intros ([id v'] & -> & Hin). exists id. by apply dget_elem.
  - intros [id Hd]. exists (id, v). split; [done|]. by apply dget_Some_elem.
Qed.

(** Some live trial has still to get to the milestone. *)
Definition pending_iter b : Prop :=
  dict_wf (_live_trials b) ∧
  (∀ id v, dget id (_live_trials b) = Some v → ∃ t, _get_result_time b v = Ok t) ∧
  ∃ id v t, dget id (_live_trials b) = Some v ∧ _get_result_time b v = Ok t ∧
            (t < inject_Z (_cumul_r b))%Q.

Lemma pending_not_done b : pending_iter b → cur_iter_done b = Ok false ∧ finished b = Ok false.
Proof.
  intros (Hwf & Hall & id & v & t & Hv & Ht & Hlt).
  assert (cur_iter_done b = Ok false) as Hd.
  { apply all_reached_false.
    - intros v' [id' Hd]%elem_of_dvalues; [|done]. by eapply Hall.
    - exists v, t. split_and!; [|done|done]. apply elem_of_dvalues; [done|by exists id]. }
  split; [done|]. unfold finished. rewrite Hd. by repeat case_match.
Qed.

(** Then nothing happens. *)
Lemma process_pending stop r b w :
  get_bracket (sched w) r = Ok b → pending_iter b →
  process_bracket_with stop r w = (w, Ok PAUSE).
Proof.
  intros Hb [Hd _]%pending_not_done. unfold process_bracket_with.
  unfold mbind, st_bind, read_bracket, st_get, st_lift, mbind, st_bind. rewrite Hb, Hd. done.
Qed.

(** *** Stopping the bad trials *)

Section resume.
Context (w : world) (r : bref) (b1 : HBracket) (live : dict string (option Result)).
Context (good : list string) (d : nat).

(** [b1] after the trials [gone] have left. *)
Definition without (gone : list string) b : Prop :=
  dict_wf (_live_trials b) ∧
  (∀ id, dget id (_live_trials b) = if decide (id ∈ gone) then None else dget id live) ∧
  b = with_live b1 (_live_trials b) (_all_trials b1) (_completed_progress b1).

Definition killed (gone : list string) (w1 : world) : Prop :=
  (∃ b, get_bracket (sched w1) r = Ok b ∧ without gone b) ∧
  hb_trial_info (sched w1) = hb_trial_info (sched w) ∧
  ∀ id, dget id (statuses w1) =
    if decide (id ∈ gone ∧ dget id (statuses w) = Some PAUSED) then Some TERMINATED
    else dget id (statuses w).

Hypothesis live_times : ∀ id v, dget id live = Some v → ∃ t, _get_result_time b1 v = Ok t.
Hypothesis good_pending : ∀ id, id ∈ good → ∃ v t, dget id live = Some v ∧
  _get_result_time b1 v = Ok t ∧ (t < inject_Z (_cumul_r b1))%Q.

Lemma without_cleanup gone b id :
  without gone b → without (id :: gone) (cleanup_trial id b).
Proof.
  intros (Hwf & Hd & Hb). split_and!.
  - by apply ddel_wf.
  - intros id'. cbn. rewrite dget_ddel by done. rewrite Hd.
    repeat case_decide; set_solver.
  - rewrite Hb. done.
Qed.

Lemma without_pending gone b g :
  without gone b → g ∈ good → g ∉ gone → pending_iter b.
Proof.
  intros (Hwf & Hd & Hb) Hg Hng.
  assert (∀ v, _get_result_time b v = _get_result_time b1 v) as Htime by (by rewrite Hb).
  split_and!; [done| |].
  - intros id v. rewrite Hd, Htime. case_decide; [done|]. apply live_times.
  - destruct (good_pending g Hg) as (v & t & Hv & Ht & Hlt). exists g, v, t.
    rewrite Hd, Htime, decide_False by done. rewrite Hb. done.
Qed.

Lemma stop_trial_spec gone w1 t i g :
  killed gone w1 → t ∉ gone → dget t (statuses w) = Some PAUSED →
  dget t (hb_trial_info (sched w)) = Some (r, i) → g ∈ good → g ∉ t :: gone →
  wp (stop_trial_with (on_trial_remove_with (_process_bracket (S d))) t)
     (λ _, killed (t :: gone)) w1.
Proof.
  intros ((b & Hb & Hwo) & Hinfo & Hst) Ht Hp Hi Hg Hng.
  pose proof (without_cleanup _ _ t Hwo) as Hwo'.
  pose proof (without_pending _ _ g Hwo' Hg Hng) as Hpend.
  unfold stop_trial_with. wp_step.
  eapply wp_get_status; [rewrite Hst, decide_False by naive_solver; exact Hp|].
  rewrite bool_decide_false by set_solver. wp_step. unfold on_trial_remove_with. wp_step.
  eapply wp_info_bracket; [by rewrite Hinfo|]. wp_step.
  eapply wp_read_bracket; [exact Hb|]. wp_step. unfold write_bracket, on_sched. wp_step. wp_step.
  eapply wp_lift; [apply (pending_not_done _ Hpend)|]. cbn iota. wp_step.
  set (w2 := {| sched := _; statuses := _ |}).
  assert (get_bracket (sched w2) r = Ok (cleanup_trial t b)) as Hb2 by (by eapply get_set_bracket).
  exists w2, PAUSE. split; [cbn [_process_bracket]; by apply process_pending with (cleanup_trial t b)|].
  wp_step. unfold set_trial_status. wp_step. split_and!; [by exists (cleanup_trial t b)|done|].
  intros id. cbn. rewrite dget_dset, Hst. repeat case_decide; set_solver.
Qed.

Lemma killed_ext gone gone' w1 :
  (∀ id, id ∈ gone ↔ id ∈ gone') → killed gone w1 → killed gone' w1.
Proof.
  intros He ((b & Hb & Hwf & Hd & Heq) & Hinfo & Hst). split_and!; [|done|].
  - exists b. split; [done|]. unfold without. split_and!; [done| |done].
    intros id. rewrite Hd. apply decide_ext, He.
  - intros id. rewrite Hst. apply decide_ext. by rewrite He.
Qed.

Definition is_running id : bool := bool_decide (dget id (statuses w) = Some RUNNING).

(** What is known of a live trial. *)
Definition paused_or_running id : Prop :=
  (dget id (statuses w) = Some PAUSED ∨ dget id (statuses w) = Some RUNNING) ∧
  ∃ i, dget id (hb_trial_info (sched w)) = Some (r, i).

Lemma kill_bad_spec g bad gone w1 action :
  killed gone w1 → g ∈ good → g ∉ bad ++ gone → NoDup (bad ++ gone) →
  Forall paused_or_running bad →
  wp (kill_bad (stop_trial_with (on_trial_remove_with (_process_bracket (S d)))) r bad action)
     (λ a w2, killed (bad ++ gone) w2 ∧ a = if existsb is_running bad then STOP else action) w1.
Proof.
  intros Hk Hg. revert gone w1 action Hk.
  induction bad as [|t bad IH]; intros gone w1 action Hk Hng Hnd Hall; cbn [kill_bad].
  { wp_step. done. }
  apply Forall_cons in Hall as [[Hst [i Hi]] Hall]. cbn in Hnd. apply NoDup_cons in Hnd as [Ht Hnd].
  assert (∀ x, x ∈ bad ++ t :: gone ↔ x ∈ (t :: bad) ++ gone) as Hmem by set_solver.
  assert (NoDup (bad ++ t :: gone)) as Hnd' by (rewrite <- Permutation_middle; by constructor).
  assert (dget t (statuses w1) = dget t (statuses w)) as Hw1.
  { destruct Hk as (_ & _ & Hs). rewrite Hs. apply decide_False. set_solver. }
  wp_step. destruct Hst as [Hp|Hp].
  - eapply wp_get_status; [by rewrite Hw1|]. cbv iota. wp_step.
    eapply wp_mono; [apply (stop_trial_spec gone _ t i g); [done|set_solver|done|done|done|set_solver]|].
    cbv beta. intros _ w2 Hk2.
    eapply wp_mono; [apply (IH (t :: gone)); [done|set_solver|done|done]|]. cbv beta.
    intros a w3 [Hk3 ->]. split; [by eapply killed_ext|]. cbn.
    unfold is_running at 2. by rewrite Hp, bool_decide_false.
  - eapply wp_get_status; [by rewrite Hw1|]. cbv iota. wp_step.
    destruct Hk as ((b & Hb & Hwo) & Hinfo & Hs).
    eapply wp_read_bracket; [exact Hb|]. wp_step. unfold write_bracket, on_sched. wp_step.
    eapply wp_mono; [apply (IH (t :: gone)); [|set_solver|done|done]|].
    + split_and!; [|done|].
      * exists (cleanup_trial t b). split; [by eapply get_set_bracket|by apply without_cleanup].
      * intros id. cbn. rewrite Hs. repeat case_decide; set_solver.
    + cbv beta. intros a w3 [Hk3 ->]. split; [by eapply killed_ext|]. cbn.
      unfold is_running at 2. rewrite Hp, bool_decide_true by done. cbn. by case_match.
Qed.

(** *** Resuming the good trials *)

(** The trials [up] have been resumed. *)
Definition resumed (bad up : list string) (w1 : world) : Prop :=
  (∃ b, get_bracket (sched w1) r = Ok b ∧ without bad b) ∧
  ∀ id, dget id (statuses w1) =
    if decide (dget id (statuses w) = Some PAUSED) then
      if decide (id ∈ bad) then Some TERMINATED
      else if decide (id ∈ up) then Some PENDING else Some PAUSED
    else dget id (statuses w).

Lemma killed_resumed bad w1 : killed bad w1 → resumed bad [] w1.
Proof.
  clear live_times good_pending.
  intros (Hb & _ & Hs). split; [done|]. intros id. rewrite Hs.
  repeat case_decide; try tauto; set_solver.
Qed.

Lemma ready_good_spec bad todo up w1 action :
  resumed bad up w1 → todo ⊆ good → (∀ id, id ∈ todo → id ∉ bad ∧ id ∉ up) → NoDup todo →
  Forall paused_or_running todo →
  wp (ready_good r todo action)
     (λ a w2, resumed bad (up ++ todo) w2 ∧ a = if existsb is_running todo then CONTINUE else action) w1.
Proof.
  revert up w1 action. induction todo as [|t todo IH]; intros up w1 action Hr Hsub Hdis Hnd Hall;
    cbn [ready_good].
  { wp_step. by rewrite app_nil_r. }
  apply Forall_cons in Hall as [[Hst _] Hall]. apply NoDup_cons in Hnd as [Ht Hnd].
  destruct (Hdis t) as [Hnb Hnu]; [left|].
  destruct Hr as ((b & Hb & Hwf & Hd & Heq) & Hs).
  assert (dget t (statuses w1) = dget t (statuses w)) as Hw1.
  { rewrite Hs. destruct Hst as [-> | ->]; [|done].
    by rewrite decide_True, !decide_False by done. }
  assert (continue_trial t b = Ok true) as Hc.
  { destruct (good_pending t) as (v & tm & Hv & Htm & Hlt); [set_solver|].
    unfold continue_trial, dget_exn. rewrite Hd, decide_False, Hv by done. cbn.
    destruct (_ && _); [done|].
    assert (_get_result_time b v = Ok tm ∧ _cumul_r b = _cumul_r b1) as [-> ->] by (by rewrite Heq).
    cbn. by rewrite (proj2 (Qltb_true _ _)). }
  wp_step. destruct Hst as [Hp|Hp]; (eapply wp_get_status; [by rewrite Hw1|]).
  - rewrite bool_decide_true by set_solver. wp_step. eapply wp_read_bracket; [exact Hb|]. wp_step.
    eapply wp_lift; [exact Hc|]. cbv iota. wp_step. unfold set_trial_status. wp_step.
    eapply wp_mono; [apply (IH (up ++ [t])); [|set_solver|set_solver|done|done]|].
    + split; [by exists b|]. intros id. cbn. rewrite dget_dset, Hs.
      repeat case_decide; set_solver.
    + cbv beta. rewrite <- app_assoc. intros a w2 [Hr2 ->]. split; [done|]. cbn.
      unfold is_running at 2. by rewrite Hp, bool_decide_false.
  - rewrite bool_decide_true by set_solver. wp_step. eapply wp_read_bracket; [exact Hb|]. wp_step.
    eapply wp_lift; [exact Hc|]. cbv iota.
    eapply wp_mono; [apply (IH (up ++ [t])); [|set_solver|set_solver|done|done]|].
    + split; [by exists b|]. intros id. rewrite Hs. repeat case_decide; set_solver.
    + cbv beta. rewrite <- app_assoc. intros a w2 [Hr2 ->]. split; [done|]. cbn.
      unfold is_running at 2. rewrite Hp, bool_decide_true by done. cbn. by case_match.
Qed.
End resume.
End halving.

(** ** A halving, as a whole *)

(** All live trials of the bracket are at its milestone, and none is at the next
    one; their results have the metric; each is paused, or running (the trial that
    reports). *)
Record at_milestone (w : world) (r : bref) (b : HBracket) (m : string) (op : Q)
    (score : string → Q) : Prop := {
  am_bracket : get_bracket (sched w) r = Ok b;
  am_wf : dict_wf (_live_trials b);
  am_halves : 0 < _halves b;
  am_size : 0 < shrink (_n b) (b_eta b);
  am_metric : hb_metric (sched w) = Some m;
  am_op : hb_metric_op (sched w) = Some op;
  am_live id : id ∈ current_trials b → ∃ res t v,
    dget id (_live_trials b) = Some (Some res) ∧
    field (b_time_attr b) res = Ok t ∧ field m res = Ok v ∧ score id = (op * v)%Q ∧
    (inject_Z (_cumul_r b) <= t < inject_Z (_cumul_r (halve b)))%Q;
  am_status id : id ∈ current_trials b → paused_or_running w r id;
}.

Section whole.
Context (w : world) (r : bref) (b : HBracket) (m : string) (op : Q) (score : string → Q).
Hypothesis Ham : at_milestone w r b m op score.

Lemma at_milestone_done : cur_iter_done b = Ok true ∧ finished b = Ok false.
Proof.
  assert (cur_iter_done b = Ok true) as Hd.
  { unfold cur_iter_done. assert (∀ v, v ∈ dvalues (_live_trials b) → ∃ t,
      _get_result_time b v = Ok t ∧ (inject_Z (_cumul_r b) <= t)%Q) as Hall.
    { intros v [id Hv]%elem_of_dvalues; [|apply Ham].
      destruct (am_live _ _ _ _ _ _ Ham id) as (res & t & _ & Hl & Ht & _ & _ & Hb).
      { apply din_spec. unfold din. by rewrite Hv. }
      rewrite Hv in Hl. simplify_eq. exists t. split; [done|apply Hb]. }
    revert Hall. generalize (dvalues (_live_trials b)).
    induction l as [|v l IH]; intros Hall; [done|]. cbn.
    destruct (Hall v) as (t & -> & Hle); [left|]. cbn. apply Qle_bool_iff in Hle. rewrite Hle.
    apply IH. intros v' Hv'. apply Hall. by right. }
  split; [done|]. unfold finished. rewrite (proj2 (Z.eqb_neq (_halves b) 0)); [by case_match|].
  pose proof (am_halves _ _ _ _ _ _ Ham). lia.
Qed.

(** The good and the bad trials of the halving. *)
Lemma halving_spec :
  ∃ good bad, successive_halving (hb_metric (sched w)) (hb_metric_op (sched w)) b
                = (halve b, Ok (good, bad)) ∧
    good ++ bad ≡ₚ current_trials b ∧
    len good = Z.min (shrink (_n b) (b_eta b)) (len (current_trials b)) ∧
    ∀ g x, g ∈ good → x ∈ bad → (score x <= score g)%Q.
Proof.
  destruct Ham as [_ _ Hh Hn Hm Hop Hlive _]. rewrite Hm, Hop.
  destruct (sort_trials_spec (Some m) (Some op) (halve b) score) as (l & Hl & Hp & Hs).
  { intros id Hid. destruct (Hlive id Hid) as (res & t & v & Hd & _ & Hv & Hsc & _).
    unfold signed_metric, dget_exn. cbn. rewrite Hd. cbn. by rewrite Hv, Hsc. }
  destruct (split_good_bad score (_n (halve b)) l Hn Hs) as (Hperm & Hlen & Hle).
  eexists _, _. split; [|split_and!; [by rewrite Hperm| |exact Hle]].
  - unfold successive_halving, mbind, st_bind, st_get, st_lift, st_modify, mret, st_ret.
    rewrite (proj2 (Z.eqb_neq (_halves b) 0)) by lia. cbn [andb].
    rewrite (proj2 (Z.ltb_lt 0 (_halves b))) by lia. cbn [py_assert]. by rewrite Hl.
  - rewrite Hlen. by rewrite (len_Permutation _ _ _ Hp).
Qed.

(** C24: a halving of a HyperBand bracket does what it should. The bracket has
    halvings left, all its live trials are at its milestone and short of its next one
    (which is so when the milestones grow), each has reported the metric and is
    paused, or running if it is the one that reports: then processing the bracket does
    not raise, also though stopping a trial calls the scheduler back; the best trials,
    as many as the bracket's new size, are good, the others bad; every bad trial
    leaves the bracket, and is terminated if it was paused; every paused good trial
    becomes pending; the reporting trial is told to continue if it is good and to stop
    if it is bad; no other trial changes; and the bracket moves to its next milestone. *)
Theorem halving_resumes d :
  ∃ w' good bad b',
    _process_bracket (S (S d)) r w =
      (w', Ok (if existsb (is_running w) good then CONTINUE
               else if existsb (is_running w) bad then STOP else PAUSE)) ∧
    good ++ bad ≡ₚ current_trials b ∧
    len good = Z.min (shrink (_n b) (b_eta b)) (len (current_trials b)) ∧
    (∀ g x, g ∈ good → x ∈ bad → (score x <= score g)%Q) ∧
    get_bracket (sched w') r = Ok b' ∧ _cumul_r b' = _cumul_r (halve b) ∧
    _halves b' = _halves b - 1 ∧
    (∀ id, dget id (_live_trials b') =
       if decide (id ∈ bad) then None else dget id (_live_trials b)) ∧
    (∀ id, dget id (statuses w') =
       if decide (dget id (statuses w) = Some PAUSED) then
         if decide (id ∈ bad) then Some TERMINATED
         else if decide (id ∈ good) then Some PENDING else Some PAUSED
       else dget id (statuses w)).
Proof.
  destruct halving_spec as (good & bad & Hsh & Hperm & Hlen & Hle).
  destruct at_milestone_done as [Hdone Hfin]. pose proof Ham as [Hb Hwf Hh Hn _ _ Hlive Hst].
  assert (NoDup (good ++ bad)) as Hnd by (rewrite Hperm; exact Hwf).
  pose proof (proj1 (NoDup_app _ _) Hnd) as (Hndg & Hdisj & Hndb).
  assert (∀ id, id ∈ good ++ bad → id ∈ current_trials b) as Hcur by (intros id; by rewrite Hperm).
  assert (wp (_process_bracket (S (S d)) r) (λ a w', resumed w r (halve b) (_live_trials b) bad good w' ∧
     a = if existsb (is_running w) good then CONTINUE
         else if existsb (is_running w) bad then STOP else PAUSE) w) as (w' & a & Hrun & Hres & ->).
  { cbn [_process_bracket]. unfold process_bracket_with. wp_step.
    eapply wp_read_bracket; [exact Hb|]. wp_step. eapply wp_lift; [exact Hdone|]. cbv iota. wp_step.
    eapply wp_lift; [exact Hfin|]. cbv iota. wp_step. wp_step. rewrite Hsh.
    wp_step. unfold write_bracket, on_sched. wp_step. wp_step. eapply wp_lift; [done|]. cbn [fst snd].
    wp_step. wp_step. wp_step.
    set (w1 := {| sched := _; statuses := _ |}).
    assert (killed w r (halve b) (_live_trials b) [] w1) as Hk.
    { split_and!; [|done|].
      - exists (halve b). split; [by apply (get_set_bracket _ _ b)|]. by split_and!.
      - intros id. cbn. rewrite decide_False by (intros [[]%not_elem_of_nil _]). done. }
    assert (∀ id, id ∈ good → ∃ v t, dget id (_live_trials b) = Some v ∧
      _get_result_time (halve b) v = Ok t ∧ (t < inject_Z (_cumul_r (halve b)))%Q) as Hgood.
    { intros id Hid. destruct (Hlive id) as (res & t & v & Hd & Ht & _ & _ & Hlt);
        [apply Hcur; set_solver|]. exists (Some res), t. split_and!; [done|done|apply Hlt]. }
    assert (∀ id v, dget id (_live_trials b) = Some v → ∃ t, _get_result_time (halve b) v = Ok t)
      as Htimes.
    { intros id v Hv. destruct (Hlive id) as (res & t & v' & Hd & Ht & _).
      { apply din_spec. unfold din. by rewrite Hv. }
      rewrite Hv in Hd. simplify_eq. by exists t. }
    assert (∀ l, (∀ id, id ∈ l → id ∈ good ++ bad) → Forall (paused_or_running w r) l) as Hall
      by (intros l Hl; apply Forall_forall; intros id Hid; by apply Hst, Hcur, Hl).
    assert (wp (kill_bad (stop_trial_with (on_trial_remove_with (_process_bracket (S d)))) r bad PAUSE)
      (λ a w2, killed w r (halve b) (_live_trials b) bad w2 ∧
               a = if existsb (is_running w) bad then STOP else PAUSE) w1) as Hkill.
    { destruct bad as [|t bad]; [by apply wp_ret|]. destruct good as [|g good].
      { exfalso. change (len []) with 0 in Hlen. cbn in Hperm. rewrite <- Hperm, len_cons in Hlen.
        pose proof (len_nonneg bad). lia. }
      eapply wp_mono; [apply (kill_bad_spec w r (halve b) (_live_trials b) (g :: good) d Htimes Hgood
        g (t :: bad) []); [done|left|..]|cbv beta; by rewrite app_nil_r].
      - rewrite app_nil_r. apply Hdisj. left.
      - by rewrite app_nil_r.
      - apply Hall. set_solver. }
    eapply wp_mono; [exact Hkill|]. cbv beta. intros a w2 [Hk2 ->].
    eapply wp_mono; [apply (ready_good_spec w r (halve b) (_live_trials b) good Htimes Hgood bad good []);
      [by apply killed_resumed|done| |done|apply Hall; set_solver]|].
    - intros id Hid. split; [by apply Hdisj|apply not_elem_of_nil].
    - cbv beta. by intros a w3 [Hr ->]. }
  destruct Hres as ((b' & Hb' & Hwf' & Hd' & Heq) & Hs').
  exists w', good, bad, b'. split_and!; try done; rewrite Heq; done.
Qed.
End whole.

(** ** Adding a trial *)

Section adding.
Implicit Types h : HyperBandScheduler.

(** The current band is the last one and not overfull, the current bracket exists,
    and the parameters are as the constructor checks or documents. *)
Record bands_ok h : Prop := {
  bo_band : ∃ bd, _hyperbands h !! state_band_idx h = Some bd ∧ len bd <= _s_max_1 h;
  bo_last : length (_hyperbands h) = S (state_band_idx h);
  bo_bracket r : state_bracket h = Some r → ∃ b, get_bracket h r = Ok b;
  bo_size : 0 < _s_max_1 h;
  bo_max_t : 0 < _max_t_attr h;
  bo_eta : (0 < _eta h)%Q;
}.

Lemma get_r0_0 h : 0 < _max_t_attr h → _get_r0 h 0 ≠ 0.
Proof.
  intros Ht. unfold _get_r0. change (_eta h ^ (- 0))%Q with 1%Q.
  assert (1 <= py_int (inject_Z (_max_t_attr h) * 1)); [|lia].
  apply py_int_ge; [lia|]. rewrite Qmult_1_r, <- Zle_Qle. lia.
Qed.

Lemma get_n0_pos h s : bands_ok h → 0 <= s → 0 < _get_n0 h s.
Proof.
  intros [_ _ _ Hs _ He] Hs0. unfold _get_n0.
  assert (0 < inject_Z (_s_max_1 h) / inject_Z (s + 1) * _eta h ^ s)%Q as Hpos.
  { assert (0 < inject_Z (_s_max_1 h))%Q by (change 0%Q with (inject_Z 0); by rewrite <- Zlt_Qlt).
    assert (0 < inject_Z (s + 1))%Q by (change 0%Q with (inject_Z 0); rewrite <- Zlt_Qlt; lia).
    apply Qmult_lt_0_compat; [|by apply Qpower_0_lt].
    apply Qmult_lt_0_compat; [done|by apply Qinv_lt_0_compat]. }
  apply Z.lt_nge. intros Hle. pose proof (Qle_ceiling (inject_Z (_s_max_1 h) / inject_Z (s + 1) * _eta h ^ s)).
  rewrite Zle_Qle in Hle. change (inject_Z 0) with 0%Q in Hle. lra.
Qed.

(** Appending a bracket, or [None], to the current band. *)
Definition append_bracket h (o : option HBracket) (cur : option bref) : HyperBandScheduler :=
  with_bands h (alter (λ bd, bd ++ [o]) (state_band_idx h) (_hyperbands h)) (hb_trial_info h)
    cur (state_band_idx h) (hb_num_stopped h).

Lemma append_bracket_ok h bd (o : option HBracket) :
  bands_ok h → _hyperbands h !! state_band_idx h = Some bd → len bd < _s_max_1 h →
  let cur := if o then Some (state_band_idx h, length bd) else None in
  let h' := append_bracket h o cur in
  bands_ok h' ∧ _hyperbands h' !! state_band_idx h' = Some (bd ++ [o]) ∧
  ∀ r, cur = Some r → get_bracket h' r = of_option AttributeError o.
Proof.
  intros [_ Hl _ Hs Ht He] Hbd Hlt cur h'.
  assert (_hyperbands h' !! state_band_idx h = Some (bd ++ [o])) as Hbd'.
  { cbn. by rewrite list_lookup_alter, Hbd, decide_True by done. }
  assert (∀ r, cur = Some r → get_bracket h' r = of_option AttributeError o) as Hcur.
  { intros r Hr. unfold cur in Hr. destruct o as [b|]; [|done]. injection Hr as <-.
    unfold get_bracket, band. cbn [fst snd]. rewrite Hbd'. cbn.
    by rewrite list_lookup_middle by done. }
  split_and!; [|done|done]. split; try done.
  - exists (bd ++ [o]). split; [done|]. cbn. rewrite len_app. change (len [o]) with 1. lia.
  - cbn. by rewrite length_alter.
  - intros r Hr. rewrite (Hcur r Hr). cbn in Hr. unfold cur in Hr. destruct o; [by eexists|done].
Qed.

(** The loop ends, with a new bracket. *)
Lemma retry_loop_spec fuel h bd :
  bands_ok h → _hyperbands h !! state_band_idx h = Some bd →
  _s_max_1 h - len bd < Z.of_nat fuel →
  ∃ h' r s, retry_loop fuel h = Ok h' ∧ bands_ok h' ∧ 0 <= s ∧ state_bracket h' = Some r ∧
            get_bracket h' r = Ok (_create_bracket h' s) ∧ hb_trial_info h' = hb_trial_info h.
Proof.
  revert h bd; induction fuel as [|fuel IH]; intros h bd Hok Hbd Hfuel.
  { destruct Hok as [(bd' & Hbd' & Hle) _ _ _ _ _]. rewrite Hbd in Hbd'. simplify_eq. lia. }
  pose proof Hok as [(bd' & Hbd' & Hle) Hl Hcur Hs Ht He]. rewrite Hbd in Hbd'. simplify_eq.
  assert (band h (state_band_idx h) = Ok bd') as Hband by (unfold band; by rewrite Hbd).
  cbn [retry_loop]. unfold _cur_band_filled. rewrite Hband. cbn [of_option mbind result_bind].
  destruct (len bd' =? _s_max_1 h) eqn:Hfull; [apply Z.eqb_eq in Hfull|apply Z.eqb_neq in Hfull].
  - set (h1 := with_bands _ _ _ _ _ _).
    assert (_hyperbands h1 !! state_band_idx h1 = Some []) as Hbd1
      by (cbn; by apply list_lookup_middle).
    assert (bands_ok h1) as Hok1.
    { split; try done.
      - exists []. split; [done|]. change (len []) with 0. cbn. lia.
      - cbn. rewrite length_app. cbn. lia.
      - intros r Hr. destruct (Hcur r Hr) as [b Hb]. exists b. revert Hb. unfold get_bracket, band.
        intros Hb. inv_ok. cbn. rewrite lookup_app_l by (by eapply lookup_lt_Some).
        rewrite H. cbn. by rewrite H0. }
    assert (band h1 (state_band_idx h1) = Ok []) as -> by (unfold band; by rewrite Hbd1).
    cbn [of_option mbind result_bind]. change (len (@nil (option HBracket))) with 0.
    rewrite (proj2 (Z.ltb_lt 0 (_s_max_1 h1))) by done. cbn [py_assert].
    rewrite (proj2 (Z.eqb_neq _ _)) by (by apply get_r0_0).
    destruct (append_bracket_ok h1 [] (Some (_create_bracket h1 0)) Hok1 Hbd1 Hs) as (Hok2 & _ & Hg).
    eexists _, _, 0. split_and!; [done|exact Hok2|done|done|by apply Hg|done].
  - rewrite Hband. cbn [of_option mbind result_bind].
    rewrite (proj2 (Z.ltb_lt (len bd') (_s_max_1 h))) by lia. cbn [py_assert].
    destruct (_get_r0 h (len bd') =? 0) eqn:Hr0.
    + destruct (append_bracket_ok h bd' None Hok Hbd) as (Hok2 & Hbd2 & _); [lia|].
      destruct (IH _ _ Hok2 Hbd2) as (h' & r & s & Hrun & Hok' & Hs' & Hst & Hg & Hi).
      { rewrite len_app. change (len [None]) with 1. cbn. lia. }
      exists h', r, s. by split_and!.
    + destruct (append_bracket_ok h bd' (Some (_create_bracket h (len bd'))) Hok Hbd)
        as (Hok2 & _ & Hg); [lia|].
      eexists _, _, (len bd'). split_and!; [done|exact Hok2|apply len_nonneg|done|by apply Hg|done].
Qed.

Lemma set_bracket_ok h r b : bands_ok h → bands_ok (set_bracket r b h).
Proof.
  intros [(bd & Hbd & Hle) Hl Hcur Hs Ht He]. split; try done.
  - cbn. rewrite list_lookup_alter. case_decide as Hd; [rewrite Hd|]; rewrite Hbd; [|by exists bd].
    eexists. split; [done|]. unfold len in *. by rewrite length_insert.
  - cbn. by rewrite length_alter.
  - intros r' Hr'. destruct (Hcur r' Hr') as [b' Hb'].
    destruct (decide (r' = r)) as [->|Hne]; [exists b; by eapply get_set_bracket|].
    exists b'. revert Hb'. unfold get_bracket, band, set_bracket. intros Hb'. inv_ok. cbn.
    rewrite list_lookup_alter. case_decide as Hd; [rewrite Hd|]; rewrite H; cbn; [|by rewrite H0].
    rewrite list_lookup_insert_ne, H0; [done|]. intros Heq. apply Hne. destruct r, r'. cbn in *. congruence.
Qed.

(** Adding a trial to HyperBand always succeeds: the loop that looks for a bracket
    of a positive length ends after at most one band, no band gets more brackets
    than it should, and the trial is recorded, without a result, in the bracket
    that its entry refers to. *)
Theorem hyperband_add_total h id fuel :
  bands_ok h → truthy (hb_metric h) = true → is_Some (hb_metric_op h) →
  _s_max_1 h < Z.of_nat fuel →
  ∃ h' r i b, hb_on_trial_add fuel id h = Ok h' ∧ bands_ok h' ∧
    dget id (hb_trial_info h') = Some (r, i) ∧ get_bracket h' r = Ok b ∧
    dget id (_live_trials b) = Some None.
Proof.
  intros Hok Hm [op Hop] Hfuel. unfold hb_on_trial_add. rewrite Hm, Hop. cbn [negb orb].
  assert (∃ h1 r b, bands_ok h1 ∧ state_bracket h1 = Some r ∧ get_bracket h1 r = Ok b ∧
    filled b = false ∧ (need ← needs_bracket h;
      if (need : bool) then retry_loop fuel h else Ok h) = Ok h1) as (h1 & r & b & Hok1 & Hr & Hb & Hf & Hrun).
  { assert (∃ h1 r s, retry_loop fuel h = Ok h1 ∧ bands_ok h1 ∧ 0 <= s ∧ state_bracket h1 = Some r ∧
      get_bracket h1 r = Ok (_create_bracket h1 s)) as (h1 & r & s & Hrun & Hok1 & Hs & Hr & Hb).
    { destruct (bo_band _ Hok) as (bd & Hbd & Hle). pose proof (len_nonneg bd).
      destruct (retry_loop_spec fuel h bd Hok Hbd) as (h1 & r & s & H1 & H2 & H3 & H4 & H5 & _); [lia|].
      by exists h1, r, s. }
    assert (filled (_create_bracket h1 s) = false) as Hnew.
    { unfold filled. cbn. change (len []) with 0. apply Z.eqb_neq.
      pose proof (get_n0_pos h1 s Hok1 Hs). lia. }
    unfold needs_bracket. destruct (state_bracket h) as [r0|] eqn:Hr0; [|by eexists h1, r, _].
    destruct (bo_bracket _ Hok r0 Hr0) as [b0 Hb0]. rewrite Hb0. cbn.
    destruct (filled b0) eqn:Hf0; [by eexists h1, r, _|by exists h, r0, b0]. }
  assert (∀ k : HyperBandScheduler → result HyperBandScheduler,
    (need ← needs_bracket h; h0 ← (if (need : bool) then retry_loop fuel h else Ok h); k h0) = k h1) as ->.
  { intros k. destruct (needs_bracket h) as [need|]; [|done]. cbn in *. by rewrite Hrun. }
  rewrite Hr. cbn [of_option mbind result_bind]. rewrite Hb. cbn [mbind result_bind].
  unfold add_trial. rewrite Hf. cbn [negb py_assert mbind result_bind].
  eexists _, r, _, _. split; [done|]. split_and!.
  - set (b' := with_live _ _ _ _). destruct (set_bracket_ok h1 r b' Hok1). by split.
  - cbn. apply dget_dset_eq.
  - exact (get_set_bracket h1 r b _ Hb).
  - cbn. apply dget_dset_eq.
Qed.
End adding.

(** ** Examples *)

Module HyperBandExamples.
#[local] Open Scope string_scope.

Definition res (t v : Q) : Result := [("t", Some t); ("acc", Some v)].

Definition no_sched : HyperBandScheduler :=
  {| _eta := 0; _s_max_1 := 0; _max_t_attr := 0; _hyperbands := []; hb_trial_info := [];
     state_bracket := None; state_band_idx := 0; hb_num_stopped := 0; hb_metric := None;
     hb_mode := None; hb_metric_op := None; hb_time_attr := ""; hb_stop_last_trials := true |}.

Definition get (r : result HyperBandScheduler) : HyperBandScheduler :=
  match r with Ok h => h | Err _ => no_sched end.

Definition ids : list string := ["a"; "b"; "c"; "d"; "e"; "f"; "g"; "h"].

(** Eight trials added to a scheduler of maximise-accuracy. *)
Definition start (s_max_1 max_t : Z) (eta : Q) : world :=
  {| sched := get (h ← hyperband_init s_max_1 "t" (Some "acc") (Some "max") max_t eta true;
                   foldM (λ h id, hb_on_trial_add 10 id h) h ids);
     statuses := (λ id, (id, PENDING)) <$> ids |}.

(** What the trial runner does with a decision on a running trial. *)
Definition act (id : string) (a : SchedulerDecision) : ST world unit :=
  match a with
  | PAUSE => set_trial_status id PAUSED
  | STOP => stop_trial_with (on_trial_remove_with (_process_bracket 10)) id
  | _ => mret tt
  end.

(** A trial runs up to time [t] and reports the accuracy [v]. *)
Definition report (id : string) (t v : Q) : ST world unit :=
  _ ← set_trial_status id RUNNING; a ← hb_on_trial_result 10 id (res t v); act id a.

(** *** Reduction factor 3 *)

Definition three : world := start 3 9 3.

(** The last trial of the second bracket has its result recorded. *)
Definition all_but_processed : ST world unit :=
  _ ← report "d" 3 (1 # 10); _ ← report "e" 3 (5 # 10); _ ← report "f" 3 (3 # 10);
  _ ← report "g" 3 (2 # 10); _ ← set_trial_status "h" RUNNING; b ← read_bracket (0, 1)%nat;
  b ← st_lift (update_trial_stats "h" (res 3 (4 # 10)) b); write_bracket (0, 1)%nat b.

Definition full_bracket : world := (all_but_processed three).1.

Definition bracket_of (w : world) : HBracket :=
  match get_bracket (sched w) (0, 1)%nat with
  | Ok b => b
  | Err _ => _create_bracket no_sched 0
  end.

Definition accuracy (id : string) : Q :=
  match dget id (_live_trials (bracket_of full_bracket)) with
  | Some (Some r) => match field "acc" r with Ok v => (1 * v)%Q | Err _ => 0 end
  | _ => 0
  end.

(** A trial that has reported [v] at time 3. *)
Ltac live v :=
  exists (res 3 v), 3%Q, v; split; [vm_compute; reflexivity|];
  split; [vm_compute; reflexivity|]; split; [vm_compute; reflexivity|];
  split; [vm_compute; reflexivity|];
  split; [vm_compute; intros [=]|vm_compute; reflexivity].

Lemma full_bracket_at_milestone :
  at_milestone full_bracket (0, 1)%nat (bracket_of full_bracket) "acc" 1 accuracy.
Proof.
  assert (current_trials (bracket_of full_bracket) = ["d"; "e"; "f"; "g"; "h"]) as Hcur
    by (vm_compute; reflexivity).
  split; try (vm_compute; reflexivity).
  - apply (bool_decide_unpack (NoDup _)). vm_compute. exact I.
  - intros id Hid. rewrite Hcur in Hid.
    apply elem_of_cons in Hid as [->|Hid]; [live (1 # 10)%Q|].
    apply elem_of_cons in Hid as [->|Hid]; [live (5 # 10)%Q|].
    apply elem_of_cons in Hid as [->|Hid]; [live (3 # 10)%Q|].
    apply elem_of_cons in Hid as [->|Hid]; [live (2 # 10)%Q|].
    apply list_elem_of_singleton in Hid as ->. live (4 # 10)%Q.
  - intros id Hid. rewrite Hcur in Hid.
    repeat (apply elem_of_cons in Hid as [->|Hid]; [split; [left; vm_compute; reflexivity|
      exists 0%nat; vm_compute; reflexivity]|] || apply list_elem_of_singleton in Hid as ->).
    split; [right; vm_compute; reflexivity|exists 0%nat; vm_compute; reflexivity].
Defined.

Lemma halving_resumes_witness :
  ∃ w' good bad b',
    _process_bracket 2 (0, 1)%nat full_bracket =
      (w', Ok (if existsb (is_running full_bracket) good then CONTINUE
               else if existsb (is_running full_bracket) bad then STOP else PAUSE)) ∧
    good ++ bad ≡ₚ current_trials (bracket_of full_bracket) ∧
    len good = Z.min (shrink (_n (bracket_of full_bracket)) (b_eta (bracket_of full_bracket)))
                 (len (current_trials (bracket_of full_bracket))) ∧
    (∀ g x, g ∈ good → x ∈ bad → (accuracy x <= accuracy g)%Q) ∧
    get_bracket (sched w') (0, 1)%nat = Ok b' ∧
    _cumul_r b' = _cumul_r (halve (bracket_of full_bracket)) ∧
    _halves b' = _halves (bracket_of full_bracket) - 1 ∧
    (∀ id, dget id (_live_trials b') =
       if decide (id ∈ bad) then None else dget id (_live_trials (bracket_of full_bracket))) ∧
    (∀ id, dget id (statuses w') =
       if decide (dget id (statuses full_bracket) = Some PAUSED) then
         if decide (id ∈ bad) then Some TERMINATED
         else if decide (id ∈ good) then Some PENDING else Some PAUSED
       else dget id (statuses full_bracket)).
Proof.
  apply (halving_resumes full_bracket (0, 1)%nat (bracket_of full_bracket) "acc" 1 accuracy
           full_bracket_at_milestone 0).
Defined.

Lemma hyperband_milestones_grow_witness :
  let milestone j := _cumul_r (Nat.iter j halve (_create_bracket (sched three) 2)) in
  milestone 1%nat < milestone 2%nat <= 9.
Proof.
  apply (hyperband_milestones_grow (sched three) 2 1).
  - vm_compute. reflexivity.
  - lia.
  - vm_compute. reflexivity.
  - vm_compute. intros [=].
  - lia.
Defined.

Lemma three_bands_ok : bands_ok (sched three).
Proof.
  split; try (vm_compute; reflexivity).
  - eexists. split; [vm_compute; reflexivity|]. vm_compute. intros [=].
  - intros r Hr. vm_compute in Hr. injection Hr as <-. eexists. vm_compute. reflexivity.
Defined.

Lemma hyperband_add_total_witness :
  ∃ h' r i b, hb_on_trial_add 10 "i" (sched three) = Ok h' ∧ bands_ok h' ∧
    dget "i" (hb_trial_info h') = Some (r, i) ∧ get_bracket h' r = Ok b ∧
    dget "i" (_live_trials b) = Some None.
Proof.
  apply (hyperband_add_total (sched three) "i" 10).
  - exact three_bands_ok.
  - vm_compute. reflexivity.
  - eexists. vm_compute. reflexivity.
  - vm_compute. reflexivity.
Defined.

(** *** Reduction factor 2 *)

(** With [max_t = 10] the milestone of the second bracket is 5, and so is its next
    one: [min(5 * 2, 10 - 5)]. *)
Definition two : world := start 4 10 2.

Definition run_two : ST world unit :=
  _ ← report "a" 10 (1 # 10); _ ← report "b" 10 (2 # 10); _ ← report "c" 10 (3 # 10);
  _ ← report "d" 10 (4 # 10); _ ← report "e" 5 (1 # 10); _ ← report "f" 5 (2 # 10);
  _ ← report "g" 5 (3 # 10); report "h" 5 (4 # 10).

(** HyperBand can hang.  With a reduction factor of 2 and [max_t] of 10, the second
    bracket is halved at time 5 and its next milestone is 5 again; the surviving trials,
    among them the best of the bracket, are paused and none is resumed.  When all other
    trials have ended, two trials are paused, no trial is running, and the scheduler has
    none to run, whatever the resources. *)
Example hyperband_deadlock :
  let w := (run_two two).1 in
  (run_two two).2 = Ok tt ∧
  (∃ b, get_bracket (sched two) (0, 1)%nat = Ok b ∧ _cumul_r b = 5 ∧ _cumul_r (halve b) = 5) ∧
  statuses w = [("a", TERMINATED); ("b", TERMINATED); ("c", TERMINATED); ("d", TERMINATED);
                ("e", TERMINATED); ("f", TERMINATED); ("g", PAUSED); ("h", PAUSED)] ∧
  ∀ has_resources, hb_choose_trial_to_run has_resources w = Ok None.
Proof.
  split_and!; [vm_compute; reflexivity| |vm_compute; reflexivity|intros has; vm_compute; reflexivity].
  eexists. split_and!; vm_compute; reflexivity.
Qed.
End HyperBandExamples.
