(* ===== verification/WorkflowIndex.v ===== *)
(** * The status index of workflows

    [WorkflowIndexingStorage] of [workflow/workflow_storage.py], on the key-value
    client of [_private/storage.py].  A workflow's status is committed in its
    metadata; an index, a directory per status, lists the workflows that have it; a
    mark says that an update of the index is under way.  The protocol of the updates
    is the one the class documents.

    An operation first reads and then makes a fixed sequence of writes, so that an
    interruption (a crash, or a write that raises) leaves the effect of a prefix of
    them: the histories of this file interrupt updates after any number of writes.
    A single write is atomic. *)
From S2P Require Import Prelude.
From stdpp Require Import base tactics list gmap strings sets.

#[local] Open Scope Z_scope.

(** ** Statuses, keys and the store *)

(** [WorkflowStatus] *)
Inductive WorkflowStatus :=
  | NONE | RUNNING | CANCELED | SUCCESSFUL | FAILED | RESUMABLE | PENDING.

#[export] Instance WorkflowStatus_eq_dec : EqDecision WorkflowStatus.
Proof. solve_decision. Defined.

(** [for s in WorkflowStatus] *)
Definition all_statuses : list WorkflowStatus :=
  [NONE; RUNNING; CANCELED; SUCCESSFUL; FAILED; RESUMABLE; PENDING].

#[export] Instance WorkflowStatus_countable : Countable WorkflowStatus.
Proof.
  refine (inj_countable'
    (λ s, match s with NONE => 0%nat | RUNNING => 1%nat | CANCELED => 2%nat | SUCCESSFUL => 3%nat
          | FAILED => 4%nat | RESUMABLE => 5%nat | PENDING => 6%nat end)
    (λ n, nth n all_statuses NONE) _).
  by intros [].
Defined.

(** [_key_workflow_with_status], [_key_workflow_status_dirty] and
    [_key_workflow_metadata]: the paths of the store.  Different keys are different paths:
    workflow identifiers have no slash in them, which the storage would take for a
    directory. *)
Inductive key :=
  | key_with_status (s : WorkflowStatus) (workflow_id : string)
  | key_dirty (workflow_id : string)
  | key_metadata (workflow_id : string).

#[export] Instance key_eq_dec : EqDecision key.
Proof. solve_decision. Defined.

#[export] Instance key_countable : Countable key.
Proof.
  refine (inj_countable'
    (λ k, match k with
          | key_with_status s w => (inl s, w)
          | key_dirty w => (inr true, w)
          | key_metadata w => (inr false, w)
          end : (WorkflowStatus + bool) * string)
    (λ p, match p with
          | (inl s, w) => key_with_status s w
          | (inr true, w) => key_dirty w
          | (inr false, w) => key_metadata w
          end) _).
  by intros [].
Defined.

(** What a file holds: nothing, or the status in the JSON of the metadata. *)
Inductive blob :=
  | empty_blob
  | status_blob (s : WorkflowStatus).

Abbreviation store := (gmap key blob).

(** The writes of the key-value client: [put] and [delete], which ignores a
    missing file. *)
Inductive write :=
  | put (k : key) (v : blob)
  | delete_key (k : key).

Definition do_write (s : store) (w : write) : store :=
  match w with
  | put k v => <[k := v]> s
  | delete_key k => delete k s
  end.

Definition do_writes (s : store) (ws : list write) : store := fold_left do_write ws s.

(** ** Operations *)

(** [load_workflow_status] *)
Definition load_workflow_status (workflow_id : string) (s : store) : WorkflowStatus :=
  match s !! key_metadata workflow_id with
  | Some (status_blob st) => st
  | _ => NONE
  end.

(** The repair of the index after an interrupted update. *)
Definition fix_writes (workflow_id : string) (prev_status : WorkflowStatus) : list write :=
  put (key_with_status prev_status workflow_id) empty_blob ::
  ((λ s, delete_key (key_with_status s workflow_id)) <$>
     filter (λ s, s ≠ prev_status) all_statuses).

(** [update_workflow_status]: the writes it makes, from what it reads. *)
Definition update_writes (workflow_id : string) (status : WorkflowStatus) (s : store) :
    list write :=
  let prev_status := load_workflow_status workflow_id s in
  if decide (prev_status = status) then [] else
  (match s !! key_dirty workflow_id with
   | Some _ => fix_writes workflow_id prev_status
   | None => [put (key_dirty workflow_id) empty_blob]
   end) ++
  [put (key_metadata workflow_id) (status_blob status);
   put (key_with_status status workflow_id) empty_blob] ++
  (if decide (prev_status = NONE) then []
   else [delete_key (key_with_status prev_status workflow_id)]) ++
  [delete_key (key_dirty workflow_id)].

Definition update_workflow_status (workflow_id : string) (status : WorkflowStatus)
    (s : store) : store :=
  do_writes s (update_writes workflow_id status s).

(** An update that is interrupted after [n] writes. *)
Definition interrupted_update (n : nat) (workflow_id : string) (status : WorkflowStatus)
    (s : store) : store :=
  do_writes s (take n (update_writes workflow_id status s)).

(** [delete_workflow_status] *)
Definition delete_workflow_status_writes (workflow_id : string) : list write :=
  ((λ st, delete_key (key_with_status st workflow_id)) <$> all_statuses) ++
  [delete_key (key_dirty workflow_id)].

(** [WorkflowStorage.delete_workflow]: the index, then the workflow's directory, in
    which the metadata is.  The result says whether there was a directory. *)
Definition delete_workflow (workflow_id : string) (s : store) : store * result unit :=
  let s1 := do_writes s (delete_workflow_status_writes workflow_id) in
  (delete (key_metadata workflow_id) s1,
   match s1 !! key_metadata workflow_id with
   | Some _ => Ok tt
   | None => Err WorkflowNotFoundError
   end).

(** [self._storage.list] of the directory of a status, and of the marks: the
    workflows that have a file there.  A missing directory is an empty one. *)
Definition list_status (st : WorkflowStatus) (s : store) : list string :=
  omap (λ p, match p.1 with
             | key_with_status st' w => if decide (st' = st) then Some w else None
             | _ => None
             end) (map_to_list s).

Definition list_dirty (s : store) : list string :=
  omap (λ p, match p.1 with key_dirty w => Some w | _ => None end) (map_to_list s).

(** The first loop of [list_workflow]: what the index says. *)
Definition collect_indexed (s : store) (status_filter : list WorkflowStatus) :
    dict string WorkflowStatus :=
  fold_left (λ results st,
    fold_left (λ results w, dset w st results) (list_status st s) results) status_filter [].

(** An iteration of the second loop: a marked workflow has its committed status. *)
Definition correct_dirty (status_filter : list WorkflowStatus) (s : store)
    (results : dict string WorkflowStatus) (w : string) : dict string WorkflowStatus :=
  let results := ddel w results in
  let status := load_workflow_status w s in
  if decide (status ∈ status_filter) then dset w status results else results.

(** [list_workflow]; the filter is a set, in the order in which it is iterated. *)
Definition list_workflow (status_filter : option (list WorkflowStatus)) (s : store) :
    result (dict string WorkflowStatus) :=
  status_filter ←
    match status_filter with
    | None => Ok (filter (λ st, st ≠ NONE) all_statuses)
    | Some f => if decide (NONE ∈ f) then Err ValueError else Ok f
    end;
  let results := collect_indexed s status_filter in
  Ok (fold_left (correct_dirty status_filter s) (list_dirty s) results).

(** ** Histories, and the abstract specification *)

(** What can happen to the store. *)
Inductive event :=
  | Update (workflow_id : string) (status : WorkflowStatus)
  | Interrupted (n : nat) (workflow_id : string) (status : WorkflowStatus)
  | Delete (workflow_id : string).

Definition do_event (s : store) (e : event) : store :=
  match e with
  | Update w st => update_workflow_status w st s
  | Interrupted n w st => interrupted_update n w st s
  | Delete w => (delete_workflow w s).1
  end.

Definition run_events (es : list event) : store := fold_left do_event es ∅.

(** The statuses that the storage promises: a map in which an update is atomic.  One
    that is interrupted has happened or not. *)
Inductive spec_step : (string → WorkflowStatus) → event → (string → WorkflowStatus) → Prop :=
  | spec_update m w st : spec_step m (Update w st) (λ w', if decide (w' = w) then st else m w')
  | spec_lost m n w st : spec_step m (Interrupted n w st) m
  | spec_done m n w st :
      spec_step m (Interrupted n w st) (λ w', if decide (w' = w) then st else m w')
  | spec_delete m w : spec_step m (Delete w) (λ w', if decide (w' = w) then NONE else m w').

Inductive spec_run : list event → (string → WorkflowStatus) → Prop :=
  | spec_run_nil : spec_run [] (λ _, NONE)
  | spec_run_snoc es e m m' : spec_run es m → spec_step m e m' → spec_run (es ++ [e]) m'.

(** ** The invariant

    A workflow is marked, or the index says what is committed. *)
Definition indexed (w : string) (s : store) : Prop :=
  ∀ st, st ≠ NONE →
    is_Some (s !! key_with_status st w) ↔ load_workflow_status w s = st.

Definition index_ok (s : store) : Prop :=
  ∀ w, is_Some (s !! key_dirty w) ∨ indexed w s.
