(* ===== verification/WorkflowIndexProofs.v ===== *)
(** * The status index survives interruptions

    Whatever updates are interrupted, and wherever, listing the workflows gives the
    committed statuses, and an interrupted update has happened or not. *)
From S2P Require Import Prelude WorkflowIndex.
From stdpp Require Import base tactics list gmap strings sets.

(** ** Writes *)

Definition write_key (w : write) : key :=
  match w with put k _ => k | delete_key k => k end.

(** The workflow a key is about. *)
Definition key_workflow (k : key) : string :=
  match k with key_with_status _ w => w | key_dirty w => w | key_metadata w => w end.

Lemma do_writes_app s ws1 ws2 : do_writes s (ws1 ++ ws2) = do_writes (do_writes s ws1) ws2.
Proof. apply fold_left_app. Qed.

Lemma do_write_other s w k : write_key w ≠ k → do_write s w !! k = s !! k.
Proof. destruct w; unfold do_write, write_key; intros; [by rewrite lookup_insert_ne|by rewrite lookup_delete_ne]. Qed.

Lemma do_writes_other s ws k :
  Forall (λ w, write_key w ≠ k) ws → do_writes s ws !! k = s !! k.
Proof.
  intros Hws. revert s. induction Hws as [|w ws Hw Hws IH]; intros s; [done|].
  cbn. unfold do_writes in IH. rewrite IH. by apply do_write_other.
Qed.

(** Writes about one workflow leave the others alone. *)
Definition about (wf : string) : list write → Prop :=
  Forall (λ w, key_workflow (write_key w) = wf).

Lemma about_other s ws wf k :
  about wf ws → key_workflow k ≠ wf → do_writes s ws !! k = s !! k.
Proof.
  intros Hws Hk. apply do_writes_other. eapply Forall_impl; [exact Hws|]. cbn. congruence.
Qed.

Lemma load_ext wf s s' :
  s !! key_metadata wf = s' !! key_metadata wf →
  load_workflow_status wf s = load_workflow_status wf s'.
Proof. unfold load_workflow_status. by intros ->. Qed.

Lemma about_indexed s ws wf w :
  about wf ws → w ≠ wf → indexed w s → indexed w (do_writes s ws).
Proof.
  intros Hws Hw Hi st Hst. rewrite (about_other _ _ wf) by done.
  rewrite (load_ext w _ s) by by apply (about_other _ _ wf). by apply Hi.
Qed.

Lemma fix_writes_about wf prev : about wf (fix_writes wf prev).
Proof.
  apply Forall_cons. split; [done|]. apply Forall_fmap, Forall_forall. done.
Qed.

Lemma update_writes_about wf st s : about wf (update_writes wf st s).
Proof.
  unfold update_writes, about. case_decide; [constructor|].
  repeat (apply Forall_app; split); [| |case_decide|]; try by repeat constructor.
  destruct (s !! key_dirty wf); [apply fix_writes_about|by repeat constructor].
Qed.

Lemma delete_writes_about wf : about wf (delete_workflow_status_writes wf).
Proof. by repeat constructor. Qed.

(** ** One update *)

(** The writes of an update but the last, which takes the mark away. *)
Definition marked_writes (wf : string) (st : WorkflowStatus) (s : store) : list write :=
  (match s !! key_dirty wf with
   | Some _ => fix_writes wf (load_workflow_status wf s)
   | None => [put (key_dirty wf) empty_blob]
   end) ++
  [put (key_metadata wf) (status_blob st); put (key_with_status st wf) empty_blob] ++
  (if decide (load_workflow_status wf s = NONE) then []
   else [delete_key (key_with_status (load_workflow_status wf s) wf)]).

Lemma update_writes_marked wf st s :
  load_workflow_status wf s ≠ st →
  update_writes wf st s = marked_writes wf st s ++ [delete_key (key_dirty wf)].
Proof.
  intros Hst. unfold update_writes, marked_writes. rewrite decide_False by done.
  by rewrite <- !(assoc_L (++)).
Qed.

(** A mark that is set stays while no write deletes it. *)
Lemma mark_stays wf ws s :
  is_Some (s !! key_dirty wf) →
  Forall (λ w, w ≠ delete_key (key_dirty wf)) ws →
  is_Some (do_writes s ws !! key_dirty wf).
Proof.
  intros Hs Hws. revert s Hs. induction Hws as [|w ws Hw Hws IH]; intros s Hs; [done|].
  change (do_writes s (w :: ws)) with (do_writes (do_write s w) ws). apply IH. destruct w as [k v|k]; unfold do_write.
  - destruct (decide (k = key_dirty wf)) as [->|]; [by rewrite lookup_insert_eq|].
    by rewrite lookup_insert_ne.
  - rewrite lookup_delete_ne by congruence. done.
Qed.

Lemma marked_writes_keep wf st s :
  Forall (λ w, w ≠ delete_key (key_dirty wf)) (marked_writes wf st s).
Proof.
  unfold marked_writes. repeat (apply Forall_app; split); [| |case_decide]; try by repeat constructor.
  destruct (s !! key_dirty wf); [|by repeat constructor].
  apply Forall_cons. split; [done|]. apply Forall_fmap, Forall_forall. done.
Qed.

(** An update that has begun and not ended has its mark. *)
Lemma interrupted_marked wf st s n :
  (0 < n ≤ length (marked_writes wf st s))%nat →
  is_Some (do_writes s (take n (marked_writes wf st s)) !! key_dirty wf).
Proof.
  intros Hn. pose proof (marked_writes_keep wf st s) as Hkeep. apply (Forall_take _ n) in Hkeep.
  destruct (s !! key_dirty wf) eqn:Hd; [apply mark_stays; [by eexists|done]|].
  unfold marked_writes in *. rewrite Hd in *. destruct n as [|n]; [lia|].
  apply Forall_cons in Hkeep as [_ Hkeep].
  apply (mark_stays wf _ (do_write s (put (key_dirty wf) empty_blob))); [|exact Hkeep].
  unfold do_write. by rewrite lookup_insert_eq.
Qed.

(** Of the writes of an update, one commits. *)
Lemma commit_once wf st ws s :
  about wf ws →
  Forall (λ w, write_key w = key_metadata wf → w = put (key_metadata wf) (status_blob st)) ws →
  load_workflow_status wf (do_writes s ws) = load_workflow_status wf s ∨
  load_workflow_status wf (do_writes s ws) = st.
Proof.
  intros _ Hws. revert s. induction Hws as [|w ws Hw Hws IH]; intros s; [by left|].
  cbn. destruct (IH (do_write s w)) as [IHw|IHw]; unfold do_writes in IHw; rewrite IHw; [|by right].
  destruct (decide (write_key w = key_metadata wf)) as [Hk|Hk].
  - rewrite (Hw Hk). right. unfold load_workflow_status, do_write. by rewrite lookup_insert_eq.
  - left. apply load_ext. by apply do_write_other.
Qed.

Lemma update_commits wf st s :
  Forall (λ w, write_key w = key_metadata wf → w = put (key_metadata wf) (status_blob st))
    (update_writes wf st s).
Proof.
  unfold update_writes. case_decide; [constructor|].
  repeat (apply Forall_app; split); [| |case_decide|]; try by repeat constructor.
  destruct (s !! key_dirty wf); [|by repeat constructor].
  apply Forall_cons. split; [done|]. apply Forall_fmap, Forall_forall. done.
Qed.

Lemma interrupted_atomic n wf st s :
  load_workflow_status wf (interrupted_update n wf st s) = load_workflow_status wf s ∨
  load_workflow_status wf (interrupted_update n wf st s) = st.
Proof.
  apply commit_once; apply Forall_take; [apply update_writes_about|apply update_commits].
Qed.

Lemma update_other wf st s n w :
  w ≠ wf → load_workflow_status w (interrupted_update n wf st s) = load_workflow_status w s.
Proof.
  intros Hw. apply load_ext, (about_other _ _ wf); [|done].
  apply Forall_take, update_writes_about.
Qed.

(** The repair makes the index say what is committed. *)
Lemma fix_writes_index wf prev s st :
  is_Some (do_writes s (fix_writes wf prev) !! key_with_status st wf) ↔ st = prev.
Proof.
  destruct prev, st; cbn; simplify_map_eq;
    (split; [intros [? Hx]; by simplify_map_eq|intros; by simplify_eq; eauto]).
Qed.

(** After an update that is not interrupted the index says what is committed. *)
Lemma marked_writes_index wf st s st' :
  index_ok s → load_workflow_status wf s ≠ st → st' ≠ NONE →
  is_Some (do_writes s (marked_writes wf st s) !! key_with_status st' wf) ↔ st' = st.
Proof.
  intros Hok Hst Hst'. set (prev := load_workflow_status wf s) in *.
  unfold marked_writes. fold prev. rewrite do_writes_app.
  set (s1 := do_writes s _).
  assert (is_Some (s1 !! key_with_status st' wf) ↔ st' = prev) as Hs1.
  { subst s1. destruct (s !! key_dirty wf) eqn:Hd; [apply fix_writes_index|].
    cbn. rewrite lookup_insert_ne by done. destruct (Hok wf) as [[? ?]|Hi]; [congruence|].
    pose proof (Hi st' Hst') as Hi'. subst prev. naive_solver. }
  clearbody s1. case_decide as Hn; cbn.
  - destruct (decide (st' = st)) as [->|Hne]; [rewrite lookup_insert_eq; naive_solver|].
    rewrite !lookup_insert_ne, Hs1 by congruence. naive_solver.
  - destruct (decide (st' = prev)) as [->|Hp].
    { rewrite lookup_delete_eq. split; [by intros []|congruence]. }
    rewrite lookup_delete_ne by congruence.
    destruct (decide (st' = st)) as [->|Hne]; [rewrite lookup_insert_eq; naive_solver|].
    rewrite !lookup_insert_ne, Hs1 by congruence. naive_solver.
Qed.

Lemma update_commits_status wf st s :
  load_workflow_status wf (update_workflow_status wf st s) = st.
Proof.
  unfold update_workflow_status, update_writes. case_decide as Hst; [done|].
  rewrite !do_writes_app. unfold load_workflow_status at 1.
  rewrite do_writes_other by by repeat constructor.
  rewrite do_writes_other by (case_decide; by repeat constructor).
  cbn. rewrite lookup_insert_ne by done. by rewrite lookup_insert_eq.
Qed.

Lemma update_indexed wf st s :
  index_ok s → load_workflow_status wf s ≠ st → indexed wf (update_workflow_status wf st s).
Proof.
  intros Hok Hst st' Hst'. rewrite update_commits_status. unfold update_workflow_status.
  rewrite update_writes_marked, do_writes_app by done.
  rewrite do_writes_other by by repeat constructor.
  rewrite marked_writes_index by done. naive_solver.
Qed.

(** ** The invariant holds *)

Lemma interrupted_index_ok n wf st s : index_ok s → index_ok (interrupted_update n wf st s).
Proof.
  intros Hok w. destruct (decide (w = wf)) as [->|Hw].
  - destruct (decide (load_workflow_status wf s = st)) as [Hst|Hst].
    { unfold interrupted_update, update_writes. rewrite decide_True by done. rewrite take_nil. apply Hok. }
    destruct (decide (n ≤ length (marked_writes wf st s))%nat) as [Hn|Hn].
    + unfold interrupted_update. rewrite update_writes_marked, take_app_le by done.
      destruct n as [|n]; [apply Hok|]. left. apply interrupted_marked. lia.
    + right. unfold interrupted_update. rewrite take_ge; [by apply update_indexed|].
      rewrite update_writes_marked, length_app by done. cbn. lia.
  - unfold interrupted_update. assert (about wf (take n (update_writes wf st s))) as Ha
      by apply Forall_take, update_writes_about.
    rewrite (about_other _ _ wf) by done. destruct (Hok w) as [Hd|Hi]; [by left|right].
    by apply (about_indexed _ _ wf).
Qed.

Lemma update_is_uninterrupted wf st s :
  update_workflow_status wf st s = interrupted_update (length (update_writes wf st s)) wf st s.
Proof. unfold interrupted_update. by rewrite firstn_all. Qed.

Lemma delete_index_ok wf s : index_ok s → index_ok (delete_workflow wf s).1.
Proof.
  intros Hok w. unfold delete_workflow. cbn [fst]. destruct (decide (w = wf)) as [->|Hw].
  - right. intros st Hst. unfold load_workflow_status. rewrite lookup_delete_eq.
    rewrite lookup_delete_ne by done. split; [|congruence]. intros [v Hv].
    destruct st; cbn in Hv; simplify_map_eq.
  - rewrite lookup_delete_ne, (about_other _ _ wf) by first [done|apply delete_writes_about].
    destruct (Hok w) as [Hd|Hi]; [by left|right].
    pose proof (about_indexed _ _ wf w (delete_writes_about wf) Hw Hi) as Hi'.
    intros st Hst. rewrite lookup_delete_ne by done.
    rewrite (load_ext w _ (do_writes s (delete_workflow_status_writes wf)));
      [by apply Hi'|]. rewrite lookup_delete_ne; [done|congruence].
Qed.

Lemma event_index_ok e s : index_ok s → index_ok (do_event s e).
Proof.
  destruct e; cbn [do_event]; [rewrite update_is_uninterrupted| |];
    auto using interrupted_index_ok, delete_index_ok.
Qed.

Lemma run_events_ok es : index_ok (run_events es).
Proof.
  unfold run_events. apply fold_left_inv; [|auto using event_index_ok].
  intros w. right. intros st Hst. unfold load_workflow_status. rewrite !lookup_empty.
  split; [by intros []|congruence].
Qed.

(** ** Listing *)

Lemma elem_of_list_status st s w :
  w ∈ list_status st s ↔ is_Some (s !! key_with_status st w).
Proof.
  unfold list_status. rewrite list_elem_of_omap. split.
  - intros ([k v] & Hin & Hk). apply elem_of_map_to_list in Hin. cbn in Hk.
    destruct k; simplify_eq/=. case_decide; simplify_eq. by exists v.
  - intros [v Hv]. exists (key_with_status st w, v). split; [by apply elem_of_map_to_list|].
    cbn. by rewrite decide_True.
Qed.

Lemma elem_of_list_dirty s w : w ∈ list_dirty s ↔ is_Some (s !! key_dirty w).
Proof.
  unfold list_dirty. rewrite list_elem_of_omap. split.
  - intros ([k v] & Hin & Hk). apply elem_of_map_to_list in Hin. cbn in Hk.
    destruct k; simplify_eq/=. by exists v.
  - intros [v Hv]. exists (key_dirty w, v). split; [by apply elem_of_map_to_list|done].
Qed.

(** The statuses a filter asks for. *)
Definition filter_statuses (fs : option (list WorkflowStatus)) : list WorkflowStatus :=
  match fs with None => filter (λ st, st ≠ NONE) all_statuses | Some f => f end.

(** What a listing that is right says of a workflow. *)
Definition listed (fs : list WorkflowStatus) (s : store) (w : string) : option WorkflowStatus :=
  if decide (load_workflow_status w s ∈ fs) then Some (load_workflow_status w s) else None.

Lemma dget_collect_status st ws (r : dict string WorkflowStatus) w :
  dget w (fold_left (λ r w', dset w' st r) ws r) = if decide (w ∈ ws) then Some st else dget w r.
Proof.
  revert r. induction ws as [|w' ws IH]; intros r; cbn; [by rewrite decide_False by apply not_elem_of_nil|].
  rewrite IH, dget_dset. repeat case_decide; set_solver.
Qed.

(** An indexed workflow is found under its status. *)
Lemma dget_collect_indexed s fs w :
  indexed w s → NONE ∉ fs → dget w (collect_indexed s fs) = listed fs s w.
Proof.
  intros Hi Hfs. unfold collect_indexed.
  assert (∀ acc, dget w (fold_left (λ r st, fold_left (λ r w', dset w' st r) (list_status st s) r)
      fs acc) = match listed fs s w with Some st => Some st | None => dget w acc end) as Hgen;
    [|rewrite Hgen; by destruct (listed fs s w)].
  induction fs as [|st fs IH]; intros acc; cbn; [done|].
  rewrite IH by set_solver. rewrite dget_collect_status.
  pose proof (elem_of_list_status st s w) as Hl.
  pose proof (Hi st ltac:(set_solver)) as Hi'. unfold listed.
  repeat case_decide; set_solver.
Qed.

Lemma collect_indexed_wf s fs : dict_wf (collect_indexed s fs).
Proof.
  unfold collect_indexed. apply fold_left_inv; [constructor|]. intros r st _ Hr.
  apply fold_left_inv; [done|]. auto with pydict.
Qed.

Lemma correct_dirty_wf fs s r w : dict_wf r → dict_wf (correct_dirty fs s r w).
Proof.
  intros Hr. unfold correct_dirty. case_decide; [apply dset_wf|]; by apply ddel_wf.
Qed.

(** The second loop decides the marked workflows, and only them. *)
Lemma dget_correct_dirty fs s ws r w :
  dict_wf r →
  dget w (fold_left (correct_dirty fs s) ws r) =
    if decide (w ∈ ws) then listed fs s w else dget w r.
Proof.
  revert r. induction ws as [|w' ws IH]; intros r Hr; cbn;
    [by rewrite decide_False by apply not_elem_of_nil|].
  rewrite IH by by apply correct_dirty_wf. unfold correct_dirty, listed.
  destruct (decide (w' = w)) as [->|Hne].
  - rewrite (decide_True (P := w ∈ w :: ws)) by set_solver.
    destruct (decide (w ∈ ws)); [done|].
    destruct (decide (load_workflow_status w s ∈ fs)); [by rewrite dget_dset_eq|].
    rewrite dget_ddel by done. by rewrite decide_True.
  - assert (dget w (if decide (load_workflow_status w' s ∈ fs)
      then dset w' (load_workflow_status w' s) (ddel w' r) else ddel w' r) = dget w r) as ->.
    { destruct (decide (_ ∈ fs)); rewrite ?dget_dset_ne by congruence; rewrite dget_ddel by done;
        by rewrite decide_False by congruence. }
    destruct (decide (w ∈ ws)), (decide (w ∈ w' :: ws)); set_solver.
Qed.

(** On a store that keeps the invariant, listing is right. *)
Lemma list_workflow_right fs s :
  index_ok s → NONE ∉ filter_statuses fs →
  ∃ r, list_workflow fs s = Ok r ∧ ∀ w, dget w r = listed (filter_statuses fs) s w.
Proof.
  intros Hok Hfs.
  exists (fold_left (correct_dirty (filter_statuses fs) s) (list_dirty s)
           (collect_indexed s (filter_statuses fs))).
  split; [destruct fs as [f|]; [|done]; unfold list_workflow; by rewrite decide_False|].
  intros w. rewrite dget_correct_dirty by apply collect_indexed_wf.
  case_decide as Hd; [done|]. rewrite elem_of_list_dirty in Hd.
  destruct (Hok w) as [|Hi]; [done|]. by apply dget_collect_indexed.
Qed.

(** ** The refinement *)

Lemma event_spec s e m :
  (∀ w, load_workflow_status w s = m w) →
  ∃ m', spec_step m e m' ∧ ∀ w, load_workflow_status w (do_event s e) = m' w.
Proof.
  intros Hm. destruct e as [wf st|n wf st|wf]; cbn [do_event].
  - eexists. split; [constructor|]. intros w. cbn. case_decide as Hw.
    + subst w. apply update_commits_status.
    + rewrite update_is_uninterrupted, update_other by done. apply Hm.
  - destruct (interrupted_atomic n wf st s) as [Ha|Ha].
    + exists m. split; [constructor|]. intros w. destruct (decide (w = wf)) as [->|];
        [by rewrite Ha|]. by rewrite update_other.
    + eexists. split; [apply spec_done|]. intros w. cbn. case_decide; [by subst|].
      by rewrite update_other.
  - eexists. split; [constructor|]. intros w. unfold delete_workflow. cbn [fst].
    unfold load_workflow_status. case_decide as Hw; [by rewrite Hw, lookup_delete_eq|].
    rewrite lookup_delete_ne by congruence. rewrite (about_other _ _ wf) by
      first [done|apply delete_writes_about]. apply Hm.
Qed.

Lemma run_events_spec es :
  ∃ m, spec_run es m ∧ ∀ w, load_workflow_status w (run_events es) = m w.
Proof.
  induction es as [|e es IH] using rev_ind.
  - exists (λ _, NONE). split; [constructor|done].
  - destruct IH as (m & Hrun & Hm). destruct (event_spec _ e m Hm) as (m' & Hs & Hm').
    exists m'. split; [by econstructor|]. intros w. unfold run_events in *.
    rewrite fold_left_app. apply Hm'.
Qed.

(** C26: the index of workflow statuses survives interruptions.  After any sequence of
    status updates, updates interrupted after any number of their writes, and
    deletions, the store implements a map from workflows to statuses in which an
    interrupted update has happened completely or not at all: loading a status reads
    the map, and listing gives exactly the workflows whose status passes the filter,
    with that status, and fails only for a filter that asks for [NONE]. *)
Theorem status_index_crash_safe es :
  ∃ m, spec_run es m ∧
    (∀ w, load_workflow_status w (run_events es) = m w) ∧
    ∀ fs, match list_workflow fs (run_events es) with
          | Ok r => ∀ w st, dget w r = Some st ↔ m w = st ∧ st ∈ filter_statuses fs
          | Err e => e = ValueError ∧ NONE ∈ filter_statuses fs
          end.
Proof.
  destruct (run_events_spec es) as (m & Hrun & Hm). exists m. split_and!; [done..|].
  intros fs. destruct (decide (NONE ∈ filter_statuses fs)) as [Hn|Hn].
  - destruct fs as [f|]; [|by apply list_elem_of_filter in Hn as [? _]].
    unfold list_workflow. cbn. by rewrite decide_True.
  - destruct (list_workflow_right fs (run_events es) (run_events_ok es) Hn) as (r & -> & Hr).
    intros w st. rewrite Hr. unfold listed. rewrite Hm. case_decide; naive_solver.
Qed.

(** The mark is what makes it so: an interrupted deletion, which has none, hides a
    workflow that still has its status. *)
Example interrupted_delete_hides :
  let s := run_events [Update "w" RUNNING; Update "w" SUCCESSFUL] in
  let s' := do_writes s (take 4 (delete_workflow_status_writes "w")) in
  list_workflow None s = Ok [("w"%string, SUCCESSFUL)] ∧
  load_workflow_status "w" s' = SUCCESSFUL ∧ list_workflow None s' = Ok [].
Proof. vm_compute. auto. Qed.
