(* ===== verification/WorkflowState.v ===== *)
(** * The execution state of a workflow

    [workflow/workflow_state.py] with the data classes of [workflow/common.py] and
    [workflow/workflow_context.py] that it uses.

    A workflow is a graph of tasks.  A task may return another workflow, its
    continuation, whose output is then the task's; the tasks of a chain of
    continuations all have the output of the first, the root.  The state keeps the
    graph, what is known of outputs, the references to outputs that are still needed,
    and the frontier: the tasks that can run and those that do.

    Dicts are finite maps and sets are finite sets; the one loop of the executor over
    a set takes the order of its iteration as an argument. *)
From S2P Require Import Prelude.
From stdpp Require Import base tactics list gmap strings sets.
From Stdlib Require Import QArith.

#[local] Open Scope Z_scope.

(** ** Data *)

Abbreviation TaskID := string (only parsing).

(** Object references and asyncio futures are names. *)
Abbreviation ObjectRef := Z (only parsing).
Abbreviation Future := Z (only parsing).

(** [WorkflowRef]: the output of a task, in memory when there is a reference. *)
Record WorkflowRef := mkRef {
  wr_task_id : TaskID;
  wr_ref : option ObjectRef
}.

Inductive TaskType := FUNCTION | WAIT.

(** [WorkflowTaskRuntimeOptions]; the options that are handed on to Ray are left out. *)
Record WorkflowTaskRuntimeOptions := mkOptions {
  task_type : TaskType;
  catch_exceptions : bool;
  retry_exceptions : bool;
  max_retries : Z;
  checkpoint : bool
}.

(** [Task]; metadata and function are opaque objects. *)
Record Task := mkTask {
  task_name : string;
  options : WorkflowTaskRuntimeOptions;
  user_metadata : Z;
  func_body : Z
}.

(** [WorkflowTaskContext] *)
Record WorkflowTaskContext := mkContext {
  ctx_workflow_id : option string;
  ctx_task_id : TaskID;
  creator_task_id : TaskID;
  ctx_checkpoint : bool;
  ctx_catch_exceptions : bool
}.

(** [TaskExecutionMetadata] *)
Record TaskExecutionMetadata := mkMetadata {
  submit_time : option Q;
  finish_time : option Q;
  output_size : option Z
}.

(** [TaskExecutionMetadata.duration]; a missing time is [None], which has no [-]. *)
Definition duration (m : TaskExecutionMetadata) : result Q :=
  match finish_time m, submit_time m with
  | Some f, Some s => Ok (f - s)%Q
  | _, _ => Err TypeError
  end.

#[export] Instance WorkflowRef_eq_dec : EqDecision WorkflowRef.
Proof. solve_decision. Defined.

(** [WorkflowExecutionState], field by field. *)
Record WorkflowExecutionState := mkState {
  upstream_dependencies : gmap TaskID (list TaskID);
  downstream_dependencies : gmap TaskID (list TaskID);
  next_continuation : gmap TaskID TaskID;
  prev_continuation : gmap TaskID TaskID;
  latest_continuation : gmap TaskID TaskID;
  continuation_root : gmap TaskID TaskID;
  tasks : gmap TaskID Task;
  task_input_args : gmap TaskID ObjectRef;
  task_context : gmap TaskID WorkflowTaskContext;
  task_execution_metadata : gmap TaskID TaskExecutionMetadata;
  task_retries : gmap TaskID Z;
  reference_set : gmap TaskID (gset TaskID);
  pending_input_set : gmap TaskID (gset TaskID);
  output_map : gmap TaskID WorkflowRef;
  checkpoint_map : gmap TaskID WorkflowRef;
  free_outputs : gset TaskID;
  frontier_to_run : list TaskID;
  frontier_to_run_set : gset TaskID;
  running_frontier : gmap Future WorkflowRef;
  running_frontier_set : gset TaskID;
  done_tasks : gset TaskID;
  output_task_id : option TaskID
}.

Definition set_upstream_dependencies (v : gmap TaskID (list TaskID)) (s : WorkflowExecutionState) :=
  mkState v (downstream_dependencies s) (next_continuation s) (prev_continuation s)
    (latest_continuation s) (continuation_root s) (tasks s) (task_input_args s) (task_context s)
    (task_execution_metadata s) (task_retries s) (reference_set s) (pending_input_set s)
    (output_map s) (checkpoint_map s) (free_outputs s) (frontier_to_run s)
    (frontier_to_run_set s) (running_frontier s) (running_frontier_set s) (done_tasks s)
    (output_task_id s).
Definition set_downstream_dependencies (v : gmap TaskID (list TaskID)) (s : WorkflowExecutionState) :=
  mkState (upstream_dependencies s) v (next_continuation s) (prev_continuation s)
    (latest_continuation s) (continuation_root s) (tasks s) (task_input_args s) (task_context s)
    (task_execution_metadata s) (task_retries s) (reference_set s) (pending_input_set s)
    (output_map s) (checkpoint_map s) (free_outputs s) (frontier_to_run s)
    (frontier_to_run_set s) (running_frontier s) (running_frontier_set s) (done_tasks s)
    (output_task_id s).
Definition set_next_continuation (v : gmap TaskID TaskID) (s : WorkflowExecutionState) :=
  mkState (upstream_dependencies s) (downstream_dependencies s) v (prev_continuation s)
    (latest_continuation s) (continuation_root s) (tasks s) (task_input_args s) (task_context s)
    (task_execution_metadata s) (task_retries s) (reference_set s) (pending_input_set s)
    (output_map s) (checkpoint_map s) (free_outputs s) (frontier_to_run s)
    (frontier_to_run_set s) (running_frontier s) (running_frontier_set s) (done_tasks s)
    (output_task_id s).
Definition set_prev_continuation (v : gmap TaskID TaskID) (s : WorkflowExecutionState) :=
  mkState (upstream_dependencies s) (downstream_dependencies s) (next_continuation s) v
    (latest_continuation s) (continuation_root s) (tasks s) (task_input_args s) (task_context s)
    (task_execution_metadata s) (task_retries s) (reference_set s) (pending_input_set s)
    (output_map s) (checkpoint_map s) (free_outputs s) (frontier_to_run s)
    (frontier_to_run_set s) (running_frontier s) (running_frontier_set s) (done_tasks s)
    (output_task_id s).
Definition set_latest_continuation (v : gmap TaskID TaskID) (s : WorkflowExecutionState) :=
  mkState (upstream_dependencies s) (downstream_dependencies s) (next_continuation s)
    (prev_continuation s) v (continuation_root s) (tasks s) (task_input_args s) (task_context s)
    (task_execution_metadata s) (task_retries s) (reference_set s) (pending_input_set s)
    (output_map s) (checkpoint_map s) (free_outputs s) (frontier_to_run s)
    (frontier_to_run_set s) (running_frontier s) (running_frontier_set s) (done_tasks s)
    (output_task_id s).
Definition set_continuation_root (v : gmap TaskID TaskID) (s : WorkflowExecutionState) :=
  mkState (upstream_dependencies s) (downstream_dependencies s) (next_continuation s)
    (prev_continuation s) (latest_continuation s) v (tasks s) (task_input_args s)
    (task_context s) (task_execution_metadata s) (task_retries s) (reference_set s)
    (pending_input_set s) (output_map s) (checkpoint_map s) (free_outputs s) (frontier_to_run s)
    (frontier_to_run_set s) (running_frontier s) (running_frontier_set s) (done_tasks s)
    (output_task_id s).
Definition set_tasks (v : gmap TaskID Task) (s : WorkflowExecutionState) :=
  mkState (upstream_dependencies s) (downstream_dependencies s) (next_continuation s)
    (prev_continuation s) (latest_continuation s) (continuation_root s) v (task_input_args s)
    (task_context s) (task_execution_metadata s) (task_retries s) (reference_set s)
    (pending_input_set s) (output_map s) (checkpoint_map s) (free_outputs s) (frontier_to_run s)
    (frontier_to_run_set s) (running_frontier s) (running_frontier_set s) (done_tasks s)
    (output_task_id s).
Definition set_task_input_args (v : gmap TaskID ObjectRef) (s : WorkflowExecutionState) :=
  mkState (upstream_dependencies s) (downstream_dependencies s) (next_continuation s)
    (prev_continuation s) (latest_continuation s) (continuation_root s) (tasks s) v
    (task_context s) (task_execution_metadata s) (task_retries s) (reference_set s)
    (pending_input_set s) (output_map s) (checkpoint_map s) (free_outputs s) (frontier_to_run s)
    (frontier_to_run_set s) (running_frontier s) (running_frontier_set s) (done_tasks s)
    (output_task_id s).
Definition set_task_context (v : gmap TaskID WorkflowTaskContext) (s : WorkflowExecutionState) :=
  mkState (upstream_dependencies s) (downstream_dependencies s) (next_continuation s)
    (prev_continuation s) (latest_continuation s) (continuation_root s) (tasks s)
    (task_input_args s) v (task_execution_metadata s) (task_retries s) (reference_set s)
    (pending_input_set s) (output_map s) (checkpoint_map s) (free_outputs s) (frontier_to_run s)
    (frontier_to_run_set s) (running_frontier s) (running_frontier_set s) (done_tasks s)
    (output_task_id s).
Definition set_task_execution_metadata (v : gmap TaskID TaskExecutionMetadata) (s : WorkflowExecutionState) :=
  mkState (upstream_dependencies s) (downstream_dependencies s) (next_continuation s)
    (prev_continuation s) (latest_continuation s) (continuation_root s) (tasks s)
    (task_input_args s) (task_context s) v (task_retries s) (reference_set s)
    (pending_input_set s) (output_map s) (checkpoint_map s) (free_outputs s) (frontier_to_run s)
    (frontier_to_run_set s) (running_frontier s) (running_frontier_set s) (done_tasks s)
    (output_task_id s).
Definition set_task_retries (v : gmap TaskID Z) (s : WorkflowExecutionState) :=
  mkState (upstream_dependencies s) (downstream_dependencies s) (next_continuation s)
    (prev_continuation s) (latest_continuation s) (continuation_root s) (tasks s)
    (task_input_args s) (task_context s) (task_execution_metadata s) v (reference_set s)
    (pending_input_set s) (output_map s) (checkpoint_map s) (free_outputs s) (frontier_to_run s)
    (frontier_to_run_set s) (running_frontier s) (running_frontier_set s) (done_tasks s)
    (output_task_id s).
Definition set_reference_set (v : gmap TaskID (gset TaskID)) (s : WorkflowExecutionState) :=
  mkState (upstream_dependencies s) (downstream_dependencies s) (next_continuation s)
    (prev_continuation s) (latest_continuation s) (continuation_root s) (tasks s)
    (task_input_args s) (task_context s) (task_execution_metadata s) (task_retries s) v
    (pending_input_set s) (output_map s) (checkpoint_map s) (free_outputs s) (frontier_to_run s)
    (frontier_to_run_set s) (running_frontier s) (running_frontier_set s) (done_tasks s)
    (output_task_id s).
Definition set_pending_input_set (v : gmap TaskID (gset TaskID)) (s : WorkflowExecutionState) :=
  mkState (upstream_dependencies s) (downstream_dependencies s) (next_continuation s)
    (prev_continuation s) (latest_continuation s) (continuation_root s) (tasks s)
    (task_input_args s) (task_context s) (task_execution_metadata s) (task_retries s)
    (reference_set s) v (output_map s) (checkpoint_map s) (free_outputs s) (frontier_to_run s)
    (frontier_to_run_set s) (running_frontier s) (running_frontier_set s) (done_tasks s)
    (output_task_id s).
Definition set_output_map (v : gmap TaskID WorkflowRef) (s : WorkflowExecutionState) :=
  mkState (upstream_dependencies s) (downstream_dependencies s) (next_continuation s)
    (prev_continuation s) (latest_continuation s) (continuation_root s) (tasks s)
    (task_input_args s) (task_context s) (task_execution_metadata s) (task_retries s)
    (reference_set s) (pending_input_set s) v (checkpoint_map s) (free_outputs s)
    (frontier_to_run s) (frontier_to_run_set s) (running_frontier s) (running_frontier_set s)
    (done_tasks s) (output_task_id s).
Definition set_checkpoint_map (v : gmap TaskID WorkflowRef) (s : WorkflowExecutionState) :=
  mkState (upstream_dependencies s) (downstream_dependencies s) (next_continuation s)
    (prev_continuation s) (latest_continuation s) (continuation_root s) (tasks s)
    (task_input_args s) (task_context s) (task_execution_metadata s) (task_retries s)
    (reference_set s) (pending_input_set s) (output_map s) v (free_outputs s)
    (frontier_to_run s) (frontier_to_run_set s) (running_frontier s) (running_frontier_set s)
    (done_tasks s) (output_task_id s).
Definition set_free_outputs (v : gset TaskID) (s : WorkflowExecutionState) :=
  mkState (upstream_dependencies s) (downstream_dependencies s) (next_continuation s)
    (prev_continuation s) (latest_continuation s) (continuation_root s) (tasks s)
    (task_input_args s) (task_context s) (task_execution_metadata s) (task_retries s)
    (reference_set s) (pending_input_set s) (output_map s) (checkpoint_map s) v
    (frontier_to_run s) (frontier_to_run_set s) (running_frontier s) (running_frontier_set s)
    (done_tasks s) (output_task_id s).
Definition set_frontier_to_run (v : list TaskID) (s : WorkflowExecutionState) :=
  mkState (upstream_dependencies s) (downstream_dependencies s) (next_continuation s)
    (prev_continuation s) (latest_continuation s) (continuation_root s) (tasks s)
    (task_input_args s) (task_context s) (task_execution_metadata s) (task_retries s)
    (reference_set s) (pending_input_set s) (output_map s) (checkpoint_map s) (free_outputs s) v
    (frontier_to_run_set s) (running_frontier s) (running_frontier_set s) (done_tasks s)
    (output_task_id s).
Definition set_frontier_to_run_set (v : gset TaskID) (s : WorkflowExecutionState) :=
  mkState (upstream_dependencies s) (downstream_dependencies s) (next_continuation s)
    (prev_continuation s) (latest_continuation s) (continuation_root s) (tasks s)
    (task_input_args s) (task_context s) (task_execution_metadata s) (task_retries s)
    (reference_set s) (pending_input_set s) (output_map s) (checkpoint_map s) (free_outputs s)
    (frontier_to_run s) v (running_frontier s) (running_frontier_set s) (done_tasks s)
    (output_task_id s).
Definition set_running_frontier (v : gmap Future WorkflowRef) (s : WorkflowExecutionState) :=
  mkState (upstream_dependencies s) (downstream_dependencies s) (next_continuation s)
    (prev_continuation s) (latest_continuation s) (continuation_root s) (tasks s)
    (task_input_args s) (task_context s) (task_execution_metadata s) (task_retries s)
    (reference_set s) (pending_input_set s) (output_map s) (checkpoint_map s) (free_outputs s)
    (frontier_to_run s) (frontier_to_run_set s) v (running_frontier_set s) (done_tasks s)
    (output_task_id s).
Definition set_running_frontier_set (v : gset TaskID) (s : WorkflowExecutionState) :=
  mkState (upstream_dependencies s) (downstream_dependencies s) (next_continuation s)
    (prev_continuation s) (latest_continuation s) (continuation_root s) (tasks s)
    (task_input_args s) (task_context s) (task_execution_metadata s) (task_retries s)
    (reference_set s) (pending_input_set s) (output_map s) (checkpoint_map s) (free_outputs s)
    (frontier_to_run s) (frontier_to_run_set s) (running_frontier s) v (done_tasks s)
    (output_task_id s).
Definition set_done_tasks (v : gset TaskID) (s : WorkflowExecutionState) :=
  mkState (upstream_dependencies s) (downstream_dependencies s) (next_continuation s)
    (prev_continuation s) (latest_continuation s) (continuation_root s) (tasks s)
    (task_input_args s) (task_context s) (task_execution_metadata s) (task_retries s)
    (reference_set s) (pending_input_set s) (output_map s) (checkpoint_map s) (free_outputs s)
    (frontier_to_run s) (frontier_to_run_set s) (running_frontier s) (running_frontier_set s) v
    (output_task_id s).

(** [WorkflowExecutionState(output_task_id=output)] *)
Definition empty_state (output : option TaskID) : WorkflowExecutionState :=
  mkState ∅ ∅ ∅ ∅ ∅ ∅ ∅ ∅ ∅ ∅ ∅ ∅ ∅ ∅ ∅ ∅ [] ∅ ∅ ∅ ∅ output.

(** ** Operations *)

Definition M := ST WorkflowExecutionState.

(** [get_input] *)
Definition get_input (task_id : TaskID) (s : WorkflowExecutionState) : option WorkflowRef :=
  match output_map s !! task_id with
  | Some r => Some r
  | None => checkpoint_map s !! task_id
  end.

(** [reference_set[t]] and [downstream_dependencies[t]], of default dicts. *)
Definition references (t : TaskID) (s : WorkflowExecutionState) : gset TaskID :=
  default ∅ (reference_set s !! t).

Definition set_references (t : TaskID) (v : gset TaskID) (s : WorkflowExecutionState) :=
  set_reference_set (<[t := v]> (reference_set s)) s.

Definition set_pending (t : TaskID) (v : gset TaskID) (s : WorkflowExecutionState) :=
  set_pending_input_set (<[t := v]> (pending_input_set s)) s.

(** [m[k]] for a finite map. *)
Definition mget_exn {A} (k : TaskID) (m : gmap TaskID A) : result A := of_option KeyError (m !! k).

(** [pop_frontier_to_run] *)
Definition pop_frontier_to_run : M (option TaskID) :=
  s ← st_get;
  match frontier_to_run s with
  | [] => mret None
  | t :: rest =>
      _ ← st_modify (set_frontier_to_run rest);
      if decide (t ∈ frontier_to_run_set s) then
        _ ← st_modify (set_frontier_to_run_set (frontier_to_run_set s ∖ {[t]}));
        mret (Some t)
      else st_raise KeyError
  end.

(** [append_frontier_to_run] *)
Definition append_frontier_to_run (task_id : TaskID) : M unit :=
  st_modify (λ s,
    if decide (task_id ∉ frontier_to_run_set s ∧ task_id ∉ running_frontier_set s) then
      set_frontier_to_run_set (frontier_to_run_set s ∪ {[task_id]})
        (set_frontier_to_run (frontier_to_run s ++ [task_id]) s)
    else s).

(** [add_dependencies] *)
Definition add_dependencies (task_id : TaskID) (in_dependencies : list TaskID)
    (s : WorkflowExecutionState) : WorkflowExecutionState :=
  fold_left (λ s in_task_id,
      set_downstream_dependencies
        (<[in_task_id := default [] (downstream_dependencies s !! in_task_id) ++ [task_id]]>
           (downstream_dependencies s)) s)
    in_dependencies
    (set_upstream_dependencies (<[task_id := in_dependencies]> (upstream_dependencies s)) s).

(** [pop_running_frontier] *)
Definition pop_running_frontier (fut : Future) : M WorkflowRef :=
  s ← st_get;
  ref ← st_lift (of_option KeyError (running_frontier s !! fut));
  _ ← st_modify (set_running_frontier (delete fut (running_frontier s)));
  if decide (wr_task_id ref ∈ running_frontier_set s) then
    _ ← st_modify (set_running_frontier_set (running_frontier_set s ∖ {[wr_task_id ref]}));
    mret ref
  else st_raise KeyError.

(** [insert_running_frontier] *)
Definition insert_running_frontier (fut : Future) (ref : WorkflowRef) (s : WorkflowExecutionState) :
    WorkflowExecutionState :=
  set_running_frontier_set (running_frontier_set s ∪ {[wr_task_id ref]})
    (set_running_frontier (<[fut := ref]> (running_frontier s)) s).

(** The root of the chain of continuations of a task. *)
Definition root_of (task_id : TaskID) (s : WorkflowExecutionState) : TaskID :=
  default task_id (continuation_root s !! task_id).

(** [append_continuation] *)
Definition append_continuation (task_id continuation_task_id : TaskID)
    (s : WorkflowExecutionState) : WorkflowExecutionState :=
  let root := root_of task_id s in
  set_latest_continuation (<[root := continuation_task_id]> (latest_continuation s))
  (set_continuation_root (<[continuation_task_id := root]> (continuation_root s))
  (set_next_continuation (<[task_id := continuation_task_id]> (next_continuation s))
  (set_prev_continuation (<[continuation_task_id := task_id]> (prev_continuation s)) s))).

(** [merge_state]: [d.update(d')] is the union that prefers [d']. *)
Definition merge_state (state s : WorkflowExecutionState) : WorkflowExecutionState :=
  set_checkpoint_map (checkpoint_map state ∪ checkpoint_map s)
  (set_output_map (output_map state ∪ output_map s)
  (set_task_context (task_context state ∪ task_context s)
  (set_tasks (tasks state ∪ tasks s)
  (set_task_input_args (task_input_args state ∪ task_input_args s)
  (set_downstream_dependencies (downstream_dependencies state ∪ downstream_dependencies s)
  (set_upstream_dependencies (upstream_dependencies state ∪ upstream_dependencies s) s)))))).

(** ** The scheduling plan *)

(** The loop over the inputs of [tid]; the result is the queue of the visit. *)
Fixpoint plan_inputs (tid : TaskID) (ins : list TaskID) (queue : list TaskID) : M (list TaskID) :=
  match ins with
  | [] => mret queue
  | in_task_id :: ins =>
      _ ← st_modify (λ s, set_references in_task_id (references in_task_id s ∪ {[tid]}) s);
      s ← st_get;
      match get_input in_task_id s with
      | Some _ => plan_inputs tid ins queue
      | None =>
          pending ← st_lift (mget_exn tid (pending_input_set s));
          _ ← st_modify (set_pending tid (pending ∪ {[in_task_id]}));
          plan_inputs tid ins (queue ++ [in_task_id])
      end
  end.

(** The rest of a visit: [tid] waits for its continuation, for its inputs, or can
    run. *)
Definition plan_ready (construct : TaskID → M unit) (tid : TaskID) : M unit :=
  s ← st_get;
  pending ← st_lift (mget_exn tid (pending_input_set s));
  match latest_continuation s !! tid with
  | Some c => if decide (pending = ∅) then construct c else st_raise ValueError
  | None => if decide (pending = ∅) then append_frontier_to_run tid else mret tt
  end.

(** The visit of a task that was not visited. *)
Definition plan_visit (construct : TaskID → M unit) (tid : TaskID) (queue : list TaskID) :
    M (list TaskID) :=
  _ ← st_modify (set_pending tid ∅);
  s ← st_get;
  ins ← st_lift (mget_exn tid (upstream_dependencies s));
  queue ← plan_inputs tid ins queue;
  _ ← plan_ready construct tid;
  mret queue.

(** [while dag_visit_queue] *)
Fixpoint plan_loop (construct : TaskID → M unit) (fuel : nat) (visited : gset TaskID)
    (queue : list TaskID) : M unit :=
  match queue with
  | [] => mret tt
  | tid :: queue =>
      match fuel with
      | O => st_raise OutOfFuel
      | S fuel =>
          if decide (tid ∈ visited) then plan_loop construct fuel visited queue
          else
            queue ← plan_visit construct tid queue;
            plan_loop construct fuel (visited ∪ {[tid]}) queue
      end
  end.

(** A visit passes every edge of the graph once, so the number of edges is enough. *)
Definition edges (s : WorkflowExecutionState) (ts : gset TaskID) : nat :=
  sum_list ((λ t, length (default [] (upstream_dependencies s !! t))) <$> elements ts).

Definition plan_fuel (s : WorkflowExecutionState) : nat :=
  S (edges s (dom (upstream_dependencies s))).

(** [construct_scheduling_plan]; [depth] bounds the nesting of continuations. *)
Fixpoint construct_plan (depth : nat) (task_id : TaskID) : M unit :=
  match depth with
  | O => st_raise OutOfFuel
  | S depth =>
      s ← st_get;
      match get_input task_id s with
      | Some _ => mret tt
      | None => plan_loop (construct_plan depth) (plan_fuel s) ∅ [task_id]
      end
  end.

Definition construct_scheduling_plan (task_id : TaskID) : M unit :=
  s ← st_get; construct_plan (S (size (upstream_dependencies s))) task_id.

(** [init_context] *)
Definition task_context_of (context : WorkflowTaskContext) (task_id : TaskID) (task : Task) :
    WorkflowTaskContext :=
  mkContext (ctx_workflow_id context) task_id (ctx_task_id context)
    (checkpoint (options task)) (catch_exceptions (options task)).

Definition init_context (context : WorkflowTaskContext) (s : WorkflowExecutionState) :
    WorkflowExecutionState :=
  set_task_context
    (task_context s ∪ map_imap (λ id task, Some (task_context_of context id task)) (tasks s)) s.
