(* ===== verification/WorkflowExecutor.v ===== *)
(** * The workflow executor

    [WorkflowExecutor] of [workflow/workflow_executor.py]: the event loop that submits
    the tasks of the frontier as Ray tasks and handles their completions, retries and
    failures, continuations, references and callbacks.

    The coroutine [run_until_complete] is cut at its awaits; what happens between is
    the steps of the machine at the end of the file.  A completed Ray task is an
    observation: a value, a continuation with its state, or an exception. *)
From S2P Require Import Prelude WorkflowIndex WorkflowState.
From stdpp Require Import base tactics list gmap strings sets.
From Stdlib Require Import QArith.

#[local] Open Scope Z_scope.

(** ** State *)

(** An asyncio future that [get_task_output_async] hands out. *)
Inductive FutureState :=
  | FPending
  | FResult (r : WorkflowRef)
  | FException (e : exn).

(** What the executor does outside. *)
Inductive action :=
  | SetStatus (status : WorkflowStatus)
  | SetLink (continuation_root_id latest_continuation_task_id : TaskID)
  | Submitted (task_id : TaskID) (args : ObjectRef) (workflow_refs : list (option WorkflowRef))
  | RayCancel (ref : option ObjectRef).

(** [WorkflowExecutor]; with the futures it made, and a supply of names for futures and
    object references. *)
Record WorkflowExecutor := mkExecutor {
  _state : WorkflowExecutionState;
  _task_done_callbacks : gmap TaskID (list Future);
  futures : gmap Future FutureState;
  next_name : Z;
  actions : list action
}.

Definition set_state (v : WorkflowExecutionState) (x : WorkflowExecutor) :=
  mkExecutor v (_task_done_callbacks x) (futures x) (next_name x) (actions x).
Definition set_callbacks (v : gmap TaskID (list Future)) (x : WorkflowExecutor) :=
  mkExecutor (_state x) v (futures x) (next_name x) (actions x).
Definition set_futures (v : gmap Future FutureState) (x : WorkflowExecutor) :=
  mkExecutor (_state x) (_task_done_callbacks x) v (next_name x) (actions x).
Definition set_next_name (v : Z) (x : WorkflowExecutor) :=
  mkExecutor (_state x) (_task_done_callbacks x) (futures x) v (actions x).
Definition set_actions (v : list action) (x : WorkflowExecutor) :=
  mkExecutor (_state x) (_task_done_callbacks x) (futures x) (next_name x) v.

(** [WorkflowExecutor(state)] *)
Definition new_executor (state : WorkflowExecutionState) : WorkflowExecutor :=
  mkExecutor state ∅ ∅ 0 [].

Definition E := ST WorkflowExecutor.

(** An operation of the state. *)
Definition on_state {A} (m : M A) : E A := λ x,
  let '(s, r) := m (_state x) in (set_state s x, r).

Definition modify_state (f : WorkflowExecutionState → WorkflowExecutionState) : E unit :=
  st_modify (λ x, set_state (f (_state x)) x).

Definition get_state : E WorkflowExecutionState := st_gets _state.

Definition act (a : action) : E unit := st_modify (λ x, set_actions (actions x ++ [a]) x).

(** A new future or object reference. *)
Definition fresh_name : E Z :=
  n ← st_gets next_name; _ ← st_modify (set_next_name (n + 1)); mret n.

(** [try: m except Exception as e: h(e)] *)
Definition try_except (m : E unit) (h : exn → E unit) : E unit := λ x,
  match m x with
  | (x', Err e) => h e x'
  | r => r
  end.

(** [is_running] *)
Definition is_running (x : WorkflowExecutor) : bool :=
  bool_decide (frontier_to_run (_state x) ≠ []) ||
  bool_decide (running_frontier (_state x) ≠ ∅).

(** ** Futures and callbacks *)

Definition fut_done (fut : Future) (x : WorkflowExecutor) : bool :=
  match futures x !! fut with Some FPending => false | _ => true end.

(** [fut.set_result] and [fut.set_exception]: a future is set once. *)
Definition fut_set (v : FutureState) (fut : Future) : E unit :=
  x ← st_get;
  if fut_done fut x then st_raise InvalidStateError
  else st_modify (set_futures (<[fut := v]> (futures x))).

(** [callbacks[task_id]], of a default dict: the lookup makes the entry. *)
Definition callbacks_of (task_id : TaskID) : E (list Future) :=
  x ← st_get;
  let futs := default [] (_task_done_callbacks x !! task_id) in
  _ ← st_modify (set_callbacks (<[task_id := futs]> (_task_done_callbacks x)));
  mret futs.

(** The exception goes to every future that is still waiting. *)
Definition fail_pending (err : exn) (x : WorkflowExecutor) : WorkflowExecutor :=
  let waiting := concat (map_to_list (_task_done_callbacks x)).*2 in
  set_futures
    (map_imap (λ fut v, Some (if decide (fut ∈ waiting) then
       match v with FPending => FException err | _ => v end else v)) (futures x)) x.

(** [_broadcast_exception] *)
Definition _broadcast_exception (err : exn) : E unit := st_modify (fail_pending err).

(** [get_task_output_async] *)
Definition get_task_output_async (task_id : TaskID) : E Future :=
  futs ← callbacks_of task_id;
  match futs with
  | fut :: _ => mret fut
  | [] =>
      fut ← fresh_name;
      _ ← st_modify (λ x, set_futures (<[fut := FPending]> (futures x)) x);
      s ← get_state;
      let task_id := root_of task_id s in
      _ ← match get_input task_id s with
          | Some output => fut_set (FResult output) fut
          | None =>
              if decide (task_id ∈ done_tasks s) then fut_set (FException ValueError) fut
              else
                futs ← callbacks_of task_id;
                st_modify (λ x,
                  set_callbacks (<[task_id := futs ++ [fut]]> (_task_done_callbacks x)) x)
          end;
      mret fut
  end.

(** ** Submission *)

(** [_poll_queued_tasks]; the frontier is as long as the loop. *)
Fixpoint poll_queued (fuel : nat) (acc : list TaskID) : E (list TaskID) :=
  match fuel with
  | O => st_raise OutOfFuel
  | S fuel =>
      t ← on_state pop_frontier_to_run;
      match t with
      | None => mret acc
      | Some t => poll_queued fuel (acc ++ [t])
      end
  end.

Definition _poll_queued_tasks : E (list TaskID) :=
  s ← get_state; poll_queued (S (length (frontier_to_run s))) [].

(** [get_task_executor] *)
Definition get_task_executor (task_options : WorkflowTaskRuntimeOptions) : result unit :=
  match task_type task_options with FUNCTION => Ok tt | WAIT => Err ValueError end.

(** [_submit_ray_task] *)
Definition _submit_ray_task (now : Q) (task_id : TaskID) : E unit :=
  state ← get_state;
  args ← st_lift (mget_exn task_id (task_input_args state));
  ups ← st_lift (mget_exn task_id (upstream_dependencies state));
  let workflow_refs := (λ d, get_input d state) <$> ups in
  task ← st_lift (mget_exn task_id (tasks state));
  _ ← st_lift (get_task_executor (options task));
  _ ← st_lift (mget_exn task_id (task_context state));
  _ ← act (Submitted task_id args workflow_refs);
  output_ref ← fresh_name;
  future ← fresh_name;
  _ ← modify_state (insert_running_frontier future (mkRef task_id (Some output_ref)));
  modify_state (λ s, set_task_execution_metadata
    (<[task_id := mkMetadata (Some now) None None]> (task_execution_metadata s)) s).

(** The references of a submitted task to its input [c]. *)
Definition drop_reference (task_id c : TaskID) : E unit :=
  s ← get_state;
  if decide (task_id ∈ references c s) then
    let refs := references c s ∖ {[task_id]} in
    if decide (refs = ∅) then
      modify_state (λ s, set_free_outputs (free_outputs s ∪ {[c]})
        (set_reference_set (delete c (reference_set s)) s))
    else modify_state (set_references c refs)
  else
    _ ← modify_state (set_references c (references c s));
    st_raise KeyError.

(** [_post_process_submit_task] *)
Definition _post_process_submit_task (task_id : TaskID) : E unit :=
  state ← get_state;
  match continuation_root state !! task_id with
  | Some root =>
      task ← st_lift (mget_exn task_id (tasks state));
      if checkpoint (options task) then act (SetLink root task_id) else mret tt
  | None =>
      ups ← st_lift (mget_exn task_id (upstream_dependencies state));
      st_for ups (drop_reference task_id)
  end.

(** [_garbage_collect]; each of the free outputs, in any order. *)
Definition collect_one (gc_task_id : TaskID) : E unit :=
  state ← get_state;
  _ ← modify_state (set_free_outputs (free_outputs state ∖ {[gc_task_id]}));
  _ ← st_lift (py_assert (bool_decide (get_input gc_task_id state ≠ None)));
  modify_state (λ s, set_output_map (delete gc_task_id (output_map s)) s).

Definition _garbage_collect : E unit :=
  state ← get_state; st_for (elements (free_outputs state)) collect_one.

(** A turn of the loop, up to the wait for completions. *)
Definition submit_round (now : Q) : E unit :=
  queued_tasks ← _poll_queued_tasks;
  _ ← st_for queued_tasks (λ task_id,
        _ ← _submit_ray_task now task_id; _post_process_submit_task task_id);
  _garbage_collect.

(** ** Completion *)

(** Tell a task that waits for the output of [target]. *)
Definition notify (target m : TaskID) : E unit :=
  state ← get_state;
  pending ← st_lift (mget_exn m (pending_input_set state));
  if decide (target ∈ pending) then
    let pending := pending ∖ {[target]} in
    _ ← modify_state (set_pending m pending);
    if decide (pending = ∅) then on_state (append_frontier_to_run m) else mret tt
  else st_raise KeyError.

Section order.
(** The order in which a set is iterated. *)
Context (order : list TaskID → list TaskID).

(** [_post_process_ready_task], the task returns a normal object. *)
Definition post_process_value (task_id : TaskID) (output_ref : WorkflowRef) : E unit :=
  state ← get_state;
  let target := root_of task_id state in
  _ ← modify_state (λ s, set_output_map (<[target := output_ref]> (output_map s)) s);
  task ← st_lift (mget_exn task_id (tasks state));
  _ ← (if checkpoint (options task) then
         modify_state (λ s,
           set_checkpoint_map (<[target := mkRef task_id None]> (checkpoint_map s)) s)
       else mret tt);
  _ ← modify_state (λ s, set_done_tasks (done_tasks s ∪ {[target]}) s);
  x ← st_get;
  _ ← match _task_done_callbacks x !! target with
      | Some futs => st_for futs (fut_set (FResult output_ref))
      | None => mret tt
      end;
  state ← get_state;
  let refs := references target state in
  _ ← modify_state (set_references target refs);
  st_for (order (elements refs)) (notify target).

(** [state.task_retries.pop(task_id, None)] *)
Definition pop_retries (task_id : TaskID) : E unit :=
  modify_state (λ s, set_task_retries (delete task_id (task_retries s)) s).

(** [_post_process_ready_task], the task returns a continuation, after the await of
    its state. *)
Definition post_process_continuation (task_id : TaskID) (sub : WorkflowExecutionState) : E unit :=
  state ← get_state;
  context ← st_lift (mget_exn task_id (task_context state));
  let sub := init_context context sub in
  _ ← modify_state (merge_state sub);
  continuation_task_id ← st_lift (of_option KeyError (output_task_id sub));
  _ ← modify_state (append_continuation task_id continuation_task_id);
  x ← st_get;
  _ ← match _task_done_callbacks x !! continuation_task_id with
      | Some futs =>
          let root := root_of continuation_task_id (_state x) in
          st_modify (λ x,
            let cbs := delete continuation_task_id (_task_done_callbacks x) in
            set_callbacks (<[root := default [] (cbs !! root) ++ futs]> cbs) x)
      | None => mret tt
      end;
  on_state (construct_scheduling_plan continuation_task_id).

(** [_iter_callstack], to the first task that catches exceptions. *)
Fixpoint find_catcher (fuel : nat) (task_id : TaskID) (state : WorkflowExecutionState) :
    result (option TaskID) :=
  match fuel with
  | O => Err OutOfFuel
  | S fuel =>
      match task_context state !! task_id, tasks state !! task_id with
      | Some ctx, Some task =>
          if catch_exceptions (options task) then Ok (Some task_id)
          else find_catcher fuel (creator_task_id ctx) state
      | _, _ => Ok None
      end
  end.

(** [_retry_failed_task]; whether the task is retried. *)
Definition _retry_failed_task (failed_task_id : TaskID) (exc : exn) : E bool :=
  state ← get_state;
  task ← st_lift (mget_exn failed_task_id (tasks state));
  let opts := options task in
  let is_application_error := bool_decide (exc = RayTaskError) in
  if negb is_application_error || retry_exceptions opts then
    let retries := default 0 (task_retries state !! failed_task_id) in
    if retries <? max_retries opts then
      _ ← modify_state (λ s,
            set_task_retries (<[failed_task_id := retries + 1]> (task_retries s)) s);
      _ ← on_state (construct_scheduling_plan failed_task_id);
      mret true
    else
      _ ← modify_state (λ s,
            set_task_retries (<[failed_task_id := retries]> (task_retries s)) s);
      mret false
  else mret false.

(** [_catch_failed_task]; whether the exception is caught. *)
Definition _catch_failed_task (failed_task_id : TaskID) (exc : exn) : E bool :=
  state ← get_state;
  catcher ← (if bool_decide (exc = RayTaskError) then
               st_lift (find_catcher (S (size (tasks state))) failed_task_id state)
             else mret None);
  match catcher with
  | Some t =>
      ref ← fresh_name;
      _ ← pop_retries t;
      _ ← post_process_value t (mkRef failed_task_id (Some ref));
      mret true
  | None => mret false
  end.

(** The handlers of [_handle_ready_task]: for a cancellation, and for any other
    exception, which may also come from the processing of a completion. *)
Definition handle_cancelled : E unit :=
  _ ← act (SetStatus CANCELED);
  _ ← _broadcast_exception WorkflowCancellationError;
  st_raise WorkflowCancellationError.

Definition handle_exception (task_id : TaskID) (e : exn) : E unit :=
  retried ← _retry_failed_task task_id e;
  if retried : bool then mret tt else
  caught ← _catch_failed_task task_id e;
  if caught : bool then mret tt else
  _ ← act (SetStatus FAILED);
  _ ← _broadcast_exception WorkflowExecutionError;
  st_raise WorkflowExecutionError.

(** How a Ray task ends. *)
Inductive outcome :=
  | Value
  | Continuation
  | Raised (e : exn)
  | Cancelled.

(** [state.task_execution_metadata[task_id].finish_time = time.time()] *)
Definition set_finish_time (now : Q) (task_id : TaskID) : E unit :=
  state ← get_state;
  md ← st_lift (mget_exn task_id (task_execution_metadata state));
  modify_state (λ s, set_task_execution_metadata
    (<[task_id := mkMetadata (submit_time md) (Some now) (output_size md)]>
       (task_execution_metadata s)) s).

(** [_handle_ready_task], up to the await of a continuation's state, if there is one:
    the result says for which task the coroutine waits. *)
Definition _handle_ready_task (now : Q) (fut : Future) (o : outcome) : E (option TaskID) :=
  output_ref ← on_state (pop_running_frontier fut);
  let task_id := wr_task_id output_ref in
  match o with
  | Value =>
      _ ← try_except
            (_ ← set_finish_time now task_id;
             _ ← pop_retries task_id;
             post_process_value task_id output_ref)
            (handle_exception task_id);
      mret None
  | Continuation => λ x,
      match (_ ← set_finish_time now task_id; pop_retries task_id) x with
      | (x', Ok _) => (x', Ok (Some task_id))
      | (x', Err e) => (_ ← handle_exception task_id e; mret None) x'
      end
  | Raised e => _ ← handle_exception task_id e; mret None
  | Cancelled => _ ← handle_cancelled; mret None
  end.

(** The rest of [_handle_ready_task], when the state of the continuation is there or
    could not be read. *)
Definition handle_continuation (task_id : TaskID) (sub : result WorkflowExecutionState) : E unit :=
  try_except
    (sub ← st_lift sub; post_process_continuation task_id sub)
    (handle_exception task_id).
End order.

(** ** The main coroutine *)

(** The start of [run_until_complete]. *)
Definition run_begin (context : WorkflowTaskContext) : E unit :=
  _ ← act (SetStatus RUNNING);
  state ← get_state;
  output ← st_lift (of_option KeyError (output_task_id state));
  _ ← on_state (construct_scheduling_plan output);
  modify_state (init_context context).

(** Its end. *)
Definition run_end : E unit :=
  _ ← act (SetStatus SUCCESSFUL);
  st_modify (fail_pending ValueError).

(** ** The machine

    The event loop around the executor: where the main coroutine is, and what it and
    its environment can do next.  [Handling] holds the completions whose handlers
    [asyncio.gather] has still to start and the handlers that wait for a continuation.
    [Aborted] has the exception that reaches the main coroutine, the first one that a
    handler raised; [asyncio.gather] lets the other handlers go on, so it has those of
    them that are left, whose results nobody reads. *)
Inductive phase :=
  | LoopTop
  | Awaiting
  | Handling (ready : list (Future * outcome)) (suspended : list TaskID)
  | Finished
  | Aborted (ready : list (Future * outcome)) (suspended : list TaskID) (e : exn).

Record machine := mkMachine {
  executor : WorkflowExecutor;
  _completion_queue : list (Future * outcome);
  at_phase : phase
}.

Inductive event :=
  | RunsTurn (now : Q)
  | Completes (fut : Future) (o : outcome)
  | Polls
  | Handles (order : list TaskID → list TaskID) (now : Q)
  | Continues (order : list TaskID → list TaskID) (task_id : TaskID) (sub : result WorkflowExecutionState)
  | Gathered
  | AsksOutput (task_id : TaskID)
  | Cancels.

(** The completions that the executor has not handled. *)
Definition unhandled (m : machine) : list (Future * outcome) :=
  match at_phase m with Handling ready _ | Aborted ready _ _ => ready | _ => [] end ++
  _completion_queue m.

(** The main coroutine goes on in phase [k], unless there was an exception. *)
Definition go {A} (m : machine) (k : A → phase) (r : WorkflowExecutor * result A) : machine :=
  mkMachine r.1 (_completion_queue m)
    match r.2 with Ok a => k a | Err e => Aborted [] [] e end.

(** A handler has ended, with a result or an exception, or waits: those that are left are
    [ready] and [suspended], and this one if it waits. *)
Definition handled {A} (m : machine) (ready : list (Future * outcome)) (suspended : list TaskID)
    (waits : A → list TaskID) (r : WorkflowExecutor * result A) : machine :=
  mkMachine r.1 (_completion_queue m)
    match at_phase m, r.2 with
    | Aborted _ _ e, Ok a => Aborted ready (suspended ++ waits a) e
    | Aborted _ _ e, Err _ => Aborted ready suspended e
    | _, Ok a => Handling ready (suspended ++ waits a)
    | _, Err e => Aborted ready suspended e
    end.

Definition terminated (m : machine) : bool :=
  match at_phase m with Finished | Aborted _ _ _ => true | _ => false end.

(** [cancel]: the futures that are not done, and the Ray tasks of all. *)
Definition cancel (m : machine) : machine :=
  let x := executor m in
  let running := map_to_list (running_frontier (_state x)) in
  mkMachine
    (set_actions (actions x ++ ((λ p, RayCancel (wr_ref p.2)) <$> running)) x)
    (_completion_queue m ++
       ((λ p, (p.1, Cancelled)) <$> filter (λ p, p.1 ∉ (unhandled m).*1) running))
    (at_phase m).

(** What an event does, when it can happen. *)
Definition step (m : machine) (e : event) : option machine :=
  let x := executor m in
  match e, at_phase m with
  | RunsTurn now, LoopTop =>
      Some (if is_running x then go m (λ _, Awaiting) (submit_round now x)
            else go m (λ _, Finished) (run_end x))
  | Completes fut o, _ =>
      if decide (is_Some (running_frontier (_state x) !! fut) ∧ fut ∉ (unhandled m).*1) then
        if terminated m then None
        else Some (mkMachine x (_completion_queue m ++ [(fut, o)]) (at_phase m))
      else None
  | Polls, Awaiting =>
      match _completion_queue m with
      | [] => None
      | ready => Some (mkMachine x [] (Handling ready []))
      end
  | Handles order now, (Handling ((fut, o) :: ready) suspended | Aborted ((fut, o) :: ready) suspended _) =>
      Some (handled m ready suspended option_list (_handle_ready_task order now fut o x))
  | Continues order t sub, (Handling ready suspended | Aborted ready suspended _) =>
      if decide (t ∈ suspended) then
        Some (handled m ready (filter (λ t', t' ≠ t) suspended) (λ _, [])
                (handle_continuation order t sub x))
      else None
  | Gathered, Handling [] [] => Some (mkMachine x (_completion_queue m) LoopTop)
  | AsksOutput t, _ =>
      Some (mkMachine (get_task_output_async t x).1 (_completion_queue m) (at_phase m))
  | Cancels, _ => if terminated m then None else Some (cancel m)
  | _, _ => None
  end.

(** The start of [run_until_complete] on a new executor. *)
Definition start (context : WorkflowTaskContext) (state : WorkflowExecutionState) : machine :=
  let m := mkMachine (new_executor state) [] LoopTop in
  go m (λ _, LoopTop) (run_begin context (executor m)).

(** A run of the machine along a list of events. *)
Fixpoint run (m : machine) (es : list event) : option machine :=
  match es with
  | [] => Some m
  | e :: es => match step m e with Some m' => run m' es | None => None end
  end.
