(* ===== verification/WorkflowPlan.v ===== *)
(** * The invariant of a workflow, and its scheduling plan

    The invariant of the execution state for workflows whose tasks checkpoint their
    outputs and do not catch exceptions, and the proof that
    [construct_scheduling_plan] establishes it: the plan terminates, raises nothing
    and schedules what is missing. *)
From S2P Require Import Prelude WorkflowState.
From stdpp Require Import base tactics list gmap strings sets.

#[local] Open Scope Z_scope.

(** ** Notions *)

Section notions.
Implicit Types (s : WorkflowExecutionState) (t c r : TaskID).

(** The output of [t] is known; with checkpoints it stays so. *)
Definition avail s t : Prop := is_Some (checkpoint_map s !! t).

(** [t] needs the output of [c]. *)
Definition needs s t c : Prop := ∃ ups, upstream_dependencies s !! t = Some ups ∧ c ∈ ups.

(** [t] is the latest task of its chain of continuations. *)
Definition is_latest s t : Prop :=
  ∀ r, continuation_root s !! t = Some r → latest_continuation s !! r = Some t.

(** [t] produces an output itself. *)
Definition runnable s t : Prop :=
  is_Some (upstream_dependencies s !! t) ∧ latest_continuation s !! t = None ∧ is_latest s t.

(** The tasks of the fragment: checkpointed functions that do not catch exceptions. *)
Definition plain (task : Task) : Prop :=
  checkpoint (options task) = true ∧ catch_exceptions (options task) = false ∧
  task_type (options task) = FUNCTION.

#[export] Instance avail_dec s t : Decision (avail s t).
Proof. unfold avail. apply _. Defined.

(** The graph is closed and has no cycle: [rk] grows along dependencies and from a
    continuation to its root. *)
Record graph_ok (rk : TaskID → Z) s : Prop := {
  g_ups t ups : upstream_dependencies s !! t = Some ups →
    NoDup ups ∧
    ∀ c, c ∈ ups → avail s c ∨
      is_Some (upstream_dependencies s !! c) ∧ continuation_root s !! c = None ∧ rk c < rk t;
  g_latest r c : latest_continuation s !! r = Some c →
    is_Some (upstream_dependencies s !! r) ∧ continuation_root s !! c = Some r ∧
    (∀ u, needs s r u → avail s u) ∧
    (avail s r ∨ is_Some (upstream_dependencies s !! c) ∧ rk c < rk r);
  g_root c r : continuation_root s !! c = Some r →
    continuation_root s !! r = None ∧ is_Some (latest_continuation s !! r) ∧
    latest_continuation s !! c = None ∧ ¬ avail s c;
  g_tasks t : runnable s t → is_Some (tasks s !! t) ∧ is_Some (task_input_args s !! t);
  g_plain t task : tasks s !! t = Some task → plain task;
  g_known t : is_Some (tasks s !! t) → is_Some (upstream_dependencies s !! t);
  g_output t : is_Some (output_map s !! t) → avail s t
}.

(** [t] is scheduled or under way; [susp] are the tasks whose completion is being
    handled. *)
Definition active (susp : list TaskID) s t : Prop :=
  t ∈ frontier_to_run s ∨ t ∈ running_frontier_set s ∨ t ∈ susp.

(** The scheduling invariant.  [W] are tasks that are still to be planned. *)
Record sched_ok (susp : list TaskID) (W : list TaskID) s : Prop := {
  p_known t p : pending_input_set s !! t = Some p →
    is_Some (upstream_dependencies s !! t) ∧ ∀ c, c ∈ p ↔ needs s t c ∧ ¬ avail s c;
  p_refs t p c : pending_input_set s !! t = Some p → c ∈ p →
    t ∈ references c s ∧ (is_Some (pending_input_set s !! c) ∨ c ∈ W);
  p_ref_sound m c : m ∈ references c s → needs s m c ∧ is_Some (pending_input_set s !! m);
  p_active t : active susp s t →
    pending_input_set s !! t = Some ∅ ∧ runnable s t ∧ ¬ avail s (root_of t s);
  p_front_refs t c : t ∈ frontier_to_run s → needs s t c → t ∈ references c s;
  p_progress t : pending_input_set s !! t = Some ∅ → ¬ avail s (root_of t s) → is_latest s t →
    active susp s t ∨
    ∃ c, latest_continuation s !! t = Some c ∧ (is_Some (pending_input_set s !! c) ∨ c ∈ W);
  p_waiting t p : pending_input_set s !! t = Some p → p ≠ ∅ →
    is_latest s t ∧ ¬ avail s (root_of t s) ∧ ∀ c, needs s t c → t ∈ references c s;
  p_front_set : frontier_to_run_set s = list_to_set (frontier_to_run s);
  p_front_nodup : NoDup (frontier_to_run s);
  p_front_run t : t ∈ frontier_to_run s → t ∉ running_frontier_set s;
  p_susp t : t ∈ susp → t ∉ frontier_to_run s ∧ t ∉ running_frontier_set s
}.
End notions.

(** Adding a task changes the dependencies only. *)
Lemma add_dependencies_eq t ups s :
  ∃ D, add_dependencies t ups s =
    set_downstream_dependencies D (set_upstream_dependencies (<[t := ups]> (upstream_dependencies s)) s).
Proof.
  unfold add_dependencies. generalize (set_upstream_dependencies (<[t := ups]> (upstream_dependencies s)) s).
  induction ups as [|c ups IH]; intros s'; cbn; [exists (downstream_dependencies s'); by destruct s'|].
  destruct (IH (set_downstream_dependencies
    (<[c := default [] (downstream_dependencies s' !! c) ++ [t]]> (downstream_dependencies s')) s')) as [D ->].
  by exists D.
Qed.

(** ** The effect of a plan

    A plan changes references, pending inputs and the frontier only. *)
Definition with_plan (R P : gmap TaskID (gset TaskID)) (F : list TaskID)
    (s : WorkflowExecutionState) : WorkflowExecutionState :=
  set_frontier_to_run_set (list_to_set F)
    (set_frontier_to_run F (set_pending_input_set P (set_reference_set R s))).

Lemma get_input_avail rk s t : graph_ok rk s → get_input t s = None ↔ ¬ avail s t.
Proof.
  intros Hg. unfold get_input. pose proof (g_output _ _ Hg t) as Ho. unfold avail in *.
  destruct (output_map s !! t) eqn:Hm; [naive_solver|]. apply eq_None_not_Some.
Qed.

(** What the loop over the inputs adds. *)
Definition missing (s : WorkflowExecutionState) (ins : list TaskID) : list TaskID :=
  filter (λ c, ¬ avail s c) ins.

Definition add_references (tid : TaskID) (ins : list TaskID) (R : gmap TaskID (gset TaskID)) :=
  fold_left (λ R c, <[c := default ∅ (R !! c) ∪ {[tid]}]> R) ins R.

Lemma add_references_elem tid ins R c m :
  m ∈ default ∅ (add_references tid ins R !! c) ↔
  m ∈ default ∅ (R !! c) ∨ (m = tid ∧ c ∈ ins).
Proof.
  unfold add_references. revert R. induction ins as [|i ins IH]; intros R; cbn; [set_solver|].
  rewrite IH. destruct (decide (c = i)) as [->|Hne].
  - rewrite lookup_insert_eq. cbn. set_solver.
  - rewrite lookup_insert_ne by done. set_solver.
Qed.

Lemma avail_with_plan R P F s c : avail (with_plan R P F s) c ↔ avail s c.
Proof. done. Qed.

(** A graph invariant does not see a plan. *)
Lemma graph_with_plan rk R P F s : graph_ok rk (with_plan R P F s) ↔ graph_ok rk s.
Proof. split; intros []; by constructor. Qed.

Lemma plan_inputs_spec rk tid ins queue R P F s pend :
  graph_ok rk s → P !! tid = Some pend →
  plan_inputs tid ins queue (with_plan R P F s) =
    (with_plan (add_references tid ins R)
       (<[tid := pend ∪ list_to_set (missing s ins)]> P) F s,
     Ok (queue ++ missing s ins)).
Proof.
  intros Hg. revert queue R P pend. induction ins as [|c ins IH]; intros queue R P pend Hp.
  - cbn. unfold mret, st_ret. rewrite app_nil_r, union_empty_r_L, insert_id by done. done.
  - cbn [plan_inputs]. unfold mbind, st_bind, st_modify, st_get.
    change (set_references c _ (with_plan R P F s)) with
      (with_plan (<[c := default ∅ (R !! c) ∪ {[tid]}]> R) P F s).
    change (get_input c (with_plan _ P F s)) with (get_input c s).
    unfold missing. destruct (get_input c s) as [r|] eqn:Hc.
    + assert (avail s c) as Hav
        by (destruct (decide (avail s c)) as [|Hn]; [done|]; apply (get_input_avail rk) in Hn; congruence).
      rewrite filter_cons_False by by intros Hx. by apply IH.
    + apply (get_input_avail rk) in Hc; [|done]. rewrite filter_cons_True by done.
      unfold st_lift, mget_exn. cbn [pending_input_set with_plan set_frontier_to_run_set
        set_frontier_to_run set_pending_input_set]. rewrite Hp. cbn [of_option].
      change (set_pending tid ?v (with_plan ?R1 P F s)) with (with_plan R1 (<[tid := v]> P) F s).
      rewrite (IH _ _ _ (pend ∪ {[c]})) by by rewrite lookup_insert_eq.
      rewrite insert_insert_eq, <- (assoc_L (++)). cbn [app list_to_set].
      by rewrite <- (assoc_L (∪)).
Qed.

#[local] Arguments missing : simpl never.

(** ** The visit of a task *)

Lemma edges_remove s ts t ins :
  t ∈ ts → upstream_dependencies s !! t = Some ins →
  edges s ts = (length ins + edges s (ts ∖ {[t]}))%nat.
Proof.
  intros Ht Hins. unfold edges.
  rewrite (union_difference_singleton_L t ts Ht) at 1.
  rewrite elements_union_singleton by set_solver. cbn. by rewrite Hins.
Qed.

(** The tasks still to be planned can be fewer, when the others are planned. *)
Lemma sched_weaken susp W W' s :
  sched_ok susp W s →
  (∀ c, c ∈ W → c ∈ W' ∨ is_Some (pending_input_set s !! c)) →
  sched_ok susp W' s.
Proof.
  intros [] HW. constructor; try done.
  - intros t p c Hp Hc. destruct (p_refs0 t p c Hp Hc) as [? [?|Hw]]; [by auto|].
    destruct (HW c Hw); auto.
  - intros t Hp Hav Hl. destruct (p_progress0 t Hp Hav Hl) as [?|(c & Hc & [?|Hw])];
      [by left|right; by eauto|]. right. exists c. destruct (HW c Hw); auto.
Qed.

Lemma elem_of_missing s ins c : c ∈ missing s ins ↔ c ∈ ins ∧ ¬ avail s c.
Proof. unfold missing. rewrite list_elem_of_filter. naive_solver. Qed.

Section plan.
Context (rk : TaskID → Z) (susp : list TaskID) (s : WorkflowExecutionState).
Hypothesis Hg : graph_ok rk s.

(** The tasks that the plan may reach. *)
Context (K : TaskID → Prop).
Hypothesis K_ok : ∀ t, K t →
  is_Some (upstream_dependencies s !! t) ∧ ¬ avail s t ∧ ¬ avail s (root_of t s) ∧
  is_latest s t ∧ t ∉ susp.
Hypothesis K_up : ∀ t c, K t → needs s t c → ¬ avail s c → K c.
Hypothesis K_latest : ∀ t c, K t → latest_continuation s !! t = Some c → K c.

Section visit.
Context (R P : gmap TaskID (gset TaskID)) (F F' Q W' : list TaskID) (tid : TaskID) (ins : list TaskID).
Hypothesis Hs : sched_ok susp (tid :: Q) (with_plan R P F s).
Hypothesis HK : K tid.
Hypothesis Hins : upstream_dependencies s !! tid = Some ins.
Hypothesis HW : ∀ c,
  c ∈ Q ∨ c ∈ missing s ins ∨ latest_continuation s !! tid = Some c → c ∈ W'.
Hypothesis HF : F' = F ∨ F' = F ++ [tid] ∧ tid ∉ F ∧ tid ∉ running_frontier_set s ∧
  missing s ins = [] ∧ latest_continuation s !! tid = None.
Hypothesis Hrun : missing s ins = [] → latest_continuation s !! tid = None →
  tid ∈ F' ∨ tid ∈ running_frontier_set s.

Let P' := <[tid := list_to_set (missing s ins)]> P.
Let R' := add_references tid ins R.

Lemma visit_frontier t :
  t ∈ F' → t ∈ F ∨ t = tid ∧ missing s ins = [] ∧ latest_continuation s !! tid = None ∧
    tid ∉ running_frontier_set s.
Proof.
  destruct HF as [->|(-> & _ & Hnr & Hm & HL)]; [by left|].
  rewrite elem_of_app, list_elem_of_singleton. naive_solver.
Qed.

Lemma visit_frontier_mono t : t ∈ F → t ∈ F'.
Proof. destruct HF as [->|[-> _]]; [done|]. rewrite elem_of_app. by left. Qed.

(** The visit of a planned task finds its pending inputs again. *)
Lemma visit_again p : P !! tid = Some p → p = list_to_set (missing s ins).
Proof.
  intros Hp. destruct (p_known _ _ _ Hs tid p Hp) as [_ Hpk]. apply set_eq. intros c.
  rewrite Hpk, elem_of_list_to_set, elem_of_missing. unfold needs. cbn. rewrite Hins. naive_solver.
Qed.

Lemma visit_planned t : is_Some (P !! t) ∨ t = tid → is_Some (P' !! t).
Proof.
  intros Ht. unfold P'. destruct (decide (t = tid)) as [->|]; [by rewrite lookup_insert_eq|].
  rewrite lookup_insert_ne by done. naive_solver.
Qed.

Lemma visit_pending t p :
  P' !! t = Some p → t = tid ∧ p = list_to_set (missing s ins) ∨ t ≠ tid ∧ P !! t = Some p.
Proof.
  unfold P'. destruct (decide (t = tid)) as [->|]; [rewrite lookup_insert_eq; naive_solver|].
  rewrite lookup_insert_ne by done. auto.
Qed.

Lemma visit_active t :
  active susp (with_plan R' P' F' s) t →
  active susp (with_plan R P F s) t ∨
  t = tid ∧ missing s ins = [] ∧ latest_continuation s !! tid = None.
Proof.
  intros [Ht|Ht]; [|by left; right]. apply visit_frontier in Ht. unfold active. naive_solver.
Qed.

Lemma visit_sched : sched_ok susp W' (with_plan R' P' F' s).
Proof.
  destruct (K_ok _ HK) as (_ & _ & Hrav & Hlat & Hsusp).
  constructor.
  - intros t p [[-> ->]|[Hne Hp]]%visit_pending; [|by apply (p_known _ _ _ Hs)].
    cbn. rewrite Hins. split; [done|]. intros c.
    rewrite elem_of_list_to_set, elem_of_missing. unfold needs. cbn. rewrite Hins. naive_solver.
  - intros t p c Hp Hc. unfold references. cbn. unfold R'. rewrite add_references_elem.
    apply visit_pending in Hp as [[-> ->]|[Hne Hp]].
    + rewrite elem_of_list_to_set in Hc. split; [|by auto].
      apply elem_of_missing in Hc as [? _]. by right.
    + destruct (p_refs _ _ _ Hs t p c Hp Hc) as [Href Hpl]. split; [by left|].
      destruct Hpl as [?|[->|?]%elem_of_cons]; auto using visit_planned.
  - intros m c. unfold references. cbn. unfold R'. rewrite add_references_elem. intros [Hm|[-> Hc]].
    + destruct (p_ref_sound _ _ _ Hs m c Hm) as [? ?]. auto using visit_planned.
    + split; [by exists ins|]. auto using visit_planned.
  - intros t [Ht|(-> & Hm & HL)]%visit_active.
    + destruct (p_active _ _ _ Hs t Ht) as (Hp & Hr). split; [|done]. cbn in *.
      unfold P'. destruct (decide (t = tid)) as [->|]; [|by rewrite lookup_insert_ne].
      by rewrite lookup_insert_eq, <- (visit_again _ Hp).
    + cbn. unfold P'. rewrite lookup_insert_eq, Hm. split_and!; [done| |done].
      split_and!; [by exists ins|done|done].
  - intros t c Ht Hc. unfold references. cbn. unfold R'. rewrite add_references_elem.
    apply visit_frontier in Ht as [Ht|[-> _]].
    + left. by apply (p_front_refs _ _ _ Hs).
    + right. destruct Hc as (ins' & Hins' & Hc). cbn in Hins'. naive_solver.
  - intros t Hp Hav Hl. apply visit_pending in Hp as [[-> Hp]|[Hne Hp]].
    + assert (missing s ins = []) as Hm by (destruct (missing s ins); [done|set_solver]).
      destruct (latest_continuation s !! tid) as [c|] eqn:HL; [right; exists c; split; [done|right; apply HW; auto]|].
      left. destruct (Hrun Hm eq_refl); [left|right; left]; done.
    + destruct (p_progress _ _ _ Hs t Hp Hav Hl) as [[?|?]|(c & HL & Hc)].
      * left. left. by apply visit_frontier_mono.
      * left. by right.
      * right. exists c. split; [done|]. destruct Hc as [?|[->|?]%elem_of_cons]; auto using visit_planned.
  - intros t p Hp Hne. unfold references. cbn. unfold R'. apply visit_pending in Hp as [[-> ->]|[_ Hp]].
    + split_and!; [done..|]. intros c (ins' & Hins' & Hc). rewrite add_references_elem. right.
      cbn in Hins'. split; congruence.
    + destruct (p_waiting _ _ _ Hs t p Hp Hne) as (? & ? & Hall). split_and!; [done..|].
      intros c Hc. rewrite add_references_elem. left. by apply Hall.
  - done.
  - cbn. destruct HF as [->|(-> & Hnin & _)]; [apply Hs|]. apply NoDup_app.
    split_and!; [apply Hs| |apply NoDup_singleton]. set_solver.
  - intros t [Ht|(-> & _ & _ & Hnr)]%visit_frontier; [|done]. by apply (p_front_run _ _ _ Hs).
  - intros t Ht. destruct (p_susp _ _ _ Hs t Ht) as [Hnf Hnr]. split; [|done].
    intros [?|[-> _]]%visit_frontier; done.
Qed.
End visit.

(** ** The loop *)

Lemma run_plan_visit construct R P F tid ins queue :
  upstream_dependencies s !! tid = Some ins →
  plan_visit construct tid queue (with_plan R P F s) =
    match plan_ready construct tid
      (with_plan (add_references tid ins R) (<[tid := list_to_set (missing s ins)]> P) F s) with
    | (s', Ok _) => (s', Ok (queue ++ missing s ins))
    | (s', Err e) => (s', Err e)
    end.
Proof.
  intros Hins. unfold plan_visit, mbind, st_bind, st_modify, st_get, st_lift.
  change (set_pending tid ∅ (with_plan R P F s)) with (with_plan R (<[tid := ∅]> P) F s).
  unfold mget_exn. cbn [upstream_dependencies with_plan set_frontier_to_run_set
    set_frontier_to_run set_pending_input_set set_reference_set]. rewrite Hins. cbn [of_option].
  rewrite (plan_inputs_spec rk _ _ _ _ _ _ _ ∅) by first [done|by rewrite lookup_insert_eq].
  rewrite insert_insert_eq, union_empty_l_L. by destruct (plan_ready _ _ _) as [? [[]|]].
Qed.

Lemma run_append tid R P F :
  append_frontier_to_run tid (with_plan R P F s) =
    (with_plan R P (if decide (tid ∉ F ∧ tid ∉ running_frontier_set s) then F ++ [tid] else F) s,
     Ok tt).
Proof.
  unfold append_frontier_to_run, st_modify. cbn.
  assert ((tid ∉ (list_to_set F : gset TaskID) ∧ tid ∉ running_frontier_set s) ↔
    (tid ∉ F ∧ tid ∉ running_frontier_set s)) as Heq by (by rewrite elem_of_list_to_set).
  destruct (decide (tid ∉ F ∧ _)) as [Hd|Hd];
    [rewrite decide_True by by apply Heq|rewrite decide_False; [done|by rewrite Heq]].
  unfold with_plan. by rewrite list_to_set_app_L, list_to_set_singleton_L.
Qed.

(** What is known of a plan's result. *)
Definition planned (D : TaskID → Prop) (W : list TaskID)
    (m : WorkflowExecutionState * result unit) : Prop :=
  ∃ R' P' F', m = (with_plan R' P' F' s, Ok tt) ∧ sched_ok susp W (with_plan R' P' F' s) ∧
    ∀ t, D t → is_Some (P' !! t).

(** That a nested plan of a task below the rank [b] succeeds. *)
Definition plans_below (construct : TaskID → M unit) (b : Z) : Prop :=
  ∀ c Q R P F, K c → rk c < b → sched_ok susp (c :: Q) (with_plan R P F s) →
    planned (λ t, is_Some (P !! t) ∨ t = c) Q (construct c (with_plan R P F s)).

(** The visit of a task of [K], when nested plans succeed. *)
Lemma plan_visit_spec construct tid ins Q W R P F :
  plans_below construct (rk tid) →
  sched_ok susp (tid :: Q ++ W) (with_plan R P F s) → K tid →
  upstream_dependencies s !! tid = Some ins →
  ∃ R' P' F',
    plan_visit construct tid Q (with_plan R P F s) =
      (with_plan R' P' F' s, Ok (Q ++ missing s ins)) ∧
    sched_ok susp ((Q ++ missing s ins) ++ W)
      (with_plan R' P' F' s) ∧
    ∀ t, is_Some (P !! t) ∨ t = tid → is_Some (P' !! t).
Proof.
  intros Hc Hs HK Hins.
  rewrite (run_plan_visit _ _ _ _ _ ins) by done.
  unfold plan_ready, mbind, st_bind, st_get, st_lift, mget_exn.
  cbn [pending_input_set with_plan set_frontier_to_run_set set_frontier_to_run
    set_pending_input_set latest_continuation set_reference_set].
  rewrite lookup_insert_eq. cbn [of_option].
  destruct (latest_continuation s !! tid) as [c|] eqn:HL.
  - destruct (g_latest _ _ Hg _ _ HL) as (_ & _ & Hall & [Hav|[_ Hrk]]); [by apply K_ok in HK as (_ & ? & _)|].
    assert (missing s ins = []) as Hm.
    { destruct (missing s ins) as [|u us] eqn:Hm; [done|].
      assert (u ∈ missing s ins) as [Hu Hn]%elem_of_missing by (rewrite Hm; left).
      destruct Hn. apply Hall. by exists ins. }
    rewrite decide_True by (by rewrite Hm). rewrite Hm, app_nil_r.
    destruct (Hc c (Q ++ W) (add_references tid ins R) (<[tid := list_to_set (missing s ins)]> P) F)
      as (R' & P' & F' & Hrun & Hs' & Hmono); [by eapply K_latest|done| |].
    + eapply visit_sched; [exact Hs|done|done| |by left|by rewrite HL].
      intros u [?|[Hu|Hu]]; [by right|rewrite Hm in Hu; by apply not_elem_of_nil in Hu|].
      rewrite HL in Hu. simplify_eq. left.
    + exists R', P', F'. rewrite Hm in Hrun. cbn in Hrun |- *. rewrite Hrun. split_and!; [done..|].
      intros t Ht. apply Hmono. left. by apply visit_planned.
  - case_decide as Hm.
    + assert (missing s ins = []) as Hm' by (destruct (missing s ins); [done|set_solver]).
      rewrite run_append. eexists _, _, _. split_and!; [done| |intros; by apply visit_planned].
      replace (Q ++ missing s ins) with Q by (by rewrite Hm', app_nil_r).
      eapply visit_sched; [exact Hs|done|done|..].
      * intros u [?|[Hu|Hu]]; [done|rewrite Hm' in Hu; by apply not_elem_of_nil in Hu|congruence].
      * destruct (decide (tid ∉ F ∧ _)) as [[? ?]|]; [right; split_and!; done|by left].
      * intros _ _. destruct (decide (tid ∉ F ∧ _)) as [Hd|Hd]; [left; apply elem_of_app; right; left|].
        destruct (decide (tid ∈ F)); [by left|]. right. by apply dec_stable; intros ?; apply Hd.
    + eexists _, _, _. split_and!; [done| |intros; by apply visit_planned].
      eapply visit_sched; [exact Hs|done|done| |by left|].
      * intros u [Hu|[Hu|Hu]]; [|set_solver +Hu|congruence].
        apply elem_of_app in Hu as [?|?]; rewrite !elem_of_app; auto.
      * intros Hm'. by rewrite Hm' in Hm.
Qed.

Lemma plan_loop_spec construct b fuel V Q W R P F :
  plans_below construct b →
  sched_ok susp (Q ++ W) (with_plan R P F s) →
  (∀ q, q ∈ Q → K q ∧ rk q <= b) →
  (∀ v, v ∈ V → is_Some (P !! v)) →
  (length Q + edges s (dom (upstream_dependencies s) ∖ V) ≤ fuel)%nat →
  planned (λ t, is_Some (P !! t) ∨ t ∈ Q) W (plan_loop construct fuel V Q (with_plan R P F s)).
Proof.
  intros Hc. revert V Q R P F. induction fuel as [|fuel IH]; intros V Q R P F Hs HQ HV Hfuel;
    (destruct Q as [|tid Q];
     [exists R, P, F; split_and!; [done..|intros t [?|[]%not_elem_of_nil]; done]|]); [cbn in Hfuel; lia|].
  cbn [plan_loop]. case_decide as Hvis.
  - destruct (IH V Q R P F) as (R' & P' & F' & Hrun & Hs' & Hmono);
      [| |done|cbn in Hfuel; lia|].
    + eapply sched_weaken; [exact Hs|]. cbn. intros c [->|?]%elem_of_cons; [right; by apply HV|by left].
    + intros q Hq. apply HQ. by right.
    + exists R', P', F'. split_and!; [done..|]. intros t [?|[->|?]%elem_of_cons]; apply Hmono; auto.
  - destruct (HQ tid) as [HK Hrk]; [left|]. destruct (K_ok _ HK) as ([ins Hins] & _).
    destruct (plan_visit_spec construct tid ins Q W R P F) as (R1 & P1 & F1 & Hrun1 & Hs1 & Hmono1);
      [intros c Q' R' P' F' ? ?; apply Hc; [done|lia]|done..|].
    unfold mbind, st_bind. rewrite Hrun1.
    destruct (IH (V ∪ {[tid]}) (Q ++ missing s ins) R1 P1 F1) as (R' & P' & F' & Hrun & Hs' & Hmono).
    + done.
    + intros q [Hq|[Hq Hav]%elem_of_missing]%elem_of_app; [apply HQ; by right|].
      assert (needs s tid q) as Hn by by exists ins. split; [by eapply K_up|].
      destruct (g_ups _ _ Hg _ _ Hins) as [_ Hall]. destruct (Hall q Hq) as [|(_ & _ & ?)]; [done|lia].
    + intros v [?| ->%elem_of_singleton]%elem_of_union; apply Hmono1; auto.
    + rewrite (edges_remove _ _ tid ins) in Hfuel; [|apply elem_of_difference; split; [|done]; by eapply elem_of_dom_2|done].
      rewrite difference_union_distr_r_L, length_app. cbn in Hfuel.
      assert (length (missing s ins) ≤ length ins)%nat by apply length_filter.
      replace (dom (upstream_dependencies s) ∖ V ∩ (dom (upstream_dependencies s) ∖ {[tid]}))
        with (dom (upstream_dependencies s) ∖ V ∖ {[tid]}) by set_solver +. lia.
    + exists R', P', F'. split_and!; [done..|].
      intros t [?|[->|?]%elem_of_cons]; apply Hmono; [left; auto..|right; apply elem_of_app; auto].
Qed.

(** The number of tasks that are not above [t]. *)
Definition rank_depth (t : TaskID) : nat :=
  size (filter (λ x, rk x <= rk t) (dom (upstream_dependencies s))).

Lemma rank_depth_lt c t :
  is_Some (upstream_dependencies s !! t) → rk c < rk t → (rank_depth c < rank_depth t)%nat.
Proof.
  intros Ht Hlt. unfold rank_depth. apply subset_size. split.
  - intros x. rewrite !elem_of_filter. intros [? ?]. split; [lia|done].
  - intros Hsub. specialize (Hsub t). rewrite !elem_of_filter, !elem_of_dom in Hsub.
    destruct Hsub as [? _]; [split; [lia|done]|]. lia.
Qed.

(** The plan of a task that is missing: no exception, and the invariant. *)
Lemma construct_plan_spec depth task Q R P F :
  K task → (rank_depth task ≤ depth)%nat →
  sched_ok susp (task :: Q) (with_plan R P F s) →
  planned (λ t, is_Some (P !! t) ∨ t = task) Q (construct_plan depth task (with_plan R P F s)).
Proof.
  revert task Q R P F. induction depth as [|depth IH]; intros task Q R P F HK Hd Hs;
    destruct (K_ok _ HK) as (Hu & Hav & _).
  - exfalso. apply Nat.le_0_r in Hd. unfold rank_depth in Hd. apply size_empty_inv in Hd.
    eapply (not_elem_of_empty (C := gset TaskID)). rewrite <- Hd. apply elem_of_filter.
    split; [|by apply elem_of_dom]. apply Z.le_refl.
  - cbn [construct_plan]. unfold mbind, st_bind, st_get.
    change (get_input task (with_plan R P F s)) with (get_input task s).
    rewrite (proj2 (get_input_avail rk s task Hg) Hav).
    change (plan_fuel (with_plan R P F s)) with (plan_fuel s).
    destruct (plan_loop_spec (construct_plan depth) (rk task) (plan_fuel s) ∅ [task] Q R P F)
      as (R' & P' & F' & Hrun & Hs' & Hmono).
    + intros c Q' R1 P1 F1 HKc Hlt Hs1. apply IH; [done| |done].
      pose proof (rank_depth_lt c task Hu Hlt). lia.
    + done.
    + intros q ->%list_elem_of_singleton. done.
    + intros v []%not_elem_of_empty.
    + unfold plan_fuel. rewrite difference_empty_L. cbn. lia.
    + exists R', P', F'. split_and!; [done..|]. intros t [?| ->]; apply Hmono; [by left|right; left].
Qed.
End plan.

(** ** Plans of a whole state *)

Lemma with_plan_self s :
  frontier_to_run_set s = list_to_set (frontier_to_run s) →
  with_plan (reference_set s) (pending_input_set s) (frontier_to_run s) s = s.
Proof. destruct s; cbn. intros ->. done. Qed.

Lemma construct_scheduling_plan_spec rk susp s (K : TaskID → Prop) task :
  graph_ok rk s →
  (∀ t, K t → is_Some (upstream_dependencies s !! t) ∧ ¬ avail s t ∧ ¬ avail s (root_of t s) ∧
     is_latest s t ∧ t ∉ susp) →
  (∀ t c, K t → needs s t c → ¬ avail s c → K c) →
  (∀ t c, K t → latest_continuation s !! t = Some c → K c) →
  K task → sched_ok susp [task] s →
  planned susp s (λ t, is_Some (pending_input_set s !! t) ∨ t = task) []
    (construct_scheduling_plan task s).
Proof.
  intros Hg HK1 HK2 HK3 HK Hs. unfold construct_scheduling_plan, mbind, st_bind, st_get.
  rewrite <- (with_plan_self s) at 3 by apply Hs.
  apply (construct_plan_spec rk susp s Hg K); try done.
  - unfold rank_depth. rewrite <- size_dom.
    transitivity (size (dom (upstream_dependencies s))); [|lia].
    apply subseteq_size. intros x [_ ?]%elem_of_filter. done.
  - by rewrite with_plan_self by apply Hs.
Qed.

(** A retry: the task has its inputs and goes back to the frontier. *)
Lemma construct_scheduling_plan_ready rk s t ins :
  graph_ok rk s → frontier_to_run_set s = list_to_set (frontier_to_run s) →
  upstream_dependencies s !! t = Some ins → latest_continuation s !! t = None → ¬ avail s t →
  (∀ c, c ∈ ins → avail s c) → t ∉ frontier_to_run s → t ∉ running_frontier_set s →
  construct_scheduling_plan t s =
    (with_plan (add_references t ins (reference_set s)) (<[t := ∅]> (pending_input_set s))
       (frontier_to_run s ++ [t]) s, Ok tt).
Proof.
  intros Hg Hset Hins HL Hav Hall Hnf Hnr.
  assert (missing s ins = []) as Hm.
  { destruct (missing s ins) as [|u us] eqn:Hm; [done|].
    assert (u ∈ missing s ins) as [Hu Hn]%elem_of_missing by (rewrite Hm; left). by destruct Hn; auto. }
  unfold construct_scheduling_plan, mbind, st_bind, st_get. cbn [construct_plan].
  unfold mbind, st_bind, st_get. rewrite (proj2 (get_input_avail rk s t Hg) Hav).
  unfold plan_fuel. cbn [plan_loop]. rewrite decide_False by apply not_elem_of_empty.
  unfold mbind, st_bind. rewrite <- (with_plan_self s Hset) at 2.
  rewrite (run_plan_visit rk s Hg _ _ _ _ _ ins) by done.
  unfold plan_ready, mbind, st_bind, st_get, st_lift, mget_exn.
  cbn [pending_input_set with_plan set_frontier_to_run_set set_frontier_to_run
    set_pending_input_set latest_continuation set_reference_set].
  rewrite lookup_insert_eq, HL, Hm. cbn [of_option]. rewrite decide_True by done.
  rewrite run_append, decide_True by done. cbn [app]. by destruct (edges _ _).
Qed.
