(* ===== verification/WorkflowStateProofs.v ===== *)
(** * What the executor does to the state of a workflow

    The invariant of a running workflow, and that each of the executor's changes to
    the state preserves it: polling, submission, garbage collection, the completion of
    a task, its retry and its continuation. *)
From S2P Require Import Prelude WorkflowState WorkflowPlan.
From stdpp Require Import base tactics list gmap strings sets.

#[local] Open Scope Z_scope.

Lemma difference_singleton_empty (X : gset TaskID) x : X ∖ {[x]} = ∅ → X ≠ ∅ → X = {[x]}.
Proof.
  intros He Hne. assert (∀ z, z ∈ X → z = x) as HX.
  { intros z Hz. destruct (decide (z = x)); [done|]. assert (z ∈ X ∖ {[x]}) as Hd by set_solver.
    rewrite He in Hd. by apply not_elem_of_empty in Hd. }
  destruct (set_choose_L X Hne) as [y Hy]. apply set_eq. intros z. rewrite elem_of_singleton.
  split; [apply HX|]. intros ->. by rewrite <- (HX y Hy).
Qed.

(** The invariant of the state; [susp] are the tasks that are being handled. *)
Record state_ok (rk : TaskID → Z) (susp : list TaskID) (s : WorkflowExecutionState) : Prop := {
  s_graph : graph_ok rk s;
  s_sched : sched_ok susp [] s;
  s_susp_nodup : NoDup susp;
  s_context t task : tasks s !! t = Some task → ∃ ctx,
    task_context s !! t = Some ctx ∧ ctx_task_id ctx = t ∧
    (creator_task_id ctx = ""%string ∨
     is_Some (upstream_dependencies s !! creator_task_id ctx) ∧ rk t < rk (creator_task_id ctx));
  s_driver : upstream_dependencies s !! ""%string = None;
  s_running t : t ∈ running_frontier_set s ↔
    ∃ fut ref, running_frontier s !! fut = Some ref ∧ wr_task_id ref = t;
  s_running_inj f1 f2 r1 r2 :
    running_frontier s !! f1 = Some r1 → running_frontier s !! f2 = Some r2 →
    wr_task_id r1 = wr_task_id r2 → f1 = f2;
  s_metadata t : t ∈ running_frontier_set s → is_Some (task_execution_metadata s !! t);
  s_free c : c ∈ free_outputs s → avail s c;
  s_done c : c ∈ done_tasks s → avail s c;
  s_goal o : output_task_id s = Some o →
    avail s o ∨ is_Some (pending_input_set s !! o) ∧ continuation_root s !! o = None
}.

(** The invariant of a state that has been planned. *)
Lemma state_ok_planned rk susp R P F s :
  graph_ok rk s → sched_ok susp [] (with_plan R P F s) → NoDup susp →
  (∀ t task, tasks s !! t = Some task → ∃ ctx,
    task_context s !! t = Some ctx ∧ ctx_task_id ctx = t ∧
    (creator_task_id ctx = ""%string ∨
     is_Some (upstream_dependencies s !! creator_task_id ctx) ∧ rk t < rk (creator_task_id ctx))) →
  upstream_dependencies s !! ""%string = None →
  (∀ t, t ∈ running_frontier_set s ↔
    ∃ fut ref, running_frontier s !! fut = Some ref ∧ wr_task_id ref = t) →
  (∀ f1 f2 r1 r2, running_frontier s !! f1 = Some r1 → running_frontier s !! f2 = Some r2 →
    wr_task_id r1 = wr_task_id r2 → f1 = f2) →
  (∀ t, t ∈ running_frontier_set s → is_Some (task_execution_metadata s !! t)) →
  (∀ c, c ∈ free_outputs s ∨ c ∈ done_tasks s → avail s c) →
  (∀ o, output_task_id s = Some o →
    avail s o ∨ is_Some (P !! o) ∧ continuation_root s !! o = None) →
  state_ok rk susp (with_plan R P F s).
Proof.
  intros Hg ? ? ? ? ? ? ? Hav ?. constructor; try done; [by apply graph_with_plan|..];
    intros c Hc; apply Hav; auto.
Qed.

(** ** Facts *)

Section facts.
Context {rk : TaskID → Z} {susp : list TaskID} {s : WorkflowExecutionState}.
Hypothesis Hok : state_ok rk susp s.

(** A task that is under way has its inputs. *)
Lemma active_inputs t c : active susp s t → needs s t c → avail s c.
Proof.
  intros Ht Hc. destruct (p_active _ _ _ (s_sched _ _ _ Hok) t Ht) as (Hp & _).
  destruct (p_known _ _ _ (s_sched _ _ _ Hok) t _ Hp) as [_ Hpk].
  destruct (decide (avail s c)) as [|Hn]; [done|].
  destruct (not_elem_of_empty (C := gset TaskID) c). by apply Hpk.
Qed.

(** Two tasks that produce the same output are the same. *)
Lemma runnable_inj a b : runnable s a → runnable s b → root_of a s = root_of b s → a = b.
Proof.
  intros (_ & HLa & Hla) (_ & HLb & Hlb) Heq. unfold root_of in Heq.
  destruct (continuation_root s !! a) as [ra|] eqn:Hra, (continuation_root s !! b) as [rb|] eqn:Hrb;
    cbn in Heq; subst; [|..|done].
  - apply Hla in Hra. apply Hlb in Hrb. congruence.
  - apply Hla in Hra. congruence.
  - apply Hlb in Hrb. congruence.
Qed.

Lemma active_task t : active susp s t →
  ∃ task args ups ctx, tasks s !! t = Some task ∧ plain task ∧ task_input_args s !! t = Some args ∧
    upstream_dependencies s !! t = Some ups ∧ NoDup ups ∧ task_context s !! t = Some ctx ∧
    ctx_task_id ctx = t.
Proof.
  intros Ht. destruct (p_active _ _ _ (s_sched _ _ _ Hok) t Ht) as (_ & Hr & _).
  destruct (g_tasks _ _ (s_graph _ _ _ Hok) t Hr) as [[task Htask] [args Hargs]].
  destruct (s_context _ _ _ Hok t task Htask) as (ctx & Hctx & Hid & _).
  destruct Hr as [[ups Hups] _].
  exists task, args, ups, ctx. split_and!; try done.
  - by eapply (g_plain _ _ (s_graph _ _ _ Hok)).
  - by eapply (g_ups _ _ (s_graph _ _ _ Hok)).
Qed.

Lemma active_not_avail t : active susp s t → ¬ avail s t.
Proof.
  intros Ht. destruct (p_active _ _ _ (s_sched _ _ _ Hok) t Ht) as (_ & _ & Hav).
  unfold root_of in Hav. destruct (continuation_root s !! t) as [r|] eqn:Hr; [|done].
  by destruct (g_root _ _ (s_graph _ _ _ Hok) _ _ Hr) as (_ & _ & _ & ?).
Qed.

(** A task that waits is no root of a continuation. *)
Lemma waiting_runnable t p c :
  pending_input_set s !! t = Some p → c ∈ p → runnable s t ∧ ¬ avail s (root_of t s).
Proof.
  intros Hp Hc. destruct (p_known _ _ _ (s_sched _ _ _ Hok) t p Hp) as [Hu Hpk].
  destruct (p_waiting _ _ _ (s_sched _ _ _ Hok) t p Hp) as (Hl & Hav & _); [set_solver|].
  split; [|done]. split_and!; [done| |done].
  destruct (latest_continuation s !! t) as [c'|] eqn:HL; [|done].
  destruct (g_latest _ _ (s_graph _ _ _ Hok) _ _ HL) as (_ & _ & Hall & _).
  apply Hpk in Hc as [Hn Hna]. by destruct Hna; apply Hall.
Qed.
End facts.

(** Prove the invariant of a state that differs in parts that it does not see; the
    clauses that it does see are left. *)
Ltac frame_ok H :=
  let Hg := fresh "Hg" in let Hs := fresh "Hs" in
  destruct H as [Hg Hs Hnd Hctx Hdrv Hrun Hinj Hmd Hfr Hdn Hgl]; constructor;
    [try (destruct Hg; by constructor)|try (destruct Hs; by constructor)|try done..].

Lemma state_ok_retries rk susp v s : state_ok rk susp s → state_ok rk susp (set_task_retries v s).
Proof. intros H. frame_ok H. Qed.

Lemma state_ok_metadata rk susp t md s :
  state_ok rk susp s →
  state_ok rk susp (set_task_execution_metadata (<[t := md]> (task_execution_metadata s)) s).
Proof.
  intros H. frame_ok H. cbn. intros t' Ht'. destruct (decide (t' = t)) as [->|].
  - by rewrite lookup_insert_eq.
  - rewrite lookup_insert_ne by done. auto.
Qed.

(** ** Submission *)

(** Polling: the tasks of the frontier are handed to the caller. *)
Lemma state_ok_poll rk susp s :
  state_ok rk susp s →
  state_ok rk (frontier_to_run s ++ susp)
    (set_frontier_to_run_set ∅ (set_frontier_to_run [] s)).
Proof.
  intros H. assert (∀ t, active (frontier_to_run s ++ susp)
    (set_frontier_to_run_set ∅ (set_frontier_to_run [] s)) t ↔ active susp s t) as Hact.
  { intros t. unfold active. cbn. rewrite elem_of_app. set_solver. }
  pose proof (s_sched _ _ _ H) as Hs. frame_ok H.
  - constructor; try apply Hs; cbn; try done.
    + intros t Ht%Hact. by apply (p_active _ _ _ Hs).
    + by intros t c []%not_elem_of_nil.
    + intros t Hp Hav Hl. destruct (p_progress _ _ _ Hs t Hp Hav Hl) as [?|]; [|by right].
      left. by apply Hact.
    + constructor.
    + by intros t ?%not_elem_of_nil.
    + intros t Ht. split; [apply not_elem_of_nil|].
      apply elem_of_app in Ht as [?|?]; [by apply (p_front_run _ _ _ Hs)|].
      by apply (p_susp _ _ _ Hs).
  - apply NoDup_app. split_and!; [apply Hs| |done]. intros t Ht Hsu.
    by destruct (p_susp _ _ _ Hs t Hsu).
Qed.

(** A task goes from the hands of the executor to the running frontier. *)
Lemma state_ok_submit rk susp t fut ref now s :
  state_ok rk (t :: susp) s → running_frontier s !! fut = None →
  state_ok rk susp
    (set_task_execution_metadata (<[t := now]> (task_execution_metadata s))
       (insert_running_frontier fut (mkRef t ref) s)).
Proof.
  intros H Hfresh. pose proof (s_sched _ _ _ H) as Hs.
  assert (t ∉ frontier_to_run s ∧ t ∉ running_frontier_set s) as [Htf Htr]
    by (apply (p_susp _ _ _ Hs); left).
  assert (t ∉ susp) as Hts by (pose proof (s_susp_nodup _ _ _ H) as Hd; by apply NoDup_cons in Hd as [? _]).
  assert (∀ t', active susp (insert_running_frontier fut (mkRef t ref) s) t' ↔
    active (t :: susp) s t') as Hact by (intros t'; unfold active; cbn; set_solver).
  frame_ok H.
  - constructor; try apply Hs; cbn.
    + intros t' Ht'%Hact. by apply (p_active _ _ _ Hs).
    + intros t' Hp Hav Hl. destruct (p_progress _ _ _ Hs t' Hp Hav Hl) as [?|]; [|by right].
      left. by apply Hact.
    + intros t' Ht'. pose proof (p_front_run _ _ _ Hs t' Ht'). set_solver.
    + intros t' Ht'. destruct (p_susp _ _ _ Hs t'); [by right|]. set_solver.
  - by apply NoDup_cons in Hnd as [_ ?].
  - intros t'. cbn. rewrite elem_of_union, elem_of_singleton, Hrun. split.
    + intros [(f & r & Hf & Hr)| ->].
      * exists f, r. rewrite lookup_insert_ne; [done|congruence].
      * exists fut, (mkRef t ref). by rewrite lookup_insert_eq.
    + intros (f & r & Hf & Hr). destruct (decide (f = fut)) as [->|].
      * rewrite lookup_insert_eq in Hf. simplify_eq/=. by right.
      * rewrite lookup_insert_ne in Hf by done. left. eauto.
  - assert (∀ f r, running_frontier s !! f = Some r → wr_task_id r ≠ t) as Hne.
    { intros f r Hf <-. apply Htr, Hrun. eauto. }
    intros f1 f2 r1 r2. cbn. rewrite !lookup_insert_Some. intros [[<- <-]|[? Hf1]] [[<- <-]|[? Hf2]]; cbn;
      [done| | |by eapply Hinj].
    + intros Heq. by destruct (Hne _ _ Hf2).
    + intros Heq. by destruct (Hne _ _ Hf1).
  - intros t'. cbn. intros Ht'. destruct (decide (t' = t)) as [->|]; [by rewrite lookup_insert_eq|].
    rewrite lookup_insert_ne by done. apply Hmd. set_solver.
Qed.

(** A submitted task gives up a reference. *)
Lemma state_ok_drop rk susp t c free R s :
  state_ok rk susp s →
  pending_input_set s !! t = Some ∅ → t ∉ frontier_to_run s →
  (∀ c', c' ∈ free → c' ∈ free_outputs s ∨ avail s c') →
  (∀ c' m, m ∈ default ∅ (R !! c') ↔ m ∈ references c' s ∧ ¬ (c' = c ∧ m = t)) →
  state_ok rk susp (set_free_outputs free (set_reference_set R s)).
Proof.
  intros H Hp Htf Hfree HR. pose proof (s_sched _ _ _ H) as Hs. frame_ok H.
  - constructor; try apply Hs; cbn; unfold references; cbn.
    + intros t' p c' Hp' Hc'. destruct (p_refs _ _ _ Hs t' p c' Hp' Hc') as [? ?]. split; [|done].
      rewrite HR. split; [done|]. intros [-> ->]. rewrite Hp in Hp'. simplify_eq. set_solver.
    + intros m c' [Hm _]%HR. by apply (p_ref_sound _ _ _ Hs).
    + intros t' c' Ht' Hn. rewrite HR. split; [by apply (p_front_refs _ _ _ Hs)|]. by intros [-> ->].
    + intros t' p Hp' Hne. destruct (p_waiting _ _ _ Hs t' p Hp' Hne) as (? & ? & Hall).
      split_and!; [done..|]. intros c' Hc'. rewrite HR. split; [by apply Hall|]. intros [-> ->].
      rewrite Hp in Hp'. simplify_eq.
  - intros c' [?|?]%Hfree; [by apply Hfr|done].
Qed.

(** Garbage collection: with checkpoints it loses nothing. *)
Lemma state_ok_collect rk susp c s :
  state_ok rk susp s →
  state_ok rk susp
    (set_output_map (delete c (output_map s)) (set_free_outputs (free_outputs s ∖ {[c]}) s)).
Proof.
  intros H. frame_ok H.
  - destruct Hg. constructor; try done. cbn. intros t Ht. apply g_output. revert Ht. rewrite lookup_delete_is_Some. tauto.
  - cbn. set_solver.
Qed.

(** ** Completion *)

(** A running task is taken off the running frontier, to be handled. *)
Lemma state_ok_pop_running rk susp fut ref s :
  state_ok rk susp s → running_frontier s !! fut = Some ref →
  state_ok rk (wr_task_id ref :: susp)
    (set_running_frontier_set (running_frontier_set s ∖ {[wr_task_id ref]})
       (set_running_frontier (delete fut (running_frontier s)) s)).
Proof.
  intros H Hfut. pose proof (s_sched _ _ _ H) as Hs. set (t := wr_task_id ref).
  assert (t ∈ running_frontier_set s) as Htr by (apply (s_running _ _ _ H); eauto).
  assert (t ∉ frontier_to_run s) as Htf by (intros Hin; by apply (p_front_run _ _ _ Hs) in Hin).
  assert (t ∉ susp) as Hts by (intros Hin; by destruct (p_susp _ _ _ Hs t Hin)).
  assert (∀ t', active (t :: susp) (set_running_frontier_set (running_frontier_set s ∖ {[t]})
       (set_running_frontier (delete fut (running_frontier s)) s)) t' ↔ active susp s t') as Hact.
  { intros t'. unfold active. cbn. destruct (decide (t' = t)) as [->|]; set_solver. }
  frame_ok H.
  - constructor; try apply Hs; cbn.
    + intros t' Ht'%Hact. by apply (p_active _ _ _ Hs).
    + intros t' Hp Hav Hl. destruct (p_progress _ _ _ Hs t' Hp Hav Hl) as [?|]; [|by right].
      left. by apply Hact.
    + intros t' Ht'. pose proof (p_front_run _ _ _ Hs t' Ht'). set_solver.
    + intros t' [->|Ht']%elem_of_cons; [set_solver|].
      destruct (p_susp _ _ _ Hs t' Ht'). set_solver.
  - by apply NoDup_cons.
  - intros t'. cbn. rewrite elem_of_difference, elem_of_singleton, Hrun. split.
    + intros [(f & r & Hf & Hr) Hne]. exists f, r. rewrite lookup_delete_ne; [done|].
      intros ->. simplify_eq.
    + intros (f & r & Hf & Hr). apply lookup_delete_Some in Hf as [Hne Hf]. split; [eauto|].
      intros ->. apply Hne. by eapply Hinj.
  - intros f1 f2 r1 r2. cbn. rewrite !lookup_delete_Some. intros [_ ?] [_ ?]. by apply Hinj.
  - intros t'. cbn. intros [? _]%elem_of_difference. by apply Hmd.
Qed.

(** The state after the output of [target] is there and its readers are told, those of
    [ready] because they waited for nothing else. *)
Definition completed (target : TaskID) (out cp : WorkflowRef) (ready : list TaskID)
    (R : gmap TaskID (gset TaskID)) (s : WorkflowExecutionState) : WorkflowExecutionState :=
  with_plan R ((λ p, p ∖ {[target]}) <$> pending_input_set s) (frontier_to_run s ++ ready)
    (set_done_tasks (done_tasks s ∪ {[target]})
    (set_checkpoint_map (<[target := cp]> (checkpoint_map s))
    (set_output_map (<[target := out]> (output_map s)) s))).

Section completed.
Context (rk : TaskID → Z) (susp : list TaskID) (s : WorkflowExecutionState) (t : TaskID).
Context (out cp : WorkflowRef) (ready : list TaskID) (R : gmap TaskID (gset TaskID)).
Let target := root_of t s.
Let s' := completed target out cp ready R s.
Hypothesis Hok : state_ok rk (t :: susp) s.
Hypothesis HR : ∀ c, default ∅ (R !! c) = references c s.
Hypothesis Hready : ∀ m, m ∈ ready ↔ pending_input_set s !! m = Some {[target]}.
Hypothesis Hnd : NoDup ready.

Lemma completed_avail c : avail s' c ↔ c = target ∨ avail s c.
Proof.
  unfold avail. cbn. destruct (decide (c = target)) as [->|]; [rewrite lookup_insert_eq; split; [by left|by eexists]|].
  rewrite lookup_insert_ne by done. tauto.
Qed.

Lemma completed_pending m p :
  pending_input_set s' !! m = Some p ↔
  ∃ p0, pending_input_set s !! m = Some p0 ∧ p = p0 ∖ {[target]}.
Proof. cbn. rewrite lookup_fmap, fmap_Some. done. Qed.

Lemma target_missing : ¬ avail s target.
Proof. apply (p_active _ _ _ (s_sched _ _ _ Hok)). right; right; left. Qed.

Lemma target_runnable : runnable s t.
Proof. apply (p_active _ _ _ (s_sched _ _ _ Hok)). right; right; left. Qed.

(** Another task that is under way or waits produces another output. *)
Lemma other_output a : a ≠ t → runnable s a → root_of a s ≠ target.
Proof.
  intros Hne Ha Heq. apply Hne. eapply runnable_inj; [done|apply target_runnable|done].
Qed.

Lemma ready_waits m : m ∈ ready → m ≠ t ∧ runnable s m ∧ ¬ avail s (root_of m s) ∧
  ¬ active (t :: susp) s m.
Proof.
  intros Hm%Hready. destruct (waiting_runnable Hok m _ target Hm) as [Hr Hav]; [set_solver|].
  assert (¬ active (t :: susp) s m) as Hna.
  { intros Ha. apply (p_active _ _ _ (s_sched _ _ _ Hok)) in Ha as [Hp _]. set_solver. }
  split_and!; try done. intros ->. apply Hna. right; right; left.
Qed.

Lemma completed_active a :
  active susp s' a → active (t :: susp) s a ∧ a ≠ t ∨ a ∈ ready.
Proof.
  unfold active. cbn. rewrite elem_of_app, elem_of_cons.
  pose proof (s_susp_nodup _ _ _ Hok) as [Hn _]%NoDup_cons.
  destruct (p_susp _ _ _ (s_sched _ _ _ Hok) t) as [Hf Hr]; [left|].
  destruct (decide (a = t)) as [->|]; naive_solver.
Qed.

Lemma completed_graph : graph_ok rk s'.
Proof.
  pose proof (s_graph _ _ _ Hok) as Hg. constructor; cbn.
  - intros a ups Ha. destruct (g_ups _ _ Hg a ups Ha) as [? Hall]. split; [done|].
    intros c Hc. destruct (Hall c Hc); [|by right]. left. apply completed_avail. by right.
  - intros r c HL. destruct (g_latest _ _ Hg r c HL) as (? & ? & Hall & Hor). split_and!; try done.
    + intros u Hu. apply completed_avail. right. by apply Hall.
    + destruct Hor; [left; apply completed_avail|]; by right.
  - intros c r Hr. destruct (g_root _ _ Hg c r Hr) as (? & ? & ? & Hav). split_and!; try done.
    rewrite completed_avail. intros [->|]; [|done].
    unfold target, root_of in Hr. destruct (continuation_root s !! t) as [r'|] eqn:Hr'; cbn in Hr.
    + destruct (g_root _ _ Hg _ _ Hr') as (? & _). congruence.
    + congruence.
  - apply (g_tasks _ _ Hg).
  - apply (g_plain _ _ Hg).
  - apply (g_known _ _ Hg).
  - intros a Ha. apply completed_avail. destruct (decide (a = target)) as [->|]; [by left|].
    rewrite lookup_insert_ne in Ha by done. right. by apply (g_output _ _ Hg).
Qed.

Lemma completed_sched : sched_ok susp [] s'.
Proof.
  pose proof (s_sched _ _ _ Hok) as Hs.
  assert (∀ c, references c s' = references c s) as Hrefs by (intros c; apply HR).
  constructor.
  - intros a p (p0 & Hp & ->)%completed_pending. destruct (p_known _ _ _ Hs a p0 Hp) as [? Hpk].
    split; [done|]. intros c. rewrite completed_avail, elem_of_difference, elem_of_singleton, Hpk.
    change (needs s' a c) with (needs s a c). tauto.
  - intros a p c (p0 & Hp & ->)%completed_pending [Hc _]%elem_of_difference. rewrite Hrefs.
    destruct (p_refs _ _ _ Hs a p0 c Hp Hc) as [? [[pc Hpc]|[]%not_elem_of_nil]]. split; [done|].
    left. exists (pc ∖ {[target]}). apply completed_pending. eauto.
  - intros m c. rewrite Hrefs. intros Hm. destruct (p_ref_sound _ _ _ Hs m c Hm) as [? [pm Hpm]].
    split; [done|]. exists (pm ∖ {[target]}). apply completed_pending. eauto.
  - intros a [[Ha Hne]|Ha]%completed_active.
    + destruct (p_active _ _ _ Hs a Ha) as (Hp & Hr & Hav). split_and!; [|done|].
      * apply completed_pending. exists ∅. split; [done|set_solver +].
      * rewrite completed_avail. intros [Heq|]; [|done]. by destruct (other_output a Hne Hr).
    + destruct (ready_waits a Ha) as (Hne & Hr & Hav & _). split_and!; [|done|].
      * apply completed_pending. exists {[target]}. split; [by apply Hready|set_solver +].
      * rewrite completed_avail. intros [Heq|]; [|done]. by destruct (other_output a Hne Hr).
  - intros a c Ha Hn. rewrite Hrefs. cbn in Ha. apply elem_of_app in Ha as [Ha|Ha].
    + by apply (p_front_refs _ _ _ Hs).
    + apply Hready in Ha. destruct (p_waiting _ _ _ Hs a _ Ha) as (_ & _ & Hall); [set_solver +|].
      by apply Hall.
  - intros a (p0 & Hp & Hempty)%completed_pending Hav Hl.
    assert (¬ avail s (root_of a s)) as Hav0 by (intros ?; apply Hav, completed_avail; by right).
    destruct (decide (p0 = ∅)) as [->|Hne].
    + destruct (p_progress _ _ _ Hs a Hp Hav0 Hl) as [Ha|(c & HL & Hc)].
      * left. assert (a ≠ t) by (intros ->; apply Hav, completed_avail; by left).
        destruct Ha as [?|[?|[->|?]%elem_of_cons]]; [left; cbn; apply elem_of_app; by left|
          right; by left|done|right; by right].
      * right. exists c. split; [done|]. left. destruct Hc as [[pc Hpc]|[]%not_elem_of_nil].
        exists (pc ∖ {[target]}). apply completed_pending. eauto.
    + left. left. cbn. apply elem_of_app. right. apply Hready. rewrite Hp. f_equal.
      by apply difference_singleton_empty.
  - intros a p (p0 & Hp & ->)%completed_pending Hne.
    destruct (p_waiting _ _ _ Hs a p0 Hp) as (Hl & Hav & Hall);
      [intros ->; apply Hne; set_solver +|]. split_and!; [done| |].
    + assert (∃ c, c ∈ p0) as [c Hc] by (apply set_choose_L; intros ->; apply Hne; set_solver +).
      destruct (waiting_runnable Hok a p0 c Hp Hc) as [Hr _].
      rewrite completed_avail. intros [Heq|]; [|done]. revert Heq. apply other_output; [|done].
      intros ->. assert (active (t :: susp) s t) as [Hpt _]%(p_active _ _ _ Hs) by (right; right; left).
      rewrite Hp in Hpt. set_solver.
    + intros c Hc. rewrite Hrefs. by apply Hall.
  - done.
  - cbn. apply NoDup_app. split_and!; [apply Hs| |done]. intros a Ha Hr.
    destruct (ready_waits a Hr) as (_ & _ & _ & Hna). apply Hna. by left.
  - cbn. intros a [Ha|Hr]%elem_of_app; [by apply (p_front_run _ _ _ Hs)|].
    destruct (ready_waits a Hr) as (_ & _ & _ & Hna). intros ?. apply Hna. by right; left.
  - cbn. intros a Ha. destruct (p_susp _ _ _ Hs a) as [Hf Hr]; [by right|]. split; [|done].
    intros [?|Hr']%elem_of_app; [done|]. destruct (ready_waits a Hr') as (_ & _ & _ & Hna).
    apply Hna. right; right; by right.
Qed.

(** The completion of a task preserves the invariant. *)
Lemma completed_ok : state_ok rk susp s'.
Proof.
  destruct Hok as [Hg Hs Hnd' Hctx Hdrv Hrun Hinj Hmd Hfr Hdn Hgl].
  constructor; try done; [apply completed_graph|apply completed_sched|..].
  - by apply NoDup_cons in Hnd' as [_ ?].
  - intros c Hc. apply completed_avail. right. by apply Hfr.
  - cbn. intros c [Hc| ->%elem_of_singleton]%elem_of_union; apply completed_avail; auto.
  - intros o Ho. rewrite completed_avail. destruct (Hgl o Ho) as [?|[[p Hp] ?]]; [by auto|].
    right. split; [|done]. exists (p ∖ {[target]}). apply completed_pending. eauto.
Qed.
End completed.

(** ** Retries *)

(** A task that failed goes back to the frontier, with references to its inputs. *)
Lemma state_ok_retry rk susp t ins s :
  state_ok rk (t :: susp) s → upstream_dependencies s !! t = Some ins →
  state_ok rk susp
    (with_plan (add_references t ins (reference_set s)) (<[t := ∅]> (pending_input_set s))
       (frontier_to_run s ++ [t]) s).
Proof.
  intros H Hins. pose proof (s_sched _ _ _ H) as Hs.
  assert (active (t :: susp) s t) as Hat by (right; right; left).
  destruct (p_active _ _ _ Hs t Hat) as (Hp & Hr & Hav). rewrite insert_id by done.
  destruct (p_susp _ _ _ Hs t) as [Htf Htr]; [left|].
  assert (∀ a, active susp (with_plan (add_references t ins (reference_set s))
    (pending_input_set s) (frontier_to_run s ++ [t]) s) a ↔ active (t :: susp) s a) as Hact.
  { intros a. unfold active. cbn. set_solver. }
  assert (∀ c m, m ∈ references c (with_plan (add_references t ins (reference_set s))
    (pending_input_set s) (frontier_to_run s ++ [t]) s) ↔
    m ∈ references c s ∨ m = t ∧ c ∈ ins) as Href.
  { intros c m. unfold references. cbn. apply add_references_elem. }
  frame_ok H.
  - constructor; try apply Hs; cbn.
    + intros a p c Hpa Hc. rewrite Href. destruct (p_refs _ _ _ Hs a p c Hpa Hc). auto.
    + intros m c. rewrite Href. intros [?|[-> ?]]; [by apply (p_ref_sound _ _ _ Hs)|].
      split; [by exists ins|by eexists].
    + intros a Ha%Hact. by apply (p_active _ _ _ Hs).
    + intros a c. rewrite elem_of_app, list_elem_of_singleton, Href. intros [Ha| ->] Hn.
      * left. by apply (p_front_refs _ _ _ Hs).
      * right. destruct Hn as (ins' & Hins' & ?). cbn in Hins'. split; congruence.
    + intros a Hpa Hava Hla. destruct (p_progress _ _ _ Hs a Hpa Hava Hla) as [?|]; [|by right].
      left. by apply Hact.
    + intros a p Hpa Hne. destruct (p_waiting _ _ _ Hs a p Hpa Hne) as (? & ? & Hall).
      split_and!; [done..|]. intros c Hc. rewrite Href. left. by apply Hall.
    + done.
    + apply NoDup_app. split_and!; [apply Hs| |apply NoDup_singleton].
      by intros a ? ->%list_elem_of_singleton.
    + intros a [?| ->%list_elem_of_singleton]%elem_of_app; [by apply (p_front_run _ _ _ Hs)|done].
    + intros a Ha. destruct (p_susp _ _ _ Hs a) as [? ?]; [by right|]. split; [|done].
      apply NoDup_cons in Hnd as [? _]. intros [?| ->%list_elem_of_singleton]%elem_of_app; done.
  - by apply NoDup_cons in Hnd as [_ ?].
Qed.

(** ** Continuations *)

(** The state of a continuation, as it comes from a graph of new tasks, with output
    [o].  The ranks order its dependencies. *)
Record sub_ok (s sub : WorkflowExecutionState) (o : TaskID) (rk0 : TaskID → Z) : Prop := {
  sub_output : output_task_id sub = Some o;
  sub_goal : is_Some (upstream_dependencies sub !! o);
  sub_ups t ups : upstream_dependencies sub !! t = Some ups →
    NoDup ups ∧ ∀ c, c ∈ ups → is_Some (upstream_dependencies sub !! c) ∧ c ≠ o ∧ rk0 c < rk0 t;
  sub_tasks t : is_Some (upstream_dependencies sub !! t) →
    (∃ task, tasks sub !! t = Some task ∧ plain task) ∧ is_Some (task_input_args sub !! t);
  sub_known t : is_Some (tasks sub !! t) → is_Some (upstream_dependencies sub !! t);
  sub_empty : checkpoint_map sub = ∅ ∧ output_map sub = ∅ ∧ task_context sub = ∅;
  sub_fresh t : is_Some (upstream_dependencies sub !! t) →
    upstream_dependencies s !! t = None ∧ ¬ avail s t ∧ t ≠ ""%string ∧
    continuation_root s !! t = None
}.

(** Functions on finite sets have bounds. *)
Lemma finite_bound (f : TaskID → Z) (X : gset TaskID) : ∃ b, ∀ x, x ∈ X → f x <= b.
Proof.
  induction X as [|x X Hx [b IH]] using set_ind_L; [by exists 0; intros ? []%not_elem_of_empty|].
  exists (Z.max b (f x)). intros y [->%elem_of_singleton|Hy]%elem_of_union; [lia|].
  specialize (IH y Hy). lia.
Qed.

Section continued.
Context (rk rk0 : TaskID → Z) (susp : list TaskID) (s sub : WorkflowExecutionState) (t o : TaskID).
Context (ctx : WorkflowTaskContext).
Hypothesis Hok : state_ok rk (t :: susp) s.
Hypothesis Hsub : sub_ok s sub o rk0.
Hypothesis Hctx : task_context s !! t = Some ctx.
Let r := root_of t s.
Let s' := append_continuation t o (merge_state (init_context ctx sub) s).

(** The new tasks go below all others. *)
Lemma continued_rank : ∃ rk',
  (∀ a, is_Some (upstream_dependencies s !! a) → rk' a = rk a) ∧
  (∀ a b, is_Some (upstream_dependencies sub !! a) → is_Some (upstream_dependencies sub !! b) →
     rk0 a < rk0 b → rk' a < rk' b) ∧
  (∀ a b, is_Some (upstream_dependencies sub !! a) → is_Some (upstream_dependencies s !! b) →
     rk' a < rk' b).
Proof.
  destruct (finite_bound rk0 (dom (upstream_dependencies sub))) as [b1 Hb1].
  destruct (finite_bound (λ a, - rk a) (dom (upstream_dependencies s))) as [b2 Hb2].
  exists (λ a, match upstream_dependencies sub !! a with
               | Some _ => rk0 a - b1 - b2 - 1 | None => rk a end).
  assert (∀ a, is_Some (upstream_dependencies s !! a) → upstream_dependencies sub !! a = None) as Hn.
  { intros a [ups Ha]. destruct (upstream_dependencies sub !! a) eqn:Hsa; [|done].
    destruct (sub_fresh _ _ _ _ Hsub a) as [? _]; [by eexists|congruence]. }
  split_and!.
  - intros a Ha. by rewrite (Hn a Ha).
  - intros a b [? ->] [? ->]. lia.
  - intros a b Ha Hb. rewrite (Hn b Hb). pose proof (Hb1 a) as H1. pose proof (Hb2 b) as H2.
    rewrite !elem_of_dom in *. destruct Ha as [? Ha]. rewrite Ha in *.
    specialize (H1 ltac:(by eexists)). specialize (H2 Hb). cbn in H2. lia.
Qed.

Lemma continued_ups a ups :
  upstream_dependencies s' !! a = Some ups ↔
  upstream_dependencies sub !! a = Some ups ∨ upstream_dependencies s !! a = Some ups.
Proof.
  cbn. rewrite lookup_union_Some_raw. split; [tauto|]. intros [?|Ha]; [by left|].
  right. split; [|done]. destruct (upstream_dependencies sub !! a) eqn:Hsa; [|done].
  destruct (sub_fresh _ _ _ _ Hsub a) as [? _]; [by eexists|congruence].
Qed.

Lemma continued_known a :
  is_Some (upstream_dependencies s' !! a) ↔
  is_Some (upstream_dependencies sub !! a) ∨ is_Some (upstream_dependencies s !! a).
Proof. unfold is_Some. setoid_rewrite continued_ups. naive_solver. Qed.

Lemma old_not_new a :
  is_Some (upstream_dependencies s !! a) → is_Some (upstream_dependencies sub !! a) → False.
Proof. intros [? Ha] Hn. destruct (sub_fresh _ _ _ _ Hsub a Hn). congruence. Qed.

Lemma old_not_output a : is_Some (upstream_dependencies s !! a) → a ≠ o.
Proof. intros Ha ->. eapply old_not_new; [exact Ha|apply Hsub]. Qed.

Lemma continued_avail c : avail s' c ↔ avail s c.
Proof.
  unfold avail. cbn. destruct (sub_empty _ _ _ _ Hsub) as [-> _]. by rewrite (left_id_L ∅ (∪)).
Qed.

Lemma continued_root a : continuation_root s' !! a = if decide (a = o) then Some r else continuation_root s !! a.
Proof.
  change (continuation_root s') with (<[o := r]> (continuation_root s)).
  case_decide as Ha; [rewrite Ha; apply lookup_insert_eq|apply lookup_insert_ne; congruence].
Qed.

Lemma continued_latest a :
  latest_continuation s' !! a = if decide (a = r) then Some o else latest_continuation s !! a.
Proof.
  change (latest_continuation s') with (<[r := o]> (latest_continuation s)).
  case_decide as Ha; [rewrite Ha; apply lookup_insert_eq|apply lookup_insert_ne; congruence].
Qed.

Lemma creator_runnable : runnable s t ∧ ¬ avail s r.
Proof. apply (p_active _ _ _ (s_sched _ _ _ Hok)). right; right; left. Qed.

Lemma root_old : is_Some (upstream_dependencies s !! r) ∧ continuation_root s !! r = None ∧
  ∀ u, needs s r u → avail s u.
Proof.
  destruct creator_runnable as [(Hu & _ & Hl) _]. unfold r, root_of.
  destruct (continuation_root s !! t) as [r'|] eqn:Hr; cbn.
  - destruct (g_latest _ _ (s_graph _ _ _ Hok) _ _ (Hl _ Hr)) as (? & _ & ? & _).
    by destruct (g_root _ _ (s_graph _ _ _ Hok) _ _ Hr) as (? & _).
  - split_and!; [done..|]. intros u. eapply active_inputs; [exact Hok|]. right; right; left.
Qed.

(** An old task other than the creator is not in the creator's chain when it runs. *)
Lemma other_chain a :
  runnable s a → a ≠ t → a ≠ r ∧ continuation_root s !! a ≠ Some r.
Proof.
  intros Ha Hne. destruct creator_runnable as [Ht _]. destruct root_old as (_ & Hr & _).
  split.
  - intros Har. apply Hne, (runnable_inj (s := s)); [done..|]. unfold root_of at 1. rewrite Har. by rewrite Hr.
  - intros Hra. apply Hne, (runnable_inj (s := s)); [done..|]. unfold root_of at 1. by rewrite Hra.
Qed.

Lemma continued_needs_old a c :
  is_Some (upstream_dependencies s !! a) → needs s' a c ↔ needs s a c.
Proof.
  intros Ha. unfold needs. setoid_rewrite continued_ups. split; [|naive_solver].
  intros (ups & [Hn|Ho] & Hc); [|by eauto]. by destruct (old_not_new a Ha); eexists.
Qed.

Lemma continued_runnable_old a :
  runnable s a → a ≠ t → runnable s' a.
Proof.
  intros Ha Hne. destruct (other_chain a Ha Hne) as [Hnr Hroot]. destruct Ha as (Hu & HL & Hl).
  split_and!.
  - apply continued_known. by right.
  - rewrite continued_latest. by rewrite decide_False.
  - intros r' Hr'. rewrite continued_root, decide_False in Hr' by by apply old_not_output.
    rewrite continued_latest, decide_False by congruence. by apply Hl.
Qed.

Lemma continued_latest_old a :
  is_Some (upstream_dependencies s !! a) → is_latest s' a → is_latest s a.
Proof.
  intros Hu Hl r' Hr'. assert (a ≠ o) by by apply old_not_output.
  specialize (Hl r'). rewrite continued_root, continued_latest, decide_False in Hl by done.
  specialize (Hl Hr'). case_decide; [congruence|done].
Qed.

Section ranked.
Context (rk' : TaskID → Z).
Hypothesis Hrk1 : ∀ a, is_Some (upstream_dependencies s !! a) → rk' a = rk a.
Hypothesis Hrk2 : ∀ a b,
  is_Some (upstream_dependencies sub !! a) → is_Some (upstream_dependencies sub !! b) →
  rk0 a < rk0 b → rk' a < rk' b.
Hypothesis Hrk3 : ∀ a b,
  is_Some (upstream_dependencies sub !! a) → is_Some (upstream_dependencies s !! b) → rk' a < rk' b.

Lemma continued_g_ups a ups : upstream_dependencies s' !! a = Some ups →
  NoDup ups ∧ ∀ c, c ∈ ups → avail s' c ∨
    is_Some (upstream_dependencies s' !! c) ∧ continuation_root s' !! c = None ∧ rk' c < rk' a.
Proof.
  pose proof (s_graph _ _ _ Hok) as Hg. intros [Ha|Ha]%continued_ups.
  - destruct (sub_ups _ _ _ _ Hsub a ups Ha) as [? Hall]. split; [done|]. intros c Hc. right.
    destruct (Hall c Hc) as (Hcu & Hco & Hlt). split_and!.
    + apply continued_known. by left.
    + rewrite continued_root, decide_False by done.
      destruct (continuation_root s !! c) as [rc|] eqn:Hrc; [|done].
      destruct (sub_fresh _ _ _ _ Hsub c Hcu) as (_ & _ & _ & Hnr). congruence.
    + apply Hrk2; [done|by eexists|done].
  - destruct (g_ups _ _ Hg a ups Ha) as [? Hall]. split; [done|]. intros c Hc.
    destruct (Hall c Hc) as [?|(Hcu & Hrc & Hlt)]; [left; by apply continued_avail|right].
    split_and!; [apply continued_known; by right| |].
    + rewrite continued_root, decide_False; [done|by apply old_not_output].
    + rewrite !Hrk1; [done|by eexists|done].
Qed.

Lemma continued_g_latest a c : latest_continuation s' !! a = Some c →
  is_Some (upstream_dependencies s' !! a) ∧ continuation_root s' !! c = Some a ∧
  (∀ u, needs s' a u → avail s' u) ∧
  (avail s' a ∨ is_Some (upstream_dependencies s' !! c) ∧ rk' c < rk' a).
Proof.
  destruct root_old as (Hru & Hrr & Hrn). rewrite continued_latest. case_decide as Har.
  - intros [= <-]. rewrite Har. split_and!.
    + apply continued_known. by right.
    + rewrite continued_root. by rewrite decide_True.
    + intros u Hu. apply continued_avail, Hrn. by apply continued_needs_old in Hu.
    + right. split; [apply continued_known; left; apply Hsub|apply Hrk3; [apply Hsub|done]].
  - intros HL. destruct (g_latest _ _ (s_graph _ _ _ Hok) a c HL) as (Hau & Hc & Hall & Hor).
    split_and!.
    + apply continued_known. by right.
    + rewrite continued_root, decide_False; [done|]. intros ->.
      destruct (sub_fresh _ _ _ _ Hsub o (sub_goal _ _ _ _ Hsub)) as (_ & _ & _ & Hnr). congruence.
    + intros u Hu. apply continued_avail, Hall. by apply continued_needs_old in Hu.
    + destruct Hor as [?|[Hcu ?]]; [left; by apply continued_avail|right].
      split; [apply continued_known; by right|by rewrite !Hrk1].
Qed.

Lemma continued_g_root c r' : continuation_root s' !! c = Some r' →
  continuation_root s' !! r' = None ∧ is_Some (latest_continuation s' !! r') ∧
  latest_continuation s' !! c = None ∧ ¬ avail s' c.
Proof.
  pose proof (s_graph _ _ _ Hok) as Hg. destruct root_old as (Hru & Hrr & _).
  pose proof (old_not_output r Hru) as Hro. rewrite continued_root. case_decide as Hco.
  - intros [= <-]. rewrite Hco. split_and!.
    + by rewrite continued_root, decide_False.
    + rewrite continued_latest. by rewrite decide_True.
    + rewrite continued_latest, decide_False by done.
      destruct (latest_continuation s !! o) as [x|] eqn:HL; [|done].
      destruct (g_latest _ _ Hg _ _ HL) as (Ho & _). by destruct (old_not_output o Ho).
    + rewrite continued_avail. apply (sub_fresh _ _ _ _ Hsub). apply Hsub.
  - intros Hc. destruct (g_root _ _ Hg c r' Hc) as (Hr'r & [x HL] & HLc & Hav).
    destruct (g_latest _ _ Hg _ _ HL) as (Hr'u & _). split_and!.
    + rewrite continued_root, decide_False; [done|by apply old_not_output].
    + rewrite continued_latest. case_decide; by eexists.
    + rewrite continued_latest, decide_False; [done|congruence].
    + by rewrite continued_avail.
Qed.

Lemma continued_tasks a task :
  tasks s' !! a = Some task → tasks sub !! a = Some task ∨ tasks s !! a = Some task.
Proof. cbn. rewrite lookup_union_Some_raw. tauto. Qed.

Lemma continued_graph : graph_ok rk' s'.
Proof.
  pose proof (s_graph _ _ _ Hok) as Hg.
  constructor; [apply continued_g_ups|apply continued_g_latest|apply continued_g_root|..].
  - intros a (Hu & HL & Hl). apply continued_known in Hu as [Hu|Hu].
    + destruct (sub_tasks _ _ _ _ Hsub a Hu) as [(task & Htask & _) [args Hargs]]. cbn.
      split; eexists; by apply lookup_union_Some_l.
    + destruct (g_tasks _ _ Hg a) as [Htask Hargs].
      { split_and!; [done| |by apply continued_latest_old].
        rewrite continued_latest in HL. by case_decide. }
      cbn. rewrite !lookup_union_is_Some. auto.
  - intros a task [Ha|Ha]%continued_tasks; [|by eapply (g_plain _ _ Hg)].
    destruct (sub_tasks _ _ _ _ Hsub a) as [(task' & Htask & Hpl) _]; [|by simplify_eq].
    apply (sub_known _ _ _ _ Hsub). by eexists.
  - intros a [task [Ha|Ha]%continued_tasks]; apply continued_known.
    + left. apply (sub_known _ _ _ _ Hsub). by eexists.
    + right. apply (g_known _ _ Hg). by eexists.
  - intros a. rewrite continued_avail. cbn. destruct (sub_empty _ _ _ _ Hsub) as (_ & -> & _).
    rewrite (left_id_L ∅ (∪)). apply (g_output _ _ Hg).
Qed.

(** After the merge the continuation is still to be planned. *)
Lemma continued_active a : active susp s' a ↔ active (t :: susp) s a ∧ a ≠ t.
Proof.
  unfold active. cbn. rewrite elem_of_cons.
  pose proof (s_susp_nodup _ _ _ Hok) as [Hn _]%NoDup_cons.
  destruct (p_susp _ _ _ (s_sched _ _ _ Hok) t) as [Hf Hr]; [left|].
  destruct (decide (a = t)) as [->|]; tauto.
Qed.

Lemma planned_old a p :
  pending_input_set s !! a = Some p → is_Some (upstream_dependencies s !! a).
Proof. intros Hp. by destruct (p_known _ _ _ (s_sched _ _ _ Hok) a p Hp). Qed.

Lemma continued_root_of a : is_Some (upstream_dependencies s !! a) → root_of a s' = root_of a s.
Proof.
  intros Ha. unfold root_of. rewrite continued_root, decide_False; [done|by apply old_not_output].
Qed.

Lemma continued_sched : sched_ok susp [o] s'.
Proof.
  pose proof (s_sched _ _ _ Hok) as Hs.
  constructor.
  - intros a p Hp. destruct (p_known _ _ _ Hs a p Hp) as [Hu Hpk].
    split; [apply continued_known; by right|]. intros c.
    by rewrite Hpk, continued_needs_old, continued_avail.
  - intros a p c Hp Hc. destruct (p_refs _ _ _ Hs a p c Hp Hc) as [? [?|[]%not_elem_of_nil]]. auto.
  - intros m c Hm. destruct (p_ref_sound _ _ _ Hs m c Hm) as [Hn [p Hp]]. split; [|by eexists].
    apply continued_needs_old; [by eapply planned_old|done].
  - intros a [Ha Hne]%continued_active. destruct (p_active _ _ _ Hs a Ha) as (Hp & Hr & Hav).
    split_and!; [done|by apply continued_runnable_old|].
    rewrite continued_avail, continued_root_of; [done|apply Hr].
  - intros a c Ha Hn. apply (p_front_refs _ _ _ Hs); [done|].
    apply continued_needs_old in Hn; [done|]. assert (active (t :: susp) s a) as Hact by by left.
    apply (p_active _ _ _ Hs) in Hact as (_ & [? _] & _). done.
  - intros a Hp Hav Hl. pose proof (planned_old a _ Hp) as Hu.
    rewrite continued_avail, continued_root_of in Hav by done.
    destruct (p_progress _ _ _ Hs a Hp Hav) as [Ha|(c & HL & [Hc|[]%not_elem_of_nil])];
      [by apply continued_latest_old|..].
    + destruct (decide (a = t)) as [->|]; [|left; by apply continued_active].
      right. exists o. split; [|right; left]. rewrite continued_latest.
      case_decide as Htr; [done|]. exfalso.
      assert (continuation_root s !! t = Some r) as Hroot.
      { unfold r, root_of in Htr |- *. by destruct (continuation_root s !! t). }
      specialize (Hl r). rewrite continued_root, continued_latest, decide_False in Hl
        by by apply old_not_output. rewrite decide_True in Hl by done. specialize (Hl Hroot).
      destruct (old_not_output _ Hu). congruence.
    + right. rewrite continued_latest. case_decide; [|by eauto]. exists o. split; [done|right; left].
  - intros a p Hp Hne. change (pending_input_set s !! a = Some p) in Hp.
    destruct (p_waiting _ _ _ Hs a p Hp Hne) as (Hl & Hav & Hall).
    pose proof (planned_old a p Hp) as Hu. destruct (set_choose_L p Hne) as [c Hc].
    destruct (waiting_runnable Hok a p c Hp Hc) as [Hr _].
    assert (a ≠ t) as Hat.
    { intros ->. assert (active (t :: susp) s t) as [Hpt _]%(p_active _ _ _ Hs)
        by (right; right; left). congruence. }
    split_and!.
    + by apply continued_runnable_old.
    + by rewrite continued_avail, continued_root_of.
    + intros c' Hc'. apply Hall. by apply continued_needs_old in Hc'.
  - apply Hs.
  - apply Hs.
  - apply (p_front_run _ _ _ Hs).
  - intros a Ha. apply (p_susp _ _ _ Hs). by right.
Qed.

(** The plan of the continuation, on the merged state. *)
Lemma continued_plan :
  planned susp s' (λ a, is_Some (pending_input_set s' !! a) ∨ a = o) []
    (construct_scheduling_plan o s').
Proof.
  destruct root_old as (Hru & Hrr & _).
  apply (construct_scheduling_plan_spec rk' _ _ (λ a, is_Some (upstream_dependencies sub !! a)));
    [apply continued_graph| | | |apply Hsub|apply continued_sched].
  - intros a Ha. destruct (sub_fresh _ _ _ _ Hsub a Ha) as (Hn & Hav & _ & Hnr). unfold is_latest, root_of.
    rewrite !continued_avail, continued_root. split_and!.
    + apply continued_known. by left.
    + done.
    + case_decide; cbn; [apply creator_runnable|]. by rewrite Hnr.
    + intros ra. rewrite continued_latest. case_decide as Hao.
      * intros [= <-]. by rewrite decide_True, Hao.
      * congruence.
    + intros Hin. assert (active (t :: susp) s a) as Hact by (right; right; by right).
      apply (p_active _ _ _ (s_sched _ _ _ Hok)) in Hact as (_ & [[? ?] _] & _). congruence.
  - intros a c Ha (ups & [Hn|Ho]%continued_ups & Hc) _.
    + by apply (sub_ups _ _ _ _ Hsub a ups Hn).
    + destruct (old_not_new a); [by eexists|done].
  - intros a c Ha. rewrite continued_latest. case_decide as Har.
    + destruct (old_not_new r Hru). by rewrite <- Har.
    + intros HL. destruct (g_latest _ _ (s_graph _ _ _ Hok) _ _ HL) as (Hold & _).
      by destruct (old_not_new a).
Qed.

(** The contexts of the new tasks name their creator. *)
Lemma continued_contexts a task : tasks s' !! a = Some task → ∃ ctx',
  task_context s' !! a = Some ctx' ∧ ctx_task_id ctx' = a ∧
  (creator_task_id ctx' = ""%string ∨
   is_Some (upstream_dependencies s' !! creator_task_id ctx') ∧ rk' a < rk' (creator_task_id ctx')).
Proof.
  intros Ha. destruct creator_runnable as [[Htu _] _].
  destruct (sub_empty _ _ _ _ Hsub) as (_ & _ & Hce).
  assert (ctx_task_id ctx = t) as Hid.
  { destruct (active_task Hok t) as (? & ? & ? & ctx' & _ & _ & _ & _ & _ & Hc & ?);
      [right; right; left|]. congruence. }
  assert (task_context s' = map_imap (λ id task, Some (task_context_of ctx id task)) (tasks sub) ∪
    task_context s) as Hc' by (cbn; by rewrite Hce, (left_id_L ∅ (∪))).
  rewrite Hc'. destruct (tasks sub !! a) as [task'|] eqn:Hta.
  - exists (task_context_of ctx a task'). split_and!; [|done|].
    + apply lookup_union_Some_l. by rewrite map_lookup_imap, Hta.
    + right. cbn. rewrite Hid. split; [apply continued_known; by right|].
      apply Hrk3; [apply (sub_known _ _ _ _ Hsub); by eexists|done].
  - apply continued_tasks in Ha as [Ha|Ha]; [congruence|].
    destruct (s_context _ _ _ Hok a task Ha) as (ctx' & Hctx' & Hid' & Hcr). exists ctx'.
    split_and!; [|done|].
    + rewrite lookup_union_r; [done|]. by rewrite map_lookup_imap, Hta.
    + destruct Hcr as [?|[Hcu Hlt]]; [by left|right]. split; [apply continued_known; by right|].
      rewrite !Hrk1; [done..|]. apply (g_known _ _ (s_graph _ _ _ Hok)). by eexists.
Qed.

(** The invariant when the continuation is planned. *)
Lemma continued_ok R P F :
  sched_ok susp [] (with_plan R P F s') →
  (∀ a, is_Some (pending_input_set s' !! a) ∨ a = o → is_Some (P !! a)) →
  state_ok rk' susp (with_plan R P F s').
Proof.
  intros Hs' Hmono. pose proof Hok as [Hg Hs Hnd _ Hdrv Hrun Hinj Hmd Hfr Hdn Hgl].
  apply state_ok_planned; [apply continued_graph|done| |apply continued_contexts| |done..| |].
  - by apply NoDup_cons in Hnd as [_ ?].
  - destruct (upstream_dependencies s' !! ""%string) as [ups|] eqn:Hu; [|done].
    apply continued_ups in Hu as [Hu|Hu]; [|congruence].
    by destruct (sub_fresh _ _ _ _ Hsub ""%string) as (_ & _ & ? & _); [by eexists|].
  - intros c Hc. apply continued_avail. destruct Hc; [by apply Hfr|by apply Hdn].
  - intros g Hgo. destruct (Hgl g Hgo) as [?|[[p Hp] Hr]]; [left; by apply continued_avail|right].
    split; [apply Hmono; left; by eexists|].
    rewrite continued_root, decide_False; [done|]. apply old_not_output. by eapply planned_old.
Qed.
End ranked.

(** All of it: the plan of the continuation on the merged state ends and gives a
    state that keeps the invariant. *)
Lemma continued_planned : ∃ rk' s2,
  construct_scheduling_plan o s' = (s2, Ok tt) ∧ state_ok rk' susp s2 ∧
  output_task_id s2 = output_task_id s ∧ running_frontier s2 = running_frontier s ∧
  ∀ c, avail s c → avail s2 c.
Proof.
  destruct continued_rank as (rk' & Hrk1 & Hrk2 & Hrk3).
  destruct (continued_plan rk' Hrk1 Hrk2 Hrk3) as (R & P & F & Hplan & Hsched & Hmono).
  pose proof (continued_ok rk' Hrk1 Hrk2 Hrk3 R P F Hsched Hmono) as Hst'.
  exists rk', (with_plan R P F s'). split_and!; [done..|].
  intros c Hc. by apply avail_with_plan, continued_avail.
Qed.
End continued.
