(* ===== verification/WorkflowExecutorProofs.v ===== *)
(** * The executor keeps its workflow in order

    For workflows of checkpointed tasks that do not catch exceptions: whatever tasks
    return, continuations and failures included, in whatever order they end, the
    executor raises nothing but the two errors it means to raise, gives every task its
    inputs, and ends only with the output. *)
From S2P Require Import Prelude WorkflowIndex WorkflowState WorkflowExecutor WorkflowPlan WorkflowStateProofs.
From stdpp Require Import base tactics list gmap strings sets.
From Stdlib Require Import QArith.

#[local] Open Scope Z_scope.

(** ** The invariant of the executor *)

(** [futs0] are futures of running tasks whose completion is still to be handled. *)
Record exec_ok (out : option TaskID) (futs0 : list Future) (rk : TaskID → Z) (susp : list TaskID) (x : WorkflowExecutor) :
    Prop := {
  x_state : state_ok rk susp (_state x);
  x_output : output_task_id (_state x) = out;
  x_names fut ref : running_frontier (_state x) !! fut = Some ref → fut < next_name x;
  x_unhandled fut : fut ∈ futs0 → is_Some (running_frontier (_state x) !! fut);
  x_futures f : is_Some (futures x !! f) → f < next_name x;
  x_callbacks t futs : _task_done_callbacks x !! t = Some futs →
    NoDup futs ∧ ∀ f, f ∈ futs → ∃ v, futures x !! f = Some v ∧ (¬ avail (_state x) t → v = FPending);
  x_callbacks_disj t1 t2 futs1 futs2 f :
    _task_done_callbacks x !! t1 = Some futs1 → _task_done_callbacks x !! t2 = Some futs2 →
    f ∈ futs1 → f ∈ futs2 → t1 = t2;
  x_submitted t args refs : Submitted t args refs ∈ actions x → Forall is_Some refs
}.

(** A change of the state alone. *)
Lemma exec_ok_set_state out futs0 rk susp rk' susp' x s' :
  exec_ok out futs0 rk susp x → state_ok rk' susp' s' →
  output_task_id s' = output_task_id (_state x) →
  (∀ f r, running_frontier s' !! f = Some r → f < next_name x) →
  (∀ f, f ∈ futs0 → is_Some (running_frontier s' !! f)) →
  (∀ t, avail (_state x) t → avail s' t) →
  exec_ok out futs0 rk' susp' (set_state s' x).
Proof.
  intros [Hst Hout Hn Hu Hf Hcb Hdj Hsb] Hs' Ho Hr Hu' Hav. constructor; try done; cbn; [congruence|].
  intros t futs Ht. destruct (Hcb t futs Ht) as [? Hall]. split; [done|]. intros f Hin.
  destruct (Hall f Hin) as (v & ? & Hp). exists v. split; [done|]. intros Hn'. apply Hp. auto.
Qed.

(** Actions other than submissions. *)
Lemma exec_ok_act out futs0 rk susp x a :
  exec_ok out futs0 rk susp x → (∀ t args refs, a = Submitted t args refs → Forall is_Some refs) →
  exec_ok out futs0 rk susp (set_actions (actions x ++ [a]) x).
Proof.
  intros [] Ha. constructor; try done. cbn. intros t args refs [Hin|Hin%list_elem_of_singleton]%elem_of_app;
    [by eapply x_submitted0|by eapply Ha].
Qed.

Lemma exec_ok_next_name out futs0 rk susp x n :
  exec_ok out futs0 rk susp x → next_name x <= n → exec_ok out futs0 rk susp (set_next_name n x).
Proof.
  intros [] Hn. constructor; try done; cbn.
  - intros f r Hf. specialize (x_names0 f r Hf). lia.
  - intros f Hf. specialize (x_futures0 f Hf). lia.
Qed.

(** ** Rules for the parts of the executor *)

Lemma wp_on_state {A} (m : M A) (Q : A → WorkflowExecutor → Prop) x s' a :
  m (_state x) = (s', Ok a) → Q a (set_state s' x) → wp (on_state m) Q x.
Proof. intros Hm HQ. exists (set_state s' x), a. unfold on_state. by rewrite Hm. Qed.

Lemma wp_modify_state f (Q : unit → WorkflowExecutor → Prop) x :
  Q tt (set_state (f (_state x)) x) → wp (modify_state f) Q x.
Proof. intros HQ. by eexists _, tt. Qed.

Lemma wp_get_state (Q : WorkflowExecutionState → WorkflowExecutor → Prop) x :
  Q (_state x) x → wp get_state Q x.
Proof. intros HQ. by exists x, (_state x). Qed.

Lemma wp_fresh_name (Q : Z → WorkflowExecutor → Prop) x :
  Q (next_name x) (set_next_name (next_name x + 1) x) → wp fresh_name Q x.
Proof. intros HQ. by eexists _, _. Qed.

Lemma wp_mget {A} k (m : gmap TaskID A) a (Q : A → WorkflowExecutor → Prop) x :
  m !! k = Some a → Q a x → wp (st_lift (mget_exn k m)) Q x.
Proof. intros Hk HQ. apply (wp_lift _ a); [|done]. unfold mget_exn. by rewrite Hk. Qed.

Ltac wp_exec :=
  lazymatch goal with
  | |- wp (mbind _ _) _ _ => apply wp_bind
  | |- wp (mret _) _ _ => apply wp_ret
  | |- wp st_get _ _ => apply wp_get
  | |- wp get_state _ _ => apply wp_get_state
  | |- wp (modify_state _) _ _ => apply wp_modify_state
  | |- wp (st_modify _) _ _ => apply wp_modify
  | |- wp (act _) _ _ => apply wp_modify
  | |- wp fresh_name _ _ => apply wp_fresh_name
  end; cbv beta.

(** ** Frames

    What a part of the executor leaves alone, also when it fails. *)
Definition keeps {A B} (π : WorkflowExecutor → B) (m : E A) : Prop := ∀ x, π (m x).1 = π x.

Section frames.
Context {B : Type} (π : WorkflowExecutor → B).

Lemma keeps_bind {A C} (m : E A) (f : A → E C) : keeps π m → (∀ a, keeps π (f a)) → keeps π (m ≫= f).
Proof.
  intros Hm Hf x. unfold mbind, st_bind. specialize (Hm x). destruct (m x) as [x1 [a|e]]; cbn in *; [|done].
  by rewrite Hf.
Qed.
Lemma keeps_ret {A} (a : A) : keeps π (mret a : E A).
Proof. done. Qed.
Lemma keeps_raise {A} e : keeps π (st_raise e : E A).
Proof. done. Qed.
Lemma keeps_get : keeps π st_get.
Proof. done. Qed.
Lemma keeps_gets {A} (f : WorkflowExecutor → A) : keeps π (st_gets f).
Proof. done. Qed.
Lemma keeps_lift {A} (r : result A) : keeps π (st_lift r).
Proof. intros x. unfold st_lift. by destruct r. Qed.
Lemma keeps_modify f : (∀ x, π (f x) = π x) → keeps π (st_modify f).
Proof. intros Hf x. apply Hf. Qed.
Lemma keeps_for {A} (l : list A) f : (∀ a, keeps π (f a)) → keeps π (st_for l f).
Proof. intros Hf. induction l as [|a l IH]; [done|]. apply keeps_bind; [done|by intros _]. Qed.
Lemma keeps_on_state {A} (m : M A) : (∀ s x, π (set_state s x) = π x) → keeps π (on_state m).
Proof. intros Hs x. unfold on_state. destruct (m (_state x)). apply Hs. Qed.
Lemma keeps_try m h : keeps π m → (∀ e, keeps π (h e)) → keeps π (try_except m h).
Proof.
  intros Hm Hh x. unfold try_except. specialize (Hm x). destruct (m x) as [x1 [[]|e]]; cbn in *; [done|].
  by rewrite Hh.
Qed.
End frames.

Ltac keeps_tac :=
  repeat lazymatch goal with
  | |- keeps _ (mbind _ _) => apply keeps_bind; [|intros ?]
  | |- keeps _ (mret _) => apply keeps_ret
  | |- keeps _ (st_raise _) => apply keeps_raise
  | |- keeps _ st_get => apply keeps_get
  | |- keeps _ get_state => apply keeps_gets
  | |- keeps _ (st_gets _) => apply keeps_gets
  | |- keeps _ (st_lift _) => apply keeps_lift
  | |- keeps _ (modify_state _) => apply keeps_modify; intros ?
  | |- keeps _ (st_modify _) => apply keeps_modify; intros ?
  | |- keeps _ (st_for _ _) => apply keeps_for; intros ?
  | |- keeps _ (on_state _) => apply keeps_on_state; intros ? ?
  | |- keeps _ (try_except _ _) => apply keeps_try; [|intros ?]
  | |- keeps _ (match ?b with _ => _ end) => destruct b
  | |- keeps _ (let _ := _ in _) => cbv zeta
  end; try done.

(** ** Submission *)

Section submission.
Context (out : option TaskID) (futs0 : list Future) (rk : TaskID → Z).

(** Polling takes the whole frontier. *)
Lemma poll_queued_spec fuel acc F x :
  (length F < fuel)%nat → NoDup F →
  frontier_to_run (_state x) = F → frontier_to_run_set (_state x) = list_to_set F →
  poll_queued fuel acc x =
    (set_state (set_frontier_to_run_set ∅ (set_frontier_to_run [] (_state x))) x, Ok (acc ++ F)).
Proof.
  revert fuel acc x. induction F as [|t F IH]; intros [|fuel] acc x Hfuel Hnd HF Hset; cbn in Hfuel;
    try lia; cbn [poll_queued]; unfold mbind, st_bind, on_state, pop_frontier_to_run at 1;
    unfold mbind, st_bind, st_get; rewrite HF.
  - unfold mret, st_ret. rewrite app_nil_r. cbn in Hset. destruct x as [s ? ? ? ?], s. cbn in *. by subst.
  - unfold st_modify, mret, st_ret. rewrite decide_True by (rewrite Hset; set_solver +).
    apply NoDup_cons in Hnd as [Hnin Hnd].
    rewrite IH; [cbn; by rewrite <- (assoc_L (++))|lia|done|done|].
    cbn. rewrite Hset. cbn. set_solver.
Qed.

(** What a submission leaves alone. *)
Definition submit_frame (t : TaskID) (x x' : WorkflowExecutor) : Prop :=
  upstream_dependencies (_state x') = upstream_dependencies (_state x) ∧
  running_frontier_set (_state x') = running_frontier_set (_state x) ∪ {[t]} ∧
  ∀ a c, a ≠ t → a ∈ references c (_state x) → a ∈ references c (_state x').

(** A submitted task has all its inputs. *)
Lemma inputs_given susp s t ups :
  state_ok rk susp s → active susp s t → upstream_dependencies s !! t = Some ups →
  Forall is_Some ((λ d, get_input d s) <$> ups).
Proof.
  intros Hok Ha Hups. apply Forall_fmap, Forall_forall. intros c Hc. cbn.
  destruct (get_input c s) eqn:Hg; [by eexists|].
  apply (get_input_avail rk) in Hg; [|apply Hok]. destruct Hg.
  eapply active_inputs; [exact Hok|exact Ha|]. by exists ups.
Qed.

Lemma submit_ray_task_ok susp now t x :
  exec_ok out futs0 rk (t :: susp) x →
  wp (_submit_ray_task now t) (λ _ x', exec_ok out futs0 rk susp x' ∧
    running_frontier_set (_state x') = running_frontier_set (_state x) ∪ {[t]} ∧
    reference_set (_state x') = reference_set (_state x) ∧
    upstream_dependencies (_state x') = upstream_dependencies (_state x)) x.
Proof.
  intros Hx. pose proof (x_state _ _ _ _ _ Hx) as Hst.
  assert (active (t :: susp) (_state x) t) as Ha by (right; right; left).
  destruct (active_task Hst t Ha) as (task & args & ups & ctx & Htask & Hplain & Hargs & Hups & _ & Hctx & _).
  unfold _submit_ray_task. do 2 wp_exec.
  wp_exec. eapply wp_mget; [exact Hargs|]. wp_exec. eapply wp_mget; [exact Hups|].
  wp_exec. eapply wp_mget; [exact Htask|].
  wp_exec. apply (wp_lift _ tt); [destruct Hplain as (_ & _ & Hf); unfold get_task_executor; by rewrite Hf|].
  wp_exec. eapply wp_mget; [exact Hctx|]. do 9 wp_exec.
  assert (running_frontier (_state x) !! (next_name x + 1) = None) as Hfresh.
  { destruct (running_frontier _ !! _) as [r|] eqn:Hr; [|done]. apply (x_names _ _ _ _ _ Hx) in Hr. lia. }
  split_and!; [|done..].
  set (x1 := set_next_name (next_name x + 1 + 1)
    (set_actions (actions x ++ [Submitted t args ((λ d, get_input d (_state x)) <$> ups)]) x)).
  assert (exec_ok out futs0 rk (t :: susp) x1) as Hx1.
  { apply exec_ok_next_name; [|cbn; lia]. apply exec_ok_act; [done|].
    intros ? ? ? [= -> -> <-]. by eapply inputs_given. }
  apply (exec_ok_set_state out futs0 rk (t :: susp) rk susp x1);
    [done|by apply (state_ok_submit _ _ _ _ _ _ _ Hst)|done| | |done]; cbn.
  - intros f r [[<- _]|[_ Hf]]%lookup_insert_Some; [lia|]. apply (x_names _ _ _ _ _ Hx) in Hf. lia.
  - intros f Hf. destruct (x_unhandled _ _ _ _ _ Hx f Hf) as [r Hr]. exists r.
    rewrite lookup_insert_ne; [done|congruence].
Qed.

(** What dropping references of [t] keeps. *)
Definition drop_inv (susp : list TaskID) (t : TaskID) (x0 : WorkflowExecutor) (rest : list TaskID)
    (x : WorkflowExecutor) : Prop :=
  exec_ok out futs0 rk susp x ∧ pending_input_set (_state x) !! t = Some ∅ ∧
  t ∉ frontier_to_run (_state x) ∧ NoDup rest ∧
  upstream_dependencies (_state x) = upstream_dependencies (_state x0) ∧
  running_frontier_set (_state x) = running_frontier_set (_state x0) ∪ {[t]} ∧
  (∀ c, c ∈ rest → t ∈ references c (_state x) ∧ avail (_state x) c) ∧
  ∀ a c, a ≠ t → a ∈ references c (_state x0) → a ∈ references c (_state x).

Lemma drop_reference_ok susp t x0 c rest x :
  drop_inv susp t x0 (c :: rest) x → wp (drop_reference t c) (λ _, drop_inv susp t x0 rest) x.
Proof.
  intros (Hx & Hp & Htf & Hnd & Hups & Hrs & Hall & Hothers).
  apply NoDup_cons in Hnd as [Hnc Hnd]. destruct (Hall c) as [Htc Hc]; [left|].
  unfold drop_reference. do 2 wp_exec. rewrite decide_True by done.
  set (s := _state x) in *.
  assert (∀ R free,
    (∀ c' m, m ∈ default ∅ (R !! c') ↔ m ∈ references c' s ∧ ¬ (c' = c ∧ m = t)) →
    (∀ c', c' ∈ free → c' ∈ free_outputs s ∨ avail s c') →
    drop_inv susp t x0 rest (set_state (set_free_outputs free (set_reference_set R s)) x)) as Hgo.
  { intros R free HR Hfree. split_and!; try done.
    - eapply exec_ok_set_state; [exact Hx| |done|apply Hx|apply Hx|done].
      eapply (state_ok_drop _ _ t c); try done. apply Hx.
    - intros c' Hc'. destruct (Hall c') as [? ?]; [by right|]. split; [|done].
      unfold references. cbn. rewrite HR. split; [done|]. by intros [-> _].
    - intros a c' Ha Hin. unfold references. cbn. rewrite HR. split; [by apply Hothers|].
      intros [_ ?]. done. }
  case_decide as Hemp.
  - wp_exec. apply Hgo.
    + intros c' m. destruct (decide (c' = c)) as [->|Hne].
      * rewrite lookup_delete_eq. cbn. split; [set_solver +|]. intros [Hm Hmt].
        assert (m ∈ references c s ∖ {[t]}) as Hd.
        { apply elem_of_difference. split; [done|]. intros ->%elem_of_singleton. by apply Hmt. }
        rewrite Hemp in Hd. by apply not_elem_of_empty in Hd.
      * rewrite lookup_delete_ne by done. unfold references. tauto.
    + intros c' [?| ->%elem_of_singleton]%elem_of_union; auto.
  - wp_exec. change (set_references c (references c s ∖ {[t]}) (_state x)) with
      (set_free_outputs (free_outputs s)
         (set_reference_set (<[c := references c s ∖ {[t]}]> (reference_set s)) s)).
    apply Hgo; [|auto]. intros c' m. destruct (decide (c' = c)) as [->|Hne].
    + rewrite lookup_insert_eq. cbn. rewrite elem_of_difference, elem_of_singleton. clear. naive_solver.
    + rewrite lookup_insert_ne by done. unfold references. tauto.
Qed.

Lemma submit_one_ok susp now t x :
  exec_ok out futs0 rk (t :: susp) x →
  (∀ c, needs (_state x) t c → t ∈ references c (_state x)) →
  wp (_ ← _submit_ray_task now t; _post_process_submit_task t)
    (λ _ x', exec_ok out futs0 rk susp x' ∧ submit_frame t x x') x.
Proof.
  intros Hx Hrefs. pose proof (x_state _ _ _ _ _ Hx) as Hst.
  assert (active (t :: susp) (_state x) t) as Ha by (right; right; left).
  wp_exec. eapply wp_mono; [by apply submit_ray_task_ok|]. intros _ x1 (Hx1 & Hrun & Href & Hups).
  pose proof (x_state _ _ _ _ _ Hx1) as Hst1.
  assert (active susp (_state x1) t) as Ha1 by (right; left; rewrite Hrun; set_solver +).
  destruct (active_task Hst1 t Ha1) as (task & args & ups & ctx & Htask & _ & _ & Hu & Hnd & _).
  unfold _post_process_submit_task. do 2 wp_exec.
  assert (∀ c, references c (_state x1) = references c (_state x)) as Hrc
    by (intros c; unfold references; by rewrite Href).
  destruct (continuation_root (_state x1) !! t) as [root|].
  - wp_exec. eapply wp_mget; [exact Htask|]. destruct (checkpoint _); wp_exec.
    + split; [apply exec_ok_act; [done|congruence]|]. split_and!; [done..|]. cbn. intros a c _. by rewrite Hrc.
    + split; [done|]. split_and!; [done..|]. intros a c _. by rewrite Hrc.
  - wp_exec. eapply wp_mget; [exact Hu|].
    apply (wp_for (drop_inv susp t x)).
    + split_and!; try done.
      * by apply (p_active _ _ _ (s_sched _ _ _ Hst1)).
      * intros Hin. apply (p_front_run _ _ _ (s_sched _ _ _ Hst1)) in Hin. rewrite Hrun in Hin. set_solver +Hin.
      * intros c Hc. assert (needs (_state x1) t c) as Hn by by exists ups.
        split; [|by eapply active_inputs]. rewrite Hrc. apply Hrefs.
        unfold needs in *. by rewrite Hups in Hn.
      * intros a c _. by rewrite Hrc.
    + intros c rest x' _ Hinv. by apply drop_reference_ok.
    + by intros x' (Hx' & _ & _ & _ & Hups' & Hrs' & _ & Hoth).
Qed.

(** The loop over the polled tasks. *)
Lemma submit_all_ok susp now queued x :
  exec_ok out futs0 rk (queued ++ susp) x → NoDup queued →
  (∀ t c, t ∈ queued → needs (_state x) t c → t ∈ references c (_state x)) →
  wp (st_for queued (λ task_id, _ ← _submit_ray_task now task_id; _post_process_submit_task task_id))
    (λ _ x', exec_ok out futs0 rk susp x' ∧
       ∀ t, t ∈ running_frontier_set (_state x) ∨ t ∈ queued → t ∈ running_frontier_set (_state x')) x.
Proof.
  intros Hx Hnd Hrefs. set (x0 := x) in *.
  apply (wp_for (λ rest x, exec_ok out futs0 rk (rest ++ susp) x ∧ NoDup rest ∧
    (∀ t, t ∈ running_frontier_set (_state x0) ∨ t ∈ queued →
       t ∈ running_frontier_set (_state x) ∨ t ∈ rest) ∧
    ∀ t c, t ∈ rest → needs (_state x) t c → t ∈ references c (_state x))).
  - split_and!; [done..| |done]. intros t [?|?]; [by left|by right].
  - clear Hx Hnd Hrefs. intros t rest x1 _ (Hx & Hnd & Hin & Hrefs). apply NoDup_cons in Hnd as [Hnt Hnd].
    eapply wp_mono; [apply (submit_one_ok (rest ++ susp)); [done|]|].
    + intros c. apply Hrefs. left.
    + cbn. intros _ x' [Hx' (Hups & Hrs & Hoth)]. split_and!; [done..| |].
      * intros a Ha. rewrite Hrs. destruct (Hin a Ha) as [?|[->|?]%elem_of_cons]; set_solver.
      * intros a c Ha Hn. apply Hoth; [by intros ->|].
        apply Hrefs; [by right|]. unfold needs in *. by rewrite Hups in Hn.
  - intros x1 (Hx1 & _ & Hin & _). split; [done|]. intros t Ht.
    by destruct (Hin t Ht) as [?|?%not_elem_of_nil].
Qed.

Lemma garbage_collect_ok susp x :
  exec_ok out futs0 rk susp x →
  wp _garbage_collect (λ _ x', exec_ok out futs0 rk susp x' ∧
    running_frontier_set (_state x') = running_frontier_set (_state x)) x.
Proof.
  intros Hx. unfold _garbage_collect. do 2 wp_exec. set (x0 := x) in *.
  apply (wp_for (λ rest x, exec_ok out futs0 rk susp x ∧
    running_frontier_set (_state x) = running_frontier_set (_state x0) ∧
    ∀ c, c ∈ rest → avail (_state x) c)).
  - split_and!; [done..|]. intros c Hc%elem_of_elements. by apply (s_free _ _ _ (x_state _ _ _ _ _ Hx)).
  - intros c rest x1 _ (Hx1 & Hrs & Hall). unfold collect_one. do 4 wp_exec.
    apply wp_bind. apply (wp_lift _ tt).
    { unfold py_assert. rewrite bool_decide_true; [done|]. intros Hg.
      apply (get_input_avail rk) in Hg; [|apply (x_state _ _ _ _ _ Hx1)]. apply Hg, Hall. left. }
    wp_exec. split_and!; [|done|intros c' Hc'; apply Hall; by right].
    eapply (exec_ok_set_state _ _ _ _ _ _ x1); 
      [exact Hx1|apply (state_ok_collect _ _ c (_state x1)), Hx1|done|apply Hx1|apply Hx1|done].
  - by intros x' (? & ? & _).
Qed.

(** A turn of the loop submits the frontier. *)
Lemma submit_round_ok susp now x :
  exec_ok out futs0 rk susp x →
  wp (submit_round now) (λ _ x', exec_ok out futs0 rk susp x' ∧
    ∀ t, t ∈ running_frontier_set (_state x) ∨ t ∈ frontier_to_run (_state x) →
      t ∈ running_frontier_set (_state x')) x.
Proof.
  intros Hx. pose proof (s_sched _ _ _ (x_state _ _ _ _ _ Hx)) as Hs.
  unfold submit_round, _poll_queued_tasks. wp_exec. do 2 wp_exec.
  eexists _, _. split; [apply poll_queued_spec; [|apply Hs|done|apply Hs]; lia|]. cbn [app].
  wp_exec. eapply wp_mono; [apply submit_all_ok; [|apply Hs|]|].
  - eapply exec_ok_set_state; [exact Hx|apply state_ok_poll, Hx|done|apply Hx|apply Hx|done].
  - intros t c Ht Hn. by apply (p_front_refs _ _ _ Hs).
  - cbn. intros _ x1 [Hx1 Hin]. eapply wp_mono; [by apply garbage_collect_ok|].
    cbn. intros _ x2 [Hx2 ->]. done.
Qed.
End submission.

(** ** Completion *)

Section completion.
Context (out : option TaskID) (futs0 : list Future) (rk : TaskID → Z).

Lemma filter_ext_elem {A} (P Q : A → Prop) `{∀ a, Decision (P a), ∀ a, Decision (Q a)} (l : list A) :
  (∀ a, a ∈ l → P a ↔ Q a) → filter P l = filter Q l.
Proof.
  induction l as [|a l IH]; intros HPQ; [done|]. rewrite !filter_cons, IH by (intros; apply HPQ; by right).
  pose proof (HPQ a (list_elem_of_here _ _)). repeat case_decide; tauto.
Qed.

(** Telling the readers [ms] of [target]. *)
Definition told (target : TaskID) (ms : list TaskID) (P : gmap TaskID (gset TaskID)) :=
  fold_left (λ P m, <[m := default ∅ (P !! m) ∖ {[target]}]> P) ms P.

Lemma told_lookup target ms P m :
  NoDup ms →
  told target ms P !! m =
    if decide (m ∈ ms) then Some (default ∅ (P !! m) ∖ {[target]}) else P !! m.
Proof.
  unfold told. revert P. induction ms as [|m' ms IH]; intros P Hnd; cbn;
    [by rewrite decide_False by apply not_elem_of_nil|].
  apply NoDup_cons in Hnd as [Hn Hnd]. rewrite IH by done.
  destruct (decide (m = m')) as [->|Hne].
  - rewrite decide_False, decide_True by (done || left). by rewrite lookup_insert_eq.
  - rewrite lookup_insert_ne by done. destruct (decide (m ∈ ms)).
    + by rewrite decide_True by by right.
    + by rewrite decide_False by (apply not_elem_of_cons; done).
Qed.

Lemma notify_loop target ms R P F s x :
  NoDup ms →
  (∀ m, m ∈ ms → (∃ p, P !! m = Some p ∧ target ∈ p) ∧ m ∉ F ∧ m ∉ running_frontier_set s) →
  st_for ms (notify target) (set_state (with_plan R P F s) x) =
    (set_state (with_plan R (told target ms P)
       (F ++ filter (λ m, P !! m = Some {[target]}) ms) s) x, Ok tt).
Proof.
  revert P F. induction ms as [|m ms IH]; intros P F Hnd Hms; [cbn; by rewrite app_nil_r|].
  apply NoDup_cons in Hnd as [Hnm Hnd]. destruct (Hms m) as ((p & Hp & Ht) & HmF & HmR); [left|].
  assert (∀ a, a ∈ ms → (<[m := p ∖ {[target]}]> P) !! a = P !! a) as Hothers
    by (intros a Ha; rewrite lookup_insert_ne; [done|congruence]).
  cbn [st_for]. unfold mbind, st_bind at 1. unfold notify at 1, mbind, st_bind, get_state, st_gets, st_lift.
  cbn [_state set_state pending_input_set with_plan set_frontier_to_run_set set_frontier_to_run
    set_pending_input_set]. unfold mget_exn. rewrite Hp. cbn [of_option].
  rewrite decide_True by done. unfold modify_state, st_modify.
  change (set_state (set_pending m (p ∖ {[target]}) (_state (set_state (with_plan R P F s) x)))
    (set_state (with_plan R P F s) x)) with
    (set_state (with_plan R (<[m := p ∖ {[target]}]> P) F s) x).
  assert (told target (m :: ms) P = told target ms (<[m := p ∖ {[target]}]> P)) as ->
    by (unfold told; cbn; by rewrite Hp).
  assert (filter (λ a, (<[m := p ∖ {[target]}]> P) !! a = Some {[target]}) ms =
    filter (λ a, P !! a = Some {[target]}) ms) as Hfilter.
  { apply filter_ext_elem. intros a Ha. by rewrite Hothers. }
  case_decide as Hemp.
  - unfold on_state. change (_state (set_state (with_plan R (<[m := p ∖ {[target]}]> P) F s) x))
      with (with_plan R (<[m := p ∖ {[target]}]> P) F s). rewrite run_append. rewrite decide_True by done.
    apply difference_singleton_empty in Hemp as ->; [|set_solver].
    rewrite filter_cons_True by done. rewrite <- Hfilter.
    pose proof (IH (<[m := {[target]} ∖ {[target]}]> P) (F ++ [m]) Hnd) as IH'.
    rewrite <- (assoc_L (++)) in IH'. apply IH'.
    intros a Ha. destruct (Hms a) as (Hpa & HaF & HaR); [by right|]. rewrite Hothers by done.
    split_and!; [done| |done]. intros [?| ->%list_elem_of_singleton]%elem_of_app; done.
  - rewrite filter_cons_False by (rewrite Hp; intros [= ->]; apply Hemp; set_solver +).
    unfold mret, st_ret. rewrite <- Hfilter. apply IH; [done|].
    intros a Ha. destruct (Hms a) as (Hpa & HaF & HaR); [by right|]. by rewrite Hothers by done.
Qed.

(** The callbacks of a task get its output. *)
Lemma set_results r futs x :
  NoDup futs → (∀ f, f ∈ futs → futures x !! f = Some FPending) →
  ∃ fs, st_for futs (fut_set (FResult r)) x = (set_futures fs x, Ok tt) ∧
    ∀ f, fs !! f = if decide (f ∈ futs) then Some (FResult r) else futures x !! f.
Proof.
  revert x. induction futs as [|f futs IH]; intros x Hnd Hall.
  - exists (futures x). split; [by destruct x|]. intros f. by rewrite decide_False by apply not_elem_of_nil.
  - apply NoDup_cons in Hnd as [Hn Hnd]. cbn [st_for]. unfold mbind, st_bind at 1.
    unfold fut_set at 1, mbind, st_bind, st_get, fut_done. rewrite (Hall f) by left. unfold st_modify.
    destruct (IH (set_futures (<[f := FResult r]> (futures x)) x)) as (fs & Hrun & Hfs); [done| |].
    { intros g Hg. cbn. rewrite lookup_insert_ne by congruence. apply Hall. by right. }
    exists fs. split; [by rewrite Hrun|]. intros g. rewrite Hfs. cbn.
    destruct (decide (g = f)) as [->|Hne].
    + by rewrite decide_False, (decide_True (P := f ∈ f :: futs)), lookup_insert_eq by (done || left).
    + rewrite lookup_insert_ne by done. destruct (decide (g ∈ futs)).
      * by rewrite decide_True by by right.
      * by rewrite decide_False by by apply not_elem_of_cons.
Qed.

Section value.
Context (susp : list TaskID) (s : WorkflowExecutionState) (t : TaskID).
Hypothesis Hok : state_ok rk (t :: susp) s.
Let target := root_of t s.

(** The readers of an output that is missing wait for it. *)
Lemma reader_waits m :
  m ∈ references target s →
  (∃ p, pending_input_set s !! m = Some p ∧ target ∈ p) ∧
  m ∉ frontier_to_run s ∧ m ∉ running_frontier_set s.
Proof.
  pose proof (s_sched _ _ _ Hok) as Hs. intros Hm.
  destruct (p_ref_sound _ _ _ Hs m target Hm) as [Hn [p Hp]].
  assert (target ∈ p) as Ht by (apply (p_known _ _ _ Hs m p Hp); split; [done|by eapply target_missing]).
  assert (¬ active (t :: susp) s m) as Hna.
  { intros Ha. apply (p_active _ _ _ Hs) in Ha as [Hp' _]. rewrite Hp in Hp'. simplify_eq. set_solver. }
  unfold active in Hna. split_and!; [by eauto|tauto|tauto].
Qed.

Lemma waiter_reads m p : pending_input_set s !! m = Some p → target ∈ p → m ∈ references target s.
Proof. intros Hp Ht. by eapply (p_refs _ _ _ (s_sched _ _ _ Hok)). Qed.

Lemma told_readers ms :
  ms ≡ₚ elements (references target s) →
  told target ms (pending_input_set s) = (λ p, p ∖ {[target]}) <$> pending_input_set s.
Proof.
  intros Hms. assert (NoDup ms) as Hnd by (rewrite Hms; apply NoDup_elements).
  apply map_eq. intros m. rewrite told_lookup, lookup_fmap by done.
  case_decide as Hm; rewrite Hms, elem_of_elements in Hm.
  - destruct (reader_waits m Hm) as [(p & -> & _) _]. done.
  - destruct (pending_input_set s !! m) as [p|] eqn:Hp; [|done]. cbn. f_equal.
    assert (target ∉ p) by (intros ?; by eapply Hm, waiter_reads). set_solver.
Qed.

Lemma told_ready ms m :
  ms ≡ₚ elements (references target s) →
  m ∈ filter (λ m, pending_input_set s !! m = Some {[target]}) ms ↔
  pending_input_set s !! m = Some {[target]}.
Proof.
  intros Hms. rewrite list_elem_of_filter, Hms, elem_of_elements. split; [tauto|].
  intros Hp. split; [done|]. eapply waiter_reads; [exact Hp|set_solver].
Qed.
End value.

(** The futures [fs] are those of [x] with those that waited for [target] resolved. *)
Definition resolved (target : TaskID) (ref : WorkflowRef) (fs : gmap Future FutureState)
    (x : WorkflowExecutor) : Prop :=
  ∀ f, fs !! f = futures x !! f ∨
    fs !! f = Some (FResult ref) ∧ ∃ futs, _task_done_callbacks x !! target = Some futs ∧ f ∈ futs.

Lemma resolve_callbacks target ref susp x s1 :
  exec_ok out futs0 rk susp x → ¬ avail (_state x) target →
  ∃ fs,
    match _task_done_callbacks x !! target with
    | Some futs => st_for futs (fut_set (FResult ref))
    | None => mret tt
    end (set_state s1 x) = (set_futures fs (set_state s1 x), Ok tt) ∧ resolved target ref fs x.
Proof.
  intros Hx Hav. destruct (_task_done_callbacks x !! target) as [futs|] eqn:Hcb.
  - destruct (x_callbacks _ _ _ _ _ Hx target futs Hcb) as [Hnd Hall].
    destruct (set_results ref futs (set_state s1 x) Hnd) as (fs & Hrun & Hfs).
    { intros f Hf. destruct (Hall f Hf) as (v & Hv & Hp). cbn. rewrite Hv. by rewrite Hp. }
    exists fs. split; [done|]. intros f. rewrite Hfs. case_decide; [|by left]. right. eauto.
  - exists (futures x). split; [by destruct x|]. intros f. by left.
Qed.

Lemma exec_ok_resolved target ref fs susp susp' x s' :
  exec_ok out futs0 rk susp x → state_ok rk susp' s' → resolved target ref fs x →
  output_task_id s' = output_task_id (_state x) →
  running_frontier s' = running_frontier (_state x) →
  (∀ c, avail s' c ↔ c = target ∨ avail (_state x) c) →
  exec_ok out futs0 rk susp' (set_state s' (set_futures fs x)).
Proof.
  intros [Hst Hout Hn Hu Hf Hcb Hdj Hsb] Hs' Hfs Ho Hr Hav. constructor; try done; cbn.
  - congruence.
  - by rewrite Hr.
  - by rewrite Hr.
  - intros f [v Hv]. apply Hf. destruct (Hfs f) as [<-|(_ & futs & Ht & Hin)]; [by eexists|].
    destruct (Hcb target futs Ht) as [_ Hall]. destruct (Hall f Hin) as (w & ? & _). by eexists.
  - intros t futs Ht. destruct (Hcb t futs Ht) as [? Hall]. split; [done|]. intros f Hin.
    destruct (Hfs f) as [Heq|(Heq & futs' & Ht' & Hin')].
    + destruct (Hall f Hin) as (v & Hv & Hp). exists v. split; [congruence|]. intros Hna. apply Hp.
      intros ?. apply Hna, Hav. by right.
    + exists (FResult ref). split; [done|]. intros Hna. destruct Hna. apply Hav. left.
      by eapply Hdj.
Qed.

(** A task that returns a value: its output is there, and its readers know. *)
Lemma post_process_value_ok order t ref susp x :
  (∀ l, order l ≡ₚ l) → exec_ok out futs0 rk (t :: susp) x →
  wp (post_process_value order t ref) (λ _ x', exec_ok out futs0 rk susp x' ∧
    upstream_dependencies (_state x') = upstream_dependencies (_state x) ∧
    ∀ c, avail (_state x') c ↔ c = root_of t (_state x) ∨ avail (_state x) c) x.
Proof.
  intros Horder Hx. pose proof (x_state _ _ _ _ _ Hx) as Hst. set (s := _state x) in *.
  destruct (active_task Hst t) as (task & ? & ? & ? & Htask & (Hcp & _) & _); [right; right; left|].
  set (target := root_of t s).
  set (s1 := set_done_tasks (done_tasks s ∪ {[target]})
    (set_checkpoint_map (<[target := mkRef t None]> (checkpoint_map s))
    (set_output_map (<[target := ref]> (output_map s)) s))).
  destruct (resolve_callbacks target ref _ x s1 Hx) as (fs & Hrun & Hfs); [by eapply target_missing|].
  unfold post_process_value. do 4 wp_exec. wp_exec. eapply wp_mget; [exact Htask|]. rewrite Hcp.
  do 6 wp_exec. apply wp_bind. exists (set_futures fs (set_state s1 x)), tt. split; [exact Hrun|].
  do 4 wp_exec. change (_state (set_futures fs (set_state s1 x))) with s1.
  change (root_of t (_state x)) with target.
  change (references target s1) with (references target s).
  set (ms := order (elements (references target s))).
  assert (ms ≡ₚ elements (references target s)) as Hms by apply Horder.
  assert (NoDup ms) as Hnd by (rewrite Hms; apply NoDup_elements).
  set (R := <[target := references target s]> (reference_set s)).
  assert (set_references target (references target s) s1 =
    with_plan R (pending_input_set s) (frontier_to_run s) s1) as ->.
  { unfold with_plan. rewrite <- (p_front_set _ _ _ (s_sched _ _ _ Hst)). done. }
  eexists _, tt. split.
  - apply (notify_loop target ms R (pending_input_set s) (frontier_to_run s) s1 (set_futures fs x) Hnd).
    intros m Hm. rewrite Hms, elem_of_elements in Hm. by apply (reader_waits susp s t Hst).
  - assert (∀ c, avail s1 c ↔ c = target ∨ avail s c) as Hav1
      by (intros c; apply (completed_avail s t ref (mkRef t None) [] ∅)).
    cbn [_state set_state]. split; [|split; [reflexivity|]];
      [|intros c; rewrite avail_with_plan; apply Hav1].
    rewrite (told_readers susp s t) by done.
    apply (exec_ok_resolved target ref fs (t :: susp) susp x); try done.
    + apply (completed_ok rk susp s t ref (mkRef t None)); [done| |intros m; by apply (told_ready susp s t)|].
      * intros c. unfold R. destruct (decide (c = target)) as [->|]; [by rewrite lookup_insert_eq|].
        by rewrite lookup_insert_ne.
      * by apply NoDup_filter.
Qed.
End completion.

(** ** Failures *)

(** The errors that a workflow is meant to end with, after it has set its status. *)
Definition meant_error (x : WorkflowExecutor) (e : exn) : Prop :=
  e = WorkflowExecutionError ∧ last (actions x) = Some (SetStatus FAILED) ∨
  e = WorkflowCancellationError ∧ last (actions x) = Some (SetStatus CANCELED).

(** [m] returns and establishes [Q], or raises one of them. *)
Definition runs {A} (m : E A) (Q : A → WorkflowExecutor → Prop) (x : WorkflowExecutor) : Prop :=
  wp m Q x ∨ ∃ x' e, m x = (x', Err e) ∧ meant_error x' e.

Lemma runs_bind {A B} (m : E A) (f : A → E B) (P : A → WorkflowExecutor → Prop) Q x :
  runs m P x → (∀ a x', P a x' → runs (f a) Q x') → runs (m ≫= f) Q x.
Proof.
  intros [(x1 & a & Hm & HP)|(x1 & e & Hm & He)] Hf.
  - destruct (Hf a x1 HP) as [(x2 & b & Hb & HQ)|(x2 & e & Hb & He)].
    + left. exists x2, b. split; [|done]. unfold mbind, st_bind. by rewrite Hm.
    + right. exists x2, e. split; [|done]. unfold mbind, st_bind. by rewrite Hm.
  - right. exists x1, e. split; [|done]. unfold mbind, st_bind. by rewrite Hm.
Qed.

Lemma runs_wp {A} (m : E A) Q x : wp m Q x → runs m Q x.
Proof. by left. Qed.

(** A handler is not called when nothing is raised. *)
Lemma runs_try m h Q x : wp m Q x → runs (try_except m h) Q x.
Proof.
  intros (x' & a & Hm & HQ). left. exists x', a. split; [|done]. unfold try_except. by rewrite Hm.
Qed.

Section failure.
Context (out : option TaskID) (futs0 : list Future) (rk : TaskID → Z).

(** The tasks that are not below [t]. *)
Definition above (s : WorkflowExecutionState) (t : TaskID) : nat :=
  size (filter (λ a, rk t <= rk a) (dom (tasks s))).

(** No task of the callstack catches the exception; the search for one ends, because
    creators have higher ranks. *)
Lemma find_catcher_none susp s fuel t :
  state_ok rk susp s → (above s t < fuel)%nat → find_catcher fuel t s = Ok None.
Proof.
  intros Hok. revert t. induction fuel as [|fuel IH]; intros t Hfuel; [lia|]. cbn.
  destruct (tasks s !! t) as [task|] eqn:Htask; [|by destruct (task_context s !! t)].
  destruct (s_context _ _ _ Hok t task Htask) as (ctx & -> & _ & Hcr).
  destruct (g_plain _ _ (s_graph _ _ _ Hok) t task Htask) as (_ & -> & _).
  destruct Hcr as [->|[_ Hlt]].
  - destruct fuel as [|fuel].
    + exfalso. assert (t ∈ filter (λ a, rk t <= rk a) (dom (tasks s))) as Hin.
      { apply elem_of_filter. split; [lia|]. apply elem_of_dom. by eexists. }
      unfold above in Hfuel. assert (size (filter (λ a, rk t <= rk a) (dom (tasks s))) = 0%nat) as Hz by lia.
      apply size_empty_inv in Hz. by apply Hz, not_elem_of_empty in Hin.
    + cbn. assert (tasks s !! ""%string = None) as ->.
      { destruct (tasks s !! ""%string) eqn:Hd; [|done].
        destruct (g_known _ _ (s_graph _ _ _ Hok) ""%string) as [? ?]; [by eexists|].
        pose proof (s_driver _ _ _ Hok). congruence. }
      by destruct (task_context s !! ""%string).
  - apply IH. enough (above s (creator_task_id ctx) < above s t)%nat by lia.
    apply subset_size. split.
    + intros a. rewrite !elem_of_filter. intros [? ?]. split; [lia|done].
    + intros Hsub. specialize (Hsub t). rewrite !elem_of_filter, !elem_of_dom in Hsub.
      destruct Hsub as [? _]; [split; [lia|by eexists]|]. lia.
Qed.

(** A retry schedules the task again. *)
Lemma retry_ok susp t x v :
  exec_ok out futs0 rk (t :: susp) x →
  wp (_ ← modify_state (λ s, set_task_retries v s); on_state (construct_scheduling_plan t))
    (λ _ x', exec_ok out futs0 rk susp x') x.
Proof.
  intros Hx. pose proof (state_ok_retries _ _ v _ (x_state _ _ _ _ _ Hx)) as Hst.
  assert (active (t :: susp) (set_task_retries v (_state x)) t) as Ha by (right; right; left).
  destruct (active_task Hst t Ha) as (_ & _ & ins & _ & _ & _ & _ & Hins & _).
  destruct (p_active _ _ _ (s_sched _ _ _ Hst) t Ha) as (_ & (_ & HL & _) & _).
  destruct (p_susp _ _ _ (s_sched _ _ _ Hst) t) as [Htf Htr]; [left|].
  do 2 wp_exec. eapply wp_on_state.
  - apply (construct_scheduling_plan_ready rk _ t ins); try done; [apply Hst|apply Hst|..].
    + by eapply active_not_avail.
    + intros c Hc. eapply active_inputs; [exact Hst|exact Ha|]. by exists ins.
  - eapply (exec_ok_set_state _ _ _ _ _ _ x); [exact Hx|by apply state_ok_retry|done|apply Hx|apply Hx|done].
Qed.

(** An exception of a task: a retry, or the end of the workflow. *)
Lemma handle_exception_ok order susp t e x :
  exec_ok out futs0 rk (t :: susp) x →
  runs (handle_exception order t e) (λ _ x', exec_ok out futs0 rk susp x') x.
Proof.
  intros Hx. pose proof (x_state _ _ _ _ _ Hx) as Hst.
  destruct (active_task Hst t) as (task & _ & _ & _ & Htask & _); [right; right; left|].
  unfold handle_exception.
  apply (runs_bind _ _ (λ (retried : bool) x',
    if retried then exec_ok out futs0 rk susp x' else exec_ok out futs0 rk (t :: susp) x')).
  - apply runs_wp. unfold _retry_failed_task. do 2 wp_exec. wp_exec. eapply wp_mget; [exact Htask|].
    destruct (negb _ || _); [|by wp_exec]. case_match.
    + destruct (retry_ok susp t x (<[t := default 0 (task_retries (_state x) !! t) + 1]>
        (task_retries (_state x))) Hx) as (x' & [] & Hrun & Hx').
      exists x', true. split; [|done]. revert Hrun. unfold mbind, st_bind, modify_state, st_modify.
      destruct (on_state _ _) as [x1 [[]|]]; [|done]. intros [= ->]. done.
    + do 3 wp_exec. eapply exec_ok_set_state; [exact Hx|by apply state_ok_retries|done|apply Hx|apply Hx|done].
  - intros [] x1 Hx1; [by apply runs_wp, wp_ret|]. clear x Hx Hst Htask.
    apply (runs_bind _ _ (λ (caught : bool) x', caught = false)).
    + apply runs_wp. unfold _catch_failed_task. do 2 wp_exec.
      wp_exec. case_bool_decide.
      * apply (wp_lift _ None); [|by wp_exec].
        apply (find_catcher_none (t :: susp)); [apply (x_state _ _ _ _ _ Hx1)|]. unfold above.
        rewrite <- size_dom. apply Nat.lt_succ_r, subseteq_size. by intros a [_ ?]%elem_of_filter.
      * by do 2 wp_exec.
    + intros caught x2 ->. right. eexists _, WorkflowExecutionError. split; [done|]. left.
      split; [done|]. cbn. apply last_snoc.
Qed.

(** ** The handlers of completions *)

Lemma pop_running_ok susp fut ref x :
  exec_ok out futs0 rk susp x → fut ∉ futs0 → running_frontier (_state x) !! fut = Some ref →
  wp (on_state (pop_running_frontier fut))
    (λ r x', r = ref ∧ exec_ok out futs0 rk (wr_task_id ref :: susp) x' ∧
       is_Some (task_execution_metadata (_state x') !! wr_task_id ref)) x.
Proof.
  intros Hx Hnew Hfut. pose proof (x_state _ _ _ _ _ Hx) as Hst.
  assert (wr_task_id ref ∈ running_frontier_set (_state x)) as Hrun
    by (apply (s_running _ _ _ Hst); eauto).
  eapply wp_on_state.
  - unfold pop_running_frontier, mbind, st_bind, st_get, st_lift, st_modify. rewrite Hfut. cbn [of_option].
    rewrite decide_True by done. done.
  - split_and!; [done| |by apply (s_metadata _ _ _ Hst)].
    eapply exec_ok_set_state; [exact Hx|by apply state_ok_pop_running|done| | |done]; cbn.
    + intros f r [_ Hf]%lookup_delete_Some. by eapply (x_names _ _ _ _ _ Hx).
    + intros f Hf. rewrite lookup_delete_ne by congruence. by apply (x_unhandled _ _ _ _ _ Hx).
Qed.

(** The bookkeeping before the result of a task is processed. *)
Lemma note_completion_ok susp now t x :
  exec_ok out futs0 rk susp x → is_Some (task_execution_metadata (_state x) !! t) →
  wp (_ ← set_finish_time now t; pop_retries t) (λ _ x', exec_ok out futs0 rk susp x') x.
Proof.
  intros Hx [md Hmd]. unfold set_finish_time, pop_retries. do 3 wp_exec. wp_exec.
  eapply wp_mget; [exact Hmd|]. do 2 wp_exec.
  eapply (exec_ok_set_state _ _ _ _ _ _ x); [exact Hx| |done|apply Hx|apply Hx|done].
  apply state_ok_retries. by apply state_ok_metadata, Hx.
Qed.

(** The tasks whose output is still to come. *)
Definition missing_outputs (s : WorkflowExecutionState) : gset TaskID :=
  filter (λ t, ¬ avail s t) (dom (upstream_dependencies s)).

(** The parts of the state that fix them. *)
Definition outputs_of (x : WorkflowExecutor) :=
  (upstream_dependencies (_state x), checkpoint_map (_state x), continuation_root (_state x)).

Lemma missing_outputs_ext x x' :
  outputs_of x' = outputs_of x → missing_outputs (_state x') = missing_outputs (_state x).
Proof.
  intros [= Hu Hc _]. apply set_eq. intros t. unfold missing_outputs.
  rewrite !elem_of_filter, Hu. unfold avail. by rewrite Hc.
Qed.

Lemma pop_running_outputs fut : keeps outputs_of (on_state (pop_running_frontier fut)).
Proof.
  intros x. unfold on_state, pop_running_frontier, mbind, st_bind, st_get, st_lift, st_modify, st_raise.
  destruct (of_option _ _) as [ref|]; [|done]. by case_decide.
Qed.

Lemma note_completion_outputs now t : keeps outputs_of (_ ← set_finish_time now t; pop_retries t).
Proof. unfold set_finish_time, pop_retries. by keeps_tac. Qed.

(** A running task is of use. *)
Lemma root_missing susp s t : state_ok rk susp s → active susp s t → root_of t s ∈ missing_outputs s.
Proof.
  intros Hst Ha. destruct (p_active _ _ _ (s_sched _ _ _ Hst) t Ha) as (_ & (Hu & _ & Hl) & Hna).
  apply elem_of_filter. split; [done|]. apply elem_of_dom. unfold root_of in *.
  destruct (continuation_root s !! t) as [r|] eqn:Hr; [|done].
  by destruct (g_latest _ _ (s_graph _ _ _ Hst) r t (Hl r Hr)) as (? & _).
Qed.

(** The handler of a value: an output less is missing. *)
Lemma handle_value_ok order now fut susp x :
  (∀ l, order l ≡ₚ l) → exec_ok out futs0 rk susp x → fut ∉ futs0 →
  is_Some (running_frontier (_state x) !! fut) →
  wp (_handle_ready_task order now fut Value) (λ t x', t = None ∧ exec_ok out futs0 rk susp x' ∧
    (size (missing_outputs (_state x')) < size (missing_outputs (_state x)))%nat) x.
Proof.
  intros Horder Hx Hnew [ref Hfut]. unfold _handle_ready_task. wp_exec.
  pose proof (pop_running_outputs fut x) as Hk1.
  destruct (pop_running_ok susp fut ref x Hx Hnew Hfut) as (x1 & r & Hrun1 & -> & Hx1 & Hmd).
  rewrite Hrun1 in Hk1. exists x1, ref. split; [done|]. wp_exec.
  pose proof (note_completion_outputs now (wr_task_id ref) x1) as Hk2.
  destruct (note_completion_ok _ now _ _ Hx1 Hmd) as (x2 & [] & Hrun & Hx2). rewrite Hrun in Hk2. cbn in *.
  destruct (post_process_value_ok out futs0 rk order _ ref susp x2 Horder Hx2)
    as (x3 & [] & Hrun3 & Hx3 & Hu & Hav).
  exists x3, tt. split.
  - unfold try_except. revert Hrun. unfold mbind, st_bind.
    destruct (set_finish_time _ _ _) as [? [[]|]]; [|done]. intros ->. by rewrite Hrun3.
  - wp_exec. split_and!; [done..|].
    assert (missing_outputs (_state x) = missing_outputs (_state x2)) as ->
      by (symmetry; apply missing_outputs_ext; congruence).
    pose proof (root_missing _ _ (wr_task_id ref) (x_state _ _ _ _ _ Hx2) ltac:(right; right; left)) as Hroot.
    apply subset_size. split.
    + intros c. unfold missing_outputs. rewrite !elem_of_filter, Hu, Hav. tauto.
    + intros Hsub. specialize (Hsub _ Hroot). unfold missing_outputs in Hsub.
      rewrite elem_of_filter, Hav in Hsub. tauto.
Qed.

(** The tasks that are being handled after a completion. *)
Definition still_handled (susp : list TaskID) (t : option TaskID) : list TaskID :=
  match t with Some t => t :: susp | None => susp end.

Lemma handle_ready_task_ok order now fut o susp x :
  (∀ l, order l ≡ₚ l) → exec_ok out futs0 rk susp x → fut ∉ futs0 →
  is_Some (running_frontier (_state x) !! fut) →
  runs (_handle_ready_task order now fut o)
    (λ t x', exec_ok out futs0 rk (still_handled susp t) x') x.
Proof.
  intros Horder Hx Hnew Hsome. destruct o as [| |e|];
    [apply runs_wp; eapply wp_mono; [by apply handle_value_ok|by cbn; intros ? x' (-> & ? & _)]|..];
    destruct Hsome as [ref Hfut]; unfold _handle_ready_task;
    (eapply runs_bind; [apply runs_wp; by eapply pop_running_ok|]); intros r x1 (-> & Hx1 & Hmd).
  - left. destruct (note_completion_ok _ now _ _ Hx1 Hmd) as (x2 & [] & Hrun & Hx2).
    exists x2, (Some (wr_task_id ref)). split; [by rewrite Hrun|done].
  - apply (runs_bind _ _ (λ _ x', exec_ok out futs0 rk susp x')); [by apply handle_exception_ok|].
    intros _ x' Hx'. by apply runs_wp, wp_ret.
  - right. eexists _, WorkflowCancellationError. split; [done|]. right.
    split; [done|]. cbn. apply last_snoc.
Qed.

(** The callbacks of a continuation move to its root. *)
Definition migrate (o r : TaskID) (cbs : gmap TaskID (list Future)) : gmap TaskID (list Future) :=
  match cbs !! o with
  | Some futs => let cbs := delete o cbs in <[r := default [] (cbs !! r) ++ futs]> cbs
  | None => cbs
  end.

Lemma migrate_lookup o r cbs t futs :
  o ≠ r → migrate o r cbs !! t = Some futs →
  (cbs !! t = Some futs ∧ (t ≠ r ∨ cbs !! o = None) ∧ (t ≠ o ∨ cbs !! o = None)) ∨
  t = r ∧ ∃ fo, cbs !! o = Some fo ∧ futs = default [] (cbs !! r) ++ fo.
Proof.
  intros Hne. unfold migrate. destruct (cbs !! o) as [fo|] eqn:Ho; [|by left; auto].
  rewrite lookup_insert_Some, lookup_delete_Some, lookup_delete_ne by done.
  intros [[<- <-]|(? & ? & ?)]; [right; eauto|left; auto].
Qed.

Lemma exec_ok_migrate susp x o r :
  exec_ok out futs0 rk susp x → ¬ avail (_state x) o → ¬ avail (_state x) r → o ≠ r →
  exec_ok out futs0 rk susp (set_callbacks (migrate o r (_task_done_callbacks x)) x).
Proof.
  intros [Hst Hout Hn Hu Hf Hcb Hdj Hsb] Ho Hr Hne. set (cbs := _task_done_callbacks x) in *.
  assert (∀ t futs f, migrate o r cbs !! t = Some futs → f ∈ futs →
    ∃ t' futs', cbs !! t' = Some futs' ∧ f ∈ futs' ∧ (t' = t ∨ t' = o ∧ t = r) ∧
      (t' = o → t = r ∨ cbs !! o = None)) as Horigin.
  { intros t futs f Ht Hin. apply migrate_lookup in Ht as [(Ht & _ & Hto)|(-> & fo & Hfo & ->)]; [| |done].
    - exists t, futs. split_and!; [done..|by left|]. intros ->. destruct Hto; [done|by right].
    - apply elem_of_app in Hin as [Hin|Hin].
      + destruct (cbs !! r) as [fr|] eqn:Hfr; [|by apply not_elem_of_nil in Hin].
        exists r, fr. split_and!; [done..|by left|]. by left.
      + exists o, fo. split_and!; [done..|by right|]. by left. }
  constructor; try done; cbn.
  - intros t futs Ht. split.
    + apply migrate_lookup in Ht as [(Ht & _)|(-> & fo & Hfo & ->)]; [by apply (Hcb t futs Ht)| |done].
      apply NoDup_app. split_and!; [|..|by apply (Hcb o fo Hfo)].
      * destruct (cbs !! r) as [fr|] eqn:Hfr; [by apply (Hcb r fr Hfr)|constructor].
      * intros f Hin Hin'. destruct (cbs !! r) as [fr|] eqn:Hfr; [|by apply not_elem_of_nil in Hin].
        apply Hne. by eapply (Hdj o r fo fr f).
    + intros f Hin. destruct (Horigin t futs f Ht Hin) as (t' & futs' & Ht' & Hin' & Hor & _).
      destruct (Hcb t' futs' Ht') as [_ Hall]. destruct (Hall f Hin') as (v & Hv & Hp).
      exists v. split; [done|]. intros Hna. apply Hp. by destruct Hor as [->|[-> _]].
  - intros t1 t2 futs1 futs2 f H1 H2 Hin1 Hin2.
    destruct (Horigin t1 futs1 f H1 Hin1) as (t1' & f1' & H1' & Hin1' & Hor1 & Ho1).
    destruct (Horigin t2 futs2 f H2 Hin2) as (t2' & f2' & H2' & Hin2' & Hor2 & Ho2).
    assert (t1' = t2') as Heq by by eapply (Hdj t1' t2' f1' f2' f). subst t2'.
    destruct Hor1 as [Ha1|[Ha1 Hb1]], Hor2 as [Ha2|[Ha2 Hb2]]; try congruence.
    + destruct (Ho1 Ha2) as [?|?]; congruence.
    + destruct (Ho2 Ha1) as [?|?]; congruence.
Qed.

Lemma run_post_process_continuation t sub ctx o x :
  task_context (_state x) !! t = Some ctx → output_task_id sub = Some o →
  let s' := append_continuation t o (merge_state (init_context ctx sub) (_state x)) in
  post_process_continuation t sub x =
    on_state (construct_scheduling_plan o)
      (set_callbacks (migrate o (root_of t (_state x)) (_task_done_callbacks x)) (set_state s' x)).
Proof.
  intros Hctx Ho s'. destruct x as [s cbs fs n acts]. cbn [_state] in *.
  unfold post_process_continuation, mbind, st_bind, get_state, st_gets, st_lift, mget_exn.
  cbn [_state]. rewrite Hctx. cbn [of_option]. unfold modify_state, st_modify, st_get.
  change (output_task_id (init_context ctx sub)) with (output_task_id sub). rewrite Ho.
  cbn [of_option set_state _state _task_done_callbacks futures next_name actions].
  assert (root_of o s' = root_of t s) as Hroot.
  { unfold root_of at 1. rewrite (continued_root s sub t o ctx). by rewrite decide_True. }
  fold s'. rewrite Hroot. clearbody s'. generalize (merge_state (init_context ctx sub) s). intros s1.
  unfold migrate. destruct (cbs !! o) as [futs|]; unfold set_callbacks, set_state; reflexivity.
Qed.

(** A task that returns a continuation: its tasks join the workflow. *)
Lemma post_process_continuation_ok susp t sub o rk0 x :
  exec_ok out futs0 rk (t :: susp) x → sub_ok (_state x) sub o rk0 →
  ∃ rk', wp (post_process_continuation t sub) (λ _ x', exec_ok out futs0 rk' susp x') x.
Proof.
  intros Hx Hsub. pose proof (x_state _ _ _ _ _ Hx) as Hst.
  destruct (active_task Hst t) as (_ & _ & _ & ctx & _ & _ & _ & _ & _ & Hctx & _); [right; right; left|].
  pose proof (run_post_process_continuation t sub ctx o x Hctx (sub_output _ _ _ _ Hsub)) as Hrun.
  destruct (continued_planned rk rk0 susp (_state x) sub t o ctx Hst Hsub Hctx)
    as (rk' & s2 & Hplan & Hst' & Hout' & Hrun' & Hav').
  cbv zeta in Hrun.
  set (s' := append_continuation t o (merge_state (init_context ctx sub) (_state x))) in *.
  clearbody s'. set (r := root_of t (_state x)) in *.
  destruct (root_old rk susp (_state x) t Hst) as (Hru & _ & _).
  assert (o ≠ r) as Hor by (intros ->; by eapply (old_not_output rk0 (_state x) sub r Hsub r)).
  set (x1 := set_callbacks (migrate o r (_task_done_callbacks x)) x).
  assert (exec_ok out futs0 rk (t :: susp) x1) as Hx1.
  { apply exec_ok_migrate; [exact Hx| | |done].
    - apply (sub_fresh _ _ _ _ Hsub). apply Hsub.
    - apply (creator_runnable rk susp _ t Hst). }
  exists rk', (set_state s2 x1), tt. split.
  - rewrite Hrun. unfold on_state. cbn [_state set_callbacks set_state]. by rewrite Hplan.
  - apply (exec_ok_set_state _ _ _ _ _ _ x1 _ Hx1 Hst'); [exact Hout'| | |exact Hav']; rewrite Hrun'.
    + apply (x_names _ _ _ _ _ Hx).
    + apply (x_unhandled _ _ _ _ _ Hx).
Qed.

Lemma handle_continuation_ok order susp t sub x :
  exec_ok out futs0 rk (t :: susp) x →
  (∀ sub', sub = Ok sub' → ∃ o rk0, sub_ok (_state x) sub' o rk0) →
  ∃ rk', runs (handle_continuation order t sub) (λ _ x', exec_ok out futs0 rk' susp x') x.
Proof.
  intros Hx Hsub. unfold handle_continuation. destruct sub as [sub|e].
  - destruct (Hsub sub eq_refl) as (o & rk0 & Hok).
    destruct (post_process_continuation_ok susp t sub o rk0 x Hx Hok) as [rk' Hwp].
    exists rk'. apply runs_try. apply wp_bind. by apply (wp_lift _ sub).
  - exists rk. pose proof (handle_exception_ok order susp t e x Hx) as Hr. exact Hr.
Qed.

(** ** Requests of outputs *)

(** A new future for a callback or a result. *)
Lemma exec_ok_new_future susp x v :
  exec_ok out futs0 rk susp x →
  exec_ok out futs0 rk susp
    (set_futures (<[next_name x := v]> (futures x)) (set_next_name (next_name x + 1) x)).
Proof.
  intros [Hst Hout Hn Hu Hf Hcb Hdj Hsb]. constructor; try done; cbn.
  - intros f r Hr. specialize (Hn f r Hr). lia.
  - intros f. destruct (decide (f = next_name x)) as [->|]; [lia|]. rewrite lookup_insert_ne by done.
    intros Hs. specialize (Hf f Hs). lia.
  - intros t futs Ht. destruct (Hcb t futs Ht) as [? Hall]. split; [done|]. intros f Hin.
    destruct (Hall f Hin) as (w & Hw & ?). exists w. split; [|done].
    rewrite lookup_insert_ne; [done|]. specialize (Hf f ltac:(by eexists)). lia.
Qed.

Lemma callbacks_of_ok susp t x :
  exec_ok out futs0 rk susp x →
  wp (callbacks_of t) (λ futs x', futs = default [] (_task_done_callbacks x !! t) ∧
    x' = set_callbacks (<[t := futs]> (_task_done_callbacks x)) x ∧ exec_ok out futs0 rk susp x') x.
Proof.
  intros Hx. unfold callbacks_of. do 5 wp_exec. split_and!; [done..|].
  destruct (_task_done_callbacks x !! t) as [futs|] eqn:Ht; cbn; [rewrite insert_id by done; by destruct x|].
  destruct Hx as [Hst Hout Hn Hu Hf Hcb Hdj Hsb]. constructor; try done; cbn.
  - intros t' futs. rewrite lookup_insert_Some. intros [[<- <-]|[? ?]]; [|by apply Hcb].
    split; [constructor|]. by intros f ?%not_elem_of_nil.
  - intros t1 t2 futs1 futs2 f. rewrite !lookup_insert_Some.
    intros [[<- <-]|[_ ?]] [[<- <-]|[_ ?]] Hi1 Hi2; try done; [..|by eapply Hdj];
      first [by apply not_elem_of_nil in Hi1|by apply not_elem_of_nil in Hi2].
Qed.

(** A callback with a new future. *)
Lemma exec_ok_add_callback susp x t :
  exec_ok out futs0 rk susp x →
  exec_ok out futs0 rk susp
    (set_callbacks
       (<[t := default [] (_task_done_callbacks x !! t) ++ [next_name x]]> (_task_done_callbacks x))
       (set_futures (<[next_name x := FPending]> (futures x)) (set_next_name (next_name x + 1) x))).
Proof.
  intros Hx. pose proof (exec_ok_new_future susp x FPending Hx) as [Hst Hout Hn Hu Hf Hcb Hdj Hsb]. cbn in *.
  assert (∀ t0 fs0, _task_done_callbacks x !! t0 = Some fs0 → next_name x ∉ fs0) as Hnew.
  { intros t0 fs0 Ht0 Hfin. destruct (x_callbacks _ _ _ _ _ Hx t0 fs0 Ht0) as [_ Hall].
    destruct (Hall _ Hfin) as (v & Hv & _).
    pose proof (x_futures _ _ _ _ _ Hx (next_name x) ltac:(by eexists)). lia. }
  assert (∀ f t0 fs0, f ∈ default [] (_task_done_callbacks x !! t) ++ [next_name x] →
    _task_done_callbacks x !! t0 = Some fs0 → f ∈ fs0 → t0 = t) as Hsame.
  { intros f t0 fs0 [Hi| ->%list_elem_of_singleton]%elem_of_app Ht0 Hi0; [|by destruct (Hnew _ _ Ht0)].
    destruct (_task_done_callbacks x !! t) as [fs|] eqn:Ht; [by eapply Hdj|by apply not_elem_of_nil in Hi]. }
  constructor; try done; cbn.
  - intros t0 fs0. rewrite lookup_insert_Some. intros [[<- <-]|[? ?]]; [|by apply Hcb]. split.
    + apply NoDup_app. split_and!; [| |apply NoDup_singleton];
        (destruct (_task_done_callbacks x !! t) as [fs|] eqn:Ht; cbn; [|first [constructor|by intros f ?%not_elem_of_nil]]).
      * by apply (Hcb t fs Ht).
      * intros f Hfin ->%list_elem_of_singleton. by eapply Hnew.
    + intros f [Hfin| ->%list_elem_of_singleton]%elem_of_app; [|exists FPending; by rewrite lookup_insert_eq].
      destruct (_task_done_callbacks x !! t) as [fs|] eqn:Ht; [by apply (Hcb t fs Ht)|by apply not_elem_of_nil in Hfin].
  - intros t1 t2 futs1 futs2 f. rewrite !lookup_insert_Some.
    intros [[<- <-]|[? ?]] [[<- <-]|[? ?]] Hi1 Hi2; [done| | |by eapply Hdj].
    + symmetry. by eapply Hsame.
    + by eapply Hsame.
Qed.

Lemma get_task_output_async_ok susp t x :
  exec_ok out futs0 rk susp x →
  wp (get_task_output_async t) (λ _ x', exec_ok out futs0 rk susp x') x.
Proof.
  intros Hx. unfold get_task_output_async. wp_exec.
  eapply wp_mono; [by apply callbacks_of_ok|]. intros futs x1 (_ & _ & Hx1). clear x Hx.
  destruct futs as [|fut futs]; [|by wp_exec]. do 4 wp_exec.
  set (fut := next_name x1).
  set (x2 := set_futures (<[fut := FPending]> (futures x1)) (set_next_name (next_name x1 + 1) x1)).
  change (set_futures _ _) with x2.
  assert (exec_ok out futs0 rk susp x2) as Hx2 by by apply exec_ok_new_future.
  assert (∀ v, wp (fut_set v fut) (λ _ x', exec_ok out futs0 rk susp x') x2) as Hset.
  { intros v. unfold fut_set. do 2 wp_exec. unfold fut_done. cbn. rewrite lookup_insert_eq. wp_exec.
    cbn. rewrite insert_insert_eq. by apply (exec_ok_new_future susp x1 v). }
  do 2 wp_exec. wp_exec. apply (wp_mono _ (λ _ x', exec_ok out futs0 rk susp x')); [|intros; by wp_exec].
  set (t' := root_of t (_state x2)). destruct (get_input t' (_state x2)) as [r|] eqn:Hin; [apply Hset|].
  case_decide as Hd; [apply Hset|]. apply (get_input_avail rk) in Hin; [|apply Hx2].
  wp_exec. eapply wp_mono; [by apply callbacks_of_ok|]. intros futs x3 (-> & -> & Hx3). wp_exec.
  cbn. rewrite insert_insert_eq. by apply exec_ok_add_callback.
Qed.
End failure.

(** ** The start *)

(** The state of a workflow that is about to run, new or recovered. *)
Record initial_ok (rk : TaskID → Z) (s : WorkflowExecutionState) : Prop := {
  i_graph : graph_ok rk s;
  i_driver : upstream_dependencies s !! ""%string = None;
  i_output o : output_task_id s = Some o →
    avail s o ∨ is_Some (upstream_dependencies s !! o) ∧ continuation_root s !! o = None;
  i_some_output : is_Some (output_task_id s);
  i_idle : pending_input_set s = ∅ ∧ reference_set s = ∅ ∧ frontier_to_run s = [] ∧
    frontier_to_run_set s = ∅ ∧ running_frontier s = ∅ ∧ running_frontier_set s = ∅ ∧
    free_outputs s = ∅ ∧ done_tasks s = ∅ ∧ task_context s = ∅
}.

Section start.
Context (rk : TaskID → Z) (s : WorkflowExecutionState) (context : WorkflowTaskContext).
Hypothesis Hinit : initial_ok rk s.
Hypothesis Hdriver : ctx_task_id context = ""%string.

(** Nothing is planned yet. *)
Lemma initial_sched W : sched_ok [] W s.
Proof.
  destruct (i_idle _ _ Hinit) as (HP & HR & HF & HFs & _ & HRs & _).
  constructor; unfold active, references; rewrite ?HP, ?HR, ?HF, ?HFs, ?HRs.
  - intros t p. by rewrite lookup_empty.
  - intros t p c. by rewrite lookup_empty.
  - intros m c. rewrite lookup_empty. by intros []%not_elem_of_empty.
  - intros t [[]%not_elem_of_nil|[[]%not_elem_of_empty|[]%not_elem_of_nil]].
  - by intros t c []%not_elem_of_nil.
  - intros t. by rewrite lookup_empty.
  - intros t p. by rewrite lookup_empty.
  - done.
  - constructor.
  - by intros t []%not_elem_of_nil.
  - by intros t []%not_elem_of_nil.
Qed.

(** The plan of the output. *)
Lemma initial_plan o :
  output_task_id s = Some o →
  ∃ R P F, construct_scheduling_plan o s = (with_plan R P F s, Ok tt) ∧
    sched_ok [] [] (with_plan R P F s) ∧ (avail s o ∨ is_Some (P !! o)).
Proof.
  intros Ho. pose proof (i_graph _ _ Hinit) as Hg. destruct (decide (avail s o)) as [Hav|Hav].
  - assert (with_plan (reference_set s) (pending_input_set s) (frontier_to_run s) s = s) as Hself
      by apply with_plan_self, (initial_sched []).
    exists (reference_set s), (pending_input_set s), (frontier_to_run s). rewrite Hself.
    split_and!; [|apply initial_sched|by left].
    unfold construct_scheduling_plan, mbind, st_bind, st_get. cbn [construct_plan].
    unfold mbind, st_bind, st_get. destruct (get_input o s) eqn:Hin; [done|].
    by apply (get_input_avail rk) in Hin.
  - destruct (construct_scheduling_plan_spec rk [] s
      (λ t, is_Some (upstream_dependencies s !! t) ∧ ¬ avail s t ∧ ¬ avail s (root_of t s) ∧ is_latest s t) o)
      as (R & P & F & Hrun & Hs & Hmono); [done| | | | |apply initial_sched|].
    + intros t (? & ? & ? & ?). split_and!; try done. apply not_elem_of_nil.
    + intros t c _ (ups & Hups & Hc) Hnc. destruct (g_ups _ _ Hg t ups Hups) as [_ Hall].
      destruct (Hall c Hc) as [|(Hcu & Hcr & _)]; [done|]. unfold is_latest, root_of. by rewrite Hcr.
    + intros t c (Ht & Hna & _) HL. destruct (g_latest _ _ Hg t c HL) as (_ & Hcr & _ & [?|[Hcu _]]); [done|].
      destruct (g_root _ _ Hg c t Hcr) as (_ & _ & _ & Hnc).
      split_and!; [done..| |]; unfold is_latest, root_of; rewrite Hcr; [done|]. by intros r [= <-].
    + destruct (i_output _ _ Hinit o Ho) as [|[Hou Hor]]; [done|].
      unfold is_latest, root_of. by rewrite Hor.
    + exists R, P, F. split_and!; [done..|]. right. apply Hmono. by right.
Qed.

Lemma run_begin_ok :
  wp (run_begin context) (λ _ x', exec_ok (output_task_id s) [] rk [] x') (new_executor s).
Proof.
  destruct (i_some_output _ _ Hinit) as [o Ho].
  destruct (initial_plan o Ho) as (R & P & F & Hrun & Hs & Hgoal).
  destruct (i_idle _ _ Hinit) as (_ & _ & _ & _ & HRf & HRs & Hfree & Hdone & Hctx).
  unfold run_begin. do 2 wp_exec. do 2 wp_exec. apply wp_bind, (wp_lift _ o); [cbn; by rewrite Ho|].
  wp_exec. eapply wp_on_state; [exact Hrun|]. wp_exec.
  constructor; try done; cbn.
  - change (init_context context (with_plan R P F s)) with (with_plan R P F (init_context context s)).
    apply state_ok_planned.
    + destruct (i_graph _ _ Hinit). by constructor.
    + destruct Hs. by constructor.
    + constructor.
    + intros t task Ht. exists (task_context_of context t task). cbn in *.
      rewrite Hctx, (left_id_L ∅ (∪)), map_lookup_imap, Ht. split_and!; [done..|by left].
    + apply (i_driver _ _ Hinit).
    + intros t. cbn. rewrite HRf, HRs. split; [by intros []%not_elem_of_empty|].
      intros (fut & ref & Hf & _). by rewrite lookup_empty in Hf.
    + intros f1 f2 r1 r2. cbn. rewrite HRf. by rewrite lookup_empty.
    + intros t. cbn. rewrite HRs. by intros []%not_elem_of_empty.
    + intros c. cbn. rewrite Hfree, Hdone. by intros [[]%not_elem_of_empty|[]%not_elem_of_empty].
    + intros o'. cbn. rewrite Ho. intros [= <-]. destruct Hgoal as [?|?]; [by left|].
      destruct (i_output _ _ Hinit o Ho) as [?|[_ ?]]; [by left|by right].
  - intros f r. rewrite HRf. by rewrite lookup_empty.
  - by intros f []%not_elem_of_nil.
  - intros f. rewrite lookup_empty. by intros [].
  - intros t args refs Hin%list_elem_of_singleton. done.
Qed.
End start.
