(* ===== verification/WorkflowStatusProofs.v ===== *)
(** * The statuses that executors set

    Which parts of the executor set the status of the workflow, and when: a status comes
    only with the end of the workflow, with its success or before the exception of a
    handler, and a handler sets at most one. *)
From S2P Require Import Prelude WorkflowIndex WorkflowState WorkflowExecutor WorkflowExecutorProofs.
From stdpp Require Import base tactics list gmap strings sets.
From Stdlib Require Import QArith.

#[local] Open Scope Z_scope.

(** ** When executors set the status *)

Definition status_of (a : action) : option WorkflowStatus :=
  match a with SetStatus st => Some st | _ => None end.
Definition statuses (l : list action) : list WorkflowStatus := omap status_of l.

Definition no_status (a : action) : Prop := match a with SetStatus _ => False | _ => True end.

(** The statuses of a workflow that did not succeed. *)
Definition ending (st : WorkflowStatus) : Prop := st = FAILED ∨ st = CANCELED.
Definition at_most_one (sts : list WorkflowStatus) : Prop := sts = [] ∨ ∃ st, sts = [st] ∧ ending st.

(** The actions of an executor grow; a part of it is silent when none of what it adds is a
    status, and calm when none is unless it fails, and at most one if it does. *)
Definition silent {A} (m : E A) : Prop :=
  ∀ x, ∃ l, actions (m x).1 = actions x ++ l ∧ Forall no_status l.
Definition calm {A} (m : E A) : Prop :=
  ∀ x, ∃ l, actions (m x).1 = actions x ++ l ∧
    (is_Ok (m x).2 → Forall no_status l) ∧ at_most_one (statuses l).

Lemma statuses_app l1 l2 : statuses (l1 ++ l2) = statuses l1 ++ statuses l2.
Proof. apply omap_app. Qed.

Lemma elem_of_statuses st l : st ∈ statuses l ↔ SetStatus st ∈ l.
Proof.
  unfold statuses. rewrite list_elem_of_omap. split; [|by eexists].
  intros (a & Hin & Ha). destruct a; by simplify_eq/=.
Qed.

Lemma no_statuses l : Forall no_status l → statuses l = [].
Proof. induction 1 as [|a l Ha _ IH]; [done|]. by destruct a. Qed.

Lemma at_most_one_app l1 l2 : Forall no_status l1 → at_most_one (statuses l2) → at_most_one (statuses (l1 ++ l2)).
Proof. intros H. by rewrite statuses_app, (no_statuses l1). Qed.

Lemma at_most_one_ending sts : at_most_one sts → Forall ending sts.
Proof. intros [->|(st & -> & Hst)]; [constructor|by apply Forall_singleton]. Qed.

Lemma keeps_silent {A} (m : E A) : keeps actions m → silent m.
Proof. intros Hm x. exists []. by rewrite Hm, app_nil_r. Qed.

Lemma silent_calm {A} (m : E A) : silent m → calm m.
Proof.
  intros Hm x. destruct (Hm x) as (l & Hl & Hs). exists l. split_and!; [done..|].
  left. by apply no_statuses.
Qed.

Lemma silent_act a : no_status a → silent (act a).
Proof. intros Ha x. exists [a]. split; [done|by apply Forall_singleton]. Qed.

Lemma silent_bind {A B} (m : E A) (f : A → E B) : silent m → (∀ a, silent (f a)) → silent (m ≫= f).
Proof.
  intros Hm Hf x. destruct (Hm x) as (l & Hl & Hs). unfold mbind, st_bind.
  destruct (m x) as [x1 [a|e]]; cbn in *; [|by exists l].
  destruct (Hf a x1) as (l' & Hl' & Hs'). exists (l ++ l'). rewrite Hl', Hl, app_assoc.
  split; [done|by apply Forall_app].
Qed.

Lemma silent_for {A} (l : list A) (f : A → E unit) : (∀ a, silent (f a)) → silent (st_for l f).
Proof.
  intros Hf. induction l as [|a l IH]; [by apply keeps_silent|]. by apply silent_bind; [|intros _].
Qed.

(** A status comes only before a failure. *)
Lemma calm_bind {A B} (m : E A) (f : A → E B) : silent m → (∀ a, calm (f a)) → calm (m ≫= f).
Proof.
  intros Hm Hf x. destruct (Hm x) as (l & Hl & Hs). unfold mbind, st_bind.
  destruct (m x) as [x1 [a|e]]; cbn in *; [|exists l; split_and!; [done..|left; by apply no_statuses]].
  destruct (Hf a x1) as (l' & Hl' & Hs' & Ho). exists (l ++ l'). rewrite Hl', Hl, app_assoc.
  split_and!; [done| |by apply at_most_one_app]. intros Hok. apply Forall_app. auto.
Qed.

Lemma calm_then {A B} (m : E A) (f : A → E B) : calm m → (∀ a, silent (f a)) → calm (m ≫= f).
Proof.
  intros Hm Hf x. destruct (Hm x) as (l & Hl & Hs & Ho). unfold mbind, st_bind.
  destruct (m x) as [x1 [a|e]]; cbn in *.
  - destruct (Hf a x1) as (l' & Hl' & Hs'). exists (l ++ l'). rewrite Hl', Hl, app_assoc.
    specialize (Hs ltac:(by eexists)).
    split_and!; [done|by intros _; apply Forall_app|]. left. by apply no_statuses, Forall_app.
  - exists l. split_and!; [done|by intros []|done].
Qed.

Lemma calm_fails {A B} st (m : E A) e :
  ending st → keeps actions m → calm (_ ← act (SetStatus st); _ ← m; st_raise e : E B).
Proof.
  intros Hst Hm x. exists [SetStatus st]. unfold mbind, st_bind, act, st_modify. cbn.
  specialize (Hm (set_actions (actions x ++ [SetStatus st]) x)). destruct (m _) as [x1 [b|e']]; cbn in *;
    (split_and!; [done|by intros []|right; eauto]).
Qed.

Lemma calm_try m h : keeps actions m → (∀ e, calm (h e)) → calm (try_except m h).
Proof.
  intros Hm Hh x. pose proof (silent_calm m (keeps_silent m Hm) x) as Hc. specialize (Hm x).
  unfold try_except. destruct (m x) as [x1 [[]|e]]; [exact Hc|]. cbn in *. rewrite <- Hm. apply Hh.
Qed.

Lemma submit_round_silent now : silent (submit_round now).
Proof.
  unfold submit_round. apply silent_bind; [|intros queued; apply silent_bind; [|intros _]].
  - apply keeps_silent. unfold _poll_queued_tasks. apply keeps_bind; [done|]. intros s. generalize (@nil TaskID).
    generalize (S (length (frontier_to_run s))). intros n. induction n as [|n IH]; intros acc; [done|].
    cbn [poll_queued]. by keeps_tac.
  - apply silent_for. intros t. apply silent_bind; [|intros _].
    + unfold _submit_ray_task. do 6 (apply silent_bind; [apply keeps_silent; by keeps_tac|intros ?]).
      apply silent_bind; [by apply silent_act|intros _]. apply keeps_silent. unfold fresh_name. by keeps_tac.
    + unfold _post_process_submit_task. apply silent_bind; [apply keeps_silent; by keeps_tac|intros s].
      destruct (continuation_root s !! t).
      * apply silent_bind; [apply keeps_silent; by keeps_tac|intros task].
        destruct (checkpoint _); [by apply silent_act|by apply keeps_silent].
      * apply keeps_silent. unfold drop_reference. by keeps_tac.
  - apply keeps_silent. unfold _garbage_collect, collect_one. by keeps_tac.
Qed.

Lemma post_process_value_actions order t ref : keeps actions (post_process_value order t ref).
Proof. unfold post_process_value, fut_set, notify. by keeps_tac. Qed.

Lemma handle_exception_calm order t e : calm (handle_exception order t e).
Proof.
  unfold handle_exception. apply calm_bind; [|intros [|]; [by apply silent_calm, keeps_silent|]].
  { apply keeps_silent. unfold _retry_failed_task. by keeps_tac. }
  apply calm_bind; [|intros [|]; [by apply silent_calm, keeps_silent|]].
  { apply keeps_silent. unfold _catch_failed_task, fresh_name, pop_retries. keeps_tac.
    apply post_process_value_actions. }
  apply calm_fails; [by left|done].
Qed.

Lemma handle_ready_task_calm order now fut o : calm (_handle_ready_task order now fut o).
Proof.
  unfold _handle_ready_task. apply calm_bind; [apply keeps_silent; by keeps_tac|]. intros ref.
  assert (keeps actions (_ ← set_finish_time now (wr_task_id ref); pop_retries (wr_task_id ref))) as Hnote
    by (unfold set_finish_time, pop_retries; by keeps_tac).
  destruct o.
  - apply calm_then; [|by intros; apply keeps_silent]. apply calm_try; [|apply handle_exception_calm].
    unfold set_finish_time, pop_retries. keeps_tac. apply post_process_value_actions.
  - intros x. specialize (Hnote x).
    match type of Hnote with actions (fst ?r) = _ => destruct r as [x' [[]|e]] end; cbn in *.
    + exists []. rewrite app_nil_r. split_and!; [done..|by left].
    + rewrite <- Hnote. apply (calm_then (handle_exception order (wr_task_id ref) e) (λ _, mret None));
        [apply handle_exception_calm|by intros; apply keeps_silent].
  - apply calm_then; [apply handle_exception_calm|by intros; apply keeps_silent].
  - apply calm_then; [apply calm_fails; [by right|done]|by intros; apply keeps_silent].
Qed.

Lemma handle_continuation_calm order t sub : calm (handle_continuation order t sub).
Proof.
  unfold handle_continuation. apply calm_try; [|apply handle_exception_calm].
  unfold post_process_continuation. by keeps_tac.
Qed.

Lemma get_task_output_actions t : keeps actions (get_task_output_async t).
Proof. unfold get_task_output_async, callbacks_of, fresh_name, fut_set. by keeps_tac. Qed.

(** How a machine goes on: its actions grow, and a status ends it. *)
Definition goes_on (m m' : machine) : Prop :=
  ∃ l, actions (executor m') = actions (executor m) ++ l ∧ (terminated m' = false → Forall no_status l).

Lemma goes_on_go {A} m (k : A → phase) (f : E A) :
  calm f → (∀ a, terminated (mkMachine (executor m) (_completion_queue m) (k a)) = false) →
  goes_on m (go m k (f (executor m))).
Proof.
  intros Hf Hk. destruct (Hf (executor m)) as (l & Hl & Hs & _). exists l. split; [done|]. intros Ht. apply Hs.
  unfold go, terminated in Ht. cbn in Ht. destruct (f (executor m)) as [x [a|e]]; [by eexists|done].
Qed.

Lemma goes_on_handled {A} m ready susp (waits : A → list TaskID) (f : E A) :
  calm f → goes_on m (handled m ready susp waits (f (executor m))).
Proof.
  intros Hf. destruct (Hf (executor m)) as (l & Hl & Hs & _). exists l. split; [done|]. intros Ht. apply Hs.
  unfold handled, terminated in Ht. cbn in Ht.
  destruct (f (executor m)) as [x [a|e]]; [by eexists|by destruct (at_phase m)].
Qed.

Lemma goes_on_refl x q q' ph ph' : goes_on (mkMachine x q ph) (mkMachine x q' ph').
Proof. exists []. by rewrite app_nil_r. Qed.

Lemma cancel_goes_on m : goes_on m (WorkflowExecutor.cancel m) ∧ at_phase (WorkflowExecutor.cancel m) = at_phase m.
Proof.
  split; [|done]. eexists. split; [done|]. intros _. by apply Forall_fmap, Forall_forall.
Qed.

Lemma step_goes_on m e m' : step m e = Some m' → goes_on m m'.
Proof.
  intros Hstep. destruct e as [now|fut o| |order now|order t sub| |t|];
    destruct m as [x q ph]; cbn [step executor at_phase] in Hstep.
  - destruct ph; try done. injection Hstep as <-. destruct (is_running x).
    + apply goes_on_go; [apply silent_calm, submit_round_silent|done].
    + exists [SetStatus SUCCESSFUL]. by split.
  - case_decide; [|done]. destruct (terminated _); [done|]. injection Hstep as <-. apply goes_on_refl.
  - destruct ph; try done. destruct q; [done|]. injection Hstep as <-. apply goes_on_refl.
  - destruct ph as [| |[|[fut o] ready] ?| |[|[fut o] ready] ? ?]; try done; injection Hstep as <-;
      apply (goes_on_handled (mkMachine x q _)), handle_ready_task_calm.
  - destruct ph; try done; (case_decide; [|done]); injection Hstep as <-;
      apply (goes_on_handled (mkMachine x q _)), handle_continuation_calm.
  - destruct ph as [| |[|] [|]| |]; try done. injection Hstep as <-. apply goes_on_refl.
  - injection Hstep as <-. exists []. rewrite app_nil_r. split; [|done]. apply get_task_output_actions.
  - destruct (terminated _); [done|]. injection Hstep as <-. apply cancel_goes_on.
Qed.

(** A machine that has ended does not go on. *)
Lemma step_terminated m e m' : step m e = Some m' → terminated m' = false → terminated m = false.
Proof.
  intros Hstep. destruct m as [x q ph]. destruct ph as [| |ready susp| |ready susp ex]; try done.
  - destruct e; cbn [step at_phase executor] in Hstep; try done; [case_decide; done|by injection Hstep as <-].
  - destruct e as [| | | | | |t|]; cbn [step at_phase executor] in Hstep; try done.
    + by case_decide.
    + destruct ready as [|[fut o] ready]; [done|]. injection Hstep as <-. unfold handled, terminated. cbn.
      by destruct (_handle_ready_task _ _ _ _ _).2.
    + case_decide; [|done]. injection Hstep as <-. unfold handled, terminated. cbn.
      by destruct (handle_continuation _ _ _ _).2.
    + by injection Hstep as <-.
Qed.
