(* ===== verification/WorkflowDag.v ===== *)
(** * From a graph of function nodes to the state of a workflow

    [workflow_state_from_dag] of [workflow/workflow_state_from_dag.py], with the
    traversal [apply_recursive] of [dag/dag_node.py], the numbering of task names
    ([gen_task_id] of [workflow_access.py] and [workflow_storage.py]) and the
    deduplication of references in [serialization_context.py].

    A node carries the nodes that occur in its arguments; visiting one again gives what
    is cached.  Identifiers come from counters in the storage, metadata from dicts that
    nodes can share. *)
From S2P Require Import Prelude WorkflowState.
From stdpp Require Import base tactics list gmap strings sets pretty.

#[local] Open Scope Z_scope.

(** ** Graphs *)

(** The options bound to a function node that the translation reads.  [None] is an
    option that is not given.  The metadata are in a dict of workflow options, which the
    nodes bound from one function share: [wf_options] is its identity. *)
Record BoundOptions := mkBound {
  num_returns : option Z;
  wf_name : option string;
  wf_checkpoint : option bool;
  wf_catch_exceptions : option bool;
  wf_options : Z;
  bo_max_retries : option Z;
  bo_retry_exceptions : option bool;
  body : Z;
  default_name : string
}.

(** The kinds of nodes; a class node is unsupported. *)
Inductive NodeKind :=
  | FunctionNode (bound : BoundOptions)
  | InputAttributeNode
  | InputNode
  | ClassNode.

(** A node with the nodes that occur in its arguments, in order. *)
Inductive DAGNode := Node (kind : NodeKind) (stable_uuid : Z) (children : list DAGNode).

Definition node_uuid (d : DAGNode) : Z := let 'Node _ u _ := d in u.

(** ** Names *)

(** [WorkflowStorage.gen_task_id]: how often the name was used before. *)
Definition storage_gen_task_id (counters : gmap string Z) (task_name : string) :
    gmap string Z * Z :=
  let idx := match counters !! task_name with Some v => v + 1 | None => 0 end in
  (<[task_name := idx]> counters, idx).

(** [WorkflowManagementActor.gen_task_id] *)
Definition gen_task_id (counters : gmap string Z) (task_name : string) : gmap string Z * TaskID :=
  let '(counters, idx) := storage_gen_task_id counters task_name in
  (counters, if idx =? 0 then task_name else (task_name +:+ "_" +:+ pretty idx)%string).

(** ** The translation *)

(** What a visited node becomes: a reference to a task, or data. *)
Inductive visited :=
  | TaskRef (task_id : TaskID)
  | Data.

(** What the traversal keeps: the state under construction, the cache, the input node,
    the counters of names, the metadata in the dicts of workflow options, a supply of
    object references; and the identifiers in the order in which they were made. *)
Record builder := mkBuilder {
  b_state : WorkflowExecutionState;
  b_cache : gmap Z visited;
  b_input : option Z;
  b_counters : gmap string Z;
  b_metadata : gmap Z Z;
  b_next : Z;
  b_ids : list TaskID
}.

Definition B := ST builder.

(** The references of the arguments, without duplicates, as the serializer collects
    them. *)
Definition add_ref (workflow_refs : list TaskID) (v : visited) : list TaskID :=
  match v with
  | TaskRef t => if decide (t ∈ workflow_refs) then workflow_refs else workflow_refs ++ [t]
  | Data => workflow_refs
  end.

Definition collect_refs (args : list visited) : list TaskID := fold_left add_ref args [].

Section translation.
Context (root_uuid : Z) (context : option WorkflowTaskContext).
(** [validate_user_metadata] on an opaque object: [None], or a dict that can be written
    as JSON. *)
Context (valid_metadata : Z → bool).

(** The options of the task of a node. *)
Definition task_options_of (uuid : Z) (bound : BoundOptions) : WorkflowTaskRuntimeOptions :=
  let checkpoint_opt := match wf_checkpoint bound with
    | Some c => c
    | None => match context with Some ctx => ctx_checkpoint ctx | None => true end
    end in
  let catch_opt := match wf_catch_exceptions bound with
    | Some c => c
    | None =>
        if uuid =? root_uuid then
          match context with Some ctx => ctx_catch_exceptions ctx | None => false end
        else false
    end in
  mkOptions FUNCTION catch_opt (default false (bo_retry_exceptions bound))
    (default 3 (bo_max_retries bound)) checkpoint_opt.

(** The task of a function node is added to the state.  [workflow_options.pop] takes the
    metadata out of the node's options; [{}] is 0. *)
Definition add_task (uuid : Z) (bound : BoundOptions) (args : list visited) (b : builder) :
    builder * result visited :=
  let name := default (default_name bound) (wf_name bound) in
  let '(counters, task_id) := gen_task_id (b_counters b) name in
  let s := add_dependencies task_id (collect_refs args) (b_state b) in
  let s := set_task_input_args (<[task_id := b_next b]> (task_input_args s)) s in
  let metadata := default 0 (b_metadata b !! wf_options bound) in
  let build s := mkBuilder s (b_cache b) (b_input b) counters
    (delete (wf_options bound) (b_metadata b)) (b_next b + 1) (b_ids b ++ [task_id]) in
  if valid_metadata metadata then
    (build (set_tasks (<[task_id := mkTask name (task_options_of uuid bound) metadata
                                      (body bound)]> (tasks s)) s),
     Ok (TaskRef task_id))
  else (build s, Err ValueError).

(** [_node_visitor], on a node whose arguments have been visited. *)
Definition _node_visitor (kind : NodeKind) (uuid : Z) (args : list visited) : B visited :=
  match kind with
  | FunctionNode bound =>
      if 1 <? default 1 (num_returns bound) then st_raise ValueError
      else add_task uuid bound args
  | InputAttributeNode | InputNode => mret Data
  | ClassNode => st_raise TypeError
  end.

(** [_CachingFn.__call__]: the visitor once for each node, *)
Definition cached_visit (kind : NodeKind) (uuid : Z) (args : list visited) : B visited :=
  b ← st_get;
  match b_cache b !! uuid with
  | Some v => mret v
  | None =>
      v ← _node_visitor kind uuid args;
      _ ← st_modify (λ b, mkBuilder (b_state b) (<[uuid := v]> (b_cache b)) (b_input b)
                            (b_counters b) (b_metadata b) (b_next b) (b_ids b));
      mret v
  end.

(** one input node only. *)
Definition check_input_node (kind : NodeKind) (uuid : Z) : B unit :=
  match kind with
  | InputNode =>
      b ← st_get;
      match b_input b with
      | None =>
          st_modify (λ b, mkBuilder (b_state b) (b_cache b) (Some uuid) (b_counters b)
                            (b_metadata b) (b_next b) (b_ids b))
      | Some u => if u =? uuid then mret tt else st_raise AssertionError
      end
  | _ => mret tt
  end.

Definition caching_fn (kind : NodeKind) (uuid : Z) (args : list visited) : B visited :=
  v ← cached_visit kind uuid args; _ ← check_input_node kind uuid; mret v.

(** [apply_recursive]: the children first. *)
Fixpoint apply_recursive (d : DAGNode) : B visited :=
  let 'Node kind uuid children := d in
  args ← (fix visit (ds : list DAGNode) : B (list visited) :=
            match ds with
            | [] => mret []
            | d :: ds => v ← apply_recursive d; vs ← visit ds; mret (v :: vs)
            end) children;
  caching_fn kind uuid args.

Definition apply_children : list DAGNode → B (list visited) :=
  fix visit (ds : list DAGNode) : B (list visited) :=
    match ds with
    | [] => mret []
    | d :: ds => v ← apply_recursive d; vs ← visit ds; mret (v :: vs)
    end.

Lemma apply_recursive_node kind uuid children :
  apply_recursive (Node kind uuid children) =
    (args ← apply_children children; caching_fn kind uuid args).
Proof. done. Qed.
End translation.

Definition new_builder (counters : gmap string Z) (metadata : gmap Z Z) : builder :=
  mkBuilder (empty_state None) ∅ None counters metadata 0 [].

(** [state.output_task_id = output_workflow_ref.task_id] *)
Definition set_output (o : TaskID) (s : WorkflowExecutionState) : WorkflowExecutionState :=
  mkState (upstream_dependencies s) (downstream_dependencies s) (next_continuation s)
    (prev_continuation s) (latest_continuation s) (continuation_root s) (tasks s)
    (task_input_args s) (task_context s) (task_execution_metadata s) (task_retries s)
    (reference_set s) (pending_input_set s) (output_map s) (checkpoint_map s) (free_outputs s)
    (frontier_to_run s) (frontier_to_run_set s) (running_frontier s) (running_frontier_set s)
    (done_tasks s) (Some o).

(** [workflow_state_from_dag]; with the builder it ends with. *)
Definition workflow_state_from_dag (valid_metadata : Z → bool) (dag_node : DAGNode)
    (context : option WorkflowTaskContext) (counters : gmap string Z) (metadata : gmap Z Z) :
    result (WorkflowExecutionState * builder) :=
  match dag_node with
  | Node (FunctionNode _) uuid _ =>
      match apply_recursive uuid context valid_metadata dag_node (new_builder counters metadata) with
      | (b, Ok (TaskRef o)) => Ok (set_output o (b_state b), b)
      | (_, Ok Data) => Err AttributeError
      | (_, Err e) => Err e
      end
  | _ => Err TypeError
  end.
