(* ===== verification/WorkflowDagProofs.v ===== *)
(** * The state of a graph is well formed

    [workflow_state_from_dag] makes the states that the executor's theorems ask for, of
    a new workflow ([from_dag_initial_ok]) and of a continuation ([from_dag_sub_ok]), as
    long as the identifiers it gives out are distinct: which they are when no task's
    name is another's with a number ([apply_renames]), and not always
    ([gen_task_id_collides]). *)
From S2P Require Import Prelude PyStrings WorkflowState WorkflowPlan WorkflowStateProofs WorkflowExecutor WorkflowExecutorProofs WorkflowDag.
From stdpp Require Import base tactics list gmap strings sets pretty.
From Stdlib Require Import Ascii.

#[local] Open Scope Z_scope.

(** ** Graphs *)

(** Induction with the hypothesis for all children. *)
Lemma DAGNode_nested_ind (P : DAGNode → Prop) :
  (∀ kind uuid children, Forall P children → P (Node kind uuid children)) → ∀ d, P d.
Proof.
  intros HP. fix IH 1. intros [kind uuid children]. apply HP.
  induction children as [|d ds IHds]; constructor; [apply IH|exact IHds].
Qed.

(** All nodes, with the node itself last. *)
Fixpoint nodes (d : DAGNode) : list DAGNode :=
  let 'Node _ _ children := d in
  (fix go ds := match ds with [] => [] | d :: ds => nodes d ++ go ds end) children ++ [d].

Definition nodes_of (ds : list DAGNode) : list DAGNode :=
  (fix go ds := match ds with [] => [] | d :: ds => nodes d ++ go ds end) ds.

Lemma nodes_node kind uuid children :
  nodes (Node kind uuid children) = nodes_of children ++ [Node kind uuid children].
Proof. done. Qed.

Section translation.
Context (root : Z) (context : option WorkflowTaskContext) (valid_metadata : Z → bool).

(** ** What the traversal adds *)

(** The parts of the builder that theorems speak of. *)
Definition same (b b' : builder) : Prop :=
  b_state b' = b_state b ∧ b_cache b' = b_cache b ∧ b_ids b' = b_ids b.

Lemma check_input_same kind uuid b b' r : check_input_node kind uuid b = (b', r) → same b b'.
Proof.
  unfold check_input_node, mbind, st_bind, st_get. destruct kind; try (by intros [= <- _]).
  destruct (b_input b); [case_match|]; by intros [= <- _].
Qed.

Lemma caching_inv kind uuid args b b' v :
  caching_fn root context valid_metadata kind uuid args b = (b', Ok v) →
  ∃ b1, cached_visit root context valid_metadata kind uuid args b = (b1, Ok v) ∧ same b1 b'.
Proof.
  unfold caching_fn. intros (b1 & v1 & Hvisit & (b2 & [] & Hcheck & Hret)%st_bind_Ok)%st_bind_Ok.
  injection Hret as <- <-. exists b1. split; [done|]. by eapply check_input_same.
Qed.

(** A visit takes what is cached, adds a task, or has data. *)
Lemma cached_visit_inv kind uuid args b b' v :
  cached_visit root context valid_metadata kind uuid args b = (b', Ok v) →
  b_cache b !! uuid = Some v ∧ b' = b ∨
  b_cache b !! uuid = None ∧ b_cache b' = <[uuid := v]> (b_cache b) ∧
    ((v = Data ∧ b_state b' = b_state b ∧ b_ids b' = b_ids b) ∨
     ∃ bound b1, kind = FunctionNode bound ∧
       add_task root context valid_metadata uuid bound args b = (b1, Ok v) ∧
       b_state b' = b_state b1 ∧ b_ids b' = b_ids b1).
Proof.
  unfold cached_visit, mbind, st_bind, st_get, st_modify, mret, st_ret.
  destruct (b_cache b !! uuid) as [v0|] eqn:Hc; [intros [= <- <-]; by left|]. right. split; [done|].
  unfold _node_visitor in *. destruct kind as [bound| | |]; cbn in *; simplify_eq/=.
  - destruct (1 <? _); [done|].
    destruct (add_task _ _ _ _ _ _ _) as [b1 [v1|]] eqn:Hadd; [|done]. simplify_eq/=. split.
    + f_equal. revert Hadd. unfold add_task. destruct (gen_task_id _ _). case_match; intros; by simplify_eq/=.
    + right. by exists bound, b1.
  - split; [done|]. by left.
  - split; [done|]. by left.
Qed.

(** ** The invariant of the builder *)

(** [c] was made before [t]. *)
Definition precedes (ids : list TaskID) (c t : TaskID) : Prop :=
  ∃ i j, ids !! i = Some c ∧ ids !! j = Some t ∧ (i < j)%nat.

(** Nothing but the graph is there. *)
Definition bare (s : WorkflowExecutionState) : Prop :=
  checkpoint_map s = ∅ ∧ output_map s = ∅ ∧ task_context s = ∅ ∧ pending_input_set s = ∅ ∧
  reference_set s = ∅ ∧ frontier_to_run s = [] ∧ frontier_to_run_set s = ∅ ∧
  running_frontier s = ∅ ∧ running_frontier_set s = ∅ ∧ free_outputs s = ∅ ∧ done_tasks s = ∅ ∧
  latest_continuation s = ∅ ∧ continuation_root s = ∅.

Record builder_ok (b : builder) : Prop := {
  bk_ids t : is_Some (upstream_dependencies (b_state b) !! t) ↔ t ∈ b_ids b;
  bk_ups t ups : upstream_dependencies (b_state b) !! t = Some ups →
    NoDup ups ∧ ∀ c, c ∈ ups → precedes (b_ids b) c t;
  bk_tasks t : t ∈ b_ids b →
    (∃ task, tasks (b_state b) !! t = Some task ∧ plain task) ∧
    is_Some (task_input_args (b_state b) !! t);
  bk_known t : is_Some (tasks (b_state b) !! t) → t ∈ b_ids b;
  bk_cache u t : b_cache b !! u = Some (TaskRef t) → t ∈ b_ids b;
  bk_bare : bare (b_state b)
}.

(** Identifiers are added at the end, and the cache grows by the nodes of the graph. *)
Definition grows (ds : list DAGNode) (b b' : builder) : Prop :=
  b_ids b `prefix_of` b_ids b' ∧
  ∀ u, is_Some (b_cache b' !! u) → is_Some (b_cache b !! u) ∨ u ∈ node_uuid <$> ds.

Lemma grows_trans ds1 ds2 b1 b2 b3 : grows ds1 b1 b2 → grows ds2 b2 b3 → grows (ds1 ++ ds2) b1 b3.
Proof.
  intros [Hp1 Hc1] [Hp2 Hc2]. split; [by etrans|]. intros u Hu. rewrite fmap_app, elem_of_app.
  destruct (Hc2 u Hu) as [Hu'|]; [destruct (Hc1 u Hu')|]; auto.
Qed.

Definition visited_ok (b : builder) (v : visited) : Prop :=
  match v with TaskRef t => t ∈ b_ids b | Data => True end.

(** The task of a function node is checkpointed and does not catch exceptions. *)
Definition plain_node (d : DAGNode) : Prop :=
  match d with
  | Node (FunctionNode bound) uuid _ =>
      let o := task_options_of root context uuid bound in
      checkpoint o = true ∧ catch_exceptions o = false
  | _ => True
  end.

(** References are collected without duplicates. *)
Lemma collect_refs_ok args :
  NoDup (collect_refs args) ∧ ∀ t, t ∈ collect_refs args → TaskRef t ∈ args.
Proof.
  unfold collect_refs.
  assert (∀ acc seen, NoDup acc → (∀ t, t ∈ acc → TaskRef t ∈ seen) →
    NoDup (fold_left add_ref args acc) ∧
    ∀ t, t ∈ fold_left add_ref args acc → TaskRef t ∈ seen ++ args) as Hgen; [|apply (Hgen [] []); [constructor|]].
  - induction args as [|v args IH]; intros acc seen Hnd Hin; cbn; [by rewrite app_nil_r|].
    replace (seen ++ v :: args) with ((seen ++ [v]) ++ args) by by rewrite <- (assoc_L (++)).
    apply IH; destruct v as [t|]; cbn; try case_decide; try done.
    + apply NoDup_app. split_and!; [done| |apply NoDup_singleton]. by intros a ? ->%list_elem_of_singleton.
    + intros a Ha. apply elem_of_app. left. auto.
    + intros a [?| ->%list_elem_of_singleton]%elem_of_app; apply elem_of_app; [left; auto|right; left].
    + intros a Ha. apply elem_of_app. left. auto.
  - by intros t []%not_elem_of_nil.
Qed.

Lemma precedes_app ids ids' c t : precedes ids c t → precedes (ids ++ ids') c t.
Proof. intros (i & j & Hi & Hj & Hlt). exists i, j. split_and!; [by apply lookup_app_l_Some..|done]. Qed.

(** A new task: after those it depends on. *)
Lemma add_task_ok uuid bound args children b b' v :
  builder_ok b → plain_node (Node (FunctionNode bound) uuid children) → Forall (visited_ok b) args →
  add_task root context valid_metadata uuid bound args b = (b', Ok v) → NoDup (b_ids b') →
  builder_ok b' ∧ ∃ t, v = TaskRef t ∧ b_ids b' = b_ids b ++ [t].
Proof.
  intros [Hids Hups Htasks Hknown Hcache Hbare] [Hcp Hcatch] Hargs. unfold add_task.
  destruct (gen_task_id _ _) as [counters t]. destruct (valid_metadata _); [|done].
  destruct (collect_refs_ok args) as [Hnd Hrefs].
  assert (∀ c, c ∈ collect_refs args → c ∈ b_ids b) as Hdeps.
  { intros c Hc%Hrefs. rewrite Forall_forall in Hargs. exact (Hargs _ Hc). }
  destruct (add_dependencies_eq t (collect_refs args) (b_state b)) as [D ->].
  intros [= <- <-]. cbn. intros [_ [Hnew _]]%NoDup_app.
  assert (t ∉ b_ids b) as Hfresh by (intros Ht; by eapply Hnew, list_elem_of_singleton).
  split; [|by exists t]. constructor; cbn.
  - intros a. rewrite elem_of_app, list_elem_of_singleton, <- Hids, lookup_insert_is_Some'.
    split; intros [?|?]; auto.
  - intros a ups [[<- <-]|[Hne Ha]]%lookup_insert_Some.
    + split; [done|]. intros c [i Hi]%Hdeps%list_elem_of_lookup.
      exists i, (length (b_ids b)). split_and!; [by apply lookup_app_l_Some| |by eapply lookup_lt_Some].
      by rewrite lookup_app_r, Nat.sub_diag by done.
    + destruct (Hups a ups Ha) as [? Hprec]. split; [done|]. intros c Hc. by apply precedes_app, Hprec.
  - intros a. rewrite elem_of_app, list_elem_of_singleton, lookup_insert_is_Some'.
    destruct (decide (a = t)) as [->|Hne].
    + intros _. rewrite lookup_insert_eq. split; [|by left]. eexists. split; [done|]. by split_and!.
    + intros [Ha|]; [|done]. rewrite lookup_insert_ne by done. destruct (Htasks a Ha). auto.
  - intros a. rewrite elem_of_app, list_elem_of_singleton, lookup_insert_is_Some'. intros [->|?]; auto.
  - intros u a Hu. apply elem_of_app. left. by eapply Hcache.
  - done.
Qed.

(** One visit. *)
Lemma caching_ok kind uuid children args b b' v :
  builder_ok b → plain_node (Node kind uuid children) → Forall (visited_ok b) args →
  caching_fn root context valid_metadata kind uuid args b = (b', Ok v) → NoDup (b_ids b') →
  builder_ok b' ∧ visited_ok b' v.
Proof.
  intros Hb Hplain Hargs (b1 & Hvisit & Hs & Hc & Hi)%caching_inv Hnd. rewrite Hi in Hnd.
  assert (∀ b2, builder_ok b2 → b_state b1 = b_state b2 → b_ids b1 = b_ids b2 →
    (∀ u t, b_cache b1 !! u = Some (TaskRef t) → t ∈ b_ids b2) → builder_ok b') as Htransfer.
  { intros b2 [Hids Hups Htasks Hknown _ Hbare] Hs2 Hi2 Hc2.
    constructor; rewrite ?Hs, ?Hi, ?Hc, ?Hs2, ?Hi2; done. }
  apply cached_visit_inv in Hvisit as [[Hv ->]|(Hnone & Hcache & [(-> & Hs1 & Hi1)|(bound & b2 & -> & Hadd & Hs1 & Hi1)])].
  - split; [apply (Htransfer b); try done; apply Hb|]. destruct v; [|done]. cbn. rewrite Hi. by eapply (bk_cache b).
  - split; [|done]. apply (Htransfer b); try done. intros u t. rewrite Hcache.
    intros [[_ ?]|[_ ?]]%lookup_insert_Some; [done|by eapply (bk_cache b)].
  - rewrite Hi1 in Hnd. destruct (add_task_ok _ _ _ children _ _ _ Hb Hplain Hargs Hadd Hnd) as (Hb2 & t & -> & Hids).
    assert (t ∈ b_ids b2) as Ht by (rewrite Hids; apply elem_of_app; right; left).
    split; [|cbn; by rewrite Hi, Hi1]. apply (Htransfer b2); try done. intros u a. rewrite Hcache.
    intros [[_ [= <-]]|[_ Ha]]%lookup_insert_Some; [done|].
    rewrite Hids. apply elem_of_app. left. by eapply (bk_cache b).
Qed.

Lemma caching_grows kind uuid children args b b' v :
  caching_fn root context valid_metadata kind uuid args b = (b', Ok v) →
  grows [Node kind uuid children] b b'.
Proof.
  intros (b1 & Hvisit & Hs & Hc & Hi)%caching_inv. unfold grows. rewrite Hc, Hi.
  apply cached_visit_inv in Hvisit as [[Hv ->]|(Hnone & -> & Hcases)]; [by split; [|left]|]. split.
  - destruct Hcases as [(_ & _ & ->)|(bound & b2 & _ & Hadd & _ & ->)]; [done|].
    revert Hadd. unfold add_task. destruct (gen_task_id _ _). case_match; [|done]. intros [= <- _].
    by apply prefix_app_r.
  - intros u. destruct (decide (u = uuid)) as [->|]; [right; left|]. rewrite lookup_insert_ne by done. by left.
Qed.

(** ** The traversal *)

Lemma visited_ok_mono b b' v : b_ids b `prefix_of` b_ids b' → visited_ok b v → visited_ok b' v.
Proof. intros [k Hk]. destruct v; [|done]. cbn. rewrite Hk, elem_of_app. by left. Qed.

Lemma prefix_nodup (l k : list TaskID) : l `prefix_of` k → NoDup k → NoDup l.
Proof. intros [l' ->] [? _]%NoDup_app. done. Qed.

(** A traversal of [ds] from [b] to [b'] is good. *)
Definition traversed (ds : list DAGNode) (b b' : builder) (vs : list visited) : Prop :=
  grows ds b b' ∧
  (builder_ok b → Forall plain_node ds → NoDup (b_ids b') → builder_ok b' ∧ Forall (visited_ok b') vs).

Lemma children_traversed ds :
  Forall (λ d, ∀ b b' v,
    apply_recursive root context valid_metadata d b = (b', Ok v) → traversed (nodes d) b b' [v]) ds →
  ∀ b b' vs, apply_children root context valid_metadata ds b = (b', Ok vs) → traversed (nodes_of ds) b b' vs.
Proof.
  induction 1 as [|d ds Hd _ IH]; intros b b' vs.
  { intros [= <- <-]. split; [split; [done|by left]|]. intros. by split. }
  cbn. intros (b1 & v & Hv & (b2 & vs' & Hvs & Hret)%st_bind_Ok)%st_bind_Ok. injection Hret as <- <-.
  destruct (Hd _ _ _ Hv) as [Hg1 Hok1]. destruct (IH _ _ _ Hvs) as [Hg2 Hok2].
  split; [by eapply grows_trans|]. intros Hb [Hp1 Hp2]%Forall_app Hnd. pose proof (proj1 Hg2) as Hpre.
  destruct (Hok1 Hb Hp1) as [Hb1 Hv1]; [by eapply prefix_nodup|].
  destruct (Hok2 Hb1 Hp2 Hnd) as [Hb2 Hvs2]. split; [done|]. constructor; [|done].
  rewrite Forall_singleton in Hv1. by apply (visited_ok_mono b1).
Qed.

Lemma apply_traversed d b b' v :
  apply_recursive root context valid_metadata d b = (b', Ok v) → traversed (nodes d) b b' [v].
Proof.
  revert b b' v. induction d as [kind uuid children IH] using DAGNode_nested_ind. intros b b' v.
  rewrite apply_recursive_node, nodes_node. intros (b1 & args & Hargs & Hfn)%st_bind_Ok.
  destruct (children_traversed children IH _ _ _ Hargs) as [Hg1 Hok1].
  pose proof (caching_grows kind uuid children _ _ _ _ Hfn) as Hg2.
  split; [by eapply grows_trans|]. intros Hb [Hp1 Hp2]%Forall_app Hnd.
  rewrite Forall_singleton in Hp2.
  destruct (Hok1 Hb Hp1) as [Hb1 Hargs1]; [by eapply prefix_nodup; [apply Hg2|]|].
  destruct (caching_ok kind uuid children args b1 b' v Hb1 Hp2 Hargs1 Hfn Hnd) as [Hb' Hv].
  split; [done|by apply Forall_singleton].
Qed.

Lemma new_builder_ok counters metadata : builder_ok (new_builder counters metadata).
Proof.
  constructor; cbn; try done.
  - intros t. rewrite lookup_empty. split; [by intros []|by intros []%not_elem_of_nil].
  - intros t. by intros []%not_elem_of_nil.
  - intros t. rewrite lookup_empty. by intros [].
Qed.

(** The output is the task that is made last. *)
Lemma traversed_root bound uuid children b b' o counters metadata :
  b = new_builder counters metadata → uuid ∉ node_uuid <$> nodes_of children →
  apply_recursive root context valid_metadata (Node (FunctionNode bound) uuid children) b =
    (b', Ok (TaskRef o)) →
  ∃ ids, b_ids b' = ids ++ [o].
Proof.
  intros -> Hroot. rewrite apply_recursive_node.
  intros (b1 & args & Hargs & (b2 & Hvisit & _ & _ & Hi)%caching_inv)%st_bind_Ok.
  destruct (children_traversed children ltac:(apply Forall_forall; intros; by apply apply_traversed) _ _ _ Hargs)
    as [[_ Hcache] _].
  assert (b_cache b1 !! uuid = None) as Hnone.
  { destruct (b_cache b1 !! uuid) eqn:Hc; [|done]. destruct (Hcache uuid) as [[? Hu]|?]; [by eexists|done..]. }
  apply cached_visit_inv in Hvisit as [[Hv _]|(_ & _ & [(? & _)|(? & b3 & _ & Hadd & _ & Hi3)])]; [congruence|done|].
  rewrite Hi, Hi3. revert Hadd. unfold add_task. destruct (gen_task_id _ _). case_match; [|done].
  intros [= <- <-]. by eexists.
Qed.
End translation.

(** ** Identifiers *)

(** The name of the [i]th task with name [n]. *)
Definition numbered (n : string) (i : Z) : TaskID :=
  if i =? 0 then n else (n +:+ "_" +:+ pretty i)%string.

(** The identifiers that the counters have given out. *)
Definition used (counters : gmap string Z) (t : TaskID) : Prop :=
  ∃ n i k, counters !! n = Some k ∧ 0 <= i <= k ∧ t = numbered n i.

(** No name is another with a number. *)
Definition separate (N : string → Prop) : Prop :=
  ∀ n m i, N n → N m → 0 < i → n ≠ (m +:+ "_" +:+ pretty i)%string.

(** The split at the last occurrence of a character is unique. *)
Lemma str_split_last c a1 a2 b1 b2 :
  str_in c b1 = false → str_in c b2 = false → a1 +:+ String c b1 = a2 +:+ String c b2 → a1 = a2 ∧ b1 = b2.
Proof.
  intros H1 H2. revert a2. induction a1 as [|x a1 IH]; intros [|y a2]; cbn; intros Heq; simplify_eq/=.
  - done.
  - rewrite str_in_app in H1. cbn in H1. by rewrite Ascii.eqb_refl, orb_true_r in H1.
  - rewrite str_in_app in H2. cbn in H2. by rewrite Ascii.eqb_refl, orb_true_r in H2.
  - by destruct (IH a2 ltac:(done)) as [-> ->].
Qed.

Lemma pretty_N_go_digits x s : str_in "_"%char s = false → str_in "_"%char (pretty_N_go x s) = false.
Proof.
  revert s. induction (N.lt_wf_0 x) as [x _ IH]; intros s Hs.
  destruct (decide (x = 0)%N) as [->|Hx]; [by rewrite pretty_N_go_0|].
  rewrite pretty_N_go_step by lia. apply IH; [apply N.div_lt; lia|]. cbn. rewrite Hs, orb_false_r.
  unfold pretty_N_char. by repeat case_match.
Qed.

Lemma pretty_digits i : 0 < i → str_in "_"%char (pretty i) = false.
Proof.
  destruct i as [|p|]; [lia| |lia]. intros _. cbn. unfold pretty, pretty_positive, pretty, pretty_N.
  rewrite decide_False by done. by apply pretty_N_go_digits.
Qed.

Lemma numbered_inj N n m i j :
  separate N → N n → N m → 0 <= i → 0 <= j → numbered n i = numbered m j → n = m ∧ i = j.
Proof.
  intros HN Hn Hm Hi Hj. unfold numbered.
  destruct (Z.eqb_spec i 0) as [->|], (Z.eqb_spec j 0) as [->|]; intros Heq.
  - done.
  - by apply HN in Heq; [|done|done|lia].
  - by symmetry in Heq; apply HN in Heq; [|done|done|lia].
  - apply str_split_last in Heq as [-> Heq]; [|apply pretty_digits; lia..]. by apply (inj pretty) in Heq.
Qed.

Section names.
Context (root : Z) (context : option WorkflowTaskContext) (valid_metadata : Z → bool).
Context (N : string → Prop).
Hypothesis Hsep : separate N.

Definition covered (counters : gmap string Z) : Prop :=
  ∀ n k, counters !! n = Some k → N n ∧ 0 <= k.

Definition named_node (d : DAGNode) : Prop :=
  match d with
  | Node (FunctionNode bound) _ _ => N (default (default_name bound) (wf_name bound))
  | _ => True
  end.

(** A new identifier. *)
Lemma gen_task_id_new counters n counters' t :
  covered counters → N n → gen_task_id counters n = (counters', t) →
  covered counters' ∧ (∀ t', used counters t' → used counters' t') ∧ used counters' t ∧ ¬ used counters t.
Proof.
  intros Hcov Hn. unfold gen_task_id, storage_gen_task_id.
  set (idx := match counters !! n with Some v => v + 1 | None => 0 end).
  assert (0 <= idx ∧ ∀ k, counters !! n = Some k → k < idx) as [Hidx Hmax].
  { unfold idx. destruct (counters !! n) as [k|] eqn:Hk; [|by split].
    destruct (Hcov n k Hk). split; [lia|]. intros k' [= <-]. lia. }
  intros [= <- <-]. fold (numbered n idx). split_and!.
  - intros m k [[<- <-]|[_ Hm]]%lookup_insert_Some; [done|by apply Hcov].
  - intros t' (m & i & k & Hm & Hi & ->). destruct (decide (n = m)) as [<-|Hne].
    + exists n, i, idx. rewrite lookup_insert_eq. specialize (Hmax k Hm). split_and!; [done|lia..|done].
    + exists m, i, k. by rewrite lookup_insert_ne.
  - exists n, idx, idx. rewrite lookup_insert_eq. split_and!; [done|lia..|done].
  - intros (m & i & k & Hm & Hi & Heq). destruct (Hcov m k Hm) as [Hmn _].
    apply (numbered_inj N) in Heq as [-> ->]; [|done..|lia]. specialize (Hmax k Hm). lia.
Qed.

(** The identifiers of [b'] that are not of [b] are new and distinct. *)
Definition renames (b b' : builder) : Prop :=
  covered (b_counters b) → covered (b_counters b') ∧
  (∀ t, used (b_counters b) t → used (b_counters b') t) ∧
  ∃ new, b_ids b' = b_ids b ++ new ∧ NoDup new ∧
    ∀ t, t ∈ new → used (b_counters b') t ∧ ¬ used (b_counters b) t.

Lemma renames_same b b' : b_counters b' = b_counters b → b_ids b' = b_ids b → renames b b'.
Proof.
  intros Hc Hi Hcov. rewrite Hc, Hi. split_and!; [done..|]. exists []. rewrite app_nil_r.
  split_and!; [done|constructor|by intros t []%not_elem_of_nil].
Qed.

Lemma renames_trans b1 b2 b3 : renames b1 b2 → renames b2 b3 → renames b1 b3.
Proof.
  intros H12 H23 Hcov. destruct (H12 Hcov) as (Hcov2 & Hmono2 & new2 & Hi2 & Hnd2 & Hnew2).
  destruct (H23 Hcov2) as (Hcov3 & Hmono3 & new3 & Hi3 & Hnd3 & Hnew3).
  split_and!; [done|auto|]. exists (new2 ++ new3). split_and!.
  - by rewrite Hi3, Hi2, (assoc_L (++)).
  - apply NoDup_app. split_and!; [done| |done]. intros t Ht2 Ht3. by apply (Hnew3 t Ht3), Hnew2.
  - intros t [[? ?]%Hnew2|[? Hn]%Hnew3]%elem_of_app; split; auto.
Qed.

Lemma caching_renames kind uuid children args b b' v :
  named_node (Node kind uuid children) →
  caching_fn root context valid_metadata kind uuid args b = (b', Ok v) → renames b b'.
Proof.
  unfold caching_fn. intros Hname (b1 & v1 & Hvisit & (b2 & [] & Hcheck & Hret)%st_bind_Ok)%st_bind_Ok.
  injection Hret as <- <-. apply (renames_trans b b1).
  - revert Hvisit. unfold cached_visit, mbind, st_bind, st_get, st_modify, mret, st_ret.
    destruct (b_cache b !! uuid); [intros [= <- <-]; by apply renames_same|].
    unfold _node_visitor. destruct kind as [bound| | |]; cbn; try (intros [= <- <-]; by apply renames_same).
    destruct (1 <? _); [done|]. unfold add_task. destruct (gen_task_id _ _) as [counters t] eqn:Hgen.
    destruct (valid_metadata _); [|done]. intros [= <- <-]. intros Hcov.
    destruct (gen_task_id_new _ _ _ _ Hcov Hname Hgen) as (? & ? & ? & ?). cbn. split_and!; [done..|].
    exists [t]. split_and!; [done|apply NoDup_singleton|]. by intros t' ->%list_elem_of_singleton.
  - revert Hcheck. unfold check_input_node, mbind, st_bind, st_get.
    destruct kind; try (intros [= <-]; by apply renames_same).
    destruct (b_input b1); [case_match; [|done]|]; intros [= <-]; by apply renames_same.
Qed.

Lemma apply_renames d b b' v :
  Forall named_node (nodes d) →
  apply_recursive root context valid_metadata d b = (b', Ok v) → renames b b'.
Proof.
  revert b b' v. induction d as [kind uuid children IH] using DAGNode_nested_ind. intros b b' v.
  rewrite apply_recursive_node, nodes_node. intros [Hch Hnode]%Forall_app. rewrite Forall_singleton in Hnode.
  intros (b1 & args & Hargs & Hfn)%st_bind_Ok.
  apply (renames_trans b b1); [|by eapply caching_renames]. clear Hfn Hnode b' v. revert b b1 args Hargs.
  induction IH as [|d ds Hd _ IHds]; intros b b1 args; [intros [= <- <-]; by apply renames_same|].
  cbn. intros (b2 & v & Hv & (b3 & vs & Hvs & Hret)%st_bind_Ok)%st_bind_Ok. injection Hret as <- <-.
  apply Forall_app in Hch as [Hch1 Hch2]. eapply renames_trans; [by eapply Hd|by eapply IHds].
Qed.
End names.

(** ** The states of graphs *)

(** A task's place in the order in which the tasks were made. *)
Definition place (ids : list TaskID) (t : TaskID) : Z :=
  match list_find (t =.) ids with Some (i, _) => Z.of_nat i | None => 0 end.

Lemma place_lookup ids i t : NoDup ids → ids !! i = Some t → place ids t = Z.of_nat i.
Proof.
  intros Hnd Hi. unfold place. destruct (list_find (t =.) ids) as [[j a]|] eqn:Hf.
  - apply list_find_Some in Hf as (Hj & <- & _). f_equal. by eapply NoDup_lookup.
  - apply list_find_None in Hf. rewrite Forall_forall in Hf. destruct (Hf t); [|done].
    by eapply list_elem_of_lookup_2.
Qed.

Lemma precedes_place ids c t : NoDup ids → precedes ids c t → place ids c < place ids t.
Proof.
  intros Hnd (i & j & Hi & Hj & Hlt). rewrite (place_lookup ids i c), (place_lookup ids j t) by done. lia.
Qed.

Section states.
Context (valid_metadata : Z → bool) (context : option WorkflowTaskContext) (dag_node : DAGNode).
Context (counters : gmap string Z) (metadata : gmap Z Z) (s : WorkflowExecutionState) (b : builder).
Hypothesis Hdag : workflow_state_from_dag valid_metadata dag_node context counters metadata = Ok (s, b).
Hypothesis Hplain : Forall (plain_node (node_uuid dag_node) context) (nodes dag_node).
Hypothesis Hroot : node_uuid dag_node ∉ node_uuid <$> removelast (nodes dag_node).
Hypothesis Hids : NoDup (b_ids b).

Lemma from_dag_inv : ∃ o ids, builder_ok b ∧ s = set_output o (b_state b) ∧ b_ids b = ids ++ [o].
Proof.
  unfold workflow_state_from_dag in Hdag. destruct dag_node as [[bound| | |] uuid children]; try done.
  destruct (apply_recursive _ _ _ _ _) as [b' [[o|]|]] eqn:Happly; try done. injection Hdag as <- <-.
  rewrite nodes_node, removelast_last in Hroot. cbn [node_uuid] in *.
  destruct (traversed_root _ _ _ bound uuid children _ _ o _ _ eq_refl Hroot Happly) as [ids Hlast].
  destruct (apply_traversed _ _ _ _ _ _ _ Happly) as [_ Hok].
  destruct (Hok (new_builder_ok _ _) Hplain Hids) as [Hb _]. by exists o, ids.
Qed.

(** What a new task depends on is there, and was made before. *)
Lemma from_dag_graph :
  (∀ t, is_Some (upstream_dependencies s !! t) ↔ t ∈ b_ids b) ∧
  (∀ t ups c, upstream_dependencies s !! t = Some ups → c ∈ ups →
     c ∈ b_ids b ∧ place (b_ids b) c < place (b_ids b) t ∧ output_task_id s ≠ Some c).
Proof.
  destruct from_dag_inv as (o & ids & Hb & -> & Hlast). split; [apply (bk_ids b Hb)|].
  intros t ups c Hups Hc. destruct (bk_ups b Hb t ups Hups) as [_ Hprec]. specialize (Hprec c Hc).
  split_and!; [|by apply precedes_place|].
  - destruct Hprec as (i & _ & Hi & _). by eapply list_elem_of_lookup_2.
  - destruct Hprec as (i & j & Hi & Hj & Hlt). cbn. intros [= ->].
    assert (i = length ids) as ->.
    { eapply NoDup_lookup; [exact Hids|exact Hi|]. rewrite Hlast. by rewrite lookup_app_r, Nat.sub_diag by done. }
    apply lookup_lt_Some in Hj. rewrite Hlast, length_app in Hj. cbn in Hj. lia.
Qed.

(** The graph of a continuation with new identifiers can join the workflow. *)
Lemma from_dag_sub_ok s0 :
  (∀ t, t ∈ b_ids b → upstream_dependencies s0 !! t = None ∧ ¬ avail s0 t ∧ t ≠ ""%string ∧
     continuation_root s0 !! t = None) →
  ∃ o, sub_ok s0 s o (place (b_ids b)).
Proof.
  intros Hfresh. destruct from_dag_graph as [Hdom Hdeps].
  destruct from_dag_inv as (o & ids & Hb & -> & Hlast). exists o. pose proof (bk_bare b Hb) as Hbare.
  constructor; try done.
  - apply Hdom. rewrite Hlast. apply elem_of_app. right. left.
  - intros t ups Hups. split; [by apply (bk_ups b Hb t)|]. intros c Hc.
    destruct (Hdeps t ups c Hups Hc) as (? & ? & Hne). split_and!; [by apply Hdom|cbn in Hne; congruence|done].
  - intros t Ht%Hdom. by apply (bk_tasks b Hb).
  - intros t Ht. apply Hdom. by apply (bk_known b Hb).
  - by destruct Hbare as (? & ? & ? & _).
  - intros t Ht%Hdom. by apply Hfresh.
Qed.

(** The graph of a workflow. *)
Lemma from_dag_initial_ok : ""%string ∉ b_ids b → initial_ok (place (b_ids b)) s.
Proof.
  intros Hdriver. destruct from_dag_graph as [Hdom Hdeps].
  destruct from_dag_inv as (o & ids & Hb & -> & Hlast).
  destruct (bk_bare b Hb) as (Hcp & Hom & Hctx & HP & HR & HF & HFs & HRf & HRs & Hfree & Hdone & HL & Hr).
  constructor; try done.
  - constructor; cbn; rewrite ?HL, ?Hr.
    + intros t ups Hups. split; [by apply (bk_ups b Hb t)|]. intros c Hc. right.
      destruct (Hdeps t ups c Hups Hc) as (? & ? & _). split_and!; [by apply Hdom|done|done].
    + intros r c. by rewrite lookup_empty.
    + intros c r. by rewrite lookup_empty.
    + intros t [Ht%Hdom _]. destruct (bk_tasks b Hb t Ht) as [(task & ? & _) ?]. split; [by eexists|done].
    + intros t task Ht. destruct (bk_tasks b Hb t) as [(task' & Ht' & ?) _]; [apply (bk_known b Hb); by eexists|].
      congruence.
    + intros t Ht. apply Hdom. by apply (bk_known b Hb).
    + intros t. rewrite Hom, lookup_empty. by intros [].
  - apply eq_None_not_Some. by rewrite Hdom.
  - intros o' [= <-]. right. split; [|cbn; by rewrite Hr, lookup_empty].
    apply Hdom. rewrite Hlast. apply elem_of_app. right. left.
Qed.
End states.


(** ** Graphs *)

Definition function_node (name : string) (uuid dict : Z) (children : list DAGNode) : DAGNode :=
  Node (FunctionNode (mkBound None (Some name) None None dict None None 0 name)) uuid children.

(** Two tasks that share one. *)
Definition diamond : DAGNode :=
  let a := function_node "a" 1 1 [] in
  function_node "d" 4 4 [function_node "b" 2 2 [a]; function_node "c" 3 3 [a]].

Definition diamond_state : WorkflowExecutionState :=
  match workflow_state_from_dag (λ _, true) diamond None ∅ ∅ with Ok (s, _) => s | Err _ => empty_state None end.

Lemma separate_short (N : string → Prop) : (∀ n, N n → String.length n = 1%nat) → separate N.
Proof.
  intros Hlen n m i Hn Hm _ Heq. pose proof (Hlen n Hn) as H1. pose proof (Hlen m Hm) as H2.
  rewrite Heq in H1. destruct m as [|x [|y m]]; [done| |done]. discriminate H1.
Qed.

Lemma diamond_dag : ∃ b,
  workflow_state_from_dag (λ _, true) diamond None ∅ ∅ = Ok (diamond_state, b) ∧
  b_ids b = ["a"; "b"; "c"; "d"]%string.
Proof.
  unfold diamond_state.
  destruct (workflow_state_from_dag (λ _, true) diamond None ∅ ∅) as [[s b]|] eqn:Hdag; [|by vm_compute in Hdag].
  exists b. split; [done|].
  assert ((b_ids ∘ snd) <$> (match workflow_state_from_dag (λ _, true) diamond None ∅ ∅ with
    Ok p => Some p | _ => None end) = Some ["a"; "b"; "c"; "d"]%string) as Hb by (vm_compute; reflexivity).
  rewrite Hdag in Hb. by injection Hb.
Qed.

Lemma diamond_sub : ∃ o rk0, sub_ok (empty_state None) diamond_state o rk0.
Proof.
  destruct diamond_dag as (b & Hdag & Hids).
  destruct (from_dag_sub_ok _ _ _ _ _ _ _ Hdag) with (s0 := empty_state None) as [o Hsub];
    [by repeat constructor|apply (bool_decide_unpack _); vm_compute; exact I|
     rewrite Hids; apply (bool_decide_unpack _); vm_compute; exact I| |by eauto].
  intros t Ht. unfold avail. cbn. rewrite !lookup_empty. split_and!; [done|by intros []| |done].
  intros ->. rewrite Hids in Ht. by apply (bool_decide_pack _) in Ht.
Qed.

Lemma diamond_initial : ∃ rk, initial_ok rk diamond_state.
Proof.
  destruct diamond_dag as (b & Hdag & Hids). exists (place (b_ids b)).
  eapply from_dag_initial_ok; [exact Hdag|by repeat constructor|..].
  - apply (bool_decide_unpack _). vm_compute. exact I.
  - rewrite Hids. apply (bool_decide_unpack _). vm_compute. exact I.
  - rewrite Hids. apply (bool_decide_unpack _). vm_compute. exact I.
Qed.


(** The numbering does not always give distinct names: of three tasks named [f], [f] and
    [f_1], the second and the third get the same identifier, and the graph of the third
    replaces that of the second. *)
Example gen_task_id_collides :
  let '(c1, t1) := gen_task_id ∅ "f" in
  let '(c2, t2) := gen_task_id c1 "f" in
  let '(c3, t3) := gen_task_id c2 "f_1" in
  [t1; t2; t3] = ["f"; "f_1"; "f_1"]%string.
Proof. vm_compute. reflexivity. Qed.

(** The metadata of a function with two nodes go to the first: of two tasks bound from one
    function with metadata 7, the second has none. *)
Example shared_metadata_lost :
  match workflow_state_from_dag (λ _, true) (function_node "b" 2 1 [function_node "a" 1 1 []]) None ∅ {[1 := 7]} with
  | Ok (s, _) => user_metadata <$> tasks s !! "a"%string = Some 7 ∧ user_metadata <$> tasks s !! "b"%string = Some 0
  | Err _ => False
  end.
Proof. vm_compute. by split. Qed.
