(* ===== verification/WorkflowRecovery.v ===== *)
(** * Checkpoints of tasks and recovery

    What [WorkflowStorage] of [workflow/workflow_storage.py] keeps of the tasks of a
    workflow, how the task runner of [task_executor.py] writes it, and how
    [workflow_state_from_storage.py] makes an execution state of it again.

    A task has a directory of files; a file is written at once.  Saving a graph is a
    list of writes, of which a crash leaves the first ones.  Pickled objects are opaque
    and come back as they were; times are left out. *)
From S2P Require Import Prelude WorkflowIndex WorkflowState.
From stdpp Require Import base tactics list gmap strings sets.

#[local] Open Scope Z_scope.

(** ** Files *)

(** [inputs.json] and [outputs.json] *)
Record InputsMetadata := mkInputs {
  im_name : string;
  im_task_options : WorkflowTaskRuntimeOptions;
  im_user_metadata : Z;
  im_workflow_refs : list TaskID
}.

Record OutputsMetadata := mkOutputs {
  om_output_task_id : option TaskID;
  om_dynamic_output_task_id : option TaskID
}.

(** The directory of a task. *)
Record TaskDir := mkDir {
  inputs_json : option InputsMetadata;
  user_metadata_json : option Z;
  func_body_pkl : option Z;
  args_pkl : option Z;
  output_pkl : option Z;
  exception_pkl : option Z;
  outputs_json : option OutputsMetadata
}.

Definition empty_dir : TaskDir := mkDir None None None None None None None.

(** The task storage of one workflow. *)
Abbreviation task_storage := (gmap TaskID TaskDir) (only parsing).

Definition dir_of (task_id : TaskID) (st : task_storage) : TaskDir := default empty_dir (st !! task_id).

Inductive task_write :=
  | PutInputs (metadata : InputsMetadata)
  | PutUserMetadata (metadata : Z)
  | PutFuncBody (body : Z)
  | PutArgs (args : Z)
  | PutOutput (output : Z)
  | PutException (exception : Z)
  | PutOutputs (metadata : OutputsMetadata).

(** [_put]: one file. *)
Definition write_file (w : task_write) (d : TaskDir) : TaskDir :=
  let 'mkDir i u f a o e m := d in
  match w with
  | PutInputs i => mkDir (Some i) u f a o e m
  | PutUserMetadata u => mkDir i (Some u) f a o e m
  | PutFuncBody f => mkDir i u (Some f) a o e m
  | PutArgs a => mkDir i u f (Some a) o e m
  | PutOutput o => mkDir i u f a (Some o) e m
  | PutException e => mkDir i u f a o (Some e) m
  | PutOutputs m => mkDir i u f a o e (Some m)
  end.

Definition put_file (p : TaskID * task_write) (st : task_storage) : task_storage :=
  <[p.1 := write_file p.2 (dir_of p.1 st)]> st.

Definition put_files (ws : list (TaskID * task_write)) (st : task_storage) : task_storage :=
  fold_left (λ st p, put_file p st) ws st.

(** ** Saving *)

(** The files of one task; a key that is missing stops the writes. *)
Definition save_task (state : WorkflowExecutionState) (task_id : TaskID) (task : Task) :
    list (TaskID * task_write) * result unit :=
  match upstream_dependencies state !! task_id with
  | None => ([], Err KeyError)
  | Some refs =>
      let ws := [(task_id, PutInputs (mkInputs (task_name task) (options task) (user_metadata task) refs));
                 (task_id, PutUserMetadata (user_metadata task));
                 (task_id, PutFuncBody (func_body task))] in
      match task_input_args state !! task_id with
      | None => (ws, Err KeyError)
      | Some args => (ws ++ [(task_id, PutArgs args)], Ok tt)
      end
  end.

Fixpoint save_tasks (state : WorkflowExecutionState) (ts : list (TaskID * Task)) :
    list (TaskID * task_write) * result unit :=
  match ts with
  | [] => ([], Ok tt)
  | (task_id, task) :: ts =>
      match save_task state task_id task with
      | (ws, Ok _) => let '(ws', r) := save_tasks state ts in (ws ++ ws', r)
      | (ws, Err e) => (ws, Err e)
      end
  end.

Section order.
(** The order of the dict of tasks. *)
Context (order : list (TaskID * Task) → list (TaskID * Task)).

(** [save_workflow_execution_state]: the tasks first, then the link to them. *)
Definition save_workflow_execution_state (creator_task_id : TaskID) (state : WorkflowExecutionState) :
    list (TaskID * task_write) * result unit :=
  if decide (Some creator_task_id = output_task_id state) then ([], Err AssertionError) else
  match save_tasks state (order (map_to_list (tasks state))) with
  | (ws, Ok _) =>
      (ws ++ [(creator_task_id, PutOutputs (mkOutputs (output_task_id state) None))], Ok tt)
  | (ws, Err e) => (ws, Err e)
  end.

(** [save_task_output] *)
Definition save_task_output (task_id : TaskID) (ret : Z) (exception : option Z) :
    list (TaskID * task_write) :=
  match exception with
  | None => [(task_id, PutOutput ret)]
  | Some e => [(task_id, PutException e)]
  end.

(** What a task's function does. *)
Inductive call_result :=
  | ReturnsValue (v : Z)
  | ReturnsDag (state : WorkflowExecutionState)
  | RaisesException (e : Z).

(** [_workflow_task_executor], after the call; [paired] is [(output, None)]. *)
Definition save_result (paired : Z → Z) (task_id : TaskID) (opts : WorkflowTaskRuntimeOptions)
    (ret : call_result) : list (TaskID * task_write) * result unit :=
  match ret with
  | RaisesException e => (save_task_output task_id 0 (Some e), Err RayTaskError)
  | ReturnsDag state =>
      if checkpoint opts then save_workflow_execution_state task_id state else ([], Ok tt)
  | ReturnsValue v =>
      let v := if catch_exceptions opts then paired v else v in
      (if checkpoint opts then save_task_output task_id v None else [], Ok tt)
  end.
End order.

(** [update_continuation_output_link] *)
Definition update_continuation_output_link (continuation_root_id latest : TaskID) (st : task_storage) :
    list (TaskID * task_write) :=
  let metadata := default (mkOutputs None None) (outputs_json (dir_of continuation_root_id st)) in
  if bool_decide (om_output_task_id metadata ≠ Some latest) &&
     bool_decide (om_dynamic_output_task_id metadata ≠ Some latest) then
    [(continuation_root_id, PutOutputs (mkOutputs (om_output_task_id metadata) (Some latest)))]
  else [].

(** ** Reading *)

(** [metadata.get("dynamic_output_task_id") or metadata["output_task_id"]]; an empty string is
    false. *)
Definition output_link (metadata : OutputsMetadata) : result TaskID :=
  match om_dynamic_output_task_id metadata with
  | Some t => if decide (t = ""%string) then of_option KeyError (om_output_task_id metadata) else Ok t
  | None => of_option KeyError (om_output_task_id metadata)
  end.

(** [_locate_output_task_id] *)
Definition _locate_output_task_id (task_id : TaskID) (st : task_storage) : result TaskID :=
  metadata ← of_option KeyNotFoundError (outputs_json (dir_of task_id st));
  output_link metadata.

(** [get_entrypoint_task_id] *)
Definition get_entrypoint_task_id (st : task_storage) : result TaskID :=
  match _locate_output_task_id "" st with Ok t => Ok t | Err _ => Err ValueError end.

Record TaskInspectResult := mkInspect {
  output_object_valid : bool;
  tir_output_task_id : option TaskID;
  args_valid : bool;
  func_body_valid : bool;
  workflow_refs : option (list TaskID);
  tir_task_options : option WorkflowTaskRuntimeOptions;
  task_raised_exception : bool
}.

(** [is_recoverable] *)
Definition is_recoverable (r : TaskInspectResult) : bool :=
  output_object_valid r ||
  match tir_output_task_id r with Some t => bool_decide (t ≠ ""%string) | None => false end ||
  (args_valid r && bool_decide (workflow_refs r ≠ None) && func_body_valid r).

Definition present {A} (o : option A) : bool := match o with Some _ => true | None => false end.

(** [inspect_task] *)
Definition inspect_task (task_id : TaskID) (st : task_storage) : result TaskInspectResult :=
  let d := dir_of task_id st in
  if present (output_pkl d) then Ok (mkInspect true None false false None None false)
  else if present (outputs_json d) then
    output_task_id ← _locate_output_task_id task_id st;
    Ok (mkInspect false (Some output_task_id) false false None None false)
  else
    Ok (mkInspect false None (present (args_pkl d)) (present (func_body_pkl d))
          (im_workflow_refs <$> inputs_json d) (im_task_options <$> inputs_json d)
          (present (exception_pkl d))).

(** [load_task_output]: the output, or the exception [e] raised again. *)
Definition load_task_output (task_id : TaskID) (st : task_storage) : result (Z + Z) :=
  match output_pkl (dir_of task_id st), exception_pkl (dir_of task_id st) with
  | Some v, _ => Ok (inl v)
  | None, Some e => Ok (inr e)
  | None, None => Err KeyNotFoundError
  end.

(** [_locate_output_in_storage] *)
Fixpoint locate_output (fuel : nat) (task_id : TaskID) (st : task_storage) : result (option TaskID) :=
  match fuel with
  | O => Err OutOfFuel
  | S fuel =>
      r ← inspect_task task_id st;
      match tir_output_task_id r with
      | Some t => locate_output fuel t st
      | None => Ok (if output_object_valid r then Some task_id else None)
      end
  end.

Definition _locate_output_in_storage (task_id : TaskID) (st : task_storage) : result (option TaskID) :=
  locate_output (S (size st)) task_id st.

(** [inspect_output] *)
Definition inspect_output (task_id : option TaskID) (status : WorkflowStatus) (st : task_storage) :
    result (option TaskID) :=
  match status with
  | NONE | CANCELED | RESUMABLE => Err ValueError
  | _ =>
      task_id ← match task_id with Some t => Ok t | None => get_entrypoint_task_id st end;
      _locate_output_in_storage task_id st
  end.

(** ** Recovery *)

(** One task of [workflow_state_from_storage], and the tasks it appends to the queue. *)
Definition recover_task (task_id : TaskID) (st : task_storage) (state : WorkflowExecutionState) :
    result (WorkflowExecutionState * list TaskID) :=
  r ← inspect_task task_id st;
  if negb (is_recoverable r) then Err WorkflowTaskNotRecoverableError
  else if output_object_valid r then
    let target := root_of task_id state in
    Ok (set_checkpoint_map (<[target := mkRef task_id None]> (checkpoint_map state)) state, [])
  else
    match tir_output_task_id r with
    | Some c =>
        let state := set_upstream_dependencies (<[task_id := []]> (upstream_dependencies state)) state in
        Ok (append_continuation task_id c state, [c])
    | None =>
        refs ← of_option TypeError (workflow_refs r);
        let state := add_dependencies task_id refs state in
        args ← of_option KeyNotFoundError (args_pkl (dir_of task_id st));
        let state := set_task_input_args (<[task_id := args]> (task_input_args state)) state in
        opts ← of_option TypeError (tir_task_options r);
        body ← of_option KeyNotFoundError (func_body_pkl (dir_of task_id st));
        Ok (set_tasks (<[task_id := mkTask "" opts 0 body]> (tasks state)) state, refs)
    end.

Fixpoint recover_loop (fuel : nat) (visited : gset TaskID) (queue : list TaskID) (st : task_storage)
    (state : WorkflowExecutionState) : result WorkflowExecutionState :=
  match queue with
  | [] => Ok state
  | task_id :: queue =>
      match fuel with
      | O => Err OutOfFuel
      | S fuel =>
          if decide (task_id ∈ visited) then recover_loop fuel visited queue st state
          else
            '(state, next) ← recover_task task_id st state;
            recover_loop fuel (visited ∪ {[task_id]}) (queue ++ next) st state
      end
  end.

(** A task appends its link or its references once. *)
Definition appends (st : task_storage) (ts : gset TaskID) : nat :=
  sum_list ((λ t, S (length (from_option im_workflow_refs [] (inputs_json (dir_of t st))))) <$> elements ts).

Definition recover_fuel (st : task_storage) : nat := S (appends st (dom st)).

(** [workflow_state_from_storage] *)
Definition workflow_state_from_storage (task_id : option TaskID) (st : task_storage) :
    result WorkflowExecutionState :=
  task_id ← match task_id with Some t => Ok t | None => get_entrypoint_task_id st end;
  recover_loop (recover_fuel st) ∅ [task_id] st (empty_state (Some task_id)).

(** [resume_workflow_task] *)
Definition resume_workflow_task (task_id : option TaskID) (st : task_storage) :
    result WorkflowExecutionState :=
  match workflow_state_from_storage task_id st with
  | Ok state => Ok state
  | Err _ => Err WorkflowNotResumableError
  end.
