(* ===== verification/WorkflowRecoveryProofs.v ===== *)
(** * A workflow can be resumed at any time

    The invariant [store_ok] of the task storage, the proof that recovery from such a
    storage ends with a state that the executor can run, and that every write of the
    workflow keeps the invariant: a workflow of checkpointed tasks can be resumed after a
    crash at any write. *)
From S2P Require Import Prelude WorkflowIndex WorkflowState WorkflowExecutor WorkflowPlan WorkflowStateProofs WorkflowExecutorProofs WorkflowDag WorkflowDagProofs WorkflowRecovery.
From stdpp Require Import base tactics list gmap strings sets.

#[local] Open Scope Z_scope.

(** ** The invariant of the storage *)

(** The options of the tasks that the executor's theorems are about.  The storage itself
    does not look at the options: its invariant is for tasks of any kind [P]. *)
Definition plain_opts (o : WorkflowTaskRuntimeOptions) : Prop :=
  checkpoint o = true ∧ catch_exceptions o = false ∧ task_type o = FUNCTION.

(** [C] are the tasks that are saved, [rk] grows along dependencies and links against their
    direction, [rt] gives the first task of the chain of continuations of a task. *)
Record shape := mkShape { saved : gset TaskID; rank : TaskID → Z; origin : TaskID → TaskID }.

Section storage.
Context {P : WorkflowTaskRuntimeOptions → Prop} (sh : shape) (st : gmap TaskID TaskDir).
Implicit Types t c r : TaskID.

(** What recovery finds of a task. *)
Definition has_output t : Prop := is_Some (output_pkl (dir_of t st)).
Definition linked t c : Prop :=
  output_pkl (dir_of t st) = None ∧
  ∃ m, outputs_json (dir_of t st) = Some m ∧ output_link m = Ok c.
Definition has_inputs t refs : Prop :=
  output_pkl (dir_of t st) = None ∧ outputs_json (dir_of t st) = None ∧
  is_Some (args_pkl (dir_of t st)) ∧ is_Some (func_body_pkl (dir_of t st)) ∧
  ∃ i, inputs_json (dir_of t st) = Some i ∧ P (im_task_options i) ∧ im_workflow_refs i = refs.

(** A task that is saved can be recovered. *)
Definition task_ok t : Prop :=
  has_output t ∨
  (∃ c, linked t c ∧ c ∈ saved sh ∧ rank sh c < rank sh t ∧ origin sh c = origin sh t ∧ origin sh c ≠ c) ∨
  (∃ refs, has_inputs t refs ∧ NoDup refs ∧
     ∀ c, c ∈ refs → c ∈ saved sh ∧ origin sh c = c ∧ rank sh c < rank sh t).

Record store_ok : Prop := {
  so_saved t : t ∈ saved sh → t ≠ ""%string ∧ task_ok t;
  so_origin t : t ∈ saved sh → origin sh (origin sh t) = origin sh t ∧
    (origin sh t ≠ t → rank sh t < rank sh (origin sh t));
  so_origin_saved t : t ∈ saved sh → origin sh t ∈ saved sh;
  so_dom t : t ∈ saved sh → is_Some (st !! t)
}.

(** The three cases exclude each other. *)
Lemma output_not_linked t c : has_output t → ¬ linked t c.
Proof. intros [v Hv] [Hn _]. congruence. Qed.
Lemma output_not_inputs t refs : has_output t → ¬ has_inputs t refs.
Proof. intros [v Hv] [Hn _]. congruence. Qed.
Lemma linked_not_inputs t c refs : linked t c → ¬ has_inputs t refs.
Proof. intros (_ & m & Hm & _) (_ & Hn & _). congruence. Qed.
Lemma linked_fun t c c' : linked t c → linked t c' → c = c'.
Proof. intros (_ & m & Hm & Hl) (_ & m' & Hm' & Hl'). congruence. Qed.
Lemma inputs_fun t refs refs' : has_inputs t refs → has_inputs t refs' → refs = refs'.
Proof. intros (_ & _ & _ & _ & i & Hi & _ & <-) (_ & _ & _ & _ & i' & Hi' & _ & <-). congruence. Qed.

(** ** One task *)

Lemma recover_output t s :
  has_output t →
  recover_task t st s =
    Ok (set_checkpoint_map (<[root_of t s := mkRef t None]> (checkpoint_map s)) s, []).
Proof. intros [v Hv]. unfold recover_task, inspect_task. rewrite Hv. done. Qed.

Lemma recover_linked t c s :
  linked t c → c ≠ ""%string →
  recover_task t st s =
    Ok (append_continuation t c
          (set_upstream_dependencies (<[t := []]> (upstream_dependencies s)) s), [c]).
Proof.
  intros (Hv & m & Hm & Hl) Hc. unfold recover_task, inspect_task, _locate_output_task_id.
  rewrite Hv, Hm. cbn. rewrite Hl. cbn. unfold is_recoverable. cbn. by rewrite bool_decide_true.
Qed.

(** The state with a task added. *)
Definition with_task t (refs : list TaskID) (D : gmap TaskID (list TaskID)) (args : Z) (task : Task)
    (s : WorkflowExecutionState) : WorkflowExecutionState :=
  set_tasks (<[t := task]> (tasks s))
    (set_task_input_args (<[t := args]> (task_input_args s))
    (set_downstream_dependencies D
    (set_upstream_dependencies (<[t := refs]> (upstream_dependencies s)) s))).

(** The files of [t] have the options and the body of [task], and [args]. *)
Definition files_of t (task : Task) (args : Z) : Prop :=
  args_pkl (dir_of t st) = Some args ∧ func_body_pkl (dir_of t st) = Some (func_body task) ∧
  im_task_options <$> inputs_json (dir_of t st) = Some (options task).

Lemma recover_inputs t refs s :
  has_inputs t refs →
  ∃ D args task, recover_task t st s = Ok (with_task t refs D args task s, refs) ∧ P (options task) ∧
    files_of t task args.
Proof.
  intros (Hv & Hm & [args Ha] & [body Hb] & i & Hi & Hplain & <-).
  destruct (add_dependencies_eq t (im_workflow_refs i) s) as [D HD].
  unfold recover_task, inspect_task. rewrite Hv, Hm, Ha, Hb, Hi. cbn. rewrite HD.
  exists D, args, (mkTask "" (im_task_options i) 0 body). unfold files_of. by rewrite Ha, Hb, Hi.
Qed.

(** What a visit appends is bounded. *)
Lemma appends_remove ts t refs :
  t ∈ ts → has_inputs t refs ∨ refs = [] ∨ (∃ c, refs = [c]) →
  (length refs + appends st (ts ∖ {[t]}) ≤ appends st ts)%nat.
Proof.
  intros Ht Hrefs.
  assert (appends st ts = (S (length (from_option im_workflow_refs [] (inputs_json (dir_of t st)))) +
    appends st (ts ∖ {[t]}))%nat) as ->.
  { unfold appends. rewrite (union_difference_singleton_L t ts Ht) at 1.
    by rewrite elements_union_singleton by set_solver. }
  destruct Hrefs as [(_ & _ & _ & _ & i & Hi & _ & <-)|[->|[c ->]]]; [rewrite Hi|..]; cbn; lia.
Qed.

(** ** The loop *)

Definition seen (V : gset TaskID) (Q : list TaskID) t : Prop := t ∈ V ∨ t ∈ Q.

(** Nothing is scheduled. *)
Definition idle (s : WorkflowExecutionState) : Prop :=
  pending_input_set s = ∅ ∧ reference_set s = ∅ ∧ frontier_to_run s = [] ∧
  frontier_to_run_set s = ∅ ∧ running_frontier s = ∅ ∧ running_frontier_set s = ∅ ∧
  free_outputs s = ∅ ∧ done_tasks s = ∅ ∧ task_context s = ∅ ∧ output_map s = ∅.

(** [V] has been visited and [Q] is still to be. *)
Record recovering (o : TaskID) (V : gset TaskID) (Q : list TaskID) (s : WorkflowExecutionState) : Prop := {
  r_saved t : seen V Q t → t ∈ saved sh;
  r_output : output_task_id s = Some o ∧ seen V Q o ∧ origin sh o = o;
  r_ups t ups : upstream_dependencies s !! t = Some ups ↔
    t ∈ V ∧ ((∃ c, linked t c) ∧ ups = [] ∨ has_inputs t ups);
  r_tasks t : is_Some (tasks s !! t) ↔ t ∈ V ∧ ∃ refs, has_inputs t refs;
  r_files t task : tasks s !! t = Some task → ∃ args, task_input_args s !! t = Some args ∧ files_of t task args;
  r_plain t task : tasks s !! t = Some task → P (options task);
  r_avail r : avail s r ↔ ∃ t, t ∈ V ∧ has_output t ∧ origin sh t = r;
  r_root c : seen V Q c →
    continuation_root s !! c = if decide (origin sh c = c) then None else Some (origin sh c);
  r_root_seen c : is_Some (continuation_root s !! c) → seen V Q c;
  r_closed t : t ∈ V →
    (∀ c, linked t c → seen V Q c) ∧ (∀ refs c, has_inputs t refs → c ∈ refs → seen V Q c);
  r_latest r c : latest_continuation s !! r = Some c →
    (seen V Q c ∧ origin sh c = r ∧ r ≠ c) ∧ (r ∈ V ∧ ∃ c', linked r c') ∧
    (∀ t, seen V Q t → origin sh t = r → t = c ∨ rank sh c < rank sh t) ∧
    (c ∈ V → ∀ c', ¬ linked c c');
  r_target c : seen V Q c → origin sh c ≠ c →
    is_Some (latest_continuation s !! origin sh c) ∧
    (c ∉ V → latest_continuation s !! origin sh c = Some c);
  r_idle : idle s
}.

Lemma recovering_skip o V t Q s : t ∈ V → recovering o V (t :: Q) s → recovering o V Q s.
Proof.
  intros Ht. assert (∀ c, seen V (t :: Q) c ↔ seen V Q c) as Hseen.
  { intros c. unfold seen. rewrite elem_of_cons. naive_solver. }
  intros [Hsv Ho Hu Htk Ha Hp Hav Hr Hrs Hc Hl Htg Hi]. setoid_rewrite Hseen in Hsv.
  setoid_rewrite Hseen in Ho. setoid_rewrite Hseen in Hr. setoid_rewrite Hseen in Hrs.
  setoid_rewrite Hseen in Hc. setoid_rewrite Hseen in Hl. setoid_rewrite Hseen in Htg.
  by constructor.
Qed.

Section visit.
Context (o : TaskID) (V : gset TaskID) (t : TaskID) (Q : list TaskID) (s : WorkflowExecutionState).
Hypothesis Hst : store_ok.
Hypothesis Hnew : t ∉ V.
Hypothesis Hrec : recovering o V (t :: Q) s.

Lemma seen_visited next c :
  seen (V ∪ {[t]}) (Q ++ next) c ↔ seen V (t :: Q) c ∨ c ∈ next.
Proof. unfold seen. rewrite elem_of_union, elem_of_singleton, elem_of_cons, elem_of_app. tauto. Qed.

Lemma visiting_saved : t ∈ saved sh.
Proof. apply (r_saved _ _ _ _ Hrec). right. left. Qed.

Lemma visiting_root : root_of t s = origin sh t.
Proof.
  unfold root_of. rewrite (r_root _ _ _ _ Hrec) by (right; left). by destruct (decide _).
Qed.

(** An output. *)
Lemma visit_output :
  has_output t →
  recovering o (V ∪ {[t]}) Q
    (set_checkpoint_map (<[root_of t s := mkRef t None]> (checkpoint_map s)) s).
Proof.
  intros Hout. rewrite visiting_root. destruct Hrec as [Hsv Ho Hu Htk Ha Hp Hav Hr Hrs Hc Hl Htg Hi].
  assert (∀ c, seen (V ∪ {[t]}) Q c ↔ seen V (t :: Q) c) as Hseen.
  { intros c. rewrite <- (app_nil_r Q) at 1. rewrite seen_visited. split; [|by left].
    by intros [?|[]%not_elem_of_nil]. }
  assert (∀ a, a ∈ V ∪ {[t]} → a ∈ V ∨ a = t) as HV by set_solver +.
  constructor; cbn; setoid_rewrite Hseen || idtac; try done.
  - intros a ups. rewrite Hu, elem_of_union, elem_of_singleton. split; [naive_solver|].
    intros [[?| ->] Hcase]; [done|]. exfalso. destruct Hcase as [[[c Hlk] _]|Hin].
    + by eapply output_not_linked.
    + by eapply output_not_inputs.
  - intros a. rewrite Htk, elem_of_union, elem_of_singleton. split; [naive_solver|].
    intros [[?| ->] [refs Hin]]; [by eauto|]. by destruct (output_not_inputs _ _ Hout Hin).
  - intros r. unfold avail in *. cbn. rewrite lookup_insert_is_Some', Hav. split.
    + intros [<-|(a & ? & ? & ?)]; [exists t|exists a]; set_solver.
    + intros (a & [?| ->]%HV & ? & <-); [right; eauto|by left].
  - intros a [?| ->]%HV; [by apply Hc|]. split.
    + intros c Hlk. by destruct (output_not_linked _ _ Hout Hlk).
    + intros refs c Hin. by destruct (output_not_inputs _ _ Hout Hin).
  - intros r c HL. destruct (Hl r c HL) as (? & [Hr0 ?] & ? & Hlast).
    split; [done|]. split; [split; [by apply elem_of_union_l|done]|]. split; [done|].
    intros [?| ->]%HV; [by apply Hlast|]. intros c'. by apply output_not_linked.
  - intros c Hsc Hne. destruct (Htg c Hsc Hne) as [? Hlast]. split; [done|]. intros Hn. apply Hlast. set_solver.
Qed.

Lemma visited_in a : a ∈ V ∪ {[t]} ↔ a ∈ V ∨ a = t.
Proof. rewrite elem_of_union, elem_of_singleton. done. Qed.

(** The task that is visited is the last of its chain. *)
Lemma visiting_last x : seen V (t :: Q) x → origin sh x = origin sh t → x ≠ t → rank sh t < rank sh x.
Proof.
  intros Hx Heq Hne. destruct (decide (origin sh t = t)) as [Ht|Ht].
  - destruct (r_target _ _ _ _ Hrec x Hx) as [[c HL] _]; [congruence|]. rewrite Heq, Ht in HL.
    by destruct (r_latest _ _ _ _ Hrec _ _ HL) as (_ & [? _] & _).
  - destruct (r_target _ _ _ _ Hrec t) as [_ HL]; [right; left|done|]. specialize (HL Hnew).
    destruct (r_latest _ _ _ _ Hrec _ _ HL) as (_ & _ & Hmin & _). by destruct (Hmin x Hx Heq).
Qed.

Lemma visiting_latest c : latest_continuation s !! origin sh t = Some c → c = t ∧ origin sh t ∈ V.
Proof.
  intros HL. destruct (r_latest _ _ _ _ Hrec _ _ HL) as ((Hc & Hoc & _) & [HV _] & _). split; [|done].
  destruct (r_target _ _ _ _ Hrec t) as [_ HL']; [right; left|congruence|].
  specialize (HL' Hnew). congruence.
Qed.

(** A link. *)
Lemma visit_linked c :
  linked t c → c ∈ saved sh → rank sh c < rank sh t → origin sh c = origin sh t → origin sh c ≠ c →
  recovering o (V ∪ {[t]}) (Q ++ [c])
    (append_continuation t c (set_upstream_dependencies (<[t := []]> (upstream_dependencies s)) s)).
Proof.
  intros Hlk Hcs Hrk Hoc Hcc. pose proof (seen_visited [c]) as Hseen.
  setoid_rewrite list_elem_of_singleton in Hseen.
  assert (¬ seen V (t :: Q) c) as Hunseen.
  { intros Hc. destruct (decide (c = t)) as [->|]; [lia|]. pose proof (visiting_last c Hc Hoc ltac:(done)). lia. }
  assert (c ≠ t) as Hct by (intros ->; apply Hunseen; right; left).
  assert (root_of t (set_upstream_dependencies (<[t := []]> (upstream_dependencies s)) s) = origin sh t) as Hroot
    by apply visiting_root.
  unfold append_continuation. cbv zeta. rewrite Hroot. clear Hroot.
  pose proof visiting_last as Hlast. pose proof visiting_latest as Hlatest.
  destruct Hrec as [Hsv Ho Hu Htk Ha Hp Hav Hr Hrs Hc Hl Htg Hi].
  constructor; cbn; setoid_rewrite Hseen || idtac; try done.
  - by intros a [?| ->]; [apply Hsv|].
  - destruct Ho as (? & ? & ?). auto.
  - intros a ups. rewrite lookup_insert_Some, Hu, visited_in. split.
    + intros [[<- <-]|[? ?]]; [split; [by right|left; eauto]|naive_solver].
    + intros [[HaV| ->] Hcase]; [right; split; [congruence|done]|left].
      destruct Hcase as [[_ ->]|Hin]; [done|]. by destruct (linked_not_inputs _ _ _ Hlk Hin).
  - intros a. rewrite Htk, visited_in. split; [naive_solver|].
    intros [[?| ->] [refs Hin]]; [by eauto|]. by destruct (linked_not_inputs _ _ _ Hlk Hin).
  - intros r. unfold avail in *. rewrite Hav. setoid_rewrite visited_in. split; [naive_solver|].
    intros (a & [?| ->] & Hout & <-); [by eauto|]. by destruct (output_not_linked _ _ Hout Hlk).
  - intros x [Hx| ->]; [|by rewrite lookup_insert_eq, decide_False, Hoc].
    rewrite lookup_insert_ne by congruence. by apply Hr.
  - intros x. rewrite lookup_insert_is_Some'. intros [<-|?]; [by right|left; by apply Hrs].
  - intros a [HaV| ->]%visited_in.
    + destruct (Hc a HaV) as [H1 H2]. split; [intros; left; by apply H1|intros; left; by eapply H2].
    + split; [intros c' Hlk'; right; by eapply linked_fun|].
      intros refs x Hin. by destruct (linked_not_inputs _ _ _ Hlk Hin).
  - intros r x [[<- <-]|[Hne HL]]%lookup_insert_Some.
    + assert (origin sh t ∈ V ∪ {[t]} ∧ ∃ c', linked (origin sh t) c') as Horigin.
      { destruct (decide (origin sh t = t)) as [Heq|Htt]; [rewrite !Heq, visited_in; by eauto|].
        destruct (Htg t) as [_ HL]; [right; left|done|]. specialize (HL Hnew).
        destruct (Hl _ _ HL) as (_ & [? ?] & _). rewrite visited_in. auto. }
      split; [split_and!; [by right|done|congruence]|]. split; [done|]. split.
      * intros y [Hy| ->] Hoy; [right|by left]. destruct (decide (y = t)) as [->|]; [done|].
        pose proof (Hlast y Hy Hoy ltac:(done)). lia.
      * intros [HcV| ->]%visited_in; [|done]. destruct Hunseen. by left.
    + destruct (Hl r x HL) as ((Hx & Hox & Hrx) & [HrV Hlr] & Hmin & Hnl).
      split; [split_and!; [by left|done|done]|]. split; [rewrite visited_in; auto|]. split.
      * intros y [Hy| ->] Hoy; [by apply Hmin|congruence].
      * intros [HxV| ->]%visited_in; [by apply Hnl|congruence].
  - intros x [Hx| ->] Hxx.
    + destruct (decide (origin sh x = origin sh t)) as [Heq|Hneq].
      * rewrite Heq, lookup_insert_eq. split; [done|]. intros Hn. rewrite visited_in in Hn.
        destruct (Htg x Hx Hxx) as [_ HL]. rewrite Heq in HL. destruct (Hlatest x) as [-> _]; [apply HL|]; tauto.
      * rewrite lookup_insert_ne by done. destruct (Htg x Hx Hxx) as [? HL]. split; [done|].
        intros Hn. apply HL. rewrite visited_in in Hn. tauto.
    + rewrite Hoc, lookup_insert_eq. split; [done|]. done.
Qed.

(** The inputs. *)
Lemma visit_inputs refs D args task :
  has_inputs t refs → (∀ c, c ∈ refs → c ∈ saved sh ∧ origin sh c = c ∧ rank sh c < rank sh t) → P (options task) →
  files_of t task args → recovering o (V ∪ {[t]}) (Q ++ refs) (with_task t refs D args task s).
Proof.
  intros Hin Hrefs Hplain Hfiles. pose proof (seen_visited refs) as Hseen. pose proof (so_origin Hst) as Horg.
  destruct Hrec as [Hsv Ho Hu Htk Ha Hp Hav Hr Hrs Hc Hl Htg Hi].
  constructor; cbn; setoid_rewrite Hseen || idtac; try done.
  - by intros a [?|(? & _)%Hrefs]; [apply Hsv|].
  - destruct Ho as (? & ? & ?). auto.
  - intros a ups. rewrite lookup_insert_Some, Hu, visited_in. split.
    + intros [[<- <-]|[? ?]]; [split; [by right|by right]|naive_solver].
    + intros [[HaV| ->] Hcase]; [right; split; [congruence|done]|left].
      destruct Hcase as [[[c Hlk] _]|Hin']; [by destruct (linked_not_inputs _ _ _ Hlk Hin)|].
      split; [done|]. by eapply inputs_fun.
  - intros a. rewrite lookup_insert_is_Some', Htk, visited_in. split; [naive_solver|].
    intros [[?| ->] [refs' Hin']]; [right; by eauto|by left].
  - intros a task' [[<- <-]|[Hne Hta]]%lookup_insert_Some; [exists args; by rewrite lookup_insert_eq|].
    rewrite lookup_insert_ne by done. by apply Ha.
  - intros a task'. rewrite lookup_insert_Some. intros [[_ <-]|[_ ?]]; [done|by eapply Hp].
  - intros r. unfold avail in *. rewrite Hav. setoid_rewrite visited_in. split; [naive_solver|].
    intros (a & [?| ->] & Hout & <-); [by eauto|]. by destruct (output_not_inputs _ _ Hout Hin).
  - intros x [Hx|Hx]; [by apply Hr|]. destruct (Hrefs x Hx) as (_ & Hox & _). rewrite decide_True by done.
    destruct (continuation_root s !! x) as [r|] eqn:Hroot; [|done].
    rewrite Hr, decide_True in Hroot by (done || apply Hrs; by eexists). done.
  - intros x Hx. left. by apply Hrs.
  - intros a [HaV| ->]%visited_in.
    + destruct (Hc a HaV) as [H1 H2]. split; [intros; left; by apply H1|intros; left; by eapply H2].
    + split; [intros c Hlk; by destruct (linked_not_inputs _ _ _ Hlk Hin)|].
      intros refs' x Hin' Hx. right. by rewrite (inputs_fun _ _ _ Hin Hin').
  - intros r x HL. destruct (Hl r x HL) as ((Hx & Hox & Hrx) & [HrV Hlr] & Hmin & Hnl).
    split; [split_and!; [by left|done|done]|]. split; [rewrite visited_in; auto|]. split.
    + intros y [Hy|Hy] Hoy; [by apply Hmin|]. destruct (Hrefs y Hy) as (_ & Hyy & _). right.
      assert (y = r) as -> by congruence. rewrite <- Hox. apply Horg; [by apply Hsv|congruence].
    + intros [HxV| ->]%visited_in; [by apply Hnl|]. intros c' Hlk. by destruct (linked_not_inputs _ _ _ Hlk Hin).
  - intros x [Hx|Hx] Hxx; [|by destruct (Hrefs x Hx) as (_ & ? & _)].
    destruct (Htg x Hx Hxx) as [? HL]. split; [done|]. intros Hn. apply HL. rewrite visited_in in Hn. tauto.
Qed.

(** Any task: the visit succeeds, and what it appends is bounded. *)
Lemma visit_ok : ∃ s' next,
  recover_task t st s = Ok (s', next) ∧ recovering o (V ∪ {[t]}) (Q ++ next) s' ∧
  (length next + appends st (dom st ∖ V ∖ {[t]}) ≤ appends st (dom st ∖ V))%nat.
Proof.
  assert (t ∈ dom st ∖ V) as Hdom.
  { apply elem_of_difference. split; [|done]. apply elem_of_dom, (so_dom Hst), visiting_saved. }
  destruct (so_saved Hst t visiting_saved) as [_ [Hout|[(c & Hlk & Hc & Hrk & Hoc & Hcc)|(refs & Hin & _ & Hrefs)]]].
  - eexists _, []. split; [by apply recover_output|]. rewrite app_nil_r. split; [by apply visit_output|].
    apply appends_remove; auto.
  - eexists _, [c]. split; [apply recover_linked; [done|by apply (so_saved Hst c Hc)]|].
    split; [by apply visit_linked|]. apply appends_remove; eauto.
  - destruct (recover_inputs t refs s Hin) as (D & args & task & Hrun & Hplain & Hfiles).
    eexists _, refs. split; [exact Hrun|]. split; [by apply visit_inputs|]. apply appends_remove; auto.
Qed.
End visit.

(** The loop ends. *)
Lemma recover_loop_ok o fuel V Q s :
  store_ok → recovering o V Q s → (length Q + appends st (dom st ∖ V) ≤ fuel)%nat →
  ∃ V' s', recover_loop fuel V Q st s = Ok s' ∧ recovering o V' [] s'.
Proof.
  intros Hst. revert V Q s. induction fuel as [|fuel IH]; intros V [|t Q] s Hrec Hfuel;
    [by exists V, s|cbn in Hfuel; lia|by exists V, s|].
  cbn [recover_loop]. cbn in Hfuel. case_decide as Ht.
  - apply IH; [by eapply recovering_skip|lia].
  - destruct (visit_ok o V t Q s Hst Ht Hrec) as (s' & next & -> & Hrec' & Hle). cbn.
    apply IH; [done|]. rewrite length_app.
    replace (dom st ∖ (V ∪ {[t]})) with (dom st ∖ V ∖ {[t]}) by set_solver +. lia.
Qed.

(** ** The recovered state *)

Section recovered.
Context (o : TaskID) (V : gset TaskID) (s : WorkflowExecutionState).
Hypothesis Hst : store_ok.
Hypothesis Hrec : recovering o V [] s.

Lemma seen_nil t : seen V [] t ↔ t ∈ V.
Proof. unfold seen. split; [by intros [?|[]%not_elem_of_nil]|by left]. Qed.

Lemma recovered_root c : c ∈ V → origin sh c = c → continuation_root s !! c = None.
Proof. intros Hc Hoc. rewrite (r_root _ _ _ _ Hrec) by by left. by rewrite decide_True. Qed.

(** A task that was visited has its output, or is in the graph. *)
Lemma recovered_cases t : t ∈ V → has_output t ∨ is_Some (upstream_dependencies s !! t).
Proof.
  intros Ht. destruct (so_saved Hst t) as [_ [Hout|[(c & Hlk & _)|(refs & Hin & _)]]];
    [apply (r_saved _ _ _ _ Hrec); by left|by left|right..].
  - exists []. apply (r_ups _ _ _ _ Hrec). split; [done|]. left. eauto.
  - exists refs. apply (r_ups _ _ _ _ Hrec). auto.
Qed.

Lemma recovered_inputs t refs : t ∈ V → has_inputs t refs →
  NoDup refs ∧ ∀ c, c ∈ refs → c ∈ V ∧ origin sh c = c ∧ rank sh c < rank sh t.
Proof.
  intros Ht Hin. destruct (so_saved Hst t) as [_ [Hout|[(c & Hlk & _)|(refs' & Hin' & Hnd & Hall)]]];
    [apply (r_saved _ _ _ _ Hrec); by left|by destruct (output_not_inputs _ _ Hout Hin)|
     by destruct (linked_not_inputs _ _ _ Hlk Hin)|].
  rewrite (inputs_fun _ _ _ Hin Hin'). split; [done|]. intros c Hc. split; [|by destruct (Hall c Hc) as (_ & ? & ?)].
  apply seen_nil. by eapply (r_closed _ _ _ _ Hrec t Ht).
Qed.

Lemma recovered_avail t : t ∈ V → has_output t → avail s (origin sh t).
Proof. intros Ht Hout. apply (r_avail _ _ _ _ Hrec). eauto. Qed.

Hypothesis Hplain : ∀ opts, P opts → plain_opts opts.

Lemma recovered_graph : graph_ok (rank sh) s.
Proof.
  constructor.
  - intros t ups [Ht [[_ ->]|Hin]]%(r_ups _ _ _ _ Hrec); [split; [constructor|by intros c []%not_elem_of_nil]|].
    destruct (recovered_inputs t ups Ht Hin) as [Hnd Hall]. split; [done|]. intros c Hc.
    destruct (Hall c Hc) as (HcV & Hoc & Hrk).
    destruct (recovered_cases c HcV) as [Hout|Hu]; [left; rewrite <- Hoc; by apply recovered_avail|right].
    split_and!; [done|by apply recovered_root|done].
  - intros r c HL. destruct (r_latest _ _ _ _ Hrec r c HL) as ((Hc%seen_nil & Hoc & Hrc) & [Hr [c' Hlk]] & _).
    assert (upstream_dependencies s !! r = Some []) as Hur.
    { apply (r_ups _ _ _ _ Hrec). split; [done|]. left. eauto. }
    split_and!.
    + by eexists.
    + rewrite (r_root _ _ _ _ Hrec) by by left. rewrite decide_False by congruence. by rewrite Hoc.
    + intros u (ups & Hups & Hu). rewrite Hur in Hups. injection Hups as <-. by apply not_elem_of_nil in Hu.
    + destruct (recovered_cases c Hc) as [Hout|Hu]; [left; rewrite <- Hoc; by apply recovered_avail|right].
      split; [done|]. rewrite <- Hoc. apply (so_origin Hst); [apply (r_saved _ _ _ _ Hrec); by left|congruence].
  - intros c r Hr. assert (c ∈ V) as Hc by (apply seen_nil, (r_root_seen _ _ _ _ Hrec); by eexists).
    rewrite (r_root _ _ _ _ Hrec) in Hr by by left. destruct (decide (origin sh c = c)) as [|Hne]; [done|].
    injection Hr as <-. destruct (so_origin Hst c) as [Hidem _]; [apply (r_saved _ _ _ _ Hrec); by left|].
    destruct (r_target _ _ _ _ Hrec c) as [[x HL] _]; [by left|done|].
    destruct (r_latest _ _ _ _ Hrec _ _ HL) as (_ & [Hr _] & _). split_and!.
    + by apply recovered_root.
    + by eexists.
    + destruct (latest_continuation s !! c) as [y|] eqn:Hy; [|done].
      destruct (r_latest _ _ _ _ Hrec _ _ Hy) as ((Hy1%seen_nil & Hoy & _) & _).
      destruct (so_origin Hst y) as [Hidem' _]; [apply (r_saved _ _ _ _ Hrec); by left|]. congruence.
    + rewrite (r_avail _ _ _ _ Hrec). intros (t & Ht & _ & Hot).
      destruct (so_origin Hst t) as [Hidem' _]; [apply (r_saved _ _ _ _ Hrec); by left|]. congruence.
  - intros t ([ups [Ht [[[c Hlk] _]|Hin]]%(r_ups _ _ _ _ Hrec)] & HL & Hlat).
    + exfalso. assert (c ∈ V) as Hc by by apply seen_nil, (proj1 (r_closed _ _ _ _ Hrec t Ht)).
      destruct (decide (origin sh t = t)) as [Hot|Hot].
      * destruct (so_saved Hst t) as [_ [Hout|[(c' & Hlk' & _ & _ & Hoc & Hcc)|(refs' & Hin' & _)]]];
          [apply (r_saved _ _ _ _ Hrec); by left|by destruct (output_not_linked _ _ Hout Hlk)| |
           by destruct (linked_not_inputs _ _ _ Hlk Hin')].
        rewrite (linked_fun _ _ _ Hlk' Hlk) in *.
        destruct (r_target _ _ _ _ Hrec c) as [[x Hx] _]; [by left|done|]. congruence.
      * assert (continuation_root s !! t = Some (origin sh t)) as Hr
          by (rewrite (r_root _ _ _ _ Hrec) by (by left); by rewrite decide_False).
        destruct (r_latest _ _ _ _ Hrec _ _ (Hlat _ Hr)) as (_ & _ & _ & Hnl). by eapply Hnl.
    + destruct (r_tasks _ _ _ _ Hrec t) as [_ [task Htask]]; [by eauto|]. split; [by eexists|].
      destruct (r_files _ _ _ _ Hrec t task Htask) as (args & -> & _). by eexists.
  - intros t task Htask. by apply Hplain, (r_plain _ _ _ _ Hrec t).
  - intros t [Ht [refs Hin]]%(r_tasks _ _ _ _ Hrec). exists refs. apply (r_ups _ _ _ _ Hrec). auto.
  - intros t. destruct (r_idle _ _ _ _ Hrec) as (_ & _ & _ & _ & _ & _ & _ & _ & _ & ->).
    rewrite lookup_empty. by intros [].
Qed.

Lemma recovered_initial : initial_ok (rank sh) s.
Proof.
  destruct (r_output _ _ _ _ Hrec) as (Ho & HoV%seen_nil & Hoo).
  destruct (r_idle _ _ _ _ Hrec) as (? & ? & ? & ? & ? & ? & ? & ? & ? & ?).
  constructor; [apply recovered_graph|..].
  - destruct (upstream_dependencies s !! ""%string) as [ups|] eqn:Hu; [|done].
    apply (r_ups _ _ _ _ Hrec) in Hu as [HV _].
    destruct (so_saved Hst ""%string) as [? _]; [apply (r_saved _ _ _ _ Hrec); by left|done].
  - rewrite Ho. intros o' [= <-].
    destruct (recovered_cases o HoV) as [Hout|Hu]; [left; rewrite <- Hoo; by apply recovered_avail|right].
    split; [done|by apply recovered_root].
  - by rewrite Ho.
  - by split_and!.
Qed.
End recovered.

Lemma recovering_start o : o ∈ saved sh → origin sh o = o → recovering o ∅ [o] (empty_state (Some o)).
Proof.
  intros Hs Ho. assert (∀ t, seen ∅ [o] t ↔ t = o) as Hseen.
  { intros t. unfold seen. rewrite list_elem_of_singleton. set_solver +. }
  constructor; cbn; setoid_rewrite Hseen || idtac.
  - by intros t ->.
  - done.
  - intros t ups. rewrite lookup_empty. split; [done|by intros [[]%not_elem_of_empty _]].
  - intros t. rewrite lookup_empty. split; [by intros []|by intros [[]%not_elem_of_empty _]].
  - intros t task. by rewrite lookup_empty.
  - intros t task. by rewrite lookup_empty.
  - intros r. unfold avail. cbn. rewrite lookup_empty. split; [by intros []|by intros (? & []%not_elem_of_empty & _)].
  - intros c ->. by rewrite lookup_empty, decide_True.
  - intros c. rewrite lookup_empty. by intros [].
  - by intros t []%not_elem_of_empty.
  - intros r c. by rewrite lookup_empty.
  - by intros c ->.
  - done.
Qed.

(** Recovery of a workflow succeeds, *)
Lemma recovery_total o :
  store_ok → get_entrypoint_task_id st = Ok o → o ∈ saved sh → origin sh o = o →
  ∃ V s, workflow_state_from_storage None st = Ok s ∧ recovering o V [] s.
Proof.
  intros Hst He Ho Hoo. unfold workflow_state_from_storage. rewrite He. cbn [mbind result_bind].
  apply (recover_loop_ok o (recover_fuel st) ∅ [o] (empty_state (Some o)));
    [done|by apply recovering_start|unfold recover_fuel; rewrite difference_empty_L; cbn; lia].
Qed.

(** with a state that the executor can run. *)
Lemma recovery_ok o :
  (∀ opts, P opts → plain_opts opts) → store_ok → get_entrypoint_task_id st = Ok o → o ∈ saved sh → origin sh o = o →
  ∃ s, workflow_state_from_storage None st = Ok s ∧ initial_ok (rank sh) s ∧ output_task_id s = Some o ∧
    ∀ t, has_output t → tasks s !! t = None.
Proof.
  intros Hplain Hst He Ho Hoo. destruct (recovery_total o Hst He Ho Hoo) as (V & s & -> & Hrec).
  exists s. split_and!; [done|by eapply recovered_initial|by apply (r_output _ _ _ _ Hrec)|].
  intros t Hout. destruct (tasks s !! t) eqn:Htask; [|done].
  destruct (r_tasks _ _ _ _ Hrec t) as [Hin _]. destruct Hin as [_ [refs Hin]]; [by eexists|].
  by destruct (output_not_inputs _ _ Hout Hin).
Qed.
End storage.

(** ** Writes *)

Lemma dir_put_same t w st : dir_of t (put_file (t, w) st) = write_file w (dir_of t st).
Proof. unfold put_file, dir_of at 1. cbn. by rewrite lookup_insert_eq. Qed.
Lemma dir_put_other t a w st : t ≠ a → dir_of t (put_file (a, w) st) = dir_of t st.
Proof. intros Hne. unfold put_file, dir_of at 1. cbn. by rewrite lookup_insert_ne. Qed.

Lemma put_files_app ws ws' st : put_files (ws ++ ws') st = put_files ws' (put_files ws st).
Proof. apply fold_left_app. Qed.

Lemma put_files_one p st : put_files [p] st = put_file p st.
Proof. done. Qed.

Lemma dir_put_files t ws st : t ∉ ws.*1 → dir_of t (put_files ws st) = dir_of t st.
Proof.
  revert st. induction ws as [|[a w] ws IH]; intros st; [done|]. rewrite fmap_cons, not_elem_of_cons.
  intros [Hne Hn]. cbn. rewrite IH by done. by apply dir_put_other.
Qed.

Lemma put_files_dom t ws st : is_Some (st !! t) → is_Some (put_files ws st !! t).
Proof.
  revert st. induction ws as [|[a w] ws IH]; intros st Ht; [done|]. cbn. apply IH. unfold put_file. cbn.
  apply lookup_insert_is_Some'. by right.
Qed.

Lemma task_ok_dir {P} sh st st' t :
  dir_of t st' = dir_of t st → task_ok (P := P) sh st t → task_ok (P := P) sh st' t.
Proof. intros Hd. unfold task_ok, has_output, linked, has_inputs. by rewrite Hd. Qed.

Section writes.
Context {P : WorkflowTaskRuntimeOptions → Prop} (sh : shape) (st : gmap TaskID TaskDir).
Hypothesis Hst : store_ok (P := P) sh st.

(** Writes to other tasks do not matter. *)
Lemma store_ok_frame st' :
  (∀ t, t ∈ saved sh → dir_of t st' = dir_of t st ∧ is_Some (st' !! t)) → store_ok (P := P) sh st'.
Proof.
  intros Hframe. constructor; try apply Hst.
  - intros t Ht. destruct (so_saved _ _ Hst t Ht) as [? Hok]. split; [done|].
    eapply task_ok_dir; [by apply Hframe|done].
  - intros t Ht. by apply Hframe.
Qed.

(** A write to a saved task leaves the others. *)
Lemma store_ok_put a w :
  (a ∈ saved sh → task_ok (P := P) sh (put_file (a, w) st) a) → store_ok (P := P) sh (put_file (a, w) st).
Proof.
  intros Ha. constructor; try apply Hst.
  - intros t Ht. split; [by apply (so_saved _ _ Hst)|]. destruct (decide (t = a)) as [->|Hne]; [auto|].
    eapply task_ok_dir; [by apply dir_put_other|]. by apply (so_saved _ _ Hst).
  - intros t Ht. apply (put_files_dom t [(a, w)]). by apply (so_dom _ _ Hst).
Qed.

Lemma store_ok_output a v : store_ok (P := P) sh (put_file (a, PutOutput v) st).
Proof.
  apply store_ok_put. intros _. left. unfold has_output. rewrite dir_put_same. by destruct (dir_of a st).
Qed.

Lemma store_ok_exception a e : store_ok (P := P) sh (put_file (a, PutException e) st).
Proof.
  apply store_ok_put. intros Ha. destruct (so_saved _ _ Hst a Ha) as [_ Hok]. revert Hok.
  unfold task_ok, has_output, linked, has_inputs. rewrite dir_put_same. by destruct (dir_of a st).
Qed.

(** A link to a later task of the chain. *)
Lemma store_ok_link a m c :
  output_link m = Ok c →
  (a ∈ saved sh → c ∈ saved sh ∧ rank sh c < rank sh a ∧ origin sh c = origin sh a ∧ origin sh c ≠ c) →
  store_ok (P := P) sh (put_file (a, PutOutputs m) st).
Proof.
  intros Hm Hc. apply store_ok_put. intros Ha.
  unfold task_ok, has_output, linked. rewrite dir_put_same. destruct (dir_of a st) as [? ? ? ? out ? ?]. cbn.
  destruct out as [v|]; [by left|right; left]. exists c. split; [|by apply Hc]. split; [done|]. by exists m.
Qed.
End writes.

(** ** Saving a graph *)

(** A graph of tasks with options of the kind [P], whose output is not an input. *)
Record dag_ok (P : WorkflowTaskRuntimeOptions → Prop) (sub : WorkflowExecutionState) (o : TaskID)
    (rk0 : TaskID → Z) : Prop := {
  dag_output : output_task_id sub = Some o;
  dag_goal : is_Some (upstream_dependencies sub !! o);
  dag_ups t ups : upstream_dependencies sub !! t = Some ups →
    NoDup ups ∧ ∀ c, c ∈ ups → is_Some (upstream_dependencies sub !! c) ∧ c ≠ o ∧ rk0 c < rk0 t;
  dag_tasks t : is_Some (upstream_dependencies sub !! t) →
    (∃ task, tasks sub !! t = Some task ∧ P (options task)) ∧ is_Some (task_input_args sub !! t);
  dag_known t : is_Some (tasks sub !! t) → is_Some (upstream_dependencies sub !! t);
  dag_driver : upstream_dependencies sub !! ""%string = None
}.

Lemma sub_dag s sub o rk0 : sub_ok s sub o rk0 → dag_ok plain_opts sub o rk0.
Proof.
  intros [Ho Hg Hu Ht Hk _ Hf]. constructor; try done.
  destruct (upstream_dependencies sub !! ""%string) eqn:Hd; [|done].
  by destruct (Hf ""%string) as (_ & _ & ? & _); [by eexists|].
Qed.

Section saving.
Context {P : WorkflowTaskRuntimeOptions → Prop}.
Context (order : list (TaskID * Task) → list (TaskID * Task)) (sub : WorkflowExecutionState).
Context (o : TaskID) (rk0 : TaskID → Z).
Hypothesis Horder : ∀ l, order l ≡ₚ l.
Hypothesis Hsub : dag_ok P sub o rk0.

(** The files of a task. *)
Definition task_files (task : Task) (refs : list TaskID) (args : Z) : TaskDir :=
  mkDir (Some (mkInputs (task_name task) (options task) (user_metadata task) refs))
    (Some (user_metadata task)) (Some (func_body task)) (Some args) None None None.

(** Saving tasks that have no files yet. *)
Lemma save_tasks_ok ts :
  NoDup ts.*1 → (∀ t task, (t, task) ∈ ts → tasks sub !! t = Some task) →
  ∃ ws, save_tasks sub ts = (ws, Ok tt) ∧ (∀ a, a ∈ ws.*1 → a ∈ ts.*1) ∧
    ∀ st, (∀ t, t ∈ ts.*1 → st !! t = None) →
      ∀ t task, (t, task) ∈ ts → ∃ refs args, upstream_dependencies sub !! t = Some refs ∧
        task_input_args sub !! t = Some args ∧
        dir_of t (put_files ws st) = task_files task refs args ∧ is_Some (put_files ws st !! t).
Proof.
  induction ts as [|[t task] ts IH]; intros Hnd Hts.
  { exists []. split_and!; [done|done|]. by intros st _ t task []%not_elem_of_nil. }
  rewrite fmap_cons in Hnd. apply NoDup_cons in Hnd as [Hnt Hnd].
  destruct IH as (ws & Hsave & Hin & Hdirs); [done|intros t' task' ?; apply Hts; by right|].
  assert (tasks sub !! t = Some task) as Htask by (apply Hts; left).
  destruct (dag_known _ _ _ _ Hsub t) as [refs Hrefs]; [by eexists|].
  destruct (dag_tasks _ _ _ _ Hsub t) as [_ [args Hargs]]; [by eexists|].
  cbn [save_tasks]. unfold save_task. rewrite Hrefs, Hargs, Hsave. cbn [app].
  eexists. split; [reflexivity|]. split.
  { intros a. rewrite !fmap_cons, !elem_of_cons. cbn. intros [->|[->|[->|[->|?]]]]; auto. }
  intros st Hempty t' task'. rewrite elem_of_cons. intros Hcase.
  change (put_files (?a :: ?b :: ?c :: ?d :: ws) st) with (put_files ws (put_files [a; b; c; d] st)).
  set (st1 := put_files [_; _; _; _] st). destruct Hcase as [[= -> ->]|Hts'].
  - exists refs, args. assert (dir_of t st1 = task_files task refs args) as Hd.
    { subst st1. unfold put_files. cbn [fold_left]. rewrite !dir_put_same. unfold dir_of. by rewrite Hempty by left. }
    split_and!; [done|done| |].
    + rewrite dir_put_files; [done|]. by intros ?%Hin.
    + apply put_files_dom. subst st1. cbn. unfold put_file. cbn. by rewrite lookup_insert_eq.
  - apply Hdirs; [|done]. intros a Ha. assert (a ≠ t) as Hat by (intros ->; done).
    subst st1. cbn. unfold put_file. cbn. rewrite !lookup_insert_ne by done. apply Hempty. by right.
Qed.

(** All of it: the tasks, and then the link. *)
Lemma save_state_ok creator st :
  upstream_dependencies sub !! creator = None → (∀ t, is_Some (upstream_dependencies sub !! t) → st !! t = None) →
  ∃ ws, save_workflow_execution_state order creator sub =
      (ws ++ [(creator, PutOutputs (mkOutputs (Some o) None))], Ok tt) ∧
    (∀ a, a ∈ ws.*1 → is_Some (upstream_dependencies sub !! a)) ∧
    ∀ t refs, upstream_dependencies sub !! t = Some refs → ∃ task args,
      tasks sub !! t = Some task ∧ P (options task) ∧ task_input_args sub !! t = Some args ∧
      dir_of t (put_files ws st) = task_files task refs args ∧ is_Some (put_files ws st !! t).
Proof.
  intros Hcr Hempty. set (ts := order (map_to_list (tasks sub))).
  assert (∀ t task, (t, task) ∈ ts ↔ tasks sub !! t = Some task) as Hts.
  { intros t task. unfold ts. rewrite Horder. apply elem_of_map_to_list. }
  assert (∀ t, t ∈ ts.*1 ↔ is_Some (upstream_dependencies sub !! t)) as Hdom.
  { intros t. split.
    - intros ([t' task] & -> & Hin%Hts)%list_elem_of_fmap. apply (dag_known _ _ _ _ Hsub). by eexists.
    - intros Ht. destruct (dag_tasks _ _ _ _ Hsub t Ht) as [(task & Htask & _) _].
      apply list_elem_of_fmap. exists (t, task). split; [done|]. by apply Hts. }
  destruct (save_tasks_ok ts) as (ws & Hsave & Hin & Hdirs).
  - unfold ts. rewrite Horder. apply NoDup_fst_map_to_list.
  - intros t task. by apply Hts.
  - exists ws. split_and!.
    + unfold save_workflow_execution_state. fold ts. rewrite (dag_output _ _ _ _ Hsub), decide_False; [by rewrite Hsave|].
      intros [= ->]. destruct (dag_goal _ _ _ _ Hsub). congruence.
    + intros a Ha. by apply Hdom, Hin.
    + intros t refs Hrefs.
      destruct (dag_tasks _ _ _ _ Hsub t) as [(task & Htask & Hplain) _]; [by eexists|].
      destruct (Hdirs st) with (t := t) (task := task) as (refs' & args & Hrefs' & Hargs & Hd & Hs); [|by apply Hts|].
      { intros a Ha. apply Hempty. by apply Hdom. }
      exists task, args. split_and!; try done. by simplify_eq.
Qed.

Lemma task_files_inputs st t task refs args :
  dir_of t st = task_files task refs args → P (options task) → has_inputs (P := P) st t refs ∧ files_of st t task args.
Proof.
  intros Hd Hplain. unfold has_inputs, files_of. rewrite Hd. cbn. split; [|done].
  split_and!; [done..|by eexists|by eexists|]. by eexists.
Qed.
End saving.

(** ** The life of a storage *)

(** The new tasks of a continuation; its output goes on with the chain of its creator. *)
Definition continued_origin (creator o : TaskID) (new : gset TaskID) (org : TaskID → TaskID) (t : TaskID) : TaskID :=
  if decide (t ∈ new) then if decide (t = o) then org creator else t else org t.

(** The storages of a workflow of checkpointed tasks, from when it has been submitted: the tasks
    that are saved, and the first task of the chain of each.  Tasks save their outputs and
    exceptions; they save continuations, which a crash can interrupt after any write; the
    executor updates links. *)
Inductive stored : gset TaskID → (TaskID → TaskID) → gmap TaskID TaskDir → Prop :=
  | stored_start order sub o rk0 ws :
      (∀ l, order l ≡ₚ l) → sub_ok (empty_state None) sub o rk0 →
      save_workflow_execution_state order "" sub = (ws, Ok tt) →
      stored (dom (upstream_dependencies sub)) id (put_files ws ∅)
  | stored_output C org st t v exc :
      stored C org st → stored C org (put_files (save_task_output t v exc) st)
  | stored_interrupted C org st order sub o rk0 creator ws k :
      stored C org st → (∀ l, order l ≡ₚ l) → sub_ok (empty_state None) sub o rk0 →
      (∀ t, is_Some (upstream_dependencies sub !! t) → st !! t = None) → creator ∈ C →
      save_workflow_execution_state order creator sub = (ws, Ok tt) → (k < length ws)%nat →
      stored C org (put_files (take k ws) st)
  | stored_continued C org st order sub o rk0 creator ws :
      stored C org st → (∀ l, order l ≡ₚ l) → sub_ok (empty_state None) sub o rk0 →
      (∀ t, is_Some (upstream_dependencies sub !! t) → st !! t = None) → creator ∈ C →
      save_workflow_execution_state order creator sub = (ws, Ok tt) →
      stored (C ∪ dom (upstream_dependencies sub))
        (continued_origin creator o (dom (upstream_dependencies sub)) org) (put_files ws st)
  | stored_linked C org st latest :
      stored C org st → latest ∈ C → org latest ≠ latest →
      stored C org (put_files (update_continuation_output_link (org latest) latest st) st).

(** The invariant. *)
Definition resumable (C : gset TaskID) (org : TaskID → TaskID) (st : gmap TaskID TaskDir) : Prop :=
  ∃ rk o, store_ok (P := plain_opts) (mkShape C rk org) st ∧ get_entrypoint_task_id st = Ok o ∧ o ∈ C ∧ org o = o ∧ is_Some (st !! ""%string).

(** The entry point is in the files of the driver. *)
Lemma entrypoint_frame st st' o :
  outputs_json (dir_of ""%string st') = outputs_json (dir_of ""%string st) →
  get_entrypoint_task_id st = Ok o → get_entrypoint_task_id st' = Ok o.
Proof. intros Hd. unfold get_entrypoint_task_id, _locate_output_task_id. by rewrite Hd. Qed.

(** The tasks of a graph that has just been saved. *)
Lemma saved_graph_ok {P} sh order sub o rk0 creator st ws :
  (∀ l, order l ≡ₚ l) → dag_ok P sub o rk0 →
  upstream_dependencies sub !! creator = None →
  (∀ t, is_Some (upstream_dependencies sub !! t) → st !! t = None) →
  save_workflow_execution_state order creator sub = (ws, Ok tt) →
  (∀ t, is_Some (upstream_dependencies sub !! t) → t ∈ saved sh ∧ (t ≠ o → origin sh t = t)) →
  (∀ a b, is_Some (upstream_dependencies sub !! a) → is_Some (upstream_dependencies sub !! b) →
     rk0 a < rk0 b → rank sh a < rank sh b) →
  ∃ ws0, ws = ws0 ++ [(creator, PutOutputs (mkOutputs (Some o) None))] ∧
    (∀ a, a ∈ ws0.*1 → is_Some (upstream_dependencies sub !! a)) ∧
    ∀ t, is_Some (upstream_dependencies sub !! t) →
      task_ok (P := P) sh (put_files ws st) t ∧ is_Some (put_files ws st !! t) ∧ t ≠ ""%string.
Proof.
  intros Horder Hsub Hcr Hempty Hsave Hsaved Hrank.
  destruct (save_state_ok order sub o rk0 Horder Hsub creator st Hcr Hempty) as (ws0 & Hsave' & Hin & Hdirs).
  rewrite Hsave in Hsave'. injection Hsave' as ->. exists ws0. split_and!; [done..|].
  intros t [refs Ht]. destruct (Hdirs t refs Ht) as (task & args & _ & Hplain & _ & Hd & Hsome).
  destruct (task_files_inputs _ _ _ _ _ Hd Hplain) as [Hinputs _]. rewrite put_files_app. split_and!.
  - right. right. exists refs. split.
    + unfold has_inputs in *. assert (t ≠ creator) as Hne by congruence.
      by rewrite put_files_one, dir_put_other by done.
    + destruct (dag_ups _ _ _ _ Hsub t refs Ht) as [Hnd Hall]. split; [done|]. intros c Hc.
      destruct (Hall c Hc) as (Hcu & Hco & Hrk). destruct (Hsaved c Hcu) as [? Horg].
      split_and!; [done|by apply Horg|]. apply Hrank; [done|by eexists|done].
  - by apply put_files_dom.
  - intros ->. by rewrite (dag_driver _ _ _ _ Hsub) in Ht.
Qed.

(** The new tasks go below the saved ones. *)
Lemma extended_rank (C new : gset TaskID) (rk rk0 : TaskID → Z) :
  C ## new → ∃ rk',
    (∀ t, t ∈ C → rk' t = rk t) ∧ (∀ a b, a ∈ new → b ∈ new → rk0 a < rk0 b → rk' a < rk' b) ∧
    (∀ a b, a ∈ new → b ∈ C → rk' a < rk' b).
Proof.
  intros Hdisj. destruct (finite_bound rk0 new) as [b1 Hb1]. destruct (finite_bound (λ a, - rk a) C) as [b2 Hb2].
  exists (λ a, if decide (a ∈ new) then rk0 a - b1 - b2 - 1 else rk a). split_and!.
  - intros t Ht. rewrite decide_False; [done|]. set_solver.
  - intros a b Ha Hb. rewrite !decide_True by done. lia.
  - intros a b Ha Hb. rewrite decide_True, decide_False by (done || set_solver).
    specialize (Hb1 a Ha). specialize (Hb2 b Hb). cbn in Hb2. lia.
Qed.

Section starting.
Context {P : WorkflowTaskRuntimeOptions → Prop}.
Context (order : list (TaskID * Task) → list (TaskID * Task)) (sub : WorkflowExecutionState).
Context (o : TaskID) (rk0 : TaskID → Z) (ws : list (TaskID * task_write)).
Hypothesis Horder : ∀ l, order l ≡ₚ l.
Hypothesis Hsub : dag_ok P sub o rk0.
Hypothesis Hsave : save_workflow_execution_state order "" sub = (ws, Ok tt).
Let st := put_files ws ∅.

Lemma start_store_ok :
  store_ok (P := P) (mkShape (dom (upstream_dependencies sub)) rk0 id) st ∧ get_entrypoint_task_id st = Ok o ∧
  is_Some (st !! ""%string).
Proof.
  set (sh := mkShape (dom (upstream_dependencies sub)) rk0 id).
  destruct (saved_graph_ok (P := P) sh order sub o rk0 ""%string ∅ ws) as (ws0 & Hws & Hin & Hall); try done.
  { apply Hsub. }
  { intros t Ht. split; [by apply elem_of_dom|done]. }
  subst st. rewrite Hws, put_files_app, put_files_one in *. split_and!.
  - constructor; cbn; try done.
    + intros t Ht%elem_of_dom. destruct (Hall t Ht) as (? & _ & ?). done.
    + intros t Ht%elem_of_dom. by destruct (Hall t Ht) as (_ & ? & _).
  - unfold get_entrypoint_task_id, _locate_output_task_id. rewrite dir_put_same.
    by destruct (dir_of ""%string _).
  - unfold put_file. cbn. by rewrite lookup_insert_eq.
Qed.

(** The files of a task of the workflow. *)
Lemma start_files t refs :
  upstream_dependencies sub !! t = Some refs → ∃ task args,
    tasks sub !! t = Some task ∧ P (options task) ∧ task_input_args sub !! t = Some args ∧
    dir_of t st = task_files task refs args.
Proof.
  intros Ht. pose proof (dag_driver _ _ _ _ Hsub) as Hdrv.
  destruct (save_state_ok order sub o rk0 Horder Hsub ""%string ∅) as (ws0 & Hsave' & _ & Hdirs); [done..|].
  rewrite Hsave in Hsave'. injection Hsave' as Hws.
  destruct (Hdirs t refs Ht) as (task & args & ? & ? & ? & Hd & _). exists task, args. split_and!; try done.
  subst st. rewrite Hws, put_files_app, put_files_one, dir_put_other; [done|congruence].
Qed.
End starting.

Lemma start_resumable order sub o rk0 ws :
  (∀ l, order l ≡ₚ l) → dag_ok plain_opts sub o rk0 →
  save_workflow_execution_state order "" sub = (ws, Ok tt) →
  resumable (dom (upstream_dependencies sub)) id (put_files ws ∅).
Proof.
  intros Horder Hsub Hsave. destruct (start_store_ok order sub o rk0 ws Horder Hsub Hsave) as (? & ? & ?).
  exists rk0, o. split_and!; try done. apply elem_of_dom, Hsub.
Qed.

Lemma output_resumable C org st t v exc :
  resumable C org st → resumable C org (put_files (save_task_output t v exc) st).
Proof.
  intros (rk & o & Hst & He & Ho & Hoo & Hdrv). exists rk, o. split_and!; [| |done..|by apply put_files_dom].
  - destruct exc; [by apply store_ok_exception|by apply store_ok_output].
  - apply (entrypoint_frame st); [|done].
    destruct exc, (decide (""%string = t)) as [<-|]; unfold save_task_output; rewrite put_files_one;
      rewrite ?dir_put_same, ?dir_put_other by done; by destruct (dir_of ""%string st).
Qed.

Section continuing.
Context (C : gset TaskID) (org : TaskID → TaskID) (st : gmap TaskID TaskDir).
Context (order : list (TaskID * Task) → list (TaskID * Task)) (sub : WorkflowExecutionState).
Context (o : TaskID) (rk0 : TaskID → Z) (creator : TaskID) (ws : list (TaskID * task_write)).
Hypothesis Hres : resumable C org st.
Hypothesis Horder : ∀ l, order l ≡ₚ l.
Hypothesis Hsub : dag_ok plain_opts sub o rk0.
Hypothesis Hfresh : ∀ t, is_Some (upstream_dependencies sub !! t) → st !! t = None.
Hypothesis Hcreator : creator ∈ C.
Hypothesis Hsave : save_workflow_execution_state order creator sub = (ws, Ok tt).

Lemma old_saved t : t ∈ C ∨ t = ""%string → upstream_dependencies sub !! t = None ∧ is_Some (st !! t).
Proof.
  intros Ht. destruct Hres as (rk & o' & Hst & _ & _ & _ & Hdrv).
  assert (is_Some (st !! t)) as Hs by (destruct Ht as [Ht| ->]; [by apply (so_dom _ _ Hst)|done]).
  split; [|done]. destruct (upstream_dependencies sub !! t) eqn:Hu; [|done].
  rewrite Hfresh in Hs; [by destruct Hs|by eexists].
Qed.

Lemma interrupted_resumable k : (k < length ws)%nat → resumable C org (put_files (take k ws) st).
Proof.
  intros Hk. destruct (save_state_ok order sub o rk0 Horder Hsub creator st) as (ws0 & Hsave' & Hin & _);
    [by apply old_saved; left|done|]. rewrite Hsave in Hsave'. injection Hsave' as ->.
  rewrite length_app in Hk. cbn in Hk. rewrite take_app_le by lia.
  assert (∀ t, t ∈ C ∨ t = ""%string → dir_of t (put_files (take k ws0) st) = dir_of t st) as Hdir.
  { intros t Ht. apply dir_put_files. intros Htk. destruct (old_saved t Ht) as [Hn _].
    destruct (Hin t) as [? ?]; [|congruence]. apply list_elem_of_fmap in Htk as (p & -> & Hp).
    apply list_elem_of_fmap. exists p. split; [done|]. eapply subseteq_take, Hp. }
  destruct Hres as (rk & o' & Hst & He & Ho & Hoo & Hdrv). exists rk, o'. split_and!; [..|by apply put_files_dom]; try done.
  - apply (store_ok_frame _ st); [done|]. intros t Ht. cbn in Ht. split; [by apply Hdir; left|].
    apply put_files_dom. by apply old_saved; left.
  - apply (entrypoint_frame st); [|done]. by rewrite Hdir by by right.
Qed.

Lemma continued_resumable :
  resumable (C ∪ dom (upstream_dependencies sub))
    (continued_origin creator o (dom (upstream_dependencies sub)) org) (put_files ws st).
Proof.
  pose proof Hres as (rk & o' & Hst & He & Ho & Hoo & Hdrv). set (new := dom (upstream_dependencies sub)).
  assert (∀ t, t ∈ new ↔ is_Some (upstream_dependencies sub !! t)) as Hnew by (intros t; apply elem_of_dom).
  assert (∀ t, t ∈ C → t ∉ new) as Hdisj.
  { intros t Ht [ups Hu]%Hnew. destruct (old_saved t) as [? _]; [by left|congruence]. }
  destruct (extended_rank C new rk rk0) as (rk' & Hold & Hord & Hbelow); [set_solver|].
  set (org' := continued_origin creator o new org).
  assert (∀ t, t ∈ C → org' t = org t) as Hold_org
    by (intros t Ht; unfold org', continued_origin; by rewrite decide_False by auto).
  assert (∀ t, t ∈ new → org' t = if decide (t = o) then org creator else t) as Hnew_org
    by (intros t Ht; unfold org', continued_origin; by rewrite decide_True).
  assert (o ∈ new) as Honew by apply Hnew, Hsub.
  set (sh' := mkShape (C ∪ new) rk' org').
  destruct (saved_graph_ok (P := plain_opts) sh' order sub o rk0 creator st ws) as (ws0 & -> & Hin & Hall); try done.
  { by apply old_saved; left. }
  { intros t Ht%Hnew. cbn. split; [set_solver|]. intros Hne. rewrite Hnew_org by done. by rewrite decide_False. }
  { intros a b Ha%Hnew Hb%Hnew. by apply Hord. }
  assert (∀ t, t ∈ C ∨ t = ""%string → dir_of t (put_files ws0 st) = dir_of t st) as Hdir.
  { intros t Ht. apply dir_put_files. intros Htk%Hin. destruct (old_saved t Ht) as [? _]. destruct Htk. congruence. }
  assert (creator ≠ ""%string) as Hcr by (by apply (so_saved _ _ Hst creator)).
  assert (org creator ∈ C) as Hoc by by apply (so_origin_saved _ _ Hst creator).
  exists rk', o'. rewrite put_files_app, put_files_one in *. split_and!.
  - constructor.
    + intros t [Ht|Ht]%elem_of_union; [|by apply Hnew, Hall in Ht as (? & _ & ?)].
      destruct (so_saved _ _ Hst t Ht) as [? Hok]. split; [done|].
      assert (∀ c, c ∈ C → rk' c = rk c ∧ org' c = org c) as Hsame by auto.
      destruct (decide (t = creator)) as [->|Hne].
      * unfold task_ok, has_output, linked. rewrite dir_put_same, Hdir by by left.
        destruct (dir_of creator st) as [? ? ? ? out ? ?]. cbn. destruct out as [v|]; [by left|right; left].
        exists o. split; [split; [done|by eexists]|]. cbn. rewrite Hnew_org, decide_True, Hold_org by done.
        split_and!; [set_solver|by apply Hbelow|done|]. intros Heq. apply (Hdisj (org creator)); [done|].
        by rewrite Heq.
      * eapply task_ok_dir; [rewrite dir_put_other by done; apply Hdir; by left|].
        destruct Hok as [?|[(c & Hlk & Hc & Hr & Ho1 & Ho2)|(refs & Hi & Hnd & Hrefs)]]; cbn in *.
        -- by left.
        -- right. left. exists c. cbn. destruct (Hsame c Hc) as [-> ->], (Hsame t Ht) as [-> ->].
           split_and!; try done. by apply elem_of_union_l.
        -- right. right. exists refs. split_and!; [done..|]. intros c Hc. destruct (Hrefs c Hc) as (HcC & ? & ?).
           cbn. destruct (Hsame c HcC) as [-> ->], (Hsame t Ht) as [-> _]. split_and!; try done.
           by apply elem_of_union_l.
    + intros t [Ht|Ht]%elem_of_union; cbn.
      * destruct (so_origin _ _ Hst t Ht) as [Hidem Hrk]. cbn in *.
        assert (org t ∈ C) as Hot by by apply (so_origin_saved _ _ Hst t).
        by rewrite (Hold_org t Ht), (Hold_org _ Hot), (Hold t Ht), (Hold _ Hot).
      * rewrite (Hnew_org t Ht). destruct (decide (t = o)) as [->|].
        -- rewrite (Hold_org _ Hoc). destruct (so_origin _ _ Hst creator Hcreator) as [Hidem _]. split; [done|].
           intros _. by apply Hbelow.
        -- rewrite (Hnew_org t Ht). by rewrite decide_False.
    + intros t [Ht|Ht]%elem_of_union; cbn.
      * rewrite Hold_org by done. apply elem_of_union_l. by apply (so_origin_saved _ _ Hst t).
      * rewrite Hnew_org by done. destruct (decide (t = o)); set_solver.
    + intros t [Ht|Ht]%elem_of_union; [|by apply Hnew, Hall in Ht as (_ & ? & _)].
      apply (put_files_dom t [_]), put_files_dom. by apply old_saved; left.
  - apply (entrypoint_frame st); [|done]. by rewrite dir_put_other, Hdir by (done || by right).
  - set_solver.
  - by rewrite Hold_org.
  - by apply (put_files_dom _ [_]), put_files_dom.
Qed.
End continuing.

Lemma linked_resumable C org st latest :
  resumable C org st → latest ∈ C → org latest ≠ latest →
  resumable C org (put_files (update_continuation_output_link (org latest) latest st) st).
Proof.
  intros (rk & o & Hst & He & Ho & Hoo & Hdrv) Hl Hne. exists rk, o.
  destruct (so_saved _ _ Hst latest Hl) as [Hle _]. destruct (so_origin _ _ Hst latest Hl) as [Hidem Hrk].
  pose proof (so_origin_saved _ _ Hst latest Hl) as Hr. destruct (so_saved _ _ Hst _ Hr) as [Hre _]. cbn in *.
  unfold update_continuation_output_link. destruct (_ && _); [|done]. rewrite put_files_one.
  split_and!; [| |done..|by apply (put_files_dom _ [_])].
  - apply (store_ok_link _ _ Hst _ _ latest); cbn; [unfold output_link; cbn; by rewrite decide_False|].
    intros _. split_and!; [done|by apply Hrk|done|done].
  - apply (entrypoint_frame st); [|done]. by rewrite dir_put_other by done.
Qed.

Lemma stored_resumable C org st : stored C org st → resumable C org st.
Proof.
  induction 1; [|by apply output_resumable| | |by apply linked_resumable].
  - eapply start_resumable; [done|by eapply sub_dag|done].
  - eapply interrupted_resumable; try done. by eapply sub_dag.
  - eapply continued_resumable; try done. by eapply sub_dag.
Qed.

(** C34: A workflow can be resumed at any time, if each of its files is written at
    once. The workflow and its continuations are graphs of FUNCTION tasks that
    checkpoint their outputs and do not catch exceptions, and the ids of the tasks of
    a continuation are new to the storage: whatever outputs, exceptions and
    continuations have been saved and links updated since it was submitted, and
    between whichever two writes of a continuation a crash came, recovery succeeds,
    gives a state that the executor can run, and does not run a task again whose
    output is saved. *)
Theorem resume_after_crash C org st :
  stored C org st →
  ∃ rk s, resume_workflow_task None st = Ok s ∧ initial_ok rk s ∧
    ∀ t, is_Some (output_pkl (dir_of t st)) → tasks s !! t = None.
Proof.
  intros (rk & o & Hst & He & Ho & Hoo & _)%stored_resumable.
  destruct (recovery_ok _ _ o (λ _ H, H) Hst He Ho Hoo) as (s & Hrun & Hinit & _ & Hdone). exists rk, s.
  unfold resume_workflow_task. rewrite Hrun. by split_and!.
Qed.


(** ** The diamond, resumed *)

Definition diamond_writes : list (TaskID * task_write) := (save_workflow_execution_state id "" diamond_state).1.

Lemma diamond_saved : save_workflow_execution_state id "" diamond_state = (diamond_writes, Ok tt).
Proof. vm_compute. reflexivity. Qed.

(** Its first task is done. *)
Definition diamond_storage : gmap TaskID TaskDir :=
  put_files (save_task_output "a" 7 None) (put_files diamond_writes ∅).

Lemma resume_after_crash_witness :
  ∃ rk s, resume_workflow_task None diamond_storage = Ok s ∧ initial_ok rk s ∧ tasks s !! "a"%string = None.
Proof.
  destruct diamond_sub as (o & rk0 & Hsub).
  destruct (resume_after_crash (dom (upstream_dependencies diamond_state)) id diamond_storage)
    as (rk & s & Hrun & Hinit & Hdone).
  - apply stored_output. eapply (stored_start id); [by intros l|exact Hsub|apply diamond_saved].
  - exists rk, s. split; [exact Hrun|split; [exact Hinit|]]. apply Hdone. unfold diamond_storage, save_task_output.
    rewrite put_files_one, dir_put_same. destruct (dir_of _ _). by eexists.
Defined.

(** A chain of two tasks: one that catches exceptions and does not checkpoint, and one that
    waits for events and is retried. *)
Definition mixed_state : WorkflowExecutionState :=
  set_tasks {["p"%string := mkTask "p" (mkOptions FUNCTION true false 0 false) 0 1;
              "q"%string := mkTask "q" (mkOptions WAIT false true 5 true) 0 2]}
    (set_task_input_args {["p"%string := 10; "q"%string := 20]}
      (add_dependencies "q" ["p"%string] (add_dependencies "p" [] (empty_state (Some "q"%string))))).

Definition mixed_writes : list (TaskID * task_write) := (save_workflow_execution_state id "" mixed_state).1.

Lemma mixed_dag : dag_ok (λ _, True) mixed_state "q" (λ t, if decide (t = "q"%string) then 1 else 0).
Proof.
  assert (upstream_dependencies mixed_state = {["q" := ["p"]; "p" := []]}%string) as Hu by (vm_compute; reflexivity).
  assert (∀ t, is_Some (upstream_dependencies mixed_state !! t) → t = "p"%string ∨ t = "q"%string) as Hdom.
  { intros t. rewrite Hu, lookup_insert_is_Some', lookup_singleton_is_Some. intros [<-|<-]; auto. }
  constructor.
  - vm_compute. reflexivity.
  - vm_compute. eauto.
  - intros t ups Ht. destruct (Hdom t) as [->| ->]; [by eexists|..]; vm_compute in Ht; injection Ht as <-.
    + split; [constructor|by intros c []%not_elem_of_nil].
    + split; [apply NoDup_singleton|]. intros c ->%list_elem_of_singleton. split_and!; [vm_compute; eauto|done|done].
  - intros t Ht. destruct (Hdom t Ht) as [->| ->]; (split; [eexists; split; [vm_compute; reflexivity|done]|vm_compute; eauto]).
  - intros t [task Ht]. unfold mixed_state in Ht. cbn in Ht.
    rewrite lookup_insert_Some, lookup_singleton_Some in Ht.
    destruct Ht as [[<- _]|[_ [<- _]]]; vm_compute; eauto.
  - vm_compute. reflexivity.
Qed.


(** ** A task that does not checkpoint

    [r] does not checkpoint and returns a continuation [c], which does. *)
Definition unchecked_root : WorkflowExecutionState :=
  set_tasks {["r"%string := mkTask "r" (mkOptions FUNCTION false false 3 false) 0 0]}
    (set_task_input_args {["r"%string := 0]} (add_dependencies "r" [] (empty_state (Some "r"%string)))).

Definition checked_continuation : WorkflowExecutionState :=
  set_tasks {["c"%string := mkTask "c" (mkOptions FUNCTION false false 3 true) 0 0]}
    (set_task_input_args {["c"%string := 0]} (add_dependencies "c" [] (empty_state (Some "c"%string)))).

Definition unchecked_storage : gmap TaskID TaskDir :=
  put_files (save_workflow_execution_state id "" unchecked_root).1 ∅.

(** The workflow can be resumed after it was submitted.  The continuation is not saved, because [r]
    does not checkpoint; but the submission of [c] links [r] to it, and from then until [c] has
    its output the workflow cannot be resumed. *)
Example unchecked_link_breaks_recovery :
  is_Some (match resume_workflow_task None unchecked_storage with Ok s => Some s | Err _ => None end) ∧
  save_result id id "r" (mkOptions FUNCTION false false 3 false) (ReturnsDag checked_continuation) = ([], Ok tt) ∧
  resume_workflow_task None
    (put_files (update_continuation_output_link "r" "c" unchecked_storage) unchecked_storage) =
    Err WorkflowNotResumableError.
Proof. split_and!; [by eexists|reflexivity|vm_compute; reflexivity]. Qed.
