(* ===== verification/WorkflowRunProofs.v ===== *)
(** * Runs of a workflow

    The theorems about whole runs of the executor's machine: what it submits has its
    inputs, it fails only as it means to, it waits only for tasks that run, and it
    succeeds only with the output.  And the runs where checkpoints are off or
    exceptions are caught, and it does not. *)
From S2P Require Import Prelude WorkflowIndex WorkflowState WorkflowExecutor WorkflowPlan WorkflowStateProofs WorkflowExecutorProofs WorkflowStatusProofs WorkflowDag WorkflowDagProofs.
From stdpp Require Import base tactics list gmap strings sets.
From Stdlib Require Import QArith.

#[local] Open Scope Z_scope.

(** ** Reachable machines *)

(** A set is iterated in some order; a continuation is a graph of new tasks. *)
Definition event_ok (m : machine) (e : event) : Prop :=
  match e with
  | Handles order _ => ∀ l, order l ≡ₚ l
  | Continues _ _ (Ok sub) => ∃ o rk0, sub_ok (_state (executor m)) sub o rk0
  | _ => True
  end.

Inductive reach (context : WorkflowTaskContext) (s0 : WorkflowExecutionState) : machine → Prop :=
  | reach_start : reach context s0 (start context s0)
  | reach_step m e m' : reach context s0 m → event_ok m e → step m e = Some m' → reach context s0 m'.

(** ** The invariant of the machine *)

Definition suspended_in (p : phase) : list TaskID :=
  match p with Handling _ susp => susp | _ => [] end.

Definition submitted_ok (x : WorkflowExecutor) : Prop :=
  ∀ t args refs, Submitted t args refs ∈ actions x → Forall is_Some refs.

(** The status that goes with an exception of the executor. *)
Definition error_status (e : exn) : option WorkflowStatus :=
  if decide (e = WorkflowExecutionError) then Some FAILED
  else if decide (e = WorkflowCancellationError) then Some CANCELED
  else None.

(** The workflow was reported as RUNNING, then with the status of the exception that ends
    it; the handlers that went on can only have reported other failures after that. *)
Definition meant_end (x : WorkflowExecutor) (e : exn) : Prop :=
  ∃ st rest, error_status e = Some st ∧ statuses (actions x) = RUNNING :: st :: rest ∧ Forall ending rest.

Definition machine_ok (out : option TaskID) (m : machine) : Prop :=
  let x := executor m in
  match at_phase m with
  | Aborted _ _ e => meant_end x e
  | Finished => submitted_ok x ∧ statuses (actions x) = [RUNNING; SUCCESSFUL] ∧
      ∃ o, out = Some o ∧ avail (_state x) o
  | p => NoDup (unhandled m).*1 ∧
      (p = Awaiting → running_frontier_set (_state x) ≠ ∅) ∧
      statuses (actions x) = [RUNNING] ∧
      ∃ rk, exec_ok out (unhandled m).*1 rk (suspended_in p) x
  end.

(** A handler raises after it has set the status. *)
Lemma calm_meant {A} (f : E A) x x' e :
  calm f → statuses (actions x) = [RUNNING] → f x = (x', Err e) → meant_error x' e → meant_end x' e.
Proof.
  intros Hf Hs Hrun He. destruct (Hf x) as (l & Hl & _ & Hone). rewrite Hrun in Hl. cbn in Hl.
  assert (∃ st, error_status e = Some st ∧ st ≠ RUNNING ∧ st ∈ statuses (actions x')) as (st & Hst & Hne & Hin).
  { destruct He as [[-> Hlast]|[-> Hlast]]; apply last_Some in Hlast as (l' & ->);
      rewrite statuses_app; eexists; split_and!; try done; apply elem_of_app; right; left. }
  exists st, []. split_and!; [done| |constructor]. rewrite Hl, statuses_app, Hs in *. cbn in *.
  apply elem_of_cons in Hin as [->|Hin]; [done|].
  destruct Hone as [Hnil|(st' & Hst' & _)]; [rewrite Hnil in Hin; by apply not_elem_of_nil in Hin|].
  rewrite Hst' in *. by apply list_elem_of_singleton in Hin as ->.
Qed.

(** Those that go on after an exception keep that. *)
Lemma calm_keeps_meant {A} (f : E A) x e : calm f → meant_end x e → meant_end (f x).1 e.
Proof.
  intros Hf (st & rest & He & Hs & Hrest). destruct (Hf x) as (l & Hl & _ & Hone).
  exists st, (rest ++ statuses l). rewrite Hl, statuses_app, Hs. split_and!; [done..|].
  apply Forall_app. split; [done|by apply at_most_one_ending].
Qed.

Lemma calm_running {A} (f : E A) x x' a :
  calm f → statuses (actions x) = [RUNNING] → f x = (x', Ok a) → statuses (actions x') = [RUNNING].
Proof.
  intros Hf Hs Hrun. destruct (Hf x) as (l & Hl & Hq & _). rewrite Hrun in *. cbn in *.
  rewrite Hl, statuses_app, Hs, no_statuses; [done|]. apply Hq. by eexists.
Qed.

(** The invariant of the executor sees sets of handled tasks and futures only. *)
Lemma exec_ok_perm out futs futs' rk susp susp' x :
  exec_ok out futs rk susp x → susp ≡ₚ susp' → (∀ f, f ∈ futs' → f ∈ futs) →
  exec_ok out futs' rk susp' x.
Proof.
  intros [[Hg Hs Hnd Hctx Hdrv Hrun Hinj Hmd Hfr Hdn Hgl] Hout Hn Hu Hf Hcb Hdj Hsb] Hp Hfuts.
  assert (∀ s t, active susp' s t ↔ active susp s t) as Hact
    by (intros s t; unfold active; by rewrite Hp).
  constructor; try done; [|auto]. constructor; try done; [|by rewrite <- Hp].
  constructor; try apply Hs.
  - intros t Ht%Hact. by apply (p_active _ _ _ Hs).
  - intros t H1 H2 H3. destruct (p_progress _ _ _ Hs t H1 H2 H3) as [?|]; [left; by apply Hact|by right].
  - intros t Ht. apply (p_susp _ _ _ Hs). by rewrite Hp.
Qed.

(** ** Progress *)

(** Whose output a task waits for: that of an input, or of its continuation. *)
Definition waits_for (s : WorkflowExecutionState) (t c : TaskID) : Prop :=
  (∃ p, pending_input_set s !! t = Some p ∧ c ∈ p) ∨ latest_continuation s !! t = Some c.

(** A planned task without its output is active, or waits for one that is, by a chain of
    tasks of lower and lower rank. *)
Section progress.
Context (out : option TaskID) (futs : list Future) (rk : TaskID → Z) (susp : list TaskID).
Context (x : WorkflowExecutor).
Hypothesis Hx : exec_ok out futs rk susp x.
Let s := _state x.

Lemma waits_for_active n t p :
  (rank_depth rk s t ≤ n)%nat → pending_input_set s !! t = Some p →
  ¬ avail s (root_of t s) → is_latest s t →
  ∃ a, rtc (waits_for s) t a ∧ active susp s a.
Proof.
  assert (state_ok rk susp s) as Hst by apply Hx. pose proof (s_sched _ _ _ Hst) as Hs.
  pose proof (s_graph _ _ _ Hst) as Hg. revert t p.
  induction n as [|n IH]; intros t p Hn Hp Hav Hl;
    destruct (p_known _ _ _ Hs t p Hp) as [[ups Hups] Hpk].
  { apply Nat.le_0_r in Hn. unfold rank_depth in Hn. apply size_empty_inv in Hn.
    destruct (not_elem_of_empty (C := gset TaskID) t). rewrite <- Hn. apply elem_of_filter.
    split; [|apply elem_of_dom; by exists ups]. apply Z.le_refl. }
  assert (∀ c, rk c < rk t → (rank_depth rk s c ≤ n)%nat) as Hlower.
  { intros c Hc. pose proof (rank_depth_lt rk s c t ltac:(by exists ups) Hc). lia. }
  assert (∀ c, waits_for s t c → (∃ a, rtc (waits_for s) c a ∧ active susp s a) →
    ∃ a, rtc (waits_for s) t a ∧ active susp s a) as Hstep.
  { intros c Hc (a & Hca & Ha). exists a. split; [by eapply rtc_l|done]. }
  destruct (decide (p = ∅)) as [->|Hne].
  - destruct (p_progress _ _ _ Hs t Hp Hav Hl) as [Ha|(c & HL & [[pc Hpc]|[]%not_elem_of_nil])]; [by exists t|].
    destruct (g_latest _ _ Hg t c HL) as (_ & Hcr & _ & Hor).
    destruct (g_root _ _ Hg c t Hcr) as (Htr & _). unfold root_of in Hav. rewrite Htr in Hav.
    destruct Hor as [?|[_ Hlt]]; [done|]. apply (Hstep c); [by right|].
    eapply (IH c pc); [by apply Hlower|done|..]; unfold root_of, is_latest; rewrite Hcr; cbn.
    + done.
    + by intros r [= <-].
  - destruct (set_choose_L p Hne) as [c Hc]. pose proof Hc as [Hneed Hna]%Hpk.
    destruct (p_refs _ _ _ Hs t p c Hp Hc) as [_ [[pc Hpc]|[]%not_elem_of_nil]].
    destruct Hneed as (ups' & Hups' & Hin). destruct (g_ups _ _ Hg t ups' Hups') as [_ Hall].
    destruct (Hall c Hin) as [|(_ & Hcr & Hlt)]; [done|]. apply (Hstep c); [left; by exists p|].
    eapply (IH c pc); [by apply Hlower|done|..]; unfold root_of, is_latest; by rewrite Hcr.
Qed.

(** The output task has its output or is planned. *)
Lemma output_planned o : out = Some o →
  avail s o ∨ is_Some (pending_input_set s !! o) ∧ continuation_root s !! o = None.
Proof.
  intros Ho. apply (s_goal _ _ _ (x_state _ _ _ _ _ Hx)). unfold s. by rewrite (x_output _ _ _ _ _ Hx).
Qed.

Lemma planned_progress t :
  is_Some (pending_input_set s !! t) → continuation_root s !! t = None → ¬ avail s t →
  ∃ a, rtc (waits_for s) t a ∧ active susp s a.
Proof.
  intros [p Hp] Hr Hav. eapply waits_for_active; [reflexivity|exact Hp|..];
    unfold root_of, is_latest; by rewrite Hr.
Qed.
End progress.

(** When nothing runs, nothing is missing. *)
Section idle.
Context (out : option TaskID) (futs : list Future) (rk : TaskID → Z) (x : WorkflowExecutor).
Hypothesis Hx : exec_ok out futs rk [] x.
Hypothesis Hidle : is_running x = false.

Lemma idle_inactive t : ¬ active [] (_state x) t.
Proof.
  apply orb_false_iff in Hidle as [HF HR]. apply bool_decide_eq_false in HF, HR.
  intros [Ht|[Ht|[]%not_elem_of_nil]].
  - destruct HF. intros Hnil. rewrite Hnil in Ht. by apply not_elem_of_nil in Ht.
  - apply (s_running _ _ _ (x_state _ _ _ _ _ Hx)) in Ht as (fut & ref & Hf & _).
    destruct HR. intros Hemp. by rewrite Hemp, lookup_empty in Hf.
Qed.

Lemma idle_has_output o : out = Some o → avail (_state x) o.
Proof.
  intros Ho. destruct (output_planned _ _ _ _ _ Hx o Ho) as [?|[Hp Hr]]; [done|].
  apply dec_stable. intros Hav. destruct (planned_progress _ _ _ _ _ Hx o Hp Hr Hav) as (a & _ & Ha).
  by eapply idle_inactive.
Qed.
End idle.

(** ** The steps *)

(** A request of an output returns and leaves the state and the actions alone. *)
Lemma get_task_output_total t x :
  ∃ x' fut, get_task_output_async t x = (x', Ok fut) ∧ _state x' = _state x ∧ actions x' = actions x.
Proof.
  unfold get_task_output_async, callbacks_of, fresh_name, get_state, st_gets, st_get, st_modify,
    mbind, st_bind, mret, st_ret. cbn.
  destruct (default [] (_task_done_callbacks x !! t)) as [|fut futs]; [|by eauto]. cbn.
  destruct (get_input _ _) as [r|].
  - unfold fut_set, mbind, st_bind, st_get, st_modify, fut_done. cbn. rewrite lookup_insert_eq. by eauto.
  - case_decide; [|by eauto].
    unfold fut_set, mbind, st_bind, st_get, st_modify, fut_done. cbn. rewrite lookup_insert_eq. by eauto.
Qed.

Section steps.
Context (out : option TaskID).
Hypothesis Hout : is_Some out.

Lemma turn_ok now m m' : machine_ok out m → step m (RunsTurn now) = Some m' → machine_ok out m'.
Proof.
  intros Hm Hstep. destruct m as [x q ph]. destruct ph; try done. injection Hstep as <-. cbn in *.
  destruct Hm as (Hnd & _ & Hs & rk & Hx). destruct (is_running x) eqn:Hrun.
  - destruct (submit_round_ok _ _ rk [] now x Hx) as (x' & [] & Hr & Hx' & Hin).
    pose proof (calm_running _ _ _ _ (silent_calm _ (submit_round_silent now)) Hs Hr) as Hs'. rewrite Hr. cbn.
    split_and!; [done| |done|by exists rk]. intros _ Hemp.
    assert (∃ t, t ∈ running_frontier_set (_state x) ∨ t ∈ frontier_to_run (_state x)) as [t Ht].
    { unfold is_running in Hrun. apply orb_true_iff in Hrun as [HF|HR].
      - apply bool_decide_eq_true in HF. destruct (frontier_to_run (_state x)) as [|t F]; [done|].
        exists t. right. left.
      - apply bool_decide_eq_true in HR. apply map_choose in HR as (f & ref & Hf).
        exists (wr_task_id ref). left. apply (s_running _ _ _ (x_state _ _ _ _ _ Hx)). eauto. }
    apply Hin in Ht. rewrite Hemp in Ht. by apply not_elem_of_empty in Ht.
  - cbn. split_and!.
    + intros t args refs Hin. change (Submitted t args refs ∈ actions x ++ [SetStatus SUCCESSFUL]) in Hin.
      apply elem_of_app in Hin as [?|?%list_elem_of_singleton]; [by eapply (x_submitted _ _ _ _ _ Hx)|done].
    + change (statuses (actions x ++ [SetStatus SUCCESSFUL]) = [RUNNING; SUCCESSFUL]).
      by rewrite statuses_app, Hs.
    + destruct Hout as [o Ho]. exists o. split; [done|].
      change (avail (_state x) o). by eapply idle_has_output; [exact Hx|..].
Qed.

Lemma handles_ok order now m m' :
  machine_ok out m → event_ok m (Handles order now) → step m (Handles order now) = Some m' →
  machine_ok out m'.
Proof.
  intros Hm Hev Hstep. destruct m as [x q ph].
  destruct ph as [| |[|[fut o] ready] susp| |[|[fut o] ready] susp ex]; try done; injection Hstep as <-.
  - destruct Hm as (Hnd & _ & Hs & rk & Hx). unfold unhandled in *. cbn in Hnd, Hx, Hs.
    apply NoDup_cons in Hnd as [Hnew Hnd].
    assert (exec_ok out ((ready ++ q).*1) rk susp x) as Hx0
      by (eapply exec_ok_perm; [exact Hx|done|by right]).
    pose proof (handle_ready_task_calm order now fut o) as Hcalm.
    destruct (handle_ready_task_ok out _ rk order now fut o susp x Hev Hx0 Hnew) as
      [(x' & t & Hrun & Hx')|(x' & e & Hrun & He)]; [apply (x_unhandled _ _ _ _ _ Hx); left| |].
    + pose proof (calm_running _ _ _ _ Hcalm Hs Hrun) as Hs'. rewrite Hrun.
      cbn. split_and!; [done..|]. exists rk. eapply exec_ok_perm; [exact Hx'| |done].
      destruct t as [t|]; cbn; [by rewrite Permutation_app_comm|by rewrite app_nil_r].
    + pose proof (calm_meant _ _ _ _ Hcalm Hs Hrun He). by rewrite Hrun.
  - assert (meant_end (_handle_ready_task order now fut o x).1 ex) as Hend
      by (apply calm_keeps_meant; [apply handle_ready_task_calm|exact Hm]).
    unfold machine_ok, handled. cbn. by destruct (_handle_ready_task order now fut o x) as [x' [t|e]].
Qed.

Lemma continues_ok order t sub m m' :
  machine_ok out m → event_ok m (Continues order t sub) → step m (Continues order t sub) = Some m' →
  machine_ok out m'.
Proof.
  intros Hm Hev Hstep. destruct m as [x q ph].
  destruct ph as [| |ready susp| |ready susp ex]; try done; cbn in Hstep; (case_decide as Ht; [|done]);
    injection Hstep as <-.
  - destruct Hm as (Hnd & _ & Hs & rk & Hx).
    assert (susp ≡ₚ t :: filter (λ t', t' ≠ t) susp) as Hperm.
    { pose proof (s_susp_nodup _ _ _ (x_state _ _ _ _ _ Hx)) as Hn. apply NoDup_Permutation; [done| |].
      - apply NoDup_cons. split; [|by apply NoDup_filter]. rewrite list_elem_of_filter. tauto.
      - intros a. rewrite elem_of_cons, list_elem_of_filter. destruct (decide (a = t)) as [->|]; tauto. }
    pose proof (handle_continuation_calm order t sub) as Hcalm.
    destruct (handle_continuation_ok out (ready ++ q).*1 rk order (filter (λ t', t' ≠ t) susp) t sub x) as [rk' Hrun];
      [by eapply exec_ok_perm; [exact Hx|done|]|intros sub' ->; exact Hev|].
    destruct Hrun as [(x' & [] & Hrun & Hx')|(x' & e & Hrun & He)].
    + pose proof (calm_running _ _ _ _ Hcalm Hs Hrun) as Hs'. rewrite Hrun.
      cbn. rewrite app_nil_r. split_and!; [done..|]. by exists rk'.
    + pose proof (calm_meant _ _ _ _ Hcalm Hs Hrun He). by rewrite Hrun.
  - assert (meant_end (handle_continuation order t sub x).1 ex) as Hend
      by (apply calm_keeps_meant; [apply handle_continuation_calm|exact Hm]).
    unfold machine_ok, handled. cbn. by destruct (handle_continuation order t sub x) as [x' [[]|e]].
Qed.

Lemma asks_ok t m m' : machine_ok out m → step m (AsksOutput t) = Some m' → machine_ok out m'.
Proof.
  intros Hm Hstep. destruct m as [x q ph].
  destruct (get_task_output_total t x) as (x1 & fut & Hrun & Hs & Ha).
  assert (∀ futs rk susp, exec_ok out futs rk susp x → exec_ok out futs rk susp x1) as Hkeep.
  { intros futs rk susp Hx. destruct (get_task_output_async_ok out futs rk susp t x Hx) as (x2 & f2 & H2 & Hx2).
    rewrite Hrun in H2. by injection H2 as -> _. }
  injection Hstep as <-. unfold machine_ok, submitted_ok, meant_end in *. rewrite Hrun.
  destruct ph as [| |ready susp| |]; cbn in *; rewrite ?Hs, ?Ha; try done; destruct Hm as (Hnd & Hr & Hst & rk & Hx);
    (split_and!; [done..|]); exists rk; by apply Hkeep.
Qed.

(** Completions and cancellations queue futures. *)
Lemma queue_ok x q q' ph :
  machine_ok out (mkMachine x q ph) → terminated (mkMachine x q ph) = false →
  NoDup (unhandled (mkMachine x (q ++ q') ph)).*1 →
  (∀ f, f ∈ q'.*1 → is_Some (running_frontier (_state x) !! f)) →
  ∀ acts, (∀ a, a ∈ acts → ∃ r, a = RayCancel r) →
  machine_ok out (mkMachine (set_actions (actions x ++ acts) x) (q ++ q') ph).
Proof.
  intros Hm Hterm Hnd Hq acts Hacts.
  assert (∀ rk susp, exec_ok out (unhandled (mkMachine x q ph)).*1 rk susp x →
    exec_ok out (unhandled (mkMachine x (q ++ q') ph)).*1 rk susp (set_actions (actions x ++ acts) x)) as Hkeep.
  { intros rk susp [Hst Ho Hn Hu Hf Hcb Hdj Hsb]. constructor; try done; cbn.
    - intros f. unfold unhandled. cbn. rewrite (assoc_L (++)), fmap_app, elem_of_app. intros [?|?]; auto.
    - intros t args refs [?|Hin]%elem_of_app; [by eapply Hsb|].
      destruct (Hacts _ Hin) as [r ?]. done. }
  assert (statuses (actions x ++ acts) = statuses (actions x)) as Hst.
  { rewrite statuses_app, (no_statuses acts), app_nil_r; [done|]. apply Forall_forall.
    intros a Ha. by destruct (Hacts a Ha) as [r ->]. }
  destruct ph; try done; destruct Hm as (_ & Hr & Hs & rk & Hx); (split_and!; [done|done|exact (eq_trans Hst Hs)|]);
    exists rk; by apply Hkeep.
Qed.

Lemma completes_ok fut o m m' : machine_ok out m → step m (Completes fut o) = Some m' → machine_ok out m'.
Proof.
  intros Hm Hstep. destruct m as [x q ph]. cbn [step executor] in Hstep.
  case_decide as Hc; [|done]. destruct Hc as [Hrun Hnew].
  destruct (terminated _) eqn:Ht; [done|]. injection Hstep as <-.
  pose proof (queue_ok x q [(fut, o)] ph Hm Ht) as Hq. specialize (Hq ltac:(
    revert Hnew Hm Ht; destruct ph; intros Hnew Hm Ht; try done; destruct Hm as (Hnd & _);
    unfold unhandled in *; cbn in *; rewrite (assoc_L (++)) || idtac; rewrite ?fmap_app in *;
    apply NoDup_app; (split_and!; [done| |apply NoDup_singleton]); by intros f Hf ->%list_elem_of_singleton)).
  specialize (Hq ltac:(by intros f ->%list_elem_of_singleton) [] ltac:(by intros a []%not_elem_of_nil)).
  rewrite app_nil_r in Hq. by destruct x.
Qed.

Lemma cancels_ok m m' : machine_ok out m → step m Cancels = Some m' → machine_ok out m'.
Proof.
  intros Hm Hstep. destruct m as [x q ph]. unfold step in Hstep. cbn [at_phase] in Hstep.
  destruct (terminated _) eqn:Ht; [done|]. injection Hstep as <-. unfold WorkflowExecutor.cancel.
  cbv zeta. cbn [executor _completion_queue at_phase].
  set (running := map_to_list (running_frontier (_state x))).
  set (fs := filter (λ p, p.1 ∉ (unhandled (mkMachine x q ph)).*1) running).
  assert (((λ p : Future * WorkflowRef, (p.1, Cancelled)) <$> fs).*1 = fs.*1) as Hfs
    by (rewrite <- list_fmap_compose; by apply list_fmap_ext).
  assert (∀ f, f ∈ fs.*1 → is_Some (running_frontier (_state x) !! f) ∧ f ∉ (unhandled (mkMachine x q ph)).*1) as Hin.
  { intros f ([f' r] & -> & [Hn Hin]%list_elem_of_filter)%list_elem_of_fmap. cbn in *.
    apply elem_of_map_to_list in Hin. by eauto. }
  assert (NoDup fs.*1) as Hnd.
  { eapply sublist_NoDup; [apply (NoDup_fst_map_to_list (running_frontier (_state x)))|].
    apply fmap_sublist, sublist_filter. }
  apply queue_ok; try done.
  - assert (∀ q', (unhandled (mkMachine x (q ++ q') ph)).*1 = (unhandled (mkMachine x q ph)).*1 ++ q'.*1) as ->
      by (intros q'; unfold unhandled; cbn; by rewrite (assoc_L (++)), fmap_app).
    rewrite Hfs.
    apply NoDup_app. split_and!; [|by intros f ? [_ ?]%Hin|done].
    destruct ph; try done; apply Hm.
  - rewrite Hfs. intros f Hf. by apply Hin.
  - intros a (p & -> & _)%list_elem_of_fmap. by eauto.
Qed.

Lemma step_ok m e m' : machine_ok out m → event_ok m e → step m e = Some m' → machine_ok out m'.
Proof.
  intros Hm Hev Hstep. destruct e as [now|fut o| |order now|order t sub| |t|].
  - by eapply turn_ok.
  - by eapply completes_ok.
  - destruct m as [x [|c q] ph]; destruct ph; try done. injection Hstep as <-.
    destruct Hm as (Hnd & _ & Hs & rk & Hx). cbn in *. unfold unhandled in *. cbn in *. rewrite app_nil_r.
    split_and!; [done..|by exists rk].
  - by eapply handles_ok.
  - by eapply continues_ok.
  - destruct m as [x q ph]; destruct ph as [| |[|] [|]| |]; try done. injection Hstep as <-.
    destruct Hm as (Hnd & _ & Hs & Hx). by split_and!.
  - by eapply asks_ok.
  - by eapply cancels_ok.
Qed.
End steps.

(** ** Reachable machines keep the invariant *)

Section reachable.
Context (rk : TaskID → Z) (context : WorkflowTaskContext) (s0 : WorkflowExecutionState).
Hypothesis Hinit : initial_ok rk s0.
Hypothesis Hdriver : ctx_task_id context = ""%string.

Lemma run_begin_statuses c x x' a :
  run_begin c x = (x', Ok a) → statuses (actions x') = statuses (actions x) ++ [RUNNING].
Proof.
  intros Hrun. rewrite <- (statuses_app _ [SetStatus RUNNING]).
  assert (keeps actions (state ← get_state;
    output ← st_lift (of_option KeyError (output_task_id state));
    _ ← on_state (construct_scheduling_plan output);
    modify_state (init_context c))) as Hk by keeps_tac.
  specialize (Hk (set_actions (actions x ++ [SetStatus RUNNING]) x)). cbn in Hk.
  change ((state ← get_state;
    output ← st_lift (of_option KeyError (output_task_id state));
    _ ← on_state (construct_scheduling_plan output);
    modify_state (init_context c)) (set_actions (actions x ++ [SetStatus RUNNING]) x) = (x', Ok a)) in Hrun.
  rewrite Hrun in Hk. by rewrite <- Hk.
Qed.

Lemma start_ok : machine_ok (output_task_id s0) (start context s0).
Proof.
  destruct (run_begin_ok rk s0 context Hinit Hdriver) as (x & [] & Hrun & Hx).
  assert (statuses (actions x) = [RUNNING]) as Hs by (by apply (run_begin_statuses context (new_executor s0) x tt)).
  unfold start. cbn [executor]. rewrite Hrun. cbn. split_and!; [constructor|done|done|by exists rk].
Qed.

Lemma reach_ok m : reach context s0 m → machine_ok (output_task_id s0) m.
Proof.
  induction 1 as [|m e m' _ IH Hev Hstep]; [apply start_ok|].
  eapply step_ok; [apply (i_some_output _ _ Hinit)|exact IH|exact Hev|exact Hstep].
Qed.
End reachable.

(** ** Submissions *)

Definition submission (a : action) : option (TaskID * ObjectRef * list (option WorkflowRef)) :=
  match a with Submitted t args refs => Some (t, args, refs) | _ => None end.
Definition submissions (x : WorkflowExecutor) := omap submission (actions x).

Lemma submitted_iff x :
  submitted_ok x ↔ ∀ t args refs, (t, args, refs) ∈ submissions x → Forall is_Some refs.
Proof.
  unfold submitted_ok, submissions. split.
  - intros Hx t args refs (a & Hin & Ha)%list_elem_of_omap. destruct a; cbn in Ha; simplify_eq. by eapply Hx.
  - intros Hx t args refs Hin. apply (Hx t args refs), list_elem_of_omap. by eexists.
Qed.

Lemma act_submits a : submission a = None → keeps submissions (act a).
Proof.
  intros Ha. apply keeps_modify. intros x. unfold submissions. cbn. rewrite omap_app. cbn. rewrite Ha.
  by rewrite app_nil_r.
Qed.

Lemma fut_set_submits v fut : keeps submissions (fut_set v fut).
Proof. unfold fut_set. by keeps_tac. Qed.

Lemma post_process_value_submits order t ref : keeps submissions (post_process_value order t ref).
Proof.
  unfold post_process_value. keeps_tac; [apply fut_set_submits|]. unfold notify. by keeps_tac.
Qed.

Lemma handle_exception_submits order t e : keeps submissions (handle_exception order t e).
Proof.
  unfold handle_exception, _retry_failed_task, _catch_failed_task, fresh_name, pop_retries, _broadcast_exception.
  keeps_tac; [apply post_process_value_submits|by apply act_submits].
Qed.

Lemma note_completion_submits now t : keeps submissions (_ ← set_finish_time now t; pop_retries t).
Proof. unfold set_finish_time, pop_retries. by keeps_tac. Qed.

Lemma handle_ready_submits order now fut o : keeps submissions (_handle_ready_task order now fut o).
Proof.
  unfold _handle_ready_task. apply keeps_bind; [by keeps_tac|]. intros ref. destruct o.
  - unfold set_finish_time, pop_retries.
    keeps_tac; [apply post_process_value_submits|apply handle_exception_submits].
  - intros x. pose proof (note_completion_submits now (wr_task_id ref) x) as Hk.
    match type of Hk with submissions (fst ?r) = _ => destruct r as [x' [[]|e]] end; cbn in *; [done|].
    rewrite <- Hk.
    apply (keeps_bind submissions); [apply handle_exception_submits|done].
  - keeps_tac. apply handle_exception_submits.
  - unfold handle_cancelled, _broadcast_exception. keeps_tac. by apply act_submits.
Qed.

Lemma handle_continuation_submits order t sub : keeps submissions (handle_continuation order t sub).
Proof.
  unfold handle_continuation, post_process_continuation.
  keeps_tac. apply handle_exception_submits.
Qed.

Lemma get_task_output_submits t : keeps submissions (get_task_output_async t).
Proof.
  unfold get_task_output_async, callbacks_of, fresh_name.
  keeps_tac; apply fut_set_submits.
Qed.

(** Only a turn of the loop submits. *)
Lemma step_submits m e m' :
  step m e = Some m' → (∀ now, e ≠ RunsTurn now) → submissions (executor m') = submissions (executor m).
Proof.
  intros Hstep Hne. destruct e as [now|fut o| |order now|order t sub| |t|]; [by destruct (Hne now)|..];
    destruct m as [x q ph]; cbn [step executor at_phase] in Hstep.
  - case_decide; [|done]. destruct (terminated _); [done|]. by injection Hstep as <-.
  - destruct ph; try done. destruct q; [done|]. by injection Hstep as <-.
  - destruct ph as [| |[|[fut o] ready] ?| |[|[fut o] ready] ? ?]; try done; injection Hstep as <-;
      apply handle_ready_submits.
  - destruct ph; try done; (case_decide; [|done]); injection Hstep as <-; apply handle_continuation_submits.
  - destruct ph as [| |[|] [|]| |]; try done. by injection Hstep as <-.
  - injection Hstep as <-. apply get_task_output_submits.
  - destruct (terminated _); [done|]. injection Hstep as <-. unfold submissions. cbn.
    rewrite omap_app. set (running := map_to_list _). clearbody running.
    assert (omap submission ((λ p : Future * WorkflowRef, RayCancel (wr_ref p.2)) <$> running) = []) as ->
      by (by induction running). by rewrite app_nil_r.
Qed.

(** ** A run *)

(** The events of a run without continuations. *)
Definition simple_event (e : event) : Prop :=
  match e with
  | Handles order _ => ∀ l, order l ≡ₚ l
  | Continues _ _ (Ok _) => False
  | _ => True
  end.

Lemma run_reach context s0 es m m' :
  reach context s0 m → Forall simple_event es → run m es = Some m' → reach context s0 m'.
Proof.
  revert m. induction es as [|e es IH]; intros m Hm Hes Hrun; cbn in Hrun; [by injection Hrun as <-|].
  apply Forall_cons in Hes as [He Hes]. destruct (step m e) as [m1|] eqn:Hstep; [|done].
  apply (IH m1); [|done..]. eapply reach_step; [exact Hm| |exact Hstep]. destruct e as [| | | |? ? []| | |]; done.
Qed.

Definition driver_context : WorkflowTaskContext := mkContext (Some "w"%string) "" "" true false.

(** The diamond, its tasks one after the other. *)
Definition diamond_events : list event :=
  [RunsTurn 0; Completes 1 Value; AsksOutput "d"; Polls; Handles id 1; Gathered;
   RunsTurn 1; Completes 6 Value; Completes 4 Value; Polls; Handles id 2; Handles id 2; Gathered;
   RunsTurn 2; Completes 8 Value; Polls; Handles id 3; Gathered; RunsTurn 3]%string.

(** The diamond, whose second task fails; the third is cancelled and handled with it. *)
Definition diamond_failing : list event :=
  [RunsTurn 0; Completes 1 Value; Polls; Handles id 1; Gathered;
   RunsTurn 1; Completes 3 (Raised RayTaskError); Completes 5 Cancelled; Polls; Handles id 2; Handles id 2].

Section claims.
Context (rk : TaskID → Z) (context : WorkflowTaskContext) (s0 : WorkflowExecutionState).
Hypothesis Hinit : initial_ok rk s0.
Hypothesis Hdriver : ctx_task_id context = ""%string.

Lemma alive_submitted m :
  machine_ok (output_task_id s0) m → (∀ ready susp e, at_phase m ≠ Aborted ready susp e) → submitted_ok (executor m).
Proof.
  destruct m as [x q ph]. intros Hm Hne. destruct ph as [| |ready susp| |ready susp e]; cbn in *;
    try by destruct (Hne ready susp e).
  1-3: destruct Hm as (_ & _ & _ & rk' & Hx); intros t args refs; apply (x_submitted _ _ _ _ _ Hx).
  apply Hm.
Qed.

Lemma reach_submitted m : reach context s0 m → submitted_ok (executor m).
Proof.
  induction 1 as [|m e m' Hm IH Hev Hstep].
  { apply alive_submitted; [by eapply start_ok|]. intros ready susp e.
    destruct (run_begin_ok rk s0 context Hinit Hdriver) as (x & [] & Hrun & _).
    unfold start. cbn [executor]. by rewrite Hrun. }
  destruct e as [now|fut o| |order now|order t sub| |t|];
    try (apply submitted_iff; rewrite (step_submits _ _ _ Hstep) by done; by apply submitted_iff).
  apply alive_submitted.
  - eapply step_ok; [apply (i_some_output _ _ Hinit)|by eapply reach_ok|exact Hev|exact Hstep].
  - intros ready susp e. pose proof (reach_ok rk _ _ Hinit Hdriver m Hm) as Hok. destruct m as [x q ph].
    destruct ph; try done. injection Hstep as <-. cbn in Hok. destruct Hok as (_ & _ & _ & rk' & Hx).
    destruct (is_running _); [|done].
    by destruct (submit_round_ok _ _ rk' [] now x Hx) as (x' & [] & -> & _).
Qed.

(** Who sets the status SUCCESSFUL. *)
Lemma success_finishes m :
  machine_ok (output_task_id s0) m → SetStatus SUCCESSFUL ∈ actions (executor m) → at_phase m = Finished.
Proof.
  intros Hm Hin. assert (SUCCESSFUL ∈ statuses (actions (executor m))) as Hst
    by (by apply elem_of_statuses).
  assert (∀ st, ending st → st ≠ SUCCESSFUL) as Hne by (by intros st [->| ->]).
  destruct m as [x q ph]. unfold machine_ok in Hm. cbn in *.
  destruct ph as [| |ready susp| |ready susp e]; try done.
  1-3: destruct Hm as (_ & _ & Hs & _); rewrite Hs in Hst; by apply list_elem_of_singleton in Hst.
  destruct Hm as (st & rest & He & Hs & Hrest). rewrite Hs in Hst.
  apply elem_of_cons in Hst as [?|[<-|Hst]%elem_of_cons]; [done| |].
  - unfold error_status in He. by repeat case_decide.
  - rewrite Forall_forall in Hrest. by destruct (Hne _ (Hrest _ Hst)).
Qed.

(** C27: A Ray task is submitted only with its inputs.  Take a workflow of tasks that
    checkpoint their outputs and do not catch exceptions, whose continuations are graphs
    of such tasks with task ids that are new to the workflow.  In every run of it, over
    any interleaving of completions, failures, retries, continuations, cancellations and
    requests for outputs, every submission carries a reference for each upstream
    dependency. *)
Theorem workflow_inputs_available m t args refs :
  reach context s0 m → Submitted t args refs ∈ actions (executor m) → Forall is_Some refs.
Proof. intros Hm. by apply reach_submitted. Qed.

(** C28: A workflow that is reported SUCCESSFUL has ended and has its output, in memory or
    in its checkpoint; for workflows of tasks that checkpoint their outputs and do not
    catch exceptions, whose continuations are graphs of such tasks with new task ids. *)
Theorem workflow_success_has_output m :
  reach context s0 m → SetStatus SUCCESSFUL ∈ actions (executor m) →
  at_phase m = Finished ∧
  ∃ o ref, output_task_id s0 = Some o ∧ get_input o (_state (executor m)) = Some ref.
Proof.
  intros Hm Hin. apply (reach_ok rk) in Hm; [|done..]. pose proof (success_finishes m Hm Hin) as Hf.
  split; [done|]. unfold machine_ok in Hm. rewrite Hf in Hm.
  destruct Hm as (_ & _ & o & Ho & [ref Hav]). exists o. unfold get_input.
  destruct (output_map (_state (executor m)) !! o) as [r|]; [by exists r|by exists ref].
Qed.

End claims.

(** ** The claims on the diamond *)

Lemma diamond_run_reach es m :
  Forall simple_event es → run (start driver_context diamond_state) es = Some m →
  reach driver_context diamond_state m.
Proof. apply run_reach. constructor. Qed.

Lemma diamond_events_simple : Forall simple_event diamond_events ∧ Forall simple_event diamond_failing.
Proof. split; repeat (apply Forall_cons_2; [done || by intros l|]); apply Forall_nil_2. Qed.

Lemma workflow_inputs_available_witness :
  ∃ m, run (start driver_context diamond_state) diamond_events = Some m ∧
    ∀ t args refs, Submitted t args refs ∈ actions (executor m) → Forall is_Some refs.
Proof.
  destruct (run (start driver_context diamond_state) diamond_events) as [m|] eqn:Hrun; [|by vm_compute in Hrun].
  exists m. split; [done|]. intros t args refs Hin. destruct diamond_initial as [rk Hinit].
  apply (workflow_inputs_available rk driver_context diamond_state Hinit eq_refl m t args refs); [|exact Hin].
  by apply (diamond_run_reach diamond_events); [apply diamond_events_simple|].
Defined.

Lemma workflow_success_has_output_witness :
  ∃ m o ref, run (start driver_context diamond_state) diamond_events = Some m ∧
    output_task_id diamond_state = Some o ∧ get_input o (_state (executor m)) = Some ref.
Proof.
  destruct (run (start driver_context diamond_state) diamond_events) as [m|] eqn:Hrun; [|by vm_compute in Hrun].
  exists m. destruct diamond_initial as [rk Hinit].
  destruct (workflow_success_has_output rk driver_context diamond_state Hinit eq_refl m) as (_ & o & ref & Ho & Href).
  - by apply (diamond_run_reach diamond_events); [apply diamond_events_simple|].
  - assert (SUCCESSFUL ∈ statuses (actions (executor m))) as Hst.
    { assert ((λ m, statuses (actions (executor m))) <$> run (start driver_context diamond_state) diamond_events =
        Some [RUNNING; SUCCESSFUL]) as Hph by (vm_compute; reflexivity).
      rewrite Hrun in Hph. injection Hph as ->. right; left. }
    by apply elem_of_statuses.
  - exists o, ref. split; [reflexivity|split; [exact Ho|exact Href]].
Defined.


(** A workflow ends with the exception of its failure and is reported as CANCELED: the
    handler of the cancelled task goes on after that of the failed one has raised. *)
Example failure_reported_as_cancelled :
  (λ m, (at_phase m, statuses (actions (executor m)))) <$>
    run (start driver_context diamond_state) diamond_failing =
  Some (Aborted [] [] WorkflowExecutionError, [RUNNING; FAILED; CANCELED]).
Proof. vm_compute. reflexivity. Qed.
