(* ===== verification/WorkflowTermination.v ===== *)
(** * Termination of workflows

    A workflow waits only for tasks that run, and when its tasks return values it ends,
    within a number of events that is linear in the number of its tasks.  Then concrete
    runs: of a workflow as the theorems have it, and of workflows beyond them, whose
    tasks do not checkpoint or catch exceptions. *)
From S2P Require Import Prelude WorkflowIndex WorkflowState WorkflowExecutor WorkflowPlan WorkflowStateProofs WorkflowExecutorProofs WorkflowDag WorkflowDagProofs WorkflowRunProofs.
From stdpp Require Import base tactics list gmap strings sets.
From Stdlib Require Import QArith.

#[local] Open Scope Z_scope.

(** ** Submission adds no output *)

Lemma pop_frontier_outputs : keeps outputs_of (on_state pop_frontier_to_run).
Proof.
  intros x. unfold on_state, pop_frontier_to_run, mbind, st_bind, st_get, st_modify, st_raise, mret, st_ret.
  destruct (frontier_to_run (_state x)); [done|]. by case_decide.
Qed.

Lemma poll_queued_outputs fuel acc : keeps outputs_of (poll_queued fuel acc).
Proof.
  revert acc. induction fuel as [|fuel IH]; intros acc; [done|]. cbn.
  apply keeps_bind; [apply pop_frontier_outputs|]. intros [t|]; [apply IH|done].
Qed.

Lemma submit_round_outputs now : keeps outputs_of (submit_round now).
Proof.
  unfold submit_round, _poll_queued_tasks, _garbage_collect, collect_one, _submit_ray_task,
    _post_process_submit_task, drop_reference, fresh_name, act.
  keeps_tac; apply poll_queued_outputs.
Qed.

(** ** The measure *)

(** The events of a run without failures, continuations and cancellations. *)
Definition value_event (e : event) : Prop :=
  match e with
  | RunsTurn _ | Polls | Gathered | Completes _ Value => True
  | Handles order _ => ∀ l, order l ≡ₚ l
  | _ => False
  end.

(** A machine in such a run. *)
Definition value_machine (out : option TaskID) (m : machine) : Prop :=
  machine_ok out m ∧ Forall (λ c, c.2 = Value) (unhandled m) ∧ suspended_in (at_phase m) = [] ∧
  ∀ ready susp e, at_phase m ≠ Aborted ready susp e.

Definition phase_weight (p : phase) : nat :=
  match p with
  | LoopTop => 3
  | Awaiting => 2
  | Handling [] _ => 4
  | Handling _ _ => 1
  | Finished | Aborted _ _ _ => 0
  end.

(** Each of the missing outputs costs five events: a completion and its handling, a poll,
    the end of the poll and a turn; completions that are not handled are paid for. *)
Definition work_left (m : machine) : nat :=
  5 * size (missing_outputs (_state (executor m))) + phase_weight (at_phase m) - length (unhandled m).

(** Every running future is that of a missing output of its own. *)
Lemma unhandled_missing out futs rk susp x :
  exec_ok out futs rk susp x → NoDup futs → (length futs ≤ size (missing_outputs (_state x)))%nat.
Proof.
  intros Hx Hnd. pose proof (x_state _ _ _ _ _ Hx) as Hst. set (s := _state x) in *.
  set (output f := match running_frontier s !! f with Some r => root_of (wr_task_id r) s | None => "" end).
  assert (∀ f, f ∈ futs → ∃ r, running_frontier s !! f = Some r ∧ active susp s (wr_task_id r)) as Hrun.
  { intros f Hf. destruct (x_unhandled _ _ _ _ _ Hx f Hf) as [r Hr]. exists r. split; [done|].
    right. left. apply (s_running _ _ _ Hst). eauto. }
  assert (NoDup (output <$> futs)) as Hnd'.
  { apply NoDup_fmap_2_strong; [|done]. intros f1 f2 H1 H2 Heq. unfold output in Heq.
    destruct (Hrun f1 H1) as (r1 & Hr1 & Ha1), (Hrun f2 H2) as (r2 & Hr2 & Ha2). rewrite Hr1, Hr2 in Heq.
    apply (s_running_inj _ _ _ Hst f1 f2 r1 r2); [done..|].
    eapply runnable_inj; [by apply (p_active _ _ _ (s_sched _ _ _ Hst))..|exact Heq]. }
  rewrite <- (length_fmap output), <- (size_list_to_set (C := gset TaskID)) by done.
  apply subseteq_size. intros c (f & -> & Hf)%elem_of_list_to_set%list_elem_of_fmap.
  destruct (Hrun f Hf) as (r & Hr & Ha). unfold output. rewrite Hr. by eapply root_missing.
Qed.

Lemma machine_unhandled out m :
  machine_ok out m → terminated m = false →
  (length (unhandled m) ≤ size (missing_outputs (_state (executor m))))%nat.
Proof.
  destruct m as [x q ph]. intros Hm Ht. rewrite <- (length_fmap fst).
  destruct ph; try done; destruct Hm as (Hnd & _ & _ & rk & Hx); by eapply unhandled_missing.
Qed.

(** ** The events of a run use it up *)

Section value_steps.
Context (out : option TaskID).
Hypothesis Hout : is_Some out.

Lemma value_step m e m' :
  value_machine out m → value_event e → step m e = Some m' →
  value_machine out m' ∧ (work_left m' < work_left m)%nat.
Proof.
  intros (Hm & Hval & Hsusp & Hna) He Hstep.
  assert (machine_ok out m') as Hm'.
  { eapply step_ok; [exact Hout|exact Hm| |exact Hstep]. by destruct e. }
  assert (terminated m = false) as Hterm.
  { destruct m as [x q ph]. destruct ph as [| | | |ready susp ex]; try done.
    - destruct e; try done. cbn in Hstep. by case_decide.
    - by destruct (Hna ready susp ex). }
  pose proof (machine_unhandled out m Hm Hterm) as Hle.
  unfold value_machine, work_left. destruct m as [x q ph].
  destruct e as [now|fut [| | |]| |order now|order t sub| |t|]; try done; cbn [step executor at_phase] in Hstep.
  - destruct ph; try done. injection Hstep as <-. destruct (is_running x).
    + pose proof (submit_round_outputs now x) as Hk. destruct Hm as (_ & _ & _ & rk & Hx).
      destruct (submit_round_ok _ _ rk [] now x Hx) as (x' & [] & Hrun & _). rewrite Hrun in *. cbn in *.
      rewrite (missing_outputs_ext _ _ Hk). split; [done|]. unfold unhandled in *. cbn in *. lia.
    + split; [split_and!; try done|]. cbn in *.
      change (missing_outputs _) with (missing_outputs (_state x)).
      unfold unhandled in *. change (run_end x).2 with (Ok tt : result unit). cbn in *. lia.
  - case_decide; [|done]. rewrite Hterm in Hstep. injection Hstep as <-.
    assert (unhandled (mkMachine x (q ++ [(fut, Value)]) ph) = unhandled (mkMachine x q ph) ++ [(fut, Value)]) as Hu
      by (unfold unhandled; cbn; by rewrite (assoc_L (++))).
    rewrite Hu. split.
    + split_and!; try done. apply Forall_app. split; [done|by apply Forall_singleton].
    + pose proof (machine_unhandled out _ Hm' Hterm) as Hle'. cbn [_completion_queue] in Hle'. rewrite Hu in Hle'.
      rewrite length_app in *. cbn in *. lia.
  - destruct ph; try done. destruct q as [|c q]; [done|]. injection Hstep as <-.
    unfold unhandled in *. cbn [at_phase _completion_queue] in *. rewrite app_nil_r in *.
    split; [by split_and!|]. cbn in *. lia.
  - destruct ph as [| |[|[fut o] ready] susp| |ready susp ex]; try done.
    injection Hstep as <-. cbn in Hsusp. subst susp.
    apply Forall_cons in Hval as [Ho Hval]. cbn in Ho. subst o.
    destruct Hm as (Hnd & _ & _ & rk & Hx). apply NoDup_cons in Hnd as [Hnew Hnd].
    destruct (handle_value_ok out ((ready ++ q).*1) rk order now fut [] x) as (x' & ? & Hrun & -> & Hx' & Hlt);
      [done|by eapply exec_ok_perm; [exact Hx|done|by right]|done|apply (x_unhandled _ _ _ _ _ Hx); left|].
    rewrite Hrun in *. cbn in *. unfold unhandled in *. cbn in *. split; [done|].
    destruct ready; cbn in *; lia.
  - destruct ph as [| |[|] [|]| |]; try done. injection Hstep as <-. unfold unhandled in *. cbn in *.
    split; [done|]. lia.
Qed.

Lemma value_run es m m' :
  value_machine out m → Forall value_event es → run m es = Some m' →
  value_machine out m' ∧ (length es + work_left m' ≤ work_left m)%nat.
Proof.
  revert m. induction es as [|e es IH]; intros m Hm Hes Hrun; cbn in Hrun; [injection Hrun as <-; by split|].
  apply Forall_cons in Hes as [He Hes]. destruct (step m e) as [m1|] eqn:Hstep; [|done].
  destruct (value_step m e m1 Hm He Hstep) as [Hm1 Hlt].
  destruct (IH m1 Hm1 Hes Hrun) as [Hm' Hle]. split; [done|]. cbn [length]. lia.
Qed.
End value_steps.

(** ** Some event can happen *)

(** The executor waits for a task that runs. *)
Lemma awaiting_runs out x q :
  machine_ok out (mkMachine x q Awaiting) → ∃ fut, is_Some (running_frontier (_state x) !! fut).
Proof.
  intros (_ & Hne & _ & rk & Hx). destruct (set_choose_L _ (Hne eq_refl)) as [t Ht].
  apply (s_running _ _ _ (x_state _ _ _ _ _ Hx)) in Ht as (fut & ref & Hf & _). eauto.
Qed.

Lemma some_event out m :
  machine_ok out m → terminated m = false → suspended_in (at_phase m) = [] →
  ∃ e, value_event e ∧ is_Some (step m e).
Proof.
  intros Hm Ht Hsusp. destruct m as [x q ph]. destruct ph as [| |ready susp| |]; try done.
  - exists (RunsTurn 0). split; [done|by eexists].
  - destruct q as [|c q].
    + destruct (awaiting_runs out x [] Hm) as [fut Hf]. exists (Completes fut Value). split; [done|].
      cbn. rewrite decide_True; [done|]. split; [done|]. apply not_elem_of_nil.
    + exists Polls. split; [done|by eexists].
  - cbn in Hsusp. subst susp. destruct ready as [|[fut o] ready].
    + exists Gathered. split; [done|by eexists].
    + exists (Handles id 0). split; [by intros l|by eexists].
Qed.

Section claims.
Context (rk : TaskID → Z) (context : WorkflowTaskContext) (s0 : WorkflowExecutionState).
Hypothesis Hinit : initial_ok rk s0.
Hypothesis Hdriver : ctx_task_id context = ""%string.

Lemma start_work : (work_left (start context s0) ≤ 5 * size (upstream_dependencies s0) + 3)%nat.
Proof.
  destruct (i_some_output _ _ Hinit) as [o Ho].
  destruct (initial_plan rk s0 Hinit o Ho) as (R & P & F & Hrun & _).
  unfold work_left, start. cbn [executor]. set (r := run_begin context (new_executor s0)).
  assert (r.2 = Ok tt ∧ dom (upstream_dependencies (_state r.1)) = dom (upstream_dependencies s0)) as [Hok Hdom].
  { subst r. unfold run_begin, mbind, st_bind, act, st_modify, get_state, st_gets, st_lift, on_state, modify_state.
    cbn [_state set_actions new_executor of_option]. rewrite Ho. cbn [of_option]. rewrite Hrun. done. }
  unfold go. cbn [executor at_phase _completion_queue]. rewrite Hok.
  assert (size (missing_outputs (_state r.1)) ≤ size (upstream_dependencies s0))%nat.
  { unfold missing_outputs. rewrite Hdom, <- size_dom. apply subseteq_size. by intros c [_ ?]%elem_of_filter. }
  cbn [phase_weight]. lia.
Qed.

Lemma start_value : value_machine (output_task_id s0) (start context s0).
Proof.
  pose proof (start_ok rk context s0 Hinit Hdriver) as Hm.
  destruct (run_begin_ok rk s0 context Hinit Hdriver) as (x & [] & Hrun & Hx).
  unfold start in *. cbn [executor] in *. rewrite Hrun in *. cbn. by split_and!.
Qed.

(** C30: No task is forgotten.  Take a workflow of tasks that checkpoint their outputs and
    do not catch exceptions, whose continuations are graphs of such tasks with new task
    ids.  In every state of a run of it that has not ended, whatever failed, was retried,
    continued or cancelled before: the output task has its output or is planned; every
    planned task without its output (that is not itself part of a continuation) waits,
    through its pending inputs and continuations, for a task that is queued, runs, or
    whose continuation is being read; and the executor waits for a completion only while a
    Ray task that it has submitted runs. *)
Theorem workflow_never_stuck m :
  reach context s0 m → terminated m = false →
  let s := _state (executor m) in
  (∀ o, output_task_id s0 = Some o → get_input o s = None →
    is_Some (pending_input_set s !! o) ∧ continuation_root s !! o = None) ∧
  (∀ t, is_Some (pending_input_set s !! t) → continuation_root s !! t = None → get_input t s = None →
    ∃ a, rtc (waits_for s) t a ∧
      (a ∈ frontier_to_run s ∨ a ∈ running_frontier_set s ∨ a ∈ suspended_in (at_phase m))) ∧
  (at_phase m = Awaiting → running_frontier s ≠ ∅).
Proof.
  intros Hm Ht. apply (reach_ok rk) in Hm; [|done..]. destruct m as [x q ph]. cbn.
  assert (∃ futs rk', exec_ok (output_task_id s0) futs rk' (suspended_in ph) x) as (futs & rk' & Hx)
    by (destruct ph; try done; destruct Hm as (_ & _ & _ & rk' & Hx); eauto).
  pose proof (s_graph _ _ _ (x_state _ _ _ _ _ Hx)) as Hg. split_and!.
  - intros o Ho Hin%(get_input_avail rk'); [|done].
    by destruct (output_planned _ _ _ _ _ Hx o Ho).
  - intros t Hp Hr Hin%(get_input_avail rk'); [|done]. exact (planned_progress _ _ _ _ _ Hx t Hp Hr Hin).
  - intros -> Hemp. destruct (awaiting_runs _ _ _ Hm) as [fut Hf]. rewrite Hemp, lookup_empty in Hf.
    by destruct Hf.
Qed.

End claims.

Section representation.
Context (rk : TaskID → Z) (context : WorkflowTaskContext) (s0 : WorkflowExecutionState).
Hypothesis Hinit : initial_ok rk s0.
Hypothesis Hdriver : ctx_task_id context = ""%string.

(** C32: The redundant parts of the execution state agree in every state of a run that has
    not ended, for workflows of tasks that checkpoint their outputs and do not catch
    exceptions, whose continuations are graphs of such tasks with new task ids: the set of
    the frontier has the elements of its queue, which has no duplicates; the set of
    running tasks has the tasks of the running futures, one each; no task is queued and
    running; and a planned task waits for exactly those of its inputs that have no
    output. *)
Theorem workflow_state_consistent m :
  reach context s0 m → terminated m = false →
  let s := _state (executor m) in
  frontier_to_run_set s = list_to_set (frontier_to_run s) ∧ NoDup (frontier_to_run s) ∧
  (∀ t, t ∈ running_frontier_set s ↔
    ∃ fut ref, running_frontier s !! fut = Some ref ∧ wr_task_id ref = t) ∧
  (∀ f1 f2 r1 r2, running_frontier s !! f1 = Some r1 → running_frontier s !! f2 = Some r2 →
    wr_task_id r1 = wr_task_id r2 → f1 = f2) ∧
  (∀ t, t ∈ frontier_to_run s → t ∉ running_frontier_set s) ∧
  (∀ t waits, pending_input_set s !! t = Some waits →
    ∃ ups, upstream_dependencies s !! t = Some ups ∧
      ∀ c, c ∈ waits ↔ c ∈ ups ∧ get_input c s = None).
Proof.
  intros Hm Ht. apply (reach_ok rk) in Hm; [|done..].
  assert (∃ futs rk' susp, exec_ok (output_task_id s0) futs rk' susp (executor m)) as (futs & rk' & susp & Hx).
  { destruct m as [x q ph]. destruct ph; try done; destruct Hm as (_ & _ & _ & rk' & Hx); eauto. }
  pose proof (x_state _ _ _ _ _ Hx) as Hst. pose proof (s_sched _ _ _ Hst) as Hs. intros s.
  split_and!; [apply Hs..|apply Hst|apply Hst|apply Hs|].
  intros t waits Hw. destruct (p_known _ _ _ Hs t waits Hw) as [[ups Hups] Hall]. exists ups. split; [done|].
  intros c. rewrite Hall. rewrite (get_input_avail rk' s) by apply Hst. split.
  - intros [(ups' & Hups' & Hc) ?]. fold s in Hups, Hups'. rewrite Hups in Hups'. by injection Hups' as <-.
  - intros [? ?]. split; [by exists ups|done].
Qed.
End representation.

(** ** The claims on the diamond *)

Definition diamond_values : list event :=
  [RunsTurn 0; Completes 1 Value; Polls; Handles id 1; Gathered;
   RunsTurn 1; Completes 5 Value; Completes 3 Value; Polls; Handles id 2; Handles id 2; Gathered;
   RunsTurn 2; Completes 7 Value; Polls; Handles id 3; Gathered; RunsTurn 3].

Lemma diamond_values_ok : Forall value_event diamond_values.
Proof. repeat (apply Forall_cons_2; [done || by intros l|]); apply Forall_nil_2. Qed.


(** The diamond, waiting for its middle tasks. *)
Definition diamond_waiting : list event := take 6 diamond_values.

Lemma diamond_waiting_reach m :
  run (start driver_context diamond_state) diamond_waiting = Some m → reach driver_context diamond_state m.
Proof.
  apply diamond_run_reach. repeat (apply Forall_cons_2; [done || by intros l|]); apply Forall_nil_2.
Qed.

Lemma diamond_waiting_alive m :
  run (start driver_context diamond_state) diamond_waiting = Some m → terminated m = false.
Proof.
  intros Hrun. assert (terminated <$> run (start driver_context diamond_state) diamond_waiting = Some false) as Ht
    by (vm_compute; reflexivity). rewrite Hrun in Ht. by injection Ht.
Qed.

Lemma workflow_never_stuck_witness :
  ∃ m, run (start driver_context diamond_state) diamond_waiting = Some m ∧
    ∃ a, rtc (waits_for (_state (executor m))) "d"%string a ∧
      (a ∈ frontier_to_run (_state (executor m)) ∨ a ∈ running_frontier_set (_state (executor m)) ∨
       a ∈ suspended_in (at_phase m)).
Proof.
  destruct (run (start driver_context diamond_state) diamond_waiting) as [m|] eqn:Hrun; [|by vm_compute in Hrun].
  exists m. split; [reflexivity|]. destruct diamond_initial as [rk Hinit].
  assert (get_input "d" (_state (executor m)) = None) as Hnone.
  { assert ((λ m, get_input "d" (_state (executor m))) <$> run (start driver_context diamond_state) diamond_waiting =
      Some None) as Hd by (vm_compute; reflexivity). rewrite Hrun in Hd. by injection Hd. }
  destruct (workflow_never_stuck rk driver_context diamond_state Hinit eq_refl m) as (Hout & Hchain & _);
    [by apply diamond_waiting_reach|by apply diamond_waiting_alive|].
  destruct (Hout "d"%string eq_refl Hnone) as [Hp Hr]. exact (Hchain "d"%string Hp Hr Hnone).
Defined.

Lemma workflow_state_consistent_witness :
  ∃ m, run (start driver_context diamond_state) diamond_waiting = Some m ∧
    NoDup (frontier_to_run (_state (executor m))).
Proof.
  destruct (run (start driver_context diamond_state) diamond_waiting) as [m|] eqn:Hrun; [|by vm_compute in Hrun].
  exists m. split; [reflexivity|]. destruct diamond_initial as [rk Hinit].
  apply (workflow_state_consistent rk driver_context diamond_state Hinit eq_refl m);
    [by apply diamond_waiting_reach|by apply diamond_waiting_alive].
Defined.

(** ** Beyond the fragment

    Workflows with tasks that do not checkpoint, or catch exceptions. *)
Definition graph (output : TaskID) (ts : list (TaskID * WorkflowTaskRuntimeOptions * list TaskID)) :
    WorkflowExecutionState :=
  fold_left (λ s '(t, o, ups),
      set_tasks (<[t := mkTask t o 0 0]> (tasks s))
        (set_task_input_args (<[t := 0]> (task_input_args s)) (add_dependencies t ups s)))
    ts (empty_state (Some output)).

Definition plain_options := mkOptions FUNCTION false false 3 true.
Definition catching_options := mkOptions FUNCTION true false 3 true.
Definition unchecked_options := mkOptions FUNCTION false false 3 false.

(** [b] needs [a], which does not checkpoint; a client asks for the output of [a], and [b]
    fails once after it was submitted, when the output of [a] is gone. *)
Definition unchecked_state : WorkflowExecutionState :=
  graph "b" [("a", unchecked_options, []); ("b", plain_options, ["a"])]%string.
Definition unchecked_events : list event :=
  [AsksOutput "a"; RunsTurn 0; Completes 2 Value; Polls; Handles id 0; Gathered;
   RunsTurn 1; Completes 4 (Raised ValueError); Polls; Handles id 0; Gathered;
   RunsTurn 2; Completes 6 Value; Polls; Handles id 0; Gathered; RunsTurn 3].

(** Without checkpoints a workflow can be reported SUCCESSFUL without its output.  A
    task that does not checkpoint is run again when a task that needs its output is
    retried; if a client has asked for its output, the second result is set on a future
    that is done, which raises; the executor takes that for a failure of the task, plans
    it again, finds its output there, and returns: the task that needs it is never told,
    nothing is left to run, and the status is SUCCESSFUL. *)
Theorem unchecked_success_without_output :
  ∃ m, run (start driver_context unchecked_state) unchecked_events = Some m ∧ at_phase m = Finished ∧
    last (actions (executor m)) = Some (SetStatus SUCCESSFUL) ∧
    output_task_id unchecked_state = Some "b"%string ∧ get_input "b" (_state (executor m)) = None.
Proof.
  destruct (run (start driver_context unchecked_state) unchecked_events) as [m|] eqn:Hrun; [|by vm_compute in Hrun].
  exists m. split; [reflexivity|].
  assert ((λ m, (at_phase m, last (actions (executor m)), get_input "b" (_state (executor m)))) <$>
    run (start driver_context unchecked_state) unchecked_events =
    Some (Finished, Some (SetStatus SUCCESSFUL), None)) as Hend by (vm_compute; reflexivity).
  rewrite Hrun in Hend. injection Hend as ? ? ?. by split_and!.
Qed.

(** [o] catches exceptions and returns a continuation; two of its tasks fail. *)
Definition caught_state : WorkflowExecutionState :=
  graph "z" [("o", catching_options, []); ("z", plain_options, ["o"])]%string.
Definition failing_continuation : WorkflowExecutionState :=
  graph "y" [("x1", plain_options, []); ("x2", plain_options, []); ("y", plain_options, ["x1"; "x2"])]%string.
Definition caught_events : list event :=
  [RunsTurn 0; Completes 1 Continuation; Polls; Handles id 0;
   Continues id "o" (Ok failing_continuation); Gathered;
   RunsTurn 1; Completes 3 (Raised RayTaskError); Completes 5 (Raised RayTaskError); Polls;
   Handles id 0; Handles id 0].

(** The first failure is caught and its exception becomes the output of [o]; the second is
    caught again, and telling the readers of [o] again raises a [KeyError] that ends the
    executor, with the status still RUNNING. *)
Example caught_twice_breaks :
  (λ m, (at_phase m, omap (λ a, match a with SetStatus st => Some st | _ => None end) (actions (executor m)))) <$>
    run (start driver_context caught_state) caught_events = Some (Aborted [] [] KeyError, [RUNNING]).
Proof. vm_compute. reflexivity. Qed.
