(* ===== verification/WorkflowAccess.v ===== *)
(** * The workflow management actor

    [WorkflowManagementActor] of [workflow/workflow_access.py] and the listing of
    [workflow/api.py]: the actor owns the executors of all workflows, lets a bounded
    number of them run, queues the others, and answers for their status and output.

    The actor's coroutines are cut at their awaits.  A request is what happens between
    two awaits: a call that a client makes, or a coroutine that goes on.  Its state is
    the attributes of the actor, the [execute_workflow] calls under way and the storage.
    Writes to the storage succeed; a restart loses everything but the storage. *)
From S2P Require Import Prelude WorkflowIndex WorkflowState WorkflowExecutor WorkflowRecovery.
From stdpp Require Import base tactics list gmap strings sets.

#[local] Open Scope Z_scope.

(** ** State *)

Record WorkflowManagementActor := mkActor {
  _workflow_executors : dict string machine;
  _max_running_workflows : Z;
  _max_pending_workflows : Z;
  _workflow_queue : list string;
  _running_workflows : gset string;
  _queued_workflows : gset string;
  _executed_workflows : gset string
}.

(** [__init__] *)
Definition new_actor (max_running_workflows max_pending_workflows : Z) : WorkflowManagementActor :=
  mkActor [] max_running_workflows max_pending_workflows [] ∅ ∅ ∅.

(** Where the [execute_workflow] call of a submitted workflow is: the client has not made
    it, it awaits [pending_fut], the future is set, it is in [run_until_complete], or it
    awaits the output. *)
Inductive call := NotExecuted | AwaitsTurn | TurnSet | Runs | AwaitsOutput.

#[export] Instance call_eq_dec : EqDecision call.
Proof. solve_decision. Defined.

(** What [get_output] returns: a reference, or the task that loads the output. *)
Inductive output :=
  | InMemory (ref : ObjectRef)
  | LoadsFromStorage (task_id : option TaskID).

Record system := mkSystem {
  actor : WorkflowManagementActor;
  calls : gmap string call;
  index : store;
  checkpoints : gmap string (gmap TaskID TaskDir);
  returned : list (string * result output)
}.

Definition set_actor (v : WorkflowManagementActor) (y : system) : system :=
  mkSystem v (calls y) (index y) (checkpoints y) (returned y).
Definition set_calls (v : gmap string call) (y : system) : system :=
  mkSystem (actor y) v (index y) (checkpoints y) (returned y).
Definition set_index (v : store) (y : system) : system :=
  mkSystem (actor y) (calls y) v (checkpoints y) (returned y).
Definition set_checkpoints (v : gmap string (gmap TaskID TaskDir)) (y : system) : system :=
  mkSystem (actor y) (calls y) (index y) v (returned y).
Definition set_returned (v : list (string * result output)) (y : system) : system :=
  mkSystem (actor y) (calls y) (index y) (checkpoints y) v.

Definition set_executors (v : dict string machine) (a : WorkflowManagementActor) :=
  mkActor v (_max_running_workflows a) (_max_pending_workflows a) (_workflow_queue a)
    (_running_workflows a) (_queued_workflows a) (_executed_workflows a).
Definition set_admission (q : list string) (running queued : gset string) (a : WorkflowManagementActor) :=
  mkActor (_workflow_executors a) (_max_running_workflows a) (_max_pending_workflows a) q
    running queued (_executed_workflows a).
Definition set_executed (v : gset string) (a : WorkflowManagementActor) :=
  mkActor (_workflow_executors a) (_max_running_workflows a) (_max_pending_workflows a)
    (_workflow_queue a) (_running_workflows a) (_queued_workflows a) v.

Definition Y := ST system.

Definition on_actor (f : WorkflowManagementActor → WorkflowManagementActor) : Y unit :=
  st_modify (λ y, set_actor (f (actor y)) y).

Definition set_call (workflow_id : string) (c : call) : Y unit :=
  st_modify (λ y, set_calls (<[workflow_id := c]> (calls y)) y).

Definition set_status (workflow_id : string) (status : WorkflowStatus) : Y unit :=
  st_modify (λ y, set_index (update_workflow_status workflow_id status (index y)) y).

Definition checkpoints_of (workflow_id : string) (y : system) : gmap TaskID TaskDir :=
  default ∅ (checkpoints y !! workflow_id).

(** [self._workflow_executors[workflow_id]] *)
Definition machine_of (workflow_id : string) : Y machine :=
  y ← st_get; st_lift (dget_exn workflow_id (_workflow_executors (actor y))).

(** ** Executors *)

(** What the executor of a workflow does outside. *)
Definition apply_action (workflow_id : string) (y : system) (a : action) : system :=
  match a with
  | SetStatus status => set_index (update_workflow_status workflow_id status (index y)) y
  | SetLink root latest =>
      let st := checkpoints_of workflow_id y in
      set_checkpoints (<[workflow_id := put_files (update_continuation_output_link root latest st) st]>
        (checkpoints y)) y
  | Submitted _ _ _ | RayCancel _ => y
  end.

(** The executor goes from [m] to [m']. *)
Definition advance (workflow_id : string) (m m' : machine) : Y unit :=
  st_modify (λ y,
    fold_left (apply_action workflow_id) (drop (length (actions (executor m))) (actions (executor m')))
      (set_actor (set_executors (dset workflow_id m' (_workflow_executors (actor y))) (actor y)) y)).

(** [executor.get_task_output_async(task_id)]: the state of the future. *)
Definition ask_output (workflow_id : string) (task_id : TaskID) : Y FutureState :=
  m ← machine_of workflow_id;
  let '(x, r) := get_task_output_async task_id (executor m) in
  _ ← advance workflow_id m (mkMachine x (_completion_queue m) (at_phase m));
  fut ← st_lift r;
  mret (default FPending (futures x !! fut)).

(** ** Outputs *)

(** [is_workflow_non_terminating] *)
Definition is_workflow_non_terminating (workflow_id : string) (y : system) : bool :=
  din workflow_id (_workflow_executors (actor y)).

(** The end of [get_output]: what is not in memory is in the storage. *)
Definition read_output (workflow_id : string) (task_id : option TaskID) (ref : option ObjectRef) :
    Y output :=
  match ref with
  | Some ref => mret (InMemory ref)
  | None =>
      y ← st_get;
      tid ← st_lift (inspect_output task_id (load_workflow_status workflow_id (index y))
                       (checkpoints_of workflow_id y));
      match tid with Some _ => mret (LoadsFromStorage task_id) | None => st_raise ValueError end
  end.

(** [get_output]; nothing, while it awaits the output of a task. *)
Definition get_output (workflow_id : string) (task_id : option TaskID) : Y (option output) :=
  y ← st_get;
  if is_workflow_non_terminating workflow_id y then
    m ← machine_of workflow_id;
    task_id ← st_lift (of_option KeyError
      match task_id with Some _ => task_id | None => output_task_id (_state (executor m)) end);
    v ← ask_output workflow_id task_id;
    match v with
    | FPending => mret None
    | FException e => st_raise e
    | FResult r => o ← read_output workflow_id (Some (wr_task_id r)) (wr_ref r); mret (Some o)
    end
  else o ← read_output workflow_id task_id None; mret (Some o).

(** ** Submission and execution *)

(** [self._workflow_queue.full()]; a queue of size 0 is unbounded. *)
Definition queue_full (a : WorkflowManagementActor) : bool :=
  let maxsize := if _max_pending_workflows a =? -1 then 0 else _max_pending_workflows a in
  (0 <? maxsize) && (maxsize <=? Z.of_nat (length (_workflow_queue a))).

(** No more workflows may run. *)
Definition at_capacity (a : WorkflowManagementActor) : bool :=
  negb (_max_running_workflows a =? -1) &&
  (_max_running_workflows a <=? Z.of_nat (size (_running_workflows a))).

(** [submit_workflow] *)
Definition submit_workflow (workflow_id : string) (state : WorkflowExecutionState)
    (ignore_existing : bool) : Y unit :=
  a ← st_gets actor;
  if din workflow_id (_workflow_executors a) then st_raise RuntimeError else
  if bool_decide (workflow_id ∈ _executed_workflows a) && negb ignore_existing then
    st_raise RuntimeError else
  match output_task_id state with
  | None => st_raise ValueError
  | Some _ =>
      _ ← (if at_capacity a then
             if queue_full a then st_raise QueueFull else
             _ ← on_actor (set_admission (_workflow_queue a ++ [workflow_id]) (_running_workflows a)
                             (_queued_workflows a ∪ {[workflow_id]}));
             set_status workflow_id PENDING
           else
             _ ← on_actor (set_admission (_workflow_queue a) (_running_workflows a ∪ {[workflow_id]})
                             (_queued_workflows a));
             set_status workflow_id RUNNING);
      on_actor (λ a, set_executors
        (dset workflow_id (mkMachine (new_executor state) [] LoopTop) (_workflow_executors a)) a)
  end.

(** [reconstruct_workflow], after the recovery. *)
Definition reconstruct_workflow (workflow_id : string) (recovered : result WorkflowExecutionState) :
    Y unit :=
  state ← st_lift recovered;
  submit_workflow workflow_id state true.

(** The future of a workflow whose turn it is. *)
Definition wake (next_workflow_id : string) : Y unit :=
  st_modify (λ y, set_calls (alter (λ c, if decide (c = AwaitsTurn) then TurnSet else c)
                               next_workflow_id (calls y)) y).

(** Schedule another workflow from the pending queue. *)
Definition schedule_next : Y unit :=
  a ← st_gets actor;
  match _workflow_queue a with
  | [] => mret tt
  | next_workflow_id :: q =>
      if decide (next_workflow_id ∈ _queued_workflows a) then
        _ ← on_actor (set_admission q (_running_workflows a ∪ {[next_workflow_id]})
                        (_queued_workflows a ∖ {[next_workflow_id]}));
        wake next_workflow_id
      else st_raise KeyError
  end.

(** An operation with its exception as a value. *)
Definition st_try {A} (m : Y A) : Y (result A) := λ y, let '(y', r) := m y in (y', Ok r).

(** The [finally] of [execute_workflow], and its return. *)
Definition finish (workflow_id : string) (r : result output) : Y unit :=
  a ← st_gets actor;
  _ ← st_lift (dget_exn workflow_id (_workflow_executors a));
  _ ← on_actor (set_executors (ddel workflow_id (_workflow_executors a)));
  _ ← st_lift (if decide (workflow_id ∈ _running_workflows a) then Ok tt else Err KeyError);
  _ ← on_actor (set_admission (_workflow_queue a) (_running_workflows a ∖ {[workflow_id]})
                  (_queued_workflows a));
  _ ← on_actor (set_executed (_executed_workflows a ∪ {[workflow_id]}));
  _ ← schedule_next;
  st_modify (λ y, set_returned (returned y ++ [(workflow_id, r)])
                    (set_calls (delete workflow_id (calls y)) y)).

(** After [run_until_complete]: the output, or the exception. *)
Definition conclude (workflow_id : string) : Y unit :=
  m ← machine_of workflow_id;
  match at_phase m with
  | Finished =>
      r ← st_try (get_output workflow_id (output_task_id (_state (executor m))));
      match r with
      | Ok None => set_call workflow_id AwaitsOutput
      | Ok (Some o) => finish workflow_id (Ok o)
      | Err e => finish workflow_id (Err e)
      end
  | Aborted _ _ e => finish workflow_id (Err e)
  | _ => mret tt
  end.

(** [WorkflowTaskContext(workflow_id=workflow_id)] *)
Definition root_context (workflow_id : string) : WorkflowTaskContext :=
  mkContext (Some workflow_id) "" "" true false.

(** The start of [run_until_complete]. *)
Definition begin_run (workflow_id : string) : Y unit :=
  m ← machine_of workflow_id;
  _ ← set_call workflow_id Runs;
  _ ← advance workflow_id m
        (go m (λ _, LoopTop) (run_begin (root_context workflow_id) (executor m)));
  conclude workflow_id.

(** [execute_workflow], up to its first await. *)
Definition execute_workflow (workflow_id : string) : Y unit :=
  y ← st_get;
  if is_workflow_non_terminating workflow_id y then
    if decide (workflow_id ∈ _queued_workflows (actor y)) then set_call workflow_id AwaitsTurn
    else begin_run workflow_id
  else st_raise RuntimeError.

(** [cancel_workflow], up to its await. *)
Definition cancel_workflow (workflow_id : string) : Y unit :=
  y ← st_get;
  if is_workflow_non_terminating workflow_id y then
    m ← machine_of workflow_id;
    task_id ← st_lift (of_option KeyError (output_task_id (_state (executor m))));
    _ ← ask_output workflow_id task_id;
    m ← machine_of workflow_id;
    advance workflow_id m (WorkflowExecutor.cancel m)
  else set_status workflow_id CANCELED.

(** ** Queries *)

Definition non_terminating_status : list WorkflowStatus := [RUNNING; PENDING].

(** [get_workflow_status] *)
Definition get_workflow_status (workflow_id : string) (y : system) : result WorkflowStatus :=
  if is_workflow_non_terminating workflow_id y then
    Ok (if decide (workflow_id ∈ _queued_workflows (actor y)) then PENDING else RUNNING)
  else
    let status := load_workflow_status workflow_id (index y) in
    if decide (status = NONE) then Err WorkflowNotFoundError
    else Ok (if decide (status ∈ non_terminating_status) then RESUMABLE else status).

(** [list_non_terminating_workflows] *)
Definition list_non_terminating_workflows (a : WorkflowManagementActor) :
    dict WorkflowStatus (list string) :=
  let wfs := dkeys (_workflow_executors a) in
  [(RUNNING, filter (λ wf, wf ∈ _running_workflows a) wfs);
   (PENDING, filter (λ wf, wf ∉ _running_workflows a) wfs)].

(** [list_all] of the API; a set of statuses is a list in the order of its iteration. *)
Definition list_all (status_filter : list WorkflowStatus)
    (non_terminating_workflows : dict WorkflowStatus (list string)) (s : store) :
    result (list (string * WorkflowStatus)) :=
  if forallb (λ st, din st non_terminating_workflows) status_filter then
    Ok (concat ((λ p : WorkflowStatus * list string,
          if decide (p.1 ∈ status_filter) then (λ w, (w, p.1)) <$> p.2 else [])
          <$> non_terminating_workflows))
  else
    let modified_status_filter :=
      status_filter ++ filter (λ st, st ∉ status_filter) non_terminating_status in
    status_from_storage ← list_workflow (Some modified_status_filter) s;
    let lost (p : string * WorkflowStatus) : bool :=
      match dget p.2 non_terminating_workflows with
      | Some ws => bool_decide (p.1 ∉ ws)
      | None => false
      end in
    let resume st := (filter (λ p, lost p = true ∧ p.2 = st) status_from_storage).*1 in
    Ok (filter (λ p, lost p = false ∧ p.2 ∈ status_filter) status_from_storage ++
        if decide (RESUMABLE ∈ status_filter) then
          (λ w, (w, RESUMABLE)) <$> (resume RUNNING ++ resume PENDING)
        else []).

(** ** Deletion and set-up *)

(** [delete_workflow] *)
Definition delete_workflow (workflow_id : string) : Y unit :=
  y ← st_get;
  if is_workflow_non_terminating workflow_id y then st_raise WorkflowStillActiveError else
  let '(s, r) := WorkflowIndex.delete_workflow workflow_id (index y) in
  _ ← st_modify (λ y, set_checkpoints (delete workflow_id (checkpoints y)) (set_index s y));
  _ ← st_lift (match checkpoints y !! workflow_id with Some _ => Ok tt | None => r end);
  on_actor (set_executed (_executed_workflows (actor y) ∖ {[workflow_id]})).

(** [validate_init_options] *)
Definition validate_init_options (max_running_workflows max_pending_workflows : option Z)
    (a : WorkflowManagementActor) : result unit :=
  if bool_decide (is_Some max_running_workflows ∧ max_running_workflows ≠ Some (_max_running_workflows a)) ||
     bool_decide (is_Some max_pending_workflows ∧ max_pending_workflows ≠ Some (_max_pending_workflows a))
  then Err ValueError else Ok tt.

(** [init] of the API: the checks, then [init_management_actor]; [None] stands for infinity
    in a new actor.  An actor that exists keeps its options, and the exception for other
    options is caught like the one for no actor; [create] makes an actor of a name, which
    fails when there is one. *)
Definition init (max_running_workflows max_pending_workflows : option Z)
    (existing : option WorkflowManagementActor) : result WorkflowManagementActor :=
  if match max_running_workflows with Some n => (n <? -1) || (n =? 0) | None => false end then Err ValueError else
  if match max_pending_workflows with Some n => n <? -1 | None => false end then Err ValueError else
  let create := new_actor (default (-1) max_running_workflows) (default (-1) max_pending_workflows) in
  match existing with
  | None => Ok create
  | Some a =>
      match validate_init_options max_running_workflows max_pending_workflows a with
      | Ok _ => Ok a
      | Err _ => Err ValueError
      end
  end.

(** ** Requests *)

Inductive request :=
  | Submits (workflow_id : string) (state : WorkflowExecutionState)
  | Reconstructs (workflow_id : string) (recovered : result WorkflowExecutionState)
  | Executes (workflow_id : string)
  | Wakes (workflow_id : string)
  | Steps (workflow_id : string) (e : WorkflowExecutor.event)
  | Ends (workflow_id : string)
  | GetsOutput (workflow_id : string) (task_id : option TaskID)
  | CancelsWorkflow (workflow_id : string)
  | DeletesWorkflow (workflow_id : string)
  | SavesFiles (workflow_id : string) (files : list (TaskID * task_write))
  | Restarts (max_running_workflows max_pending_workflows : Z).

(** A submission, and the call that the client makes next if it succeeds. *)
Definition then_executes (workflow_id : string) (submit : Y unit) : Y unit :=
  _ ← submit; set_call workflow_id NotExecuted.

(** An event of the executor itself. *)
Definition internal (e : WorkflowExecutor.event) : bool :=
  match e with AsksOutput _ | Cancels => false | _ => true end.

(** A step of the executor.  The main coroutine goes on at once at the end of its loop; an
    exception of a handler reaches it later, when all the handlers of the batch have
    started.  Of the handlers that still wait for a continuation then, nothing is followed
    after the workflow has ended. *)
Definition step_executor (workflow_id : string) (m m' : machine) (e : WorkflowExecutor.event) : Y unit :=
  _ ← advance workflow_id m m';
  match e with RunsTurn _ => conclude workflow_id | _ => mret tt end.

Definition running_machine (workflow_id : string) (y : system) : option machine :=
  if decide (calls y !! workflow_id = Some Runs) then dget workflow_id (_workflow_executors (actor y))
  else None.

(** What a request does, when it can happen: a client executes a workflow once after a
    submission that succeeded, as [run_async] and [resume_async] do. *)
Definition serve (y : system) (r : request) : option (system * result unit) :=
  match r with
  | Submits w state => Some (then_executes w (submit_workflow w state false) y)
  | Reconstructs w recovered => Some (then_executes w (reconstruct_workflow w recovered) y)
  | Executes w =>
      match calls y !! w with
      | None | Some NotExecuted => Some (execute_workflow w y)
      | _ => None
      end
  | Wakes w => if decide (calls y !! w = Some TurnSet) then Some (begin_run w y) else None
  | Steps w e =>
      m ← running_machine w y;
      m' ← (if internal e then step m e else None);
      Some (step_executor w m m' e y)
  | Ends w =>
      m ← running_machine w y;
      match at_phase m with Aborted [] _ _ => Some (conclude w y) | _ => None end
  | GetsOutput w t => Some ((_ ← get_output w t; mret tt) y)
  | CancelsWorkflow w => Some (cancel_workflow w y)
  | DeletesWorkflow w => Some (delete_workflow w y)
  | SavesFiles w files =>
      Some (set_checkpoints (<[w := put_files files (checkpoints_of w y)]> (checkpoints y)) y, Ok tt)
  | Restarts max_running max_pending =>
      if (max_running =? 0) || (max_running <? -1) || (max_pending <? -1) then None
      else Some (mkSystem (new_actor max_running max_pending) ∅ (index y) (checkpoints y) (returned y), Ok tt)
  end.

Fixpoint serves (y : system) (rs : list request) : option system :=
  match rs with
  | [] => Some y
  | r :: rs => '(y, _) ← serve y r; serves y rs
  end.

(** A new actor on a storage. *)
Definition boot (max_running max_pending : Z) (s : store) (files : gmap string (gmap TaskID TaskDir)) : system :=
  mkSystem (new_actor max_running max_pending) ∅ s files [].
