(* ===== verification/WorkflowAccessProofs.v ===== *)
(** * What the workflow management actor promises

    The actor is consistent: what runs and what is queued are the workflows it has, within
    their limits, and no coroutine raises on its way out.  Queued workflows run in turn.
    The statuses that it and the listing report agree, and a restart leaves what was active
    resumable. *)
From S2P Require Import Prelude WorkflowIndex WorkflowIndexProofs WorkflowState WorkflowExecutor WorkflowExecutorProofs WorkflowStatusProofs WorkflowRecovery WorkflowAccess.
From stdpp Require Import base tactics list gmap strings sets.
From Stdlib Require Import QArith.

#[local] Open Scope Z_scope.

(** ** The invariant *)

(** What runs and what is queued are the workflows of the actor, within the limits; and
    workflows are queued only while no more may run. *)
Record admission_ok (a : WorkflowManagementActor) : Prop := {
  a_wf : dict_wf (_workflow_executors a);
  a_keys w : is_Some (dget w (_workflow_executors a)) ↔ w ∈ _running_workflows a ∨ w ∈ _queued_workflows a;
  a_disjoint w : w ∈ _running_workflows a → w ∉ _queued_workflows a;
  a_queue : NoDup (_workflow_queue a);
  a_queued w : w ∈ _workflow_queue a ↔ w ∈ _queued_workflows a;
  a_limit : _max_running_workflows a = -1 ∨ 0 < _max_running_workflows a;
  a_running : _max_running_workflows a ≠ -1 → Z.of_nat (size (_running_workflows a)) ≤ _max_running_workflows a;
  a_full : _workflow_queue a ≠ [] → at_capacity a = true;
  a_pending : 0 < _max_pending_workflows a → Z.of_nat (length (_workflow_queue a)) ≤ _max_pending_workflows a
}.

(** Where the call of a workflow is, where its executor, and what its status is. *)
Definition call_ok (y : system) (w : string) (m : machine) (c : call) : Prop :=
  let st := load_workflow_status w (index y) in
  match c with
  | NotExecuted => at_phase m = LoopTop ∧
      (w ∈ _queued_workflows (actor y) ∧ st = PENDING ∨
       w ∈ _running_workflows (actor y) ∧ (st = RUNNING ∨ st = PENDING))
  | AwaitsTurn => at_phase m = LoopTop ∧ w ∈ _queued_workflows (actor y) ∧ st = PENDING
  | TurnSet => at_phase m = LoopTop ∧ w ∈ _running_workflows (actor y) ∧ st = PENDING
  | Runs => w ∈ _running_workflows (actor y) ∧ (terminated m = false → st = RUNNING)
  | AwaitsOutput => w ∈ _running_workflows (actor y) ∧ terminated m = true
  end.

Definition entry_ok (y : system) (w : string) : Prop :=
  match dget w (_workflow_executors (actor y)), calls y !! w with
  | Some m, Some c => call_ok y w m c
  | None, None => True
  | _, _ => False
  end.

Record sys_ok (y : system) : Prop := {
  s_admission : admission_ok (actor y);
  s_index : index_ok (index y);
  s_entry w : entry_ok y w
}.

(** The queue in time: each return takes its head, submissions come at its end. *)
Definition fair (y y' : system) : Prop :=
  ∃ l new, returned y' = returned y ++ l ∧
    _workflow_queue (actor y') = drop (length l) (_workflow_queue (actor y)) ++ new.

Lemma fair_trans y1 y2 y3 : fair y1 y2 → fair y2 y3 → fair y1 y3.
Proof.
  intros (l1 & n1 & Hr1 & Hq1) (l2 & n2 & Hr2 & Hq2). exists (l1 ++ l2).
  rewrite Hr2, Hr1, Hq2, Hq1, drop_app, drop_drop, length_app, app_assoc. eexists. split; [done|].
  rewrite <- app_assoc. by f_equal.
Qed.

Lemma fair_same y y' :
  returned y' = returned y → _workflow_queue (actor y') = _workflow_queue (actor y) → fair y y'.
Proof. intros Hr Hq. exists [], []. rewrite Hr, Hq, !app_nil_r. done. Qed.

Record good (y y' : system) : Prop := { g_ok : sys_ok y'; g_fair : fair y y' }.

Lemma good_trans y1 y2 y3 : fair y1 y2 → good y2 y3 → good y1 y3.
Proof. intros Hf [Hok Hf']. split; [done|by eapply fair_trans]. Qed.

(** The entry of an active workflow. *)
Lemma active_entry y w m :
  sys_ok y → dget w (_workflow_executors (actor y)) = Some m → ∃ c, calls y !! w = Some c ∧ call_ok y w m c.
Proof.
  intros Hok Hm. pose proof (s_entry y Hok w) as He. unfold entry_ok in He. rewrite Hm in He.
  destruct (calls y !! w) as [c|]; [by exists c|done].
Qed.

Lemma call_entry y w c :
  sys_ok y → calls y !! w = Some c →
  ∃ m, dget w (_workflow_executors (actor y)) = Some m ∧ call_ok y w m c.
Proof.
  intros Hok Hc. pose proof (s_entry y Hok w) as He. unfold entry_ok in He. rewrite Hc in He.
  destruct (dget w _) as [m|]; [by exists m|done].
Qed.

Lemma inactive_entry y w :
  sys_ok y → dget w (_workflow_executors (actor y)) = None →
  calls y !! w = None ∧ w ∉ _running_workflows (actor y) ∧ w ∉ _queued_workflows (actor y).
Proof.
  intros Hok Hm. pose proof (s_entry y Hok w) as He. unfold entry_ok in He. rewrite Hm in He.
  pose proof (a_keys _ (s_admission y Hok) w) as Hk. rewrite Hm in Hk.
  destruct (calls y !! w); [done|]. split; [done|]. split; intros Hw; (destruct Hk as [_ []]; [auto|done]).
Qed.

(** ** Effects of executors *)

(** The workflow [w] has had effects on the storage. *)
Record touched (w : string) (y y' : system) : Prop := {
  t_actor : actor y' = actor y;
  t_calls : calls y' = calls y;
  t_returned : returned y' = returned y;
  t_other w' : w' ≠ w → load_workflow_status w' (index y') = load_workflow_status w' (index y);
  t_index : index_ok (index y) → index_ok (index y')
}.

Lemma update_touched w st y :
  touched w y (set_index (update_workflow_status w st (index y)) y).
Proof.
  split; [done..| |]; cbn; rewrite update_is_uninterrupted.
  - intros w' Hw. by apply update_other.
  - apply interrupted_index_ok.
Qed.

Lemma actions_touched w l y :
  let y' := fold_left (apply_action w) l y in
  touched w y y' ∧ (Forall no_status l → index y' = index y).
Proof.
  revert y. induction l as [|a l IH]; intros y; [by repeat split|]. cbn [fold_left].
  destruct (IH (apply_action w y a)) as [[Ha Hc Hr Ho Hi] Hs].
  assert (touched w y (apply_action w y a) ∧ (no_status a → index (apply_action w y a) = index y)) as [[Ha' Hc' Hr' Ho' Hi'] Hs']
    by (destruct a; [split; [apply update_touched|done]|by repeat split..]).
  split.
  - split; [congruence..| |]; [|auto]. intros w' Hw. by rewrite Ho, Ho'.
  - intros [Hn Hl]%Forall_cons. by rewrite Hs, Hs'.
Qed.

(** Only [w] has changed. *)
Lemma entry_other w y y' w' :
  w' ≠ w → sys_ok y →
  dget w' (_workflow_executors (actor y')) = dget w' (_workflow_executors (actor y)) →
  calls y' !! w' = calls y !! w' →
  (w' ∈ _running_workflows (actor y') ↔ w' ∈ _running_workflows (actor y)) →
  (w' ∈ _queued_workflows (actor y') ↔ w' ∈ _queued_workflows (actor y)) →
  load_workflow_status w' (index y') = load_workflow_status w' (index y) →
  entry_ok y' w'.
Proof.
  intros Hw Hok Hm Hc Hr Hq Hl. pose proof (s_entry y Hok w') as He. revert He. unfold entry_ok, call_ok.
  rewrite Hm, Hc, Hl. destruct (dget w' (_workflow_executors (actor y))), (calls y !! w') as [[]|]; tauto.
Qed.

(** A new machine for an active workflow. *)
Lemma admission_executors a d :
  admission_ok a → dict_wf d →
  (∀ w, is_Some (dget w d) ↔ is_Some (dget w (_workflow_executors a))) →
  admission_ok (set_executors d a).
Proof. intros [] Hwf Hd. split; try done. cbn. intros w. by rewrite Hd. Qed.

Lemma set_machine_ok w m m' a :
  admission_ok a → dget w (_workflow_executors a) = Some m →
  admission_ok (set_executors (dset w m' (_workflow_executors a)) a).
Proof.
  intros Ha Hm. apply admission_executors; [done|apply dset_wf, Ha|]. intros w'. rewrite dget_dset.
  case_decide; simplify_eq; [|done]. rewrite Hm. by split; eauto.
Qed.

(** ** Operations *)

Lemma bind_eq {A B} (f : Y A) (g : A → Y B) y y' a : f y = (y', Ok a) → (f ≫= g) y = g a y'.
Proof. intros Hf. unfold mbind, st_bind. by rewrite Hf. Qed.

Lemma bind_err {A B} (f : Y A) (g : A → Y B) y y' e : f y = (y', Err e) → (f ≫= g) y = (y', Err e).
Proof. intros Hf. unfold mbind, st_bind. by rewrite Hf. Qed.

Lemma machine_of_eq w y m :
  dget w (_workflow_executors (actor y)) = Some m → machine_of w y = (y, Ok m).
Proof. intros Hm. unfold machine_of, mbind, st_bind, st_get, st_lift, dget_exn. by rewrite Hm. Qed.

Definition put_machine (w : string) (m : machine) (y : system) : system :=
  set_actor (set_executors (dset w m (_workflow_executors (actor y))) (actor y)) y.

Lemma advance_touched w m m' l y :
  actions (executor m') = actions (executor m) ++ l →
  ∃ y', advance w m m' y = (y', Ok tt) ∧ touched w (put_machine w m' y) y' ∧
    y' = fold_left (apply_action w) l (put_machine w m' y) ∧ (Forall no_status l → index y' = index y).
Proof.
  intros Hl. eexists. split; [reflexivity|]. rewrite Hl, drop_app_length. split; [apply actions_touched|].
  split; [done|]. intros Hs. by apply (actions_touched w l (put_machine w m' y)).
Qed.

(** An executor that goes on, as far as its call lets it. *)
Lemma advance_ok w m m' c y :
  sys_ok y → dget w (_workflow_executors (actor y)) = Some m → calls y !! w = Some c → goes_on m m' →
  (terminated m' = false → terminated m = false) → (c ≠ Runs → at_phase m' = at_phase m) →
  ∃ y', advance w m m' y = (y', Ok tt) ∧ good y y' ∧ calls y' = calls y ∧
    dget w (_workflow_executors (actor y')) = Some m'.
Proof.
  intros Hok Hm Hc (l & Hl & Hs) Hterm Hphase.
  destruct (advance_touched w m m' l y Hl) as (y' & Hy' & [Ha Hcs Hr Ho Hi] & _ & Hsame).
  exists y'. split; [done|]. rewrite Hcs, Ha. cbn. rewrite dget_dset_eq. split_and!; try done.
  split; [split|].
  - rewrite Ha. exact (set_machine_ok w m m' _ (s_admission y Hok) Hm).
  - apply Hi, Hok.
  - intros w'. destruct (decide (w' = w)) as [->|Hw].
    + unfold entry_ok. rewrite Ha, Hcs. cbn. rewrite dget_dset_eq, Hc.
      destruct (active_entry y w m Hok Hm) as (c' & Hc' & He). simplify_eq.
      assert (terminated m' = false → load_workflow_status w (index y') = load_workflow_status w (index y)) as Hload
        by (intros Ht; by rewrite Hsame by auto).
      unfold call_ok in *. rewrite Ha. cbn. unfold terminated in *.
      destruct c; try (rewrite Hphase in * by done).
      * destruct He as [Hp He]. rewrite Hp in *. rewrite Hload by done. done.
      * destruct He as [Hp He]. rewrite Hp in *. rewrite Hload by done. done.
      * destruct He as [Hp He]. rewrite Hp in *. rewrite Hload by done. done.
      * destruct He as [Hw He]. split; [done|]. intros Ht. rewrite Hload by done. auto.
      * done.
    + apply (entry_other w y); [done|done|rewrite Ha; cbn; by rewrite dget_dset_ne|by rewrite Hcs|by rewrite Ha..|].
      by rewrite Ho.
  - apply fair_same; [by rewrite Hr|by rewrite Ha].
Qed.

(** A question to an executor. *)
Lemma ask_output_ok w t m y :
  sys_ok y → dget w (_workflow_executors (actor y)) = Some m →
  let y' := (ask_output w t y).1 in
  good y y' ∧ calls y' = calls y ∧
  ∃ m', dget w (_workflow_executors (actor y')) = Some m' ∧ at_phase m' = at_phase m ∧
    output_task_id (_state (executor m')) = output_task_id (_state (executor m)).
Proof.
  intros Hok Hm. destruct (active_entry y w m Hok Hm) as (c & Hc & _).
  unfold ask_output. rewrite (bind_eq _ _ _ y m) by by apply machine_of_eq.
  pose proof (get_task_output_actions t (executor m)) as Hacts.
  assert (keeps (λ x, output_task_id (_state x)) (get_task_output_async t)) as Hout.
  { unfold get_task_output_async, callbacks_of, fresh_name, fut_set. by keeps_tac. }
  specialize (Hout (executor m)). destruct (get_task_output_async t (executor m)) as [x r]. cbn in Hacts, Hout.
  destruct (advance_ok w m (mkMachine x (_completion_queue m) (at_phase m)) c y) as (y' & Hy' & Hg & Hcs & Hm');
    [done..| |done|done|].
  { exists []. by rewrite app_nil_r. }
  rewrite (bind_eq _ _ _ y' tt) by done.
  assert (((fut ← st_lift r; mret (default FPending (futures x !! fut))) y').1 = y') as -> by by destruct r.
  split_and!; [done|done|]. eauto.
Qed.

Lemma read_output_same w t ref y : (read_output w t ref y).1 = y.
Proof.
  unfold read_output. destruct ref; [done|]. unfold mbind, st_bind, st_get, st_lift.
  by destruct (inspect_output _ _ _) as [[]|].
Qed.

Lemma get_output_ok w t y :
  sys_ok y →
  let y' := (get_output w t y).1 in
  good y y' ∧ calls y' = calls y ∧
  ∀ m, dget w (_workflow_executors (actor y)) = Some m →
    ∃ m', dget w (_workflow_executors (actor y')) = Some m' ∧ at_phase m' = at_phase m.
Proof.
  intros Hok.
  assert (∀ y0, sys_ok y0 → good y0 y0) as Hrefl by (intros; split; [done|by apply fair_same]).
  unfold get_output, is_workflow_non_terminating, din.
  rewrite (bind_eq _ _ _ y y) by done. destruct (dget w _) as [m|] eqn:Hm.
  - rewrite (bind_eq _ _ _ y m) by by apply machine_of_eq.
    set (t' := match t with Some _ => t | None => _ end). destruct t' as [t'|]; cycle 1.
    { cbn. split_and!; [auto|done|]. intros ? [= <-]. eauto. }
    rewrite (bind_eq _ _ _ y t') by done.
    destruct (ask_output_ok w t' m y Hok Hm) as (Hg & Hcs & m' & Hm' & Hp & _).
    destruct (ask_output w t' y) as [y1 [v|e]] eqn:Hask; cbn in Hg, Hcs, Hm'; cycle 1.
    { rewrite (bind_err _ _ _ y1 e Hask). cbn. split; [exact Hg|split; [exact Hcs|]]. intros ? [= <-]. eauto. }
    rewrite (bind_eq _ _ _ y1 v Hask).
    assert (∀ r : Y (option output), (r y1).1 = y1 → good y (r y1).1 ∧ calls (r y1).1 = calls y ∧
      ∀ m0, Some m = Some m0 → ∃ m'0, dget w (_workflow_executors (actor (r y1).1)) = Some m'0 ∧ at_phase m'0 = at_phase m0) as Hend.
    { intros r ->. split; [exact Hg|split; [exact Hcs|]]. intros ? [= <-]. eauto. }
    destruct v as [|r|e]; [by apply (Hend (mret None))| |by apply (Hend (st_raise e))].
    apply Hend. pose proof (read_output_same w (Some (wr_task_id r)) (wr_ref r) y1) as Hr.
    unfold mbind, st_bind. destruct (read_output _ _ _ y1) as [y2 [o|e]]; by cbn in *.
  - pose proof (read_output_same w t None y) as Hr. unfold mbind, st_bind.
    destruct (read_output _ _ _ y) as [y2 [o|e]]; cbn in *; subst; (split_and!; [auto|done|done]).
Qed.

(** ** The end of a workflow *)

(** The actor without [w], and with the next workflow of the queue in its place. *)
Definition without (w : string) (a : WorkflowManagementActor) : WorkflowManagementActor :=
  let next := match _workflow_queue a with [] => ∅ | n :: _ => {[n]} end in
  mkActor (ddel w (_workflow_executors a)) (_max_running_workflows a) (_max_pending_workflows a)
    (tail (_workflow_queue a)) (_running_workflows a ∖ {[w]} ∪ next) (_queued_workflows a ∖ next)
    (_executed_workflows a ∪ {[w]}).

Definition woken (a : WorkflowManagementActor) (cs : gmap string call) : gmap string call :=
  match _workflow_queue a with
  | [] => cs
  | n :: _ => alter (λ c, if decide (c = AwaitsTurn) then TurnSet else c) n cs
  end.

Lemma finish_eq w r m y :
  sys_ok y → dget w (_workflow_executors (actor y)) = Some m → w ∈ _running_workflows (actor y) →
  finish w r y =
    (mkSystem (without w (actor y)) (delete w (woken (actor y) (calls y))) (index y) (checkpoints y)
       (returned y ++ [(w, r)]), Ok tt).
Proof.
  intros Hok Hm Hw. unfold finish, schedule_next, wake, without, woken, on_actor, set_admission, set_executors,
    set_executed, set_actor, set_calls, set_returned, mbind, st_bind, st_gets, st_modify, st_lift, mret, st_ret, dget_exn.
  rewrite Hm, decide_True by done. destruct y as [[ex mr mp q run que done_] cs ix cp ret]. cbn in *.
  destruct q as [|n q]; cbn.
  - by rewrite union_empty_r_L, difference_empty_L.
  - rewrite decide_True; [done|]. apply (a_queued _ (s_admission _ Hok)). cbn. by left.
Qed.

Lemma head_queued a n q :
  admission_ok a → _workflow_queue a = n :: q →
  n ∈ _queued_workflows a ∧ n ∉ _running_workflows a ∧ n ∉ q.
Proof.
  intros Ha Hq. assert (n ∈ _queued_workflows a) as Hn by (apply (a_queued a Ha); rewrite Hq; by left).
  split_and!; [done| |].
  - intros Hr. by apply (a_disjoint a Ha) in Hr.
  - pose proof (a_queue a Ha) as Hnd. rewrite Hq in Hnd. by apply NoDup_cons in Hnd as [].
Qed.

Lemma without_admission w a :
  admission_ok a → w ∈ _running_workflows a → admission_ok (without w a).
Proof.
  intros Ha Hw. pose proof (a_disjoint a Ha w Hw) as Hwq.
  pose proof (a_running a Ha) as Hrun. pose proof (a_full a Ha) as Hfull. pose proof (a_pending a Ha) as Hpend.
  assert (size (_running_workflows a ∖ {[w]}) + 1 = size (_running_workflows a))%nat as Hsize.
  { rewrite size_difference, size_singleton by set_solver.
    assert (size (_running_workflows a) ≠ 0%nat) by (intros Hz%size_empty_inv; set_solver). lia. }
  pose proof (head_queued a) as Hhead. pose proof (a_queue a Ha) as Hnd. pose proof (a_queued a Ha) as Hqd.
  unfold without. destruct (_workflow_queue a) as [|n q] eqn:Hq; cbn [tail].
  - rewrite union_empty_r_L, difference_empty_L. split; cbn; try done.
    + apply ddel_wf, Ha.
    + intros w'. rewrite dget_ddel by apply Ha. case_decide as Hw'; [|rewrite (a_keys a Ha); set_solver].
      subst. split; [by intros []|set_solver].
    + intros w' Hw'. apply (a_disjoint a Ha). set_solver.
    + apply Ha.
    + intros Hmr. specialize (Hrun Hmr). lia.
  - destruct (Hhead n q Ha eq_refl) as (Hn & Hnr & Hnq). apply NoDup_cons in Hnd as [_ Hnd].
    assert (size (_running_workflows a ∖ {[w]} ∪ {[n]}) = size (_running_workflows a)) as Hsame.
    { rewrite size_union, size_singleton by set_solver. lia. }
    split; cbn; rewrite ?Hsame; try done.
    + apply ddel_wf, Ha.
    + intros w'. rewrite dget_ddel by apply Ha. case_decide as Hw'.
      * subst. split; [by intros []|]. intros [|]; set_solver.
      * rewrite (a_keys a Ha). destruct (decide (w' = n)); set_solver.
    + intros w' Hw'. pose proof (a_disjoint a Ha w'). set_solver.
    + intros w'. specialize (Hqd w'). rewrite elem_of_cons in Hqd. set_solver.
    + apply Ha.
    + intros _. unfold at_capacity in *. cbn. rewrite Hsame. by apply Hfull.
    + intros Hmp. specialize (Hpend Hmp). cbn in Hpend. lia.
Qed.

(** The workflow that is next. *)
Lemma woken_entry y n q w :
  sys_ok y → _workflow_queue (actor y) = n :: q → n ≠ w →
  entry_ok (mkSystem (without w (actor y)) (delete w (woken (actor y) (calls y))) (index y) (checkpoints y) []) n.
Proof.
  intros Hok Hq Hnw. destruct (head_queued _ n q (s_admission y Hok) Hq) as (Hn & Hnr & _).
  pose proof (s_entry y Hok n) as He. unfold entry_ok in *. cbn. unfold woken. rewrite Hq.
  rewrite dget_ddel by apply (s_admission y Hok). rewrite decide_False by done.
  rewrite lookup_delete_ne, lookup_alter_eq by done.
  destruct (dget n (_workflow_executors (actor y))) as [m|], (calls y !! n) as [c|]; cbn; try done.
  assert (n ∈ _running_workflows (without w (actor y))) as Hin by (unfold without; rewrite Hq; set_solver).
  unfold call_ok in *. cbn [actor index] in *. destruct c; cbn.
  - destruct He as [Hp [[_ Hst]|[Hr _]]]; [|done]. split; [done|]. right. auto.
  - by destruct He as (Hp & _ & Hst).
  - by destruct He as (Hp & Hr & Hst).
  - by destruct He.
  - by destruct He.
Qed.

Lemma finish_ok w r m y :
  sys_ok y → dget w (_workflow_executors (actor y)) = Some m → w ∈ _running_workflows (actor y) →
  ∃ y', finish w r y = (y', Ok tt) ∧ good y y'.
Proof.
  intros Hok Hm Hw. eexists. split; [by eapply finish_eq|]. split; [split|].
  - cbn. by apply without_admission; [apply Hok|].
  - apply Hok.
  - intros w'. destruct (decide (w' = w)) as [->|Hw'].
    { unfold entry_ok. cbn. rewrite dget_ddel by apply (s_admission y Hok). rewrite decide_True by done.
      by rewrite lookup_delete_eq. }
    destruct (_workflow_queue (actor y)) as [|n q] eqn:Hq.
    + apply (entry_other w y); [done|done| | | | |done]; unfold without, woken; cbn; rewrite ?Hq.
      * rewrite dget_ddel by apply (s_admission y Hok). by rewrite decide_False.
      * by rewrite lookup_delete_ne.
      * set_solver.
      * set_solver.
    + destruct (decide (w' = n)) as [->|Hn]; [by eapply woken_entry|].
      apply (entry_other w y); [done|done| | | | |done]; unfold without, woken; cbn; rewrite ?Hq.
      * rewrite dget_ddel by apply (s_admission y Hok). by rewrite decide_False.
      * rewrite lookup_delete_ne, lookup_alter_ne by done. done.
      * set_solver.
      * set_solver.
  - exists [(w, r)], []. split; [done|]. cbn. rewrite app_nil_r. by destruct (_workflow_queue (actor y)).
Qed.

Lemma good_refl y : sys_ok y → good y y.
Proof. split; [done|by apply fair_same]. Qed.
#[local] Hint Resolve good_refl : core.

(** After [run_until_complete]. *)
Lemma conclude_ok w y :
  sys_ok y → calls y !! w = Some Runs → ∃ y', conclude w y = (y', Ok tt) ∧ good y y'.
Proof.
  intros Hok Hc. destruct (call_entry y w Runs Hok Hc) as (m & Hm & Hw & _).
  unfold conclude. rewrite (bind_eq _ _ _ y m) by by apply machine_of_eq.
  destruct (at_phase m) eqn:Hp; [by (exists y; auto)..| |by eapply finish_ok].
  destruct (get_output_ok w (output_task_id (_state (executor m))) y Hok) as (Hg & Hcs & Hmm).
  destruct (Hmm m Hm) as (m' & Hm' & Hp'). rewrite Hp in Hp'.
  destruct (get_output w _ y) as [y1 r] eqn:Hget. cbn in Hg, Hcs, Hm'.
  rewrite (bind_eq _ _ _ y1 r) by (unfold st_try; by rewrite Hget).
  destruct Hg as [Hok1 Hf1]. rewrite <- Hcs in Hc.
  destruct (call_entry y1 w Runs Hok1 Hc) as (m1 & Hm1 & Hw1 & _). simplify_eq.
  destruct r as [[o|]|e].
  - destruct (finish_ok w (Ok o) m' y1 Hok1 Hm' Hw1) as (y2 & ? & ?). exists y2. by split; [|eapply good_trans].
  - eexists. split; [reflexivity|]. apply (good_trans _ y1); [done|]. split; [split|by apply fair_same].
    + apply Hok1.
    + apply Hok1.
    + intros w'. destruct (decide (w' = w)) as [->|Hw'].
      * unfold entry_ok. cbn. rewrite Hm', lookup_insert_eq. split; [done|]. unfold terminated. by rewrite Hp'.
      * by apply (entry_other w y1); [..|cbn; by rewrite lookup_insert_ne| | |].
  - destruct (finish_ok w (Err e) m' y1 Hok1 Hm' Hw1) as (y2 & ? & ?). exists y2. by split; [|eapply good_trans].
Qed.

Lemma run_begin_actions ctx x : actions (run_begin ctx x).1 = actions x ++ [SetStatus RUNNING].
Proof.
  unfold run_begin.
  match goal with |- actions ((_ ≫= ?f) _).1 = _ => assert (keeps actions (f tt)) as Hk by (by keeps_tac) end.
  exact (Hk (set_actions (actions x ++ [SetStatus RUNNING]) x)).
Qed.

(** The start of [run_until_complete]. *)
Lemma begin_run_ok w c y :
  sys_ok y → calls y !! w = Some c → w ∈ _running_workflows (actor y) → c = NotExecuted ∨ c = TurnSet →
  ∃ y', begin_run w y = (y', Ok tt) ∧ good y y'.
Proof.
  intros Hok Hc Hw Hcase. destruct (call_entry y w c Hok Hc) as (m & Hm & _).
  unfold begin_run. rewrite (bind_eq _ _ _ y m) by by apply machine_of_eq.
  set (y1 := set_calls (<[w := Runs]> (calls y)) y). rewrite (bind_eq _ _ _ y1 tt) by done.
  set (m' := go m _ _).
  destruct (advance_touched w m m' [SetStatus RUNNING] y1) as (y2 & Hy2 & [Ha Hcs Hr Ho Hi] & Heq & _);
    [apply run_begin_actions|].
  rewrite (bind_eq _ _ _ y2 tt) by done.
  assert (sys_ok y2) as Hok2.
  { split.
    - rewrite Ha. exact (set_machine_ok w m m' _ (s_admission y Hok) Hm).
    - apply Hi, Hok.
    - intros w'. destruct (decide (w' = w)) as [->|Hw'].
      + unfold entry_ok. rewrite Ha, Hcs. cbn. rewrite dget_dset_eq, lookup_insert_eq. split; [by rewrite Ha|].
        intros _. rewrite Heq. apply update_commits_status.
      + apply (entry_other w y); [done|done|rewrite Ha; cbn; by rewrite dget_dset_ne| |by rewrite Ha..|by rewrite Ho].
        rewrite Hcs. cbn. by rewrite lookup_insert_ne. }
  assert (calls y2 !! w = Some Runs) as Hc2 by (rewrite Hcs; apply lookup_insert_eq).
  destruct (conclude_ok w y2 Hok2 Hc2) as (y' & Hy' & Hg). exists y'. split; [done|].
  eapply good_trans; [|exact Hg]. by apply fair_same; [rewrite Hr|rewrite Ha].
Qed.

Lemma execute_workflow_ok w y :
  sys_ok y → calls y !! w = None ∨ calls y !! w = Some NotExecuted → good y (execute_workflow w y).1.
Proof.
  intros Hok Hc. unfold execute_workflow, is_workflow_non_terminating, din.
  rewrite (bind_eq _ _ _ y y) by done. destruct (dget w _) as [m|] eqn:Hm; [|by apply good_refl].
  destruct (active_entry y w m Hok Hm) as (c & Hc' & He).
  destruct Hc as [?|Hc]; [congruence|]. simplify_eq. destruct He as [Hp He]. case_decide as Hq.
  - cbn. split; [split|by apply fair_same]; [apply Hok..|]. intros w'. destruct (decide (w' = w)) as [->|Hw'].
    + unfold entry_ok. cbn. rewrite Hm, lookup_insert_eq. destruct He as [[_ Hst]|[Hr _]]; [done|].
      by apply (a_disjoint _ (s_admission y Hok)) in Hr.
    + by apply (entry_other w y); [..|cbn; by rewrite lookup_insert_ne| | |].
  - destruct He as [[? _]|[Hr _]]; [done|].
    destruct (begin_run_ok w NotExecuted y) as (y' & Hy' & Hg); [by auto..|]. by rewrite Hy'.
Qed.

(** An inactive workflow gets a status. *)
Lemma inactive_status_ok w y s' :
  sys_ok y → dget w (_workflow_executors (actor y)) = None → index_ok s' →
  (∀ w', w' ≠ w → load_workflow_status w' s' = load_workflow_status w' (index y)) →
  sys_ok (set_index s' y).
Proof.
  intros Hok Hm Hi Ho. split; [apply Hok|done|]. intros w'. destruct (decide (w' = w)) as [->|Hw'].
  - unfold entry_ok. cbn. rewrite Hm. by destruct (inactive_entry y w Hok Hm) as (-> & _).
  - apply (entry_other w y); try done. by apply Ho.
Qed.

Lemma cancel_workflow_ok w y : sys_ok y → good y (cancel_workflow w y).1.
Proof.
  intros Hok. unfold cancel_workflow, is_workflow_non_terminating, din.
  rewrite (bind_eq _ _ _ y y) by done. destruct (dget w _) as [m|] eqn:Hm.
  - rewrite (bind_eq _ _ _ y m) by by apply machine_of_eq.
    destruct (output_task_id _) as [t|]; [|by apply good_refl]. rewrite (bind_eq _ _ _ y t) by done.
    destruct (ask_output_ok w t m y Hok Hm) as (Hg & Hcs & m1 & Hm1 & _).
    destruct (ask_output w t y) as [y1 [v|e]] eqn:Hask; cbn in Hg, Hm1; [|by rewrite (bind_err _ _ _ y1 e Hask)].
    rewrite (bind_eq _ _ _ y1 v Hask), (bind_eq _ _ _ y1 m1) by by apply machine_of_eq.
    destruct Hg as [Hok1 Hf1]. destruct (active_entry y1 w m1 Hok1 Hm1) as (c & Hc & _).
    destruct (cancel_goes_on m1) as [Hgo Hp].
    destruct (advance_ok w m1 (WorkflowExecutor.cancel m1) c y1) as (y2 & Hy2 & Hg2 & _); try done.
    rewrite Hy2. by eapply good_trans.
  - pose proof (update_touched w CANCELED y) as [_ _ _ Ho Hi].
    split; [|by apply fair_same]. apply (inactive_status_ok w); [done..|apply Hi, Hok|done].
Qed.

Lemma delete_workflow_ok w y : sys_ok y → good y (delete_workflow w y).1.
Proof.
  intros Hok. unfold delete_workflow, is_workflow_non_terminating, din.
  rewrite (bind_eq _ _ _ y y) by done. destruct (dget w _) as [m|] eqn:Hm; [by apply good_refl|].
  pose proof (delete_index_ok w (index y) (s_index y Hok)) as Hi.
  assert (∀ w', w' ≠ w → load_workflow_status w' (WorkflowIndex.delete_workflow w (index y)).1 =
    load_workflow_status w' (index y)) as Ho.
  { intros w' Hw'. apply load_ext. unfold WorkflowIndex.delete_workflow. cbn [fst]. rewrite lookup_delete_ne by congruence.
    by apply (about_other _ _ w); [apply delete_writes_about|]. }
  destruct (WorkflowIndex.delete_workflow w (index y)) as [s' r]. cbn in Hi, Ho.
  set (y1 := set_checkpoints (delete w (checkpoints y)) (set_index s' y)).
  assert (sys_ok y1) as Hok1.
  { destruct (inactive_status_ok w y s' Hok Hm Hi Ho). by split. }
  rewrite (bind_eq _ _ _ y1 tt) by done.
  set (r' := match checkpoints y !! w with Some _ => _ | None => _ end). destruct r' as [[]|e]; cycle 1.
  { rewrite (bind_err _ _ _ y1 e) by done. by split; [|apply fair_same]. }
  rewrite (bind_eq _ _ _ y1 tt) by done. cbn. split; [|by apply fair_same].
  destruct Hok1 as [[] Hi1 He]. split; [by split|done|exact He].
Qed.

(** ** Submission *)

(** The actor with a new workflow, and the status it gets. *)
Definition admitted (w : string) (m : machine) (a : WorkflowManagementActor) : WorkflowManagementActor :=
  if at_capacity a then
    mkActor (dset w m (_workflow_executors a)) (_max_running_workflows a) (_max_pending_workflows a)
      (_workflow_queue a ++ [w]) (_running_workflows a) (_queued_workflows a ∪ {[w]}) (_executed_workflows a)
  else
    mkActor (dset w m (_workflow_executors a)) (_max_running_workflows a) (_max_pending_workflows a)
      (_workflow_queue a) (_running_workflows a ∪ {[w]}) (_queued_workflows a) (_executed_workflows a).

Definition admitted_status (a : WorkflowManagementActor) : WorkflowStatus :=
  if at_capacity a then PENDING else RUNNING.

Lemma submit_eq w state ignore y :
  let r := submit_workflow w state ignore y in
  (r.1 = y ∧ ¬ is_Ok r.2) ∨
  (r = (mkSystem (admitted w (mkMachine (new_executor state) [] LoopTop) (actor y)) (calls y)
          (update_workflow_status w (admitted_status (actor y)) (index y)) (checkpoints y) (returned y), Ok tt) ∧
   dget w (_workflow_executors (actor y)) = None ∧
   (at_capacity (actor y) = true → queue_full (actor y) = false)).
Proof.
  assert (∀ e, (y, @Err unit e).1 = y ∧ ¬ is_Ok (@Err unit e)) as Herr by (intros; split; [done|by intros []]).
  unfold submit_workflow, din. rewrite (bind_eq _ _ _ y (actor y)) by done.
  destruct (dget w _) as [m|] eqn:Hm; [left; apply Herr|].
  destruct (_ && _); [left; apply Herr|]. destruct (output_task_id state); [|left; apply Herr].
  unfold admitted, admitted_status. destruct (at_capacity _) eqn:Hcap.
  - destruct (queue_full _) eqn:Hfull; [left; apply Herr|]. right. split; [|auto]. destruct y as [[] ? ? ? ?]. reflexivity.
  - right. split; [|done]. destruct y as [[] ? ? ? ?]. reflexivity.
Qed.

Lemma admitted_ok w m a :
  admission_ok a → dget w (_workflow_executors a) = None → w ∉ _running_workflows a → w ∉ _queued_workflows a →
  (at_capacity a = true → queue_full a = false) → admission_ok (admitted w m a).
Proof.
  intros Ha Hm Hr Hq Hfull. unfold admitted. destruct (at_capacity a) eqn:Hcap.
  - specialize (Hfull eq_refl). split; cbn; try apply Ha.
    + apply dset_wf, Ha.
    + intros w'. rewrite dget_dset. case_decide as Hw; [subst; set_solver|]. rewrite (a_keys a Ha). set_solver.
    + intros w' Hw'. pose proof (a_disjoint a Ha w' Hw'). set_solver.
    + apply NoDup_app. split; [apply Ha|]. split; [|apply NoDup_singleton].
      intros w' Hw' ->%list_elem_of_singleton. by apply (a_queued a Ha) in Hw'.
    + intros w'. rewrite elem_of_app, (a_queued a Ha), list_elem_of_singleton. set_solver.
    + intros _. done.
    + intros Hmp. rewrite length_app. cbn. unfold queue_full in Hfull.
      destruct (Z.eqb_spec (_max_pending_workflows a) (-1)); [lia|].
      apply andb_false_iff in Hfull as [?%Z.ltb_ge|?%Z.leb_gt]; lia.
  - assert (size (_running_workflows a ∪ {[w]}) = S (size (_running_workflows a))) as Hsize.
    { rewrite size_union, size_singleton by set_solver. lia. }
    split; cbn; try apply Ha.
    + apply dset_wf, Ha.
    + intros w'. rewrite dget_dset. case_decide as Hw; [subst; set_solver|]. rewrite (a_keys a Ha). set_solver.
    + intros w' [Hw'|Hw']%elem_of_union; [by apply (a_disjoint a Ha)|set_solver].
    + intros Hmr. unfold at_capacity in Hcap. rewrite Hsize.
      apply andb_false_iff in Hcap as [Hcap|?%Z.leb_gt]; [|lia].
      destruct (Z.eqb_spec (_max_running_workflows a) (-1)); done.
    + intros Hne. apply (a_full a Ha) in Hne. congruence.
Qed.

Lemma submit_ok w state ignore y :
  sys_ok y → good y (then_executes w (submit_workflow w state ignore) y).1.
Proof.
  intros Hok. unfold then_executes.
  destruct (submit_eq w state ignore y) as [[Hsame Herr]|(Heq & Hm & Hfull)].
  { destruct (submit_workflow w state ignore y) as [y1 [[]|e]] eqn:Hs; cbn in Hsame, Herr; subst.
    - destruct Herr. by eexists.
    - rewrite (bind_err _ _ _ y e Hs). by apply good_refl. }
  rewrite (bind_eq _ _ _ _ _ Heq). cbn.
  destruct (inactive_entry y w Hok Hm) as (Hc & Hr & Hq).
  pose proof (update_touched w (admitted_status (actor y)) y) as [_ _ _ Ho Hi]. cbn in Ho, Hi.
  split; [split|].
  - cbn. by apply admitted_ok; [apply Hok|..].
  - apply Hi, Hok.
  - intros w'. destruct (decide (w' = w)) as [->|Hw'].
    + unfold entry_ok, call_ok. cbn. rewrite lookup_insert_eq, update_commits_status.
      unfold admitted, admitted_status. destruct (at_capacity _); cbn; rewrite dget_dset_eq; cbn;
        (split; [done|]); [left|right]; set_solver.
    + apply (entry_other w y); [done|done|..|by apply Ho]; cbn; unfold admitted;
        [destruct (at_capacity _); cbn; by rewrite dget_dset_ne|by rewrite lookup_insert_ne
        |destruct (at_capacity _); cbn; set_solver..].
  - exists [], (if at_capacity (actor y) then [w] else []). cbn. rewrite app_nil_r. split; [done|].
    unfold admitted. destruct (at_capacity _); cbn; by rewrite ?app_nil_r.
Qed.

(** ** Requests *)

Definition restarts (r : request) : bool := match r with Restarts _ _ => true | _ => false end.

Lemma boot_ok mr mp s files :
  mr = -1 ∨ 0 < mr → index_ok s → sys_ok (boot mr mp s files).
Proof.
  intros Hmr Hs. split; [|done|].
  - split; cbn; rewrite ?size_empty; try (done || lia || set_solver || constructor).
  - intros w. unfold entry_ok. cbn. by rewrite lookup_empty.
Qed.

Lemma running_machine_spec w y m :
  running_machine w y = Some m → calls y !! w = Some Runs ∧ dget w (_workflow_executors (actor y)) = Some m.
Proof. unfold running_machine. by case_decide. Qed.

Lemma actor_steps_ok w m e m' y :
  sys_ok y → running_machine w y = Some m → step m e = Some m' →
  ∃ y', step_executor w m m' e y = (y', Ok tt) ∧ good y y'.
Proof.
  intros Hok [Hc Hm]%running_machine_spec Hstep. unfold step_executor.
  destruct (advance_ok w m m' Runs y) as (y1 & Hy1 & Hg & Hcs & _);
    [done..|by eapply step_goes_on|by eapply step_terminated|done|].
  rewrite (bind_eq _ _ _ y1 tt Hy1). rewrite <- Hcs in Hc. destruct Hg as [Hok1 Hf1].
  destruct e; try by (exists y1). destruct (conclude_ok w y1 Hok1 Hc) as (y2 & Hy2 & Hg2).
  exists y2. split; [done|]. by eapply good_trans.
Qed.

(** A coroutine of the actor that goes on, not a call of a client. *)
Definition goes_on_alone (r : request) : bool :=
  match r with Wakes _ | Steps _ _ | Ends _ => true | _ => false end.

Lemma serve_ok y r y' res :
  sys_ok y → serve y r = Some (y', res) →
  sys_ok y' ∧ (restarts r = false → fair y y') ∧ (goes_on_alone r = true → res = Ok tt).
Proof.
  intros Hok Hs. assert (∀ z, good y z.1 → Some z = Some (y', res) →
    goes_on_alone r = false → sys_ok y' ∧ (restarts r = false → fair y y') ∧ (goes_on_alone r = true → res = Ok tt)) as Hcall.
  { intros z Hg [= ->] Hr. destruct Hg. rewrite Hr. done. }
  assert (∀ z, (∃ y1, z = (y1, Ok tt) ∧ good y y1) → Some z = Some (y', res) →
    sys_ok y' ∧ (restarts r = false → fair y y') ∧ (goes_on_alone r = true → res = Ok tt)) as Halone.
  { intros z (y1 & -> & []) [= <- <-]. done. }
  destruct r as [w state|w rec|w|w|w e|w|w t|w|w|w files|mr mp]; cbn [serve] in Hs.
  - by eapply Hcall; [..|done]; [apply submit_ok|].
  - eapply Hcall; [|done|done]. unfold reconstruct_workflow. destruct rec as [state|e]; [by apply submit_ok|by apply good_refl].
  - assert (calls y !! w = None ∨ calls y !! w = Some NotExecuted) as Hc
      by (destruct (calls y !! w) as [[]|]; by auto).
    assert (Some (execute_workflow w y) = Some (y', res)) as Hs' by (by destruct Hc as [Hc|Hc]; rewrite Hc in Hs).
    eapply Hcall; [by apply execute_workflow_ok|exact Hs'|done].
  - case_decide as Hc; [|done]. destruct (call_entry y w TurnSet Hok Hc) as (m & _ & _ & Hw & _).
    eapply Halone; [|exact Hs]. eapply begin_run_ok; eauto.
  - destruct (running_machine w y) as [m|] eqn:Hm; [|done]. cbn in Hs.
    destruct (internal e); [|done].
    destruct (step m e) as [m'|] eqn:Hstep; [|done]. cbn in Hs. eapply Halone; [|exact Hs]. by apply actor_steps_ok.
  - destruct (running_machine w y) as [m|] eqn:Hm; [|done]. apply running_machine_spec in Hm as [Hc Hm]. cbn in Hs.
    destruct (at_phase m) as [| | | |[|] ? ?]; try done. eapply Halone; [|exact Hs]. by apply conclude_ok.
  - eapply Hcall; [|exact Hs|done]. destruct (get_output_ok w t y Hok) as (Hg & _).
    destruct (get_output w t y) as [y1 [o|e]] eqn:Ho; [by rewrite (bind_eq _ _ _ y1 o Ho)|by rewrite (bind_err _ _ _ y1 e Ho)].
  - eapply Hcall; [by apply cancel_workflow_ok|exact Hs|done].
  - eapply Hcall; [by apply delete_workflow_ok|exact Hs|done].
  - eapply Hcall; [|exact Hs|done]. split; [|by apply fair_same]. destruct Hok as [? ? He]. split; [done|done|exact He].
  - destruct (_ || _) eqn:Hlim; [done|]. injection Hs as <- <-. split; [|done].
    apply orb_false_iff in Hlim as [[?%Z.eqb_neq ?%Z.ltb_ge]%orb_false_iff _].
    destruct (boot_ok mr mp (index y) (checkpoints y)) as [? ? He]; [lia|apply Hok|]. split; [done|done|exact He].
Qed.

Lemma serves_ok y rs y' : sys_ok y → serves y rs = Some y' → sys_ok y'.
Proof.
  revert y. induction rs as [|r rs IH]; intros y Hok Hs; cbn in Hs; [by simplify_eq|].
  destruct (serve y r) as [[y1 res]|] eqn:Hr; [|done]. cbn in Hs. destruct (serve_ok y r y1 res Hok Hr) as (? & _).
  by eapply IH.
Qed.

Lemma serves_fair y rs y' :
  sys_ok y → Forall (λ r, restarts r = false) rs → serves y rs = Some y' → fair y y'.
Proof.
  intros Hok Hrs. revert y Hok. induction Hrs as [|r rs Hr Hrs IH]; intros y Hok Hs; cbn in Hs.
  { simplify_eq. by apply fair_same. }
  destruct (serve y r) as [[y1 res]|] eqn:Hr1; [|done]. cbn in Hs.
  destruct (serve_ok y r y1 res Hok Hr1) as (Hok1 & Hf & _). eapply fair_trans; [by apply Hf|by apply IH].
Qed.

(** ** Statuses *)

(** Each workflow whose turn it is has begun and has not ended. *)
Definition settled (y : system) : Prop :=
  ∀ w, w ∈ _running_workflows (actor y) → ∃ m, running_machine w y = Some m ∧ terminated m = false.

(** What the actor says of an active workflow. *)
Definition active_status (w : string) (a : WorkflowManagementActor) : WorkflowStatus :=
  if decide (w ∈ _queued_workflows a) then PENDING else RUNNING.

Lemma stored_status y w m :
  sys_ok y → dget w (_workflow_executors (actor y)) = Some m → terminated m = false →
  load_workflow_status w (index y) = RUNNING ∨ load_workflow_status w (index y) = PENDING.
Proof.
  intros Hok Hm Ht. destruct (active_entry y w m Hok Hm) as (c & Hc & He). unfold call_ok in He.
  destruct c; [naive_solver..|]. destruct He as [_ ?]. congruence.
Qed.

Lemma settled_status y w m :
  sys_ok y → settled y → dget w (_workflow_executors (actor y)) = Some m →
  load_workflow_status w (index y) = active_status w (actor y).
Proof.
  intros Hok Hset Hm. destruct (active_entry y w m Hok Hm) as (c & Hc & He). unfold active_status.
  pose proof (a_disjoint _ (s_admission y Hok) w) as Hdis. case_decide as Hq.
  - unfold call_ok in He. destruct c; try tauto.
  - assert (w ∈ _running_workflows (actor y)) as Hr.
    { destruct (proj1 (a_keys _ (s_admission y Hok) w)); [by eexists|done|done]. }
    destruct (Hset w Hr) as (m' & [Hc' Hm']%running_machine_spec & Ht). simplify_eq. by apply He.
Qed.

Lemma list_workflow_wf fs s r : list_workflow fs s = Ok r → dict_wf r.
Proof.
  intros Hl.
  assert (∀ f, dict_wf (fold_left (correct_dirty f s) (list_dirty s) (collect_indexed s f))) as Hwf.
  { intros f. apply fold_left_inv; [apply collect_indexed_wf|by intros; apply correct_dirty_wf]. }
  unfold list_workflow, mbind, result_bind in Hl.
  destruct fs as [f|]; [case_decide; [done|]|]; injection Hl as <-; apply Hwf.
Qed.

Lemma elem_of_dict {K V} `{EqDecision K} (d : dict K V) k v : dict_wf d → (k, v) ∈ d ↔ dget k d = Some v.
Proof. split; [by apply dget_elem|apply dget_Some_elem]. Qed.

Lemma active_iff w y :
  sys_ok y →
  (w ∈ _running_workflows (actor y) ↔ is_workflow_non_terminating w y = true ∧ active_status w (actor y) = RUNNING) ∧
  (w ∈ dkeys (_workflow_executors (actor y)) ∧ w ∉ _running_workflows (actor y) ↔
     is_workflow_non_terminating w y = true ∧ active_status w (actor y) = PENDING).
Proof.
  intros Hok. unfold is_workflow_non_terminating, active_status. rewrite din_spec.
  pose proof (a_keys _ (s_admission y Hok) w) as Hk. pose proof (a_disjoint _ (s_admission y Hok) w) as Hd.
  assert (w ∈ dkeys (_workflow_executors (actor y)) ↔ is_Some (dget w (_workflow_executors (actor y)))) as Hkey.
  { destruct (dget w _) eqn:Hg; [|apply dget_None in Hg].
    - apply dget_elem_key in Hg. split; [by eexists|done].
    - split; [done|by intros []]. }
  rewrite Hkey, Hk. case_decide; (split; split); intros; try destruct_and!; try done; tauto.
Qed.

Lemma status_cases w y :
  get_workflow_status w y =
  if is_workflow_non_terminating w y then Ok (active_status w (actor y))
  else match load_workflow_status w (index y) with
       | NONE => Err WorkflowNotFoundError
       | RUNNING | PENDING => Ok RESUMABLE
       | st => Ok st
       end.
Proof.
  unfold get_workflow_status, active_status, non_terminating_status.
  destruct (is_workflow_non_terminating w y); [by case_decide|].
  by destruct (load_workflow_status w (index y)).
Qed.

(** The workflows of the actor with a status. *)
Definition active_with (st : WorkflowStatus) (y : system) : list string :=
  match st with
  | RUNNING => filter (λ w, w ∈ _running_workflows (actor y)) (dkeys (_workflow_executors (actor y)))
  | PENDING => filter (λ w, w ∉ _running_workflows (actor y)) (dkeys (_workflow_executors (actor y)))
  | _ => []
  end.

Lemma elem_of_active_with w st y :
  sys_ok y → w ∈ active_with st y ↔ is_workflow_non_terminating w y = true ∧ active_status w (actor y) = st.
Proof.
  intros Hok. destruct (active_iff w y Hok) as [Hr Hp].
  assert (active_status w (actor y) = RUNNING ∨ active_status w (actor y) = PENDING) as Hact
    by (unfold active_status; case_decide; auto).
  assert (w ∈ _running_workflows (actor y) → w ∈ dkeys (_workflow_executors (actor y))) as Hkey.
  { rewrite Hr. unfold is_workflow_non_terminating. rewrite din_spec. by intros []. }
  destruct st; cbn; rewrite ?list_elem_of_filter, ?elem_of_nil; try (split; [done|intros [_ ?]; intuition congruence]).
  - rewrite <- Hr. tauto.
  - rewrite <- Hp. tauto.
Qed.

(** ** Listing *)

Lemma list_non_terminating_eq y :
  list_non_terminating_workflows (actor y) = [(RUNNING, active_with RUNNING y); (PENDING, active_with PENDING y)].
Proof. done. Qed.

Lemma lost_iff y w st :
  sys_ok y → is_workflow_non_terminating w y = false →
  match dget st (list_non_terminating_workflows (actor y)) with
  | Some ws => bool_decide (w ∉ ws) | None => false end = bool_decide (st ∈ non_terminating_status).
Proof.
  intros Hok Hw. rewrite list_non_terminating_eq.
  assert (∀ st', bool_decide (w ∉ active_with st' y) = true) as Hno.
  { intros st'. apply bool_decide_eq_true. rewrite elem_of_active_with by done. intros []. congruence. }
  destruct st; first [reflexivity | exact (Hno RUNNING) | exact (Hno PENDING)].
Qed.

(** A listing of only the statuses that the actor knows. *)
Lemma list_active (st_filter : list WorkflowStatus) y w st :
  sys_ok y → (w, st) ∈ concat ((λ p : WorkflowStatus * list string,
      if decide (p.1 ∈ st_filter) then (λ w, (w, p.1)) <$> p.2 else [])
      <$> list_non_terminating_workflows (actor y)) ↔
  st ∈ st_filter ∧ is_workflow_non_terminating w y = true ∧ active_status w (actor y) = st.
Proof.
  intros Hok. rewrite <- elem_of_active_with by done. rewrite list_non_terminating_eq. cbn [fmap list_fmap concat fst snd].
  rewrite app_nil_r, elem_of_app.
  assert (∀ st', (w, st) ∈ (if decide (st' ∈ st_filter) then (λ w, (w, st')) <$> active_with st' y else []) ↔
    st = st' ∧ st ∈ st_filter ∧ w ∈ active_with st y) as Hone.
  { intros st'. case_decide.
    - rewrite list_elem_of_fmap. split; [by intros (? & [= -> ->] & ?)|]. intros (-> & ? & ?). by exists w.
    - rewrite elem_of_nil. split; [done|]. by intros (-> & ? & _). }
  rewrite !Hone. split; [tauto|]. intros [? Hw]. destruct st; cbn in Hw; try (by apply elem_of_nil in Hw); tauto.
Qed.

Lemma elem_of_lost (lost : string * WorkflowStatus → bool) (r : list (string * WorkflowStatus)) w st :
  w ∈ (filter (λ p, lost p = true ∧ p.2 = st) r).*1 ↔ (w, st) ∈ r ∧ lost (w, st) = true.
Proof.
  rewrite list_elem_of_fmap. split.
  - intros ([w' st'] & -> & [[? ?] ?]%list_elem_of_filter). cbn in *. by subst.
  - intros [? ?]. exists (w, st). split; [done|]. by apply list_elem_of_filter.
Qed.

(** What a listing from the storage has of a workflow. *)
Lemma list_stored_eq (lost : string * WorkflowStatus → bool) (st_filter : list WorkflowStatus) (r : list (string * WorkflowStatus)) w st :
  (w, st) ∈ filter (λ p, lost p = false ∧ p.2 ∈ st_filter) r ++
    (if decide (RESUMABLE ∈ st_filter) then (λ w, (w, RESUMABLE)) <$>
       ((filter (λ p, lost p = true ∧ p.2 = RUNNING) r).*1 ++ (filter (λ p, lost p = true ∧ p.2 = PENDING) r).*1)
     else []) ↔
  st ∈ st_filter ∧
  ((w, st) ∈ r ∧ lost (w, st) = false ∨
   st = RESUMABLE ∧ ∃ st', (st' = RUNNING ∨ st' = PENDING) ∧ (w, st') ∈ r ∧ lost (w, st') = true).
Proof.
  rewrite elem_of_app, list_elem_of_filter. cbn [snd]. case_decide as Hres.
  - rewrite list_elem_of_fmap. setoid_rewrite elem_of_app. setoid_rewrite elem_of_lost. split.
    + intros [[[? ?] ?]|(w' & [= -> ->] & [[? ?]|[? ?]])]; [by auto|..]; (split; [done|right; split; [done|]]; eauto).
    + intros [? [[? ?]|[-> (st' & [->| ->] & ? & ?)]]]; [auto|..]; right; exists w; auto.
  - rewrite elem_of_nil. split; [naive_solver|]. intros [? [[? ?]|[-> _]]]; [auto|done].
Qed.

(** The filter that [list_all] uses on the storage. *)
Lemma modified_filter (st_filter : list WorkflowStatus) st :
  st ∈ st_filter ++ filter (λ st, st ∉ st_filter) non_terminating_status ↔
  st ∈ st_filter ∨ st ∈ non_terminating_status.
Proof. rewrite elem_of_app, list_elem_of_filter. destruct (decide (st ∈ st_filter)); tauto. Qed.

Lemma listed_settled (st_filter : list WorkflowStatus) y w m st :
  sys_ok y → settled y → dget w (_workflow_executors (actor y)) = Some m →
  listed (st_filter ++ filter (λ st, st ∉ st_filter) non_terminating_status) (index y) w = Some st ↔
  active_status w (actor y) = st.
Proof.
  intros Hok Hset Hm. unfold listed. rewrite (settled_status y w m) by done.
  rewrite decide_True; [naive_solver|]. apply modified_filter. right. unfold active_status. case_decide; set_solver.
Qed.

(** Whether the actor does not know a workflow that the storage says is active. *)
Definition lost (y : system) (p : string * WorkflowStatus) : bool :=
  match dget p.2 (list_non_terminating_workflows (actor y)) with
  | Some ws => bool_decide (p.1 ∉ ws)
  | None => false
  end.

Lemma lost_active y w st : st = RUNNING ∨ st = PENDING → lost y (w, st) = bool_decide (w ∉ active_with st y).
Proof. by intros [->| ->]. Qed.

(** A listing of an active workflow, and of one that is not. *)
Lemma active_listed (st_filter : list WorkflowStatus) y w m st :
  sys_ok y → settled y → dget w (_workflow_executors (actor y)) = Some m →
  let l := listed (st_filter ++ filter (λ st, st ∉ st_filter) non_terminating_status) (index y) w in
  (l = Some st ∧ lost y (w, st) = false ∨
   st = RESUMABLE ∧ ∃ st', (st' = RUNNING ∨ st' = PENDING) ∧ l = Some st' ∧ lost y (w, st') = true) ↔
  active_status w (actor y) = st.
Proof.
  intros Hok Hset Hm l. unfold l. setoid_rewrite (listed_settled st_filter y w m); [|done..].
  assert (w ∈ active_with (active_status w (actor y)) y) as Hin.
  { apply elem_of_active_with; [done|]. unfold is_workflow_non_terminating, din. by rewrite Hm. }
  split.
  - intros [[<- _]|(-> & st' & Hst' & <- & Hlost)]; [done|]. exfalso.
    by rewrite lost_active, bool_decide_eq_true in Hlost.
  - intros <-. left. split; [done|]. rewrite lost_active by (unfold active_status; case_decide; auto).
    apply bool_decide_eq_false. naive_solver.
Qed.

Lemma inactive_listed (st_filter : list WorkflowStatus) y w st :
  sys_ok y → is_workflow_non_terminating w y = false → NONE ∉ st_filter → st ∈ st_filter →
  let l := listed (st_filter ++ filter (λ st, st ∉ st_filter) non_terminating_status) (index y) w in
  (l = Some st ∧ lost y (w, st) = false ∨
   st = RESUMABLE ∧ ∃ st', (st' = RUNNING ∨ st' = PENDING) ∧ l = Some st' ∧ lost y (w, st') = true) ↔
  get_workflow_status w y = Ok st.
Proof.
  intros Hok Hw Hnone Hst l.
  assert (∀ st', lost y (w, st') = bool_decide (st' ∈ non_terminating_status)) as Hlost
    by (intros; by apply lost_iff).
  setoid_rewrite Hlost. rewrite status_cases, Hw.
  assert (∀ st', l = Some st' ↔ load_workflow_status w (index y) = st' ∧ (st' ∈ st_filter ∨ st' ∈ non_terminating_status)) as Hl.
  { intros st'. unfold l, listed. rewrite <- modified_filter. case_decide; naive_solver. }
  setoid_rewrite Hl. clear Hlost Hl l. split.
  - intros [[[-> _] Hn]|(-> & st' & [->| ->] & [-> _] & _)]; [|done..]. by destruct st.
  - destruct (load_workflow_status w (index y)) eqn:Hload; intros Heq; simplify_eq; try by (left; auto).
    + right. split; [done|]. exists RUNNING. split_and!; [auto|done|right; by left|done].
    + right. split; [done|]. exists PENDING. split_and!; [auto|done|right; right; by left|done].
Qed.

Lemma list_all_right y (st_filter : list WorkflowStatus) :
  sys_ok y → settled y → NONE ∉ st_filter →
  ∃ r, list_all st_filter (list_non_terminating_workflows (actor y)) (index y) = Ok r ∧
    ∀ w st, (w, st) ∈ r ↔ st ∈ st_filter ∧ get_workflow_status w y = Ok st.
Proof.
  intros Hok Hset Hnone.
  unfold list_all. destruct (forallb _ st_filter) eqn:Hall.
  - eexists. split; [reflexivity|]. intros w st. rewrite list_active by done. rewrite status_cases.
    destruct (is_workflow_non_terminating w y); [naive_solver|]. split; [naive_solver|]. intros [Hst Heq]. exfalso.
    rewrite forallb_forall in Hall. apply list_elem_of_In, Hall in Hst.
    by destruct (load_workflow_status w (index y)); simplify_eq.
  - set (fs := st_filter ++ _).
    assert (NONE ∉ fs) as Hfs by (unfold fs; rewrite modified_filter; set_solver).
    destruct (list_workflow_right (Some fs) (index y) (s_index y Hok) Hfs) as (r & Hr & Hget).
    rewrite Hr. eexists. split; [reflexivity|]. intros w st. rewrite list_stored_eq.
    assert (∀ w' st', (w', st') ∈ r ↔ listed fs (index y) w' = Some st') as Helem.
    { intros. rewrite elem_of_dict by by eapply list_workflow_wf. by rewrite Hget. }
    setoid_rewrite Helem. fold (lost y). destruct (decide (st ∈ st_filter)) as [Hst|]; [|tauto].
    apply and_iff_compat_l.
    destruct (is_workflow_non_terminating w y) eqn:Hact; [|by rewrite <- (inactive_listed st_filter) by done].
    rewrite status_cases, Hact. unfold is_workflow_non_terminating, din in Hact.
    destruct (dget w (_workflow_executors (actor y))) as [m|] eqn:Hm; [|done].
    etransitivity; [by apply (active_listed st_filter y w m)|]. split; [by intros ->|by intros [= ->]].
Qed.

(** ** The properties *)

(** C38: When every workflow whose turn it is has begun and none has just ended, a listing of
    all workflows with given statuses and the status of a single workflow agree: a workflow
    is listed with a status exactly if that is the status it has. *)
Theorem list_all_agrees mr mp s files rs y (st_filter : list WorkflowStatus) :
  mr = -1 ∨ 0 < mr → index_ok s → serves (boot mr mp s files) rs = Some y → settled y → NONE ∉ st_filter →
  ∃ r, list_all st_filter (list_non_terminating_workflows (actor y)) (index y) = Ok r ∧
    ∀ w st, (w, st) ∈ r ↔ st ∈ st_filter ∧ get_workflow_status w y = Ok st.
Proof.
  intros Hmr Hs Hrun Hset Hnone. pose proof (serves_ok _ _ _ (boot_ok mr mp s files Hmr Hs) Hrun) as Hok.
  by apply list_all_right.
Qed.

(** C36: In every history of submissions, executions, completions, cancellations, deletions and
    restarts, the workflows that the actor has are those that run and those that are queued,
    each once; no more run than are allowed, and workflows are queued only while that many
    run; a bounded queue keeps its bound; and no coroutine of the actor fails on its way out,
    so that a workflow that has ended always gives its place to the next. *)
Theorem actor_consistent mr mp s files rs y :
  mr = -1 ∨ 0 < mr → index_ok s → serves (boot mr mp s files) rs = Some y →
  let a := actor y in
  (∀ w, is_workflow_non_terminating w y = true ↔ w ∈ _running_workflows a ∪ _queued_workflows a) ∧
  _running_workflows a ## _queued_workflows a ∧
  NoDup (_workflow_queue a) ∧ (∀ w, w ∈ _workflow_queue a ↔ w ∈ _queued_workflows a) ∧
  (_max_running_workflows a ≠ -1 → Z.of_nat (size (_running_workflows a)) ≤ _max_running_workflows a) ∧
  (_workflow_queue a ≠ [] → Z.of_nat (size (_running_workflows a)) = _max_running_workflows a) ∧
  (0 < _max_pending_workflows a → Z.of_nat (length (_workflow_queue a)) ≤ _max_pending_workflows a) ∧
  (∀ r y' res, goes_on_alone r = true → serve y r = Some (y', res) → res = Ok tt).
Proof.
  intros Hmr Hs Hrun a. pose proof (serves_ok _ _ _ (boot_ok mr mp s files Hmr Hs) Hrun) as Hok.
  pose proof (s_admission y Hok) as Ha. fold a in Ha. split_and!; try apply Ha.
  - intros w. unfold is_workflow_non_terminating, din. fold a. rewrite elem_of_union, <- (a_keys a Ha).
    destruct (dget w (_workflow_executors a)); [by split; eauto|]. split; [done|by intros []].
  - intros w. apply (a_disjoint a Ha).
  - intros Hq. apply (a_full a Ha) in Hq. pose proof (a_running a Ha) as Hr. unfold at_capacity in Hq.
    apply andb_true_iff in Hq as [?%negb_true_iff%Z.eqb_neq ?%Z.leb_le]. lia.
  - intros r y' res Hr Hserve. by apply (serve_ok y r y' res Hok Hserve).
Qed.

(** C37: Queued workflows run in turn: until the actor is restarted, each call of
    [execute_workflow] that returns takes the workflow at the head of the queue, and new
    workflows come at its end.  So a workflow at position [k] of the queue has its turn when
    [k + 1] workflows have ended. *)
Theorem queue_in_turn mr mp s files rs y rs' y' :
  mr = -1 ∨ 0 < mr → index_ok s → serves (boot mr mp s files) rs = Some y →
  Forall (λ r, restarts r = false) rs' → serves y rs' = Some y' →
  ∃ ended new, returned y' = returned y ++ ended ∧
    _workflow_queue (actor y') = drop (length ended) (_workflow_queue (actor y)) ++ new.
Proof.
  intros Hmr Hs Hrun Hrs Hrun'. pose proof (serves_ok _ _ _ (boot_ok mr mp s files Hmr Hs) Hrun) as Hok.
  by apply (serves_fair y rs').
Qed.

(** C39: After a restart, every workflow that was queued or whose executor had not ended is
    reported as resumable, and it is listed as such. *)
Theorem restart_leaves_resumable mr mp s files rs y mr' mp' y' res w m :
  mr = -1 ∨ 0 < mr → index_ok s → serves (boot mr mp s files) rs = Some y →
  serve y (Restarts mr' mp') = Some (y', res) →
  dget w (_workflow_executors (actor y)) = Some m → terminated m = false →
  get_workflow_status w y' = Ok RESUMABLE ∧
  ∃ r, list_all [RESUMABLE] (list_non_terminating_workflows (actor y')) (index y') = Ok r ∧ (w, RESUMABLE) ∈ r.
Proof.
  intros Hmr Hs Hrun Hserve Hm Ht. pose proof (serves_ok _ _ _ (boot_ok mr mp s files Hmr Hs) Hrun) as Hok.
  destruct (serve_ok y _ y' res Hok Hserve) as (Hok' & _).
  pose proof (stored_status y w m Hok Hm Ht) as Hst. cbn in Hserve. destruct (_ || _); [done|].
  assert (settled y' ∧ is_workflow_non_terminating w y' = false ∧ index y' = index y) as (Hset & Hact & Hix).
  { injection Hserve as <- <-. split; [|done]. intros w'. cbn. set_solver. }
  assert (get_workflow_status w y' = Ok RESUMABLE) as Hstatus
    by (rewrite status_cases, Hact, Hix; by destruct Hst as [->| ->]).
  split; [done|]. destruct (list_all_right y' [RESUMABLE] Hok' Hset) as (r & Hr & Helem); [set_solver|].
  exists r. split; [done|]. apply Helem. split; [set_solver|done].
Qed.

(** ** Examples *)

Definition one_task : WorkflowExecutionState :=
  set_tasks {["t"%string := mkTask "t" (mkOptions FUNCTION false false 3 true) 0 0]}
    (set_task_input_args {["t"%string := 0]} (add_dependencies "t" [] (empty_state (Some "t"%string)))).

(** One workflow may run: the first runs its task, the second is queued. *)
Definition two_submitted : list request :=
  [Submits "w1" one_task; Executes "w1"; Submits "w2" one_task; Executes "w2"; Steps "w1" (RunsTurn 0%Q)].

Definition first_ends : list request :=
  [Steps "w1" (Completes 1 Value); Steps "w1" Polls; Steps "w1" (Handles id 1%Q); Steps "w1" Gathered;
   Steps "w1" (RunsTurn 2%Q)].

Lemma empty_index_ok : index_ok ∅.
Proof. exact (run_events_ok []). Qed.

Definition report (y : system) :=
  (get_workflow_status "w1" y, get_workflow_status "w2" y,
   list_all [SUCCESSFUL; RESUMABLE; RUNNING; PENDING] (list_non_terminating_workflows (actor y)) (index y),
   _workflow_queue (actor y), returned y).

Lemma example_filter : NONE ∉ [RUNNING; PENDING; SUCCESSFUL].
Proof. set_solver. Qed.

Lemma list_all_agrees_witness :
  ∃ y r, serves (boot 1 (-1) ∅ ∅) two_submitted = Some y ∧
    list_all [RUNNING; PENDING; SUCCESSFUL] (list_non_terminating_workflows (actor y)) (index y) = Ok r ∧
    ∀ w st, (w, st) ∈ r ↔ st ∈ [RUNNING; PENDING; SUCCESSFUL] ∧ get_workflow_status w y = Ok st.
Proof.
  destruct (serves (boot 1 (-1) ∅ ∅) two_submitted) as [y|] eqn:Hrun; [|by vm_compute in Hrun].
  assert (settled y) as Hset.
  { assert ((λ y, (elements (_running_workflows (actor y)), terminated <$> running_machine "w1" y)) <$>
      serves (boot 1 (-1) ∅ ∅) two_submitted = Some (["w1"%string], Some false)) as Hlook by (vm_compute; reflexivity).
    rewrite Hrun in Hlook. cbn in Hlook. injection Hlook as Hel Hm. intros w Hw.
    apply elem_of_elements in Hw. rewrite Hel in Hw. apply list_elem_of_singleton in Hw as ->.
    destruct (running_machine "w1" y) as [m|]; [|done]. cbn in Hm. injection Hm as Hm. exists m. split; [reflexivity|exact Hm]. }
  exists y. destruct (list_all_agrees 1 (-1) ∅ ∅ two_submitted y [RUNNING; PENDING; SUCCESSFUL]) as (r & Hr & Hrw);
    [right; lia|exact empty_index_ok|exact Hrun|exact Hset|exact example_filter|].
  exists r. split; [reflexivity|]. split; [exact Hr|exact Hrw].
Defined.

Lemma actor_consistent_witness :
  ∃ y, serves (boot 1 (-1) ∅ ∅) two_submitted = Some y ∧ Z.of_nat (size (_running_workflows (actor y))) = 1.
Proof.
  destruct (serves (boot 1 (-1) ∅ ∅) two_submitted) as [y|] eqn:Hrun; [|by vm_compute in Hrun].
  exists y. split; [reflexivity|].
  destruct (actor_consistent 1 (-1) ∅ ∅ two_submitted y) as (_ & _ & _ & _ & _ & Hfull & _);
    [by right|apply empty_index_ok|exact Hrun|].
  assert ((λ y, (_workflow_queue (actor y), _max_running_workflows (actor y))) <$>
    serves (boot 1 (-1) ∅ ∅) two_submitted = Some (["w2"%string], 1)) as Hq by (vm_compute; reflexivity).
  rewrite Hrun in Hq. cbn in Hq. injection Hq as Hq Hmr. rewrite <- Hmr. apply Hfull. by rewrite Hq.
Defined.

Lemma queue_in_turn_witness :
  ∃ y y' ended new, serves (boot 1 (-1) ∅ ∅) two_submitted = Some y ∧ serves y first_ends = Some y' ∧
    returned y' = returned y ++ ended ∧
    _workflow_queue (actor y') = drop (length ended) (_workflow_queue (actor y)) ++ new.
Proof.
  destruct (serves (boot 1 (-1) ∅ ∅) two_submitted) as [y|] eqn:Hrun; [|by vm_compute in Hrun].
  assert (is_Some (serves (boot 1 (-1) ∅ ∅) two_submitted ≫= λ y, serves y first_ends)) as [y' Hy']
    by (vm_compute; by eexists).
  rewrite Hrun in Hy'. cbn [mbind option_bind] in Hy'.
  destruct (queue_in_turn 1 (-1) ∅ ∅ two_submitted y first_ends y') as (ended & new & Hr & Hq);
    [by right|apply empty_index_ok|exact Hrun|by repeat constructor|exact Hy'|].
  exists y, y', ended, new. split; [reflexivity|]. split; [exact Hy'|]. split; [exact Hr|exact Hq].
Defined.

Lemma restart_leaves_resumable_witness :
  ∃ y y', serves (boot 1 (-1) ∅ ∅) two_submitted = Some y ∧ serve y (Restarts 2 5) = Some (y', Ok tt) ∧
    get_workflow_status "w2" y' = Ok RESUMABLE.
Proof.
  destruct (serves (boot 1 (-1) ∅ ∅) two_submitted) as [y|] eqn:Hrun; [|by vm_compute in Hrun].
  assert ((λ y, terminated <$> dget "w2"%string (_workflow_executors (actor y))) <$>
    serves (boot 1 (-1) ∅ ∅) two_submitted = Some (Some false)) as Hlook by (vm_compute; reflexivity).
  rewrite Hrun in Hlook. cbn in Hlook. injection Hlook as Hm.
  destruct (dget "w2"%string (_workflow_executors (actor y))) as [m|] eqn:Hget; [|done]. injection Hm as Hm.
  exists y. eexists. split; [reflexivity|]. split; [reflexivity|].
  eapply (restart_leaves_resumable 1 (-1) ∅ ∅ two_submitted y 2 5 _ (Ok tt) "w2" m);
    [by right|apply empty_index_ok|exact Hrun|reflexivity|exact Hget|exact Hm].
Defined.

(** The first workflow has ended and the second has its turn, but has not begun: the status says
    that it runs, the listing that it is resumable; resuming what is listed then raises. *)
Example next_listed_resumable :
  report <$> serves (boot 1 (-1) ∅ ∅) (two_submitted ++ first_ends) =
    Some (Ok SUCCESSFUL, Ok RUNNING, Ok [("w1", SUCCESSFUL); ("w2", RESUMABLE)], [], [("w1", Ok (InMemory 0))])%string ∧
  (λ y, (reconstruct_workflow "w2" (Ok one_task) y).2) <$> serves (boot 1 (-1) ∅ ∅) (two_submitted ++ first_ends) =
    Some (Err RuntimeError).
Proof. split; vm_compute; reflexivity. Qed.

(** To cancel a workflow that has succeeded makes it canceled, and its output is lost; to cancel
    one that does not exist makes one. *)
Example cancel_after_success :
  (λ y, (get_workflow_status "w1" y, (get_output "w1" None y).2, get_workflow_status "w3" y)) <$>
    serves (boot 1 (-1) ∅ ∅) (two_submitted ++ first_ends ++ [CancelsWorkflow "w1"; CancelsWorkflow "w3"]) =
  Some (Ok CANCELED, Err ValueError, Ok CANCELED).
Proof. vm_compute. reflexivity. Qed.

(** A queued workflow that is cancelled is still queued, has its turn, and succeeds. *)
Example cancelled_in_queue_runs :
  report <$> serves (boot 1 (-1) ∅ ∅)
    (two_submitted ++ [CancelsWorkflow "w2"] ++ first_ends ++
     [Wakes "w2"; Steps "w2" (RunsTurn 0%Q); Steps "w2" (Completes 2 Value); Steps "w2" Polls;
      Steps "w2" (Handles id 1%Q); Steps "w2" Gathered; Steps "w2" (RunsTurn 2%Q)]) =
  Some (Ok SUCCESSFUL, Ok SUCCESSFUL, Ok [("w1", SUCCESSFUL); ("w2", SUCCESSFUL)], [],
        [("w1", Ok (InMemory 0)); ("w2", Ok (InMemory 1))])%string.
Proof. vm_compute. reflexivity. Qed.

(** A queue for no workflow has no bound. *)
Example no_pending_is_unbounded :
  (λ y, _workflow_queue (actor y)) <$> serves (boot 1 0 ∅ ∅)
    [Submits "w1" one_task; Submits "w2" one_task; Submits "w3" one_task] = Some ["w2"; "w3"]%string.
Proof. vm_compute. reflexivity. Qed.
